(* ===== verification/_CoqProject ===== *)
-Q . S2P
Prelude.v
Keeps.v
Layout.v
ProcTable.v
Sched.v
Xem.v
Spinlock.v
Sleeplock.v
CString.v
Kalloc.v
Pipe.v
Bytes.v
BlockCache.v
Bio.v
Log.v
LogBio.v
Fs.v
FsBlocks.v
FsInode.v
FsFile.v
FsRw.v
FsTrunc.v
FsDir.v
FsProg.v
FsLog.v
FsLogBio.v
PageAlloc.v
Vm.v
VmMap.v
VmUser.v
VmCopy.v
Kernel.v
File.v
Proc.v
Syscall.v
Sysfile.v
Exec.v
KernelInv.v
ProcLife.v
Ulib.v
Printf.v
Umalloc.v
Grep.v
Sh.v
ShRun.v
ShMain.v
Console.v
Cprintf.v
Kbd.v
Ide.v
Trap.v
Mkfs.v
MkfsImage.v
UserMem.v
Guard.v
UserIo.v
GrepMain.v
UlibMem.v
Context.v
Gates.v
Boot.v
Mp.v
Apic.v
Cpu.v
Startup.v
