(* ===== verification/Prelude.v ===== *)
(** * A verification of an xv6 kernel with stride and MLFQ scheduling, threads and
      large files

    The program is the operating system in src/xv6-public: the xv6 kernel, extended
    with a scheduler of two policies (a multilevel feedback queue and strides),
    threads, semaphores and readers-writer locks, files with double and triple
    indirect blocks and positional reads and writes, together with its boot loader,
    the tool that makes the disk image, the user library, the shell and some user
    programs.  The C functions are translated into functions of this library, with
    the same names where possible, and theorems about them are proved.

    ** How code is modelled

    A function of the program is a Rocq function in the monad [M S] of this file, on
    the state [S] of its component.  A run returns ([Ok]), calls panic ([Panic]),
    gives up the processor ([Block]), reaches what the C standard or the hardware
    leaves undefined ([Undef]), or has used up its fuel ([NoFuel]).  The predicate
    [returns m s Q] is total correctness: the run returns, with a result that
    satisfies [Q].  Keeps.v has the partial one for invariants that hold whether
    or not a call panics or waits.  Machine integers are of type [Z] with the
    wrap-around written out ([u8], [u32], [s32] in this file); signed overflow
    is [Undef] where the code can reach it.  Structs are records, pointers into tables are indices, and where the
    code works on raw memory (page tables, free lists, heaps, stacks, descriptors)
    the model has a byte memory (CString.v) and addresses.  Where several processors
    or processes interleave, a step relation with one rule per access to shared
    memory, or per section under a lock, takes the place of the function.

    ** The parts and how they fit together

    Processor and start of the machine.  Boot.v is bootmain.c on a drive with
    programmed I/O.  Mp.v (mp.c) reads the tables of the firmware, Apic.v (lapic.c,
    ioapic.c, picirq.c, consoleinit, uartinit, ideinit) sets up the interrupt
    controllers, Cpu.v (mycpu, cpuid of proc.c) finds the running processor in the
    table, and Startup.v (startothers of main.c, entryother.S, asm.h) starts the
    others.  Gates.v (mmu.h, seginit, tvinit, switchuvm) has the segment and gate
    descriptors bit by bit and the way the processor enters the kernel through them;
    Context.v (swtch.S, trapasm.S, vectors.pl) the instructions that save and switch
    stacks; Trap.v (trap.c) what a trap does to the machine made of the kernel, the
    console and the disk.

    Locks.  Spinlock.v (spinlock.c), Sleeplock.v (sleeplock.c with sleep and wakeup),
    Xem.v (semaphores and readers-writer locks of proc.c) and Guard.v
    (thread_safe_guard.c) are step relations of interleaved processors or threads.
    Other components see a spin lock as a flag of their state that must not be
    taken twice.

    Memory.  Layout.v has the address macros, CString.v the byte memory and string.c.
    Kalloc.v (kalloc.c) is the page allocator on the free list in the pages; it
    implements the class [PageAlloc] of PageAlloc.v, on which Vm.v, VmMap.v, VmUser.v
    and VmCopy.v (vm.c) build page tables and address spaces.  UserMem.v shows what
    the checks of syscall.c guarantee for accesses through the page table.

    Storage.  Ide.v is the disk driver with its queue and interrupts, Bio.v (bio.c,
    memide.c) the buffer cache, which implements the class [BlockCache] of
    BlockCache.v; Log.v (log.c) is the log on that class, LogBio.v its instance.
    Bytes.v has the integers in disk blocks.  Fs.v is fs.c on the blocks as the log
    and the cache present them inside a transaction, with FsBlocks.v (balloc, bfree),
    FsInode.v (iupdate, ilock), FsFile.v (bmap), FsRw.v (readi, writei), FsTrunc.v
    (itrunc) and FsDir.v (directories and paths).  FsProg.v gives every function of
    Fs.v as a program over buffers, and FsLog.v runs these programs on the log and
    the cache, with crashes and with the start in forkret (proc.c); FsLogBio.v is an
    instance on bio.c.  Mkfs.v and MkfsImage.v are mkfs.c and the image it makes.

    Processes.  ProcTable.v has struct proc and the globals of proc.c, Sched.v the
    scheduler.  Kernel.v joins the process table, the processor, the memory, the file
    system, the files and the pipes into one state, with sleep, wakeup and kill;
    File.v (file.c, and pipe.c on this state; Pipe.v has pipes with interleaved
    readers and writers), Proc.v (the rest of proc.c), Syscall.v (syscall.c,
    sysproc.c, prac_syscall.c), Sysfile.v (sysfile.c) and Exec.v (exec.c and the
    dispatch of system calls) are its operations.  KernelInv.v and ProcLife.v have
    theorems on the whole kernel.

    Console.  Console.v (console.c), Cprintf.v (cprintf and panic), Kbd.v (kbd.c and
    uart.c).

    User programs.  Ulib.v, UlibMem.v (ulib.c, and fmtname of ls.c), Printf.v
    (printf.c), Umalloc.v (umalloc.c), Grep.v and GrepMain.v (grep.c), UserIo.v (cat.c,
    wc.c, echo.c), Sh.v (the parser of sh.c), ShRun.v (runcmd) and ShMain.v (the loop of
    the shell).

    ** What the theorems show

    Durability: a transaction of file system calls on the log and the cache returns
    what fs.c computes on plain blocks, and after a crash at any of its disk writes
    the restarted system has all of it or nothing (FsLog.v); the cache always
    returns the last contents of a block (Bio.v); the driver serves requests in
    order, each once, under every interleaving with interrupts (Ide.v).

    Files: what is written is read back and nothing else changes, up to the double
    indirect blocks (FsRw.v), bmap and
    itrunc keep each block in one tree and give every block back once (FsFile.v,
    FsTrunc.v), lookup in a directory is lookup in the list of its entries
    (FsDir.v), the image of mkfs is a file system of the kernel with the files it
    was given (MkfsImage.v), and a bug of bmap in the triple indirect tree is
    characterised (FsFile.v).

    Kernel: no file is reused while a descriptor refers to it, process numbers are
    unique, tables keep their types, in every state that system calls, interrupts and
    the scheduler reach, wherever processes sleep or are interrupted inside a call
    (KernelInv.v, where the state carries the references that unfinished calls hold and
    the descriptors that exit has closed and not cleared, or sys_dup made and not
    counted); fork copies the caller or undoes what it did, and wait gives back all
    that fork took (ProcLife.v); a killed process does not return to user mode, also
    when it was killed while it waited (Trap.v); a child returns 0 from fork and a trap saves and restores every register
    (Context.v); the kernel is entered only at its handlers (Gates.v).

    Scheduling: the choice of the next process is the best by level and quanta used, among
    the processes that the scan considers; the accounts of the two policies stay
    balanced up to one round at the truncated costs 10000/(100-S) and 10000/S; and no
    process waits for a boost longer than the period (Sched.v).

    Memory: no page is lost or handed out twice (Kalloc.v), address spaces are grown,
    copied and freed exactly, failures included (VmUser.v, VmCopy.v), accepted
    pointers lie in the memory of the process and accesses through them touch nothing
    else (UserMem.v).

    Locks: mutual exclusion and no lost wake-up (Spinlock.v, Sleeplock.v, Xem.v), and
    atomic reads and writes through the guard (Guard.v); bytes leave a pipe in the
    order they entered it (Pipe.v).

    Start: the boot loader places the kernel, or gives up on an image that is none
    (Boot.v), the processors of the tables are listed, started by the interrupts sent to
    them and find themselves (Mp.v, Startup.v, Cpu.v), interrupts are routed (Apic.v).

    Console and user programs: the console is a line editor (Console.v, Kbd.v), the
    parser of the shell accepts exactly what its printer makes and ends on every line
    (Sh.v), a session of lines starts exactly the programs and pipes they name, whatever
    the children read of the input, until fork fails or the input ends (ShRun.v, ShMain.v), grep decides its patterns and prints the matching
    lines of its files (Grep.v, GrepMain.v), malloc never overlaps
    live requests of a size below 2147483600 (Umalloc.v), cat and wc copy and count whatever the reads return
    (UserIo.v).

    ** Fuel and bounds

    A loop with a fixed number of iterations is [for_].  Other loops take fuel, and
    their theorems show that they return with the fuel their callers give: the
    loops over byte ranges, pages and directory entries one unit per byte, page or
    entry of the range and one more; the parser of the shell the length of the line
    and one more, as every round consumes a character; the lists of free blocks in
    umalloc.c two more than the number of headers that fit below the break; the ring
    of buffers and the queue of requests their number of elements; number conversion
    33 rounds, enough for base 2.  Where the fuel is an argument (string searches,
    mpinit, the shell) the theorems ask for the length of the string, the table or
    the session.  Sizes such as NPROC, NBUF, LOGSIZE and NINDIRECT are those of
    param.h and fs.h.

    ** What is a parameter

    The hardware beyond the processor's registers and memory: the drive (classes
    [Ata] in Ide.v and [PioDisk] in Boot.v, with the documented protocol and an
    instance each), the bytes of the keyboard and the serial line, the time an
    interprocessor interrupt takes, the memory the firmware fills.  For user programs
    the kernel is what its calls may return.  Theorems with such a parameter have an
    instance with a concrete one.

    ** Not modelled

    Changes of the processor mode in bootasm.S, entry.S and entryother.S, which only
    the processor gives a meaning; main and mpmain of main.c, which call the
    initialisations in turn, pinit and the other functions that only name locks, and
    kvmalloc; usys.S and initcode.S, one instruction sequence per system call; init.c,
    the listing of ls.c, and the programs ln, rm, mkdir,
    kill, zombie, expipe, my_userapp and my_userapp_2, which make a few system calls
    on their arguments; usertests.c and the other tests, which are not part of the
    system; prototypes in defs.h and user.h; scripts of the build.  fork of a process
    that has threads is modelled up to the point where the code reads an array it
    has not written.  The call stack that a spin lock records is left out, and so are
    timing (microdelay) and the fairness of the hardware.  A process that waits inside
    a call is one whose call ends in [Block]; where the code goes on after it is woken
    is a definition of its own. *)

From stdpp Require Export base tactics decidable option list strings numbers sets gmap.
#[global] Open Scope Z_scope.

(** ** Record update

    [r <| f := v |>] is the C assignment [r.f = v].  A record type declares its
    eta expansion as an instance of [Eta]; the setter of every field is then
    derived from it by replacing that one field. *)

Class Eta (R : Type) := eta : R → R.
Class Setter {R T : Type} (f : R → T) := set : (T → T) → R → R.
Arguments set {R T} f {_} _ _.

Ltac derive_setter :=
  match goal with
  | |- @Setter ?R ?T ?f =>
    let inst := constr:(_ : Eta R) in
    let e := eval hnf in inst in
    exact (λ (g : T → T) (r : R),
      ltac:(let b := eval cbv beta in (e r) in
            let b' := eval pattern f in b in
            match b' with
            | ?h _ => let x := eval cbv beta in (h (fun r' => g (f r'))) in exact x
            end))
  end.

#[export] Hint Extern 1 (Setter _) => derive_setter : typeclass_instances.

Declare Scope xv6_scope.
Delimit Scope xv6_scope with xv6.
#[global] Open Scope xv6_scope.

Notation "r <| f := v |>" := (set f (λ _, v) r)
  (at level 1, f at level 0, left associativity, format "r <| f  :=  v |>") : xv6_scope.

(** ** Machine integers

    A [uint] is a [Z] in [0, 2^32); arithmetic that may wrap is written with
    [u32].  An [int] is a [Z] in [-2^31, 2^31) and [s32] is the conversion of
    a 32-bit pattern to it. *)

Definition two32 : Z := 4294967296.
Definition u32 (x : Z) : Z := x mod two32.
Definition s32 (x : Z) : Z := if u32 x <? 2147483648 then u32 x else u32 x - two32.
Definition u8 (x : Z) : Z := x mod 256.

Lemma u32_range x : 0 ≤ u32 x < two32.
Proof. apply Z.mod_pos_bound. done. Qed.

Lemma u32_small x : 0 ≤ x < two32 → u32 x = x.
Proof. apply Z.mod_small. Qed.

Lemma s32_small x : -2147483648 ≤ x < 2147483648 → s32 x = x.
Proof.
  unfold s32, u32, two32; intros.
  destruct (decide (0 ≤ x)).
  - rewrite Z.mod_small by lia. case (Z.ltb_spec x 2147483648); lia.
  - rewrite <-(Z.mod_add x 1) by lia. rewrite Z.mod_small by lia.
    case (Z.ltb_spec (x + 1 * 4294967296) 2147483648); lia.
Qed.

(** ** Outcomes of kernel code

    A C function that works on a kernel state [S] is a function of type
    [M S A].  It returns a value ([Ok]), calls [panic] ([Panic]), calls [sleep]
    or spins and so gives up the processor inside the call ([Block]), has
    undefined behaviour such as an index out of range ([Undef]), or, for the
    loops that are not structural, exceeds the iterations allowed ([NoFuel]). *)

Inductive outcome (S A : Type) : Type :=
| Ok (a : A) (s : S)
| Panic (msg : string)
| Block (s : S)
| Undef (why : string)
| NoFuel.

Arguments Ok {S A} a s.
Arguments Panic {S A} msg.
Arguments Block {S A} s.
Arguments Undef {S A} why.
Arguments NoFuel {S A}.

Definition M (S A : Type) : Type := S → outcome S A.

#[export] Instance M_ret {S} : MRet (M S) := λ A a s, Ok a s.
#[export] Instance M_bind {S} : MBind (M S) := λ A B k m s,
  match m s with
  | Ok a s' => k a s'
  | Panic msg => Panic msg
  | Block s' => Block s'
  | Undef why => Undef why
  | NoFuel => NoFuel
  end.

Section Operations.
Context {S : Type}.

Definition gets {A} (f : S → A) : M S A := λ s, Ok (f s) s.
Definition modify (f : S → S) : M S unit := λ s, Ok tt (f s).
Definition panic {A} (msg : string) : M S A := λ _, Panic msg.
Definition undef {A} (why : string) : M S A := λ _, Undef why.
Definition block {A} : M S A := λ s, Block s.
Definition skip : M S unit := mret tt.
Definition when (b : bool) (m : M S unit) : M S unit := if b then m else skip.

(** [int] addition, which must not overflow, and [int] division. *)
Definition sadd (a b : Z) : M S Z :=
  if (-2147483648 <=? a + b) && (a + b <? 2147483648)
  then mret (a + b) else undef "signed overflow".
Definition sdiv (a b : Z) : M S Z :=
  if b =? 0 then undef "division by zero" else mret (Z.quot a b).

(** [for (i = lo; i < lo + n; i++) body(i)] *)
Fixpoint for_ (n : nat) (lo : Z) (body : Z → M S unit) : M S unit :=
  match n with
  | O => skip
  | Datatypes.S n => _ ← body lo; for_ n (lo + 1) body
  end.

(** The same loop where the body may leave the function with a value. *)
Fixpoint for_ret {R} (n : nat) (lo : Z) (body : Z → M S (option R)) : M S (option R) :=
  match n with
  | O => mret None
  | Datatypes.S n =>
      r ← body lo;
      match r with Some v => mret (Some v) | None => for_ret n (lo + 1) body end
  end.

(** [m] runs from [s] to a normal return that satisfies [Q]. *)
Definition returns {A} (m : M S A) (s : S) (Q : A → S → Prop) : Prop :=
  match m s with Ok a s' => Q a s' | _ => False end.

Lemma returns_ret {A} (a : A) s (Q : A → S → Prop) : Q a s → returns (mret a) s Q.
Proof. done. Qed.

Lemma returns_bind {A B} (m : M S A) (k : A → M S B) s Q :
  returns m s (λ a s', returns (k a) s' Q) → returns (m ≫= k) s Q.
Proof. unfold returns, mbind, M_bind. destruct (m s); done. Qed.

Lemma returns_bind_inv {A B} (m : M S A) (k : A → M S B) s Q :
  returns (m ≫= k) s Q → returns m s (λ a s', returns (k a) s' Q).
Proof. unfold returns, mbind, M_bind. destruct (m s); done. Qed.

Lemma returns_mono {A} (m : M S A) s (P Q : A → S → Prop) :
  returns m s P → (∀ a s', P a s' → Q a s') → returns m s Q.
Proof. unfold returns. destruct (m s); naive_solver. Qed.

Lemma returns_ok {A} (m : M S A) s Q :
  returns m s Q → ∃ a s', m s = Ok a s' ∧ Q a s'.
Proof. unfold returns. destruct (m s); naive_solver. Qed.

Lemma returns_eq {A} (m : M S A) s a s' (Q : A → S → Prop) :
  returns m s Q → m s = Ok a s' → Q a s'.
Proof. unfold returns. intros H E. by rewrite E in H. Qed.

Lemma ok_returns {A} (m : M S A) s a s' (Q : A → S → Prop) :
  m s = Ok a s' → Q a s' → returns m s Q.
Proof. unfold returns. intros ->. done. Qed.

Lemma returns_gets {A} (f : S → A) s (Q : A → S → Prop) : Q (f s) s → returns (gets f) s Q.
Proof. done. Qed.

Lemma returns_modify (f : S → S) s (Q : unit → S → Prop) : Q tt (f s) → returns (modify f) s Q.
Proof. done. Qed.

(** The invariant rule of [for_]. *)
Lemma returns_for (n : nat) (body : Z → M S unit) (I : Z → S → Prop) :
  ∀ lo s,
  I lo s →
  (∀ i s', lo ≤ i < lo + Z.of_nat n → I i s' →
           returns (body i) s' (λ _ s'', I (i + 1) s'')) →
  returns (for_ n lo body) s (λ _ s', I (lo + Z.of_nat n) s').
Proof.
  induction n as [|n IH]; intros lo s Hlo Hbody; simpl.
  - apply returns_ret. by rewrite Z.add_0_r.
  - apply returns_bind. eapply returns_mono; [apply Hbody; [lia | done] |].
    intros [] s' H'.
    replace (lo + Z.of_nat (Datatypes.S n)) with (lo + 1 + Z.of_nat n) by lia.
    apply IH; [done |]. intros i s'' Hi. apply Hbody. lia.
Qed.

(** The invariant rule of [for_ret]. *)
Lemma returns_for_ret {R} (n : nat) (body : Z → M S (option R)) (I : Z → S → Prop) (Q : R → S → Prop) :
  ∀ lo s,
  I lo s →
  (∀ i s', lo ≤ i < lo + Z.of_nat n → I i s' →
           returns (body i) s' (λ r s'', match r with Some v => Q v s'' | None => I (i + 1) s'' end)) →
  returns (for_ret n lo body) s (λ r s',
    match r with Some v => Q v s' | None => I (lo + Z.of_nat n) s' end).
Proof.
  induction n as [|n IH]; intros lo s Hlo Hbody; simpl.
  - apply returns_ret. by rewrite Z.add_0_r.
  - apply returns_bind. eapply returns_mono; [apply Hbody; [lia | done] |].
    intros [v|] s' H'; [by apply returns_ret|].
    replace (lo + Z.of_nat (Datatypes.S n)) with (lo + 1 + Z.of_nat n) by lia.
    apply IH; [done |]. intros i s'' Hi. apply Hbody. lia.
Qed.

(** Inversion of a normal return. *)
Lemma bind_ok {A B} (m : M S A) (k : A → M S B) s b s'' :
  (m ≫= k) s = Ok b s'' → ∃ a s', m s = Ok a s' ∧ k a s' = Ok b s''.
Proof. unfold mbind, M_bind. destruct (m s); naive_solver. Qed.

End Operations.

(** Running a component's operation on a larger state that contains it. *)
Definition zoom {S T A} (get : T → S) (put : S → T → T) (m : M S A) : M T A :=
  λ t, match m (get t) with
       | Ok a s => Ok a (put s t)
       | Panic msg => Panic msg
       | Block s => Block (put s t)
       | Undef why => Undef why
       | NoFuel => NoFuel
       end.

(** Tactics: [mstep] runs one monadic step of a total-correctness goal,
    [bsimpl] turns boolean comparisons into propositions, [case_ifs] splits
    on the condition of the first conditional. *)
Ltac bsimpl :=
  repeat match goal with
  | H : (_ && _)%bool = true |- _ => apply andb_true_iff in H; destruct H
  | H : (_ || _)%bool = false |- _ => apply orb_false_iff in H; destruct H
  | H : negb _ = true |- _ => apply negb_true_iff in H
  | H : negb _ = false |- _ => apply negb_false_iff in H
  | H : (_ <? _) = true |- _ => apply Z.ltb_lt in H
  | H : (_ <? _) = false |- _ => apply Z.ltb_ge in H
  | H : (_ <=? _) = true |- _ => apply Z.leb_le in H
  | H : (_ <=? _) = false |- _ => apply Z.leb_gt in H
  | H : (_ =? _) = true |- _ => apply Z.eqb_eq in H
  | H : (_ =? _) = false |- _ => apply Z.eqb_neq in H
  | H : bool_decide _ = true |- _ => apply bool_decide_eq_true in H
  | H : bool_decide _ = false |- _ => apply bool_decide_eq_false in H
  end.

Ltac case_if :=
  match goal with
  | |- context [if ?b then _ else _] =>
      lazymatch type of b with
      | bool => let E := fresh "E" in destruct b eqn:E; bsimpl
      | sumbool _ _ => let E := fresh "E" in destruct b as [E|E]
      end
  end.

Ltac mstep :=
  lazymatch goal with
  | |- returns (mret _) _ _ => apply returns_ret
  | |- returns (_ ≫= _) _ _ => apply returns_bind
  | |- returns (gets _) _ _ => unfold gets at 1; cbv beta
  | |- returns (λ _, _) _ _ => unfold returns; cbv beta
  end.

(** Run as many steps as possible without splitting. *)
Ltac mgo :=
  repeat lazymatch goal with
  | |- returns (mret _) _ _ => apply returns_ret; cbv beta
  | |- returns (_ ≫= _) _ _ => apply returns_bind; cbv beta
  | |- returns (gets _) _ _ => apply returns_gets; cbv beta
  | |- returns (modify _) _ _ => apply returns_modify; cbv beta
  | |- returns skip _ _ => unfold skip
  | |- returns (when true _) _ _ => unfold when
  | |- returns (when false _) _ _ => unfold when
  | |- returns (if true then _ else _) _ _ => cbv iota
  | |- returns (if false then _ else _) _ _ => cbv iota
  end.

(** ** Finite functions

    Memory, the disk and the like are total functions updated at a point. *)
Definition upd {K V : Type} `{EqDecision K} (f : K → V) (k : K) (v : V) : K → V :=
  λ k', if decide (k' = k) then v else f k'.

Section Upd.
Context {K V : Type} `{EqDecision K}.
Implicit Types f : K → V.

Lemma upd_eq f k v : upd f k v k = v.
Proof. unfold upd. by rewrite decide_True. Qed.

Lemma upd_ne f k k' v : k' ≠ k → upd f k v k' = f k'.
Proof. intros. unfold upd. by rewrite decide_False. Qed.

Lemma upd_id f k k' : upd f k (f k) k' = f k'.
Proof. unfold upd. by case_decide; subst. Qed.
End Upd.

(** ** Sums over a list

    The accounting invariants sum a quantity of each process, thread or block. *)
Section Sums.
Context {A : Type}.
Implicit Types (g h : A → Z) (l : list A).

Fixpoint psum (g : A → Z) (l : list A) : Z :=
  match l with [] => 0 | p :: l => g p + psum g l end.

Lemma psum_alter g (f : A → A) i l p :
  l !! i = Some p → psum g (alter f i l) = psum g l - g p + g (f p).
Proof.
  revert i. induction l as [|q l IH]; intros [|i] H; simplify_eq/=; [lia|].
  rewrite (IH i) by done. lia.
Qed.

Lemma psum_ext g h l l' :
  length l = length l' →
  (∀ i p p', l !! i = Some p → l' !! i = Some p' → g p = h p') →
  psum g l = psum h l'.
Proof.
  revert l'. induction l as [|p l IH]; intros [|p' l'] Hlen H; simplify_eq/=; [done|].
  f_equal.
  - by apply (H 0%nat).
  - apply IH; [done|]. intros i. apply (H (S i)).
Qed.

Lemma psum_app g l1 l2 : psum g (l1 ++ l2) = psum g l1 + psum g l2.
Proof. induction l1 as [|p l1 IH]; cbn; [done|]. cbn in IH. lia. Qed.

Lemma psum_nonneg g l : (∀ i p, l !! i = Some p → 0 ≤ g p) → 0 ≤ psum g l.
Proof.
  induction l as [|p l IH]; intros H; simpl; [lia|].
  pose proof (H 0%nat p eq_refl). specialize (IH (λ i, H (S i))). lia.
Qed.

Lemma psum_elem g l i p :
  (∀ i p, l !! i = Some p → 0 ≤ g p) → l !! i = Some p → g p ≤ psum g l.
Proof.
  revert i. induction l as [|q l IH]; intros [|i] Hn Hi; simplify_eq/=.
  - pose proof (psum_nonneg g l (λ i, Hn (S i))). lia.
  - pose proof (Hn 0%nat q eq_refl). specialize (IH i (λ i, Hn (S i)) Hi). lia.
Qed.

Lemma psum_insert g i x l p :
  l !! i = Some p → psum g (<[i:=x]> l) = psum g l - g p + g x.
Proof.
  revert i. induction l as [|q l IH]; intros [|i] H; simplify_eq/=; [lia|].
  rewrite (IH i) by done. lia.
Qed.

(** Two entries count twice. *)
Lemma psum_elem2 g l i j p q :
  (∀ i p, l !! i = Some p → 0 ≤ g p) → i ≠ j → l !! i = Some p → l !! j = Some q →
  g p + g q ≤ psum g l.
Proof.
  revert i j. induction l as [|r l IH]; intros [|i] [|j] Hn Hij Hi Hj; simplify_eq/=.
  - pose proof (psum_elem g l j q (λ i, Hn (S i)) Hj). lia.
  - pose proof (psum_elem g l i p (λ i, Hn (S i)) Hi). lia.
  - pose proof (Hn 0%nat r eq_refl).
    specialize (IH i j (λ i, Hn (S i)) ltac:(congruence) Hi Hj). lia.
Qed.

(** A positive sum has a positive term. *)
Lemma psum_pos g l : 0 < psum g l → ∃ i p, l !! i = Some p ∧ 0 < g p.
Proof.
  induction l as [|q l IH]; simpl; [lia|]. intros H.
  destruct (decide (0 < g q)); [by exists 0%nat, q|].
  destruct IH as (i & p & ? & ?); [lia|]. by exists (S i), p.
Qed.
End Sums.

Lemma size_union_le `{Countable A} (X Y : gset A) : (size (X ∪ Y) ≤ size X + size Y)%nat.
Proof.
  rewrite size_union_alt. apply Nat.add_le_mono_l, subseteq_size. set_solver.
Qed.

Create HintDb xv6.
Create Rewrite HintDb xv6_rw.
#[export] Hint Rewrite @upd_eq : xv6_rw.
#[export] Hint Resolve returns_ret u32_range : xv6.
