(* ===== verification/Keeps.v ===== *)
(** Partial correctness of operations: what every run that returns or gives up the
    processor keeps, whether or not it can panic. *)

From S2P Require Import Prelude.

Section Safe.
Context {T : Type}.

(** The operation may panic; [B] holds where it gives up the processor. *)
Definition safe {A} (B : T → Prop) (m : M T A) (t : T) (Q : A → T → Prop) : Prop :=
  match m t with Ok a t' => Q a t' | Block t' => B t' | _ => True end.

(** [m] keeps [I]. *)
Definition keeps {A} (I : T → Prop) (m : M T A) : Prop := ∀ t, I t → safe I m t (λ _, I).

Lemma safe_mono {A} B (m : M T A) t (P Q : A → T → Prop) :
  safe B m t P → (∀ a t', P a t' → Q a t') → safe B m t Q.
Proof. unfold safe. destruct (m t); auto. Qed.

Lemma safe_bind {A C} B (m : M T A) (f : A → M T C) t Q :
  safe B m t (λ a t', safe B (f a) t' Q) → safe B (m ≫= f) t Q.
Proof. unfold safe, mbind, M_bind. destruct (m t); done. Qed.

Lemma safe_modify B f t (Q : unit → T → Prop) : Q tt (f t) → safe B (modify f) t Q.
Proof. done. Qed.

Lemma safe_gets {A} B (f : T → A) t (Q : A → T → Prop) : Q (f t) t → safe B (gets f) t Q.
Proof. done. Qed.

Lemma safe_ret {A} B (a : A) t (Q : A → T → Prop) : Q a t → safe B (mret a) t Q.
Proof. done. Qed.

Context (I : T → Prop).

Lemma keeps_ret {A} (a : A) : keeps I (mret a).
Proof. intros t Ht. done. Qed.

Lemma keeps_bind {A C} (m : M T A) (f : A → M T C) :
  keeps I m → (∀ a, keeps I (f a)) → keeps I (m ≫= f).
Proof.
  intros Hm Hf t Ht. apply safe_bind. eapply safe_mono; [by apply Hm|]. intros a t' Ht'. by apply Hf.
Qed.

Lemma keeps_gets {A} (f : T → A) : keeps I (gets f).
Proof. intros t Ht. done. Qed.
Lemma keeps_panic {A} msg : keeps I (panic (A := A) msg).
Proof. intros t Ht. done. Qed.
Lemma keeps_undef {A} msg : keeps I (undef (A := A) msg).
Proof. intros t Ht. done. Qed.
Lemma keeps_block {A} : keeps I (block (A := A)).
Proof. intros t Ht. done. Qed.
Lemma keeps_skip : keeps I skip.
Proof. apply keeps_ret. Qed.
Lemma keeps_nofuel {A} : keeps I (λ _, NoFuel : outcome T A).
Proof. intros t Ht. done. Qed.
Lemma keeps_modify f : (∀ t, I t → I (f t)) → keeps I (modify f).
Proof. intros H t Ht. by apply H. Qed.

Lemma keeps_sadd a b : keeps I (sadd a b).
Proof. unfold sadd. case_if; [apply keeps_ret|apply keeps_undef]. Qed.
Lemma keeps_sdiv a b : keeps I (sdiv a b).
Proof. unfold sdiv. case_if; [apply keeps_undef|apply keeps_ret]. Qed.

(** What is kept, added to what is returned. *)
Lemma returns_keeps {A} (m : M T A) t (Q : A → T → Prop) :
  returns m t Q → keeps I m → I t → returns m t (λ a t', Q a t' ∧ I t').
Proof. intros H Hk Ht. specialize (Hk t Ht). unfold returns, safe in *. by destruct (m t). Qed.

Lemma keeps_for n lo body : (∀ i, keeps I (body i)) → keeps I (for_ n lo body).
Proof.
  intros H. revert lo. induction n as [|n IH]; intros lo; cbn [for_]; [apply keeps_skip|].
  apply keeps_bind; auto.
Qed.
End Safe.

(** A component's operation that keeps its part of the invariant. *)
Lemma keeps_zoom {T U A} (get : U → T) (put : T → U → U) (I : U → Prop) (m : M T A) :
  (∀ u, I u → safe (λ t, I (put t u)) m (get u) (λ _ t, I (put t u))) → keeps I (zoom get put m).
Proof. intros H u Hu. specialize (H u Hu). unfold safe, zoom in *. destruct (m (get u)); done. Qed.

(** An operation on a part the invariant does not look at. *)
Lemma keeps_zoom_other {T U A} (get : U → T) (put : T → U → U) (I : U → Prop) (m : M T A) :
  (∀ t u, I u → I (put t u)) → keeps I (zoom get put m).
Proof. intros H u Hu. unfold safe, zoom. destruct (m (get u)); auto. Qed.

Create HintDb keeps.
#[export] Hint Resolve keeps_ret keeps_gets keeps_panic keeps_undef keeps_block keeps_skip keeps_nofuel
  keeps_sadd keeps_sdiv : keeps.

(** Follow the structure of an operation down to the operations it calls. *)
Ltac kgo :=
  repeat (intros; cbv zeta;
    lazymatch goal with
    | |- keeps _ (_ ≫= _) => apply keeps_bind
    | |- keeps _ (when ?b _) => unfold when
    | |- keeps _ (for_ _ _ _) => apply keeps_for
    | |- keeps _ (if _ && false then _ else _) => rewrite andb_false_r
    | |- keeps _ (match ?x with _ => _ end) => destruct x
    | |- keeps _ _ => solve [auto with keeps]
    end); intros.
