(* ===== verification/Layout.v ===== *)
(** Address-space constants and macros (memlayout.h, mmu.h, param.h). *)

From S2P Require Import Prelude.

Definition EXTMEM : Z := 1048576.
Definition PHYSTOP : Z := 234881024.
Definition DEVSPACE : Z := 4261412864.
Definition KERNBASE : Z := 2147483648.
Definition KERNLINK : Z := KERNBASE + EXTMEM.
Definition V2P (a : Z) : Z := u32 (a - KERNBASE).
Definition P2V (a : Z) : Z := u32 (a + KERNBASE).
Definition KSTACKSIZE : Z := 4096.

Definition PTXSHIFT : Z := 12.
Definition PDXSHIFT : Z := 22.
Definition NPDENTRIES : Z := 1024.
Definition NPTENTRIES : Z := 1024.
Definition PGSIZE : Z := 4096.
Definition PDX (va : Z) : Z := Z.land (Z.shiftr va PDXSHIFT) 1023.
Definition PTX (va : Z) : Z := Z.land (Z.shiftr va PTXSHIFT) 1023.
Definition PGADDR (d t o : Z) : Z := u32 (Z.lor (Z.lor (Z.shiftl d PDXSHIFT) (Z.shiftl t PTXSHIFT)) o).
Definition PGROUNDUP (sz : Z) : Z := Z.land (u32 (sz + PGSIZE - 1)) (u32 (Z.lnot (PGSIZE - 1))).
Definition PGROUNDDOWN (a : Z) : Z := Z.land (u32 a) (u32 (Z.lnot (PGSIZE - 1))).
Definition PTE_P : Z := 1.
Definition PTE_W : Z := 2.
Definition PTE_U : Z := 4.
Definition PTE_ADDR (pte : Z) : Z := Z.land pte (u32 (Z.lnot 4095)).
Definition PTE_FLAGS (pte : Z) : Z := Z.land pte 4095.

(** ** The macros as arithmetic *)

(** Masking with [~(2^12 - 1)] rounds down to a page boundary. *)
Lemma land_page x : 0 ≤ x < two32 → Z.land x (u32 (Z.lnot (PGSIZE - 1))) = x / PGSIZE * PGSIZE.
Proof.
  intros Hx. change (u32 (Z.lnot (PGSIZE - 1))) with (Z.shiftl (Z.ones 20) 12).
  replace (x / PGSIZE * PGSIZE) with (Z.shiftl (Z.shiftr x 12) 12)
    by (rewrite Z.shiftr_div_pow2, Z.shiftl_mul_pow2 by lia; done).
  apply Z.bits_inj'. intros n Hn. rewrite Z.land_spec.
  destruct (decide (n < 12)).
  - rewrite !Z.shiftl_spec_low by lia. apply andb_false_r.
  - rewrite !Z.shiftl_spec, Z.shiftr_spec by lia.
    replace (n - 12 + 12) with n by lia.
    destruct (decide (n < 32)).
    + rewrite Z.ones_spec_low by lia. apply andb_true_r.
    + rewrite Z.ones_spec_high by lia. rewrite andb_false_r. symmetry.
      destruct (decide (x = 0)) as [->|]; [apply Z.bits_0|].
      apply Z.bits_above_log2; [lia|]. apply Z.log2_lt_pow2; [lia|].
      apply Z.lt_le_trans with (2 ^ 32); [change (2 ^ 32) with two32; lia|]. apply Z.pow_le_mono_r; lia.
Qed.

Lemma PGROUNDDOWN_div a : 0 ≤ a < two32 → PGROUNDDOWN a = a / PGSIZE * PGSIZE.
Proof. intros. unfold PGROUNDDOWN. rewrite u32_small by done. by apply land_page. Qed.

Lemma PGROUNDUP_div a :
  0 ≤ a → a + PGSIZE - 1 < two32 → PGROUNDUP a = (a + PGSIZE - 1) / PGSIZE * PGSIZE.
Proof.
  intros. unfold PGROUNDUP. rewrite u32_small by (unfold PGSIZE in *; lia).
  apply land_page. unfold PGSIZE in *; lia.
Qed.

Lemma PGROUNDUP_spec a :
  0 ≤ a → a + PGSIZE - 1 < two32 →
  PGROUNDUP a mod PGSIZE = 0 ∧ a ≤ PGROUNDUP a < a + PGSIZE.
Proof.
  intros. rewrite PGROUNDUP_div by done. split; [by apply Z_mod_mult|].
  unfold PGSIZE in *. pose proof (Z.div_mod (a + 4096 - 1) 4096).
  pose proof (Z.mod_pos_bound (a + 4096 - 1) 4096). lia.
Qed.

Lemma PTE_ADDR_div pte : 0 ≤ pte < two32 → PTE_ADDR pte = pte / PGSIZE * PGSIZE.
Proof. apply land_page. Qed.

Lemma PTE_FLAGS_mod pte : PTE_FLAGS pte = pte mod PGSIZE.
Proof. unfold PTE_FLAGS. change 4095 with (Z.ones 12). by apply Z.land_ones. Qed.

Lemma PDX_div va : 0 ≤ va < two32 → PDX va = va / 4194304.
Proof.
  intros. unfold PDX, PDXSHIFT. change 1023 with (Z.ones 10).
  rewrite Z.land_ones, Z.shiftr_div_pow2 by lia. change (2 ^ 22) with 4194304.
  apply Z.mod_small. unfold two32 in *. split; [apply Z.div_pos; lia|].
  apply Z.div_lt_upper_bound; lia.
Qed.

Lemma PTX_div va : PTX va = va / PGSIZE mod 1024.
Proof.
  unfold PTX, PTXSHIFT. change 1023 with (Z.ones 10).
  by rewrite Z.land_ones, Z.shiftr_div_pow2 by lia.
Qed.

Lemma PDX_range va : 0 ≤ PDX va < 1024.
Proof.
  unfold PDX. change 1023 with (Z.ones 10). rewrite Z.land_ones by lia.
  by apply Z.mod_pos_bound.
Qed.

Lemma PTX_range va : 0 ≤ PTX va < 1024.
Proof. rewrite PTX_div. by apply Z.mod_pos_bound. Qed.

(** The two indices identify the page. *)
Lemma page_index va : 0 ≤ va < two32 → PDX va * 1024 + PTX va = va / PGSIZE.
Proof.
  intros. rewrite PDX_div, PTX_div by done.
  replace (va / 4194304) with (va / PGSIZE / 1024) by (by rewrite Z.div_div).
  pose proof (Z.div_mod (va / PGSIZE) 1024). lia.
Qed.

Lemma V2P_kern a : KERNBASE ≤ a < two32 → V2P a = a - KERNBASE.
Proof. intros. unfold V2P. apply u32_small. unfold KERNBASE in *. lia. Qed.

Lemma P2V_V2P a : 0 ≤ a < two32 → P2V (V2P a) = a.
Proof.
  intros. unfold P2V, V2P, u32. rewrite Zplus_mod_idemp_l.
  replace (a - KERNBASE + KERNBASE) with a by lia. by apply Z.mod_small.
Qed.

#[export] Hint Resolve PDX_range PTX_range : xv6.

(** Linear arithmetic with the page size. *)
Ltac plia := unfold PGSIZE in *; lia.
