(* ===== verification/ProcTable.v ===== *)
(** The process table: [struct proc] (proc.h), [struct trapframe] (x86.h), the
    globals of proc.c that the scheduler and the process operations share, and
    the table scans they are written with.

    A [struct proc *] is the index of the entry in [ptable.proc] ([None] is the
    null pointer).  The [double] fields hold integers only: they start at 0 or
    at an [int] and every addend is the [int] quotient of 10000, so they are
    modelled by [Z] (a [double] is exact up to 2^53). *)

From S2P Require Import Prelude Layout.

Definition NPROC : nat := 64.
Definition NOFILE : nat := 16.
Definition NTHREAD : nat := 16.

Inductive MLFQ_level := LOW | MID | HIGH.
Inductive Proc_mode := MLFQ | Stride.
Inductive procstate := UNUSED | EMBRYO | SLEEPING | RUNNABLE | RUNNING | ZOMBIE.

#[export] Instance MLFQ_level_eq : EqDecision MLFQ_level.
Proof. solve_decision. Defined.
#[export] Instance Proc_mode_eq : EqDecision Proc_mode.
Proof. solve_decision. Defined.
#[export] Instance procstate_eq : EqDecision procstate.
Proof. solve_decision. Defined.

(** The value of the enumerator. *)
Definition lv_num (l : MLFQ_level) : Z :=
  match l with LOW => 0 | MID => 1 | HIGH => 2 end.

Lemma lv_num_inj l1 l2 : lv_num l1 = lv_num l2 → l1 = l2.
Proof. by destruct l1, l2. Qed.

(** What a process can sleep on: nothing, a [struct proc] (in [wait] and
    [thread_join]) or another kernel address. *)
Inductive chan := Cnull | Cproc (i : nat) | Caddr (a : Z).

#[export] Instance chan_eq : EqDecision chan.
Proof. solve_decision. Defined.

Record trapframe := mktf {
  edi : Z; esi : Z; ebp : Z; oesp : Z; ebx : Z; edx : Z; ecx : Z; eax : Z;
  gs : Z; fs : Z; es : Z; ds : Z; trapno : Z;
  err : Z; eip : Z; cs : Z; eflags : Z;
  esp : Z; ss : Z
}.

#[export] Instance trapframe_eta : Eta trapframe := λ r,
  mktf (edi r) (esi r) (ebp r) (oesp r) (ebx r) (edx r) (ecx r) (eax r)
       (gs r) (fs r) (es r) (ds r) (trapno r)
       (err r) (eip r) (cs r) (eflags r) (esp r) (ss r).

Definition tf0 : trapframe := mktf 0 0 0 0 0 0 0 0 0 0 0 0 0 0 0 0 0 0 0.

Record proc := mkproc {
  sz : Z;
  pgdir : Z;
  kstack : Z;
  state : procstate;
  pid : Z;
  parent : option nat;
  tf : trapframe;
  chan_ : chan;
  killed : Z;
  ofile : list (option nat);
  cwd : option nat;
  name : string;
  tick : Z;
  MLFQ_lv : MLFQ_level;
  proc_mode : Proc_mode;
  CPU_SHARE : Z;
  PASS : Z;
  sz_thread : list Z;
  ex_thread : list Z;
  hasthread : Z;
  thread_num : Z;
  isthread : Z;
  ret_val : Z;
  exiting : Z;
  mother : option nat;
  CPU_share_Stride : Z;
  PASS_MLFQ : Z;
  PASS_Stride : Z;
  max_stride_thread_pass : Z;
  total_ticks_MLFQ : Z;
  CPU_S : Z;
  m_tick : Z;
  m_MLFQ_lv : MLFQ_level
}.

#[export] Instance proc_eta : Eta proc := λ r,
  mkproc (sz r) (pgdir r) (kstack r) (state r) (pid r) (parent r) (tf r) (chan_ r)
         (killed r) (ofile r) (cwd r) (name r) (tick r) (MLFQ_lv r) (proc_mode r)
         (CPU_SHARE r) (PASS r) (sz_thread r) (ex_thread r) (hasthread r)
         (thread_num r) (isthread r) (ret_val r) (exiting r) (mother r)
         (CPU_share_Stride r) (PASS_MLFQ r) (PASS_Stride r)
         (max_stride_thread_pass r) (total_ticks_MLFQ r) (CPU_S r) (m_tick r)
         (m_MLFQ_lv r).

(** A zeroed entry: the table is static storage. *)
Definition proc0 : proc :=
  mkproc 0 0 0 UNUSED 0 None tf0 Cnull 0 (replicate NOFILE None) None "" 0 LOW MLFQ 0 0
         (replicate NTHREAD 0) (replicate NTHREAD 0) 0 0 0 0 0 None 0 0 0 0 0 0 0 LOW.

(** The globals of proc.c.  [ns_] fields are those of [struct num_Stride],
    [nm_total_ticks] is [num_MLFQ.total_ticks_MLFQ]; [ptable_lock] tells
    whether the running CPU holds [ptable.lock]; the [cpu_] fields are the
    running CPU's [proc], its page table register and the kernel stack of its
    task state segment. *)
Record ptst := mkpt {
  procs : list proc;
  ptable_lock : bool;
  cpu_proc : option nat;
  cpu_cr3 : Z;
  cpu_esp0 : Z;
  kpgdir : Z;
  initproc : option nat;
  nextpid : Z;
  ns_CPU_share_Stride : Z;
  ns_PASS_MLFQ : Z;
  ns_PASS_Stride : Z;
  max_stride_proc_pass : Z;
  nm_total_ticks : Z
}.

#[export] Instance ptst_eta : Eta ptst := λ r,
  mkpt (procs r) (ptable_lock r) (cpu_proc r) (cpu_cr3 r) (cpu_esp0 r) (kpgdir r) (initproc r) (nextpid r) (ns_CPU_share_Stride r)
       (ns_PASS_MLFQ r) (ns_PASS_Stride r) (max_stride_proc_pass r) (nm_total_ticks r).

(** The state before [main] runs. *)
Definition ptst0 : ptst := mkpt (replicate NPROC proc0) false None 0 0 0 None 1 0 0 0 0 0.

(** [for(p = ptable.proc; p < &ptable.proc[NPROC]; p++)] with an accumulator. *)
Fixpoint scan {A} (f : A → nat → proc → A) (i : nat) (l : list proc) (a : A) : A :=
  match l with
  | [] => a
  | p :: l => scan f (S i) l (f a i p)
  end.

(** The same loop when the body only writes to [*p]. *)
Definition each (f : nat → proc → proc) (l : list proc) : list proc := imap f l.

(** Writing through a pointer to an entry. *)
Definition setp (i : nat) (f : proc → proc) (s : ptst) : ptst :=
  s <| procs := alter f i (procs s) |>.

Definition getp (i : nat) : M ptst proc := λ s,
  match procs s !! i with
  | Some p => Ok p s
  | None => Undef "ptable.proc index"
  end.

Definition updp (i : nat) (f : proc → proc) : M ptst unit := modify (setp i f).

(** Following a [struct proc *]: a null pointer is undefined behaviour. *)
Definition deref (q : option nat) : M ptst nat :=
  match q with Some i => mret i | None => undef "null struct proc *" end.


(** [myproc()] *)
Definition myproc : M ptst (option nat) := gets cpu_proc.

Definition acquire_ptable : M ptst unit :=
  b ← gets ptable_lock;
  if b : bool then panic "acquire" else modify (λ s, s <| ptable_lock := true |>).

Definition release_ptable : M ptst unit :=
  b ← gets ptable_lock;
  if b : bool then modify (λ s, s <| ptable_lock := false |>) else panic "release".

(** ** Scans *)

Lemma scan_ind_from {A} (f : A → nat → proc → A) (I : nat → A → Prop) (tab : list proc) :
  (∀ i p a, tab !! i = Some p → I i a → I (S i) (f a i p)) →
  ∀ l k a, (∀ i, l !! i = tab !! (k + i)%nat) → I k a → I (k + length l)%nat (scan f k l a).
Proof.
  intros Hstep l. induction l as [|p l IH]; intros k a Hl Hk; simpl.
  - by rewrite Nat.add_0_r.
  - rewrite <-Nat.add_succ_comm. apply IH.
    + intros i. rewrite Nat.add_succ_comm. apply (Hl (S i)).
    + apply Hstep; [|done]. specialize (Hl O). rewrite Nat.add_0_r in Hl. by rewrite <-Hl.
Qed.

(** Induction over a scan of the whole table. *)
Lemma scan_ind {A} (f : A → nat → proc → A) (I : nat → A → Prop) (tab : list proc) a :
  I 0%nat a →
  (∀ i p a, tab !! i = Some p → I i a → I (S i) (f a i p)) →
  I (length tab) (scan f 0 tab a).
Proof. intros H0 Hstep. by apply (scan_ind_from f I tab Hstep tab 0). Qed.

Lemma each_lookup f l i : each f l !! i = f i <$> l !! i.
Proof. apply list_lookup_imap. Qed.

Lemma each_length f l : length (each f l) = length l.
Proof. apply length_imap. Qed.

Lemma setp_lookup_eq i f s : procs (setp i f s) !! i = f <$> procs s !! i.
Proof. unfold setp; simpl. apply list_lookup_alter_eq. Qed.

Lemma setp_lookup_ne i j f s : i ≠ j → procs (setp i f s) !! j = procs s !! j.
Proof. intros. unfold setp; simpl. by apply list_lookup_alter_ne. Qed.

Lemma setp_length i f s : length (procs (setp i f s)) = length (procs s).
Proof. unfold setp; simpl. apply length_alter. Qed.

#[export] Hint Rewrite @each_lookup @each_length setp_length setp_lookup_eq : xv6_rw.
