(* ===== verification/Sched.v ===== *)
(** The scheduler of proc.c: multilevel feedback queue and stride scheduling of
    processes, the per-thread variants, [set_cpu_share], [getlev] and one
    iteration of [scheduler()]. *)

From S2P Require Import Prelude Layout ProcTable.

(** ** Choosing the mode and the process *)

Definition sche_mode (s : ptst) : Proc_mode :=
  if (ns_CPU_share_Stride s =? 0) || (ns_PASS_MLFQ s <=? ns_PASS_Stride s)
  then MLFQ else Stride.

(** Round robin inside a level: the time quantum of [find_runnable_MLFQ]. *)
Definition quantum (lv : MLFQ_level) : Z :=
  match lv with HIGH => 1 | MID => 2 | LOW => 4 end.

(** The body of the loop of [find_runnable_MLFQ]; the accumulator is
    [(rp, lv, tick)]. *)
Definition mlfq_body (acc : nat * MLFQ_level * Z) (i : nat) (p : proc) : nat * MLFQ_level * Z :=
  let '(rp, lv, tk) := acc in
  if bool_decide (state p = RUNNABLE) && bool_decide (proc_mode p = MLFQ) then
    if lv_num lv <? lv_num (MLFQ_lv p) then (i, MLFQ_lv p, tick p)
    else if bool_decide (MLFQ_lv p = lv) then
      if Z.quot tk (quantum lv) <=? Z.quot (tick p) (quantum lv) then acc
      else (i, lv, tick p)
    else acc
  else acc.

Definition find_runnable_MLFQ (tab : list proc) : nat :=
  (scan mlfq_body 0 tab (0%nat, LOW, 1000)).1.1.

(** The body of the loop of [find_runnable_Stride]; the accumulator is
    [(rp, min_PASS)]. *)
Definition stride_body (acc : nat * Z) (i : nat) (p : proc) : nat * Z :=
  let '(rp, min_PASS) := acc in
  if bool_decide (state p = RUNNABLE) && bool_decide (proc_mode p = Stride) then
    if PASS p <? min_PASS then (i, PASS p) else acc
  else acc.

Definition INT_NEAR_MAX : Z := 2147483645.

Definition find_runnable_Stride (tab : list proc) : nat :=
  (scan stride_body 0 tab (0%nat, INT_NEAR_MAX)).1.

(** ** Charging the process that ran *)

Definition adjust_MLFQ_proc (p : proc) : proc :=
  let p := p <| tick := tick p + 1 |> in
  if bool_decide (MLFQ_lv p = HIGH) && (5 <=? tick p) then
    p <| MLFQ_lv := MID |> <| tick := 0 |>
  else if bool_decide (MLFQ_lv p = MID) && (10 <=? tick p) then
    p <| MLFQ_lv := LOW |> <| tick := 0 |>
  else p.

(** The counters are [int]s, which must not overflow. *)
Definition adjust_MLFQ_state (i : nat) : M ptst unit :=
  p ← getp i;
  _ ← sadd (tick p) 1;
  _ ← updp i adjust_MLFQ_proc;
  t ← gets nm_total_ticks;
  t ← sadd t 1;
  modify (λ s, s <| nm_total_ticks := t |>).

(** Priority boosting. *)
Definition init_MLFQ_state : M ptst unit := λ s,
  if 100 <=? nm_total_ticks s then
    Ok tt (s <| procs := each (λ _ p, if bool_decide (state p = RUNNABLE)
                                      then p <| tick := 0 |> <| MLFQ_lv := HIGH |> else p)
                              (procs s) |>
             <| nm_total_ticks := 0 |>)
  else Ok tt s.

(** Storing a [double] in an [int]. *)
Definition d2i (x : Z) : M ptst Z :=
  if (-2147483648 <=? x) && (x <? 2147483648) then mret x else undef "double to int".

Definition adjust_Stride_state (i : nat) : M ptst unit :=
  p ← getp i;
  d ← sdiv 10000 (CPU_SHARE p);
  _ ← updp i (λ p, p <| PASS := PASS p + d |>);
  p ← getp i;
  m ← gets max_stride_proc_pass;
  if m <? PASS p then
    v ← d2i (PASS p);
    modify (λ s, s <| max_stride_proc_pass := v |>)
  else skip.

Definition revaluate_PASS (schedule_mode : Proc_mode) : M ptst unit :=
  CPU_S ← gets ns_CPU_share_Stride;
  if CPU_S =? 0 then
    modify (λ s, s <| ns_PASS_MLFQ := 0 |> <| ns_PASS_Stride := 0 |>
                   <| max_stride_proc_pass := 0 |>)
  else match schedule_mode with
  | MLFQ =>
      d ← sdiv 10000 (100 - CPU_S);
      modify (λ s, s <| ns_PASS_MLFQ := ns_PASS_MLFQ s + d |>)
  | Stride =>
      d ← sdiv 10000 CPU_S;
      modify (λ s, s <| ns_PASS_Stride := ns_PASS_Stride s + d |>)
  end.

(** ** One iteration of [scheduler()]

    [run i] stands for what happens between the two [swtch]es: the chosen
    process runs, in user mode and in system calls, until it calls [sched]. *)

Definition switchuvm (i : nat) : M ptst unit :=
  p ← getp i;
  if kstack p =? 0 then panic "switchuvm: no kstack"
  else if pgdir p =? 0 then panic "switchuvm: no pgdir"
  else modify (λ s, s <| cpu_esp0 := u32 (kstack p + KSTACKSIZE) |>
                      <| cpu_cr3 := V2P (pgdir p) |>).

Definition switchkvm : M ptst unit :=
  modify (λ s, s <| cpu_cr3 := V2P (kpgdir s) |>).

Definition pick (m : Proc_mode) (s : ptst) : nat :=
  match m with
  | MLFQ => find_runnable_MLFQ (procs s)
  | Stride => find_runnable_Stride (procs s)
  end.

Definition charge (m : Proc_mode) (i : nat) : M ptst unit :=
  _ ← match m with
      | MLFQ => _ ← adjust_MLFQ_state i; init_MLFQ_state
      | Stride => adjust_Stride_state i
      end;
  revaluate_PASS m.

Definition scheduler_iter (run : nat → M ptst unit) : M ptst unit :=
  _ ← acquire_ptable;
  schedule_mode ← gets sche_mode;
  p ← gets (pick schedule_mode);
  _ ← modify (λ s, s <| cpu_proc := Some p |>);
  _ ← switchuvm p;
  _ ← updp p (λ q, q <| state := RUNNING |>);
  _ ← run p;
  _ ← switchkvm;
  _ ← charge schedule_mode p;
  _ ← modify (λ s, s <| cpu_proc := None |>);
  release_ptable.

(** ** System calls on the scheduling parameters *)

Definition cur : M ptst nat := q ← myproc; deref q.

Definition getlev : M ptst Z :=
  i ← cur; p ← getp i;
  mret match MLFQ_lv p with LOW => 0 | MID => 1 | HIGH => 2 end.

Definition set_cpu_share (i : Z) : M ptst Z :=
  if i <=? 0 then mret (-1) else
  c ← cur; p ← getp c;
  total ← gets ns_CPU_share_Stride;
  if negb (bool_decide (proc_mode p = Stride)) then
    t ← sadd total i;
    if 80 <? t then mret (-1) else
    _ ← updp c (λ p, p <| CPU_SHARE := i |>);
    _ ← modify (λ s, s <| ns_CPU_share_Stride := t |>);
    _ ← updp c (λ p, p <| proc_mode := Stride |>);
    m ← gets max_stride_proc_pass;
    _ ← updp c (λ p, p <| PASS := m |>);
    mret 0
  else
    t ← sadd total i;
    t' ← sadd t (- CPU_SHARE p);
    if 80 <? t' then mret (-1) else
    _ ← updp c (λ p, p <| CPU_SHARE := i |>);
    p' ← getp c;
    t'' ← sadd t (- CPU_SHARE p');
    _ ← modify (λ s, s <| ns_CPU_share_Stride := t'' |>);
    m ← gets max_stride_proc_pass;
    _ ← updp c (λ p, p <| PASS := m |>);
    mret 0.

(** ** Scheduling inside a group of threads

    [find_runnable_thread] and [adjust_thread_state] are the two-level variants
    of the functions above: they choose among the threads of a mother process
    and charge the thread that ran. *)

Definition thread_quantum (lv : MLFQ_level) : Z :=
  match lv with HIGH => 5 | MID => 10 | LOW => 20 end.

(** One of the two [if] blocks of the loop body, for an entry at level [plv]
    with tick count [ptk].  [inr] is the [continue]. *)
Definition thread_choice (acc : nat * MLFQ_level * Z) (i : nat) (plv : MLFQ_level) (ptk : Z) :
    nat * MLFQ_level * Z + nat * MLFQ_level * Z :=
  let '(rp, lv, tk) := acc in
  if lv_num lv <? lv_num plv then inl (i, plv, ptk)
  else if bool_decide (plv = lv) then
    if Z.quot tk (thread_quantum lv) <=? Z.quot ptk (thread_quantum lv) then inr acc
    else inl (i, lv, ptk)
  else inl acc.

Definition thread_mlfq_body (mo : nat) (acc : nat * MLFQ_level * Z) (i : nat) (p : proc) :
    nat * MLFQ_level * Z :=
  let first :=
    if bool_decide (state p = RUNNABLE) && bool_decide (proc_mode p = MLFQ) &&
       (isthread p =? 1) && bool_decide (mother p = Some mo)
    then thread_choice acc i (MLFQ_lv p) (tick p) else inl acc in
  match first with
  | inr acc => acc
  | inl acc =>
      if bool_decide (state p = RUNNABLE) && bool_decide (i = mo) then
        match thread_choice acc i (m_MLFQ_lv p) (m_tick p) with inl a | inr a => a end
      else acc
  end.

Definition thread_stride_body (mo : nat) (acc : nat * Z) (i : nat) (p : proc) : nat * Z :=
  let '(rp, min_PASS) := acc in
  if bool_decide (state p = RUNNABLE) && bool_decide (proc_mode p = Stride) &&
     (isthread p =? 1) && bool_decide (mother p = Some mo)
  then if PASS p <? min_PASS then (i, PASS p) else acc
  else acc.

Definition find_runnable_thread (mo : nat) : M ptst nat :=
  m ← getp mo;
  tab ← gets procs;
  if (CPU_share_Stride m =? 0) || (PASS_MLFQ m <=? PASS_Stride m)
  then mret (scan (thread_mlfq_body mo) 0 tab (mo, LOW, 1000)).1.1
  else mret (scan (thread_stride_body mo) 0 tab (mo, INT_NEAR_MAX)).1.

(** The demotion rule of [adjust_thread_state] on a level and its tick. *)
Definition thread_demote (lv : MLFQ_level) (tk : Z) : MLFQ_level * Z :=
  if bool_decide (lv = HIGH) && (20 <=? tk) then (MID, 0)
  else if bool_decide (lv = MID) && (40 <=? tk) then (LOW, 0)
  else (lv, tk).

(** The boosting loop, over the threads of [mo]. *)
Definition thread_boost (mo : nat) : M ptst unit :=
  modify (λ s, s <| procs := each (λ i p,
    let p := if bool_decide (state p = RUNNABLE) && bool_decide (proc_mode p = MLFQ) &&
                (isthread p =? 1) && bool_decide (mother p = Some mo)
             then p <| tick := 0 |> <| MLFQ_lv := HIGH |> else p in
    if bool_decide (state p = RUNNABLE) || bool_decide (i = mo)
    then p <| m_tick := 0 |> <| m_MLFQ_lv := HIGH |> else p) (procs s) |>).

Definition thread_tick (mo : nat) : M ptst unit :=
  m ← getp mo;
  t ← sadd (total_ticks_MLFQ m) 1;
  updp mo (λ p, p <| total_ticks_MLFQ := t |>).

Definition thread_boost_if_due (mo : nat) : M ptst unit :=
  m ← getp mo;
  if 100 <=? total_ticks_MLFQ m then
    _ ← thread_boost mo;
    updp mo (λ p, p <| total_ticks_MLFQ := 0 |>)
  else skip.

(** The three branches of [adjust_thread_state] on the kind of [thread]; each
    gives the mother. *)
Definition adjust_thread_branch (thread : nat) : M ptst nat :=
  t ← getp thread;
  if hasthread t =? 1 then
    k ← sadd (m_tick t) 1;
    _ ← updp thread (λ p, p <| m_tick := k |>);
    _ ← thread_tick thread;
    _ ← updp thread (λ p, let '(l, k) := thread_demote (m_MLFQ_lv p) (m_tick p) in
                          p <| m_MLFQ_lv := l |> <| m_tick := k |>);
    _ ← thread_boost_if_due thread;
    mret thread
  else match proc_mode t with
  | MLFQ =>
      mo ← deref (mother t);
      k ← sadd (tick t) 1;
      _ ← updp thread (λ p, p <| tick := k |>);
      _ ← thread_tick mo;
      _ ← updp thread (λ p, let '(l, k) := thread_demote (MLFQ_lv p) (tick p) in
                            p <| MLFQ_lv := l |> <| tick := k |>);
      _ ← thread_boost_if_due mo;
      mret mo
  | Stride =>
      mo ← deref (mother t);
      d ← sdiv 10000 (CPU_SHARE t);
      _ ← updp thread (λ p, p <| PASS := PASS p + d |>);
      t ← getp thread;
      m ← getp mo;
      _ ← (if max_stride_thread_pass m <? PASS t then
             v ← d2i (PASS t); updp mo (λ p, p <| max_stride_thread_pass := v |>)
           else skip);
      mret mo
  end.

Definition adjust_thread_state (thread : nat) : M ptst unit :=
  mo ← adjust_thread_branch thread;
  m ← getp mo;
  t ← getp thread;
  if CPU_S m =? 0 then
    updp mo (λ p, p <| PASS_MLFQ := 0 |> <| PASS_Stride := 0 |>
                    <| max_stride_thread_pass := 0 |>)
  else if bool_decide (thread = mo) || bool_decide (proc_mode t = MLFQ) then
    d ← sdiv 10000 (CPU_SHARE m - CPU_S m);
    updp mo (λ p, p <| PASS_MLFQ := PASS_MLFQ p + d |>)
  else
    d ← sdiv 10000 (CPU_S m);
    updp mo (λ p, p <| PASS_Stride := PASS_Stride p + d |>).

(** ** What the selection functions choose *)

(** The processes [find_runnable_MLFQ] can choose: at the lowest level a tick
    count of 1000 or more is never below the initial [tick = 1000]. *)
Definition mlfq_candidate (p : proc) : Prop :=
  state p = RUNNABLE ∧ proc_mode p = MLFQ ∧
  (MLFQ_lv p = LOW → Z.quot (tick p) (quantum LOW) < Z.quot 1000 (quantum LOW)).

(** [p] goes before [q]: a higher level, or the same level and fewer quanta used. *)
Definition mlfq_before (p q : proc) : Prop :=
  lv_num (MLFQ_lv q) < lv_num (MLFQ_lv p) ∨
  (MLFQ_lv p = MLFQ_lv q ∧
   Z.quot (tick p) (quantum (MLFQ_lv p)) < Z.quot (tick q) (quantum (MLFQ_lv p))).

Lemma mlfq_before_trans p q r : mlfq_before p q → mlfq_before q r → mlfq_before p r.
Proof.
  intros [H1|[E1 H1]] [H2|[E2 H2]]; unfold mlfq_before.
  - left; lia.
  - left. rewrite <-E2. done.
  - left. rewrite E1. done.
  - right. rewrite <-E2, <-E1 in *. split; [done | lia].
Qed.

Lemma mlfq_not_before p q : ¬ mlfq_before p q → ∀ r, mlfq_before r q → mlfq_before r p.
Proof.
  unfold mlfq_before. intros Hn r [H|[E H]].
  - destruct (decide (lv_num (MLFQ_lv q) = lv_num (MLFQ_lv p))) as [E'%lv_num_inj|];
      [rewrite <-E' in *; left; lia | left; lia].
  - destruct (decide (lv_num (MLFQ_lv q) < lv_num (MLFQ_lv p))); [tauto|].
    destruct (decide (lv_num (MLFQ_lv q) = lv_num (MLFQ_lv p))) as [E'%lv_num_inj|].
    + right. rewrite E, E' in *. split; [done|].
      destruct (decide (Z.quot (tick p) (quantum (MLFQ_lv p)) <
                        Z.quot (tick q) (quantum (MLFQ_lv p)))); [|lia].
      exfalso. apply Hn. right. split; [done|]. done.
    + left. rewrite E. lia.
Qed.

(** The best candidate of the first [k] entries, or the initial values. *)
Definition mlfq_inv (tab : list proc) (k : nat) (acc : nat * MLFQ_level * Z) : Prop :=
  let '(rp, lv, tk) := acc in
  (∃ q, (rp < k)%nat ∧ tab !! rp = Some q ∧ mlfq_candidate q ∧ lv = MLFQ_lv q ∧ tk = tick q ∧
     ∀ j p, (j < k)%nat → tab !! j = Some p → mlfq_candidate p →
       ¬ mlfq_before p q ∧ ((j < rp)%nat → mlfq_before q p))
  ∨ (acc = (0%nat, LOW, 1000) ∧
     ∀ j p, (j < k)%nat → tab !! j = Some p → ¬ mlfq_candidate p).

Lemma mlfq_before_irrefl p : ¬ mlfq_before p p.
Proof. unfold mlfq_before. intros [?|[_ ?]]; lia. Qed.

(** A new candidate [p] at index [k] that goes before the best so far wins. *)
Lemma mlfq_inv_win tab k acc p :
  mlfq_inv tab k acc → tab !! k = Some p → mlfq_candidate p →
  (∀ q, (acc.1.1 < k)%nat → tab !! acc.1.1 = Some q → mlfq_candidate q → mlfq_before p q) →
  mlfq_inv tab (S k) (k, MLFQ_lv p, tick p).
Proof.
  destruct acc as [[rp lv] tk]. intros Hinv Hk Hp Hbest. left. exists p.
  do 5 (split; [done || lia|]). intros j r Hj Hr Hcr.
  destruct (decide (j = k)) as [->|].
  - simplify_eq. split; [apply mlfq_before_irrefl | lia].
  - destruct Hinv as [(q & ? & Hq & Hcq & _ & _ & Hall)|[_ Hall]].
    + destruct (Hall j r ltac:(lia) Hr Hcr) as [Hnot _].
      pose proof (Hbest q ltac:(done) Hq Hcq) as Hpq.
      assert (mlfq_before p r) by (eapply mlfq_not_before; eauto).
      split; [|done]. intros Hrp. by eapply mlfq_before_irrefl, mlfq_before_trans.
    + exfalso. eapply Hall; eauto. lia.
Qed.

(** An entry that is no candidate, or does not go before the best, changes nothing. *)
Lemma mlfq_inv_keep tab k acc p :
  mlfq_inv tab k acc → tab !! k = Some p →
  (mlfq_candidate p →
   ∃ q, (acc.1.1 < k)%nat ∧ tab !! acc.1.1 = Some q ∧ mlfq_candidate q ∧ ¬ mlfq_before p q) →
  mlfq_inv tab (S k) acc.
Proof.
  destruct acc as [[rp lv] tk]. intros Hinv Hk Hkeep.
  destruct Hinv as [(q & ? & Hq & Hcq & ? & ? & Hall)|[? Hall]].
  - left. exists q. do 5 (split; [done || lia|]). intros j r Hj Hr Hcr.
    destruct (decide (j = k)) as [->|]; [|apply (Hall j r); [lia | done | done]].
    simplify_eq. destruct (Hkeep Hcr) as (q' & Hlt & Hq' & _ & Hn). simpl in *. simplify_eq.
    split; [done | lia].
  - right. split; [done|]. intros j r Hj Hr Hcr.
    destruct (decide (j = k)) as [->|]; [|by apply (Hall j r); [lia | |]].
    simplify_eq/=. destruct (Hkeep Hcr) as (q' & Hlt & Hq' & Hcq' & Hn).
    by apply (Hall 0%nat q').
Qed.

(** At equal levels the comparison of the loop is [mlfq_before]. *)
Lemma mlfq_body_inv tab k acc p :
  tab !! k = Some p → mlfq_inv tab k acc → mlfq_inv tab (S k) (mlfq_body acc k p).
Proof.
  intros Hk Hinv. destruct acc as [[rp lv] tk]. unfold mlfq_body.
  case_if; [|apply mlfq_inv_keep with p; [done|done|]; intros (?&?&?);
             by rewrite !bool_decide_true in E].
  pose proof Hinv as [(q & ? & Hq & Hcq & -> & -> & Hall)|[[= -> -> ->] Hall]];
  (case_if; [|case_if; [case_if|]]).
  - eapply mlfq_inv_win; [done|done| |].
    + split; [done|split; [done|]]. intros HL. rewrite HL in *. destruct (MLFQ_lv q); simpl in *; lia.
    + intros q' _ Hq' _. simplify_eq/=. by left.
  - eapply mlfq_inv_keep; [done|done|]. intros _. exists q. do 3 (split; [done|]).
    intros [Hlt|[_ Hlt]]; simpl in *; [lia|]. rewrite E0 in Hlt. lia.
  - rewrite <-E0. eapply mlfq_inv_win; [done|done| |].
    + split; [done|split; [done|]]. intros HL. destruct Hcq as (_&_&Hcq).
      rewrite <-E0, HL in *. specialize (Hcq eq_refl). lia.
    + intros q' _ Hq' _. simplify_eq/=. right. by rewrite E0 in *.
  - eapply mlfq_inv_keep; [done|done|]. intros _. exists q. do 3 (split; [done|]).
    intros [Hlt|[He _]]; [simpl in *; lia | done].
  - eapply mlfq_inv_win; [done|done| |].
    + split; [done|split; [done|]]. intros HL. rewrite HL in *. simpl in *; lia.
    + intros q' Hlt Hq' Hcq'. by destruct (Hall 0%nat q' Hlt Hq').
  - eapply mlfq_inv_keep; [done|done|]. intros (_&_&Hc). specialize (Hc E0). simpl in *. lia.
  - rewrite <-E0. eapply mlfq_inv_win; [done|done| |].
    + split; [done|split; [done|]]. intros HL. simpl in *. lia.
    + intros q' Hlt Hq' Hcq'. by destruct (Hall 0%nat q' Hlt Hq').
  - destruct (MLFQ_lv p); simpl in *; [done|lia|lia].
Qed.

Lemma find_runnable_MLFQ_inv tab : mlfq_inv tab (length tab) (scan mlfq_body 0 tab (0%nat, LOW, 1000)).
Proof.
  apply (scan_ind mlfq_body (mlfq_inv tab)).
  - right. split; [done|]. lia.
  - intros. by apply mlfq_body_inv.
Qed.

(** C6: the candidates of [find_runnable_MLFQ] are the RUNNABLE processes in MLFQ mode,
    except those of the lowest level that have used 1000 ticks or more, which the
    initial bound excludes.  It returns the first candidate, in table order, that no
    other candidate goes before: none has a higher level, and none of the same level
    has used fewer quanta.  Without a candidate it returns entry 0, whatever the state
    of that entry. *)
Theorem find_runnable_MLFQ_best (tab : list proc) :
  let r := find_runnable_MLFQ tab in
  (∃ q, tab !! r = Some q ∧ mlfq_candidate q ∧
     ∀ j p, tab !! j = Some p → mlfq_candidate p →
       ¬ mlfq_before p q ∧ ((j < r)%nat → mlfq_before q p))
  ∨ (r = 0%nat ∧ ∀ j p, tab !! j = Some p → ¬ mlfq_candidate p).
Proof.
  intros r. pose proof (find_runnable_MLFQ_inv tab) as H. subst r. unfold find_runnable_MLFQ.
  destruct (scan _ _ _ _) as [[rp lv] tk].
  destruct H as [(q & ? & ? & ? & _ & _ & Hall)|[[= -> -> ->] Hall]]; simpl.
  - left. exists q. do 2 (split; [done|]). intros. eapply Hall; eauto using lookup_lt_Some.
  - right. split; [done|]. intros. eapply Hall; eauto using lookup_lt_Some.
Qed.

(** The processes [find_runnable_Stride] can choose: the [int] bound it starts
    from excludes a pass of 2147483645 or more. *)
Definition stride_candidate (p : proc) : Prop :=
  state p = RUNNABLE ∧ proc_mode p = Stride ∧ PASS p < INT_NEAR_MAX.

Definition stride_inv (tab : list proc) (k : nat) (acc : nat * Z) : Prop :=
  let '(rp, mp) := acc in
  mp ≤ INT_NEAR_MAX ∧
  (∀ j p, (j < k)%nat → tab !! j = Some p → stride_candidate p →
          mp ≤ PASS p ∧ ((j < rp)%nat → mp < PASS p)) ∧
  ((∃ q, (rp < k)%nat ∧ tab !! rp = Some q ∧ stride_candidate q ∧ mp = PASS q)
   ∨ (acc = (0%nat, INT_NEAR_MAX))).

Lemma stride_body_inv tab k acc p :
  tab !! k = Some p → stride_inv tab k acc → stride_inv tab (S k) (stride_body acc k p).
Proof.
  intros Hk. destruct acc as [rp mp]. unfold stride_body, stride_inv.
  intros (Hmp & Hall & Hsel). case_if; [case_if|].
  - split; [lia|]. split.
    + intros j r Hj Hr Hc. destruct (decide (j = k)) as [->|]; [simplify_eq; lia|].
      destruct (Hall j r ltac:(lia) Hr Hc). lia.
    + left. exists p. repeat split; auto. lia.
  - split; [lia|]. split.
    + intros j r Hj Hr Hc. destruct (decide (j = k)) as [->|]; [|apply (Hall j); [lia|done|done]].
      simplify_eq. split; [lia|]. destruct Hsel as [(q & ? & ?)|[= -> ->]]; lia.
    + destruct Hsel as [(q & ? & ?)|Hsel]; [left; exists q; split; [lia|done] | by right].
  - split; [lia|]. split.
    + intros j r Hj Hr Hc. destruct (decide (j = k)) as [->|]; [|apply (Hall j); [lia|done|done]].
      simplify_eq. destruct Hc as (?&?&?). by rewrite !bool_decide_true in E.
    + destruct Hsel as [(q & ? & ?)|Hsel]; [left; exists q; split; [lia|done] | by right].
Qed.

(** [find_runnable_Stride] returns the first of the RUNNABLE Stride
    processes with the least pass; without a candidate, which includes the case
    where every pass has reached 2147483645, it returns entry 0. *)
Theorem find_runnable_Stride_least (tab : list proc) :
  let r := find_runnable_Stride tab in
  (∃ q, tab !! r = Some q ∧ stride_candidate q ∧
     ∀ j p, tab !! j = Some p → stride_candidate p →
       PASS q ≤ PASS p ∧ ((j < r)%nat → PASS q < PASS p))
  ∨ (r = 0%nat ∧ ∀ j p, tab !! j = Some p → ¬ stride_candidate p).
Proof.
  intros r. assert (stride_inv tab (length tab) (scan stride_body 0 tab (0%nat, INT_NEAR_MAX))) as H.
  { apply (scan_ind stride_body (stride_inv tab)); [|intros; by apply stride_body_inv].
    split; [done|]. split; [lia | by right]. }
  subst r. unfold find_runnable_Stride. destruct (scan _ _ _ _) as [rp mp].
  destruct H as (Hmp & Hall & [(q & ? & ? & ? & ->)|[= -> ->]]); simpl.
  - left. exists q. do 2 (split; [done|]). intros. eapply Hall; eauto using lookup_lt_Some.
  - right. split; [done|]. intros j p Hj Hc.
    destruct (Hall j p ltac:(eauto using lookup_lt_Some) Hj Hc). destruct Hc as (?&?&?). lia.
Qed.

(** ** Levels and ticks *)

(** What the level and the tick count of a process satisfy between two runs. *)
Definition mlfq_wf (p : proc) : Prop :=
  0 ≤ tick p ∧ (MLFQ_lv p = HIGH → tick p < 5) ∧ (MLFQ_lv p = MID → tick p < 10).

Definition sched_wf (s : ptst) : Prop :=
  (∀ i p, procs s !! i = Some p → mlfq_wf p) ∧ 0 ≤ nm_total_ticks s < 100.

Lemma adjust_MLFQ_proc_wf p : mlfq_wf p → mlfq_wf (adjust_MLFQ_proc p).
Proof.
  intros (H0 & HH & HM). unfold adjust_MLFQ_proc, mlfq_wf. simpl.
  destruct (MLFQ_lv p) eqn:E; simpl in *.
  - rewrite E. split; [lia | done].
  - specialize (HM eq_refl).
    destruct (Z.leb_spec 10 (tick p + 1)); simpl; rewrite ?E; (split; [lia | split; done || lia]).
  - specialize (HH eq_refl).
    destruct (Z.leb_spec 5 (tick p + 1)); simpl; rewrite ?E; (split; [lia | split; done || lia]).
Qed.

Definition boosted (p : proc) : proc := p <| tick := 0 |> <| MLFQ_lv := HIGH |>.

Definition mlfq_round (i : nat) (s : ptst) : ptst :=
  let tab := alter adjust_MLFQ_proc i (procs s) in
  if 100 <=? nm_total_ticks s + 1 then
    s <| procs := each (λ _ q, if bool_decide (state q = RUNNABLE) then boosted q else q) tab |>
      <| nm_total_ticks := 0 |>
  else s <| procs := tab |> <| nm_total_ticks := nm_total_ticks s + 1 |>.

Lemma sadd_ok {S} a b (s : S) : -2147483648 ≤ a + b < 2147483648 → sadd a b s = Ok (a + b) s.
Proof. intros H. unfold sadd. by rewrite (proj2 (Z.leb_le _ _)), (proj2 (Z.ltb_lt _ _)) by lia. Qed.

Lemma sadd_inv {S} a b (s : S) r s' : sadd a b s = Ok r s' → r = a + b ∧ s' = s.
Proof. unfold sadd. case_if; [|done]. by intros [= <- <-]. Qed.

Lemma mlfq_round_inv i s u s' :
  (_ ← adjust_MLFQ_state i; init_MLFQ_state) s = Ok u s' → s' = mlfq_round i s.
Proof.
  unfold adjust_MLFQ_state. intros ([] & s0 & H & H0)%bind_ok.
  apply bind_ok in H as (p & s1 & Hp & H). unfold getp in Hp. destruct (procs s !! i) as [q|]; [|done]. injection Hp as <- <-.
  apply bind_ok in H as (t & s2 & [_ ->]%sadd_inv & H). apply bind_ok in H as ([] & s3 & [= <-] & H).
  apply bind_ok in H as (t1 & s4 & [= <- <-] & H). apply bind_ok in H as (t2 & s5 & [-> ->]%sadd_inv & [= <-]).
  revert H0. unfold init_MLFQ_state, mlfq_round. cbn. case_if; by intros [= <- <-].
Qed.

Lemma mlfq_round_ok i s p : procs s !! i = Some p → -2147483649 ≤ tick p < 2147483647 → 0 ≤ nm_total_ticks s < 100 →
  (_ ← adjust_MLFQ_state i; init_MLFQ_state) s = Ok tt (mlfq_round i s).
Proof.
  intros Hp Ht Hn. unfold adjust_MLFQ_state. unfold mbind, M_bind, getp. rewrite Hp, sadd_ok by lia.
  unfold updp, gets, modify. rewrite sadd_ok by (cbn; lia). unfold init_MLFQ_state, mlfq_round. cbn. by case_if.
Qed.

(** Charging an MLFQ run keeps the time allotments: a process at the
    highest level has used fewer than 5 ticks, at the middle level fewer than
    10, and the boosting counter stays below 100. *)
Theorem mlfq_charge_wf (s : ptst) (i : nat) (p : proc) :
  sched_wf s → procs s !! i = Some p → tick p < 2147483647 →
  returns (_ ← adjust_MLFQ_state i; init_MLFQ_state) s (λ _ s', sched_wf s').
Proof.
  intros [Hwf Ht] Hi Hov. pose proof (Hwf i p Hi) as [H0 _]. unfold returns. rewrite (mlfq_round_ok i s p) by (done || lia). unfold mlfq_round.
  assert (∀ j q, alter adjust_MLFQ_proc i (procs s) !! j = Some q → mlfq_wf q) as Htab.
  { intros j q. destruct (decide (i = j)) as [->|].
    - rewrite list_lookup_alter_eq. intros (r & Hr & ->)%fmap_Some. eauto using adjust_MLFQ_proc_wf.
    - rewrite list_lookup_alter_ne by done. eauto. }
  case (Z.leb_spec 100 (nm_total_ticks s + 1)); intros; simpl; split; simpl; [|lia|done|lia].
  intros j q. rewrite each_lookup. intros (r & Hr & ->)%fmap_Some.
  case_bool_decide; [|eauto]. split; [done | split; done].
Qed.

(** ** Executions of the scheduler loop *)

(** The per-mode accounts that only the scheduler loop and [set_cpu_share] write. *)
Definition accounts (s : ptst) : Z * Z * Z :=
  (ns_CPU_share_Stride s, ns_PASS_MLFQ s, ns_PASS_Stride s).

(** A run that leaves the accounts alone: any process code between two
    [swtch]es that does not call [set_cpu_share] or [exit]. *)
Definition keeps_accounts (run : nat → M ptst unit) : Prop :=
  ∀ i s s', run i s = Ok tt s' → accounts s' = accounts s ∧ nm_total_ticks s' = nm_total_ticks s.

(** A finite execution of the loop of [scheduler()] with the modes it chose, in
    which what the processes do satisfies [P]. *)
Inductive sched_steps (P : (nat → M ptst unit) → Prop) : ptst → list Proc_mode → ptst → Prop :=
| sched_nil s : sched_steps P s [] s
| sched_cons s run s1 tr s2 :
    P run → scheduler_iter run s = Ok tt s1 →
    sched_steps P s1 tr s2 → sched_steps P s (sche_mode s :: tr) s2.

(** The state in which the chosen process starts to run. *)
Definition dispatched (i : nat) (s s1 : ptst) : Prop :=
  procs s1 = alter (λ q, q <| state := RUNNING |>) i (procs s) ∧
  accounts s1 = accounts s ∧ nm_total_ticks s1 = nm_total_ticks s ∧
  max_stride_proc_pass s1 = max_stride_proc_pass s ∧ cpu_proc s1 = Some i.

Lemma scheduler_iter_ok run s s' :
  scheduler_iter run s = Ok tt s' →
  ∃ s1 s2 s3, dispatched (pick (sche_mode s) s) s s1 ∧
    run (pick (sche_mode s) s) s1 = Ok tt s2 ∧
    charge (sche_mode s) (pick (sche_mode s) s) (s2 <| cpu_cr3 := V2P (kpgdir s2) |>) = Ok tt s3 ∧
    s' = s3 <| cpu_proc := None |> <| ptable_lock := false |>.
Proof.
  unfold scheduler_iter, acquire_ptable, switchuvm, release_ptable, gets, modify, updp, switchkvm.
  unfold mbind, M_bind; simpl. destruct (ptable_lock s); [done|]. simpl.
  change (sche_mode (s<|ptable_lock := true|>)) with (sche_mode s).
  replace (pick (sche_mode s) (s<|ptable_lock := true|>)) with (pick (sche_mode s) s)
    by (by destruct (sche_mode s)).
  generalize (pick (sche_mode s) s). intros i.
  unfold getp. simpl. destruct (procs s !! i) as [p|] eqn:Hp; [|done].
  destruct (kstack p =? 0); [done|]. destruct (pgdir p =? 0); [done|]. simpl.
  match goal with |- context [run i ?st] => set (s1 := st) end.
  destruct (run i s1) as [[] s2| | | |] eqn:Hrun; try done. simpl.
  destruct (charge _ _ _) as [[] s3| | | |] eqn:Hch; try done. simpl.
  destruct (ptable_lock s3); [|done]. intros [= <-].
  exists s1, s2, s3. repeat split; try done.
Qed.

(** The effect of [charge] on the accounts. *)
Definition charged (m : Proc_mode) (a a' : Z * Z * Z) : Prop :=
  let '(sh, pm, ps) := a in
  if sh =? 0 then a' = (sh, 0, 0)
  else match m with
       | MLFQ => a' = (sh, pm + Z.quot 10000 (100 - sh), ps)
       | Stride => a' = (sh, pm, ps + Z.quot 10000 sh)
       end.

Lemma adjust_Stride_ok i s s' :
  adjust_Stride_state i s = Ok tt s' →
  ∃ p, procs s !! i = Some p ∧ CPU_SHARE p ≠ 0 ∧
  accounts s' = accounts s ∧ nm_total_ticks s' = nm_total_ticks s ∧
  procs s' = alter (λ p, p <| PASS := PASS p + Z.quot 10000 (CPU_SHARE p) |>) i (procs s).
Proof.
  unfold adjust_Stride_state, getp, sdiv, updp, modify, gets, d2i, mbind, M_bind.
  destruct (procs s !! i) as [p|] eqn:Hp; [|done]. simpl.
  destruct (CPU_SHARE p =? 0) eqn:E; [done|]. simpl. bsimpl.
  rewrite list_lookup_alter_eq, Hp. simpl.
  assert (alter (λ q : proc, q <| PASS := PASS q + Z.quot 10000 (CPU_SHARE p) |>) i (procs s) =
          alter (λ q : proc, q <| PASS := PASS q + Z.quot 10000 (CPU_SHARE q) |>) i (procs s)) as Ha.
  { apply list_eq. intros j. destruct (decide (i = j)) as [<-|].
    - by rewrite !list_lookup_alter_eq, Hp.
    - by rewrite !list_lookup_alter_ne. }
  destruct (max_stride_proc_pass s <? _); [destruct ((_ <=? _) && _)|]; try done;
    intros [= <-]; exists p; rewrite <-Ha; done.
Qed.

Lemma charge_ok m i s s' :
  charge m i s = Ok tt s' → charged m (accounts s) (accounts s').
Proof.
  unfold charge, charged, accounts. intros (u & s1 & H1 & H2)%bind_ok.
  assert (accounts s1 = accounts s) as Hacc.
  { destruct m.
    - apply mlfq_round_inv in H1 as ->. unfold mlfq_round. by case_if.
    - destruct u. by apply adjust_Stride_ok in H1 as (? & _ & _ & ? & _). }
  unfold accounts in Hacc. injection Hacc as Ha Hb Hc. rewrite <-Ha, <-Hb, <-Hc.
  unfold revaluate_PASS, gets, modify, sdiv, mbind, M_bind in H2.
  destruct (ns_CPU_share_Stride s1 =? 0) eqn:E; [injection H2 as <-; simpl; bsimpl; congruence|].
  destruct m; simpl in H2.
  - destruct (100 - ns_CPU_share_Stride s1 =? 0); [done|]. by injection H2 as <-.
  - by injection H2 as <-.
Qed.

(** The difference between the two accounts, and the number of iterations of a
    mode in an execution. *)
Definition lag (s : ptst) : Z := ns_PASS_MLFQ s - ns_PASS_Stride s.
Definition rounds_of (m : Proc_mode) (tr : list Proc_mode) : Z :=
  Z.of_nat (length (filter (λ x, x = m) tr)).

Lemma scheduler_iter_charged run s s' :
  keeps_accounts run → scheduler_iter run s = Ok tt s' →
  charged (sche_mode s) (accounts s) (accounts s').
Proof.
  intros Hk (s1 & s2 & s3 & (_ & Hd & _) & Hrun & Hch & ->)%scheduler_iter_ok.
  apply charge_ok in Hch. apply Hk in Hrun as [Hr _].
  change (accounts (s3 <| cpu_proc := None |> <| ptable_lock := false |>)) with (accounts s3).
  change (accounts (s2 <| cpu_cr3 := V2P (kpgdir s2) |>)) with (accounts s2) in Hch.
  by rewrite <-Hd, <-Hr.
Qed.

(** The account that is behind is the one that is charged. *)
Lemma sched_steps_lag (S : Z) s tr s' :
  0 < S < 100 → sched_steps keeps_accounts s tr s' → ns_CPU_share_Stride s = S →
  ns_CPU_share_Stride s' = S ∧
  Z.min (lag s) (- Z.quot 10000 S) ≤ lag s' ≤ Z.max (lag s) (Z.quot 10000 (100 - S)) ∧
  lag s' = lag s + rounds_of MLFQ tr * Z.quot 10000 (100 - S)
                 - rounds_of Stride tr * Z.quot 10000 S.
Proof.
  intros HS. induction 1 as [s|s run s1 tr s2 Hk Hit Hst IH]; intros Hsh.
  - unfold rounds_of; simpl. lia.
  - pose proof (scheduler_iter_charged run s s1 Hk Hit) as Hch.
    assert (0 < Z.quot 10000 S ∧ 0 < Z.quot 10000 (100 - S)) as [Hq1 Hq2].
    { split; apply Z.quot_str_pos; lia. }
    unfold charged, accounts in Hch. rewrite Hsh in Hch.
    rewrite (proj2 (Z.eqb_neq S 0)) in Hch by lia.
    unfold lag in *. destruct (sche_mode s) eqn:Em; injection Hch as H1 H2 H3;
      unfold sche_mode in Em; rewrite Hsh, (proj2 (Z.eqb_neq S 0)) in Em by lia; simpl in Em;
      destruct (Z.leb_spec (ns_PASS_MLFQ s) (ns_PASS_Stride s)); try done;
      destruct IH as (? & ? & Heq); try lia;
      (split; [done|split; [lia|]]); rewrite Heq; unfold rounds_of; simpl;
      rewrite filter_cons; simpl; lia.
Qed.

(** C30: the CPU is split between the two modes by their strides.  While the total
    Stride share [S] is constant, each MLFQ iteration costs the integer quotient
    [10000/(100-S)] and each Stride iteration [10000/S], and over an execution of
    any length, from any accounts, the costs of the [m] MLFQ and [n] Stride
    iterations differ by no more than one iteration of a mode and the difference
    there was at the start: the new difference is at least the smaller of the old
    one and [- 10000/S], and at most the larger of the old one and
    [10000/(100-S)].  So the modes run in the ratio of these quotients, which is
    that of the shares up to the truncation of the quotients. *)
Theorem mode_split_fair (S : Z) (s s' : ptst) (tr : list Proc_mode) :
  0 < S < 100 → ns_CPU_share_Stride s = S → sched_steps keeps_accounts s tr s' →
  let d := lag s + rounds_of MLFQ tr * Z.quot 10000 (100 - S) - rounds_of Stride tr * Z.quot 10000 S in
  lag s' = d ∧ Z.min (lag s) (- Z.quot 10000 S) ≤ d ≤ Z.max (lag s) (Z.quot 10000 (100 - S)).
Proof. intros HS Hsh Hst d. destruct (sched_steps_lag S s tr s' HS Hst Hsh) as (_ & ? & Heq). subst d. lia. Qed.

(** A run after which process [j] is RUNNABLE if it was so before or is the one
    that ran: [j] never sleeps or exits. *)
Definition keeps_runnable (j : nat) (run : nat → M ptst unit) : Prop :=
  keeps_accounts run ∧
  ∀ i s s' p, run i s = Ok tt s' → procs s !! j = Some p → state p = RUNNABLE ∨ i = j →
    ∃ p', procs s' !! j = Some p' ∧ state p' = RUNNABLE.

Definition ticks_after (m : Proc_mode) (t : Z) : Z :=
  match m with MLFQ => if 100 <=? t + 1 then 0 else t + 1 | Stride => t end.

Lemma revaluate_procs m s s' :
  revaluate_PASS m s = Ok tt s' → procs s' = procs s ∧ nm_total_ticks s' = nm_total_ticks s.
Proof.
  unfold revaluate_PASS, gets, modify, sdiv, mbind, M_bind.
  destruct (_ =? 0); [by intros [= <-]|]. destruct m; simpl.
  - destruct (_ =? 0); [done|]. by intros [= <-].
  - by intros [= <-].
Qed.

Lemma adjust_MLFQ_proc_state p : state (adjust_MLFQ_proc p) = state p.
Proof. unfold adjust_MLFQ_proc. repeat case_if; done. Qed.

Lemma charge_runnable m i s s' j p :
  charge m i s = Ok tt s' → procs s !! j = Some p → state p = RUNNABLE →
  nm_total_ticks s' = ticks_after m (nm_total_ticks s) ∧
  ∃ p', procs s' !! j = Some p' ∧ state p' = RUNNABLE ∧
    (m = MLFQ → 100 ≤ nm_total_ticks s + 1 → MLFQ_lv p' = HIGH ∧ tick p' = 0).
Proof.
  unfold charge. intros ([] & s1 & H1 & H2)%bind_ok Hj Hrun.
  apply revaluate_procs in H2 as [Hp Ht]. rewrite Hp, Ht. destruct m; simpl.
  - apply mlfq_round_inv in H1. unfold mlfq_round in H1.
    assert (∃ q, alter adjust_MLFQ_proc i (procs s) !! j = Some q ∧ state q = RUNNABLE) as (q & Hq & Hqr).
    { destruct (decide (i = j)) as [->|].
      - rewrite list_lookup_alter_eq, Hj. eexists; split; [done|]. by rewrite adjust_MLFQ_proc_state.
      - rewrite list_lookup_alter_ne by done. eauto. }
    case_if; subst s1; simpl; (split; [done|]).
    + exists (boosted q). rewrite each_lookup, Hq. simpl. by rewrite bool_decide_true.
    + exists q. repeat split; try done; lia.
  - apply adjust_Stride_ok in H1 as (_ & _ & _ & _ & Hnm & Htab). split; [done|].
    rewrite Htab. destruct (decide (i = j)) as [->|].
    + rewrite list_lookup_alter_eq, Hj. eexists; split; [done|]. split; [done|]. done.
    + rewrite list_lookup_alter_ne by done. eexists; split; [done|]. split; [done|]. done.
Qed.

Lemma scheduler_iter_runnable run s s' j p :
  keeps_runnable j run → scheduler_iter run s = Ok tt s' →
  procs s !! j = Some p → state p = RUNNABLE →
  nm_total_ticks s' = ticks_after (sche_mode s) (nm_total_ticks s) ∧
  ∃ p', procs s' !! j = Some p' ∧ state p' = RUNNABLE ∧
    (sche_mode s = MLFQ → 100 ≤ nm_total_ticks s + 1 → MLFQ_lv p' = HIGH ∧ tick p' = 0).
Proof.
  intros [Hacc Hk] (s1 & s2 & s3 & (Htab & _ & Hnm & _) & Hrun & Hch & ->)%scheduler_iter_ok Hj Hr.
  set (i := pick (sche_mode s) s) in *.
  destruct (Hacc _ _ _ Hrun) as [_ Hnm2].
  assert (∃ q, procs s1 !! j = Some q ∧ (state q = RUNNABLE ∨ i = j)) as (q & Hq & Hqr).
  { rewrite Htab. destruct (decide (i = j)) as [<-|].
    - rewrite list_lookup_alter_eq, Hj. eauto.
    - rewrite list_lookup_alter_ne by done. eauto. }
  destruct (Hk i s1 s2 q Hrun Hq Hqr) as (q2 & Hq2 & Hq2r).
  destruct (charge_runnable _ _ _ _ j q2 Hch Hq2 Hq2r) as [Hn Hres]. simpl in *.
  rewrite Hnm2, Hnm in *. eauto.
Qed.


(** ** Stride scheduling among processes *)

Definition stride_runnable (p : proc) : Prop := state p = RUNNABLE ∧ proc_mode p = Stride.

(** No RUNNABLE Stride process is more than one largest stride ahead of another. *)
Definition spread (tab : list proc) : Prop :=
  ∀ j k p q, tab !! j = Some p → tab !! k = Some q → stride_runnable p → stride_runnable q →
    PASS p ≤ PASS q + 10000.

Definition shares_positive (tab : list proc) : Prop :=
  ∀ j p, tab !! j = Some p → proc_mode p = Stride → 0 < CPU_SHARE p.

Lemma stride_step_bound sh : 0 < sh → 0 ≤ Z.quot 10000 sh ≤ 10000.
Proof.
  intros. split; [apply Z.quot_pos; lia|].
  rewrite Z.quot_div_nonneg by lia. apply Z.div_le_upper_bound; lia.
Qed.

(** charging the process that [find_runnable_Stride] chose succeeds and
    keeps all RUNNABLE Stride processes within one stride (10000) of each other:
    no one runs ahead, so each gets CPU time in proportion to its share. *)
Theorem stride_round_balanced (s : ptst) (k : nat) (q : proc) :
  procs s !! k = Some q → stride_candidate q → shares_positive (procs s) →
  spread (procs s) → (∀ j p, procs s !! j = Some p → 0 ≤ PASS p < 2147473645) →
  returns (adjust_Stride_state (find_runnable_Stride (procs s))) s
          (λ _ s', spread (procs s') ∧ accounts s' = accounts s).
Proof.
  intros Hk Hc Hpos Hsp Hb.
  destruct (find_runnable_Stride_least (procs s)) as [(r & Hr & (HrR & HrS & HrP) & Hmin)|[_ Hno]];
    [|by destruct (Hno k q)].
  set (i := find_runnable_Stride (procs s)) in *.
  pose proof (stride_step_bound _ (Hpos i r Hr HrS)) as Hd.
  pose proof (Hpos i r Hr HrS). pose proof (Hb i r Hr).
  assert (adjust_Stride_state i s ≠ Undef "double to int" ∧
          ∃ s', adjust_Stride_state i s = Ok tt s') as [_ [s' Hs']].
  { unfold adjust_Stride_state, getp, sdiv, updp, modify, gets, d2i, mbind, M_bind. rewrite Hr.
    rewrite (proj2 (Z.eqb_neq _ _)) by lia. simpl. rewrite list_lookup_alter_eq, Hr. simpl.
    destruct (max_stride_proc_pass s <? _); [|by split; [|eauto]].
    rewrite (proj2 (Z.leb_le _ _)), (proj2 (Z.ltb_lt _ _)) by lia. simpl. split; eauto. }
  eapply ok_returns; [done|].
  apply adjust_Stride_ok in Hs' as (_ & _ & _ & Hacc & _ & Htab). split; [|done]. rewrite Htab.
  assert (∀ j p, alter (λ p, p <| PASS := PASS p + Z.quot 10000 (CPU_SHARE p) |>) i (procs s) !! j = Some p →
    ∃ p0, procs s !! j = Some p0 ∧ (stride_runnable p → stride_runnable p0) ∧
      PASS p = PASS p0 + (if decide (j = i) then Z.quot 10000 (CPU_SHARE r) else 0)) as Hinv.
  { intros j p. destruct (decide (j = i)) as [->|].
    - rewrite list_lookup_alter_eq, Hr. intros [= <-]. eauto.
    - rewrite list_lookup_alter_ne by done. intros. exists p. split; [done|]. split; [done|lia]. }
  intros j l p1 p2 (p & Hj & Hpc & ->)%Hinv (p' & Hl & Hpc' & ->)%Hinv H1%Hpc H2%Hpc'.
  pose proof (Hsp j l p p' Hj Hl H1 H2).
  assert (stride_candidate p') as Hcp.
  { destruct H2. repeat split; try done. pose proof (Hb l p' Hl). unfold INT_NEAR_MAX. lia. }
  destruct (Hmin l p' Hl Hcp) as [Hle _].
  destruct (decide (j = i)) as [->|], (decide (l = i)) as [->|]; simplify_eq; lia.
Qed.

(** ** The accounts of [set_cpu_share] *)

Definition live (p : proc) : bool :=
  match state p with SLEEPING | RUNNABLE | RUNNING => true | _ => false end.

Definition share_of (p : proc) : Z :=
  if live p && bool_decide (proc_mode p = Stride) then CPU_SHARE p else 0.

(** The total equals the sum of what the live Stride processes hold, never
    exceeds 80, and every such process holds a positive share. *)
Definition share_wf (s : ptst) : Prop :=
  ns_CPU_share_Stride s = psum share_of (procs s) ∧
  0 ≤ ns_CPU_share_Stride s ≤ 80 ∧
  ∀ j p, procs s !! j = Some p → live p = true → proc_mode p = Stride → 0 < CPU_SHARE p.

(** The entry after a successful first call. *)
Definition joined (i m : Z) (p : proc) : proc :=
  p <| CPU_SHARE := i |> <| proc_mode := Stride |> <| PASS := m |>.

(** A process that is not yet in Stride mode is given the share [i] exactly
    when [i] is positive and the total stays at 80 or below; it then enters Stride
    mode at the greatest pass so far.  Otherwise the call returns -1 and changes
    nothing.  Either way the accounts stay exact. *)
Theorem set_cpu_share_first (s : ptst) (c : nat) (p : proc) (i : Z) :
  share_wf s → cpu_proc s = Some c → procs s !! c = Some p →
  live p = true → proc_mode p = MLFQ → i < 2147483568 →
  returns (set_cpu_share i) s (λ r s', share_wf s' ∧
    if (0 <? i) && (ns_CPU_share_Stride s + i <=? 80)
    then r = 0 ∧ s' = setp c (joined i (max_stride_proc_pass s)) s
                        <| ns_CPU_share_Stride := ns_CPU_share_Stride s + i |>
    else r = -1 ∧ s' = s).
Proof.
  intros (Hsum & Hrange & Hpos) Hcur Hp Hlive Hmode Hi.
  assert (share_wf s) as Hwf by done.
  unfold returns, set_cpu_share, cur, myproc, deref, getp, sadd, updp, gets, modify, mbind, M_bind.
  destruct (Z.leb_spec i 0).
  { simpl. rewrite (proj2 (Z.ltb_ge 0 i)) by lia. simpl. done. }
  rewrite Hcur. simpl. rewrite Hp, Hmode. simpl.
  rewrite (proj2 (Z.leb_le _ _)), (proj2 (Z.ltb_lt (_ + _) _)), (proj2 (Z.ltb_lt 0 i)) by lia. simpl.
  destruct (Z.ltb_spec 80 (ns_CPU_share_Stride s + i)).
  { simpl. by rewrite (proj2 (Z.leb_gt _ _)) by lia. }
  rewrite (proj2 (Z.leb_le _ _)) by lia. simpl. split.
  - unfold setp; simpl. rewrite !list_alter_alter_eq.
    repeat split; simpl; try lia.
    + rewrite (psum_alter _ _ _ _ p) by done. rewrite <-Hsum.
      unfold share_of, live in *. simpl. rewrite Hmode. simpl. rewrite Hlive. simpl.
      lia.
    + intros j q. destruct (decide (c = j)) as [<-|].
      * rewrite list_lookup_alter_eq, Hp. intros [= <-]. simpl. lia.
      * rewrite list_lookup_alter_ne by done. eauto.
  - split; [done|]. unfold setp; simpl. by rewrite !list_alter_alter_eq.
Qed.

(** A second successful call by a process that is already in Stride mode
    replaces the process's share but leaves the total as it was: the total is
    computed after [CPU_SHARE] has been overwritten, so the new share is added
    and subtracted again.  The accounts are exact afterwards only if the share
    did not change. *)
Theorem set_cpu_share_again (s : ptst) (c : nat) (p : proc) (i : Z) :
  share_wf s → cpu_proc s = Some c → procs s !! c = Some p →
  live p = true → proc_mode p = Stride → 0 < i ≤ 80 →
  ns_CPU_share_Stride s + i - CPU_SHARE p ≤ 80 →
  returns (set_cpu_share i) s (λ r s', r = 0 ∧
    s' = setp c (λ p, p <| CPU_SHARE := i |> <| PASS := max_stride_proc_pass s |>) s ∧
    (share_wf s' ↔ i = CPU_SHARE p)).
Proof.
  intros (Hsum & Hrange & Hpos) Hcur Hp Hlive Hmode Hi Hle.
  pose proof (Hpos c p Hp Hlive Hmode) as Hsp.
  assert (CPU_SHARE p ≤ ns_CPU_share_Stride s) as Hown.
  { rewrite Hsum. transitivity (share_of p).
    - unfold share_of. rewrite Hlive, bool_decide_true by done. simpl. lia.
    - apply (psum_elem share_of _ c); [|done]. intros j q Hq. unfold share_of.
      destruct (live q) eqn:El; simpl; [case_bool_decide|]; [|lia|lia].
      pose proof (Hpos j q Hq El ltac:(done)). lia. }
  unfold returns, set_cpu_share, cur, myproc, deref, getp, sadd, updp, gets, modify, mbind, M_bind.
  rewrite (proj2 (Z.leb_gt i 0)) by lia. rewrite Hcur. simpl. rewrite Hp. simpl.
  rewrite Hmode. simpl. rewrite !(proj2 (Z.leb_le (-2147483648) _)) by lia.
  rewrite !(proj2 (Z.ltb_lt (_ + _) 2147483648)) by lia. simpl.
  rewrite !(proj2 (Z.leb_le (-2147483648) _)) by lia.
  rewrite !(proj2 (Z.ltb_lt (_ + _) 2147483648)) by lia. simpl.
  rewrite (proj2 (Z.ltb_ge 80 _)) by lia. simpl. rewrite list_lookup_alter_eq, Hp. simpl.
  rewrite !(proj2 (Z.leb_le (-2147483648) _)) by lia.
  rewrite !(proj2 (Z.ltb_lt (_ + _) 2147483648)) by lia. simpl.
  split; [done|]. unfold setp; simpl. rewrite list_alter_alter_eq.
  replace (ns_CPU_share_Stride s + i + - i) with (ns_CPU_share_Stride s) by lia.
  split; [done|]. unfold share_wf; simpl.
  rewrite (psum_alter _ _ _ _ p) by done. rewrite <-Hsum.
  assert (share_of p = CPU_SHARE p) as ->.
  { unfold share_of. by rewrite Hlive, bool_decide_true. }
  unfold share_of at 1. unfold live at 1. simpl. fold (live p). rewrite Hlive, Hmode. simpl.
  split; [lia|]. intros ->. split; [lia|]. split; [done|].
  intros j q. destruct (decide (c = j)) as [<-|].
  - rewrite list_lookup_alter_eq, Hp. intros [= <-]. simpl. lia.
  - rewrite list_lookup_alter_ne by done. eauto.
Qed.

(** ** Two processes for the examples *)

Definition demo_proc (st : procstate) (pd : Z) : proc :=
  proc0 <| state := st |> <| pid := pd |> <| kstack := 2147491840 |> <| pgdir := 2147495936 |>.

(** Entry 0 runs, entry 1 is ready. *)
Definition demo_two : ptst :=
  ptst0 <| procs := [demo_proc RUNNING 1; demo_proc RUNNABLE 2] |> <| cpu_proc := Some 0%nat |>.

Definition as_proc {A} (i : nat) (m : M ptst A) : M ptst A :=
  _ ← modify (λ s, s <| cpu_proc := Some i |>); m.

(** the 80% limit can be exceeded.  From a state with exact accounts, three
    calls that all return 0 (10 and then 70 by one process, 70 by another) leave
    live Stride processes with shares that sum to 140. *)
Theorem set_cpu_share_overcommit :
  share_wf demo_two ∧
  returns (a ← as_proc 0 (set_cpu_share 10);
           b ← as_proc 0 (set_cpu_share 70);
           c ← as_proc 1 (set_cpu_share 70);
           mret (a, b, c)) demo_two
          (λ r s', r = (0, 0, 0) ∧ ns_CPU_share_Stride s' = 80 ∧ psum share_of (procs s') = 140).
Proof.
  split; [|by vm_compute].
  split; [done|]. split; [done|]. intros [|[|j]] p [= <-]; simpl; done.
Qed.

(** when the loop is in Stride mode and no Stride process can be chosen,
    entry 0 is run and charged in its place; if that entry has no share, as
    the first process does not, the charge divides by zero. *)
Theorem stride_fallback_divides_by_zero (run : nat → M ptst unit) (s s1 : ptst) (p q : proc) :
  ptable_lock s = false → sche_mode s = Stride →
  (∀ j r, procs s !! j = Some r → ¬ stride_candidate r) →
  procs s !! 0%nat = Some p → kstack p ≠ 0 → pgdir p ≠ 0 →
  (∀ s0, dispatched 0 s s0 → run 0%nat s0 = Ok tt s1) →
  procs s1 !! 0%nat = Some q → CPU_SHARE q = 0 →
  scheduler_iter run s = Undef "division by zero".
Proof.
  intros Hlk Hm Hno Hp Hks Hpg Hrun Hq Hz.
  destruct (find_runnable_Stride_least (procs s)) as [(r & Hr & Hc & _)|[Hr _]];
    [by destruct (Hno _ _ Hr)|].
  unfold scheduler_iter, acquire_ptable, switchuvm, gets, modify, updp, switchkvm, mbind, M_bind.
  rewrite Hlk. simpl. change (sche_mode (s<|ptable_lock := true|>)) with (sche_mode s).
  rewrite Hm. simpl. rewrite Hr. unfold getp. simpl. rewrite Hp.
  rewrite (proj2 (Z.eqb_neq (kstack p) 0)), (proj2 (Z.eqb_neq (pgdir p) 0)) by done. simpl.
  rewrite Hrun by done. simpl.
  unfold charge, adjust_Stride_state, getp, sdiv, mbind, M_bind. simpl.
  rewrite Hq, Hz. done.
Qed.

(** ** Choosing inside a thread group *)

Definition group_mode (m : proc) : Proc_mode :=
  if (CPU_share_Stride m =? 0) || (PASS_MLFQ m <=? PASS_Stride m) then MLFQ else Stride.

(** A thread of [mo] that can be given the CPU in mode [md]. *)
Definition group_thread (mo : nat) (md : Proc_mode) (p : proc) : Prop :=
  state p = RUNNABLE ∧ proc_mode p = md ∧ isthread p = 1 ∧ mother p = Some mo.

Definition group_choice (tab : list proc) (mo : nat) (md : Proc_mode) (r : nat) : Prop :=
  r = mo ∨ ∃ p, tab !! r = Some p ∧ group_thread mo md p.

Lemma thread_choice_cases acc i lv tk a :
  (thread_choice acc i lv tk = inl a ∨ thread_choice acc i lv tk = inr a) →
  a = acc ∨ a.1.1 = i.
Proof.
  destruct acc as [[rp l] t]. unfold thread_choice.
  repeat case_if; intros [H|H]; simplify_eq; auto.
Qed.

Lemma thread_mlfq_body_group tab mo i p acc :
  tab !! i = Some p → group_choice tab mo MLFQ acc.1.1 →
  group_choice tab mo MLFQ (thread_mlfq_body mo acc i p).1.1.
Proof.
  intros Hi Hacc. unfold thread_mlfq_body.
  match goal with |- context [match ?x with inl _ => _ | inr _ => _ end] => set (first := x) end.
  assert (∀ a, first = inl a ∨ first = inr a → group_choice tab mo MLFQ a.1.1) as Hfirst.
  { intros a. subst first. case_if; [|intros [Ha|Ha]; by simplify_eq].
    intros [->|Ha]%thread_choice_cases; [done|]. rewrite Ha. right. exists p. done. }
  destruct first as [a|a] eqn:Ef; [|by apply Hfirst; right].
  pose proof (Hfirst a (or_introl eq_refl)). case_if; [|done]. subst i.
  destruct (thread_choice a mo (m_MLFQ_lv p) (m_tick p)) as [b|b] eqn:Ec;
    (destruct (thread_choice_cases a mo (m_MLFQ_lv p) (m_tick p) b) as [-> | ->];
     [eauto|done|by left]).
Qed.

(** The thread with the least pass of the first [k] entries. *)
Definition group_stride_inv (tab : list proc) (mo k : nat) (acc : nat * Z) : Prop :=
  (acc.1 = mo ∨ ∃ q, tab !! acc.1 = Some q ∧ group_thread mo Stride q ∧ acc.2 = PASS q) ∧
  ∀ j p, (j < k)%nat → tab !! j = Some p → group_thread mo Stride p → acc.2 ≤ PASS p.

Lemma thread_stride_body_inv tab mo i p acc :
  tab !! i = Some p → group_stride_inv tab mo i acc →
  group_stride_inv tab mo (S i) (thread_stride_body mo acc i p).
Proof.
  destruct acc as [rp mp]. unfold group_stride_inv, thread_stride_body. simpl.
  intros Hi [Hsel Hall]. case_if; [case_if|]; simpl.
  - split; [right; exists p; done|]. intros j q Hj Hq Hg.
    destruct (decide (j = i)) as [->|]; [simplify_eq; lia|].
    specialize (Hall j q ltac:(lia) Hq Hg); lia.
  - split; [done|]. intros j q Hj Hq Hg.
    destruct (decide (j = i)) as [->|]; [simplify_eq; lia|]. apply (Hall j q); [lia|done|done].
  - split; [done|]. intros j q Hj Hq Hg.
    destruct (decide (j = i)) as [->|]; [|apply (Hall j q); [lia|done|done]].
    simplify_eq. destruct Hg as (?&?&Ht&?). by rewrite !bool_decide_true, Ht in E.
Qed.

(** [find_runnable_thread] gives the mother itself or a RUNNABLE thread of
    the mother that is in the mode the mother's own accounts select; in Stride
    mode no such thread has a smaller pass than the thread chosen. *)
Theorem find_runnable_thread_group (s : ptst) (mo : nat) (m : proc) :
  procs s !! mo = Some m →
  returns (find_runnable_thread mo) s (λ r s', s' = s ∧
    group_choice (procs s) mo (group_mode m) r ∧
    (group_mode m = Stride → ∀ j p q, procs s !! j = Some p → group_thread mo Stride p →
       r ≠ mo → procs s !! r = Some q → PASS q ≤ PASS p)).
Proof.
  intros Hm. unfold returns, find_runnable_thread, getp, gets, mbind, M_bind. rewrite Hm.
  unfold group_mode. case_if; simpl; (split; [done|]).
  - split; [|done].
    apply (scan_ind _ (λ _ acc, group_choice (procs s) mo MLFQ acc.1.1)); [by left|].
    intros. by apply thread_mlfq_body_group.
  - assert (group_stride_inv (procs s) mo (length (procs s))
              (scan (thread_stride_body mo) 0 (procs s) (mo, INT_NEAR_MAX))) as HI.
    { apply (scan_ind _ (group_stride_inv (procs s) mo)); [split; [by left | lia]|].
      intros. by apply thread_stride_body_inv. }
    destruct (scan _ _ _ _) as [rp mp]. destruct HI as [Hsel Hall]. simpl in *. split.
    + destruct Hsel as [->|(q & Hq & Hg & _)]; [by left|right; eauto].
    + intros _ j p q Hj Hg Hne Hq. destruct Hsel as [->|(q' & Hq' & _ & ->)]; [done|].
      simplify_eq. eauto using lookup_lt_Some.
Qed.

(** ** Executions of the loop on concrete tables *)

(** A process that uses its tick and yields. *)
Definition yield_run (i : nat) : M ptst unit := updp i (λ q, q <| state := RUNNABLE |>).

Lemma yield_run_accounts : keeps_accounts yield_run.
Proof. intros i s s' [= <-]. done. Qed.

Lemma yield_run_runnable j : keeps_runnable j yield_run.
Proof.
  split; [apply yield_run_accounts|]. intros i s s' p [= <-] Hj Hr. simpl.
  destruct (decide (i = j)) as [->|].
  - rewrite list_lookup_alter_eq, Hj. eauto.
  - rewrite list_lookup_alter_ne by done. destruct Hr as [Hr|Hr]; [eauto | done].
Qed.

(** [n] iterations with the same run. *)
Fixpoint exec_loop (n : nat) (run : nat → M ptst unit) (s : ptst) :
    option (list Proc_mode * ptst) :=
  match n with
  | O => Some ([], s)
  | S n => match scheduler_iter run s with
           | Ok tt s1 => '(tr, s2) ← exec_loop n run s1; Some (sche_mode s :: tr, s2)
           | _ => None
           end
  end.

Lemma exec_loop_steps P run n : P run → ∀ s tr s',
  exec_loop n run s = Some (tr, s') → sched_steps P s tr s'.
Proof.
  intros HP. induction n as [|n IH]; intros s tr s' H; simpl in H; [simplify_eq; constructor|].
  destruct (scheduler_iter run s) as [[] s1| | | |] eqn:Es; try done.
  destruct (exec_loop n run s1) as [[tr1 s2]|] eqn:El; simpl in H; simplify_eq.
  eapply sched_cons; eauto.
Qed.

(** Entry 0 in MLFQ mode, entry 1 in Stride mode with share 50, both ready. *)
Definition demo_mixed : ptst :=
  ptst0 <| procs := [demo_proc RUNNABLE 1;
                     joined 50 0 (demo_proc RUNNABLE 2)] |>
        <| ns_CPU_share_Stride := 50 |> <| nm_total_ticks := 98 |>.

Definition demo_exec (n : nat) : list Proc_mode * ptst :=
  default ([], demo_mixed) (exec_loop n yield_run demo_mixed).

Lemma mlfq_charge_wf_witness :
  sched_wf demo_mixed ∧
  returns (_ ← adjust_MLFQ_state 0; init_MLFQ_state) demo_mixed (λ _ s', sched_wf s').
Proof.
  assert (sched_wf demo_mixed) as H.
  { split; [|done]. intros [|[|j]] p [= <-]; done. }
  split; [exact H|]. apply (mlfq_charge_wf demo_mixed 0 (demo_proc RUNNABLE 1)); [exact H|done|done].
Defined.

Lemma mode_split_fair_witness :
  let tr := (demo_exec 5).1 in
  tr = [MLFQ; Stride; MLFQ; Stride; MLFQ] ∧
  lag (demo_exec 5).2 = 0 + rounds_of MLFQ tr * 200 - rounds_of Stride tr * 200 ∧
  -200 ≤ 0 + rounds_of MLFQ tr * 200 - rounds_of Stride tr * 200 ≤ 200.
Proof.
  intros tr. split; [vm_compute; reflexivity|].
  apply (mode_split_fair 50 demo_mixed (demo_exec 5).2 tr); [lia|done|].
  apply exec_loop_steps with yield_run 5%nat; [apply yield_run_accounts|].
  vm_compute. reflexivity.
Defined.


(** Two Stride processes, 10000/50 apart. *)
Definition demo_stride : ptst :=
  ptst0 <| procs := [joined 50 200 (demo_proc RUNNABLE 1); joined 20 0 (demo_proc RUNNABLE 2)] |>
        <| ns_CPU_share_Stride := 70 |> <| cpu_proc := Some 0%nat |>.

Lemma demo_stride_wf : share_wf demo_stride.
Proof. split; [done|]. split; [done|]. intros [|[|j]] p [= <-]; done. Qed.

Lemma stride_round_balanced_witness :
  returns (adjust_Stride_state (find_runnable_Stride (procs demo_stride))) demo_stride
          (λ _ s', spread (procs s') ∧ accounts s' = accounts demo_stride).
Proof.
  apply (stride_round_balanced demo_stride 1 (joined 20 0 (demo_proc RUNNABLE 2)));
    [done|done| | |].
  - intros [|[|j]] p [= <-]; done.
  - intros [|[|j]] [|[|k]] p q [= <-] [= <-]; simpl; lia.
  - intros [|[|j]] p [= <-]; simpl; lia.
Defined.

Lemma set_cpu_share_first_witness :
  returns (set_cpu_share 30) demo_two (λ r s', share_wf s' ∧ r = 0 ∧
    s' = setp 0 (joined 30 0) demo_two <| ns_CPU_share_Stride := 30 |>).
Proof.
  apply (set_cpu_share_first demo_two 0 (demo_proc RUNNING 1) 30); [|done|done|done|done|lia].
  split; [done|]. split; [done|]. intros [|[|j]] p [= <-]; done.
Defined.

Lemma set_cpu_share_again_witness :
  returns (set_cpu_share 60) demo_stride (λ r s', r = 0 ∧
    s' = setp 0 (λ p, p <| CPU_SHARE := 60 |> <| PASS := 0 |>) demo_stride ∧
    (share_wf s' ↔ 60 = 50)).
Proof.
  apply (set_cpu_share_again demo_stride 0 (joined 50 200 (demo_proc RUNNABLE 1)) 60);
    [apply demo_stride_wf|done|done|done|done|lia|done].
Defined.

(** The only Stride process sleeps while its mode is behind. *)
Definition demo_asleep : ptst :=
  ptst0 <| procs := [demo_proc RUNNABLE 1; joined 50 0 (demo_proc SLEEPING 2)] |>
        <| ns_CPU_share_Stride := 50 |> <| ns_PASS_MLFQ := 200 |>.

Lemma stride_fallback_divides_by_zero_witness :
  let s1 := demo_asleep <| cpu_proc := Some 0%nat |> in
  share_wf demo_asleep ∧
  scheduler_iter (λ _ _, Ok tt s1) demo_asleep = Undef "division by zero".
Proof.
  intros s1. split.
  { split; [done|]. split; [done|]. intros [|[|j]] p [= <-]; done. }
  apply (stride_fallback_divides_by_zero (λ _ _, Ok tt s1) demo_asleep s1
           (demo_proc RUNNABLE 1) (demo_proc RUNNABLE 1)); try done.
  intros [|[|j]] p [= <-] (? & ? & ?); done.
Defined.

Lemma find_runnable_thread_group_witness :
  returns (find_runnable_thread 0) demo_two (λ r s', s' = demo_two ∧
    group_choice (procs demo_two) 0 MLFQ r ∧
    (MLFQ = Stride → ∀ j p q, procs demo_two !! j = Some p → group_thread 0 Stride p →
       r ≠ 0%nat → procs demo_two !! r = Some q → PASS q ≤ PASS p)).
Proof. apply (find_runnable_thread_group demo_two 0 (demo_proc RUNNING 1)). done. Defined.
