(* ===== verification/Xem.v ===== *)
(** Semaphores and readers-writer locks (proc.c, from [xem_init] to
    [rwlock_release_writelock]) and their use by threads that interleave on
    several CPUs.

    Each access to the shared structure is one step: [xchg] is atomic, an
    increment of [readers] is a load and a store.  A thread between two steps of
    an operation is in one of the program points of [pc]; a thread that finds a
    semaphore taken calls [yield] and tries again, so it stays where it is. *)

From S2P Require Import Prelude.

(** ** Semaphores *)

(** [xchg] (x86.h): stores and returns the previous value. *)
Definition xchg (old newval : Z) : Z * Z := (old, newval).

(** [xem_t] holds one word; [xem_init] sets it to 1. *)
Definition xem_init : Z := 1.

(** The unused non-atomic variant: [TAS(ptr, new)] gives the old and the new value. *)
Definition TAS (old new : Z) : Z * Z := (old, new).

(** One iteration of the loop of [xem_wait]: [true] when it returns. *)
Definition xem_wait_iter (value : Z) : bool * Z :=
  let '(old, v) := xchg value 0 in (old =? 1, v).

(** One iteration of the loop of [xem_unlock]. *)
Definition xem_unlock_iter (value : Z) : bool * Z :=
  let '(old, v) := xchg value 1 in (old =? 0, v).

(** ** Readers-writer locks *)

Record rwlock := mkrw { lock : Z; writelock : Z; readers : Z }.

#[export] Instance rwlock_eta : Eta rwlock := λ r, mkrw (lock r) (writelock r) (readers r).

Definition rwlock_init : rwlock := mkrw xem_init xem_init 0.

(** Where a thread stands: outside ([Idle]), inside one of the four operations,
    or between an acquire and the matching release ([Reading], [Writing]). *)
Inductive pc :=
| Idle
| AR_lock | AR_load | AR_store (r : Z) | AR_test | AR_write | AR_unlock
| Reading
| RR_lock | RR_load | RR_store (r : Z) | RR_test | RR_write | RR_unlock
| AW_write
| Writing
| RW_write.

#[export] Instance pc_eq : EqDecision pc.
Proof. solve_decision. Defined.

(** A semaphore operation at a program point: go on to [next] or stay. *)
Definition sem (iter : Z → bool * Z) (v : Z) (put : Z → rwlock) (stay next : pc) : pc * rwlock :=
  let '(ok, v') := iter v in (if ok : bool then next else stay, put v').

(** [rwlock_acquire_readlock], statement by statement. *)
Definition rwlock_acquire_readlock (p : pc) (rw : rwlock) : pc * rwlock :=
  match p with
  | AR_lock => sem xem_wait_iter (lock rw) (λ v, rw <| lock := v |>) AR_lock AR_load
  | AR_load => (AR_store (readers rw), rw)
  | AR_store r => (AR_test, rw <| readers := r + 1 |>)
  | AR_test => (if readers rw =? 1 then AR_write else AR_unlock, rw)
  | AR_write => sem xem_wait_iter (writelock rw) (λ v, rw <| writelock := v |>) AR_write AR_unlock
  | AR_unlock => sem xem_unlock_iter (lock rw) (λ v, rw <| lock := v |>) AR_unlock Reading
  | _ => (p, rw)
  end.

Definition rwlock_release_readlock (p : pc) (rw : rwlock) : pc * rwlock :=
  match p with
  | RR_lock => sem xem_wait_iter (lock rw) (λ v, rw <| lock := v |>) RR_lock RR_load
  | RR_load => (RR_store (readers rw), rw)
  | RR_store r => (RR_test, rw <| readers := r - 1 |>)
  | RR_test => (if readers rw =? 0 then RR_write else RR_unlock, rw)
  | RR_write => sem xem_unlock_iter (writelock rw) (λ v, rw <| writelock := v |>) RR_write RR_unlock
  | RR_unlock => sem xem_unlock_iter (lock rw) (λ v, rw <| lock := v |>) RR_unlock Idle
  | _ => (p, rw)
  end.

Definition rwlock_acquire_writelock (p : pc) (rw : rwlock) : pc * rwlock :=
  match p with
  | AW_write => sem xem_wait_iter (writelock rw) (λ v, rw <| writelock := v |>) AW_write Writing
  | _ => (p, rw)
  end.

Definition rwlock_release_writelock (p : pc) (rw : rwlock) : pc * rwlock :=
  match p with
  | RW_write => sem xem_unlock_iter (writelock rw) (λ v, rw <| writelock := v |>) RW_write Idle
  | _ => (p, rw)
  end.

(** One step of a thread that is inside an operation. *)
Definition exec (p : pc) (rw : rwlock) : pc * rwlock :=
  match p with
  | Idle | Reading | Writing => (p, rw)
  | AR_lock | AR_load | AR_store _ | AR_test | AR_write | AR_unlock =>
      rwlock_acquire_readlock p rw
  | RR_lock | RR_load | RR_store _ | RR_test | RR_write | RR_unlock =>
      rwlock_release_readlock p rw
  | AW_write => rwlock_acquire_writelock p rw
  | RW_write => rwlock_release_writelock p rw
  end.

(** The system: the lock and the program point of every thread.  Threads call
    the operations in matching pairs. *)
Definition sys : Type := rwlock * list pc.

Inductive step : sys → sys → Prop :=
| step_exec rw l i p p' rw' :
    l !! i = Some p → exec p rw = (p', rw') → step (rw, l) (rw', <[i:=p']> l)
| step_read rw l i : l !! i = Some Idle → step (rw, l) (rw, <[i:=AR_lock]> l)
| step_write rw l i : l !! i = Some Idle → step (rw, l) (rw, <[i:=AW_write]> l)
| step_read_end rw l i : l !! i = Some Reading → step (rw, l) (rw, <[i:=RR_lock]> l)
| step_write_end rw l i : l !! i = Some Writing → step (rw, l) (rw, <[i:=RW_write]> l).

(** Reachable from the initial lock with [n] threads outside. *)
Inductive reachable (n : nat) : sys → Prop :=
| reach_init : reachable n (rwlock_init, replicate n Idle)
| reach_step s s' : reachable n s → step s s' → reachable n s'.

(** ** The invariant *)

(** The thread holds [rw->lock]. *)
Definition holds_lock (p : pc) : Z :=
  match p with
  | AR_load | AR_store _ | AR_test | AR_write | AR_unlock
  | RR_load | RR_store _ | RR_test | RR_write | RR_unlock => 1
  | _ => 0
  end.

(** The thread is a writer that holds [rw->writelock]. *)
Definition holds_write (p : pc) : Z :=
  match p with Writing | RW_write => 1 | _ => 0 end.

(** The thread is counted in [rw->readers]. *)
Definition counted (p : pc) : Z :=
  match p with
  | AR_test | AR_write | AR_unlock | Reading | RR_lock | RR_load | RR_store _ => 1
  | _ => 0
  end.

Definition b2z (b : bool) : Z := if b then 1 else 0.

(** What the holder of [rw->lock] knows of [readers] and of [g], which is 1 when
    the readers as a group hold [rw->writelock]. *)
Definition holder_ok (rd g : Z) (p : pc) : Prop :=
  match p with
  | AR_load => g = b2z (0 <? rd)
  | AR_store r => r = rd ∧ g = b2z (0 <? rd)
  | AR_test => g = b2z (1 <? rd)
  | AR_write => rd = 1 ∧ g = 0
  | AR_unlock => g = 1
  | RR_load | RR_test => g = 1
  | RR_store r => r = rd ∧ g = 1
  | RR_write => rd = 0 ∧ g = 1
  | RR_unlock => g = b2z (0 <? rd)
  | _ => True
  end.

Record inv (s : sys) (g : Z) : Prop := {
  inv_lock : lock s.1 = 1 - psum holds_lock s.2;
  inv_lock_range : 0 ≤ lock s.1 ≤ 1;
  inv_write : writelock s.1 = 1 - psum holds_write s.2 - g;
  inv_write_range : 0 ≤ writelock s.1 ≤ 1;
  inv_readers : readers s.1 = psum counted s.2;
  inv_g : 0 ≤ g ≤ 1;
  inv_holder : ∀ i p, s.2 !! i = Some p → holder_ok (readers s.1) g p;
  inv_free : lock s.1 = 1 → g = b2z (0 <? readers s.1)
}.

Lemma holds_lock_nonneg (l : list pc) : ∀ i p, l !! i = Some p → 0 ≤ holds_lock p.
Proof. intros i p _. by destruct p. Qed.
Lemma holds_write_nonneg (l : list pc) : ∀ i p, l !! i = Some p → 0 ≤ holds_write p.
Proof. intros i p _. by destruct p. Qed.
Lemma counted_nonneg (l : list pc) : ∀ i p, l !! i = Some p → 0 ≤ counted p.
Proof. intros i p _. by destruct p. Qed.

(** A thread that does not hold the lock has nothing to prove of the holder's
    knowledge; so after a step of the holder only its own point matters. *)
Lemma holder_ok_other rd g p : holds_lock p = 0 → holder_ok rd g p.
Proof. by destruct p. Qed.

Lemma holder_unique s g i j p q :
  inv s g → s.2 !! i = Some p → s.2 !! j = Some q → i ≠ j → holds_lock p = 1 → holds_lock q = 0.
Proof.
  intros H Hi Hj Hne Hp. pose proof (inv_lock s g H). pose proof (inv_lock_range s g H).
  pose proof (psum_elem2 holds_lock s.2 i j p q (holds_lock_nonneg _) Hne Hi Hj).
  destruct q; simpl in *; lia.
Qed.

Lemma free_no_holder s g i p : inv s g → s.2 !! i = Some p → lock s.1 = 1 → holds_lock p = 0.
Proof.
  intros H Hi Hl. pose proof (inv_lock s g H).
  pose proof (psum_elem holds_lock s.2 i p (holds_lock_nonneg _) Hi).
  pose proof (holds_lock_nonneg _ _ _ Hi). lia.
Qed.

(** The effect of moving one thread from [p] to [p'] together with a change of
    the lock words and of [g]. *)
Lemma xem_inv_move rw l g i p p' rw' g' :
  inv (rw, l) g → l !! i = Some p →
  lock rw' = lock rw + holds_lock p - holds_lock p' → 0 ≤ lock rw' ≤ 1 →
  writelock rw' = writelock rw + holds_write p + g - holds_write p' - g' →
  0 ≤ writelock rw' ≤ 1 →
  readers rw' = readers rw - counted p + counted p' → 0 ≤ g' ≤ 1 →
  holder_ok (readers rw') g' p' →
  (holds_lock p = 1 ∨ lock rw = 1 ∨ readers rw' = readers rw ∧ g' = g) →
  (lock rw' = 1 → g' = b2z (0 <? readers rw')) →
  inv (rw', <[i:=p']> l) g'.
Proof.
  intros Hinv Hi Hl Hlr Hw Hwr Hr Hg Hp' Hothers Hfree. pose proof Hinv as [H1 _ H3 _ H5 _ H7 _].
  simpl in *. constructor; simpl; try done.
  - rewrite (psum_insert _ _ _ _ p) by done. lia.
  - rewrite (psum_insert _ _ _ _ p) by done. lia.
  - rewrite (psum_insert _ _ _ _ p) by done. lia.
  - intros j q. destruct (decide (i = j)) as [<-|Hne].
    + rewrite list_lookup_insert_eq by eauto using lookup_lt_Some. by intros [= <-].
    + rewrite list_lookup_insert_ne by done. intros Hq.
      destruct Hothers as [Hh|[Hh|[-> ->]]].
      * apply holder_ok_other. by eapply (holder_unique (rw, l) g i j p q).
      * apply holder_ok_other. by eapply (free_no_holder (rw, l) g j q).
      * eauto.
Qed.

Lemma inv_init n : inv (rwlock_init, replicate n Idle) 0.
Proof.
  assert (∀ h : pc → Z, h Idle = 0 → psum h (replicate n Idle) = 0) as Hz.
  { intros h Hh. induction n; simpl; lia. }
  constructor; simpl; rewrite ?Hz by done; try done.
  intros i p [-> _]%lookup_replicate. done.
Qed.

(** The bound on the own contributions of a thread. *)
Lemma own_le rw l g i p :
  inv (rw, l) g → l !! i = Some p →
  holds_lock p ≤ 1 - lock rw ∧ holds_write p ≤ 1 - writelock rw - g ∧ counted p ≤ readers rw.
Proof.
  intros [H1 _ H3 _ H5 _ _ _] Hi; simpl in *.
  pose proof (psum_elem holds_lock l i p (holds_lock_nonneg _) Hi).
  pose proof (psum_elem holds_write l i p (holds_write_nonneg _) Hi).
  pose proof (psum_elem counted l i p (counted_nonneg _) Hi). lia.
Qed.

Ltac xem_bool :=
  repeat match goal with
  | H : context [b2z (?a <? ?b)] |- _ => destruct (Z.ltb_spec a b); simpl in *
  | |- context [b2z (?a <? ?b)] => destruct (Z.ltb_spec a b); simpl in *
  end.

Ltac xem_move g' :=
  exists g'; eapply xem_inv_move; [eassumption|eassumption|simpl in *; xem_bool; lia..].

Lemma inv_exec rw l g i p p' rw' :
  inv (rw, l) g → l !! i = Some p → exec p rw = (p', rw') →
  ∃ g', inv (rw', <[i:=p']> l) g'.
Proof.
  intros Hinv Hi He.
  pose proof (own_le _ _ _ _ _ Hinv Hi) as (Ho1 & Ho2 & Ho3).
  pose proof Hinv as [_ Hlr _ Hwr _ Hg Hh Hf]. simpl in *. specialize (Hh i p Hi).
  destruct p; unfold exec, rwlock_acquire_readlock, rwlock_release_readlock,
    rwlock_acquire_writelock, rwlock_release_writelock, sem, xem_wait_iter, xem_unlock_iter, xchg in He;
    simpl in *;
  repeat match goal with H : context [?a =? ?b] |- _ => destruct (Z.eqb_spec a b) end;
  injection He as <- <-; try (exfalso; xem_bool; lia);
  first [xem_move g | xem_move 0 | xem_move 1].
Qed.

Lemma xem_inv_step s s' g : inv s g → step s s' → ∃ g', inv s' g'.
Proof.
  intros Hinv Hstep. destruct Hstep as [rw l i p p' rw' Hi He|rw l i Hi|rw l i Hi|rw l i Hi|rw l i Hi];
    [by eapply inv_exec | ..];
    pose proof (own_le _ _ _ _ _ Hinv Hi) as (Ho1 & Ho2 & Ho3);
    pose proof Hinv as [_ Hlr _ Hwr _ Hg Hh Hf]; simpl in *; specialize (Hh i _ Hi); simpl in *;
    xem_move g.
Qed.

Lemma xem_reachable_inv n s : reachable n s → ∃ g, inv s g.
Proof.
  induction 1 as [|s s' _ [g Hg] Hstep].
  - exists 0. apply inv_init.
  - by eapply xem_inv_step.
Qed.

(** A thread inside a critical section. *)
Definition inside (p : pc) : Prop := p = Reading ∨ p = Writing.

(** A thread that has the write lock is alone. *)
Lemma writer_alone n s i j q :
  reachable n s → s.2 !! i = Some Writing → i ≠ j → s.2 !! j = Some q → ¬ inside q.
Proof.
  intros [g Hinv]%xem_reachable_inv Hi Hne Hj. destruct s as [rw l]; simpl in *.
  pose proof (own_le _ _ _ _ _ Hinv Hi) as (_ & Ho2 & _).
  pose proof (own_le _ _ _ _ _ Hinv Hj) as (_ & _ & Ho3).
  pose proof Hinv as [H1 Hlr H3 Hwr H5 Hg Hh Hf]; simpl in *.
  pose proof (psum_elem2 holds_write l i j _ q (holds_write_nonneg _) Hne Hi Hj) as Hw2.
  intros [-> | ->]; simpl in *; [|lia]. assert (g = 0) as -> by lia.
  destruct (decide (lock rw = 1)) as [Hl|Hl].
  { specialize (Hf Hl). xem_bool; lia. }
  destruct (psum_pos holds_lock l) as (k & h & Hk & Hhk); [lia|].
  specialize (Hh k h Hk). assert (k ≠ j) as Hkj by (intros ->; by simplify_eq).
  pose proof (psum_elem2 counted l k j h _ (counted_nonneg _) Hkj Hk Hj) as Hc.
  destruct h; simpl in *; try lia; xem_bool; lia.
Qed.

(** C7: mutual exclusion.  In every reachable state of any number of threads,
    a thread that has the write lock is alone: no other thread reads or writes. *)
Theorem rwlock_exclusion (n : nat) (s : sys) (i j : nat) (q : pc) :
  reachable n s → s.2 !! i = Some Writing → i ≠ j → s.2 !! j = Some q → ¬ inside q.
Proof. apply writer_alone. Qed.

(** The next step of the thread takes it forward. *)
Definition moves (rw : rwlock) (p : pc) : Prop := (exec p rw).1 ≠ p.

Lemma holder_moves rw l g i p :
  inv (rw, l) g → l !! i = Some p → holds_lock p = 1 → p ≠ AR_write → moves rw p.
Proof.
  intros Hinv Hi Hp Hne. pose proof (own_le _ _ _ _ _ Hinv Hi) as (Ho1 & Ho2 & _).
  pose proof Hinv as [_ Hlr _ Hwr _ Hg Hh _]; simpl in *. specialize (Hh i p Hi).
  destruct p; try done; unfold moves; simpl; repeat case_if; try done; simpl in *; lia.
Qed.

(** the lock never deadlocks.  Whenever some thread is inside an operation
    or a critical section, some thread is in a critical section (and may leave
    it) or takes a step forward, instead of every thread waiting for another. *)
Theorem rwlock_progress (n : nat) (s : sys) (i : nat) (p : pc) :
  reachable n s → s.2 !! i = Some p → p ≠ Idle →
  ∃ j q, s.2 !! j = Some q ∧ (inside q ∨ moves s.1 q).
Proof.
  intros [g Hinv]%xem_reachable_inv Hi Hp. destruct s as [rw l]; simpl in *.
  pose proof Hinv as [H1 Hlr H3 Hwr H5 Hg Hh Hf]; simpl in *.
  (* a taken write lock with no group of readers has a writer, who can go on *)
  assert (writelock rw = 0 → g = 0 → ∃ j q, l !! j = Some q ∧ (inside q ∨ moves rw q)) as Hwriter.
  { intros Hw Hg0. destruct (psum_pos holds_write l) as (k & h & Hk & Hhk); [lia|].
    exists k, h. split; [done|]. destruct h; simpl in *; try lia; [by left; right|].
    right. unfold moves; simpl. by rewrite Hw. }
  destruct (decide (lock rw = 1)) as [Hl|Hl]; last first.
  { destruct (psum_pos holds_lock l) as (k & h & Hk & Hhk); [lia|].
    destruct (decide (h = AR_write)) as [->|].
    - destruct (Hh k _ Hk) as [_ Hg0]. destruct (decide (writelock rw = 1)) as [Hw|].
      + exists k, AR_write. split; [done|]. right. unfold moves; simpl. by rewrite Hw.
      + apply Hwriter; lia.
    - exists k, h. split; [done|]. right. eapply holder_moves; eauto. destruct h; simpl in *; lia. }
  pose proof (free_no_holder _ _ _ _ Hinv Hi Hl) as Hnh.
  assert (p = AW_write ∨ inside p ∨ moves rw p) as [->|Hdone]; [|  | by exists i, p].
  { pose proof (own_le _ _ _ _ _ Hinv Hi) as (_ & Ho2 & _).
    destruct p; simpl in *; try done; unfold inside, moves; simpl; rewrite ?Hl; auto.
    right; right. case_if; [done|lia]. }
  destruct (decide (writelock rw = 1)) as [Hw|Hw].
  { exists i, AW_write. split; [done|]. right. unfold moves; simpl. by rewrite Hw. }
  destruct (decide (g = 0)) as [Hg0|Hg1]; [apply Hwriter; lia|].
  specialize (Hf Hl). xem_bool; [|lia].
  destruct (psum_pos counted l) as (k & h & Hk & Hhk); [lia|].
  pose proof (free_no_holder _ _ _ _ Hinv Hk Hl) as Hnh'.
  exists k, h. split; [done|]. destruct h; simpl in *; try lia; [by left; left|].
  right. unfold moves; simpl. by rewrite Hl.
Qed.

(** a release never waits.  In every reachable state the [xem_unlock]s of
    the two release operations, and the one that ends [rwlock_acquire_readlock],
    find the semaphore taken and return at the first attempt. *)
Theorem rwlock_release_immediate (n : nat) (s : sys) (i : nat) (p : pc) :
  reachable n s → s.2 !! i = Some p → p ∈ [AR_unlock; RR_write; RR_unlock; RW_write] →
  moves s.1 p.
Proof.
  intros [g Hinv]%xem_reachable_inv Hi Hp. destruct s as [rw l]; simpl in *.
  pose proof (own_le _ _ _ _ _ Hinv Hi) as (_ & Ho2 & _).
  pose proof (inv_write_range _ _ Hinv) as Hwr. pose proof (inv_g _ _ Hinv); simpl in *.
  repeat (apply elem_of_cons in Hp as [->|Hp]); [..|by apply not_elem_of_nil in Hp];
    try by eapply holder_moves.
  unfold moves; simpl in *. case_if; [done|lia].
Qed.

(** A reader waits for a writer: thread 0 writes, thread 1 is in [AR_write]. *)
Definition demo_sys : sys := (mkrw 0 0 1, [Writing; AR_write]).

Lemma demo_sys_reachable : reachable 2 demo_sys.
Proof.
  assert (∀ k s s', reachable 2 s → s.2 !! k.1 = Some k.2 →
    s' = ((exec k.2 s.1).2, <[k.1:=(exec k.2 s.1).1]> s.2) → reachable 2 s') as Hex.
  { intros [i p] [rw l] s' Hr Hl ->. eapply reach_step; [done|].
    eapply step_exec; [done|]. by destruct (exec _ _). }
  assert (reachable 2 (rwlock_init, [AW_write; Idle])) as H.
  { eapply reach_step; [constructor|]. by apply (step_write rwlock_init [Idle; Idle] 0). }
  apply (Hex (0%nat, AW_write) _ (mkrw 1 0 0, [Writing; Idle])) in H; [|done|done].
  assert (reachable 2 (mkrw 1 0 0, [Writing; AR_lock])) as H1.
  { eapply reach_step; [exact H|]. by apply (step_read (mkrw 1 0 0) [Writing; Idle] 1). }
  apply (Hex (1%nat, AR_lock) _ (mkrw 0 0 0, [Writing; AR_load])) in H1; [|done|done].
  apply (Hex (1%nat, AR_load) _ (mkrw 0 0 0, [Writing; AR_store 0])) in H1; [|done|done].
  apply (Hex (1%nat, AR_store 0) _ (mkrw 0 0 1, [Writing; AR_test])) in H1; [|done|done].
  by apply (Hex (1%nat, AR_test) _ demo_sys) in H1.
Qed.

Lemma rwlock_exclusion_witness : ¬ inside AR_write.
Proof. apply (rwlock_exclusion 2 demo_sys 0 1 AR_write); [apply demo_sys_reachable|done|done|done]. Defined.

Lemma rwlock_progress_witness :
  ∃ j q, demo_sys.2 !! j = Some q ∧ (inside q ∨ moves demo_sys.1 q).
Proof. apply (rwlock_progress 2 demo_sys 1 AR_write); [apply demo_sys_reachable|done|done]. Defined.

Lemma rwlock_release_immediate_witness :
  moves (mkrw 0 0 1) RW_write.
Proof.
  apply (rwlock_release_immediate 2 (mkrw 0 0 1, [RW_write; AR_write]) 0 RW_write); [|done|set_solver].
  eapply reach_step; [apply demo_sys_reachable|].
  by apply (step_write_end (mkrw 0 0 1) [Writing; AR_write] 0).
Defined.
