(* ===== verification/Spinlock.v ===== *)
(** Spin locks (spinlock.c): interrupt nesting, [acquire] and [release] on
    several CPUs. *)

From S2P Require Import Prelude.

(** ** [pushcli] and [popcli] *)

Module Cli.

(** The part of [struct cpu] and of the flags register they use. *)
Record cpu := mkcpu { ncli : Z; intena : bool; FL_IF : bool }.

#[export] Instance cpu_eta : Eta cpu := λ c, mkcpu (ncli c) (intena c) (FL_IF c).

Definition pushcli : M cpu unit :=
  eflags ← gets FL_IF;
  _ ← modify (λ c, c <| FL_IF := false |>);
  n ← gets ncli;
  _ ← when (n =? 0) (modify (λ c, c <| intena := eflags |>));
  modify (λ c, c <| ncli := ncli c + 1 |>).

Definition popcli : M cpu unit :=
  eflags ← gets FL_IF;
  if eflags : bool then panic "popcli - interruptible" else
  _ ← modify (λ c, c <| ncli := ncli c - 1 |>);
  n ← gets ncli;
  if n <? 0 then panic "popcli" else
  i ← gets intena;
  when ((n =? 0) && i) (modify (λ c, c <| FL_IF := true |>)).

(** Matched sequences of the two. *)
Inductive call := Push | Pop.

Inductive matched : list call → Prop :=
| matched_nil : matched []
| matched_nest w w' : matched w → matched w' → matched (Push :: w ++ Pop :: w').

Fixpoint run (w : list call) : M cpu unit :=
  match w with
  | [] => skip
  | Push :: w => _ ← pushcli; run w
  | Pop :: w => _ ← popcli; run w
  end.

(** Interrupts are off inside a [pushcli]. *)
Definition cli_wf (c : cpu) : Prop := 0 ≤ ncli c ∧ (0 < ncli c → FL_IF c = false).

Lemma run_app w w' c : run (w ++ w') c = (_ ← run w; run w') c.
Proof.
  revert c. induction w as [|[] w IH]; intros c; simpl; [done| |];
    unfold mbind, M_bind; [destruct (pushcli c) | destruct (popcli c)]; auto; apply IH.
Qed.

Lemma pushcli_eq c :
  pushcli c = Ok tt (mkcpu (ncli c + 1) (if ncli c =? 0 then FL_IF c else intena c) false).
Proof. unfold pushcli, when, gets, modify, mbind, M_bind; simpl. by destruct (ncli c =? 0). Qed.

Lemma popcli_eq c :
  FL_IF c = false → 0 < ncli c →
  popcli c = Ok tt (mkcpu (ncli c - 1) (intena c) ((ncli c - 1 =? 0) && intena c)).
Proof.
  intros Hf Hn. unfold popcli, when, gets, modify, mbind, M_bind. rewrite Hf. simpl.
  rewrite (proj2 (Z.ltb_ge _ _)) by lia. destruct c; simpl in *; subst.
  by destruct (_ && _).
Qed.

(** [pushcli] and [popcli] nest.  A matched sequence of any depth never
    panics and restores the nesting depth and the interrupt flag; inside an
    outer [pushcli] it also keeps the saved flag. *)
Theorem cli_nest (w : list call) (c : cpu) :
  matched w → cli_wf c →
  returns (run w) c (λ _ c', cli_wf c' ∧ ncli c' = ncli c ∧ FL_IF c' = FL_IF c ∧
                             (0 < ncli c → intena c' = intena c)).
Proof.
  intros Hm. revert c. induction Hm as [|w w' _ IH _ IH']; intros c [Hn Hf].
  { apply returns_ret. done. }
  simpl. apply returns_bind. unfold returns at 1. rewrite pushcli_eq.
  unfold returns at 1. rewrite run_app. fold (returns (_ ← run w; run (Pop :: w')) (mkcpu (ncli c + 1)
     (if ncli c =? 0 then FL_IF c else intena c) false)
     (λ _ c', cli_wf c' ∧ ncli c' = ncli c ∧ FL_IF c' = FL_IF c ∧ (0 < ncli c → intena c' = intena c))).
  apply returns_bind. eapply returns_mono; [apply IH; split; simpl; [lia|done]|].
  intros [] c1 ([H1 H1'] & Hn1 & Hf1 & Hi1). simpl in *. specialize (Hi1 ltac:(lia)).
  apply returns_bind. unfold returns at 1. rewrite popcli_eq by (done || lia).
  assert (mkcpu (ncli c1 - 1) (intena c1) ((ncli c1 - 1 =? 0) && intena c1) =
          mkcpu (ncli c) (intena c1) (FL_IF c)) as ->.
  { rewrite Hn1, Hi1. f_equal; [lia|]. destruct (Z.eqb_spec (ncli c + 1 - 1) 0) as [E|E]; simpl.
    - by rewrite (proj2 (Z.eqb_eq (ncli c) 0)) by lia.
    - rewrite Hf; [done|lia]. }
  eapply returns_mono; [apply IH'; split; simpl; [lia|done]|].
  intros [] c2 (Hw & Hn2 & Hf2 & Hi2). simpl in *. split; [done|]. split; [done|]. split; [done|].
  intros Hpos. rewrite Hi2, Hi1 by done. by rewrite (proj2 (Z.eqb_neq _ _)) by lia.
Qed.

Lemma cli_nest_witness :
  returns (run [Push; Push; Pop; Pop]) (mkcpu 0 false true)
    (λ _ c', cli_wf c' ∧ ncli c' = 0 ∧ FL_IF c' = true ∧ (0 < 0 → intena c' = false)).
Proof.
  apply (cli_nest [Push; Push; Pop; Pop] (mkcpu 0 false true)); [|split; simpl; [lia|done]].
  apply (matched_nest [Push; Pop] []); [|constructor].
  apply (matched_nest [] []); constructor.
Defined.

End Cli.

(** ** [acquire] and [release] on several CPUs *)

Module Spin.

Record spinlock := mklk { locked : Z; cpu : option nat }.

#[export] Instance spinlock_eta : Eta spinlock := λ l, mklk (locked l) (cpu l).

Definition initlock : spinlock := mklk 0 None.

(** [holding(lk)] on CPU [c]. *)
Definition holding (c : nat) (lk : spinlock) : bool :=
  negb (locked lk =? 0) && bool_decide (cpu lk = Some c).

(** The program points of [acquire] and [release]; [In] is the critical section. *)
Inductive pc :=
| Out
| Acq_check | Acq_spin | Acq_own
| In
| Rel_check | Rel_own | Rel_store
| Panicked.

Definition acquire (c : nat) (p : pc) (lk : spinlock) : pc * spinlock :=
  match p with
  | Acq_check => (if holding c lk then Panicked else Acq_spin, lk)
  | Acq_spin => (if locked lk =? 0 then Acq_own else Acq_spin, lk <| locked := 1 |>)
  | Acq_own => (In, lk <| cpu := Some c |>)
  | _ => (p, lk)
  end.

Definition release (c : nat) (p : pc) (lk : spinlock) : pc * spinlock :=
  match p with
  | Rel_check => (if holding c lk then Rel_own else Panicked, lk)
  | Rel_own => (Rel_store, lk <| cpu := None |>)
  | Rel_store => (Out, lk <| locked := 0 |>)
  | _ => (p, lk)
  end.

Inductive step : spinlock * list pc → spinlock * list pc → Prop :=
| step_acquire lk l c p p' lk' :
    l !! c = Some p → acquire c p lk = (p', lk') → step (lk, l) (lk', <[c:=p']> l)
| step_release lk l c p p' lk' :
    l !! c = Some p → release c p lk = (p', lk') → step (lk, l) (lk', <[c:=p']> l)
| step_enter lk l c : l !! c = Some Out → step (lk, l) (lk, <[c:=Acq_check]> l)
| step_leave lk l c : l !! c = Some In → step (lk, l) (lk, <[c:=Rel_check]> l).

Inductive reachable (n : nat) : spinlock * list pc → Prop :=
| reach_init : reachable n (initlock, replicate n Out)
| reach_step s s' : reachable n s → step s s' → reachable n s'.

(** The CPU has won the [xchg] and not yet cleared the word. *)
Definition holds (p : pc) : Z :=
  match p with Acq_own | In | Rel_check | Rel_own | Rel_store => 1 | _ => 0 end.

(** The CPU has recorded itself in [lk->cpu]. *)
Definition recorded (p : pc) : bool :=
  match p with In | Rel_check | Rel_own => true | _ => false end.

Record inv (s : spinlock * list pc) : Prop := {
  inv_locked : locked s.1 = psum holds s.2;
  inv_range : 0 ≤ locked s.1 ≤ 1;
  inv_cpu : ∀ c p, s.2 !! c = Some p → (recorded p = true ↔ cpu s.1 = Some c);
  inv_panic : ∀ c p, s.2 !! c = Some p → p ≠ Panicked
}.

Lemma holds_nonneg (l : list pc) : ∀ i p, l !! i = Some p → 0 ≤ holds p.
Proof. intros i p _. by destruct p. Qed.

Lemma inv_holding lk l c p :
  inv (lk, l) → l !! c = Some p → holding c lk = recorded p.
Proof.
  intros [H1 H2 H3 _] Hp; simpl in *. unfold holding.
  pose proof (psum_elem holds l c p (holds_nonneg l) Hp).
  specialize (H3 c p Hp). destruct (recorded p) eqn:E.
  - rewrite bool_decide_true by (by apply H3). destruct p; try done; simpl in *;
      by rewrite (proj2 (Z.eqb_neq _ _)) by lia.
  - rewrite bool_decide_false by (intros Hc; apply H3 in Hc; done). by rewrite andb_false_r.
Qed.

(** Moving one CPU from [p] to [p']. *)
Lemma spin_inv_move lk l c p p' lk' :
  inv (lk, l) → l !! c = Some p → p' ≠ Panicked →
  locked lk' = locked lk - holds p + holds p' → 0 ≤ locked lk' ≤ 1 →
  (recorded p' = true ↔ cpu lk' = Some c) →
  (cpu lk' = cpu lk ∨ (locked lk = holds p ∧ (cpu lk' = Some c ∨ cpu lk' = None))) →
  inv (lk', <[c:=p']> l).
Proof.
  intros Hinv Hp Hnp Hl Hr Hc Ho. pose proof Hinv as [H1 H2 H3 H4]; simpl in *.
  assert (∀ k q, <[c:=p']> l !! k = Some q → k = c ∧ q = p' ∨ k ≠ c ∧ l !! k = Some q) as Hins.
  { intros k q. destruct (decide (k = c)) as [->|Hne].
    - rewrite list_lookup_insert_eq by eauto using lookup_lt_Some. intros [= <-]. auto.
    - rewrite list_lookup_insert_ne by done. auto. }
  constructor; simpl; [|done| |].
  - rewrite (psum_insert _ _ _ _ p) by done. lia.
  - intros k q [[-> ->]|[Hne Hq]]%Hins; [done|]. specialize (H3 k q Hq).
    destruct Ho as [->|[Hl' Ho]]; [done|].
    pose proof (psum_elem2 holds l k c q p (holds_nonneg l) Hne Hq Hp) as Hsum.
    split; [intros Hrec; destruct q; simpl in *; try done; lia|].
    intros HkS. destruct Ho as [Ho|Ho]; congruence.
  - intros k q [[-> ->]|[_ Hq]]%Hins; eauto.
Qed.

Ltac lk_move :=
  eapply spin_inv_move; [eassumption|eassumption|done|simpl in *; lia|simpl in *; lia|simpl in *; naive_solver|];
  simpl in *; solve [by left | right; split; [lia | auto]].

Lemma spin_inv_step s s' : inv s → step s s' → inv s'.
Proof.
  intros Hinv Hstep. destruct Hstep as [lk l c p p' lk' Hp He|lk l c p p' lk' Hp He|lk l c Hp|lk l c Hp];
    pose proof (inv_holding lk l c _ Hinv Hp) as Hh; pose proof Hinv as [H1 H2 H3 H4]; simpl in *;
    pose proof (psum_elem holds l c _ (holds_nonneg l) Hp) as Ho;
    pose proof (H3 c _ Hp) as Hc; pose proof (H4 c _ Hp) as Hnp.
  - destruct p; simpl in *; rewrite ?Hh in He; simpl in He;
      try destruct (Z.eqb_spec (locked lk) 0); injection He as <- <-; lk_move.
  - destruct p; simpl in *; rewrite ?Hh in He; simpl in He; injection He as <- <-; lk_move.
  - lk_move.
  - lk_move.
Qed.

Lemma spin_reachable_inv n s : reachable n s → inv s.
Proof.
  induction 1 as [|s s' _ IH Hstep]; [|by eapply spin_inv_step].
  assert (psum holds (replicate n Out) = 0) as Hz by (induction n; simpl; lia).
  constructor; simpl; [lia|lia| |]; intros c p [-> _]%lookup_replicate; done.
Qed.

(** C32: a spin lock excludes.  For any number of CPUs that pair [acquire] with
    [release] and interleave at every access to the lock, at most one is between
    winning the [xchg] and clearing the word, the critical section included;
    neither the check of [acquire] nor the one of [release] ever panics; and
    [holding] is true on a CPU exactly from the point where [acquire] has recorded
    it to the point where [release] takes the record back. *)
Theorem spinlock_exclusion (n : nat) (s : spinlock * list pc) (c d : nat) (p q : pc) :
  reachable n s → s.2 !! c = Some p → s.2 !! d = Some q →
  p ≠ Panicked ∧ (holds p = 1 → holds q = 1 → c = d) ∧ holding c s.1 = recorded p.
Proof.
  intros Hinv%spin_reachable_inv Hc Hd. destruct s as [lk l]; simpl in *. split; [|split].
  - by eapply (inv_panic _ Hinv).
  - intros Hp Hq. destruct (decide (c = d)) as [|Hne]; [done|].
    pose proof (psum_elem2 holds l c d _ _ (holds_nonneg l) Hne Hc Hd).
    pose proof (inv_locked _ Hinv). pose proof (inv_range _ Hinv). simpl in *. lia.
  - by eapply inv_holding.
Qed.

(** CPU 0 in the critical section while CPU 1 spins. *)
Lemma demo_spin : reachable 2 (mklk 1 (Some 0%nat), [In; Acq_spin]).
Proof.
  eapply reach_step; [|by apply (step_acquire (mklk 1 (Some 0%nat)) [In; Acq_check] 1 Acq_check)].
  eapply reach_step; [|by apply (step_enter (mklk 1 (Some 0%nat)) [In; Out] 1)].
  eapply reach_step; [|by apply (step_acquire (mklk 1 None) [Acq_own; Out] 0 Acq_own)].
  eapply reach_step; [|by apply (step_acquire (mklk 0 None) [Acq_spin; Out] 0 Acq_spin)].
  eapply reach_step; [|by apply (step_acquire (mklk 0 None) [Acq_check; Out] 0 Acq_check)].
  eapply reach_step; [constructor|]. by apply (step_enter initlock [Out; Out] 0).
Qed.

Lemma spinlock_exclusion_witness :
  (In ≠ Panicked ∧ (holds In = 1 → holds Acq_spin = 1 → 0%nat = 1%nat) ∧ holding 0 (mklk 1 (Some 0%nat)) = true) ∧
  holding 1 (mklk 1 (Some 0%nat)) = false.
Proof.
  split.
  - by apply (spinlock_exclusion 2 (mklk 1 (Some 0%nat), [In; Acq_spin]) 0 1 In Acq_spin demo_spin).
  - by apply (spinlock_exclusion 2 (mklk 1 (Some 0%nat), [In; Acq_spin]) 1 0 Acq_spin In demo_spin).
Defined.

End Spin.
