(* ===== verification/Sleeplock.v ===== *)
(** Sleep locks (sleeplock.c) on top of [sleep] and [wakeup] (proc.c): processes
    that acquire and release one sleep lock, interleaved at every access to the
    two spin locks involved, [lk->lk] and [ptable.lock]. *)

From S2P Require Import Prelude.

(** The lock: the words of the two spin locks, which exclude (see [Spin]), and
    the fields of [struct sleeplock].  A process is named by its index, which
    stands for its pid. *)
Record slock := mksl { lk : Z; ptl : Z; locked : Z; pid : option nat }.

#[export] Instance slock_eta : Eta slock := λ s, mksl (lk s) (ptl s) (locked s) (pid s).

Definition initsleeplock : slock := mksl 0 0 0 None.

(** Program points.  [A_sleep] to [A_resume] are inside [sleep(lk, &lk->lk)];
    [Asleep] and [Woken] are the process states SLEEPING and RUNNABLE there. *)
Inductive pc :=
| Out
| A_lk | A_test | A_sleep | A_rel | A_mark | Asleep | Woken | A_resume | A_take | A_done
| In
| R_lk | R_clear | R_wakeup | R_wake | R_rel.

#[export] Instance pc_eq : EqDecision pc.
Proof. solve_decision. Defined.

(** [acquire] of a spin lock goes on only when the word is 0. *)
Definition if_free (w : Z) (r : pc * slock) : option (pc * slock) :=
  if w =? 0 then Some r else None.

(** [sleep(chan, lk)] where [lk] is not [ptable.lock]; the scheduler takes
    [ptable.lock] again before it resumes the process. *)
Definition sleep_ (p : pc) (s : slock) : option (pc * slock) :=
  match p with
  | A_sleep => if_free (ptl s) (A_rel, s <| ptl := 1 |>)
  | A_rel => Some (A_mark, s <| lk := 0 |>)
  | A_mark => Some (Asleep, s <| ptl := 0 |>)
  | Woken => if_free (ptl s) (A_resume, s <| ptl := 1 |>)
  | A_resume => Some (A_lk, s <| ptl := 0 |>)
  | _ => None
  end.

Definition acquiresleep (i : nat) (p : pc) (s : slock) : option (pc * slock) :=
  match p with
  | A_lk => if_free (lk s) (A_test, s <| lk := 1 |>)
  | A_test => Some (if locked s =? 0 then A_take else A_sleep, s)
  | A_take => Some (A_done, s <| locked := 1 |> <| pid := Some i |>)
  | A_done => Some (In, s <| lk := 0 |>)
  | _ => None
  end.

Definition releasesleep (p : pc) (s : slock) : option (pc * slock) :=
  match p with
  | R_lk => if_free (lk s) (R_clear, s <| lk := 1 |>)
  | R_clear => Some (R_wakeup, s <| locked := 0 |> <| pid := None |>)
  | R_wakeup => if_free (ptl s) (R_wake, s <| ptl := 1 |>)
  | R_rel => Some (Out, s <| lk := 0 |>)
  | _ => None
  end.

(** The result of [holdingsleep] for process [i]. *)
Definition holdingsleep (i : nat) (s : slock) : bool :=
  negb (locked s =? 0) && bool_decide (pid s = Some i).

(** [wakeup1(lk)]: every process asleep on the lock becomes RUNNABLE. *)
Definition wakeup1 (l : list pc) : list pc := (λ p, if decide (p = Asleep) then Woken else p) <$> l.

Definition exec (i : nat) (p : pc) (s : slock) : option (pc * slock) :=
  match acquiresleep i p s with
  | Some r => Some r
  | None => match sleep_ p s with Some r => Some r | None => releasesleep p s end
  end.

Inductive step : slock * list pc → slock * list pc → Prop :=
| step_exec s l i p p' s' :
    l !! i = Some p → exec i p s = Some (p', s') → step (s, l) (s', <[i:=p']> l)
| step_wake s l i :
    l !! i = Some R_wake → step (s, l) (s <| ptl := 0 |>, wakeup1 (<[i:=R_rel]> l))
| step_enter s l i : l !! i = Some Out → step (s, l) (s, <[i:=A_lk]> l)
| step_leave s l i : l !! i = Some In → step (s, l) (s, <[i:=R_lk]> l).

Inductive reachable (n : nat) : slock * list pc → Prop :=
| reach_init : reachable n (initsleeplock, replicate n Out)
| reach_step s s' : reachable n s → step s s' → reachable n s'.

(** ** The invariant *)

Definition has_lk (p : pc) : Z :=
  match p with
  | A_test | A_sleep | A_rel | A_take | A_done | R_clear | R_wakeup | R_wake | R_rel => 1
  | _ => 0
  end.

Definition has_ptl (p : pc) : Z :=
  match p with A_rel | A_mark | A_resume | R_wake => 1 | _ => 0 end.

(** The process owns the sleep lock. *)
Definition owns (p : pc) : Z :=
  match p with A_done | In | R_lk | R_clear => 1 | _ => 0 end.

(** The process has cleared [locked] and is about to wake the sleepers. *)
Definition waking (p : pc) : Z := match p with R_wakeup | R_wake => 1 | _ => 0 end.

(** What a process at [p] relies on, given the sum [w] of [waking]. *)
Definition knows (lkd w : Z) (p : pc) : Prop :=
  match p with
  | A_take => lkd = 0
  | A_sleep | A_rel => lkd = 1
  | A_mark | Asleep => lkd = 1 ∨ 0 < w
  | _ => True
  end.

Record inv (x : slock * list pc) : Prop := {
  inv_lk : lk x.1 = psum has_lk x.2;
  inv_lk_range : 0 ≤ lk x.1 ≤ 1;
  inv_ptl : ptl x.1 = psum has_ptl x.2;
  inv_ptl_range : 0 ≤ ptl x.1 ≤ 1;
  inv_own : locked x.1 = psum owns x.2;
  inv_own_range : 0 ≤ locked x.1 ≤ 1;
  inv_pid : ∀ i p, x.2 !! i = Some p → (owns p = 1 ↔ pid x.1 = Some i);
  inv_knows : ∀ i p, x.2 !! i = Some p → knows (locked x.1) (psum waking x.2) p
}.

Lemma pc_nonneg g (l : list pc) :
  g ∈ [has_lk; has_ptl; owns; waking] → ∀ i p, l !! i = Some p → 0 ≤ g p.
Proof.
  intros Hg i p _. repeat (apply elem_of_cons in Hg as [->|Hg]; [by destruct p|]).
  by apply not_elem_of_nil in Hg.
Qed.

Ltac nonneg := apply pc_nonneg; repeat first [left | right].

(** Every process but the moving one keeps what it relies on: either nothing it
    relies on changed, or the moving process holds [lk->lk]. *)
Lemma knows_other lkd w lkd' w' q :
  knows lkd w q →
  (lkd' = lkd ∧ w ≤ w' ∨
   has_lk q = 0 ∧ (lkd' = 1 ∨ 0 < w' ∨ (q ≠ A_mark ∧ q ≠ Asleep))) →
  knows lkd' w' q.
Proof. intros Hk H. destruct q; simpl in *; try done; intuition (lia || congruence). Qed.

Lemma sl_inv_move s l i p p' s' :
  inv (s, l) → l !! i = Some p →
  lk s' = lk s - has_lk p + has_lk p' → 0 ≤ lk s' ≤ 1 →
  ptl s' = ptl s - has_ptl p + has_ptl p' → 0 ≤ ptl s' ≤ 1 →
  locked s' = locked s - owns p + owns p' → 0 ≤ locked s' ≤ 1 →
  (owns p' = 1 ↔ pid s' = Some i) →
  (pid s' = pid s ∨ (locked s = owns p ∧ (pid s' = Some i ∨ pid s' = None))) →
  (∀ w, psum waking l - waking p + waking p' = w → 0 ≤ w → knows (locked s') w p') →
  (locked s' = locked s ∧ waking p ≤ waking p' ∨
   has_lk p = 1 ∧ (locked s' = 1 ∨ waking p' = 1)) →
  inv (s', <[i:=p']> l).
Proof.
  intros Hinv Hp H1 H2 H3 H4 H5 H6 Hpid Hpid' Hk Ho.
  pose proof Hinv as [I1 I2 I3 I4 I5 I6 I7 I8]; simpl in *.
  assert (∀ k q, <[i:=p']> l !! k = Some q → k = i ∧ q = p' ∨ k ≠ i ∧ l !! k = Some q) as Hins.
  { intros k q. destruct (decide (k = i)) as [->|Hne].
    - rewrite list_lookup_insert_eq by eauto using lookup_lt_Some. intros [= <-]. auto.
    - rewrite list_lookup_insert_ne by done. auto. }
  assert (0 ≤ psum waking (<[i:=p']> l)) as Hw by (apply psum_nonneg; nonneg).
  pose proof (psum_insert waking i p' l p Hp) as Hwi.
  pose proof (psum_nonneg waking l ltac:(nonneg)) as Hw0.
  constructor; simpl; rewrite ?(psum_insert _ _ _ _ p) by done; try lia.
  - intros k q [[-> ->]|[Hne Hq]]%Hins; [done|]. specialize (I7 k q Hq).
    destruct Hpid' as [->|[Hl Hs]]; [done|].
    pose proof (psum_elem2 owns l k i q p ltac:(nonneg) Hne Hq Hp).
    split; [intros Hrec; lia|]. intros Hks. destruct Hs as [Hs|Hs]; congruence.
  - intros k q [[-> ->]|[Hne Hq]]%Hins; [apply Hk; lia|].
    apply (knows_other (locked s) (psum waking l)); [by eapply I8|].
    destruct Ho as [[-> Hle]|[Hlk Ho]]; [left; split; [done|lia]|right].
    pose proof (psum_elem2 has_lk l k i q p ltac:(nonneg) Hne Hq Hp).
    pose proof (pc_nonneg has_lk l ltac:(left) k q Hq). split; [lia|].
    destruct Ho as [->|Hwk]; [by left|right; left].
    assert (waking p' ≤ psum waking (<[i:=p']> l)); [|lia].
    apply (psum_elem _ _ i); [nonneg|].
    apply list_lookup_insert_eq. by eapply lookup_lt_Some.
Qed.

Lemma if_free_inv w r r' : if_free w r = Some r' → w = 0 ∧ r' = r.
Proof. unfold if_free. case_if; intros [= <-]; bsimpl; auto. Qed.

Lemma if_free_0 w r : w = 0 → if_free w r = Some r.
Proof. by intros ->. Qed.

Lemma exec_inv s l i p p' s' :
  inv (s, l) → l !! i = Some p → exec i p s = Some (p', s') → inv (s', <[i:=p']> l).
Proof.
  intros Hinv Hp Hx. pose proof Hinv as [I1 I2 I3 I4 I5 I6 I7 I8]; simpl in *.
  pose proof (I7 i p Hp) as Hpid. pose proof (I8 i p Hp) as Hk.
  pose proof (psum_elem has_lk l i p ltac:(nonneg) Hp).
  pose proof (psum_elem has_ptl l i p ltac:(nonneg) Hp).
  pose proof (psum_elem owns l i p ltac:(nonneg) Hp).
  pose proof (psum_nonneg waking l ltac:(nonneg)).
  destruct p; unfold exec in Hx; simpl in Hx; try discriminate Hx;
    try (destruct (if_free _ _) eqn:Hf; [|discriminate Hx]; apply if_free_inv in Hf as [Hf ->]);
    try (destruct (locked s =? 0) eqn:Ht; bsimpl);
    injection Hx as <- <-; simpl in Hpid, Hk;
    (eapply sl_inv_move; [eassumption|eassumption|..]); simpl in *;
    intuition (lia || congruence).
Qed.

Lemma wakeup1_sum g l : g Asleep = g Woken → psum g (wakeup1 l) = psum g l.
Proof.
  intros Hg. induction l as [|p l IH]; simpl; [done|].
  rewrite IH. by case_decide; subst; rewrite ?Hg.
Qed.

Lemma wakeup1_lookup l i p :
  wakeup1 l !! i = Some p →
  p ≠ Asleep ∧ (l !! i = Some p ∨ l !! i = Some Asleep ∧ p = Woken).
Proof.
  unfold wakeup1. rewrite list_lookup_fmap_Some. intros (q & Hq & ->).
  case_decide; subst; auto.
Qed.

(** Waking keeps the invariant: whoever marks itself asleep holds [ptable.lock],
    so no process is between the test of [locked] and SLEEPING. *)
Lemma wake_inv s l i :
  inv (s, l) → l !! i = Some R_wake → inv (s <| ptl := 0 |>, wakeup1 (<[i:=R_rel]> l)).
Proof.
  intros [I1 I2 I3 I4 I5 I6 I7 I8] Hp; simpl in *.
  pose proof (psum_elem has_ptl l i _ ltac:(nonneg) Hp) as Hi; simpl in Hi.
  assert (∀ k q, wakeup1 (<[i:=R_rel]> l) !! k = Some q →
    q ≠ Asleep ∧ ∃ q0, l !! k = Some q0 ∧ owns q = owns q0 ∧
      (q = R_rel ∨ q = Woken ∨ q = q0 ∧ q ≠ A_mark)) as Hl.
  { intros k q [Hne Hq]%wakeup1_lookup. split; [done|].
    destruct (decide (k = i)) as [->|Hki].
    - rewrite list_lookup_insert_eq in Hq by eauto using lookup_lt_Some.
      exists R_wake. destruct Hq as [[= <-]|[? ?]]; naive_solver.
    - rewrite list_lookup_insert_ne in Hq by done.
      destruct Hq as [Hq|[Hq ->]]; eexists; split_and!; [done|done| |done|done|by auto].
      right; right. split; [done|]. intros ->.
      pose proof (psum_elem2 has_ptl l k i _ _ ltac:(nonneg) Hki Hq Hp). simpl in *. lia. }
  constructor; simpl; rewrite ?wakeup1_sum, ?(psum_insert _ _ _ _ R_wake) by done;
    simpl; try lia.
  - intros k q (_ & q0 & Hq & -> & _)%Hl. by apply I7.
  - intros k q (Hna & q0 & Hq & _ & Hc)%Hl. specialize (I8 k q0 Hq).
    destruct Hc as [-> | [-> | [-> Hm]]]; [done|done|]. by destruct q0.
Qed.

Lemma sl_inv_step x x' : inv x → step x x' → inv x'.
Proof.
  intros Hinv Hs. destruct Hs as [s l i p p' s' Hp Hx|s l i Hp|s l i Hp|s l i Hp].
  - by eapply exec_inv.
  - by apply wake_inv.
  - pose proof Hinv as [I1 I2 I3 I4 I5 I6 I7 I8]. pose proof (I7 _ _ Hp).
    eapply sl_inv_move; [eassumption|eassumption|..]; simpl in *; intuition (lia || congruence).
  - pose proof Hinv as [I1 I2 I3 I4 I5 I6 I7 I8]. pose proof (I7 _ _ Hp).
    eapply sl_inv_move; [eassumption|eassumption|..]; simpl in *; intuition (lia || congruence).
Qed.

Lemma sl_reachable_inv n x : reachable n x → inv x.
Proof.
  induction 1 as [|x x' _ IH Hstep]; [|by eapply sl_inv_step].
  assert (∀ g, g Out = 0 → psum g (replicate n Out) = 0) as Hz.
  { intros g Hg. induction n as [|n IH]; simpl; lia. }
  constructor; simpl; rewrite ?Hz by done; try lia;
    intros i p [-> _]%lookup_replicate; simpl; intuition (lia || congruence).
Qed.

(** at most one process owns a sleep lock, however many acquire and
    release it concurrently; [holdingsleep] is true for that process exactly. *)
Theorem sleeplock_exclusion n s l i p :
  reachable n (s, l) → l !! i = Some p →
  (holdingsleep i s = true ↔ owns p = 1) ∧
  (∀ j q, j ≠ i → l !! j = Some q → owns p = 1 → owns q = 0).
Proof.
  intros Hinv%sl_reachable_inv Hp. pose proof Hinv as [I1 I2 I3 I4 I5 I6 I7 I8]; simpl in *.
  pose proof (I7 i p Hp) as Hpid.
  pose proof (psum_elem owns l i p ltac:(nonneg) Hp).
  split.
  - unfold holdingsleep. rewrite andb_true_iff, negb_true_iff, bool_decide_eq_true, Z.eqb_neq.
    intuition lia.
  - intros j q Hj Hq Hop. pose proof (psum_elem2 owns l j i q p ltac:(nonneg) Hj Hq Hp).
    pose proof (pc_nonneg owns l ltac:(right; right; left) j q Hq). lia.
Qed.

(** C33: no wakeup is lost: while a process sleeps on the lock, some process
    owns the lock, or is in [releasesleep] with the wakeup still to come. *)
Theorem sleeplock_no_lost_wakeup n s l i :
  reachable n (s, l) → l !! i = Some Asleep →
  ∃ j q, l !! j = Some q ∧ (owns q = 1 ∨ waking q = 1).
Proof.
  intros Hinv%sl_reachable_inv Hp. pose proof Hinv as [I1 I2 I3 I4 I5 I6 I7 I8]; simpl in *.
  destruct (I8 i _ Hp) as [Hl|Hw].
  - destruct (psum_pos owns l) as (j & q & Hq & Ho); [lia|].
    exists j, q. split; [done|left]. by destruct q.
  - destruct (psum_pos waking l) as (j & q & Hq & Ho); [lia|].
    exists j, q. split; [done|right]. by destruct q.
Qed.

(** Process [k] can take a step of its own. *)
Definition enabled (k : nat) (s : slock) (l : list pc) : Prop :=
  ∃ p x', l !! k = Some p ∧ p ≠ Out ∧ step (s, l) x' ∧ x'.2 !! k ≠ Some p.

Lemma enabled_exec k p p' s s' l :
  l !! k = Some p → p ≠ Out → exec k p s = Some (p', s') → p' ≠ p → enabled k s l.
Proof.
  intros Hp Ho Hx Hne. exists p, (s', <[k:=p']> l).
  split_and!; [done|done|by econstructor|simpl].
  rewrite list_lookup_insert_eq by eauto using lookup_lt_Some. congruence.
Qed.

Lemma enabled_wake k s l : l !! k = Some R_wake → enabled k s l.
Proof.
  intros Hp. eexists _, _. split_and!; [done|done|by apply step_wake|simpl].
  intros [_ H]%wakeup1_lookup.
  rewrite list_lookup_insert_eq in H by eauto using lookup_lt_Some. naive_solver.
Qed.

Lemma enabled_leave k s l : l !! k = Some In → enabled k s l.
Proof.
  intros Hp. eexists _, _. split_and!; [done|done|by apply step_leave|simpl].
  rewrite list_lookup_insert_eq by eauto using lookup_lt_Some. congruence.
Qed.

Lemma enabled_pc k p s l :
  l !! k = Some p → p ≠ Out → p ≠ Asleep →
  (has_ptl p = 1 ∨ ptl s = 0 ∧ (has_lk p = 1 ∨ lk s = 0)) → enabled k s l.
Proof.
  intros Hp Ho Ha Hf. destruct p; try done;
    try (by apply enabled_wake); try (by apply enabled_leave);
    (eapply enabled_exec; [eassumption|done|unfold exec; simpl in *|]);
    try (rewrite if_free_0 by (intuition lia)); try reflexivity; try done;
    by destruct (locked s =? 0).
Qed.

(** the locks cannot deadlock: as long as some process is inside
    [acquiresleep], [releasesleep] or the critical section, one can move. *)
Theorem sleeplock_deadlock_free n s l i p :
  reachable n (s, l) → l !! i = Some p → p ≠ Out → ∃ k, enabled k s l.
Proof.
  intros Hinv%sl_reachable_inv Hp Ho. pose proof Hinv as [I1 I2 I3 I4 I5 I6 I7 I8]; simpl in *.
  destruct (decide (0 < ptl s)) as [Hpt|Hpt].
  { destruct (psum_pos has_ptl l) as (k & q & Hq & Hh); [lia|]. exists k.
    apply (enabled_pc k q); [done|by destruct q..|left; by destruct q]. }
  destruct (decide (0 < lk s)) as [Hlk|Hlk].
  { destruct (psum_pos has_lk l) as (k & q & Hq & Hh); [lia|]. exists k.
    apply (enabled_pc k q); [done|by destruct q..|right].
    split; [lia|left; by destruct q]. }
  assert (∀ k q, l !! k = Some q → q ≠ Out → q ≠ Asleep → enabled k s l) as Hen.
  { intros k q Hq ??. apply (enabled_pc k q); [done..|right; lia]. }
  destruct (decide (p = Asleep)) as [->|Hna]; [|eauto].
  destruct (I8 i _ Hp) as [Hl|Hw].
  - destruct (psum_pos owns l) as (k & q & Hq & Hh); [lia|]. exists k.
    by apply (Hen k q); [|destruct q..].
  - destruct (psum_pos waking l) as (k & q & Hq & Hh); [lia|]. exists k.
    by apply (Hen k q); [|destruct q..].
Qed.

(** An executable scheduler of the step relation, for concrete runs. *)
Definition next (i : nat) (x : slock * list pc) : option (slock * list pc) :=
  match x.2 !! i with
  | Some Out => Some (x.1, <[i:=A_lk]> x.2)
  | Some In => Some (x.1, <[i:=R_lk]> x.2)
  | Some R_wake => Some (x.1 <| ptl := 0 |>, wakeup1 (<[i:=R_rel]> x.2))
  | Some p => match exec i p x.1 with Some (p', s') => Some (s', <[i:=p']> x.2) | None => None end
  | None => None
  end.

Lemma next_step i x x' : next i x = Some x' → step x x'.
Proof.
  destruct x as [s l]. unfold next; simpl. destruct (l !! i) as [p|] eqn:Hp; [|done].
  intros Hn. destruct p;
    try (by injection Hn as <-; constructor);
    (destruct (exec i _ s) as [[p' s']|] eqn:Hx; [|discriminate Hn];
     injection Hn as <-; by econstructor).
Qed.

Lemma run_reachable n sched x x' :
  reachable n x → foldl (λ o i, o ≫= next i) (Some x) sched = Some x' → reachable n x'.
Proof.
  revert x. induction sched as [|i sched IH]; intros x Hx; simpl; [by intros [= <-]|].
  destruct (next i x) as [y|] eqn:Hn; simpl.
  - apply IH. by eapply reach_step, next_step.
  - clear. by induction sched.
Qed.

(** Process 0 owns the lock, process 1 sleeps on it. *)
Definition demo : slock * list pc := (mksl 0 0 1 (Some 0%nat), [In; Asleep]).

Lemma demo_reachable : reachable 2 demo.
Proof.
  apply (run_reachable 2 (replicate 5 0%nat ++ replicate 6 1%nat)
    (initsleeplock, [Out; Out])); [apply (reach_init 2)|]. by vm_compute.
Qed.

Lemma sleeplock_exclusion_witness :
  (holdingsleep 0 demo.1 = true ↔ owns In = 1) ∧
  (∀ j q, j ≠ 0%nat → demo.2 !! j = Some q → owns In = 1 → owns q = 0).
Proof. apply (sleeplock_exclusion 2 demo.1 demo.2 0 In); [apply demo_reachable|done]. Defined.

Lemma sleeplock_no_lost_wakeup_witness :
  ∃ j q, demo.2 !! j = Some q ∧ (owns q = 1 ∨ waking q = 1).
Proof. apply (sleeplock_no_lost_wakeup 2 demo.1 demo.2 1); [apply demo_reachable|done]. Defined.

Lemma sleeplock_deadlock_free_witness : ∃ k, enabled k demo.1 demo.2.
Proof. by apply (sleeplock_deadlock_free 2 demo.1 demo.2 1 Asleep); [apply demo_reachable|..]. Defined.
