(* ===== verification/CString.v ===== *)
(** Byte memory and the routines of string.c on it.

    Memory maps addresses to bytes.  A [char] is held as its unsigned value;
    the code only compares characters for equality or casts them to [uchar].
    An object does not wrap around the end of the address space. *)

From S2P Require Import Prelude.

Definition mem : Type := Z → Z.

(** ** 32-bit words, little-endian *)

Definition load32 (m : mem) (a : Z) : Z :=
  m a + 256 * m (a + 1) + 65536 * m (a + 2) + 16777216 * m (a + 3).

Definition store32 (m : mem) (a w : Z) : mem :=
  upd (upd (upd (upd m a (u8 w)) (a + 1) (u8 (Z.shiftr w 8)))
    (a + 2) (u8 (Z.shiftr w 16))) (a + 3) (u8 (Z.shiftr w 24)).

(** ** x86.h: the string instructions, [cnt] elements upwards from [addr] *)

Fixpoint stosb (addr data : Z) (cnt : nat) (m : mem) : mem :=
  match cnt with O => m | S cnt => stosb (addr + 1) data cnt (upd m addr (u8 data)) end.

Fixpoint stosl (addr data : Z) (cnt : nat) (m : mem) : mem :=
  match cnt with O => m | S cnt => stosl (addr + 4) data cnt (store32 m addr data) end.

(** ** string.c *)

Definition memset (dst c n : Z) (m : mem) : mem :=
  if (Z.rem (s32 dst) 4 =? 0) && (n mod 4 =? 0) then
    let c := Z.land c 255 in
    stosl dst (Z.lor (Z.lor (Z.lor (Z.shiftl c 24) (Z.shiftl c 16)) (Z.shiftl c 8)) c)
      (Z.to_nat (n / 4)) m
  else stosb dst c (Z.to_nat n) m.

Fixpoint memcmp (s1 s2 : Z) (n : nat) (m : mem) : Z :=
  match n with
  | O => 0
  | S n => if negb (m s1 =? m s2) then m s1 - m s2 else memcmp (s1 + 1) (s2 + 1) n m
  end.

(** The two copying loops of [memmove]. *)
Fixpoint move_down (d s : Z) (n : nat) (m : mem) : mem :=
  match n with O => m | S n => move_down (d - 1) (s - 1) n (upd m (d - 1) (m (s - 1))) end.

Fixpoint move_up (d s : Z) (n : nat) (m : mem) : mem :=
  match n with O => m | S n => move_up (d + 1) (s + 1) n (upd m d (m s)) end.

Definition memmove (dst src : Z) (n : nat) (m : mem) : mem :=
  if (src <? dst) && (dst <? src + Z.of_nat n)
  then move_down (dst + Z.of_nat n) (src + Z.of_nat n) n m
  else move_up dst src n m.

Definition memcpy (dst src : Z) (n : nat) (m : mem) : mem := memmove dst src n m.

Fixpoint strncmp (p q : Z) (n : nat) (m : mem) : Z :=
  match n with
  | O => 0
  | S n => if negb (m p =? 0) && (m p =? m q) then strncmp (p + 1) (q + 1) n m else m p - m q
  end.

(** The loop [while(n-- > 0) *s++ = 0]. *)
Fixpoint pad0 (s : Z) (n : nat) (m : mem) : mem :=
  match n with O => m | S n => pad0 (s + 1) n (upd m s 0) end.

Fixpoint strncpy_loop (s t : Z) (n : nat) (m : mem) : mem :=
  match n with
  | O => m
  | S n =>
      let m := upd m s (m t) in
      if m s =? 0 then pad0 (s + 1) n m else strncpy_loop (s + 1) (t + 1) n m
  end.

Definition strncpy (s t n : Z) (m : mem) : mem := strncpy_loop s t (Z.to_nat n) m.

(** The loop [while(--n > 0 && ...)], entered with [n] already decremented, and
    the final terminator. *)
Fixpoint safestrcpy_loop (s t : Z) (n : nat) (m : mem) : mem :=
  match n with
  | O => upd m s 0
  | S n =>
      let m := upd m s (m t) in
      if m s =? 0 then upd m (s + 1) 0 else safestrcpy_loop (s + 1) (t + 1) n m
  end.

Definition safestrcpy (s t n : Z) (m : mem) : mem :=
  if n <=? 0 then m else safestrcpy_loop s t (Z.to_nat (n - 1)) m.

(** [fuel] bounds the search for the terminator. *)
Fixpoint strlen (fuel : nat) (s n : Z) (m : mem) : option Z :=
  match fuel with
  | O => None
  | S fuel => if m (s + n) =? 0 then Some n else strlen fuel s (n + 1) m
  end.

(** ** What the routines do *)

Definition in_range (d n a : Z) : bool := (d <=? a) && (a <? d + n).

(** Split on a comparison of addresses. *)
Ltac addr_cases :=
  unfold in_range, upd in *;
  repeat match goal with
  | |- context [decide (?a = ?b)] => destruct (decide (a = b)); subst
  | |- context [?a <=? ?b] => destruct (Z.leb_spec a b)
  | |- context [?a <? ?b] => destruct (Z.ltb_spec a b)
  end; simpl; try lia; try congruence.

Lemma u8_range x : 0 ≤ u8 x < 256.
Proof. by apply Z.mod_pos_bound. Qed.

Lemma word_bytes w : 0 ≤ w < two32 →
  u8 w + 256 * u8 (Z.shiftr w 8) + 65536 * u8 (Z.shiftr w 16) + 16777216 * u8 (Z.shiftr w 24) = w.
Proof.
  intros Hw. unfold two32, u8 in *. rewrite !Z.shiftr_div_pow2 by lia.
  change (2 ^ 8) with 256. change (2 ^ 16) with 65536. change (2 ^ 24) with 16777216.
  pose proof (Z.div_mod w 256). pose proof (Z.div_mod (w / 256) 256).
  pose proof (Z.div_mod (w / 65536) 256).
  replace (w / 256 / 256) with (w / 65536) in * by (by rewrite Z.div_div).
  replace (w / 65536 / 256) with (w / 16777216) in * by (by rewrite Z.div_div).
  assert (w / 16777216 < 256) by (apply Z.div_lt_upper_bound; lia).
  assert (0 ≤ w / 16777216) by (apply Z.div_pos; lia).
  rewrite (Z.mod_small (w / 16777216)) by lia. lia.
Qed.

Lemma load32_store32 m a w : 0 ≤ w < two32 → load32 (store32 m a w) a = w.
Proof.
  intros Hw. unfold load32, store32.
  etrans; [|by apply (word_bytes w)]. by addr_cases.
Qed.

Lemma store32_other m a w b : ¬ (a ≤ b < a + 4) → store32 m a w b = m b.
Proof. intros. unfold store32. addr_cases. Qed.

Lemma load32_ext m m' a : (∀ i, 0 ≤ i < 4 → m' (a + i) = m (a + i)) → load32 m' a = load32 m a.
Proof.
  intros H. unfold load32. rewrite !H by lia.
  specialize (H 0). rewrite !Z.add_0_r in H. by rewrite H by lia.
Qed.

Lemma load32_apart m a w b : b + 4 ≤ a ∨ a + 4 ≤ b → load32 (store32 m a w) b = load32 m b.
Proof. intros H. apply load32_ext. intros i Hi. apply store32_other. lia. Qed.

Lemma stosb_spec c n : ∀ d m a,
  stosb d c n m a = if in_range d (Z.of_nat n) a then u8 c else m a.
Proof.
  induction n as [|n IH]; intros d m a; simpl.
  - addr_cases.
  - rewrite IH. addr_cases.
Qed.

(** The four bytes of the word that [memset] stores. *)
Lemma fill_bytes c :
  0 ≤ c < 256 →
  let w := Z.lor (Z.lor (Z.lor (Z.shiftl c 24) (Z.shiftl c 16)) (Z.shiftl c 8)) c in
  ∀ k, k ∈ [0; 8; 16; 24] → u8 (Z.shiftr w k) = c.
Proof.
  intros Hc w k Hk.
  assert (∀ n, 8 ≤ n → Z.testbit c n = false) as Hhi.
  { intros n Hn. apply Z.bits_above_log2; [lia|].
    destruct (decide (c = 0)) as [->|]; [simpl; lia|].
    apply Z.log2_lt_pow2; [lia|]. pose proof (Z.pow_le_mono_r 2 8 n). lia. }
  unfold u8. change 256 with (2 ^ 8). apply Z.bits_inj'. intros n Hn.
  destruct (decide (n < 8)).
  - rewrite Z.mod_pow2_bits_low by lia. rewrite Z.shiftr_spec by lia. unfold w.
    rewrite !Z.lor_spec, !Z.shiftl_spec by (set_unfold in Hk; lia).
    set_unfold in Hk. destruct_or? Hk; subst;
    repeat match goal with
    | |- context [Z.testbit c ?e] =>
        lazymatch e with
        | n => fail
        | _ => first [replace e with n by lia
                     |rewrite (Hhi e) by lia | rewrite (Z.testbit_neg_r c e) by lia]
        end
    end; by destruct (Z.testbit c n).
  - rewrite Z.mod_pow2_bits_high by lia. by rewrite Hhi by lia.
Qed.

Lemma stosl_spec c n : ∀ d m a,
  0 ≤ c < 256 →
  stosl d (Z.lor (Z.lor (Z.lor (Z.shiftl c 24) (Z.shiftl c 16)) (Z.shiftl c 8)) c) n m a =
    if in_range d (4 * Z.of_nat n) a then c else m a.
Proof.
  induction n as [|n IH]; intros d m a Hc; cbn [stosl].
  - addr_cases.
  - rewrite IH by done. unfold store32.
    pose proof (fill_bytes c Hc) as Hb; cbv zeta in Hb.
    rewrite !Hb by set_solver. specialize (Hb 0). rewrite Z.shiftr_0_r in Hb.
    rewrite Hb by set_solver. addr_cases.
Qed.

(** [memset] fills exactly the [n] bytes at [dst], on both of its paths. *)
Lemma memset_spec dst c n m a :
  0 ≤ n → memset dst c n m a = if in_range dst n a then u8 c else m a.
Proof.
  intros Hn. unfold memset. case_if.
  - change 255 with (Z.ones 8). rewrite Z.land_ones by lia.
    rewrite stosl_spec by apply u8_range. rewrite Z2Nat.id by (apply Z.div_pos; lia).
    replace (4 * (n / 4)) with n; [done|].
    pose proof (Z.div_mod n 4). lia.
  - rewrite stosb_spec. by rewrite Z2Nat.id.
Qed.

Lemma move_up_spec n : ∀ d s m a,
  (d ≤ s ∨ s + Z.of_nat n ≤ d) →
  move_up d s n m a = if in_range d (Z.of_nat n) a then m (a - d + s) else m a.
Proof.
  induction n as [|n IH]; intros d s m a Hov; cbn [move_up].
  - addr_cases.
  - rewrite IH by lia. addr_cases; f_equal; lia.
Qed.

Lemma move_down_spec n : ∀ d s m a,
  (s ≤ d ∨ d ≤ s - Z.of_nat n) →
  move_down d s n m a =
    if in_range (d - Z.of_nat n) (Z.of_nat n) a then m (a - d + s) else m a.
Proof.
  induction n as [|n IH]; intros d s m a Hov; cbn [move_down].
  - addr_cases.
  - rewrite IH by lia. addr_cases; f_equal; lia.
Qed.

(** [memmove] copies the [n] bytes that were at [src] to [dst] and changes
    nothing else, also when the two ranges overlap in either direction. *)
Theorem memmove_spec (dst src : Z) (n : nat) (m : mem) (a : Z) :
  memmove dst src n m a =
    if in_range dst (Z.of_nat n) a then m (a - dst + src) else m a.
Proof.
  unfold memmove. destruct ((src <? dst) && (dst <? src + Z.of_nat n)) eqn:E; bsimpl.
  - rewrite move_down_spec by lia.
    replace (dst + Z.of_nat n - Z.of_nat n) with dst by lia.
    by replace (a - (dst + Z.of_nat n) + (src + Z.of_nat n)) with (a - dst + src) by lia.
  - apply move_up_spec. apply andb_false_iff in E as [E|E]; bsimpl; lia.
Qed.

(** The bytes of the C string at [p], cut off after [n]. *)
Fixpoint cstr (m : mem) (p : Z) (n : nat) : list Z :=
  match n with
  | O => []
  | S n => if m p =? 0 then [] else m p :: cstr m (p + 1) n
  end.

(** [strncmp] is 0 exactly when the two strings agree up to [n] characters. *)
Lemma strncmp_eq (m : mem) (n : nat) (p q : Z) :
  strncmp p q n m = 0 ↔ cstr m p n = cstr m q n.
Proof.
  revert p q. induction n as [|n IH]; intros p q; simpl; [done|].
  destruct (Z.eqb_spec (m p) 0) as [Hp|Hp], (Z.eqb_spec (m q) 0) as [Hq|Hq]; simpl;
    [split; [done|lia] | split; [lia|done] | |].
  - rewrite (proj2 (Z.eqb_neq (m p) (m q))) by lia. split; [lia|done].
  - destruct (Z.eqb_spec (m p) (m q)) as [He|He].
    + rewrite IH, He. split; [by intros ->|by intros [=]].
    + split; [lia|]. intros [=]. congruence.
Qed.

Lemma cstr_ext m m' p n :
  (∀ i, 0 ≤ i < Z.of_nat n → m' (p + i) = m (p + i)) → cstr m' p n = cstr m p n.
Proof.
  revert p. induction n as [|n IH]; intros p H; simpl; [done|].
  pose proof (H 0 ltac:(lia)) as H0. rewrite Z.add_0_r in H0. rewrite H0.
  case_if; [done|]. f_equal. apply IH. intros i Hi.
  replace (p + 1 + i) with (p + (i + 1)) by lia. apply H. lia.
Qed.

Lemma safestrcpy_loop_outside n : ∀ s t m a,
  in_range s (Z.of_nat n + 1) a = false → safestrcpy_loop s t n m a = m a.
Proof.
  induction n as [|n IH]; intros s t m a Ha; simpl.
  - revert Ha. addr_cases.
  - case_if; revert Ha; [addr_cases|]. intros Ha. rewrite IH; revert Ha; addr_cases.
Qed.

Lemma safestrcpy_loop_cstr n : ∀ s t m,
  (s + Z.of_nat n + 1 ≤ t ∨ t + Z.of_nat n + 1 ≤ s) →
  cstr (safestrcpy_loop s t n m) s (S n) = cstr m t n.
Proof.
  induction n as [|n IH]; intros s t m Hd.
  - simpl. by rewrite upd_eq.
  - simpl safestrcpy_loop. rewrite upd_eq. case_if.
    + simpl. rewrite upd_ne, upd_eq, E by lia. done.
    + assert (safestrcpy_loop (s + 1) (t + 1) n (upd m s (m t)) s = m t) as Hs.
      { rewrite safestrcpy_loop_outside by addr_cases. apply upd_eq. }
      change (cstr ?x s (S (S n))) with
        (if x s =? 0 then [] else x s :: cstr x (s + 1) (S n)).
      cbv beta. rewrite Hs, IH by lia. simpl. rewrite (proj2 (Z.eqb_neq _ _)) by done.
      f_equal. apply cstr_ext. intros i Hi. addr_cases.
Qed.

(** [safestrcpy] leaves at [s] the first [n - 1] characters of [t] with a
    terminator inside the [n] bytes, and writes to no other byte. *)
Theorem safestrcpy_spec (s t n : Z) (m : mem) :
  0 < n → (s + n ≤ t ∨ t + n ≤ s) →
  cstr (safestrcpy s t n m) s (Z.to_nat n) = cstr m t (Z.to_nat (n - 1)) ∧
  (length (cstr m t (Z.to_nat (n - 1))) < Z.to_nat n)%nat ∧
  ∀ a, in_range s n a = false → safestrcpy s t n m a = m a.
Proof.
  intros Hn Hd. unfold safestrcpy. rewrite (proj2 (Z.leb_gt _ _)) by lia. split_and!.
  - replace (Z.to_nat n) with (S (Z.to_nat (n - 1))) by lia. apply safestrcpy_loop_cstr. lia.
  - assert (∀ p k, length (cstr m p k) ≤ k)%nat as Hlen.
    { intros p k; revert p. induction k as [|k IH]; intros p; simpl; [lia|].
      case_if; simpl; [lia|]. specialize (IH (p + 1)). lia. }
    specialize (Hlen t (Z.to_nat (n - 1))). lia.
  - intros a Ha. apply safestrcpy_loop_outside. revert Ha. addr_cases.
Qed.

Lemma pad0_spec n : ∀ s m a, pad0 s n m a = if in_range s (Z.of_nat n) a then 0 else m a.
Proof.
  induction n as [|n IH]; intros s m a; simpl; [addr_cases|]. rewrite IH. addr_cases.
Qed.

(** [strncpy] copies at most [n] characters and fills the rest with zeros;
    the copy has no terminator when the string has [n] characters or more. *)
Lemma strncpy_loop_spec n : ∀ s t m i,
  (s + Z.of_nat n ≤ t ∨ t + Z.of_nat n ≤ s) → 0 ≤ i < Z.of_nat n →
  strncpy_loop s t n m (s + i) =
    if i <? Z.of_nat (length (cstr m t n)) then m (t + i) else 0.
Proof.
  induction n as [|n IH]; intros s t m i Hd Hi; [lia|].
  simpl. rewrite upd_eq. case_if; simpl.
  - rewrite pad0_spec. addr_cases.
  - destruct (decide (i = 0)) as [->|Hne].
    + rewrite !Z.add_0_r.
      assert (∀ k p t' m', (s < p) → strncpy_loop p t' k m' s = m' s) as Hout.
      { induction k as [|k IHk]; intros p t' m' Hp; simpl; [done|].
        case_if; [rewrite pad0_spec; addr_cases|]. rewrite IHk by lia. addr_cases. }
      rewrite Hout by lia. rewrite upd_eq. addr_cases.
    + replace (s + i) with (s + 1 + (i - 1)) by lia. rewrite IH by lia.
      rewrite (cstr_ext m) by (intros j Hj; addr_cases).
      rewrite upd_ne by lia. replace (t + 1 + (i - 1)) with (t + i) by lia. addr_cases.
Qed.

Lemma shift1 s i : s + 1 + (i - 1) = s + i.
Proof. lia. Qed.

(** [memcmp] is 0 on equal ranges and otherwise the difference of the first
    two bytes that differ. *)
Lemma memcmp_spec n : ∀ s1 s2 m,
  (memcmp s1 s2 n m = 0 ∧ ∀ i, 0 ≤ i < Z.of_nat n → m (s1 + i) = m (s2 + i)) ∨
  (∃ k, 0 ≤ k < Z.of_nat n ∧ m (s1 + k) ≠ m (s2 + k) ∧
        memcmp s1 s2 n m = m (s1 + k) - m (s2 + k) ∧
        ∀ i, 0 ≤ i < k → m (s1 + i) = m (s2 + i)).
Proof.
  induction n as [|n IH]; intros s1 s2 m; simpl; [left; split; [done|lia]|].
  case_if.
  - right. exists 0. rewrite !Z.add_0_r. split_and!; [lia..|done|done|lia].
  - destruct (IH (s1 + 1) (s2 + 1) m) as [[-> H]|(k & Hk & Hne & -> & H)].
    + left. split; [done|]. intros i Hi. destruct (decide (i = 0)) as [->|].
      { by rewrite !Z.add_0_r. }
      specialize (H (i - 1) ltac:(lia)).
      by rewrite !shift1 in H.
    + right. exists (k + 1). rewrite <-!Z.add_assoc, (Z.add_comm 1) in Hne |- *.
      split_and!; [lia..|done|done|]. intros i Hi. destruct (decide (i = 0)) as [->|].
      { by rewrite !Z.add_0_r. }
      specialize (H (i - 1) ltac:(lia)).
      by rewrite !shift1 in H.
Qed.

(** [strlen] finds the terminator. *)
Lemma strlen_spec s m k fuel n :
  0 ≤ n ≤ k → m (s + k) = 0 → (∀ i, n ≤ i < k → m (s + i) ≠ 0) →
  k - n < Z.of_nat fuel → strlen fuel s n m = Some k.
Proof.
  revert n. induction fuel as [|fuel IH]; intros n Hn Hk Hi Hf; [lia|]. simpl.
  destruct (Z.eqb_spec (m (s + n)) 0) as [H0|H0].
  - f_equal. destruct (decide (n = k)); [done|]. by specialize (Hi n ltac:(lia)).
  - apply IH; [|done| |lia].
    + destruct (decide (n = k)) as [->|]; [done|lia].
    + intros i Hr. apply Hi. lia.
Qed.

(** A memory that holds the given bytes from address 0. *)
Definition of_bytes (l : list Z) : mem := λ a, nth (Z.to_nat a) l 0.

Lemma safestrcpy_spec_witness :
  cstr (safestrcpy 8 0 4 (of_bytes [104; 101; 108; 108; 111; 0])) 8 4 = [104; 101; 108].
Proof.
  destruct (safestrcpy_spec 8 0 4 (of_bytes [104; 101; 108; 108; 111; 0])) as [H _]; [lia|lia|].
  exact H.
Defined.
