(* ===== verification/Kalloc.v ===== *)
(** The physical page allocator (kalloc.c): the free list threaded through the
    free pages themselves, and its refinement to a list of distinct pages. *)

From S2P Require Import Prelude Layout CString.

(** Memory and the allocator's globals; [klocked] is [kmem.lock] held by this
    processor. *)
Record kmem := mkkmem { ram : mem; klocked : bool; use_lock : bool; freelist : Z }.

#[export] Instance kmem_eta : Eta kmem := λ s, mkkmem (ram s) (klocked s) (use_lock s) (freelist s).

Definition acquire_kmem : M kmem unit := λ s,
  if klocked s then Panic "acquire" else Ok tt (s <| klocked := true |>).

Definition release_kmem : M kmem unit := λ s,
  if klocked s then Ok tt (s <| klocked := false |>) else Panic "release".

Section Allocator.
(** [end]: the first address after the kernel, defined by the linker script. *)
Variable end_ : Z.

Definition kfree (v : Z) : M kmem unit :=
  if negb (v mod PGSIZE =? 0) || (v <? end_) || (PHYSTOP <=? V2P v) then panic "kfree" else
  _ ← modify (λ s, s <| ram := memset v 1 PGSIZE (ram s) |>);
  ul ← gets use_lock;
  _ ← when ul acquire_kmem;
  _ ← modify (λ s, s <| ram := store32 (ram s) v (freelist s) |>);
  _ ← modify (λ s, s <| freelist := v |>);
  ul ← gets use_lock;
  when ul release_kmem.

Definition kalloc : M kmem Z :=
  ul ← gets use_lock;
  _ ← when ul acquire_kmem;
  r ← gets freelist;
  _ ← when (negb (r =? 0)) (modify (λ s, s <| freelist := load32 (ram s) r |>));
  ul ← gets use_lock;
  _ ← when ul release_kmem;
  mret r.

(** [for(; p + PGSIZE <= vend; p += PGSIZE) kfree(p)], [n] rounds at most. *)
Fixpoint freerange_loop (n : nat) (p vend : Z) : M kmem unit :=
  match n with
  | O => if p + PGSIZE <=? vend then λ _, NoFuel else skip
  | S n => if p + PGSIZE <=? vend
           then _ ← kfree p; freerange_loop n (p + PGSIZE) vend
           else skip
  end.

(** There are fewer than [2^32 / PGSIZE] pages. *)
Definition NPAGES : nat := Z.to_nat 1048576.

Definition freerange (vstart vend : Z) : M kmem unit :=
  freerange_loop NPAGES (PGROUNDUP vstart) vend.

Definition kinit1 (vstart vend : Z) : M kmem unit :=
  _ ← modify (λ s, s <| klocked := false |> <| use_lock := false |>);
  freerange vstart vend.

Definition kinit2 (vstart vend : Z) : M kmem unit :=
  _ ← freerange vstart vend;
  modify (λ s, s <| use_lock := true |>).

(** ** Refinement to a list of pages *)

(** Pages that [kfree] accepts. *)
Definition page (v : Z) : Prop :=
  v mod PGSIZE = 0 ∧ end_ ≤ v ∧ KERNBASE ≤ v < KERNBASE + PHYSTOP.

(** The list of pages linked from [a]. *)
Fixpoint chain (m : mem) (a : Z) (l : list Z) : Prop :=
  match l with [] => a = 0 | p :: l => a = p ∧ chain m (load32 m p) l end.

Record alloc_ok (s : kmem) (l : list Z) : Prop := {
  ok_chain : chain (ram s) (freelist s) l;
  ok_nodup : NoDup l;
  ok_pages : Forall page l;
  ok_lock : klocked s = false
}.

(** [a] lies in the page [v]. *)
Definition in_page (v a : Z) : Prop := v ≤ a < v + PGSIZE.

Lemma page_disjoint v w a : page v → page w → in_page v a → in_page w a → v = w.
Proof.
  unfold page, in_page, PGSIZE. intros [Hv _] [Hw _] Ha Hb.
  pose proof (Z.div_mod v 4096). pose proof (Z.div_mod w 4096). lia.
Qed.

Lemma chain_ext m m' a l :
  (∀ p i, p ∈ l → 0 ≤ i < 4 → m' (p + i) = m (p + i)) → chain m a l → chain m' a l.
Proof.
  revert a. induction l as [|p l IH]; intros a H; simpl; [done|].
  intros [-> Hc]. split; [done|]. rewrite (load32_ext m m').
  - apply IH; [|done]. intros q i Hq. apply H. by right.
  - intros i. apply H. left.
Qed.

(** Writing outside the free pages keeps the free list. *)
Lemma alloc_ok_ram s l m :
  alloc_ok s l → (∀ p a, p ∈ l → in_page p a → m a = ram s a) → alloc_ok (s <| ram := m |>) l.
Proof.
  intros [Hc Hn Hp Hl] Hm. constructor; [|done..]. simpl.
  eapply chain_ext; [|done]. intros p i Hpl Hi. apply (Hm p); [done|].
  unfold in_page, PGSIZE. lia.
Qed.

Lemma page_ne0 v : page v → v ≠ 0.
Proof. unfold page, KERNBASE. lia. Qed.

Lemma page_u32 v : page v → 0 ≤ v < two32.
Proof. unfold page, KERNBASE, PHYSTOP, two32. lia. Qed.

Lemma chain_u32 m a l : chain m a l → Forall page l → 0 ≤ a < two32.
Proof.
  destruct l as [|p l]; simpl; [by intros ->|]. intros [-> _] [Hp _]%Forall_cons.
  by apply page_u32.
Qed.

Lemma kfree_spec s l v :
  alloc_ok s l → page v → v ∉ l →
  returns (kfree v) s (λ _ s',
    alloc_ok s' (v :: l) ∧ use_lock s' = use_lock s ∧
    ∀ a, ¬ in_page v a → ram s' a = ram s a).
Proof.
  intros [Hc Hn Hp Hl] Hv Hnin. unfold kfree.
  pose proof Hv as (Hv1 & Hv2 & Hv3).
  assert (negb (v mod PGSIZE =? 0) || (v <? end_) || (PHYSTOP <=? V2P v) = false) as ->.
  { rewrite V2P_kern by (pose proof (page_u32 v Hv); lia).
    rewrite Hv1, (proj2 (Z.ltb_ge v end_)), (proj2 (Z.leb_gt _ _)) by lia. done. }
  assert (∀ a, ¬ in_page v a →
    store32 (memset v 1 PGSIZE (ram s)) v (freelist s) a = ram s a) as Hout.
  { intros a Ha. unfold in_page, PGSIZE in Ha. rewrite store32_other by lia.
    rewrite memset_spec by done. unfold PGSIZE. addr_cases. }
  assert (chain (store32 (memset v 1 PGSIZE (ram s)) v (freelist s)) v (v :: l)) as Hch.
  { split; [done|]. rewrite load32_store32 by (by eapply chain_u32).
    eapply chain_ext; [|done]. intros p i Hpl Hi. apply Hout. intros Hpa.
    assert (page p) as Hpp by (by eapply Forall_forall). apply Hnin.
    rewrite (page_disjoint v p (p + i)); [done..|]. unfold in_page, PGSIZE. lia. }
  unfold returns, mbind, M_bind, modify, gets, when, acquire_kmem, release_kmem, skip; simpl.
  destruct (use_lock s) eqn:Hu; simpl; rewrite ?Hl; simpl; rewrite ?Hu; simpl;
    (split; [constructor; [done|by constructor|by constructor|done]|done]).
Qed.

Lemma kalloc_spec s l :
  alloc_ok s l →
  returns kalloc s (λ r s',
    match l with
    | [] => r = 0 ∧ s' = s
    | p :: l' => r = p ∧ alloc_ok s' l' ∧ ram s' = ram s ∧ use_lock s' = use_lock s
    end).
Proof.
  intros [Hc Hn Hp Hl].
  unfold kalloc, returns, mbind, M_bind, modify, gets, when, acquire_kmem, release_kmem, skip; simpl.
  destruct s as [m k u f]; simpl in *; subst k.
  destruct l as [|p l]; simpl in Hc; [subst f|destruct Hc as [-> Hc]].
  - destruct u; simpl; done.
  - apply NoDup_cons in Hn as [_ Hn]. apply Forall_cons in Hp as [Hpp Hp].
    pose proof (page_ne0 _ Hpp) as Hp0%Z.eqb_neq.
    destruct u; simpl; rewrite Hp0; simpl; (split; [done|split; [by constructor|done]]).
Qed.

(** The pages [p], [p + PGSIZE], ... *)
Fixpoint pages_from (p : Z) (n : nat) : list Z :=
  match n with O => [] | S n => p :: pages_from (p + PGSIZE) n end.

Lemma pages_from_ge p n q : q ∈ pages_from p n → p ≤ q.
Proof.
  revert p. induction n as [|n IH]; intros p; simpl; [by intros ?%elem_of_nil|].
  intros [->|H%IH]%elem_of_cons; unfold PGSIZE in *; lia.
Qed.

(** [freerange] frees the pages that fit, in increasing order: the last one is
    at the head of the list. *)
Lemma freerange_loop_spec n : ∀ fuel p vend s l,
  (n ≤ fuel)%nat → alloc_ok s l → p mod PGSIZE = 0 → end_ ≤ p → KERNBASE ≤ p →
  p + Z.of_nat n * PGSIZE ≤ vend < p + (Z.of_nat n + 1) * PGSIZE →
  vend ≤ KERNBASE + PHYSTOP → (∀ q, q ∈ l → q < p) →
  returns (freerange_loop fuel p vend) s (λ _ s',
    alloc_ok s' (rev (pages_from p n) ++ l) ∧ use_lock s' = use_lock s).
Proof.
  induction n as [|n IH]; intros fuel p vend s l Hf Hok Hp Hend Hk Hv Hstop Hl.
  - unfold PGSIZE in Hv. destruct fuel; simpl;
      (destruct (Z.leb_spec (p + PGSIZE) vend) as [Hx|Hx]; [unfold PGSIZE in Hx; lia|]); done.
  - destruct fuel as [|fuel]; [lia|]. simpl.
    unfold PGSIZE in Hv. destruct (Z.leb_spec (p + PGSIZE) vend) as [Hx|Hx]; unfold PGSIZE in Hx; [|lia].
    mstep. eapply returns_mono.
    { apply (kfree_spec s l p); [done| |].
      - unfold page. split_and!; [done|done|done|lia].
      - intros Hin. specialize (Hl p Hin). lia. }
    intros [] s' (Hok' & Hu & _). eapply returns_mono.
    + apply (IH fuel (p + PGSIZE) vend s' (p :: l)); try (unfold PGSIZE in *; lia); try done.
      * unfold PGSIZE in *. rewrite <-Zplus_mod_idemp_r, Z_mod_same_full, Z.add_0_r. done.
      * intros q [->|Hq]%elem_of_cons; unfold PGSIZE; [lia|]. specialize (Hl q Hq). lia.
    + intros _ s'' [H1 H2]. rewrite <-app_assoc. simpl. split; [done|congruence].
Qed.

(** ** Histories of allocations

    A client that frees only pages it was given and writes only to those. *)
Inductive history (s0 : kmem) : kmem → list Z → Prop :=
| h_init : history s0 s0 []
| h_alloc s o r s' :
    history s0 s o → kalloc s = Ok r s' → r ≠ 0 → history s0 s' (r :: o)
| h_full s o s' : history s0 s o → kalloc s = Ok 0 s' → history s0 s' o
| h_free s o1 v o2 s' :
    history s0 s (o1 ++ (v :: o2)) → kfree v s = Ok tt s' → history s0 s' (o1 ++ o2)
| h_write s o m :
    history s0 s o → (∀ a, (∀ p, p ∈ o → ¬ in_page p a) → m a = ram s a) →
    history s0 (s <| ram := m |>) o.

Lemma history_ok s0 l0 s o :
  alloc_ok s0 l0 → history s0 s o → ∃ l, alloc_ok s l ∧ (l ++ o) ≡ₚ l0.
Proof.
  intros H0. induction 1 as [|s o r s' _ (l & Hok & Hl) Ha Hr|s o s' _ (l & Hok & Hl) Ha
    |s o1 v o2 s' _ (l & Hok & Hl) Hf|s o m _ (l & Hok & Hl) Hm].
  - exists l0. by rewrite app_nil_r.
  - pose proof (kalloc_spec s l Hok) as Hs. unfold returns in Hs. rewrite Ha in Hs.
    destruct l as [|p l]; [by destruct Hs|]. destruct Hs as (-> & Hok' & _).
    exists l. split; [done|]. rewrite <-Hl. by rewrite <-Permutation_middle.
  - pose proof (kalloc_spec s l Hok) as Hs. unfold returns in Hs. rewrite Ha in Hs.
    destruct l as [|p l]; [destruct Hs as [_ ->]; eauto|]. destruct Hs as (Hp & _).
    destruct Hok as [_ _ Hpg _]. apply Forall_cons in Hpg as [Hpg _].
    by apply page_ne0 in Hpg.
  - assert (NoDup (l ++ o1 ++ (v :: o2))) as Hnd by (rewrite Hl; apply H0).
    assert (Forall page (l ++ o1 ++ (v :: o2))) as Hpg by (rewrite Hl; apply H0).
    assert ((v ∉ l) ∧ page v) as [Hv Hpv].
    { apply NoDup_app in Hnd as (_ & Hd & _). rewrite Forall_forall in Hpg.
      split; [intros Hin; apply (Hd v Hin)|apply Hpg]; set_solver. }
    pose proof (kfree_spec s l v Hok Hpv Hv) as Hs. unfold returns in Hs. rewrite Hf in Hs.
    exists (v :: l). split; [apply Hs|]. rewrite <-Hl. simpl. by rewrite !app_assoc, Permutation_middle.
  - exists l. split; [|done]. apply alloc_ok_ram; [done|]. intros p a Hp Ha. apply Hm.
    intros q Hq Hqa.
    assert (NoDup (l ++ o)) as Hnd by (rewrite Hl; apply H0).
    assert (Forall page (l ++ o)) as Hpg by (rewrite Hl; apply H0).
    rewrite Forall_forall in Hpg. apply NoDup_app in Hnd as (_ & Hd & _). apply (Hd p Hp).
    by rewrite (page_disjoint p q a) by (done || (apply Hpg; set_solver)).
Qed.

(** C21: the allocator neither loses a page nor hands one out twice: whatever
    pages the client takes, writes to and gives back, the pages it holds and the
    free pages are together the pages there were, without duplicates; [kalloc]
    then returns a free page, or 0 when every page is in use, and [kfree] of
    a page the client holds returns. *)
Theorem kalloc_kfree_sound (s0 : kmem) (l0 : list Z) (s : kmem) (o : list Z) :
  alloc_ok s0 l0 → history s0 s o →
  NoDup o ∧
  returns kalloc s (λ r s',
    (r = 0 ∧ o ≡ₚ l0) ∨ (r ∈ l0 ∧ (r ∉ o) ∧ history s0 s' (r :: o) ∧ ram s' = ram s)) ∧
  ∀ v, v ∈ o → returns (kfree v) s (λ _ s', ∀ a, ¬ in_page v a → ram s' a = ram s a).
Proof.
  intros H0 Hh. destruct (history_ok _ _ _ _ H0 Hh) as (l & Hok & Hl).
  assert (NoDup (l ++ o)) as Hnd by (rewrite Hl; apply H0).
  assert (Forall page (l ++ o)) as Hpg by (rewrite Hl; apply H0).
  rewrite Forall_forall in Hpg. pose proof Hnd as (_ & Hd & Hno)%NoDup_app. split_and!; [done| |].
  - pose proof (kalloc_spec s l Hok) as (r & s' & Ha & Hr)%returns_ok.
    apply (ok_returns _ _ _ _ _ Ha). destruct l as [|p l].
    + destruct Hr as [-> _]. by left.
    + destruct Hr as (-> & _ & Hram & _). right. split_and!; [|apply Hd; left| |done].
      * rewrite <-Hl. set_solver.
      * eapply h_alloc; [done..|]. eapply page_ne0, Hpg. set_solver.
  - intros v Hv. eapply returns_mono; [apply (kfree_spec s l v)|].
    + done.
    + apply Hpg. set_solver.
    + intros Hin. by apply (Hd v Hin).
    + intros _ s' (_ & _ & H). exact H.
Qed.

Lemma elem_of_pages_from q p n :
  q ∈ pages_from p n ↔ ∃ k, 0 ≤ k < Z.of_nat n ∧ q = p + k * PGSIZE.
Proof.
  revert p. induction n as [|n IH]; intros p; simpl.
  - split; [by intros ?%elem_of_nil|]. intros (k & ? & _). lia.
  - rewrite elem_of_cons, IH. split.
    + intros [->|(k & ? & ->)]; [exists 0|exists (k + 1)]; lia.
    + intros (k & ? & ->). destruct (decide (k = 0)) as [->|]; [left; lia|].
      right. exists (k - 1). lia.
Qed.

(** [freerange] from a state whose free pages all lie below the range. *)
Lemma freerange_spec vstart vend s l :
  alloc_ok s l → end_ ≤ vstart → KERNBASE ≤ vstart ≤ vend → vend ≤ KERNBASE + PHYSTOP →
  (∀ q, q ∈ l → q < vstart) →
  returns (freerange vstart vend) s (λ _ s', ∃ l',
    alloc_ok s' l' ∧ use_lock s' = use_lock s ∧
    ∀ q, q ∈ l' ↔ q ∈ l ∨ (q mod PGSIZE = 0 ∧ vstart ≤ q ∧ q + PGSIZE ≤ vend)).
Proof.
  intros Hok Hend Hk Hv Hl. unfold freerange.
  destruct (PGROUNDUP_spec vstart) as [Hmod Hr];
    [unfold KERNBASE in *; lia|unfold PHYSTOP, KERNBASE, PGSIZE, two32 in *; lia|].
  set (p := PGROUNDUP vstart) in *.
  set (n := Z.to_nat ((vend - p) / PGSIZE)).
  destruct (decide (p ≤ vend)) as [Hpv|Hpv].
  - assert (Z.of_nat n = (vend - p) / PGSIZE) as Hn.
    { unfold n. rewrite Z2Nat.id; [done|]. apply Z.div_pos; unfold PGSIZE; lia. }
    pose proof (Z.div_mod (vend - p) PGSIZE ltac:(done)) as Hdm.
    pose proof (Z.mod_pos_bound (vend - p) PGSIZE ltac:(done)).
    eapply returns_mono; [apply (freerange_loop_spec n NPAGES p vend s l)|]; try done.
    + assert ((vend - p) / PGSIZE ≤ PHYSTOP / PGSIZE).
      { apply Z.div_le_mono; [done|lia]. }
      change (PHYSTOP / PGSIZE) with 57344 in *. unfold NPAGES. lia.
    + lia.
    + lia.
    + unfold PGSIZE in *; lia.
    + intros q Hq. specialize (Hl q Hq). lia.
    + intros _ s' [Hok' Hu]. eexists. split_and!; [done..|].
      intros q. rewrite elem_of_app, (list_elem_of_In (rev _)), <-in_rev, <-list_elem_of_In.
      rewrite elem_of_pages_from. split.
      * intros [(j & Hj & ->)|?]; [right|by left].
        rewrite Z_mod_plus_full. unfold PGSIZE in *; split_and!; [done|lia|lia].
      * intros [?|(Hq & ? & ?)]; [by right|left]. exists ((q - p) / PGSIZE).
        pose proof (Z.div_mod p PGSIZE ltac:(done)). pose proof (Z.div_mod q PGSIZE ltac:(done)).
        assert (q - p = (q / PGSIZE - p / PGSIZE) * PGSIZE) as Hqp by lia.
        rewrite Hqp, Z.div_mul by done. unfold PGSIZE in *. lia.
  - assert (∀ k, freerange_loop k p vend s = Ok tt s) as Hz.
    { intros [|k]; simpl; by rewrite (proj2 (Z.leb_gt _ _)) by (unfold PGSIZE; lia). }
    eapply ok_returns; [apply Hz|]. exists l. split_and!; [done..|].
    intros q. split; [by left|]. intros [?|(Hq & ? & ?)]; [done|].
    pose proof (Z.div_mod p PGSIZE ltac:(done)). pose proof (Z.div_mod q PGSIZE ltac:(done)).
    unfold PGSIZE in *. lia.
Qed.

(** The first phase frees the pages below 4 MB, all that the first page table maps. *)
Lemma kinit1_ok (s : kmem) : KERNBASE ≤ end_ ≤ P2V 4194304 → freelist s = 0 →
  returns (kinit1 end_ (P2V 4194304)) s (λ _ s', ∃ l, alloc_ok s' l ∧
    ∀ q, q ∈ l ↔ q mod PGSIZE = 0 ∧ end_ ≤ q ∧ q + PGSIZE ≤ P2V 4194304).
Proof.
  change (P2V 4194304) with 2151677952. intros Hend Hf. unfold kinit1. mstep. unfold modify at 1, returns at 1.
  set (s1 := _ <| use_lock := false |>).
  assert (alloc_ok s1 []) as H1 by (by constructor; [done|apply NoDup_nil|apply Forall_nil|done]).
  eapply returns_mono; [apply (freerange_spec end_ 2151677952 s1 [] H1)|]; [lia|lia|done|by intros q ?%elem_of_nil|].
  intros [] s2 (l2 & H2 & _ & Hl2). exists l2. split; [done|]. intros q. rewrite Hl2, elem_of_nil. tauto.
Qed.

(** After the two initialisation phases of main() the free list holds
    exactly the physical pages above the kernel, each once, and the lock is in
    use.  The allocator's globals start as zeros. *)
Theorem kinit_frees_all (s : kmem) :
  KERNBASE ≤ end_ ≤ P2V 4194304 → freelist s = 0 →
  returns (_ ← kinit1 end_ (P2V 4194304); kinit2 (P2V 4194304) (P2V PHYSTOP)) s (λ _ s',
    ∃ l, alloc_ok s' l ∧ (∀ p, p ∈ l ↔ page p) ∧ use_lock s' = true).
Proof.
  intros Hend Hf. mstep. eapply returns_mono; [by apply kinit1_ok|].
  change (P2V 4194304) with 2151677952 in *. change (P2V PHYSTOP) with (KERNBASE + PHYSTOP).
  intros [] s2 (l2 & H2 & Hl2). unfold kinit2. mstep.
  eapply returns_mono; [apply (freerange_spec 2151677952 (KERNBASE + PHYSTOP) s2 l2 H2)|];
    [lia|done|done| |].
  { intros q (_ & _ & Hq)%Hl2. unfold PGSIZE in Hq. lia. }
  intros [] s3 (l3 & [? ? ? ?] & _ & Hl3). exists l3. split_and!; [by constructor| |done].
  intros p. rewrite Hl3, Hl2. unfold page, PGSIZE, KERNBASE, PHYSTOP in *.
  pose proof (Z.div_mod p 4096 ltac:(done)). pose proof (Z.mod_pos_bound p 4096 ltac:(done)).
  intuition lia.
Qed.
End Allocator.

(** ** Concrete instances *)

Definition demo_p1 : Z := 2149580800.
Definition demo_p2 : Z := 2149584896.

(** Two free pages, the first linked to the second. *)
Definition demo_kmem : kmem :=
  mkkmem (store32 (store32 (λ _, 0) demo_p1 demo_p2) demo_p2 0) false true demo_p1.

Lemma demo_kmem_ok : alloc_ok KERNBASE demo_kmem [demo_p1; demo_p2].
Proof.
  constructor.
  - by vm_compute.
  - apply NoDup_cons; split; [|apply NoDup_singleton].
    intros [=]%list_elem_of_singleton.
  - repeat constructor; unfold page; by vm_compute.
  - done.
Qed.

Lemma kalloc_kfree_sound_witness : NoDup [demo_p1].
Proof.
  destruct (kalloc_kfree_sound KERNBASE demo_kmem [demo_p1; demo_p2]
    (demo_kmem <| freelist := demo_p2 |>) [demo_p1]) as [H _]; [apply demo_kmem_ok| |exact H].
  eapply h_alloc; [apply h_init|by vm_compute|done].
Defined.

Lemma kinit_frees_all_witness :
  returns (_ ← kinit1 KERNLINK KERNLINK (P2V 4194304); kinit2 KERNLINK (P2V 4194304) (P2V PHYSTOP))
    (mkkmem (λ _, 0) false false 0) (λ _ s',
    ∃ l, alloc_ok KERNLINK s' l ∧ (∀ p, p ∈ l ↔ page KERNLINK p) ∧ use_lock s' = true).
Proof. by apply kinit_frees_all. Defined.
