(* ===== verification/Pipe.v ===== *)
(** Pipes (pipe.c): the ring buffer with its wrapping 32-bit counters, and
    writers and readers that sleep and are woken on one pipe.

    The code between taking [p->lock] and the next [sleep] or return runs
    without interleaving (see [Spin]), so it is one step here. *)

From S2P Require Import Prelude.

Definition PIPESIZE : Z := 512.

Record pipe := mkpipe {
  data : Z → Z;
  nread : Z;
  nwrite : Z;
  readopen : bool;
  writeopen : bool
}.

#[export] Instance pipe_eta : Eta pipe :=
  λ p, mkpipe (data p) (nread p) (nwrite p) (readopen p) (writeopen p).

(** [p->data[p->nwrite++ % PIPESIZE] = b] and [p->data[p->nread++ % PIPESIZE]] *)
Definition put (b : Z) (p : pipe) : pipe :=
  p <| data := upd (data p) (nwrite p mod PIPESIZE) b |> <| nwrite := u32 (nwrite p + 1) |>.
Definition get (p : pipe) : Z := data p (nread p mod PIPESIZE).
Definition advance (p : pipe) : pipe := p <| nread := u32 (nread p + 1) |>.

(** [pipealloc]: the state of a fresh pipe; the page holds junk. *)
Definition pipe_init (junk : Z → Z) : pipe := mkpipe junk 0 0 true true.

(** How a stretch of [pipewrite] ends: all bytes written, returning [n]; the
    loop left with -1, or asleep on [&p->nwrite], with the bytes not written.
    In the first and last case the readers were woken before. *)
Inductive wres := Wdone | Wfail (rest : list Z) | Wsleep (rest : list Z).

Fixpoint pipewrite (killed : bool) (addr : list Z) (p : pipe) : wres * pipe :=
  match addr with
  | [] => (Wdone, p)
  | b :: rest =>
      if nwrite p =? u32 (nread p + PIPESIZE) then
        if negb (readopen p) || killed then (Wfail addr, p) else (Wsleep addr, p)
      else pipewrite killed rest (put b p)
  end.

Fixpoint piperead_copy (n : nat) (p : pipe) : list Z * pipe :=
  match n with
  | O => ([], p)
  | S n =>
      if nread p =? nwrite p then ([], p)
      else let '(l, p') := piperead_copy n (advance p) in (get p :: l, p')
  end.

(** A stretch of [piperead]: the bytes copied, whose number is the result and
    after which the writers are woken; -1; or asleep on [&p->nread]. *)
Inductive rres := Rdone (l : list Z) | Rfail | Rsleep.

Definition piperead (killed : bool) (n : Z) (p : pipe) : rres * pipe :=
  if (nread p =? nwrite p) && writeopen p then
    (if killed then Rfail else Rsleep, p)
  else let '(l, p') := piperead_copy (Z.to_nat n) p in (Rdone l, p').

Definition pipeclose (writable : bool) (p : pipe) : pipe :=
  if writable then p <| writeopen := false |> else p <| readopen := false |>.

(** ** Processes on one pipe *)

(** [WSleep] and [RSleep] are asleep in the call, [WReady] and [RReady] woken
    and about to retry. *)
Inductive proc_st :=
| Idle
| WSleep (rest : list Z) | WReady (rest : list Z)
| RSleep (n : Z) | RReady (n : Z).

Definition wake_writers (q : proc_st) : proc_st := match q with WSleep l => WReady l | q => q end.
Definition wake_readers (q : proc_st) : proc_st := match q with RSleep n => RReady n | q => q end.

(** The pipe, the processes, the bytes put into and taken out of the pipe so
    far, and whether a [pipewrite] has given up because its process was killed. *)
Record psys := mkps {
  pp : pipe; pst : list proc_st; written : list Z; taken : list Z; cut : bool
}.

(** The bytes of [addr] before [rest]. *)
Definition before (addr rest : list Z) : list Z := take (length addr - length rest) addr.

(** Process [i] runs [pipewrite] with [addr] left to write. *)
Definition do_write (i : nat) (killed : bool) (addr : list Z) (s : psys) : psys :=
  match pipewrite killed addr (pp s) with
  | (Wdone, p') =>
      mkps p' (wake_readers <$> <[i:=Idle]> (pst s)) (written s ++ addr) (taken s) (cut s)
  | (Wsleep rest, p') =>
      mkps p' (<[i:=WSleep rest]> (wake_readers <$> pst s))
        (written s ++ before addr rest) (taken s) (cut s)
  | (Wfail rest, p') =>
      mkps p' (<[i:=Idle]> (pst s)) (written s ++ before addr rest) (taken s)
        (cut s || readopen (pp s))
  end.

Definition do_read (i : nat) (killed : bool) (n : Z) (s : psys) : psys :=
  match piperead killed n (pp s) with
  | (Rdone l, p') => mkps p' (wake_writers <$> <[i:=Idle]> (pst s)) (written s) (taken s ++ l) (cut s)
  | (Rfail, p') => mkps p' (<[i:=Idle]> (pst s)) (written s) (taken s) (cut s)
  | (Rsleep, p') => mkps p' (<[i:=RSleep n]> (pst s)) (written s) (taken s) (cut s)
  end.

Definition do_close (writable : bool) (s : psys) : psys :=
  mkps (pipeclose writable (pp s))
    ((if writable then wake_readers else wake_writers) <$> pst s)
    (written s) (taken s) (cut s).

(** [kill] makes a sleeping process runnable. *)
Definition do_kill (i : nat) (s : psys) : psys :=
  mkps (pp s) (alter (λ q, wake_writers (wake_readers q)) i (pst s)) (written s) (taken s) (cut s).

Inductive step : psys → psys → Prop :=
| write_call s i k addr : pst s !! i = Some Idle → step s (do_write i k addr s)
| write_again s i k rest : pst s !! i = Some (WReady rest) → step s (do_write i k rest s)
| read_call s i k n : pst s !! i = Some Idle → step s (do_read i k n s)
| read_again s i k n : pst s !! i = Some (RReady n) → step s (do_read i k n s)
| close_step s w : step s (do_close w s)
| kill_step s i : step s (do_kill i s).

Inductive reachable (junk : Z → Z) (n : nat) : psys → Prop :=
| reach_init : reachable junk n (mkps (pipe_init junk) (replicate n Idle) [] [] false)
| reach_step s s' : reachable junk n s → step s s' → reachable junk n s'.

(** ** The buffer as a queue *)

Definition plen (p : pipe) : Z := u32 (nwrite p - nread p).

(** The bytes in the pipe, oldest first. *)
Definition contents (p : pipe) : list Z :=
  (λ k : nat, data p ((nread p + Z.of_nat k) mod PIPESIZE)) <$> seq 0 (Z.to_nat (plen p)).

Record pipe_wf (p : pipe) : Prop := {
  wf_nread : 0 ≤ nread p < two32;
  wf_nwrite : 0 ≤ nwrite p < two32;
  wf_len : plen p ≤ PIPESIZE
}.

(** The counters wrap at a multiple of the buffer size. *)
Lemma u32_PIPESIZE x : u32 x mod PIPESIZE = x mod PIPESIZE.
Proof.
  unfold u32, two32, PIPESIZE. change 4294967296 with (512 * 8388608).
  rewrite Z.rem_mul_r by lia. rewrite Z.mul_comm, Z_mod_plus_full. by apply Z.mod_mod.
Qed.

Lemma u32_sub_add x y : u32 (u32 (x + y) - x) = u32 y.
Proof. unfold u32. rewrite Zminus_mod_idemp_l. f_equal. lia. Qed.

Lemma plen_range p : 0 ≤ plen p < two32.
Proof. apply u32_range. Qed.

Lemma nwrite_plen p : pipe_wf p → nwrite p = u32 (nread p + plen p).
Proof.
  intros [Hr Hw _]. unfold plen, u32. rewrite Zplus_mod_idemp_r.
  replace (nread p + (nwrite p - nread p)) with (nwrite p) by lia.
  symmetry. by apply Z.mod_small.
Qed.

Lemma full_plen p : pipe_wf p → (nwrite p =? u32 (nread p + PIPESIZE)) = (plen p =? PIPESIZE).
Proof.
  intros Hwf. pose proof (plen_range p). destruct Hwf as [Hr Hw Hl].
  apply eq_iff_eq_true. rewrite !Z.eqb_eq. split; intros H0.
  - unfold plen. rewrite H0, u32_sub_add. by apply u32_small.
  - rewrite (nwrite_plen p) by done. by rewrite H0.
Qed.

Lemma empty_plen p : pipe_wf p → (nread p =? nwrite p) = (plen p =? 0).
Proof.
  intros Hwf. apply eq_iff_eq_true. rewrite !Z.eqb_eq. split; intros H0.
  - unfold plen. by rewrite H0, Z.sub_diag.
  - rewrite (nwrite_plen p), H0, Z.add_0_r by done. symmetry. apply u32_small, Hwf.
Qed.

Lemma plen_put b p : pipe_wf p → plen p < PIPESIZE → plen (put b p) = plen p + 1.
Proof.
  intros Hwf Hl. pose proof (plen_range p). unfold plen at 1, put; simpl.
  rewrite (nwrite_plen p) at 1 by done. unfold u32 at 2.
  rewrite <-(Zplus_mod_idemp_l (u32 _)). unfold u32 at 2. rewrite Z.mod_mod by done.
  rewrite Zplus_mod_idemp_l, <-Z.add_assoc. fold (u32 (nread p + (plen p + 1))).
  rewrite u32_sub_add. apply u32_small. unfold PIPESIZE, two32 in *. lia.
Qed.

Lemma plen_advance p : pipe_wf p → 0 < plen p → plen (advance p) = plen p - 1.
Proof.
  intros Hwf Hl. pose proof (plen_range p). unfold plen at 1, advance; simpl.
  unfold u32. rewrite Zminus_mod_idemp_r. fold (u32 (nwrite p - (nread p + 1))).
  replace (nwrite p - (nread p + 1)) with (nwrite p - nread p + (-1)) by lia.
  unfold u32. rewrite <-Zplus_mod_idemp_l. fold (u32 (nwrite p - nread p)). fold (plen p).
  apply Z.mod_small. unfold two32 in *. lia.
Qed.

Lemma put_wf b p : pipe_wf p → plen p < PIPESIZE → pipe_wf (put b p).
Proof.
  intros Hwf Hl. constructor; [apply Hwf|apply u32_range|]. rewrite plen_put by done. lia.
Qed.

Lemma advance_wf p : pipe_wf p → 0 < plen p → pipe_wf (advance p).
Proof.
  intros Hwf Hl. constructor; [apply u32_range|apply Hwf|].
  rewrite plen_advance by done. destruct Hwf. lia.
Qed.

(** Two positions less than a buffer apart use different slots. *)
Lemma slot_ne x i j : 0 ≤ i < j → j < i + PIPESIZE → (x + i) mod PIPESIZE ≠ (x + j) mod PIPESIZE.
Proof.
  unfold PIPESIZE. intros Hi Hj He.
  pose proof (Z.div_mod (x + i) 512). pose proof (Z.div_mod (x + j) 512). lia.
Qed.

Lemma contents_put b p :
  pipe_wf p → plen p < PIPESIZE → contents (put b p) = contents p ++ [b].
Proof.
  intros Hwf Hl. pose proof (plen_range p). unfold contents. rewrite plen_put by done.
  replace (Z.to_nat (plen p + 1)) with (S (Z.to_nat (plen p))) by lia.
  rewrite seq_S, fmap_app. simpl. rewrite (nwrite_plen p), u32_PIPESIZE by done. f_equal.
  - apply list_fmap_ext. intros i k Hk. apply lookup_seq in Hk as [-> Hk].
    apply upd_ne, slot_ne; lia.
  - rewrite Z2Nat.id by lia. by rewrite upd_eq.
Qed.

Lemma contents_get p : pipe_wf p → 0 < plen p → contents p = get p :: contents (advance p).
Proof.
  intros Hwf Hl. unfold contents. rewrite plen_advance by done.
  replace (Z.to_nat (plen p)) with (S (Z.to_nat (plen p - 1))) by lia. simpl.
  f_equal; [by rewrite Z.add_0_r|]. rewrite <-(fmap_S_seq 0), <-list_fmap_compose.
  apply list_fmap_ext. intros i k _. simpl. f_equal.
  rewrite <-(Zplus_mod_idemp_l (u32 _)), u32_PIPESIZE, Zplus_mod_idemp_l. f_equal. lia.
Qed.

Lemma before_nil addr : before addr [] = addr.
Proof. unfold before. rewrite Nat.sub_0_r. apply take_ge. lia. Qed.

Lemma before_self addr : before addr addr = [].
Proof. unfold before. by rewrite Nat.sub_diag. Qed.

Lemma before_cons b addr rest :
  (length rest ≤ length addr)%nat → before (b :: addr) rest = b :: before addr rest.
Proof. intros. unfold before; simpl. by rewrite Nat.sub_succ_l. Qed.

(** What a stretch of [pipewrite] appends. *)
Definition wrote (addr : list Z) (r : wres) : list Z :=
  match r with Wdone => addr | Wfail rest | Wsleep rest => before addr rest end.

Lemma pipewrite_spec killed addr : ∀ p r p',
  pipe_wf p → pipewrite killed addr p = (r, p') →
  pipe_wf p' ∧ contents p' = contents p ++ wrote addr r ∧
  readopen p' = readopen p ∧ writeopen p' = writeopen p ∧ nread p' = nread p ∧
  (r = Wdone ∨ plen p' = PIPESIZE ∧ ∃ rest, rest `suffix_of` addr ∧
     (r = Wfail rest ∧ (readopen p = false ∨ killed = true) ∨
      r = Wsleep rest ∧ readopen p = true ∧ killed = false)).
Proof.
  induction addr as [|b addr IH]; intros p r p' Hwf; simpl.
  { intros [= <- <-]. rewrite app_nil_r. by split_and!; auto. }
  rewrite full_plen by done. destruct (Z.eqb_spec (plen p) PIPESIZE) as [Hf|Hf].
  - destruct (negb (readopen p) || killed) eqn:E; intros [= <- <-];
      simpl; rewrite before_self, app_nil_r; split_and!; try done; right; (split; [done|]);
      eexists; (split; [done|]).
    + left. split; [done|]. destruct (readopen p); auto.
    + right. by destruct (readopen p), killed.
  - intros Hp. pose proof (wf_len p Hwf).
    destruct (IH (put b p) r p') as (Hwf' & Hc & Hro & Hwo & Hnr & Hr);
      [apply put_wf; [done|lia]|done|]. split_and!; try done.
    + rewrite Hc, contents_put, <-app_assoc by (done || lia). f_equal.
      destruct Hr as [->|(_ & rest & Hsuf%suffix_length & [[-> _]|[-> _]])]; simpl;
        [done|by rewrite before_cons..].
    + destruct Hr as [->|(Hl & rest & Hsuf & Hr)]; [by left|right]. split; [done|].
      exists rest. split; [by apply suffix_cons_r|done].
Qed.

Lemma piperead_copy_spec n : ∀ p l p',
  pipe_wf p → piperead_copy n p = (l, p') →
  pipe_wf p' ∧ contents p = l ++ contents p' ∧
  length l = (n `min` Z.to_nat (plen p))%nat ∧
  readopen p' = readopen p ∧ writeopen p' = writeopen p ∧ plen p' ≤ plen p.
Proof.
  induction n as [|n IH]; intros p l p' Hwf; cbn [piperead_copy]; [intros [= <- <-]; by split_and!|].
  rewrite empty_plen by done. pose proof (plen_range p).
  destruct (Z.eqb_spec (plen p) 0) as [He|He].
  - intros [= <- <-]. split_and!; try done. rewrite He. done.
  - destruct (piperead_copy n (advance p)) as [l1 p1] eqn:Hc. intros [= <- <-].
    destruct (IH (advance p) l1 p1) as (Hwf' & Hl & Hlen & ? & ? & ?);
      [apply advance_wf; [done|lia]|done|].
    rewrite plen_advance in * by (done || lia). split_and!; try done; [|cbn [length]; lia|lia].
    rewrite contents_get, Hl by (done || lia). done.
Qed.

(** ** The invariant *)

Record inv (s : psys) : Prop := {
  inv_wf : pipe_wf (pp s);
  inv_fifo : written s = taken s ++ contents (pp s);
  inv_writers : ∀ i rest, pst s !! i = Some (WSleep rest) →
    plen (pp s) = PIPESIZE ∧ readopen (pp s) = true;
  inv_readers : ∀ i n, pst s !! i = Some (RSleep n) →
    cut s = true ∨ readopen (pp s) = false ∨ (plen (pp s) = 0 ∧ writeopen (pp s) = true)
}.

Lemma wake_readers_lookup (l : list proc_st) (i : nat) q :
  (wake_readers <$> l) !! i = Some q →
  (∀ n, q ≠ RSleep n) ∧ (∀ rest, q = WSleep rest → l !! i = Some q).
Proof.
  rewrite list_lookup_fmap_Some. intros (q0 & -> & Hq).
  split; intros; destruct q0; simpl in *; congruence.
Qed.

Lemma wake_writers_lookup (l : list proc_st) (i : nat) q :
  (wake_writers <$> l) !! i = Some q →
  (∀ rest, q ≠ WSleep rest) ∧ (∀ n, q = RSleep n → l !! i = Some q).
Proof.
  rewrite list_lookup_fmap_Some. intros (q0 & -> & Hq).
  split; intros; destruct q0; simpl in *; congruence.
Qed.

Lemma insert_cases {A} (l : list A) i x k y :
  <[i:=x]> l !! k = Some y → (k = i ∧ y = x) ∨ l !! k = Some y.
Proof.
  destruct (decide (k = i)) as [->|Hne]; [|rewrite list_lookup_insert_ne by done; auto].
  destruct (decide (i < length l)%nat).
  - rewrite list_lookup_insert_eq by done. intros [= ->]. auto.
  - rewrite list_insert_ge by lia. auto.
Qed.

Lemma contents_length p : length (contents p) = Z.to_nat (plen p).
Proof. unfold contents. by rewrite length_fmap, length_seq. Qed.

(** A full pipe stays full under [pipewrite]. *)
Lemma pipewrite_full killed addr p r p' :
  pipe_wf p → pipewrite killed addr p = (r, p') → plen p = PIPESIZE → plen p' = PIPESIZE.
Proof.
  intros Hwf Hp Hl. destruct (pipewrite_spec _ _ _ _ _ Hwf Hp) as ([_ _ Hle] & Hc & _).
  pose proof (f_equal length Hc) as Hlen. rewrite length_app, !contents_length in Hlen.
  pose proof (plen_range p'). lia.
Qed.

Lemma do_write_inv i k addr s :
  inv s → pst s !! i = Some Idle ∨ pst s !! i = Some (WReady addr) → inv (do_write i k addr s).
Proof.
  intros [Hwf Hf Hw Hr] _. unfold do_write.
  destruct (pipewrite k addr (pp s)) as [r p'] eqn:Hp.
  destruct (pipewrite_spec _ _ _ _ _ Hwf Hp) as (Hwf' & Hc & Hro & Hwo & Hnr & Hres).
  assert (∀ j rest, pst s !! j = Some (WSleep rest) →
    plen p' = PIPESIZE ∧ readopen p' = true) as Hw'.
  { intros j rest [Hl Ho]%Hw. rewrite Hro. split; [by apply (pipewrite_full _ _ _ _ _ Hwf Hp)|done]. }
  destruct r as [|rest|rest]; simpl in Hc; constructor; simpl;
    try (by rewrite Hc, Hf, app_assoc); try done.
  - intros j r0 Hj. apply wake_readers_lookup in Hj as [_ Hj].
    destruct (insert_cases _ _ _ _ _ (Hj _ eq_refl)) as [[_ ?]|Hj']; [done|by eapply Hw'].
  - intros j n0 Hj. by destruct (proj1 (wake_readers_lookup _ _ _ Hj) n0).
  - intros j r0 [[_ ?]|Hj']%insert_cases; [done|by eapply Hw'].
  - intros j n0 [[_ ?]|Hj']%insert_cases; [done|]. rewrite Hro.
    destruct (readopen (pp s)); [left; apply orb_true_r|by right; left].
  - intros j r0 [[_ ?]|Hj']%insert_cases; [|apply wake_readers_lookup in Hj' as [_ Hj']; by eapply Hw', Hj'].
    destruct Hres as [?|(Hl & rest' & _ & [[? _]|(_ & Ho & _)])]; [done..|]. by rewrite Hro.
  - intros j n0 [[_ ?]|Hj']%insert_cases; [done|].
    apply wake_readers_lookup in Hj' as [Hj' _]. by destruct (Hj' n0).
Qed.

Lemma do_read_inv i k n s : inv s → inv (do_read i k n s).
Proof.
  intros [Hwf Hf Hw Hr]. unfold do_read, piperead. rewrite empty_plen by done.
  destruct ((plen (pp s) =? 0) && writeopen (pp s)) eqn:E; bsimpl.
  - destruct k; constructor; simpl; try done.
    + intros j r0 [[_ ?]|Hj]%insert_cases; [done|by eapply Hw].
    + intros j n0 [[_ ?]|Hj]%insert_cases; [done|by eapply Hr].
    + intros j r0 [[_ ?]|Hj]%insert_cases; [done|by eapply Hw].
    + intros j n0 [[_ ?]|Hj]%insert_cases; [auto|by eapply Hr].
  - destruct (piperead_copy (Z.to_nat n) (pp s)) as [l p'] eqn:Hc.
    destruct (piperead_copy_spec _ _ _ _ Hwf Hc) as (Hwf' & Hl & _ & Hro & Hwo & Hle).
    constructor; simpl; [done|by rewrite Hf, Hl, app_assoc| |].
    + intros j r0 Hj. by destruct (proj1 (wake_writers_lookup _ _ _ Hj) r0).
    + intros j n0 Hj. apply wake_writers_lookup in Hj as [_ Hj].
      destruct (insert_cases _ _ _ _ _ (Hj _ eq_refl)) as [[_ ?]|Hj']; [done|].
      rewrite Hro, Hwo. destruct (Hr _ _ Hj') as [?|[?|[He Hwo']]]; [auto..|].
      exfalso. by rewrite He, Hwo' in E.
Qed.

Lemma do_close_inv w s : inv s → inv (do_close w s).
Proof.
  intros [[? ? ?] Hf Hw Hr]. unfold do_close. destruct w; constructor; simpl; try done.
  - intros j r0 Hj. apply wake_readers_lookup in Hj as [_ Hj]. by eapply Hw, Hj.
  - intros j n0 Hj. by destruct (proj1 (wake_readers_lookup _ _ _ Hj) n0).
  - intros j r0 Hj. by destruct (proj1 (wake_writers_lookup _ _ _ Hj) r0).
  - auto.
Qed.

Lemma do_kill_inv i s : inv s → inv (do_kill i s).
Proof.
  intros [? Hf Hw Hr]. constructor; simpl; try done; intros j r0;
    (destruct (decide (j = i)) as [->|Hne];
     [rewrite list_lookup_alter_eq; destruct (pst s !! i) as [[]|]; simpl; intros [=]
     |rewrite list_lookup_alter_ne by done]).
  - apply Hw.
  - apply Hr.
Qed.

Lemma pipe_reachable_inv junk n s : reachable junk n s → inv s.
Proof.
  induction 1 as [|s s' _ IH Hstep].
  - constructor; simpl; [constructor; vm_compute; intuition congruence|done|..];
      intros i ? [? _]%lookup_replicate; done.
  - destruct Hstep; [apply do_write_inv|apply do_write_inv|apply do_read_inv|apply do_read_inv
      |apply do_close_inv|apply do_kill_inv]; auto.
Qed.

(** C38: a pipe is a first-in first-out queue of at most 512 bytes: under every
    interleaving of writers, readers, closes and kills, and across wrapping of the
    counters, the bytes read so far followed by those in the buffer are the
    bytes written so far. *)
Theorem pipe_fifo (junk : Z → Z) (n : nat) (s : psys) :
  reachable junk n s →
  written s = taken s ++ contents (pp s) ∧ (length (contents (pp s)) ≤ 512)%nat.
Proof.
  intros [Hwf Hf _ _]%pipe_reachable_inv. split; [done|].
  rewrite contents_length. destruct Hwf as [_ _ Hl]. unfold PIPESIZE in Hl. lia.
Qed.

(** No sleeper is forgotten: a process asleep in [pipewrite] faces a full
    pipe with its read end open, and one asleep in [piperead] an empty pipe with
    its write end open, unless the read end is closed or some [pipewrite] was
    abandoned because its process was killed. *)
Theorem pipe_sleepers (junk : Z → Z) (n : nat) (s : psys) (i : nat) :
  reachable junk n s →
  (∀ rest, pst s !! i = Some (WSleep rest) →
     plen (pp s) = PIPESIZE ∧ readopen (pp s) = true) ∧
  (∀ k, pst s !! i = Some (RSleep k) →
     cut s = true ∨ readopen (pp s) = false ∨ (contents (pp s) = [] ∧ writeopen (pp s) = true)).
Proof.
  intros [_ _ Hw Hr]%pipe_reachable_inv. split; [apply Hw|].
  intros k [?|[?|[Hl ?]]]%Hr; [auto..|]. do 2 right. split; [|done].
  apply nil_length_inv. rewrite contents_length, Hl. done.
Qed.

(** A reader sleeps on an empty pipe; a killed writer then fills it and leaves. *)
Definition demo_stranded : psys :=
  do_write 1 true (replicate 513 7) (do_read 0 false 1
    (mkps (pipe_init (λ _, 0)) [Idle; Idle] [] [] false)).

(** The exception is real: [pipewrite] gives up on a killed process
    without waking the readers of the bytes it has already written, and leaves
    a reader asleep on a full pipe that is open at both ends. *)
Theorem pipe_killed_writer_strands_reader :
  reachable (λ _, 0) 2 demo_stranded ∧
  pst demo_stranded = [RSleep 1; Idle] ∧ length (contents (pp demo_stranded)) = 512%nat ∧
  readopen (pp demo_stranded) = true ∧ writeopen (pp demo_stranded) = true.
Proof.
  split_and!; [|by vm_compute..].
  eapply reach_step; [eapply reach_step; [apply (reach_init (λ _, 0) 2)|]|].
  - by apply (read_call _ 0 false 1).
  - by apply (write_call _ 1 true (replicate 513 7)).
Qed.

Lemma demo_pipe_reachable : reachable (λ _, 0) 2 (do_write 1 false [1; 2; 3]
    (mkps (pipe_init (λ _, 0)) [Idle; Idle] [] [] false)).
Proof. eapply reach_step; [apply (reach_init (λ _, 0) 2)|by constructor]. Qed.

Lemma pipe_fifo_witness :
  let s := do_write 1 false [1; 2; 3] (mkps (pipe_init (λ _, 0)) [Idle; Idle] [] [] false) in
  written s = taken s ++ contents (pp s) ∧ (length (contents (pp s)) ≤ 512)%nat.
Proof. apply (pipe_fifo (λ _, 0) 2), demo_pipe_reachable. Defined.

Lemma pipe_sleepers_witness :
  let s := do_read 0 false 1 (mkps (pipe_init (λ _, 0)) [Idle; Idle] [] [] false) in
  pst s !! 0%nat = Some (RSleep 1) ∧
  (cut s = true ∨ readopen (pp s) = false ∨ (contents (pp s) = [] ∧ writeopen (pp s) = true)).
Proof.
  split; [done|]. eapply (pipe_sleepers (λ _, 0) 2 _ 0); [|done].
  eapply reach_step; [apply (reach_init (λ _, 0) 2)|by constructor].
Defined.
