(* ===== verification/Bytes.v ===== *)
(** Disk blocks as lists of bytes: the little-endian integers the code reads and
    writes through pointers into [b->data], and copies of byte ranges. *)

From S2P Require Import Prelude CString.

Abbreviation blk := (list Z).

Definition BSIZE : Z := 512.
Definition zeros : blk := replicate 512 0.

(** The byte at offset [off]. *)
Definition byte (d : blk) (off : nat) : Z := default 0 (d !! off).

Definition get16 (d : blk) (off : nat) : Z := byte d off + 256 * byte d (off + 1).
Definition put16 (d : blk) (off : nat) (w : Z) : blk :=
  <[(off + 1)%nat := u8 (Z.shiftr w 8)]> (<[off := u8 w]> d).

Definition get32 (d : blk) (off : nat) : Z :=
  byte d off + 256 * byte d (off + 1) + 65536 * byte d (off + 2) + 16777216 * byte d (off + 3).
Definition put32 (d : blk) (off : nat) (w : Z) : blk :=
  <[(off + 3)%nat := u8 (Z.shiftr w 24)]> (<[(off + 2)%nat := u8 (Z.shiftr w 16)]>
    (<[(off + 1)%nat := u8 (Z.shiftr w 8)]> (<[off := u8 w]> d))).

(** [memmove(d + off, l, length l)] into a buffer. *)
Definition splice (d : blk) (off : nat) (l : list Z) : blk :=
  take off d ++ l ++ drop (off + length l) d.

(** [memmove(dst, d + off, n)] out of a buffer. *)
Definition slice (d : blk) (off n : nat) : list Z := take n (drop off d).

Definition is_block (d : blk) : Prop := length d = 512%nat ∧ Forall (λ x, 0 ≤ x < 256) d.

(** ** Lemmas *)

Lemma byte_insert_eq d i x : (i < length d)%nat → byte (<[i:=x]> d) i = x.
Proof. intros. unfold byte. by rewrite list_lookup_insert_eq. Qed.

Lemma byte_insert_ne d i j x : i ≠ j → byte (<[i:=x]> d) j = byte d j.
Proof. intros. unfold byte. by rewrite list_lookup_insert_ne. Qed.

Ltac bytes :=
  repeat first
    [ rewrite byte_insert_eq by (rewrite ?length_insert; lia)
    | rewrite byte_insert_ne by lia ].

Lemma length_put32 d off w : length (put32 d off w) = length d.
Proof. unfold put32. by rewrite !length_insert. Qed.

Lemma length_put16 d off w : length (put16 d off w) = length d.
Proof. unfold put16. by rewrite !length_insert. Qed.

Lemma get32_put32_eq d off w :
  (off + 4 ≤ length d)%nat → 0 ≤ w < two32 → get32 (put32 d off w) off = w.
Proof.
  intros Hl Hw. unfold get32, put32. bytes. by apply word_bytes.
Qed.

Lemma get32_put32_ne d off off' w :
  (off + 4 ≤ off' ∨ off' + 4 ≤ off)%nat → get32 (put32 d off w) off' = get32 d off'.
Proof. intros H. unfold get32, put32. by bytes. Qed.

Lemma get16_put16_eq d off w :
  (off + 2 ≤ length d)%nat → 0 ≤ w < 65536 → get16 (put16 d off w) off = w.
Proof.
  intros Hl Hw. unfold get16, put16. bytes.
  unfold u8. rewrite Z.shiftr_div_pow2 by lia. change (2 ^ 8) with 256.
  pose proof (Z.div_mod w 256). rewrite (Z.mod_small (w / 256)); [lia|].
  split; [apply Z.div_pos; lia|]. apply Z.div_lt_upper_bound; lia.
Qed.

Lemma get16_put16_ne d off off' w :
  (off + 2 ≤ off' ∨ off' + 2 ≤ off)%nat → get16 (put16 d off w) off' = get16 d off'.
Proof. intros H. unfold get16, put16. by bytes. Qed.

Lemma get16_put32_ne d off off' w :
  (off + 4 ≤ off' ∨ off' + 2 ≤ off)%nat → get16 (put32 d off w) off' = get16 d off'.
Proof. intros H. unfold get16, put32. by bytes. Qed.

Lemma get32_put16_ne d off off' w :
  (off + 2 ≤ off' ∨ off' + 4 ≤ off)%nat → get32 (put16 d off w) off' = get32 d off'.
Proof. intros H. unfold get32, put16. by bytes. Qed.

Lemma is_block_insert d i x : is_block d → 0 ≤ x < 256 → is_block (<[i:=x]> d).
Proof.
  intros [Hl Hb] Hx. split; [by rewrite length_insert|]. by apply Forall_insert.
Qed.

Lemma is_block_put32 d off w : is_block d → is_block (put32 d off w).
Proof. intros. unfold put32. by repeat apply is_block_insert; try apply u8_range. Qed.

Lemma is_block_put16 d off w : is_block d → is_block (put16 d off w).
Proof. intros. unfold put16. by repeat apply is_block_insert; try apply u8_range. Qed.

Lemma byte_range d i : is_block d → 0 ≤ byte d i < 256.
Proof.
  intros [_ Hb]. unfold byte. destruct (d !! i) as [x|] eqn:Hx; simpl; [|lia].
  rewrite Forall_lookup in Hb. by apply (Hb i).
Qed.

Lemma get32_range d off : is_block d → 0 ≤ get32 d off < two32.
Proof.
  intros Hd. unfold get32, two32.
  pose proof (byte_range d off Hd). pose proof (byte_range d (off + 1) Hd).
  pose proof (byte_range d (off + 2) Hd). pose proof (byte_range d (off + 3) Hd). lia.
Qed.

Lemma get16_range d off : is_block d → 0 ≤ get16 d off < 65536.
Proof.
  intros Hd. unfold get16.
  pose proof (byte_range d off Hd). pose proof (byte_range d (off + 1) Hd). lia.
Qed.

Lemma length_splice d off l :
  (off + length l ≤ length d)%nat → length (splice d off l) = length d.
Proof. intros. unfold splice. rewrite !length_app, length_take, length_drop. lia. Qed.

Lemma slice_splice_eq d off l :
  (off + length l ≤ length d)%nat → slice (splice d off l) off (length l) = l.
Proof.
  intros. unfold slice, splice. rewrite drop_app_ge by (rewrite length_take; lia).
  rewrite length_take, Nat.min_l, Nat.sub_diag, drop_0 by lia. apply take_app_length.
Qed.

(** A splice as a function of the position. *)
Lemma byte_splice d off l i :
  (off + length l ≤ length d)%nat →
  byte (splice d off l) i =
    if decide (off ≤ i < off + length l)%nat then byte l (i - off) else byte d i.
Proof.
  intros Hl. unfold byte, splice. case_decide as Hi.
  - rewrite lookup_app_r by (rewrite length_take; lia).
    rewrite length_take, Nat.min_l by lia. rewrite lookup_app_l by lia. done.
  - destruct (decide (i < off)%nat).
    + rewrite lookup_app_l by (rewrite length_take; lia). by rewrite lookup_take_lt by lia.
    + rewrite lookup_app_r by (rewrite length_take; lia). rewrite length_take, Nat.min_l by lia.
      rewrite lookup_app_r by lia. rewrite lookup_drop. do 2 f_equal. lia.
Qed.

Lemma is_block_splice d off l :
  is_block d → Forall (λ x, 0 ≤ x < 256) l → (off + length l ≤ 512)%nat →
  is_block (splice d off l).
Proof.
  intros [Hl Hb] Hf Ho. split; [rewrite length_splice; lia|]. unfold splice.
  repeat apply Forall_app_2; [by apply Forall_take|done|by apply Forall_drop].
Qed.

Lemma is_block_zeros : is_block zeros.
Proof. split; [done|]. by apply Forall_replicate. Qed.

#[export] Hint Resolve is_block_zeros is_block_put32 is_block_put16 get32_range get16_range
  byte_range : xv6.
#[export] Hint Rewrite length_put32 length_put16 : xv6_rw.
