(* ===== verification/BlockCache.v ===== *)
(** What the buffer cache promises to the log and the file system: the
    operations on locked buffers and their effect on the contents of the disk
    blocks, the disk itself and the set of blocks that may not be evicted. *)

From S2P Require Import Prelude CString Bytes.

(** The abstract state: the current contents of every block, the disk and the
    writes made to it, the buffers the running process has locked, the blocks
    pinned in the cache, the number of blocks of the disk, and the number of
    buffers. *)
Record cview := mkcv {
  c_view : Z → blk;
  c_disk : Z → blk;
  c_trace : list (Z * blk);
  c_held : gmap nat Z;
  c_pinned : gset Z;
  c_size : Z;
  c_bufs : nat
}.

#[export] Instance cview_eta : Eta cview :=
  λ c, mkcv (c_view c) (c_disk c) (c_trace c) (c_held c) (c_pinned c) (c_size c) (c_bufs c).

(** The blocks whose buffers cannot be recycled. *)
Definition in_use (c : cview) : gset Z := c_pinned c ∪ map_img (c_held c).

Class BlockCache (T : Type) := {
  bc_bread : Z → M T nat;
  bc_bwrite : nat → M T unit;
  bc_brelse : nat → M T unit;
  (** Reading and writing [b->data], reading [b->blockno], setting [B_DIRTY]. *)
  bc_data : nat → M T blk;
  bc_store : nat → blk → M T unit;
  bc_blockno : nat → M T Z;
  bc_pin : nat → M T unit;

  repr : T → cview → Prop;
  bc_bread_ok s c b :
    repr s c → b ∉@{gset Z} map_img (c_held c) → 0 ≤ b < c_size c →
    (size (in_use c ∪ {[b]}) ≤ c_bufs c)%nat →
    returns (bc_bread b) s (λ h s',
      c_held c !! h = None ∧ repr s' (c <| c_held := <[h:=b]> (c_held c) |>));
  bc_bwrite_ok s c h b :
    repr s c → c_held c !! h = Some b →
    returns (bc_bwrite h) s (λ _ s',
      repr s' (c <| c_disk := upd (c_disk c) b (c_view c b) |>
                 <| c_trace := c_trace c ++ [(b, c_view c b)] |>
                 <| c_pinned := c_pinned c ∖ {[b]} |>));
  bc_brelse_ok s c h b :
    repr s c → c_held c !! h = Some b → (b ∈ c_pinned c ∨ c_view c b = c_disk c b) →
    returns (bc_brelse h) s (λ _ s', repr s' (c <| c_held := delete h (c_held c) |>));
  bc_data_ok s c h b :
    repr s c → c_held c !! h = Some b →
    returns (bc_data h) s (λ d s', d = c_view c b ∧ s' = s);
  bc_store_ok s c h b d :
    repr s c → c_held c !! h = Some b →
    returns (bc_store h d) s (λ _ s', repr s' (c <| c_view := upd (c_view c) b d |>));
  bc_blockno_ok s c h b :
    repr s c → c_held c !! h = Some b →
    returns (bc_blockno h) s (λ r s', r = b ∧ s' = s);
  bc_pin_ok s c h b :
    repr s c → c_held c !! h = Some b →
    returns (bc_pin h) s (λ _ s', repr s' (c <| c_pinned := {[b]} ∪ c_pinned c |>))
}.
