(* ===== verification/Bio.v ===== *)
(** The buffer cache (bio.c) with its doubly linked list of buffers, on the
    memory-backed disk driver (memide.c). *)

From S2P Require Import Prelude CString Bytes BlockCache.

Definition NBUF : nat := 30.
Definition B_VALID : Z := 2.
Definition B_DIRTY : Z := 4.

(** [struct buf]; [lock] is the process that holds the sleep lock. *)
Record buf := mkbuf {
  flags : Z; bdev : Z; blockno : Z; lock : option nat; refcnt : Z; bdata : blk
}.

#[export] Instance buf_eta : Eta buf :=
  λ b, mkbuf (flags b) (bdev b) (blockno b) (lock b) (refcnt b) (bdata b).

(** [bcache]: the buffers, and the [next] and [prev] pointers as indices, where
    [head] is the index after the last buffer.  [cur] is the running process,
    [disk] and [disksize] are [memdisk]; [trace] records the blocks written to the
    disk, in order. *)
Record bst := mkbst {
  bufs : list buf;
  next : nat → nat;
  prev : nat → nat;
  cur : nat;
  disk : Z → blk;
  disksize : Z;
  trace : list (Z * blk)
}.

#[export] Instance bst_eta : Eta bst :=
  λ s, mkbst (bufs s) (next s) (prev s) (cur s) (disk s) (disksize s) (trace s).

Definition head : nat := NBUF.

Definition getb (i : nat) : M bst buf := λ s,
  match bufs s !! i with Some b => Ok b s | None => Undef "buffer pointer" end.
Definition setb (i : nat) (f : buf → buf) : M bst unit :=
  modify (λ s, s <| bufs := alter f i (bufs s) |>).
Definition setnext (i j : nat) : M bst unit := modify (λ s, s <| next := upd (next s) i j |>).
Definition setprev (i j : nat) : M bst unit := modify (λ s, s <| prev := upd (prev s) i j |>).

(** The sleep lock of a buffer (see [Sleeplock]): waiting for another holder
    blocks the process. *)
Definition acquiresleep (i : nat) : M bst unit :=
  b ← getb i;
  match lock b with
  | Some _ => block
  | None => c ← gets cur; setb i (λ b, b <| lock := Some c |>)
  end.
Definition releasesleep (i : nat) : M bst unit := setb i (λ b, b <| lock := None |>).
Definition holdingsleep (i : nat) : M bst bool :=
  b ← getb i; c ← gets cur; mret (bool_decide (lock b = Some c)).

(** [binit]: each buffer in turn is put in front of the list. *)
Definition binit_one (i : nat) : M bst unit :=
  h ← gets (λ s, next s head);
  _ ← setnext i h;
  _ ← setprev i head;
  _ ← setb i (λ b, b <| lock := None |>);
  h ← gets (λ s, next s head);
  _ ← setprev h i;
  setnext head i.

Fixpoint binit_loop (l : list nat) : M bst unit :=
  match l with [] => skip | i :: l => _ ← binit_one i; binit_loop l end.

Definition binit : M bst unit :=
  _ ← setprev head head;
  _ ← setnext head head;
  binit_loop (seq 0 NBUF).

(** The two loops of [bget]: the first buffer from [i] on, along [go], that
    satisfies [P]; [None] when [fuel] runs out or a pointer is bad. *)
Fixpoint search (fuel : nat) (go : nat → nat) (P : buf → bool) (l : list buf) (i : nat) :
    option (option nat) :=
  match fuel with
  | O => None
  | S fuel =>
      if decide (i = head) then Some None
      else match l !! i with
           | None => None
           | Some b => if P b then Some (Some i) else search fuel go P l (go i)
           end
  end.

Definition is_block_of (dev bno : Z) (b : buf) : bool := (bdev b =? dev) && (blockno b =? bno).
Definition is_free (b : buf) : bool := (refcnt b =? 0) && (Z.land (flags b) B_DIRTY =? 0).

Definition bget (dev bno : Z) : M bst nat := λ s,
  match search (S NBUF) (next s) (is_block_of dev bno) (bufs s) (next s head) with
  | None => NoFuel
  | Some (Some i) =>
      (_ ← setb i (λ b, b <| refcnt := u32 (refcnt b + 1) |>);
       _ ← acquiresleep i; mret i) s
  | Some None =>
      match search (S NBUF) (prev s) is_free (bufs s) (prev s head) with
      | None => NoFuel
      | Some (Some i) =>
          (_ ← setb i (λ b, b <| bdev := dev |> <| blockno := bno |> <| flags := 0 |> <| refcnt := 1 |>);
           _ ← acquiresleep i; mret i) s
      | Some None => Panic "bget: no buffers"
      end
  end.

(** memide.c *)
Definition iderw (i : nat) : M bst unit :=
  h ← holdingsleep i;
  if negb h then panic "iderw: buf not locked" else
  b ← getb i;
  if Z.land (flags b) (Z.lor B_VALID B_DIRTY) =? B_VALID then panic "iderw: nothing to do" else
  if negb (bdev b =? 1) then panic "iderw: request not for disk 1" else
  dsz ← gets disksize;
  if dsz <=? blockno b then panic "iderw: block out of range" else
  _ ← (if negb (Z.land (flags b) B_DIRTY =? 0) then
         _ ← setb i (λ b, b <| flags := Z.land (flags b) (Z.lnot B_DIRTY) |>);
         modify (λ s, s <| disk := upd (disk s) (blockno b) (bdata b) |>
                        <| trace := trace s ++ [(blockno b, bdata b)] |>)
       else d ← gets disk; setb i (λ b, b <| bdata := d (blockno b) |>));
  setb i (λ b, b <| flags := Z.lor (flags b) B_VALID |>).

Definition bread (dev bno : Z) : M bst nat :=
  i ← bget dev bno;
  b ← getb i;
  _ ← when (Z.land (flags b) B_VALID =? 0) (iderw i);
  mret i.

Definition bwrite (i : nat) : M bst unit :=
  h ← holdingsleep i;
  if negb h then panic "bwrite" else
  _ ← setb i (λ b, b <| flags := Z.lor (flags b) B_DIRTY |>);
  iderw i.

Definition brelse (i : nat) : M bst unit :=
  h ← holdingsleep i;
  if negb h then panic "brelse" else
  _ ← releasesleep i;
  _ ← setb i (λ b, b <| refcnt := u32 (refcnt b - 1) |>);
  b ← getb i;
  when (refcnt b =? 0)
    (n ← gets (λ s, next s i); p ← gets (λ s, prev s i);
     _ ← setprev n p;
     _ ← setnext p n;
     h ← gets (λ s, next s head);
     _ ← setnext i h;
     _ ← setprev i head;
     h ← gets (λ s, next s head);
     _ ← setprev h i;
     setnext head i).

(** ** The linked list *)

(** Consecutive elements point to each other. *)
Fixpoint linked (nx pv : nat → nat) (l : list nat) : Prop :=
  match l with
  | x :: ((y :: _) as t) => nx x = y ∧ pv y = x ∧ linked nx pv t
  | _ => True
  end.

(** The buffers in the order of the list, most recently used first. *)
Definition ring (nx pv : nat → nat) (order : list nat) : Prop :=
  linked nx pv (head :: order ++ [head]) ∧ order ≡ₚ seq 0 NBUF.

Lemma linked_app nx pv l1 x l2 :
  linked nx pv (l1 ++ x :: l2) ↔ linked nx pv (l1 ++ [x]) ∧ linked nx pv (x :: l2).
Proof.
  induction l1 as [|a l1 IH]; simpl; [tauto|]. destruct l1 as [|c l1]; simpl in *; tauto.
Qed.

Lemma linked_cons nx pv x y l :
  linked nx pv (x :: y :: l) ↔ nx x = y ∧ pv y = x ∧ linked nx pv (y :: l).
Proof. done. Qed.

Lemma elem_of_removelast {A} (a : A) l : a ∈ removelast l → a ∈ l.
Proof.
  induction l as [|x l IH]; simpl; [done|]. destruct l as [|y l]; [by intros ?%elem_of_nil|].
  intros [->|H%IH]%elem_of_cons; [left|by right].
Qed.

Lemma linked_ext nx pv nx' pv' l :
  linked nx pv l →
  (∀ a, a ∈ removelast l → nx' a = nx a) → (∀ a, a ∈ tail l → pv' a = pv a) →
  linked nx' pv' l.
Proof.
  induction l as [|x l IH]; simpl; [done|]. destruct l as [|y l]; [done|].
  intros (Hn & Hp & Hl) H1 H2. split_and!.
  - rewrite H1; [done|by left].
  - rewrite H2; [done|by left].
  - apply IH; [done| |].
    + intros a Ha. apply H1. by right.
    + intros a Ha. apply H2. by right.
Qed.

Lemma ring_head_notin nx pv order : ring nx pv order → (head ∉ order) ∧ NoDup order.
Proof.
  intros [_ Hp]. rewrite Hp. split; [|apply NoDup_seq].
  intros H%elem_of_seq. unfold head in H. lia.
Qed.

Lemma removelast_snoc {A} (l : list A) x : removelast (l ++ [x]) = l.
Proof. apply removelast_last. Qed.

(** Taking [b] out of a list in which it stands between [x] and [y]. *)
Lemma linked_unlink nx pv l0 x b y l3 :
  linked nx pv (l0 ++ x :: b :: y :: l3) →
  x ∉ l0 → y ∉ tail (l0 ++ [x]) → x ∉ removelast (y :: l3) → y ∉ l3 →
  linked (upd nx x y) (upd pv y x) (l0 ++ x :: y :: l3).
Proof.
  intros Hl H1 H2 H3 H4. apply linked_app in Hl as [Ha Hb]. apply linked_app. split.
  - eapply linked_ext; [exact Ha| |].
    + intros a Hin. rewrite removelast_snoc in Hin. apply upd_ne. by intros ->.
    + intros a Hin. apply upd_ne. by intros ->.
  - destruct Hb as (_ & _ & _ & _ & Hb). rewrite linked_cons, !upd_eq. split_and!; [done..|].
    eapply linked_ext; [exact Hb| |].
    + intros a Hin. apply upd_ne. by intros ->.
    + intros a Hin. apply upd_ne. by intros ->.
Qed.

(** Putting [b] between [h] and its successor [z]. *)
Lemma linked_push nx pv h b z l4 :
  linked nx pv (h :: z :: l4) → b ≠ h → b ∉ z :: l4 → h ∉ removelast (z :: l4) → z ∉ l4 →
  linked (upd (upd nx b z) h b) (upd (upd pv b h) z b) (h :: b :: z :: l4).
Proof.
  intros (_ & _ & Hl) Hbh Hb Hh Hz.
  assert (b ≠ z ∧ (b ∉ l4)) as [Hbz Hb4] by (by split; intros H; apply Hb; set_solver).
  rewrite !linked_cons.
  rewrite (upd_eq _ h b), (upd_eq _ z b).
  rewrite (upd_ne _ z b b), upd_eq by done. rewrite (upd_ne _ h b b), upd_eq by done.
  split_and!; [done..|]. eapply linked_ext; [exact Hl| |].
  - intros a Ha. rewrite !upd_ne; [done| |].
    + intros ->. by apply Hb, elem_of_removelast.
    + by intros ->.
  - intros a Ha. rewrite !upd_ne; [done| |]; intros ->; done.
Qed.

(** ** Searching the list *)

Fixpoint path (go : nat → nat) (l : list nat) : Prop :=
  match l with
  | x :: ((y :: _) as t) => go x = y ∧ path go t
  | _ => True
  end.

Lemma linked_next nx pv l : linked nx pv l → path nx l.
Proof.
  induction l as [|x [|y l] IH]; simpl; [done|done|]. intros (? & ? & ?). by split; [|apply IH].
Qed.

Lemma path_snoc go l y x : path go (l ++ [y]) → go y = x → path go (l ++ [y; x]).
Proof.
  induction l as [|a l IH]; simpl; [by auto|]. destruct l as [|b l]; simpl in *.
  - intros [? _] ?. auto.
  - intros [? ?] ?. split; [done|by apply IH].
Qed.

Lemma linked_prev nx pv l : linked nx pv l → path pv (reverse l).
Proof.
  induction l as [|x [|y l] IH]; [done|done|]. intros (Hn & Hp & Hl).
  specialize (IH Hl). rewrite !reverse_cons in *. rewrite <-app_assoc. by apply path_snoc.
Qed.

(** The first buffer of [l] that satisfies [P]. *)
Definition first (P : buf → bool) (bs : list buf) (l : list nat) : option nat :=
  List.find (λ i, match bs !! i with Some b => P b | None => false end) l.

Lemma search_path fuel go P bs l :
  path go (l ++ [head]) → head ∉ l → (∀ i, i ∈ l → (i < length bs)%nat) → (length l < fuel)%nat →
  search fuel go P bs (List.hd head l) = Some (first P bs l).
Proof.
  revert l. induction fuel as [|fuel IH]; intros l Hp Hh Hb Hf; [lia|]. simpl.
  destruct l as [|i l]; simpl in *; [done|].
  rewrite decide_False by (intros ->; apply Hh; left).
  destruct (lookup_lt_is_Some_2 bs i) as [b Hi]; [apply Hb; left|]. unfold first; simpl. rewrite Hi.
  destruct (P b); [done|].
  assert (go i = List.hd head l ∧ path go (l ++ [head])) as [-> Hp'] by (by destruct l).
  apply IH; [done| | |lia].
  - intros H. apply Hh. by right.
  - intros j Hj. apply Hb. by right.
Qed.

Lemma ring_next nx pv order P bs :
  ring nx pv order → length bs = NBUF →
  search (S NBUF) nx P bs (nx head) = Some (first P bs order).
Proof.
  intros Hr Hlen. pose proof (ring_head_notin _ _ _ Hr) as [Hh _]. destruct Hr as [Hl Hp].
  assert (length order = NBUF) as Hol by (by rewrite Hp).
  apply linked_next in Hl.
  replace (nx head) with (List.hd head order) by (by destruct order; destruct Hl).
  apply search_path; [by destruct order; destruct Hl|done| |lia].
  intros i Hi. rewrite Hp in Hi. apply elem_of_seq in Hi. lia.
Qed.

Lemma ring_prev nx pv order P bs :
  ring nx pv order → length bs = NBUF →
  search (S NBUF) pv P bs (pv head) = Some (first P bs (reverse order)).
Proof.
  intros Hr Hlen. pose proof (ring_head_notin _ _ _ Hr) as [Hh _]. destruct Hr as [Hl Hp].
  assert (length order = NBUF) as Hol by (by rewrite Hp).
  apply linked_prev in Hl. rewrite reverse_cons, reverse_app in Hl. simpl in Hl.
  change (reverse [head]) with [head] in Hl.
  set (r := reverse order) in *.
  assert (pv head = List.hd head r ∧ path pv (r ++ [head])) as [-> Hpath].
  { destruct r; by destruct Hl. }
  apply search_path; [done| | |].
  - unfold r. by rewrite elem_of_reverse.
  - intros i. unfold r. rewrite elem_of_reverse, Hp, elem_of_seq. lia.
  - unfold r. rewrite length_reverse. lia.
Qed.

Lemma first_Some P bs l i : first P bs l = Some i → ∃ b, bs !! i = Some b ∧ P b = true ∧ i ∈ l.
Proof.
  intros [Hin HP]%find_some. destruct (bs !! i) as [b|]; [|done].
  exists b. by rewrite list_elem_of_In.
Qed.

Lemma first_None P bs l i b :
  first P bs l = None → i ∈ l → bs !! i = Some b → P b = false.
Proof.
  intros H Hi Hb. apply list_elem_of_In in Hi. pose proof (find_none _ _ H i Hi) as Hf.
  simpl in Hf. by rewrite Hb in Hf.
Qed.

Lemma nodup_snoc {A} (l : list A) x : NoDup l → x ∉ l → NoDup (l ++ [x]).
Proof.
  intros Hl Hx. apply NoDup_app. split_and!; [done| |apply NoDup_singleton].
  by intros y Hy ->%list_elem_of_singleton.
Qed.

(** [brelse]'s pointer updates move a buffer to the front. *)
Lemma ring_front nx pv l1 b l2 :
  ring nx pv (l1 ++ b :: l2) →
  let nx1 := upd nx (pv b) (nx b) in
  let pv1 := upd pv (nx b) (pv b) in
  let nx2 := upd nx1 b (nx1 head) in
  let pv2 := upd pv1 b head in
  ring (upd nx2 head b) (upd pv2 (nx2 head) b) (b :: l1 ++ l2).
Proof.
  intros Hr. pose proof (ring_head_notin _ _ _ Hr) as [Hh Hnd]. destruct Hr as [Hl Hp].
  intros nx1 pv1 nx2 pv2. split; [|by rewrite <-Hp, <-Permutation_middle].
  assert (b ≠ head) as Hbh by (intros ->; apply Hh; set_solver).
  assert (head ∉ l1) as Hh1 by set_solver. assert (head ∉ l2) as Hh2 by set_solver.
  apply NoDup_app in Hnd as (Hn1 & Hd & [Hb2 Hn2]%NoDup_cons).
  assert (b ∉ l1) as Hb1 by (intros H; apply (Hd b H); left).
  destruct (exists_last (l:=head :: l1) ltac:(done)) as (l0 & x & Hx).
  assert (∃ y l3, l2 ++ [head] = y :: l3) as (y & l3 & Hy) by (destruct l2; eauto).
  assert (head :: (l1 ++ b :: l2) ++ [head] = l0 ++ x :: b :: y :: l3) as Heq.
  { rewrite <-app_assoc. simpl. rewrite Hy. change (head :: l1 ++ b :: y :: l3) with ((head :: l1) ++ b :: y :: l3).
    rewrite Hx, <-app_assoc. done. }
  rewrite Heq in Hl. pose proof Hl as [_ (Hxb & Hbx & Hby & Hyb & _)]%linked_app.
  assert (NoDup (head :: l1)) as Hn1' by (apply NoDup_cons; set_solver).
  assert (x ∈ head :: l1) as Hxin by (rewrite Hx; set_solver).
  assert (head :: (l1 ++ l2) ++ [head] = l0 ++ x :: y :: l3) as Heq'.
  { rewrite <-app_assoc, Hy. change (head :: l1 ++ y :: l3) with ((head :: l1) ++ y :: l3).
    rewrite Hx, <-app_assoc. done. }
  assert (linked nx1 pv1 (head :: (l1 ++ l2) ++ [head])) as Hl1.
  { rewrite Heq'. unfold nx1, pv1. rewrite Hby, Hbx. apply (linked_unlink nx pv l0 x b y l3); [done|..].
    - rewrite Hx in Hn1'. apply NoDup_app in Hn1' as (_ & Hdx & _). intros H. apply (Hdx x H). left.
    - rewrite <-Hx. simpl. intros H.
      assert (y ∈ l2 ++ [head]) as [?|Hyh%list_elem_of_singleton]%elem_of_app by (rewrite Hy; left).
      + apply (Hd y H). by right.
      + apply Hh1. by rewrite <-Hyh.
    - rewrite <-Hy, removelast_snoc. intros H. apply elem_of_cons in Hxin as [->|Hxin]; [set_solver|].
      apply (Hd x Hxin). by right.
    - pose proof (nodup_snoc l2 head Hn2 Hh2) as Hn3.
      rewrite Hy in Hn3. by apply NoDup_cons in Hn3 as [? _]. }
  assert (∃ z l4, (l1 ++ l2) ++ [head] = z :: l4) as (z & l4 & Hz) by (destruct (l1 ++ l2); eauto).
  rewrite Hz in Hl1. pose proof Hl1 as (Hz1 & _).
  assert (nx2 head = z) as ->. { unfold nx2. by rewrite upd_ne. }
  change (head :: (b :: l1 ++ l2) ++ [head]) with (head :: b :: (l1 ++ l2) ++ [head]). rewrite Hz.
  unfold nx2, pv2. rewrite Hz1. apply linked_push; [done|done|..].
  - rewrite <-Hz. set_solver.
  - rewrite <-Hz, removelast_snoc. set_solver.
  - assert (NoDup (l1 ++ l2)) as Hn12.
    { apply NoDup_app. split_and!; [done| |done]. intros a Ha Ha2. apply (Hd a Ha). by right. }
    pose proof (nodup_snoc (l1 ++ l2) head Hn12 ltac:(set_solver)) as Hn3.
    rewrite Hz in Hn3. by apply NoDup_cons in Hn3 as [? _].
Qed.

(** ** The cache as an abstract state *)

(** One buffer against the abstract state: not used yet, or a valid copy of
    a block of disk 1, released or locked by the running process. *)
Definition released (c : cview) (i : nat) (b : buf) : Prop :=
  lock b = None ∧ refcnt b = 0 ∧ c_held c !! i = None ∧
  (flags b = B_VALID → bdata b = c_disk c (blockno b)).

Definition locked (me : nat) (c : cview) (i : nat) (b : buf) : Prop :=
  lock b = Some me ∧ refcnt b = 1 ∧ c_held c !! i = Some (blockno b).

Definition buf_ok (me : nat) (c : cview) (i : nat) (b : buf) : Prop :=
  (bdev b = 0 ∧ flags b = 0 ∧ lock b = None ∧ refcnt b = 0 ∧ c_held c !! i = None) ∨
  (bdev b = 1 ∧ 0 ≤ blockno b < c_size c ∧ bdata b = c_view c (blockno b) ∧
   (flags b = B_VALID ∧ blockno b ∉ c_pinned c ∨
    flags b = Z.lor B_VALID B_DIRTY ∧ blockno b ∈ c_pinned c) ∧
   (released c i b ∨ locked me c i b)).

(** [b] holds block [bno]. *)
Definition holds_block (bno : Z) (b : buf) : Prop := bdev b = 1 ∧ blockno b = bno.

Record content_ok (me : nat) (bs : list buf) (c : cview) : Prop := {
  co_len : length bs = NBUF;
  co_buf : ∀ i b, bs !! i = Some b → buf_ok me c i b;
  co_uniq : ∀ i j b b' bno, bs !! i = Some b → bs !! j = Some b' →
    holds_block bno b → holds_block bno b' → i = j;
  co_rest : ∀ bno, (∀ i b, bs !! i = Some b → ¬ holds_block bno b) →
    c_view c bno = c_disk c bno ∧ bno ∉ c_pinned c;
  co_held : ∀ h bno, c_held c !! h = Some bno → (h < NBUF)%nat
}.

Record bio_repr (s : bst) (c : cview) : Prop := {
  br_ring : ∃ order, ring (next s) (prev s) order;
  br_content : content_ok (cur s) (bufs s) c;
  br_disk : ∀ b, c_disk c b = disk s b;
  br_trace : c_trace c = trace s;
  br_size : c_size c = disksize s;
  br_bufs : c_bufs c = NBUF
}.

(** Two abstract states that agree except on block [bno] and buffer [i]. *)
Definition agree_but (bno : Z) (i : nat) (c c' : cview) : Prop :=
  c_size c' = c_size c ∧
  (∀ b, b ≠ bno → c_view c' b = c_view c b ∧ c_disk c' b = c_disk c b ∧
                  (b ∈ c_pinned c' ↔ b ∈ c_pinned c)) ∧
  (∀ h, h ≠ i → c_held c' !! h = c_held c !! h).

Lemma buf_ok_frame me c c' bno i j b :
  agree_but bno i c c' → j ≠ i → ¬ holds_block bno b → buf_ok me c j b → buf_ok me c' j b.
Proof.
  intros (Hs & Ha & Hh) Hj Hnb [Hb|(Hd & Hr & Hv & Hf & Hl)].
  - left. by rewrite Hh.
  - assert (blockno b ≠ bno) as Hne by (intros <-; by apply Hnb).
    destruct (Ha _ Hne) as (Hv' & Hd' & Hp). right.
    unfold released, locked in *. rewrite Hs, Hv', Hp, Hd', Hh by done. done.
Qed.

(** Changing one buffer so that it holds [bno]. *)
Lemma content_update me bs c c' i f b bno :
  content_ok me bs c → bs !! i = Some b → agree_but bno i c c' →
  holds_block bno (f b) → buf_ok me c' i (f b) →
  (∀ j b', bs !! j = Some b' → j ≠ i → ¬ holds_block bno b') →
  (bdev b = 1 → blockno b ≠ bno →
   c_view c (blockno b) = c_disk c (blockno b) ∧ blockno b ∉ c_pinned c) →
  content_ok me (alter f i bs) c'.
Proof.
  intros [Hlen Hbuf Huniq Hrest Hheld] Hb Hag Hfb Hok Hothers Hold.
  assert (∀ j b', alter f i bs !! j = Some b' →
    (j = i ∧ b' = f b) ∨ (j ≠ i ∧ bs !! j = Some b')) as Hcases.
  { intros j b'. destruct (decide (j = i)) as [->|Hne].
    - rewrite list_lookup_alter_eq, Hb. intros [= <-]. auto.
    - rewrite list_lookup_alter_ne by done. auto. }
  constructor.
  - by rewrite length_alter.
  - intros j b' [[-> ->]|[Hne Hj]]%Hcases; [done|].
    eapply buf_ok_frame; [done|done|by eapply Hothers|by apply Hbuf].
  - intros j k b1 b2 bn Hj Hk H1 H2.
    apply Hcases in Hj as [[-> ->]|[Hnj Hj]]; apply Hcases in Hk as [[-> ->]|[Hnk Hk]]; [done|..].
    + exfalso. destruct Hfb as [_ Hfb], H1 as [_ H1]. apply (Hothers k b2 Hk Hnk). congruence.
    + exfalso. destruct Hfb as [_ Hfb], H2 as [_ H2]. apply (Hothers j b1 Hj Hnj). congruence.
    + by eapply Huniq.
  - intros bn Hn.
    assert (bn ≠ bno) as Hbn.
    { intros ->. apply (Hn i (f b)); [|done]. by rewrite list_lookup_alter_eq, Hb. }
    destruct Hag as (_ & Ha & _). destruct (Ha bn Hbn) as (-> & -> & ->).
    destruct (decide (holds_block bn b)) as [[Hd Hbk]|Hnb].
    + subst bn. by apply Hold.
    + apply Hrest. intros j b' Hj. destruct (decide (j = i)) as [->|Hne]; [congruence|].
      apply (Hn j). by rewrite list_lookup_alter_ne.
  - intros h bn Hh. destruct (decide (h = i)) as [->|Hne].
    + rewrite <-Hlen. by eapply lookup_lt_Some.
    + destruct Hag as (_ & _ & Hah). rewrite Hah in Hh by done. by eapply Hheld.
Qed.

(** ** The operations *)

Lemma held_buf s c h b :
  bio_repr s c → c_held c !! h = Some b →
  ∃ bf, bufs s !! h = Some bf ∧ holds_block b bf ∧ 0 ≤ b < c_size c ∧
    bdata bf = c_view c b ∧ locked (cur s) c h bf ∧
    (flags bf = B_VALID ∧ b ∉ c_pinned c ∨
     flags bf = Z.lor B_VALID B_DIRTY ∧ b ∈ c_pinned c).
Proof.
  intros [_ [Hlen Hbuf _ _ Hheld] _ _ _ _] Hh.
  destruct (lookup_lt_is_Some_2 (bufs s) h) as [bf Hbf]; [rewrite Hlen; by eapply Hheld|].
  exists bf. destruct (Hbuf h bf Hbf) as [(_ & _ & _ & _ & ?)|(Hd & Hr & Hv & Hf & Hl)]; [congruence|].
  destruct Hl as [(_ & _ & ? & _)|Hl]; [congruence|].
  assert (blockno bf = b) as <- by (destruct Hl as (_ & _ & Hl); congruence). done.
Qed.

Lemma held_others s c h b bf :
  bio_repr s c → bufs s !! h = Some bf → holds_block b bf →
  ∀ j b', bufs s !! j = Some b' → j ≠ h → ¬ holds_block b b'.
Proof. intros Hr Hbf Hb j b' Hj Hne Hb'. apply Hne. by eapply (co_uniq _ _ _ (br_content _ _ Hr)). Qed.

Lemma held_holding s c h b (k : bool → M bst unit) Q :
  bio_repr s c → c_held c !! h = Some b → returns (k true) s Q → returns (holdingsleep h ≫= k) s Q.
Proof.
  intros Hr Hh. destruct (held_buf _ _ _ _ Hr Hh) as (bf & Hbf & _ & _ & _ & (Hl & _) & _).
  unfold returns, holdingsleep, mbind, M_bind, getb, gets; simpl. rewrite Hbf, Hl.
  by rewrite bool_decide_eq_true_2.
Qed.

(** A step that changes only one held buffer and the abstract state at its block. *)
Lemma held_update s c c' h b bf f dk tr :
  bio_repr s c → c_held c !! h = Some b → bufs s !! h = Some bf → agree_but b h c c' →
  holds_block b (f bf) → buf_ok (cur s) c' h (f bf) →
  (∀ x, c_disk c' x = dk x) → c_trace c' = tr → c_bufs c' = c_bufs c →
  bio_repr (s <| bufs := alter f h (bufs s) |> <| disk := dk |> <| trace := tr |>) c'.
Proof.
  intros Hr Hh Hbf Hag Hfb Hok Hdk Htr Hn. pose proof Hr as [Hring Hc Hd Ht Hs Hb].
  destruct (held_buf _ _ _ _ Hr Hh) as (bf' & Hbf' & Hhb & _). simplify_eq.
  constructor; simpl; try done.
  - eapply content_update; [done|exact Hbf|exact Hag|done|done| |].
    + by eapply held_others.
    + intros _ Hne. by destruct Hhb as [_ ?].
  - destruct Hag as [-> _]. done.
  - by rewrite Hn.
Qed.

Lemma returns_getb i b s (Q : buf → bst → Prop) :
  bufs s !! i = Some b → Q b s → returns (getb i) s Q.
Proof. unfold returns, getb. by intros ->. Qed.

Lemma returns_setb i f s (Q : unit → bst → Prop) :
  Q tt (s <| bufs := alter f i (bufs s) |>) → returns (setb i f) s Q.
Proof. done. Qed.

Ltac bgo :=
  mgo; repeat (lazymatch goal with
    | |- returns (setb _ _) _ _ => apply returns_setb; cbv beta
    | |- returns (setnext _ _) _ _ => apply returns_modify; cbv beta
    | |- returns (setprev _ _) _ _ => apply returns_modify; cbv beta
    end; mgo).

(** Alterations of an entry that agree on its value. *)
Lemma alter_at (f g : buf → buf) (i : nat) (l : list buf) b : l !! i = Some b → f b = g b → alter f i l = alter g i l.
Proof. intros Hi Hfg. apply list_alter_ext; [|done]. intros b' Hb'. congruence. Qed.

(** Writing out a buffer that is marked dirty. *)
Lemma iderw_write s c h b bf :
  bio_repr s c → c_held c !! h = Some b → bufs s !! h = Some bf →
  returns (_ ← setb h (λ b, b <| flags := Z.lor (flags b) B_DIRTY |>); iderw h) s (λ _ s',
    s' = s <| bufs := alter (λ b, b <| flags := B_VALID |>) h (bufs s) |>
           <| disk := upd (disk s) b (bdata bf) |>
           <| trace := trace s ++ [(b, bdata bf)] |>).
Proof.
  intros Hr Hh Hbf.
  destruct (held_buf _ _ _ _ Hr Hh) as (bf' & Hbf' & [Hd Hb] & Hrange & Hv & (Hl & Hrc & _) & Hf).
  simplify_eq. rewrite (br_size _ _ Hr) in Hrange.
  unfold iderw, holdingsleep. bgo.
  eapply returns_getb; [by simpl; rewrite list_lookup_alter_eq, Hbf|]. bgo. simpl.
  rewrite Hl, bool_decide_eq_true_2 by done. simpl. bgo.
  eapply returns_getb; [by simpl; rewrite list_lookup_alter_eq, Hbf|]. simpl. rewrite Hd.
  assert (Z.lor (flags bf) B_DIRTY = Z.lor B_VALID B_DIRTY) as ->
    by (destruct Hf as [[-> _]|[-> _]]; done). simpl. bgo.
  simpl. rewrite (proj2 (Z.leb_gt _ _)) by lia. bgo. simpl.
  unfold set; simpl; f_equal. rewrite !list_alter_alter_eq.
  apply (alter_at _ _ _ _ bf); [done|]. simpl. by destruct Hf as [[-> _]|[-> _]].
Qed.

Lemma bio_bwrite_ok s c h b :
  bio_repr s c → c_held c !! h = Some b →
  returns (bwrite h) s (λ _ s',
    bio_repr s' (c <| c_disk := upd (c_disk c) b (c_view c b) |>
                   <| c_trace := c_trace c ++ [(b, c_view c b)] |>
                   <| c_pinned := c_pinned c ∖ {[b]} |>)).
Proof.
  intros Hr Hh. unfold bwrite. eapply held_holding; [done..|]. simpl.
  destruct (held_buf _ _ _ _ Hr Hh) as (bf & Hbf & [Hd Hb] & Hrange & Hv & (Hl & Hrc & _) & Hf).
  eapply returns_mono; [by eapply iderw_write|]. intros _ s' ->. rewrite Hv.
  eapply held_update; [exact Hr|exact Hh|exact Hbf|..]; simpl.
  - split_and!; [done| |done]. intros b' Hne; simpl. rewrite upd_ne by done. set_solver.
  - done.
  - right. unfold locked; simpl. rewrite Hd, Hb, Hrc. split_and!; [done|lia|lia|done| |].
    + left. split; [done|set_solver].
    + by right.
  - intros x. unfold upd. by rewrite (br_disk _ _ Hr).
  - by rewrite (br_trace _ _ Hr).
  - done.
Qed.

Lemma bio_brelse_ok s c h b :
  bio_repr s c → c_held c !! h = Some b → (b ∈ c_pinned c ∨ c_view c b = c_disk c b) →
  returns (brelse h) s (λ _ s', bio_repr s' (c <| c_held := delete h (c_held c) |>)).
Proof.
  intros Hr Hh Hsaved. unfold brelse. eapply held_holding; [done..|]. simpl.
  destruct (held_buf _ _ _ _ Hr Hh) as (bf & Hbf & [Hd Hb] & Hrange & Hv & (Hl & Hrc & _) & Hf).
  unfold releasesleep. bgo.
  eapply returns_getb; [by simpl; rewrite !list_lookup_alter_eq, Hbf|]. simpl.
  rewrite Hrc. change (u32 (1 - 1) =? 0) with true. bgo. simpl.
  pose proof Hr as [(order & Hring) Hc Hdk Htr Hsz Hn].
  rewrite list_alter_alter_eq.
  assert (h ∈ order) as (l1 & l2 & ->)%list_elem_of_split.
  { destruct Hring as [_ ->]. apply elem_of_seq. apply lookup_lt_Some in Hbf.
    rewrite (co_len _ _ _ Hc) in Hbf. lia. }
  constructor; simpl; try done.
  - exists (h :: l1 ++ l2). by apply ring_front.
  - eapply (content_update _ _ c _ h _ bf b); [done|done| |done| | |].
    + split_and!; [done|done|]. intros h' Hne. simpl. by rewrite lookup_delete_ne.
    + right. unfold released; simpl. rewrite Hd, Hb, Hrc. split_and!; [done|lia|lia|done|done|].
      left. split_and!; [done|done|by rewrite lookup_delete_eq|]. intros Hfl.
      destruct Hf as [[_ Hnp]|[Hfl' _]]; [|by rewrite Hfl' in Hfl].
      destruct Hsaved as [?|Hs]; [done|]. by rewrite Hv, Hs.
    + by eapply held_others.
    + intros _ Hne. congruence.
Qed.

Lemma bio_data_ok s c h b :
  bio_repr s c → c_held c !! h = Some b →
  returns (b ← getb h; mret (bdata b)) s (λ d s', d = c_view c b ∧ s' = s).
Proof.
  intros Hr Hh. destruct (held_buf _ _ _ _ Hr Hh) as (bf & Hbf & _ & _ & Hv & _).
  mgo. by eapply returns_getb.
Qed.

Lemma bio_blockno_ok s c h b :
  bio_repr s c → c_held c !! h = Some b →
  returns (b ← getb h; mret (blockno b)) s (λ r s', r = b ∧ s' = s).
Proof.
  intros Hr Hh. destruct (held_buf _ _ _ _ Hr Hh) as (bf & Hbf & [_ Hb] & _).
  mgo. by eapply returns_getb.
Qed.

Lemma bio_store_ok s c h b d :
  bio_repr s c → c_held c !! h = Some b →
  returns (setb h (λ b, b <| bdata := d |>)) s (λ _ s',
    bio_repr s' (c <| c_view := upd (c_view c) b d |>)).
Proof.
  intros Hr Hh.
  destruct (held_buf _ _ _ _ Hr Hh) as (bf & Hbf & [Hd Hb] & Hrange & Hv & (Hl & Hrc & _) & Hf).
  bgo. eapply (held_update s c _ h b bf _ (disk s) (trace s)); [exact Hr|exact Hh|exact Hbf|..].
  - split_and!; [done| |done]. intros b' Hne; simpl. by rewrite upd_ne.
  - done.
  - right. unfold locked; simpl. rewrite Hd, Hb, Hrc, upd_eq. split_and!; [done|lia|lia|done|done|].
    by right.
  - apply Hr.
  - apply Hr.
  - done.
Qed.

Lemma bio_pin_ok s c h b :
  bio_repr s c → c_held c !! h = Some b →
  returns (setb h (λ b, b <| flags := Z.lor (flags b) B_DIRTY |>)) s (λ _ s',
    bio_repr s' (c <| c_pinned := {[b]} ∪ c_pinned c |>)).
Proof.
  intros Hr Hh.
  destruct (held_buf _ _ _ _ Hr Hh) as (bf & Hbf & [Hd Hb] & Hrange & Hv & (Hl & Hrc & _) & Hf).
  bgo. eapply (held_update s c _ h b bf _ (disk s) (trace s)); [exact Hr|exact Hh|exact Hbf|..].
  - split_and!; [done| |done]. intros b' Hne; simpl. set_solver.
  - done.
  - right. unfold locked; simpl. rewrite Hd, Hb, Hrc. split_and!; [done|lia|lia|done| |by right].
    right. split; [by destruct Hf as [[-> _]|[-> _]]|set_solver].
  - apply Hr.
  - apply Hr.
  - done.
Qed.

(** A buffer that is neither free nor the block asked for is in use. *)
Lemma busy_in_use me c i bf :
  buf_ok me c i bf → is_free bf = false → bdev bf = 1 ∧ blockno bf ∈ in_use c.
Proof.
  intros Hok Hfree. unfold is_free, in_use in *.
  destruct Hok as [(Hd & Hf & _ & Hrc & _)|(Hd & _ & _ & Hf & Hl)].
  { by rewrite Hf, Hrc in Hfree. }
  split; [done|]. apply elem_of_union. destruct Hf as [[Hf _]|[_ Hp]]; [|by left].
  destruct Hl as [(_ & Hrc & _)|(_ & _ & Hh)].
  - by rewrite Hf, Hrc in Hfree.
  - right. by eapply elem_of_map_img_2.
Qed.

(** With a buffer to spare there is a free one. *)
Lemma free_exists s c b l :
  bio_repr s c → (∀ i, (i < NBUF)%nat → i ∈ l) →
  (∀ i bf, bufs s !! i = Some bf → ¬ holds_block b bf) →
  (size (in_use c ∪ {[b]}) ≤ NBUF)%nat →
  first is_free (bufs s) l ≠ None.
Proof.
  intros [_ [Hlen Hbuf Huniq _ _] _ _ _ _] Hl Hnb Hsize Hnone.
  assert (∀ i bf, bufs s !! i = Some bf → bdev bf = 1 ∧ blockno bf ∈ in_use c) as Hall.
  { intros i bf Hi. eapply busy_in_use; [by apply Hbuf|].
    eapply (first_None _ _ _ i); [done|apply Hl; rewrite <-Hlen; by eapply lookup_lt_Some|done]. }
  assert (NoDup (b :: (blockno <$> bufs s))) as Hnd.
  { apply NoDup_cons. split.
    - intros (bf & -> & [i Hi]%list_elem_of_lookup)%list_elem_of_fmap.
      apply (Hnb i bf Hi). split; [by eapply Hall|done].
    - apply NoDup_alt. intros i j x (bf & -> & Hi)%list_lookup_fmap_Some
        (bf' & He & Hj)%list_lookup_fmap_Some.
      eapply (Huniq i j bf bf' (blockno bf)); [done|done|..];
        (split; [by eapply Hall|done]). }
  apply (size_list_to_set (C:=gset Z)) in Hnd. simpl in Hnd.
  assert (({[b]} ∪ list_to_set (blockno <$> bufs s) : gset Z) ⊆ in_use c ∪ {[b]}) as Hsub.
  { intros x [->%elem_of_singleton|Hx%elem_of_list_to_set]%elem_of_union; [set_solver|].
    apply list_elem_of_fmap in Hx as (bf & -> & [i Hi]%list_elem_of_lookup).
    apply elem_of_union_l. by eapply Hall. }
  apply subseteq_size in Hsub. rewrite Hnd, length_fmap, Hlen in Hsub. lia.
Qed.

(** Locking a cached block. *)
Lemma bget_cached s c b i bf :
  bio_repr s c → (b ∉@{gset Z} map_img (c_held c)) → bufs s !! i = Some bf → holds_block b bf →
  returns (_ ← setb i (λ b, b <| refcnt := u32 (refcnt b + 1) |>); _ ← acquiresleep i; mret i) s
    (λ h s', h = i ∧ c_held c !! i = None ∧ (∃ bf', bufs s' !! i = Some bf' ∧ flags bf' = flags bf) ∧
       bio_repr s' (c <| c_held := <[i:=b]> (c_held c) |>)).
Proof.
  intros Hr Hnh Hbf [Hd Hb]. pose proof Hr as [Hring Hc Hdk Htr Hsz Hn].
  destruct (co_buf _ _ _ Hc i bf Hbf) as [(? & _)|(_ & Hrange & Hv & Hf & Hl)]; [congruence|].
  destruct Hl as [(Hl & Hrc & Hh & _)|(_ & _ & Hh)].
  2:{ exfalso. apply Hnh. rewrite <-Hb. by eapply elem_of_map_img_2. }
  unfold acquiresleep. bgo. eapply returns_getb; [by simpl; rewrite list_lookup_alter_eq, Hbf|].
  simpl. rewrite Hl. bgo. simpl. rewrite list_alter_alter_eq. split_and!; [done|done| |].
  { rewrite list_lookup_alter_eq, Hbf. simpl. by eexists. }
  constructor; simpl; try done. eapply (content_update _ _ c _ i _ bf b); [done|done| |done| | |].
  - split_and!; [done|done|]. intros h' Hne. simpl. by rewrite lookup_insert_ne.
  - right. unfold locked; simpl. rewrite Hd, Hb, Hrc in *. split_and!; [done|lia|lia|done|done|].
    right. by rewrite lookup_insert_eq.
  - by eapply held_others.
  - intros _ Hne. congruence.
Qed.

(** Recycling a free buffer and reading the block into it. *)
Lemma bread_recycle s c b i bf :
  bio_repr s c → 0 ≤ b < c_size c → bufs s !! i = Some bf → is_free bf = true →
  (∀ j b', bufs s !! j = Some b' → ¬ holds_block b b') →
  returns (i ← (_ ← setb i (λ x, x <| bdev := 1 |> <| blockno := b |> <| flags := 0 |> <| refcnt := 1 |>);
                _ ← acquiresleep i; mret i);
           x ← getb i; _ ← when (Z.land (flags x) B_VALID =? 0) (iderw i); mret i) s
    (λ h s', c_held c !! h = None ∧ bio_repr s' (c <| c_held := <[h:=b]> (c_held c) |>)).
Proof.
  intros Hr Hrange Hbf Hfree Hnb. pose proof Hr as [Hring Hc Hdk Htr Hsz Hn].
  unfold is_free in Hfree. bsimpl.
  assert (lock bf = None ∧ c_held c !! i = None ∧ (bdev bf = 1 → blockno bf ≠ b →
    c_view c (blockno bf) = c_disk c (blockno bf) ∧ blockno bf ∉ c_pinned c)) as (Hl & Hh & Hold).
  { destruct (co_buf _ _ _ Hc i bf Hbf) as [(? & _ & ? & _ & ?)|(Hd & _ & Hv & Hf & Hl)].
    { split_and!; [done|done|]. intros. congruence. }
    destruct Hl as [(? & _ & ? & Hv')|(_ & Hrc & _)]; [|congruence]. split_and!; [done|done|].
    intros _ _. destruct Hf as [[Hf Hp]|[Hf Hp]].
    - by rewrite <-Hv, Hv'.
    - by rewrite Hf in H0. }
  destruct (co_rest _ _ _ Hc b Hnb) as [Hview Hpin].
  unfold acquiresleep. bgo. eapply returns_getb; [by simpl; rewrite list_lookup_alter_eq, Hbf|].
  simpl. rewrite Hl. bgo. eapply returns_getb; [by simpl; rewrite !list_lookup_alter_eq, Hbf|].
  simpl. change (Z.land 0 B_VALID =? 0) with true. unfold iderw, holdingsleep. bgo.
  eapply returns_getb; [by simpl; rewrite !list_lookup_alter_eq, Hbf|]. simpl. bgo.
  rewrite bool_decide_eq_true_2 by done. simpl. bgo.
  eapply returns_getb; [by simpl; rewrite !list_lookup_alter_eq, Hbf|]. simpl. bgo. simpl.
  rewrite (proj2 (Z.leb_gt _ _)) by lia. bgo. simpl. rewrite !list_alter_alter_eq. split; [done|].
  constructor; simpl; try done. eapply (content_update _ _ c _ i _ bf b); [done|done| |done| | |].
  - split_and!; [done|done|]. intros h' Hne. simpl. by rewrite lookup_insert_ne.
  - right. unfold locked; simpl. rewrite lookup_insert_eq, Hview, Hdk. split_and!; [done|lia|lia|done|by left|].
    by right.
  - eauto.
  - done.
Qed.

Lemma bio_bread_ok s c b :
  bio_repr s c → b ∉@{gset Z} map_img (c_held c) → 0 ≤ b < c_size c →
  (size (in_use c ∪ {[b]}) ≤ c_bufs c)%nat →
  returns (bread 1 b) s (λ h s',
    c_held c !! h = None ∧ bio_repr s' (c <| c_held := <[h:=b]> (c_held c) |>)).
Proof.
  intros Hr Hnh Hrange Hroom. pose proof Hr as [(order & Hring) Hc _ _ _ Hn].
  pose proof (co_len _ _ _ Hc) as Hlen. unfold bread, bget.
  apply returns_bind. unfold returns at 1.
  rewrite (ring_next _ _ order) by done. destruct (first _ _ order) as [i|] eqn:Hfirst.
  - apply first_Some in Hfirst as (bf & Hbf & Hb & _). unfold is_block_of in Hb. bsimpl.
    assert (holds_block b bf) as Hhb by done.
    destruct (returns_ok _ _ _ (bget_cached s c b i bf Hr Hnh Hbf Hhb))
      as (h & s' & -> & -> & Hh & (bf' & Hbf' & Hf) & Hr').
    eapply returns_bind, returns_getb; [exact Hbf'|]. rewrite Hf.
    assert ((Z.land (flags bf) B_VALID =? 0) = false) as ->; [|by bgo].
    destruct (co_buf _ _ _ Hc i bf Hbf) as [(? & _)|(_ & _ & _ & [[-> _]|[-> _]] & _)]; [congruence|done..].
  - assert (∀ j b', bufs s !! j = Some b' → ¬ holds_block b b') as Hnb.
    { intros j b' Hj [H1 H2]. pose proof (first_None _ _ _ j b' Hfirst) as Hf.
      unfold is_block_of in Hf. rewrite H1, H2, !Z.eqb_refl in Hf. discriminate Hf; [|done].
      destruct Hring as [_ ->]. apply elem_of_seq. apply lookup_lt_Some in Hj. lia. }
    rewrite (ring_prev _ _ order) by done.
    destruct (first is_free _ (reverse order)) as [i|] eqn:Hfree.
    + apply first_Some in Hfree as (bf & Hbf & Hfb & _).
      exact (returns_bind_inv _ _ _ _ (bread_recycle s c b i bf Hr Hrange Hbf Hfb Hnb)).
    + exfalso. eapply (free_exists s c b (reverse order)); [done| |done|lia|done].
      intros i Hi. rewrite elem_of_reverse. destruct Hring as [_ ->]. apply elem_of_seq. lia.
Qed.

(** The buffer cache implements the interface. *)
#[export] Instance bio_cache : BlockCache bst := {
  bc_bread := bread 1;
  bc_bwrite := bwrite;
  bc_brelse := brelse;
  bc_data h := b ← getb h; mret (bdata b);
  bc_store h d := setb h (λ b, b <| bdata := d |>);
  bc_blockno h := b ← getb h; mret (blockno b);
  bc_pin h := setb h (λ b, b <| flags := Z.lor (flags b) B_DIRTY |>);
  repr := bio_repr;
  bc_bread_ok := bio_bread_ok;
  bc_bwrite_ok := bio_bwrite_ok;
  bc_brelse_ok := bio_brelse_ok;
  bc_data_ok := bio_data_ok;
  bc_store_ok := bio_store_ok;
  bc_blockno_ok := bio_blockno_ok;
  bc_pin_ok := bio_pin_ok
}.

(** ** Initialisation *)

(** The cache as the program loader leaves it: zeros. *)
Definition bcache_zero (me : nat) (d : Z → blk) (n : Z) : bst :=
  mkbst (replicate NBUF (mkbuf 0 0 0 None 0 zeros)) (λ _, 0%nat) (λ _, 0%nat) me d n [].

Definition cview_init (d : Z → blk) (n : Z) : cview := mkcv d d [] ∅ ∅ n NBUF.

Lemma binit_one_ok i s order :
  linked (next s) (prev s) (head :: order ++ [head]) → head ∉ order → NoDup order →
  i ∉ order → i ≠ head →
  returns (binit_one i) s (λ _ s',
    linked (next s') (prev s') (head :: (i :: order) ++ [head]) ∧
    s' = s <| bufs := alter (λ b, b <| lock := None |>) i (bufs s) |>
           <| next := next s' |> <| prev := prev s' |>).
Proof.
  intros Hl Hh Hnd Hi Hih. unfold binit_one. bgo. simpl. split; [|reflexivity].
  assert (∃ z l4, order ++ [head] = z :: l4) as (z & l4 & Hz) by (destruct order; eauto).
  rewrite Hz in *. pose proof Hl as (Hnh & _). rewrite (upd_ne (next s) i head) by done. rewrite Hnh.
  apply linked_push; [done|done|..].
  - rewrite <-Hz. set_solver.
  - rewrite <-Hz, removelast_snoc. done.
  - pose proof (nodup_snoc order head Hnd Hh) as Hn. rewrite Hz in Hn.
    by apply NoDup_cons in Hn as [? _].
Qed.

Lemma binit_loop_ok l : ∀ s order,
  linked (next s) (prev s) (head :: order ++ [head]) → head ∉ order → NoDup order →
  NoDup l → head ∉ l → (∀ i, i ∈ l → i ∉ order) →
  Forall (λ b, lock b = None) (bufs s) →
  returns (binit_loop l) s (λ _ s',
    linked (next s') (prev s') (head :: (reverse l ++ order) ++ [head]) ∧
    s' = s <| next := next s' |> <| prev := prev s' |>).
Proof.
  induction l as [|i l IH]; intros s order Hl Hh Hnd Hndl Hhl Hdisj Hlock; simpl.
  { apply returns_ret. split; [done|]. by destruct s. }
  apply NoDup_cons in Hndl as [Hil Hndl]. mgo.
  assert (i ≠ head) by set_solver. assert (i ∉ order) by (apply Hdisj; left).
  eapply returns_mono; [by apply (binit_one_ok i s order)|]. intros [] s1 [Hl1 Hs1].
  assert (alter (λ b, b <| lock := None |>) i (bufs s) = bufs s) as Halt.
  { rewrite <-(list_alter_id id (bufs s) i) at 2 by done. apply list_alter_ext; [|done].
    intros b Hb. rewrite Forall_lookup in Hlock. specialize (Hlock i b Hb).
    destruct b; simpl in *; by subst. }
  rewrite Halt in Hs1. assert (bufs s1 = bufs s) as Hb1 by (by rewrite Hs1).
  eapply returns_mono; [apply (IH s1 (i :: order)); [done|set_solver|by constructor|done|set_solver| |by rewrite Hb1]|].
  { intros j Hj [->|?]%elem_of_cons; [done|]. apply (Hdisj j); [by right|done]. }
  intros [] s2 [Hl2 Hs2]. split.
  - rewrite reverse_cons, <-(app_assoc _ [i]). exact Hl2.
  - rewrite Hs2, Hs1. reflexivity.
Qed.

Lemma binit_repr s :
  bufs s = replicate NBUF (mkbuf 0 0 0 None 0 zeros) → trace s = [] →
  returns binit s (λ _ s', bio_repr s' (cview_init (disk s) (disksize s))).
Proof.
  intros Hbufs Htr. unfold binit. bgo. eapply returns_mono; [apply (binit_loop_ok _ _ [])|].
  - simpl. by rewrite !upd_eq.
  - apply not_elem_of_nil.
  - apply NoDup_nil_2.
  - apply NoDup_seq.
  - rewrite elem_of_seq. unfold head. lia.
  - intros i _. apply not_elem_of_nil.
  - simpl. rewrite Hbufs. by apply Forall_replicate.
  - intros [] s' [Hl Hs]. simpl in Hs. rewrite app_nil_r in Hl. constructor.
    + eexists. split; [exact Hl|]. by rewrite reverse_Permutation.
    + replace (bufs s') with (bufs s) by (by rewrite Hs). rewrite Hbufs. constructor.
      * by rewrite length_replicate.
      * intros i b [-> _]%lookup_replicate. left. done.
      * intros i j b b' bno [-> _]%lookup_replicate _ [? _]. done.
      * done.
      * done.
    + by rewrite Hs.
    + rewrite Hs. simpl. by rewrite Htr.
    + by rewrite Hs.
    + done.
Qed.

Lemma binit_ok me d n :
  returns binit (bcache_zero me d n) (λ _ s', bio_repr s' (cview_init d n)).
Proof. exact (binit_repr (bcache_zero me d n) eq_refl eq_refl). Qed.

(** ** Sessions

    A session starts with [binit] and uses the cache by its rules: it locks no
    block twice, keeps a buffer to spare, and saves what it has changed before
    it releases a buffer. *)
Inductive session (d0 : Z → blk) (n : Z) (me : nat) : bst → cview → Prop :=
| ss_init s :
    binit (bcache_zero me d0 n) = Ok tt s → session d0 n me s (cview_init d0 n)
| ss_read s c b h s' :
    session d0 n me s c → b ∉@{gset Z} map_img (c_held c) → 0 ≤ b < n →
    (size (in_use c ∪ {[b]}) ≤ NBUF)%nat → bread 1 b s = Ok h s' →
    session d0 n me s' (c <| c_held := <[h:=b]> (c_held c) |>)
| ss_store s c h b d :
    session d0 n me s c → c_held c !! h = Some b →
    session d0 n me (s <| bufs := alter (λ x, x <| bdata := d |>) h (bufs s) |>)
      (c <| c_view := upd (c_view c) b d |>)
| ss_pin s c h b :
    session d0 n me s c → c_held c !! h = Some b →
    session d0 n me
      (s <| bufs := alter (λ x, x <| flags := Z.lor (flags x) B_DIRTY |>) h (bufs s) |>)
      (c <| c_pinned := {[b]} ∪ c_pinned c |>)
| ss_write s c h b s' :
    session d0 n me s c → c_held c !! h = Some b → bwrite h s = Ok tt s' →
    session d0 n me s' (c <| c_disk := upd (c_disk c) b (c_view c b) |>
      <| c_trace := c_trace c ++ [(b, c_view c b)] |> <| c_pinned := c_pinned c ∖ {[b]} |>)
| ss_release s c h b s' :
    session d0 n me s c → c_held c !! h = Some b →
    (b ∈ c_pinned c ∨ c_view c b = c_disk c b) → brelse h s = Ok tt s' →
    session d0 n me s' (c <| c_held := delete h (c_held c) |>).

Lemma session_repr d0 n me s c : session d0 n me s c → bio_repr s c ∧ c_size c = n.
Proof.
  induction 1 as [s Hb|s c b h s' _ [IH Hn] Hnh Hr Hroom He|s c h b d _ [IH Hn] Hh|s c h b _ [IH Hn] Hh
    |s c h b s' _ [IH Hn] Hh He|s c h b s' _ [IH Hn] Hh Hsv He].
  - split; [|done]. exact (returns_eq _ _ _ _ _ (binit_ok me d0 n) Hb).
  - rewrite <-Hn in Hr. rewrite <-(br_bufs _ _ IH) in Hroom.
    by destruct (returns_eq _ _ _ _ _ (bio_bread_ok s c b IH Hnh Hr Hroom) He).
  - split; [|done]. apply (bio_store_ok s c h b d IH Hh).
  - split; [|done]. apply (bio_pin_ok s c h b IH Hh).
  - split; [|done]. exact (returns_eq _ _ _ _ _ (bio_bwrite_ok s c h b IH Hh) He).
  - split; [|done]. exact (returns_eq _ _ _ _ _ (bio_brelse_ok s c h b IH Hh Hsv) He).
Qed.

(** C3: the buffer cache is coherent: however blocks are read, changed, pinned,
    written, released and evicted, [bread] returns (it does not panic as long as
    fewer than NBUF blocks are in use) a buffer that holds the last contents
    stored for the block, or what the disk held, and the blocks the log pinned
    keep their contents without being written to the disk. *)
Theorem bcache_coherent (d0 : Z → blk) (n : Z) (me : nat) (s : bst) (c : cview) (b : Z) :
  session d0 n me s c → b ∉@{gset Z} map_img (c_held c) → 0 ≤ b < n →
  (size (in_use c ∪ {[b]}) ≤ NBUF)%nat →
  returns (bread 1 b) s (λ h s',
    session d0 n me s' (c <| c_held := <[h:=b]> (c_held c) |>) ∧
    (∃ bf, bufs s' !! h = Some bf ∧ blockno bf = b ∧ bdata bf = c_view c b) ∧
    ∀ b', disk s' b' = disk s b').
Proof.
  intros Hs Hnh Hr Hroom. destruct (session_repr _ _ _ _ _ Hs) as [Hrep Hn].
  pose proof (bio_bread_ok s c b Hrep Hnh) as H.
  rewrite Hn, (br_bufs _ _ Hrep) in H. destruct (returns_ok _ _ _ (H Hr Hroom)) as (h & s' & He & Hh & Hrep').
  apply (ok_returns _ _ _ _ _ He). split_and!.
  - by eapply ss_read.
  - destruct (held_buf _ _ h b Hrep') as (bf & Hbf & [_ Hb] & _ & Hv & _);
      [simpl; by rewrite lookup_insert_eq|]. by exists bf.
  - intros b'. by rewrite <-(br_disk _ _ Hrep), <-(br_disk _ _ Hrep').
Qed.

Lemma bcache_coherent_witness :
  ∃ s, session (λ _, zeros) 1000 7 s (cview_init (λ _, zeros) 1000) ∧
  returns (bread 1 3) s (λ h s',
    ∃ bf, bufs s' !! h = Some bf ∧ blockno bf = 3 ∧ bdata bf = zeros).
Proof.
  destruct (returns_ok _ _ _ (binit_ok 7 (λ _, zeros) 1000)) as ([] & s & Hs & _).
  assert (session (λ _, zeros) 1000 7 s (cview_init (λ _, zeros) 1000)) as Hss by exact (ss_init _ _ _ _ Hs).
  exists s. split; [exact Hss|].
  eapply returns_mono; [apply (bcache_coherent (λ _, zeros) 1000 7 s _ 3 Hss)|].
  - simpl. rewrite map_img_empty. apply not_elem_of_empty.
  - clear; lia.
  - unfold in_use; simpl. rewrite map_img_empty, !union_empty_l_L, size_singleton.
    clear; unfold NBUF; lia.
  - intros h s' (_ & H & _). exact H.
Defined.
