(* ===== verification/Log.v ===== *)
(** The write-ahead log (log.c) on top of the buffer cache interface: the
    operations, the contents of the on-disk header, and what a crash at any
    point of a commit or of a recovery leaves behind. *)

From S2P Require Import Prelude CString Bytes BlockCache.

Definition MAXOPBLOCKS : Z := 10.
Definition LOGSIZE : Z := 30.

(** ** The header block: the count and the block numbers, as 32-bit words *)

Fixpoint hdr_blocks (i : nat) (bl : list Z) (d : blk) : blk :=
  match bl with [] => d | b :: bl => hdr_blocks (S i) bl (put32 d (4 + 4 * i) b) end.

Definition hdr_write (bl : list Z) (d : blk) : blk :=
  hdr_blocks 0 bl (put32 d 0 (Z.of_nat (length bl))).

Definition hdr_n (d : blk) : Z := s32 (get32 d 0).
Definition hdr_block (d : blk) (i : nat) : Z := s32 (get32 d (4 + 4 * i)).

Section Log.
Context {T : Type} {BC : BlockCache T}.

(** [struct log], with the buffer cache it works on. *)
Record lst := mklog {
  cache : T;
  lstart : Z;
  lsize : Z;
  outstanding : Z;
  committing : bool;
  lh_n : Z;
  lh_block : list Z
}.

#[global] Instance lst_eta : Eta lst := λ s,
  mklog (cache s) (lstart s) (lsize s) (outstanding s) (committing s) (lh_n s) (lh_block s).

Definition lift {A} (m : M T A) : M lst A := zoom cache (λ t s, s <| cache := t |>) m.

Definition lh_get (i : Z) : M lst Z := λ s,
  match lh_block s !! Z.to_nat i with Some b => Ok b s | None => Undef "log.lh.block index" end.

Definition lh_set (i b : Z) : M lst unit := λ s,
  if decide (Z.to_nat i < length (lh_block s))%nat
  then Ok tt (s <| lh_block := <[Z.to_nat i := b]> (lh_block s) |>)
  else Undef "log.lh.block index".

Definition install_trans : M lst unit :=
  n ← gets lh_n; start ← gets lstart;
  for_ (Z.to_nat n) 0 (λ tail,
    lbuf ← lift (bc_bread (start + tail + 1));
    b ← lh_get tail;
    dbuf ← lift (bc_bread b);
    d ← lift (bc_data lbuf);
    _ ← lift (bc_store dbuf d);
    _ ← lift (bc_bwrite dbuf);
    _ ← lift (bc_brelse lbuf);
    lift (bc_brelse dbuf)).

Definition read_head : M lst unit :=
  start ← gets lstart;
  buf ← lift (bc_bread start);
  d ← lift (bc_data buf);
  _ ← modify (λ s, s <| lh_n := hdr_n d |>);
  _ ← for_ (Z.to_nat (hdr_n d)) 0 (λ i, lh_set i (hdr_block d (Z.to_nat i)));
  lift (bc_brelse buf).

Definition write_head : M lst unit :=
  start ← gets lstart;
  buf ← lift (bc_bread start);
  d ← lift (bc_data buf);
  n ← gets lh_n; bl ← gets lh_block;
  if decide (Z.to_nat n ≤ length bl)%nat then
    _ ← lift (bc_store buf (hdr_write (take (Z.to_nat n) bl) d));
    _ ← lift (bc_bwrite buf);
    lift (bc_brelse buf)
  else undef "log.lh.block index".

Definition recover_from_log : M lst unit :=
  _ ← read_head;
  _ ← install_trans;
  _ ← modify (λ s, s <| lh_n := 0 |>);
  write_head.

(** [readsb] as far as [initlog] uses it: [sb.nlog] and [sb.logstart]. *)
Definition initlog : M lst unit :=
  buf ← lift (bc_bread 1);
  d ← lift (bc_data buf);
  _ ← lift (bc_brelse buf);
  _ ← modify (λ s, s <| lstart := s32 (get32 d 16) |> <| lsize := s32 (get32 d 12) |>);
  recover_from_log.

(** [begin_op]: one round of its loop; waiting for space or a commit blocks. *)
Definition begin_op : M lst unit := λ s,
  if committing s then Block s
  else if LOGSIZE <? lh_n s + (outstanding s + 1) * MAXOPBLOCKS then Block s
  else Ok tt (s <| outstanding := outstanding s + 1 |>).

Definition write_log : M lst unit :=
  n ← gets lh_n; start ← gets lstart;
  for_ (Z.to_nat n) 0 (λ tail,
    to ← lift (bc_bread (start + tail + 1));
    b ← lh_get tail;
    from ← lift (bc_bread b);
    d ← lift (bc_data from);
    _ ← lift (bc_store to d);
    _ ← lift (bc_bwrite to);
    _ ← lift (bc_brelse from);
    lift (bc_brelse to)).

Definition commit : M lst unit :=
  n ← gets lh_n;
  when (0 <? n)
    (_ ← write_log;
     _ ← write_head;
     _ ← install_trans;
     _ ← modify (λ s, s <| lh_n := 0 |>);
     write_head).

Definition end_op : M lst unit :=
  _ ← modify (λ s, s <| outstanding := outstanding s - 1 |>);
  c ← gets committing;
  if c : bool then panic "log.committing" else
  o ← gets outstanding;
  if o =? 0 then
    _ ← modify (λ s, s <| committing := true |>);
    _ ← commit;
    modify (λ s, s <| committing := false |>)
  else skip.

(** The search loop of [log_write]: the first index below [n] that logs [b]. *)
Fixpoint absorb (b : Z) (bl : list Z) (i : Z) (n : nat) : Z :=
  match n, bl with
  | S n, x :: bl => if x =? b then i else absorb b bl (i + 1) n
  | _, _ => i
  end.

Definition log_write (b : nat) : M lst unit :=
  n ← gets lh_n; sz ← gets lsize;
  if (LOGSIZE <=? n) || (sz - 1 <=? n) then panic "too big a transaction" else
  o ← gets outstanding;
  if o <? 1 then panic "log_write outside of trans" else
  bno ← lift (bc_blockno b);
  bl ← gets lh_block;
  let i := absorb bno bl 0 (Z.to_nat n) in
  _ ← lh_set i bno;
  _ ← when (i =? n) (modify (λ s, s <| lh_n := n + 1 |>));
  lift (bc_pin b).
End Log.
Arguments lst : clear implicits.

(** ** The header round trip *)

Lemma length_hdr_blocks bl : ∀ i d, length (hdr_blocks i bl d) = length d.
Proof. induction bl as [|b bl IH]; intros i d; simpl; [done|]. by rewrite IH, length_put32. Qed.

Lemma is_block_hdr_blocks bl : ∀ i d, is_block d → is_block (hdr_blocks i bl d).
Proof. induction bl as [|b bl IH]; intros i d Hd; simpl; [done|]. by apply IH, is_block_put32. Qed.

Lemma hdr_blocks_below bl : ∀ i d off,
  (off + 4 ≤ 4 + 4 * i)%nat → get32 (hdr_blocks i bl d) off = get32 d off.
Proof.
  induction bl as [|b bl IH]; intros i d off Ho; simpl; [done|].
  rewrite IH by lia. apply get32_put32_ne. lia.
Qed.

Lemma hdr_blocks_get bl : ∀ i d j b,
  (4 + 4 * (i + length bl) ≤ length d)%nat → bl !! j = Some b → 0 ≤ b < two32 →
  get32 (hdr_blocks i bl d) (4 + 4 * (i + j)) = b.
Proof.
  induction bl as [|x bl IH]; intros i d j b Hl Hj Hb; [done|].
  cbn [hdr_blocks length] in *. destruct j as [|j]; [injection Hj as ->|].
  - rewrite hdr_blocks_below by lia. replace (i + 0)%nat with i by lia.
    apply get32_put32_eq; [lia|done].
  - replace (i + S j)%nat with (S i + j)%nat by lia.
    apply IH; [rewrite length_put32; lia|done|done].
Qed.

(** The block numbers a header block lists. *)
Definition hdr_list (d : blk) : list Z := hdr_block d <$> seq 0 (Z.to_nat (hdr_n d)).

Lemma hdr_n_write bl d :
  length d = 512%nat → (length bl ≤ 30)%nat → hdr_n (hdr_write bl d) = Z.of_nat (length bl).
Proof.
  intros Hd Hl. unfold hdr_n, hdr_write. rewrite hdr_blocks_below by lia.
  rewrite get32_put32_eq; [apply s32_small; lia|lia|unfold two32; lia].
Qed.

Lemma hdr_list_write bl d :
  length d = 512%nat → (length bl ≤ 30)%nat → Forall (λ b, 0 ≤ b < 2147483648) bl →
  hdr_list (hdr_write bl d) = bl.
Proof.
  intros Hd Hl Hb. unfold hdr_list. rewrite hdr_n_write, Nat2Z.id by done.
  apply list_eq. intros i. rewrite list_lookup_fmap.
  destruct (bl !! i) as [b|] eqn:Hi.
  - rewrite lookup_seq_lt by (by eapply lookup_lt_Some). simpl. f_equal.
    rewrite Forall_lookup in Hb. pose proof (Hb i b Hi).
    unfold hdr_block, hdr_write. rewrite (hdr_blocks_get bl 0 _ i b).
    + by apply s32_small; lia.
    + rewrite length_put32. lia.
    + done.
    + unfold two32; lia.
  - rewrite lookup_seq_ge; [done|]. apply lookup_ge_None in Hi. lia.
Qed.

Lemma is_block_hdr_write bl d : is_block d → is_block (hdr_write bl d).
Proof. intros. by apply is_block_hdr_blocks, is_block_put32. Qed.

(** ** Effects on the abstract cache *)

(** A block is changed and written through to the disk. *)
Definition c_put (b : Z) (d : blk) (c : cview) : cview :=
  c <| c_view := upd (c_view c) b d |> <| c_disk := upd (c_disk c) b d |>
    <| c_trace := c_trace c ++ [(b, d)] |> <| c_pinned := c_pinned c ∖ {[b]} |>.

(** [X] can be locked besides what is pinned. *)
Definition room (c : cview) (X : gset Z) : Prop := (size (c_pinned c ∪ X) ≤ c_bufs c)%nat.

(** A block whose buffer may be released. *)
Definition saved (c : cview) (b : Z) : Prop := b ∈ c_pinned c ∨ c_view c b = c_disk c b.

Lemma room_mono c X Y : Y ⊆ X → room c X → room c Y.
Proof.
  unfold room. intros HXY H. etrans; [|exact H]. apply subseteq_size. set_solver.
Qed.

Lemma saved_put b d c b' : saved c b' ∨ b' = b → saved (c_put b d c) b'.
Proof.
  unfold saved; simpl. intros H. destruct (decide (b' = b)) as [->|Hne].
  - right. by rewrite !upd_eq.
  - destruct H as [[H|H]|H]; [left|right|done]; [set_solver|by rewrite !upd_ne].
Qed.

(** A sequence of such writes. *)
Definition puts (w : list (Z * blk)) (c : cview) : cview := foldl (λ c x, c_put x.1 x.2 c) c w.

Lemma puts_snoc w x c : puts (w ++ [x]) c = c_put x.1 x.2 (puts w c).
Proof. unfold puts. by rewrite foldl_app. Qed.

Lemma puts_app w1 w2 c : puts (w1 ++ w2) c = puts w2 (puts w1 c).
Proof. unfold puts. by rewrite foldl_app. Qed.

Lemma puts_same w c :
  c_size (puts w c) = c_size c ∧ c_bufs (puts w c) = c_bufs c ∧
  c_trace (puts w c) = c_trace c ++ w ∧ c_pinned (puts w c) = c_pinned c ∖ list_to_set w.*1.
Proof.
  induction w as [|x w (H1 & H2 & H3 & H4)] using rev_ind; simpl.
  { rewrite app_nil_r. split_and!; [done..|set_solver]. }
  rewrite puts_snoc. simpl. rewrite H1, H2, H3, H4, fmap_app, list_to_set_app_L, <-app_assoc.
  split_and!; [done..|by destruct x|set_solver].
Qed.

Lemma puts_other w c x :
  x ∉ w.*1 → c_view (puts w c) x = c_view c x ∧ c_disk (puts w c) x = c_disk c x.
Proof.
  induction w as [|y w IH] using rev_ind; [done|]. rewrite fmap_app, puts_snoc. intros Hx.
  simpl. rewrite !upd_ne by set_solver. apply IH. set_solver.
Qed.

Lemma puts_view w c x : x ∉ w.*1 → c_view (puts w c) x = c_view c x.
Proof. intros H. by apply puts_other. Qed.

Lemma puts_at w c x d :
  NoDup w.*1 → (x, d) ∈ w → c_view (puts w c) x = d ∧ c_disk (puts w c) x = d.
Proof.
  induction w as [|y w IH] using rev_ind; [by intros _ ?%elem_of_nil|].
  rewrite fmap_app, puts_snoc. intros (Hnd & Hd & _)%NoDup_app Hx. simpl.
  apply elem_of_app in Hx as [Hx|Hx].
  - assert (x ≠ y.1).
    { intros ->. apply (Hd y.1); [|simpl; left]. apply list_elem_of_fmap. by exists (y.1, d). }
    rewrite !upd_ne by done. by apply IH.
  - apply list_elem_of_singleton in Hx. subst y. simpl. by rewrite !upd_eq.
Qed.

Lemma saved_puts w c b : saved c b → saved (puts w c) b.
Proof.
  intros Hs. induction w as [|x w IH] using rev_ind; [done|].
  rewrite puts_snoc. apply saved_put. by left.
Qed.

Lemma room_puts w c X : room c X → room (puts w c) X.
Proof.
  unfold room. destruct (puts_same w c) as (_ & -> & _ & ->). intros H. etrans; [|exact H].
  apply subseteq_size. set_solver.
Qed.

Section Effects.
Context {T : Type} {BC : BlockCache T}.
Implicit Types (s : lst T) (t : T) (c : cview).

Lemma returns_lift {A} (m : M T A) s (Q : A → lst T → Prop) :
  returns m (cache s) (λ a t, Q a (s <| cache := t |>)) → returns (lift m) s Q.
Proof. unfold returns, lift, zoom. by destruct (m (cache s)). Qed.

(** [repr] with a given set of locked buffers; none, one or two below. *)
Definition rep (t : T) (c : cview) (H : gmap nat Z) : Prop := repr t (c <| c_held := H |>).

Lemma bread1 s c b :
  rep (cache s) c ∅ → 0 ≤ b < c_size c → room c {[b]} →
  returns (lift (bc_bread b)) s (λ h s', ∃ t, s' = s <| cache := t |> ∧ rep t c {[h := b]}).
Proof.
  intros Hr Hb Hroom. apply returns_lift.
  eapply returns_mono; [apply (bc_bread_ok _ _ b Hr)|].
  - simpl. rewrite map_img_empty. apply not_elem_of_empty.
  - done.
  - unfold in_use; simpl. rewrite map_img_empty, union_empty_r_L. exact Hroom.
  - intros h t [_ Ht]. exists t. split; [done|]. exact Ht.
Qed.

Lemma bread2 s c h0 b0 b :
  rep (cache s) c {[h0 := b0]} → b ≠ b0 → 0 ≤ b < c_size c → room c {[b0; b]} →
  returns (lift (bc_bread b)) s (λ h s', h ≠ h0 ∧ ∃ t, s' = s <| cache := t |> ∧
    rep t c (<[h := b]> {[h0 := b0]})).
Proof.
  intros Hr Hne Hb Hroom. apply returns_lift.
  eapply returns_mono; [apply (bc_bread_ok _ _ b Hr)|].
  - simpl. rewrite map_img_singleton. set_solver.
  - done.
  - unfold in_use; simpl. rewrite map_img_singleton, <-union_assoc_L. exact Hroom.
  - intros h t [Hh Ht]. simpl in Hh. split.
    + intros ->. by rewrite lookup_singleton_eq in Hh.
    + exists t. split; [done|]. exact Ht.
Qed.

Lemma lift_data s c H h b (Q : blk → lst T → Prop) :
  rep (cache s) c H → H !! h = Some b → Q (c_view c b) s → returns (lift (bc_data h)) s Q.
Proof.
  intros Hr Hh HQ. apply returns_lift. eapply returns_mono; [by eapply (bc_data_ok _ _ h b Hr)|].
  intros d t [-> ->]. simpl. by destruct s.
Qed.

Lemma lift_store s c H h b d :
  rep (cache s) c H → H !! h = Some b →
  returns (lift (bc_store h d)) s (λ _ s', ∃ t, s' = s <| cache := t |> ∧
    rep t (c <| c_view := upd (c_view c) b d |>) H).
Proof.
  intros Hr Hh. apply returns_lift.
  eapply returns_mono; [by apply (bc_store_ok _ _ h b d Hr)|]. intros [] t1 H1. by exists t1.
Qed.

Lemma lift_bwrite s c H h b d :
  rep (cache s) (c <| c_view := upd (c_view c) b d |>) H → H !! h = Some b →
  returns (lift (bc_bwrite h)) s (λ _ s', ∃ t, s' = s <| cache := t |> ∧ rep t (c_put b d c) H).
Proof.
  intros Hr Hh. apply returns_lift. eapply returns_mono; [by apply (bc_bwrite_ok _ _ h b Hr)|].
  intros [] t2 H2. exists t2. split; [done|]. simpl in H2. by rewrite upd_eq in H2.
Qed.

Lemma lift_brelse s c H h b :
  rep (cache s) c H → H !! h = Some b → saved c b →
  returns (lift (bc_brelse h)) s (λ _ s', ∃ t, s' = s <| cache := t |> ∧ rep t c (delete h H)).
Proof.
  intros Hr Hh Hs. apply returns_lift.
  eapply returns_mono; [by apply (bc_brelse_ok _ _ h b Hr)|]. intros [] t Ht. by exists t.
Qed.

Lemma lift_lh_get s i b (Q : Z → lst T → Prop) :
  lh_block s !! Z.to_nat i = Some b → Q b s → returns (lh_get i) s Q.
Proof. unfold returns, lh_get. by intros ->. Qed.

(** [m] leaves the log's own fields alone and turns the cache into [c] with the
    buffers [H] locked. *)
Definition post (s : lst T) (c : cview) (H : gmap nat Z) : unit → lst T → Prop :=
  λ _ s', ∃ t, s' = s <| cache := t |> ∧ rep t c H.

(** Copying block [src] to [dst] through two locked buffers, and releasing both. *)
Lemma copy_bufs s c src dst hs hd :
  rep (cache s) c (<[hd := dst]> {[hs := src]}) → hd ≠ hs → src ≠ dst → saved c src →
  returns (d ← lift (bc_data hs);
    _ ← lift (bc_store hd d);
    _ ← lift (bc_bwrite hd);
    _ ← lift (bc_brelse hs);
    lift (bc_brelse hd)) s (post s (c_put dst (c_view c src) c) ∅).
Proof.
  intros H2 Hh Hne Hs. mgo.
  assert (<[hd := dst]> {[hs := src]} !! hs = Some src) as Hhs
    by (by rewrite lookup_insert_ne, lookup_singleton_eq).
  assert (<[hd := dst]> ({[hs := src]} : gmap nat Z) !! hd = Some dst) as Hhd
    by (by rewrite lookup_insert_eq).
  eapply lift_data; [exact H2|exact Hhs|]. mgo.
  eapply returns_mono; [apply (lift_store s c _ hd dst (c_view c src) H2 Hhd)|]. intros _ _ (t3 & -> & H3).
  mgo. eapply returns_mono; [eapply (lift_bwrite _ c _ hd dst (c_view c src)); [exact H3|exact Hhd]|]. intros _ _ (t4 & -> & H4).
  mgo. eapply returns_mono; [eapply (lift_brelse _ _ _ hs src); [exact H4|exact Hhs|apply saved_put; by left]|].
  intros _ _ (t5 & -> & H5).
  eapply returns_mono; [eapply (lift_brelse _ _ _ hd dst); [exact H5| |]|].
  - by rewrite lookup_delete_ne, lookup_insert_eq.
  - apply saved_put. by right.
  - intros [] ? (t6 & -> & H6). exists t6. split; [done|].
    assert (delete hd (delete hs (<[hd := dst]> {[hs := src]})) = (∅ : gmap nat Z)) as He; [|by rewrite He in H6].
    apply map_eq. intros k. rewrite lookup_empty, !lookup_delete, lookup_insert, lookup_singleton.
    repeat case_decide; congruence.
Qed.

(** The body of [install_trans]: log block [l] is copied to its home [b]. *)
Lemma install_body s c l i b :
  rep (cache s) c ∅ → lh_block s !! Z.to_nat i = Some b → l ≠ b →
  0 ≤ l < c_size c → 0 ≤ b < c_size c → room c {[l; b]} → saved c l →
  returns (lbuf ← lift (bc_bread l);
    b ← lh_get i;
    dbuf ← lift (bc_bread b);
    d ← lift (bc_data lbuf);
    _ ← lift (bc_store dbuf d);
    _ ← lift (bc_bwrite dbuf);
    _ ← lift (bc_brelse lbuf);
    lift (bc_brelse dbuf)) s (post s (c_put b (c_view c l) c) ∅).
Proof.
  intros Hr Hb Hlb Hl Hbr Hroom Hs. mgo.
  eapply returns_mono; [by apply (bread1 s c l); [..|eapply room_mono; [|done]; set_solver]|].
  intros h1 _ (t1 & -> & H1). mgo. eapply lift_lh_get; [done|]. mgo.
  eapply returns_mono; [by eapply (bread2 _ c h1 l b)|]. intros h2 _ (Hh & t2 & -> & H2).
  eapply returns_mono; [by eapply (copy_bufs _ c l b h1 h2)|].
  intros [] ? (t & -> & Ht). by exists t.
Qed.

(** The body of [write_log]: the cached block [b] is copied to log block [l]. *)
Lemma write_log_body s c l i b :
  rep (cache s) c ∅ → lh_block s !! Z.to_nat i = Some b → l ≠ b →
  0 ≤ l < c_size c → 0 ≤ b < c_size c → room c {[l; b]} → saved c b →
  returns (to ← lift (bc_bread l);
    b ← lh_get i;
    from ← lift (bc_bread b);
    d ← lift (bc_data from);
    _ ← lift (bc_store to d);
    _ ← lift (bc_bwrite to);
    _ ← lift (bc_brelse from);
    lift (bc_brelse to)) s (post s (c_put l (c_view c b) c) ∅).
Proof.
  intros Hr Hb Hlb Hl Hbr Hroom Hs. mgo.
  eapply returns_mono; [by apply (bread1 s c l); [..|eapply room_mono; [|done]; set_solver]|].
  intros h1 _ (t1 & -> & H1). mgo. eapply lift_lh_get; [done|]. mgo.
  eapply returns_mono; [by eapply (bread2 _ c h1 l b)|]. intros h2 _ (Hh & t2 & -> & H2).
  assert (<[h2 := b]> {[h1 := l]} = <[h1 := l]> ({[h2 := b]} : gmap nat Z)) as He.
  { by apply insert_insert_ne. }
  rewrite He in H2. eapply returns_mono; [by eapply (copy_bufs _ c b l h2 h1)|].
  intros [] ? (t & -> & Ht). by exists t.
Qed.

(** ** The loops *)

(** The in-memory header lists [bl]. *)
Definition lh_is (s : lst T) (bl : list Z) : Prop :=
  lh_n s = Z.of_nat (length bl) ∧ ∀ i b, bl !! i = Some b → lh_block s !! i = Some b.

(** The home blocks [bl] and the log area lie on the disk and apart. *)
Record placed (start : Z) (bl : list Z) (c : cview) : Prop := {
  pl_count : (length bl ≤ 30)%nat;
  pl_nodup : NoDup bl;
  pl_home : ∀ b, b ∈ bl → 0 ≤ b < c_size c ∧ b < 2147483648 ∧ ¬ (start ≤ b ≤ start + 30);
  pl_log : 0 ≤ start ∧ start + 30 < c_size c
}.

(** The writes of [install_trans] and of [write_log]. *)
Definition install_writes (start : Z) (bl : list Z) (v : Z → blk) : list (Z * blk) :=
  imap (λ i b, (b, v (start + Z.of_nat i + 1))) bl.
Definition log_writes (start : Z) (bl : list Z) (v : Z → blk) : list (Z * blk) :=
  imap (λ i b, (start + Z.of_nat i + 1, v b)) bl.

Lemma install_writes_keys start bl v : (install_writes start bl v).*1 = bl.
Proof.
  unfold install_writes. rewrite fmap_imap. apply list_eq. intros i. rewrite list_lookup_imap.
  by destruct (bl !! i).
Qed.

Lemma log_writes_keys start bl v :
  (log_writes start bl v).*1 = (λ i, start + Z.of_nat i + 1) <$> seq 0 (length bl).
Proof.
  unfold log_writes. rewrite fmap_imap. apply list_eq. intros i.
  rewrite list_lookup_imap, list_lookup_fmap. destruct (bl !! i) as [b|] eqn:Hi; simpl.
  - by rewrite lookup_seq_lt by (by eapply lookup_lt_Some).
  - rewrite lookup_seq_ge; [done|]. by apply lookup_ge_None in Hi.
Qed.

Lemma elem_of_take_in {A} (x : A) n l : x ∈ take n l → x ∈ l.
Proof. intros (i & Hi & _)%elem_of_take. by eapply list_elem_of_lookup_2. Qed.

Lemma take_imap_snoc {A B} (f : nat → A → B) l i x :
  l !! i = Some x → take (S i) (imap f l) = take i (imap f l) ++ [f i x].
Proof. intros Hi. apply take_S_r. by rewrite list_lookup_imap, Hi. Qed.

Lemma install_trans_ok s c bl :
  rep (cache s) c ∅ → lh_is s bl → placed (lstart s) bl c →
  (∀ l, lstart s < l ≤ lstart s + 30 → saved c l) →
  (∀ l b, lstart s < l ≤ lstart s + 30 → b ∈ bl → room c {[l; b]}) →
  returns install_trans s (post s (puts (install_writes (lstart s) bl (c_view c)) c) ∅).
Proof.
  intros Hr [Hn Hlh] [Hc Hnd Hhome Hlog] Hsaved Hroom. unfold install_trans. mgo. rewrite Hn, Nat2Z.id.
  set (W := install_writes (lstart s) bl (c_view c)).
  assert (length W = length bl) as HlW by apply length_imap.
  eapply returns_mono; [apply (returns_for _ _ (λ i s', ∃ t, s' = s <| cache := t |> ∧
    rep t (puts (take (Z.to_nat i) W) c) ∅))|].
  - exists (cache s). split; [by destruct s|]. exact Hr.
  - intros i s' Hi (t & -> & Ht). set (k := Z.to_nat i) in *.
    destruct (lookup_lt_is_Some_2 bl k) as [b Hb]; [lia|].
    assert (b ∈ bl) as Hbl by (by eapply list_elem_of_lookup_2).
    destruct (Hhome b Hbl) as (Hb1 & Hb2 & Hb3).
    assert (lstart s + i + 1 ∉ bl) as Hlbl.
    { intros Hin. destruct (Hhome _ Hin) as (_ & _ & H). lia. }
    assert (lstart s + i + 1 ∉ (take k W).*1) as Hout.
    { unfold W. rewrite fmap_take, install_writes_keys. by intros ?%elem_of_take_in. }
    destruct (puts_same (take k W) c) as (Hsz & _).
    eapply returns_mono; [eapply (install_body _ (puts (take k W) c) _ i b)|].
    + exact Ht.
    + by apply Hlh.
    + congruence.
    + rewrite Hsz. lia.
    + by rewrite Hsz.
    + apply room_puts, Hroom; [lia|done].
    + apply saved_puts, Hsaved. lia.
    + intros [] ? (t' & -> & Ht'). exists t'. split; [done|].
      rewrite (proj1 (puts_other _ _ _ Hout)) in Ht'.
      replace (Z.to_nat (i + 1)) with (S k) by lia. unfold W, install_writes.
      rewrite (take_imap_snoc _ bl k b Hb), puts_snoc. simpl.
      replace (Z.of_nat k) with i by lia. exact Ht'.
  - intros [] s' (t & -> & Ht). exists t. split; [done|]. rewrite take_ge in Ht; [exact Ht|lia].
Qed.

Lemma write_log_ok s c bl :
  rep (cache s) c ∅ → lh_is s bl → placed (lstart s) bl c →
  (∀ b, b ∈ bl → saved c b) →
  (∀ l b, lstart s < l ≤ lstart s + 30 → b ∈ bl → room c {[l; b]}) →
  returns write_log s (post s (puts (log_writes (lstart s) bl (c_view c)) c) ∅).
Proof.
  intros Hr [Hn Hlh] [Hc Hnd Hhome Hlog] Hsaved Hroom. unfold write_log. mgo. rewrite Hn, Nat2Z.id.
  set (W := log_writes (lstart s) bl (c_view c)).
  assert (length W = length bl) as HlW by apply length_imap.
  eapply returns_mono; [apply (returns_for _ _ (λ i s', ∃ t, s' = s <| cache := t |> ∧
    rep t (puts (take (Z.to_nat i) W) c) ∅))|].
  - exists (cache s). split; [by destruct s|]. exact Hr.
  - intros i s' Hi (t & -> & Ht). set (k := Z.to_nat i) in *.
    destruct (lookup_lt_is_Some_2 bl k) as [b Hb]; [lia|].
    assert (b ∈ bl) as Hbl by (by eapply list_elem_of_lookup_2).
    destruct (Hhome b Hbl) as (Hb1 & Hb2 & Hb3).
    assert (b ∉ (take k W).*1) as Hout.
    { rewrite fmap_take. intros Hin%elem_of_take_in. revert Hin. unfold W. rewrite log_writes_keys.
      intros (j & -> & Hj%elem_of_seq)%list_elem_of_fmap. lia. }
    destruct (puts_same (take k W) c) as (Hsz & _).
    eapply returns_mono; [eapply (write_log_body _ (puts (take k W) c) _ i b)|].
    + exact Ht.
    + by apply Hlh.
    + lia.
    + rewrite Hsz. lia.
    + by rewrite Hsz.
    + apply room_puts, Hroom; [lia|done].
    + by apply saved_puts, Hsaved.
    + intros [] ? (t' & -> & Ht'). exists t'. split; [done|].
      rewrite (proj1 (puts_other _ _ _ Hout)) in Ht'.
      replace (Z.to_nat (i + 1)) with (S k) by lia. unfold W, log_writes.
      rewrite (take_imap_snoc _ bl k b Hb), puts_snoc. simpl.
      replace (Z.of_nat k) with i by lia. exact Ht'.
  - intros [] s' (t & -> & Ht). exists t. split; [done|]. rewrite take_ge in Ht; [exact Ht|lia].
Qed.

Lemma write_head_ok s c bl :
  rep (cache s) c ∅ → lh_is s bl → 0 ≤ lstart s < c_size c → room c {[lstart s]} →
  returns write_head s (post s (c_put (lstart s) (hdr_write bl (c_view c (lstart s))) c) ∅).
Proof.
  intros Hr [Hn Hlh] Hst Hroom. unfold write_head. mgo.
  eapply returns_mono; [by apply (bread1 s c (lstart s))|]. intros h ? (t1 & -> & H1). mgo.
  eapply lift_data; [exact H1|by rewrite lookup_singleton_eq|]. mgo. simpl. rewrite Hn, Nat2Z.id.
  assert (take (length bl) (lh_block s) = bl) as Htake.
  { apply list_eq. intros i. destruct (bl !! i) as [b|] eqn:Hi.
    - rewrite lookup_take_lt by (by eapply lookup_lt_Some). by apply Hlh.
    - apply lookup_take_ge. by apply lookup_ge_None in Hi. }
  rewrite decide_True by (rewrite <-Htake at 1; rewrite length_take; lia). rewrite Htake. mgo.
  eapply returns_mono; [eapply (lift_store _ c _ h (lstart s)); [exact H1|by rewrite lookup_singleton_eq]|].
  intros [] ? (t2 & -> & H2). mgo.
  eapply returns_mono; [eapply (lift_bwrite _ c _ h (lstart s)); [exact H2|by rewrite lookup_singleton_eq]|].
  intros [] ? (t3 & -> & H3).
  eapply returns_mono; [eapply (lift_brelse _ _ _ h (lstart s));
    [exact H3|by rewrite lookup_singleton_eq|apply saved_put; by right]|].
  intros [] ? (t4 & -> & H4). exists t4. split; [done|].
  by rewrite delete_singleton_eq in H4.
Qed.

Lemma returns_lh_set s i b (Q : unit → lst T → Prop) :
  (Z.to_nat i < length (lh_block s))%nat →
  Q tt (s <| lh_block := <[Z.to_nat i := b]> (lh_block s) |>) → returns (lh_set i b) s Q.
Proof. intros Hi HQ. unfold returns, lh_set. by rewrite decide_True. Qed.

Lemma read_head_ok s c :
  rep (cache s) c ∅ → 0 ≤ lstart s < c_size c → room c {[lstart s]} → saved c (lstart s) →
  0 ≤ hdr_n (c_view c (lstart s)) ≤ 30 → length (lh_block s) = 30%nat →
  returns read_head s (λ _ s', ∃ t,
    rep t c ∅ ∧ lh_is s' (hdr_list (c_view c (lstart s))) ∧ length (lh_block s') = 30%nat ∧
    s' = s <| cache := t |> <| lh_n := lh_n s' |> <| lh_block := lh_block s' |>).
Proof.
  intros Hr Hst Hroom Hs Hn Hlen. unfold read_head. mgo.
  eapply returns_mono; [by apply (bread1 s c (lstart s))|]. intros h ? (t1 & -> & H1). mgo.
  eapply lift_data; [exact H1|by rewrite lookup_singleton_eq|]. mgo.
  set (d := c_view c (lstart s)) in *.
  eapply returns_mono; [apply (returns_for _ _ (λ i s', length (lh_block s') = 30%nat ∧
    s' = s <| cache := t1 |> <| lh_n := hdr_n d |> <| lh_block := lh_block s' |> ∧
    ∀ j, (j < Z.to_nat i)%nat → lh_block s' !! j = Some (hdr_block d j)))|].
  - simpl. split_and!; [done|done|lia].
  - intros i s' Hi (Hl & Hs' & Hj). apply returns_lh_set; [lia|]. simpl.
    split_and!; [by rewrite length_insert|by rewrite Hs'|].
    intros j Hji. destruct (decide (j = Z.to_nat i)) as [->|Hne].
    + apply list_lookup_insert_eq. lia.
    + rewrite list_lookup_insert_ne by done. apply Hj. lia.
  - intros [] s' (Hl & Hs' & Hj). rewrite Hs'. eapply returns_mono.
    { eapply (lift_brelse _ c _ h (lstart s)); [exact H1|by rewrite lookup_singleton_eq|done]. }
    intros [] ? (t & -> & Ht). exists t. rewrite delete_singleton_eq in Ht. simpl.
    split_and!; [exact Ht| |done|done]. split.
    + simpl. unfold hdr_list. rewrite length_fmap, length_seq. lia.
    + intros j b Hb. unfold hdr_list in Hb. apply list_lookup_fmap_Some in Hb as (x & -> & Hx).
      apply lookup_seq in Hx as [-> Hx]. apply Hj. simpl. lia.
Qed.
End Effects.

(** ** Crashes *)

(** The disk after the writes [w]. *)
Definition apply_writes (w : list (Z * blk)) (D : Z → blk) : Z → blk :=
  foldl (λ f x, upd f x.1 x.2) D w.

(** What recovery makes of the disk [D]. *)
Definition replay (start : Z) (D : Z → blk) : Z → blk :=
  apply_writes (install_writes start (hdr_list (D start)) D) D.

(** Blocks that are not part of the log. *)
Definition outside (start x : Z) : Prop := ¬ (start ≤ x ≤ start + 30).

(** A disk of [n] blocks whose log recovery can read. *)
Record log_ok (start n : Z) (D : Z → blk) : Prop := {
  lo_block : is_block (D start);
  lo_n : 0 ≤ hdr_n (D start) ≤ 30;
  lo_nodup : NoDup (hdr_list (D start));
  lo_home : ∀ b, b ∈ hdr_list (D start) → 0 ≤ b < n ∧ b < 2147483648 ∧ outside start b;
  lo_log : 0 ≤ start ∧ start + 30 < n
}.

Lemma puts_disk w c : c_disk (puts w c) = apply_writes w (c_disk c).
Proof.
  induction w as [|x w IH] using rev_ind; [done|].
  unfold apply_writes. rewrite puts_snoc, foldl_app. simpl. by rewrite IH.
Qed.

Lemma apply_writes_app w1 w2 D : apply_writes (w1 ++ w2) D = apply_writes w2 (apply_writes w1 D).
Proof. apply foldl_app. Qed.

(** An abstract state over a given disk, with nothing locked or pinned. *)
Definition fresh (D : Z → blk) (n : Z) (nb : nat) : cview := mkcv D D [] ∅ ∅ n nb.

Lemma apply_other w D x : x ∉ w.*1 → apply_writes w D x = D x.
Proof.
  intros H. destruct (puts_other w (fresh D 0 0) x H) as [_ He]. by rewrite puts_disk in He.
Qed.

Lemma apply_at w D x d : NoDup w.*1 → (x, d) ∈ w → apply_writes w D x = d.
Proof.
  intros Hnd H. destruct (puts_at w (fresh D 0 0) x d Hnd H) as [_ He]. by rewrite puts_disk in He.
Qed.

Lemma install_writes_at start bl v i b :
  bl !! i = Some b → (b, v (start + Z.of_nat i + 1)) ∈ install_writes start bl v.
Proof.
  intros Hi. apply list_elem_of_lookup. exists i. unfold install_writes.
  by rewrite list_lookup_imap, Hi.
Qed.

Lemma log_writes_at start bl v i b :
  bl !! i = Some b → (start + Z.of_nat i + 1, v b) ∈ log_writes start bl v.
Proof.
  intros Hi. apply list_elem_of_lookup. exists i. unfold log_writes.
  by rewrite list_lookup_imap, Hi.
Qed.

Lemma log_writes_nodup start bl v : NoDup (log_writes start bl v).*1.
Proof.
  rewrite log_writes_keys. apply NoDup_fmap_2_strong; [|apply NoDup_seq]. intros. lia.
Qed.

Lemma log_writes_key x start bl v :
  x ∈ (log_writes start bl v).*1 → ∃ i, (i < length bl)%nat ∧ x = start + Z.of_nat i + 1.
Proof.
  rewrite log_writes_keys. intros (i & -> & Hi%elem_of_seq)%list_elem_of_fmap. exists i. lia.
Qed.

(** Recovery installs the listed blocks and leaves the others. *)
Lemma replay_home start D i b :
  NoDup (hdr_list (D start)) → hdr_list (D start) !! i = Some b →
  replay start D b = D (start + Z.of_nat i + 1).
Proof.
  intros Hnd Hi. apply apply_at; [by rewrite install_writes_keys|by apply install_writes_at].
Qed.

Lemma replay_other start D x : x ∉ hdr_list (D start) → replay start D x = D x.
Proof. intros Hx. apply apply_other. by rewrite install_writes_keys. Qed.

Lemma hdr_list_empty d : hdr_n d = 0 → hdr_list d = [].
Proof. intros H. unfold hdr_list. by rewrite H. Qed.

Lemma hdr_write_nil_n d : is_block d → hdr_n (hdr_write [] d) = 0.
Proof. intros [Hl _]. rewrite hdr_n_write; [done|done|simpl; lia]. Qed.

Lemma log_ok_empty start n D :
  is_block (D start) → hdr_n (D start) = 0 → 0 ≤ start ∧ start + 30 < n → log_ok start n D.
Proof.
  intros Hb Hn Hl. constructor; try done; rewrite ?hdr_list_empty by done.
  - lia.
  - apply NoDup_nil_2.
  - by intros b ?%elem_of_nil.
Qed.

(** The disk writes of a recovery from [D]. *)
Definition recover_writes (start : Z) (D : Z → blk) : list (Z * blk) :=
  install_writes start (hdr_list (D start)) D ++ [(start, hdr_write [] (D start))].

(** After any prefix of them, recovery would still produce the same disk. *)
Lemma recover_prefix start n D k :
  log_ok start n D →
  let Dk := apply_writes (take k (recover_writes start D)) D in
  log_ok start n Dk ∧ ∀ x, outside start x → replay start Dk x = replay start D x.
Proof.
  intros Hok Dk. pose proof Hok as [Hb Hn Hnd Hhome Hlog]. set (bl := hdr_list (D start)) in *.
  assert (∀ y, ¬ outside start y → y ∉ bl) as Hout by (intros y Hy Hin; by destruct (Hhome y Hin) as (_ & _ & ?)).
  destruct (decide (k ≤ length bl)%nat) as [Hk|Hk].
  - assert (Dk = apply_writes (take k (install_writes start bl D)) D) as HDk.
    { unfold Dk, recover_writes. rewrite take_app_le; [done|]. unfold install_writes.
      by rewrite length_imap. }
    assert (∀ y, ¬ outside start y → Dk y = D y) as Hlogs.
    { intros y Hy. rewrite HDk. apply apply_other. rewrite fmap_take, install_writes_keys.
      intros ?%elem_of_take_in. by apply (Hout y). }
    assert (Dk start = D start) as Hst by (apply Hlogs; unfold outside; lia).
    assert (log_ok start n Dk) as Hok' by (constructor; rewrite ?Hst; done).
    split; [done|]. intros x Hx. destruct (decide (x ∈ bl)) as [Hin|Hin].
    + apply list_elem_of_lookup in Hin as [i Hi].
      rewrite (replay_home start D i x Hnd Hi). rewrite (replay_home start Dk i x); [|by rewrite Hst..].
      apply Hlogs. assert (i < length bl)%nat by (by eapply lookup_lt_Some).
      assert (length bl ≤ 30)%nat by (unfold bl, hdr_list; rewrite length_fmap, length_seq; lia).
      unfold outside; lia.
    + rewrite !replay_other by (by rewrite ?Hst). rewrite HDk. apply apply_other.
      rewrite fmap_take, install_writes_keys. by intros ?%elem_of_take_in.
  - assert (Dk = upd (replay start D) start (hdr_write [] (D start))) as HDk.
    { unfold Dk, recover_writes. rewrite take_ge, apply_writes_app; [done|].
      rewrite length_app. unfold install_writes. rewrite length_imap. simpl. fold bl. lia. }
    assert (Dk start = hdr_write [] (D start)) as Hst by (rewrite HDk; apply upd_eq).
    assert (hdr_n (Dk start) = 0) as Hn0 by (rewrite Hst; by apply hdr_write_nil_n).
    split.
    + apply log_ok_empty; [rewrite Hst; by apply is_block_hdr_write|done|done].
    + intros x Hx. rewrite replay_other by (rewrite hdr_list_empty; [apply not_elem_of_nil|done]).
      rewrite HDk. apply upd_ne. intros ->. apply Hx. lia.
Qed.

(** The disk writes of a commit of the blocks [bl] with contents [v]. *)
Definition home_writes (bl : list Z) (v : Z → blk) : list (Z * blk) := (λ b, (b, v b)) <$> bl.

Definition commit_writes (start : Z) (bl : list Z) (v D : Z → blk) : list (Z * blk) :=
  log_writes start bl v ++ [(start, hdr_write bl (D start))] ++
  home_writes bl v ++ [(start, hdr_write [] (hdr_write bl (D start)))].

Lemma home_writes_keys bl v : (home_writes bl v).*1 = bl.
Proof. unfold home_writes. rewrite <-list_fmap_compose. apply list_fmap_id. Qed.

Section Commit.
Context (start n : Z) (bl : list Z) (v D : Z → blk).
Hypothesis Hb : is_block (D start).
Hypothesis Hn : hdr_n (D start) = 0.
Hypothesis Hcount : (length bl ≤ 30)%nat.
Hypothesis Hnd : NoDup bl.
Hypothesis Hhome : ∀ b, b ∈ bl → 0 ≤ b < n ∧ b < 2147483648 ∧ outside start b.
Hypothesis Hlog : 0 ≤ start ∧ start + 30 < n.
Hypothesis Hclean : ∀ x, outside start x → x ∉ bl → v x = D x.

Lemma log_block_notin i : (i < length bl)%nat → start + Z.of_nat i + 1 ∉ bl.
Proof. intros Hi Hin. destruct (Hhome _ Hin) as (_ & _ & H). unfold outside in H. lia. Qed.

Lemma start_notin : start ∉ bl.
Proof. intros Hin. destruct (Hhome _ Hin) as (_ & _ & H). unfold outside in H. lia. Qed.

(** Before the header is written the old contents are recovered. *)
Lemma commit_before k :
  (k ≤ length bl)%nat →
  let Dk := apply_writes (take k (commit_writes start bl v D)) D in
  log_ok start n Dk ∧ ∀ x, outside start x → replay start Dk x = D x.
Proof.
  intros Hk Dk.
  assert (Dk = apply_writes (take k (log_writes start bl v)) D) as HDk.
  { unfold Dk, commit_writes. rewrite take_app_le; [done|]. unfold log_writes. by rewrite length_imap. }
  assert (∀ y, outside start y ∨ y = start → Dk y = D y) as Hsame.
  { intros y Hy. rewrite HDk. apply apply_other. rewrite fmap_take.
    intros (i & Hi & ->)%elem_of_take_in%log_writes_key. unfold outside in Hy. lia. }
  assert (Dk start = D start) as Hst by (apply Hsame; by right).
  split.
  - apply log_ok_empty; by rewrite ?Hst.
  - intros x Hx. rewrite replay_other; [apply Hsame; by left|].
    rewrite Hst, hdr_list_empty by done. apply not_elem_of_nil.
Qed.

(** The disk once the header is written, with any of the home blocks installed. *)
Lemma commit_header w2 :
  (∀ b d, (b, d) ∈ w2 → b ∈ bl ∧ d = v b) →
  let D3 := apply_writes w2 (upd (apply_writes (log_writes start bl v) D) start
              (hdr_write bl (D start))) in
  D3 start = hdr_write bl (D start) ∧
  (∀ i b, bl !! i = Some b → D3 (start + Z.of_nat i + 1) = v b) ∧
  (∀ x, outside start x → x ∉ bl → D3 x = D x).
Proof.
  intros Hw D3.
  assert (∀ y, y ∉ bl → y ∉ w2.*1) as Hout.
  { intros y Hy ([b d] & -> & Hin)%list_elem_of_fmap. by destruct (Hw b d Hin). }
  split_and!.
  - unfold D3. rewrite apply_other by (apply Hout, start_notin). apply upd_eq.
  - intros i b Hi. assert (i < length bl)%nat by (by eapply lookup_lt_Some).
    unfold D3. rewrite apply_other by (by apply Hout, log_block_notin). rewrite upd_ne by lia.
    apply apply_at; [apply log_writes_nodup|by apply log_writes_at].
  - intros x Hx Hxb. unfold D3. rewrite apply_other by (by apply Hout).
    rewrite upd_ne by (unfold outside in Hx; lia). apply apply_other.
    intros (i & Hi & ->)%log_writes_key. unfold outside in Hx. lia.
Qed.

Lemma commit_after k :
  (length bl < k)%nat →
  let Dk := apply_writes (take k (commit_writes start bl v D)) D in
  log_ok start n Dk ∧ ∀ x, outside start x → replay start Dk x = v x.
Proof.
  intros Hk Dk. destruct (is_block_hdr_write bl _ Hb) as [Hl1 _].
  assert (Forall (λ b, 0 ≤ b < 2147483648) bl) as Hrange.
  { apply Forall_forall. intros b Hin. destruct (Hhome b Hin) as (? & ? & _). lia. }
  assert (hdr_list (hdr_write bl (D start)) = bl) as Hlist by (apply hdr_list_write; [apply Hb|done|done]).
  assert (take k (commit_writes start bl v D) = log_writes start bl v ++
    [(start, hdr_write bl (D start))] ++ take (k - length bl - 1) (home_writes bl v ++
      [(start, hdr_write [] (hdr_write bl (D start)))])) as Htake.
  { unfold commit_writes. rewrite take_app_ge by (unfold log_writes; rewrite length_imap; lia).
    replace (length (log_writes start bl v)) with (length bl) by (unfold log_writes; by rewrite length_imap).
    f_equal. destruct (k - length bl)%nat as [|j] eqn:Hj; [lia|]. simpl. by rewrite Nat.sub_0_r. }
  destruct (decide (k - length bl - 1 ≤ length bl)%nat) as [Hk2|Hk2].
  - set (w2 := take (k - length bl - 1) (home_writes bl v)).
    assert (Dk = apply_writes w2 (upd (apply_writes (log_writes start bl v) D) start
              (hdr_write bl (D start)))) as HDk.
    { unfold Dk. rewrite Htake, take_app_le by (unfold home_writes; by rewrite length_fmap).
      by rewrite !apply_writes_app. }
    destruct (commit_header w2) as (H1 & H2 & H3).
    { intros b d (b' & [= -> ->] & Hin)%elem_of_take_in%list_elem_of_fmap. done. }
    rewrite <-HDk in H1, H2, H3. split.
    + constructor; rewrite ?H1, ?Hlist; try done; [by apply is_block_hdr_write|].
      rewrite hdr_n_write; [lia|apply Hb|done].
    + intros x Hx. destruct (decide (x ∈ bl)) as [Hin|Hin].
      * apply list_elem_of_lookup in Hin as [i Hi].
        rewrite (replay_home start Dk i x) by (by rewrite H1, Hlist). by apply H2.
      * rewrite replay_other by (by rewrite H1, Hlist). by rewrite H3, Hclean.
  - destruct (commit_header (home_writes bl v)) as (H1 & H2 & H3).
    { intros b d (b' & [= -> ->] & Hin)%list_elem_of_fmap. done. }
    set (D3 := apply_writes (home_writes bl v) _) in *.
    assert (Dk = upd D3 start (hdr_write [] (hdr_write bl (D start)))) as HDk.
    { unfold Dk. rewrite Htake, take_ge by (rewrite length_app; unfold home_writes; rewrite length_fmap; simpl; lia).
      by rewrite !apply_writes_app. }
    assert (Dk start = hdr_write [] (hdr_write bl (D start))) as Hst by (rewrite HDk; apply upd_eq).
    assert (is_block (hdr_write bl (D start))) by (by apply is_block_hdr_write).
    split.
    + apply log_ok_empty; [rewrite Hst; by apply is_block_hdr_write|rewrite Hst; by apply hdr_write_nil_n|done].
    + intros x Hx. rewrite replay_other by (rewrite Hst, hdr_list_empty;
        [apply not_elem_of_nil|by apply hdr_write_nil_n]).
      rewrite HDk, upd_ne by (unfold outside in Hx; lia).
      destruct (decide (x ∈ bl)) as [Hin|Hin]; [|by rewrite H3, Hclean].
      apply apply_at; [by rewrite home_writes_keys|]. apply list_elem_of_fmap. by exists x.
Qed.
End Commit.

Section Atomicity.
Context {T : Type} {BC : BlockCache T}.
Implicit Types (s : lst T) (t : T) (c : cview).

(** Ready to commit the blocks [bl]: they are pinned in the cache and listed in
    the in-memory header, every other block is as on disk, and the log on disk
    is empty. *)
Record ready (s : lst T) (c : cview) (bl : list Z) : Prop := {
  rd_rep : rep (cache s) c ∅;
  rd_lh : lh_is s bl;
  rd_placed : placed (lstart s) bl c;
  rd_pinned : c_pinned c = list_to_set bl;
  rd_clean : ∀ x, x ∉ bl → c_view c x = c_disk c x;
  rd_block : is_block (c_disk c (lstart s));
  rd_empty : hdr_n (c_disk c (lstart s)) = 0;
  rd_room : (length bl + 1 ≤ c_bufs c)%nat;
  rd_len : (length bl ≤ length (lh_block s))%nat
}.

Lemma ready_room s c bl l b : ready s c bl → b ∈ bl → room c {[l; b]}.
Proof.
  intros [_ _ [_ Hnd _ _] Hp _ _ _ Hr _] Hb. unfold room. rewrite Hp.
  assert (list_to_set bl ∪ {[l; b]} ⊆ {[l]} ∪ (list_to_set bl : gset Z)) as Hsub by set_solver.
  apply subseteq_size in Hsub. etrans; [exact Hsub|]. etrans; [apply size_union_le|].
  rewrite size_singleton, size_list_to_set by done. lia.
Qed.

Lemma ready_start s c bl : ready s c bl → (lstart s ∉ bl) ∧ room c {[lstart s]}.
Proof.
  intros Hrd. pose proof Hrd as [_ _ [_ Hnd Hhome _] Hp _ _ _ Hr _]. split.
  - intros Hin. destruct (Hhome _ Hin) as (_ & _ & H). lia.
  - unfold room. rewrite Hp. etrans; [apply size_union_le|].
    rewrite size_list_to_set, size_singleton by done. lia.
Qed.

(** The writes that [install_trans] makes in a commit. *)
Lemma commit_install start bl v D c :
  NoDup bl → (∀ b, b ∈ bl → outside start b) → (length bl ≤ 30)%nat →
  install_writes start bl (c_view (c_put start D (puts (log_writes start bl v) c))) = home_writes bl v.
Proof.
  intros Hnd Hout Hlen. unfold install_writes, home_writes. apply list_eq. intros i.
  rewrite list_lookup_imap, list_lookup_fmap. destruct (bl !! i) as [b|] eqn:Hi; simpl; [|done].
  do 2 f_equal. rewrite upd_ne by lia.
  by apply puts_at; [apply log_writes_nodup|apply log_writes_at].
Qed.

Lemma commit_ok s c bl :
  ready s c bl → bl ≠ [] →
  returns commit s (λ _ s', ∃ t, s' = s <| cache := t |> <| lh_n := 0 |> ∧
    rep t (puts (commit_writes (lstart s) bl (c_view c) (c_disk c)) c) ∅).
Proof.
  intros Hrd Hne. pose proof Hrd as [Hr Hlh Hpl Hp Hclean Hb Hn Hroom Hlen].
  destruct (ready_start _ _ _ Hrd) as [Hst Hrs].
  pose proof Hpl as [Hcnt Hnd Hhome Hlog]. unfold commit. mgo.
  assert ((0 <? lh_n s) = true) as ->.
  { destruct Hlh as [-> _]. apply Z.ltb_lt. destruct bl; [done|simpl; lia]. }
  mgo. eapply returns_mono; [apply (write_log_ok s c bl Hr Hlh Hpl)|].
  { intros b Hin. left. rewrite Hp. by apply elem_of_list_to_set. }
  { intros l b _ Hin. by eapply ready_room. }
  intros [] ? (t1 & -> & H1). set (c1 := puts (log_writes (lstart s) bl (c_view c)) c) in *.
  mgo. destruct (puts_same (log_writes (lstart s) bl (c_view c)) c) as (Hsz & _). fold c1 in Hsz.
  eapply returns_mono; [eapply (write_head_ok _ c1 bl); [exact H1|exact Hlh|simpl; rewrite Hsz; lia|by apply room_puts]|].
  intros [] ? (t2 & -> & H2). simpl in H2.
  assert (c_view c1 (lstart s) = c_disk c (lstart s)) as Hv1.
  { unfold c1. rewrite puts_view; [by apply Hclean|].
    intros (i & _ & Hi)%log_writes_key. lia. }
  rewrite Hv1 in H2. set (c2 := c_put (lstart s) _ c1) in *.
  assert (c2 = puts (log_writes (lstart s) bl (c_view c) ++ [(lstart s, hdr_write bl (c_disk c (lstart s)))]) c)
    as Hc2 by (by rewrite puts_snoc).
  mgo. eapply returns_mono; [eapply (install_trans_ok _ c2 bl); [exact H2|exact Hlh|..]|].
  { constructor; simpl; rewrite ?Hsz; done. }
  { intros l Hl. rewrite Hc2. apply saved_puts. right. apply Hclean.
    intros Hin. destruct (Hhome _ Hin) as (_ & _ & H). simpl in Hl. lia. }
  { intros l b _ Hin. rewrite Hc2. apply room_puts. by eapply ready_room. }
  intros [] ? (t3 & -> & H3). change (lstart (s <| cache := t1 |> <| cache := t2 |>)) with (lstart s) in H3.
  assert (install_writes (lstart s) bl (c_view c2) = home_writes bl (c_view c)) as HW2.
  { apply commit_install; [done| |done]. intros b Hin. by destruct (Hhome b Hin) as (_ & _ & ?). }
  rewrite HW2 in H3. mgo. set (c3 := puts (home_writes bl (c_view c)) c2) in *.
  assert (c3 = puts (log_writes (lstart s) bl (c_view c) ++ [(lstart s, hdr_write bl (c_disk c (lstart s)))]
    ++ home_writes bl (c_view c)) c) as Hc3.
  { rewrite app_assoc, puts_app, <-Hc2. reflexivity. }
  eapply returns_mono; [eapply (write_head_ok _ c3 []); [exact H3|done| |]|].
  { simpl. rewrite Hc3. destruct (puts_same (log_writes (lstart s) bl (c_view c) ++
      [(lstart s, hdr_write bl (c_disk c (lstart s)))] ++ home_writes bl (c_view c)) c) as (-> & _). lia. }
  { rewrite Hc3. by apply room_puts. }
  intros [] ? (t4 & -> & H4). exists t4. split; [done|]. simpl in H4.
  assert (c_view c3 (lstart s) = hdr_write bl (c_disk c (lstart s))) as Hv3.
  { unfold c3. rewrite puts_view by (by rewrite home_writes_keys).
    unfold c2. simpl. apply upd_eq. }
  rewrite Hv3, Hc3 in H4. unfold commit_writes. rewrite !app_assoc, puts_snoc, <-!app_assoc. exact H4.
Qed.

(** Recovery from the disk [c_disk c] with an empty cache. *)
Lemma recover_ok s D n nb :
  rep (cache s) (fresh D n nb) ∅ → log_ok (lstart s) n D → (2 ≤ nb)%nat → length (lh_block s) = 30%nat →
  returns recover_from_log s (λ _ s', ∃ t,
    rep t (puts (recover_writes (lstart s) D) (fresh D n nb)) ∅ ∧ cache s' = t ∧ lh_n s' = 0 ∧
    lstart s' = lstart s ∧ lsize s' = lsize s ∧ outstanding s' = outstanding s ∧
    committing s' = committing s ∧ length (lh_block s') = 30%nat).
Proof.
  intros Hr [Hb Hn Hnd Hhome Hlog] Hnb Hlen. unfold recover_from_log. set (c := fresh D n nb) in *.
  assert (∀ l b, room c {[l; b]}) as Hroom.
  { intros l b. unfold room. change (c_pinned c) with (∅ : gset Z). change (c_bufs c) with nb.
    rewrite union_empty_l_L. etrans; [apply size_union_le|].
    rewrite !size_singleton. lia. }
  assert (∀ l, room c {[l]}) as Hroom1 by (intros l; apply (room_mono c {[l; l]}); [set_solver|done]).
  mgo. eapply returns_mono; [apply (read_head_ok s c Hr)|]; [simpl; lia|done|by right|done|done|].
  intros [] s1 (t1 & H1 & Hlh & Hlen1 & Hs1). simpl in Hlh.
  assert (cache s1 = t1 ∧ lstart s1 = lstart s) as [Hc1 Hst1] by (by rewrite Hs1).
  mgo. eapply returns_mono; [eapply (install_trans_ok s1 c _); [by rewrite Hc1|exact Hlh|..]|].
  { rewrite Hst1. constructor; [|done|exact Hhome|done].
    unfold hdr_list. rewrite length_fmap, length_seq. lia. }
  { intros l _. by right. }
  { done. }
  intros [] ? (t2 & -> & H2). rewrite Hst1 in H2. simpl in H2. mgo.
  set (c2 := puts _ c) in *.
  assert (c_size c2 = n) as Hsz by (exact (proj1 (puts_same _ c))).
  eapply returns_mono; [eapply (write_head_ok _ c2 []); [exact H2|done| |by apply room_puts]|].
  { simpl. rewrite Hst1, Hsz. lia. }
  intros [] ? (t3 & -> & H3). simpl in H3. rewrite Hst1 in H3. exists t3.
  split; [|by rewrite Hs1 in *].
  assert (c_view c2 (lstart s) = D (lstart s)) as Hv.
  { unfold c2. rewrite puts_view; [done|]. rewrite install_writes_keys.
    intros Hin. destruct (Hhome _ Hin) as (_ & _ & H). unfold outside in H. lia. }
  rewrite Hv in H3. unfold recover_writes. rewrite puts_snoc. exact H3.
Qed.

(** ** Transactions *)

(** The blocks logged after [log_write] of [b]: absorbed if already there. *)
Definition logged (bl : list Z) (b : Z) : list Z := if decide (b ∈ bl) then bl else bl ++ [b].

Lemma absorb_spec b bl : ∀ lhb i n,
  n = length bl → (∀ j x, bl !! j = Some x → lhb !! j = Some x) →
  ∃ k, absorb b lhb i n = i + Z.of_nat k ∧
    ((b ∈ bl ∧ bl !! k = Some b) ∨ ((b ∉ bl) ∧ k = length bl)).
Proof.
  induction bl as [|x bl IH]; intros lhb i n -> Hl; simpl.
  - exists 0%nat. split; [destruct lhb; simpl; lia|]. right. split; [apply not_elem_of_nil|done].
  - pose proof (Hl 0%nat x eq_refl) as H0. destruct lhb as [|y lhb]; [done|]. simplify_eq/=.
    destruct (Z.eqb_spec x b) as [->|Hne].
    + exists 0%nat. split; [lia|]. left. split; [left|done].
    + destruct (IH lhb (i + 1) (length bl) eq_refl) as (k & -> & Hk).
      { intros j z Hj. apply (Hl (S j) z Hj). }
      exists (S k). split; [lia|]. destruct Hk as [[Hin Hk]|[Hin ->]].
      * left. split; [by right|done].
      * right. split; [set_solver|done].
Qed.

(** [log_write] lists the block once and pins it. *)
Lemma log_write_ok s c H h b bl :
  rep (cache s) c H → H !! h = Some b → lh_is s bl → (length bl < 30)%nat →
  Z.of_nat (length bl) < lsize s - 1 → 0 < outstanding s → length (lh_block s) = 30%nat →
  returns (log_write h) s (λ _ s', ∃ t,
    rep t (c <| c_pinned := {[b]} ∪ c_pinned c |>) H ∧ lh_is s' (logged bl b) ∧
    length (lh_block s') = 30%nat ∧
    s' = s <| cache := t |> <| lh_n := lh_n s' |> <| lh_block := lh_block s' |>).
Proof.
  intros Hr Hh [Hn Hlh] Hlen Hsz Hout Hlb. unfold log_write. mgo. rewrite Hn. unfold LOGSIZE.
  rewrite (proj2 (Z.leb_gt _ _)), (proj2 (Z.leb_gt _ _)) by lia. simpl. mgo.
  rewrite (proj2 (Z.ltb_ge _ _)) by lia. mgo.
  apply returns_lift. eapply returns_mono; [apply (bc_blockno_ok _ _ h b Hr Hh)|].
  intros bno t1 [-> ->]. mgo. simpl. rewrite Nat2Z.id.
  destruct (absorb_spec b bl (lh_block s) 0 _ eq_refl Hlh) as (k & -> & Hk). rewrite Z.add_0_l.
  assert (k ≤ length bl)%nat as Hkl.
  { destruct Hk as [[_ Hk]|[_ ->]]; [|done]. apply lookup_lt_Some in Hk. lia. }
  apply returns_lh_set; [simpl; lia|]. rewrite Nat2Z.id. mgo.
  assert (∀ s0 (Q : unit → lst T → Prop), cache s0 = cache s →
    (∀ t, rep t (c <| c_pinned := {[b]} ∪ c_pinned c |>) H → Q tt (s0 <| cache := t |>)) →
    returns (lift (bc_pin h)) s0 Q) as Hpin.
  { intros s0 Q Hc HQ. apply returns_lift. rewrite Hc.
    eapply returns_mono; [apply (bc_pin_ok _ _ h b Hr Hh)|]. intros [] t Ht. by apply HQ. }
  unfold logged. destruct Hk as [[Hin Hk]|[Hin ->]].
  - pose proof (lookup_lt_Some _ _ _ Hk).
    rewrite (proj2 (Z.eqb_neq _ _)) by lia. mgo. apply Hpin; [done|]. intros t Ht. exists t.
    rewrite decide_True by done. simpl. rewrite list_insert_id by (by apply Hlh).
    split_and!; [done|by split|done|done].
  - rewrite Z.eqb_refl. mgo. apply Hpin; [done|]. intros t Ht. exists t.
    rewrite decide_False by done. simpl. split_and!; [done| |by rewrite length_insert|done].
    split; simpl; [rewrite length_app; simpl; lia|]. intros i x Hi.
    destruct (decide (i = length bl)) as [->|Hne].
    + rewrite list_lookup_insert_eq by lia. rewrite lookup_app_r in Hi by lia.
      by rewrite Nat.sub_diag in Hi.
    + rewrite list_lookup_insert_ne by done. apply Hlh.
      apply lookup_app_Some in Hi as [?|[? Hi]]; [done|].
      apply lookup_lt_Some in Hi as Hi'. simpl in Hi'. lia.
Qed.

(** The way the file system changes a block: read, modify, log, release. *)
Definition log_update (b : Z) (d : blk) : M (lst T) unit :=
  bp ← lift (bc_bread b);
  _ ← lift (bc_store bp d);
  _ ← log_write bp;
  lift (bc_brelse bp).

Fixpoint log_updates (ups : list (Z * blk)) : M (lst T) unit :=
  match ups with [] => skip | (b, d) :: ups => _ ← log_update b d; log_updates ups end.

(** The log fields that a transaction in progress leaves alone. *)
Definition same_log (s s' : lst T) : Prop :=
  lstart s' = lstart s ∧ lsize s' = lsize s ∧ outstanding s' = outstanding s ∧
  committing s' = committing s ∧ length (lh_block s') = length (lh_block s).

Lemma log_update_ok s c bl b d :
  ready s c bl → length (lh_block s) = 30%nat → 0 < outstanding s →
  (length bl + 2 ≤ c_bufs c)%nat → Z.of_nat (length bl) < lsize s - 1 → (length bl < 30)%nat →
  placed (lstart s) (logged bl b) c →
  returns (log_update b d) s (λ _ s', same_log s s' ∧
    ready s' (c <| c_view := upd (c_view c) b d |> <| c_pinned := {[b]} ∪ c_pinned c |>) (logged bl b)).
Proof.
  intros Hrd Hlb Hout Hnb Hsz Hlen Hpl. pose proof Hrd as [Hr Hlh Hpl0 Hp Hclean Hb Hn Hroom _].
  assert (b ∈ logged bl b) as Hin by (unfold logged; case_decide; set_solver).
  destruct (pl_home _ _ _ Hpl b Hin) as (Hrange & Hr2 & Hout').
  unfold log_update. mgo. eapply returns_mono; [apply (bread1 s c b Hr Hrange)|].
  { unfold room. rewrite Hp. etrans; [apply size_union_le|].
    rewrite size_list_to_set, size_singleton by apply Hpl0. lia. }
  intros h ? (t1 & -> & H1). mgo.
  eapply returns_mono; [eapply (lift_store _ c _ h b d); [exact H1|by rewrite lookup_singleton_eq]|].
  intros [] ? (t2 & -> & H2). mgo.
  eapply returns_mono; [eapply (log_write_ok _ _ _ h b bl); [exact H2|by rewrite lookup_singleton_eq|done..]|].
  intros [] s3 (t3 & H3 & Hlh3 & Hlb3 & Hs3).
  eapply returns_mono; [eapply (lift_brelse _ _ _ h b); [|by rewrite lookup_singleton_eq|]|].
  { assert (cache s3 = t3) as -> by (by rewrite Hs3). exact H3. }
  { left. simpl. set_solver. }
  intros [] ? (t4 & -> & H4). rewrite delete_singleton_eq in H4.
  assert (same_log s s3) as Hsame by (unfold same_log; rewrite Hs3; simpl; by rewrite Hlb3, Hlb).
  destruct Hsame as (Hst & Hsame). split; [by split|].
  constructor; simpl; try done; rewrite ?Hst.
  - destruct Hpl. by constructor.
  - rewrite Hp. unfold logged. case_decide; set_solver.
  - intros x Hx. rewrite upd_ne by set_solver. apply Hclean.
    unfold logged in Hx. case_decide; set_solver.
  - done.
  - done.
  - unfold logged. case_decide; rewrite ?length_app; simpl; lia.
  - rewrite Hlb3. apply Hpl.
Qed.

(** The blocks a list of updates logs. *)
Definition all_logged (bl : list Z) (ups : list (Z * blk)) : list Z :=
  foldl (λ bl x, logged bl x.1) bl ups.

Lemma all_logged_incl ups : ∀ bl, bl `prefix_of` all_logged bl ups.
Proof.
  induction ups as [|x ups IH]; intros bl; simpl; [done|].
  etrans; [|apply IH]. unfold logged. case_decide; [done|by apply prefix_app_r].
Qed.

Lemma placed_prefix start bl bl' c : bl `prefix_of` bl' → placed start bl' c → placed start bl c.
Proof.
  intros [k ->] [Hc Hnd Hh Hl]. rewrite length_app in Hc. apply NoDup_app in Hnd as (Hnd & _ & _).
  constructor; [lia|done| |done]. intros b Hb. apply Hh. set_solver.
Qed.

Lemma log_updates_ok ups : ∀ s c bl,
  ready s c bl → length (lh_block s) = 30%nat → 0 < outstanding s → lsize s = 30 →
  c_bufs c = 30%nat → (length (all_logged bl ups) ≤ 28)%nat →
  placed (lstart s) (all_logged bl ups) c →
  returns (log_updates ups) s (λ _ s', same_log s s' ∧ ∃ c',
    ready s' c' (all_logged bl ups) ∧ c_disk c' = c_disk c ∧ c_trace c' = c_trace c ∧
    c_view c' = apply_writes ups (c_view c) ∧ c_size c' = c_size c ∧ c_bufs c' = c_bufs c).
Proof.
  induction ups as [|[b d] ups IH]; intros s c bl Hrd Hlb Hout Hsz Hnb Hlen Hpl; simpl.
  { apply returns_ret. split; [done|]. by exists c. }
  pose proof (all_logged_incl ups (logged bl b)) as Hpre. simpl in Hlen.
  pose proof (prefix_length _ _ Hpre) as Hl1.
  assert (length bl ≤ length (logged bl b))%nat as Hl2.
  { unfold logged. case_decide; rewrite ?length_app; lia. }
  mgo. eapply returns_mono; [apply (log_update_ok s c bl b d Hrd Hlb Hout); [lia..|]|].
  { by eapply placed_prefix. }
  intros [] s1 [(Hs1 & Hs2 & Hs3 & Hs4 & Hs5) Hrd1].
  eapply returns_mono; [apply (IH s1 _ (logged bl b) Hrd1)|]; rewrite ?Hs1, ?Hs2, ?Hs3, ?Hs5; try done.
  { destruct Hpl. by constructor. }
  intros [] s2 [(? & ? & ? & ? & ?) (c' & Hrd' & ? & ? & ? & ? & ?)].
  split; [split_and!; congruence|]. by exists c'.
Qed.

(** Whatever prefix of the writes [w] to the disk [old] survives a crash, the log can be
    read and stands, outside itself, for the disk [old] or the disk [new], and for [new]
    if all the writes were made. *)
Definition crash_ok (start n : Z) (old new : Z → blk) (w : list (Z * blk)) : Prop :=
  ∀ k, let D := apply_writes (take k w) old in
    log_ok start n D ∧
    (((k < length w)%nat ∧ ∀ x, outside start x → replay start D x = old x) ∨
     ∀ x, outside start x → replay start D x = new x).

(** Whatever prefix of the writes [w] to the disk [old] survives a crash,
    recovery from it returns and leaves, outside the log, the disk [old] or the
    disk [new], and [new] if all the writes were made. *)
Definition crash_safe (start n : Z) (old new : Z → blk) (w : list (Z * blk)) : Prop :=
  ∀ k nb s2,
    rep (cache s2) (fresh (apply_writes (take k w) old) n nb) ∅ →
    lstart s2 = start → length (lh_block s2) = 30%nat → (2 ≤ nb)%nat →
    returns recover_from_log s2 (λ _ s3, lh_n s3 = 0 ∧ ∃ c3, rep (cache s3) c3 ∅ ∧
      (((k < length w)%nat ∧ ∀ x, outside start x → c_disk c3 x = old x) ∨
       (∀ x, outside start x → c_disk c3 x = new x))).

Lemma recover_disk s D n nb :
  rep (cache s) (fresh D n nb) ∅ → log_ok (lstart s) n D → (2 ≤ nb)%nat → length (lh_block s) = 30%nat →
  returns recover_from_log s (λ _ s', lh_n s' = 0 ∧ ∃ c', rep (cache s') c' ∅ ∧
    c_trace c' = recover_writes (lstart s) D ∧
    ∀ x, outside (lstart s) x → c_disk c' x = replay (lstart s) D x).
Proof.
  intros Hr Hok Hnb Hlen. eapply returns_mono; [by apply (recover_ok s D n nb)|].
  intros [] s' (t & Ht & <- & Hn & _). split; [done|]. eexists. split; [exact Ht|]. split.
  { by destruct (puts_same (recover_writes (lstart s) D) (fresh D n nb)) as (_ & _ & -> & _). }
  intros x Hx. rewrite puts_disk. unfold recover_writes. rewrite apply_writes_app. simpl.
  rewrite upd_ne; [done|]. intros ->. unfold outside in Hx. destruct (lo_log _ _ _ Hok). lia.
Qed.

Lemma puts_clean w c : (∀ x, c_view c x = c_disk c x) → ∀ x, c_view (puts w c) x = c_disk (puts w c) x.
Proof.
  intros Hc. induction w as [|y w IH] using rev_ind; [done|]. intros x. rewrite puts_snoc. simpl. unfold upd. by case_decide.
Qed.

(** After recovery the log is ready for the first operation. *)
Lemma recover_ready s D n nb :
  rep (cache s) (fresh D n nb) ∅ → log_ok (lstart s) n D → (2 ≤ nb)%nat → length (lh_block s) = 30%nat →
  returns recover_from_log s (λ _ s', same_log s s' ∧ ∃ c', ready s' c' [] ∧ c_size c' = n ∧ c_bufs c' = nb ∧
    ∀ x, outside (lstart s) x → c_disk c' x = replay (lstart s) D x).
Proof.
  intros Hr Hok Hnb Hlen. eapply returns_mono; [by apply (recover_ok s D n nb)|].
  intros [] s' (t & Ht & <- & Hn & Hst & Hsz & Hout & Hcom & Hlb). pose proof Hok as [Hb _ _ _ Hlog].
  split; [unfold same_log; by rewrite Hlb, Hlen|]. set (w := recover_writes (lstart s) D) in *.
  destruct (puts_same w (fresh D n nb)) as (Hz & Hbufs & _ & Hpin).
  assert (Ehd : c_disk (puts w (fresh D n nb)) (lstart s) = hdr_write [] (D (lstart s))).
  { unfold w, recover_writes. rewrite puts_snoc. simpl. apply upd_eq. }
  exists (puts w (fresh D n nb)). split_and!; [|done|done|].
  - constructor; rewrite ?Hst, ?Ehd; try done.
    + constructor; [simpl; lia|apply NoDup_nil_2|by intros ? ?%elem_of_nil|by rewrite Hz].
    + rewrite Hpin. simpl. set_solver.
    + intros x _. by apply puts_clean.
    + by apply is_block_hdr_write.
    + by apply hdr_write_nil_n.
    + rewrite Hbufs. simpl. lia.
    + simpl. lia.
  - intros x Hx. rewrite puts_disk. unfold w, recover_writes. rewrite apply_writes_app. simpl. rewrite upd_ne; [done|].
    intros ->. unfold outside in Hx. lia.
Qed.

Lemma crash_ok_safe start n old new w : crash_ok start n old new w → crash_safe start n old new w.
Proof.
  intros H k nb s2 H2 Hst Hl2 Hnb. destruct (H k) as [Hok Hr].
  eapply returns_mono; [apply (recover_disk s2 _ _ _ H2); [by rewrite Hst|done|done]|].
  intros [] s3 (Hn3 & c3 & H3 & _ & Hd). split; [done|]. exists c3. split; [done|]. rewrite Hst in Hd.
  destruct Hr as [[Hk Hr]|Hr]; [left; split; [done|]|right]; intros x Hx; by rewrite Hd, Hr.
Qed.

Lemma apply_writes_ext w f g x : f x = g x → apply_writes w f x = apply_writes w g x.
Proof.
  intros H. induction w as [|y w IH] using rev_ind; [done|]. rewrite !apply_writes_app. simpl.
  unfold upd. by case_decide.
Qed.

Lemma all_logged_keys ups : ∀ bl x, x ∈ all_logged bl ups ↔ x ∈ bl ∨ x ∈ ups.*1.
Proof.
  induction ups as [|[b d] ups IH]; intros bl x; simpl; [set_solver|].
  rewrite IH. unfold logged. case_decide; set_solver.
Qed.

(** The end of a commit: an empty header, and every block as in the cache. *)
Lemma commit_final start bl v c :
  (∀ x, x ∉ bl → c_view c x = c_disk c x) →
  let w := commit_writes start bl v (c_disk c) in
  c_disk (puts w c) start = hdr_write [] (hdr_write bl (c_disk c start)) ∧
  (∀ b, b ∈ bl → b ∈ w.*1) ∧ (∀ x, c_view (puts w c) x = c_disk (puts w c) x).
Proof.
  intros Hclean w. assert (∀ b, b ∈ bl → b ∈ w.*1) as Hkeys.
  { intros b Hb. unfold w, commit_writes. rewrite !fmap_app, home_writes_keys. set_solver. }
  split_and!; [|done|].
  - unfold w, commit_writes. rewrite !app_assoc, puts_snoc. simpl. apply upd_eq.
  - intros x. destruct (decide (x ∈ w.*1)) as [Hin|Hin].
    + clear -Hin. induction w as [|y w IH] using rev_ind; [by apply not_elem_of_nil in Hin|].
      rewrite puts_snoc. simpl. destruct (decide (x = y.1)) as [->|Hne]; [by rewrite !upd_eq|].
      rewrite !upd_ne by done. apply IH. rewrite fmap_app in Hin. set_solver.
    + destruct (puts_other _ c _ Hin) as [-> ->]. apply Hclean. auto.
Qed.

(** A commit leaves nothing to commit and a log that recovers to old or new. *)
Lemma commit_atomic s c bl :
  ready s c bl →
  returns commit s (λ _ s', same_log s s' ∧ ∃ c' w, ready s' c' [] ∧
    c_trace c' = c_trace c ++ w ∧ c_size c' = c_size c ∧ c_bufs c' = c_bufs c ∧
    (∀ x, outside (lstart s) x → c_disk c' x = c_view c x) ∧
    (∀ x, x ∈ w.*1 → x ∈ bl ∨ ¬ outside (lstart s) x) ∧
    crash_ok (lstart s) (c_size c) (c_disk c) (c_view c) w).
Proof.
  intros Hrd. pose proof Hrd as [Hr Hlh Hpl Hp Hclean Hb Hn Hroom Hlen].
  pose proof Hpl as [Hcnt Hnd Hhome Hlog].
  destruct (decide (bl = [])) as [->|Hne].
  { unfold commit. mgo. rewrite (proj1 Hlh). simpl. mgo. split; [done|]. exists c, []. rewrite app_nil_r.
    split_and!; [done|done|done|done|..].
    - intros x _. symmetry. apply Hclean, not_elem_of_nil.
    - by intros x ?%elem_of_nil.
    - intros k. rewrite take_nil. split; [by apply log_ok_empty|]. right. intros x Hx.
      rewrite replay_other by (rewrite hdr_list_empty; done || apply not_elem_of_nil).
      symmetry. apply Hclean, not_elem_of_nil. }
  eapply returns_mono; [by apply (commit_ok s c bl)|]. intros [] s' (t & -> & Ht). split; [done|].
  set (w := commit_writes (lstart s) bl (c_view c) (c_disk c)) in *.
  destruct (puts_same w c) as (Hsz & Hnb' & Htr & Hpin).
  assert (length bl < length w)%nat as Hlw.
  { unfold w, commit_writes, log_writes. rewrite length_app, length_imap. simpl. lia. }
  pose proof (commit_after (lstart s) (c_size c) bl (c_view c) (c_disk c) Hb Hcnt Hnd Hhome Hlog
    (λ x _, Hclean x)) as Hafter.
  destruct (commit_final (lstart s) bl (c_view c) c) as (Hst & Hkeys & Hcl); [done|]. fold w in Hst, Hkeys, Hcl.
  assert (is_block (hdr_write bl (c_disk c (lstart s)))) as Hb1 by (by apply is_block_hdr_write).
  assert (hdr_n (c_disk (puts w c) (lstart s)) = 0) as Hn0 by (rewrite Hst; by apply hdr_write_nil_n).
  exists (puts w c), w. split_and!; [|done|done|done|..].
  - constructor; simpl; rewrite ?Hsz, ?Hnb'; try done.
    + constructor; simpl; rewrite ?Hsz; [lia|apply NoDup_nil_2|by intros ? ?%elem_of_nil|done].
    + rewrite Hpin, Hp. set_solver.
    + rewrite Hst. by apply is_block_hdr_write.
    + lia.
    + lia.
  - intros x Hx. destruct (Hafter (length w) Hlw) as [_ Hrep]. specialize (Hrep x Hx). fold w in Hrep.
    rewrite take_ge, <-puts_disk, replay_other in Hrep; [done| |done].
    rewrite hdr_list_empty by done. apply not_elem_of_nil.
  - intros x. unfold w, commit_writes. rewrite !fmap_app, home_writes_keys, !elem_of_app. unfold outside.
    intros [(i & Hi & ->)%log_writes_key|[Hx|[Hx|Hx]]]; [right; lia| |by left|];
      (apply list_elem_of_fmap in Hx as (y & -> & Hy); apply list_elem_of_singleton in Hy as ->; right; simpl; lia).
  - intros k. destruct (decide (k ≤ length bl)%nat) as [Hk|Hk].
    + destruct (commit_before (lstart s) (c_size c) bl (c_view c) (c_disk c) Hb Hn Hcnt Hlog k Hk) as [Hok Hrep].
      split; [done|]. left. split; [lia|]. done.
    + destruct (Hafter k) as [Hok Hrep]; [lia|]. split; [done|]. by right.
Qed.

(** The end of the only operation in progress commits what it logged. *)
Lemma end_op_atomic s c bl :
  ready s c bl → outstanding s = 1 → committing s = false →
  returns end_op s (λ _ s', outstanding s' = 0 ∧ committing s' = false ∧ lstart s' = lstart s ∧ lsize s' = lsize s ∧
    length (lh_block s') = length (lh_block s) ∧ ∃ c' w, ready s' c' [] ∧
    c_trace c' = c_trace c ++ w ∧ c_size c' = c_size c ∧ c_bufs c' = c_bufs c ∧
    (∀ x, outside (lstart s) x → c_disk c' x = c_view c x) ∧
    (∀ x, x ∈ w.*1 → x ∈ bl ∨ ¬ outside (lstart s) x) ∧
    crash_ok (lstart s) (c_size c) (c_disk c) (c_view c) w).
Proof.
  intros Hrd Ho Hc. unfold end_op. mgo. simpl. rewrite Hc. mgo. simpl. rewrite Ho. simpl. mgo.
  eapply returns_mono; [apply (commit_atomic _ c bl)|].
  { destruct Hrd. by constructor. }
  intros [] s2 [(Hq1 & Hq2 & Hq3 & Hq4 & Hq5) (c' & w & Hrd' & Htr & Hz & Hb & Hd & Hks & Hcs)]. simpl in *. mgo.
  split_and!; [simpl; lia|done|done|done|done|]. exists c', w. split_and!; try done. destruct Hrd'. by constructor.
Qed.

(** a transaction is atomic across crashes: [begin_op], any updates of at
    most 28 distinct blocks through [log_write], and [end_op] return with the
    updates on the disk; and if the machine stops after any number of the disk
    writes this makes, recovery at the next boot returns and leaves either none
    or all of the updates on the disk, all of them if no write was lost. *)
Theorem transaction_atomic (s : lst T) (c : cview) (ups : list (Z * blk)) :
  ready s c [] → length (lh_block s) = 30%nat → outstanding s = 0 → committing s = false →
  lsize s = 30 → c_bufs c = 30%nat → (length (all_logged [] ups) ≤ 28)%nat →
  placed (lstart s) (all_logged [] ups) c →
  returns (_ ← begin_op; _ ← log_updates ups; end_op) s (λ _ s',
    outstanding s' = 0 ∧ committing s' = false ∧ ∃ c' w,
    ready s' c' [] ∧ c_trace c' = c_trace c ++ w ∧
    (∀ x, outside (lstart s) x → c_disk c' x = apply_writes ups (c_disk c) x) ∧
    crash_safe (lstart s) (c_size c) (c_disk c) (apply_writes ups (c_disk c)) w).
Proof.
  intros Hrd Hlb Hout Hcom Hsz Hnb Hlen Hpl. pose proof Hrd as [Hr [Hn Hlh] _ _ Hclean _ _ _ _].
  assert (∀ x, apply_writes ups (c_view c) x = apply_writes ups (c_disk c) x) as Hext.
  { intros x. apply apply_writes_ext, Hclean, not_elem_of_nil. }
  mgo. unfold begin_op, returns at 1. rewrite Hcom, Hn, Hout. simpl. mgo.
  eapply returns_mono; [apply (log_updates_ok ups _ c []); simpl; try done|].
  { destruct Hrd. by constructor. }
  intros [] s1 [(Hs1 & Hs2 & Hs3 & Hs4 & Hs5) (c1 & Hrd1 & Hd1 & Ht1 & Hv1 & Hz1 & Hb1)]. simpl in *.
  eapply returns_mono; [apply (end_op_atomic _ c1 (all_logged [] ups) Hrd1); [lia|congruence]|].
  intros [] s2 (Hq1 & Hq2 & _ & _ & _ & c' & w & Hrd' & Htr & Hz & _ & Hd & _ & Hcs%crash_ok_safe).
  split_and!; [done|done|]. exists c', w. split_and!.
  - done.
  - congruence.
  - intros x Hx. rewrite Hd, Hv1 by (by rewrite Hs1). apply Hext.
  - rewrite Hs1, Hz1, Hd1, Hv1 in Hcs. intros k nb s4 H4 Hst4 Hl4 Hnb4.
    eapply returns_mono; [by apply (Hcs k nb s4)|].
    intros [] s5 (Hn5 & c5 & H5 & Hd5). split; [done|]. exists c5. split; [done|].
    destruct Hd5 as [?|Hd5]; [by left|right]. intros x Hx. rewrite Hd5 by done. apply Hext.
Qed.

(** recovery can itself be interrupted: from a disk whose log is readable,
    recovery returns with the logged blocks installed and an empty log, and after
    any prefix of its own writes the log is still readable and stands for the
    same contents, so the next recovery finishes the work. *)
Theorem recovery_idempotent (s : lst T) (D : Z → blk) (n : Z) (nb : nat) :
  rep (cache s) (fresh D n nb) ∅ → log_ok (lstart s) n D → (2 ≤ nb)%nat →
  length (lh_block s) = 30%nat →
  returns recover_from_log s (λ _ s', lh_n s' = 0 ∧ ∃ c', rep (cache s') c' ∅ ∧
    (∀ x, outside (lstart s) x → c_disk c' x = replay (lstart s) D x) ∧
    ∀ k, let Dk := apply_writes (take k (c_trace c')) D in
      log_ok (lstart s) n Dk ∧
      ∀ x, outside (lstart s) x → replay (lstart s) Dk x = replay (lstart s) D x).
Proof.
  intros Hr Hok Hnb Hlen. eapply returns_mono; [by apply (recover_disk s D n nb)|].
  intros [] s' (Hn & c' & Hc' & Htr & Hd). split; [done|]. exists c'. split_and!; [done|done|].
  intros k. rewrite Htr. by apply recover_prefix.
Qed.
(** [begin_op] admits three operations of MAXOPBLOCKS blocks into an empty log,
    but a log of LOGSIZE blocks including its header, which is what mkfs makes,
    holds one block less: [log_write] panics on the last block they may write. *)
Lemma log_reservation_short (s : lst T) (h : nat) :
  lh_n s = 0 → outstanding s = 0 → committing s = false → lsize s = LOGSIZE →
  returns (_ ← begin_op; _ ← begin_op; begin_op) s (λ _ s',
    outstanding s' = 3 ∧ ∀ s'', lsize s'' = lsize s' →
    lh_n s'' = MAXOPBLOCKS * outstanding s' - 1 →
    log_write h s'' = Panic "too big a transaction").
Proof.
  intros Hn Ho Hc Hsz. unfold begin_op, returns, mbind, M_bind, LOGSIZE, MAXOPBLOCKS; simpl.
  repeat (rewrite ?Hc, ?Hn, ?Ho; simpl). split; [done|]. intros s'' Hsz'' Hn''.
  unfold log_write, mbind, M_bind, gets. rewrite Hn'', Hsz'', Hsz. done.
Qed.
End Atomicity.
