(* ===== verification/LogBio.v ===== *)
(** The log running on the buffer cache of bio.c: instances of the theorems of
    [Log] for the implementation of the interface in [Bio]. *)

From S2P Require Import Prelude CString Bytes BlockCache Bio Log.

(** A log at block 2 on the cache [b]. *)
Definition boot_log (b : bst) : lst bst := mklog b 2 30 0 false 0 (replicate 30 0).

Definition blank : Z → blk := λ _, zeros.

Lemma boot_ready :
  ∃ b, rep b (fresh blank 1000 NBUF) ∅ ∧ ready (boot_log b) (fresh blank 1000 NBUF) [].
Proof.
  destruct (returns_ok _ _ _ (binit_ok 7 blank 1000)) as ([] & b & _ & Hb).
  exists b. assert (rep b (fresh blank 1000 NBUF) ∅) as Hr by exact Hb. split; [exact Hr|].
  constructor; try done.
  - constructor; [simpl; lia|apply NoDup_nil_2|by intros ? ?%elem_of_nil|done].
  - apply is_block_zeros.
  - unfold NBUF; simpl; lia.
  - simpl; lia.
Qed.

Lemma transaction_atomic_witness :
  ∃ b, returns (_ ← begin_op; _ ← log_updates [(50, replicate 512 7)]; end_op) (boot_log b) (λ _ s',
    ∃ c' w, ready s' c' [] ∧ c_disk c' 50 = replicate 512 7 ∧
      crash_safe 2 1000 blank (apply_writes [(50, replicate 512 7)] blank) w).
Proof.
  destruct boot_ready as (b & _ & Hrd). exists b.
  eapply returns_mono; [apply (transaction_atomic (boot_log b) _ [(50, replicate 512 7)] Hrd)|]; try done.
  - simpl; lia.
  - constructor; [simpl; lia|apply NoDup_singleton| |done].
    intros x ->%list_elem_of_singleton. simpl. lia.
  - intros [] s' (_ & _ & c' & w & Hrd' & _ & Hd & Hcs). exists c', w.
    split_and!; [exact Hrd'| |exact Hcs]. apply Hd. unfold outside; simpl; lia.
Defined.

Lemma recovery_idempotent_witness :
  ∃ b, returns recover_from_log (boot_log b) (λ _ s', lh_n s' = 0 ∧ ∃ c', rep (cache s') c' ∅ ∧
    (∀ x, outside 2 x → c_disk c' x = replay 2 blank x) ∧
    ∀ k, let Dk := apply_writes (take k (c_trace c')) blank in
      log_ok 2 1000 Dk ∧ ∀ x, outside 2 x → replay 2 Dk x = replay 2 blank x).
Proof.
  destruct boot_ready as (b & Hr & _). exists b.
  apply (recovery_idempotent (boot_log b) blank 1000 NBUF Hr).
  - apply log_ok_empty; [apply is_block_zeros|done|done].
  - unfold NBUF; lia.
  - done.
Defined.
