(* ===== verification/Fs.v ===== *)
(** The file system (fs.c): block allocation, inodes, file contents, directories
    and path names.

    The blocks are seen as the log and the buffer cache present them within
    a transaction: [blocks] is the current contents ([c_view] in [BlockCache]),
    [base] what the disk holds, [logged] the blocks given to [log_write]
    ([c_pinned]), [bheld] the blocks whose buffers are locked.  A buffer is
    named by its block number; [brelse] of a buffer that was changed but not
    logged loses the change and is treated as an error. *)

From S2P Require Import Prelude CString Bytes.

Definition NINODE : nat := 50.
Definition ROOTDEV : Z := 1.
Definition ROOTINO : Z := 1.
Definition NDIRECT : Z := 10.
Definition NINDIRECT : Z := 128.
Definition MAXFILE : Z :=
  NDIRECT + NINDIRECT + NINDIRECT * NINDIRECT + NINDIRECT * NINDIRECT * NINDIRECT.
Definition IPB : Z := 8.
Definition BPB : Z := 4096.
Definition DIRSIZ : nat := 14.
Definition NDEV : Z := 10.
Definition T_DIR : Z := 1.
Definition T_FILE : Z := 2.
Definition T_DEV : Z := 3.

Record superblock := mksb {
  sb_size : Z; sb_nblocks : Z; sb_ninodes : Z; sb_nlog : Z;
  sb_logstart : Z; sb_inodestart : Z; sb_bmapstart : Z
}.

(** [struct inode]; [ilck] is the process that holds [ip->lock]. *)
Record inode := mkinode {
  dev : Z; inum : Z; ref : Z; ilck : option nat; valid : bool;
  type : Z; major : Z; minor : Z; nlink : Z; size : Z; addrs : list Z
}.

#[export] Instance inode_eta : Eta inode := λ i,
  mkinode (dev i) (inum i) (ref i) (ilck i) (valid i) (type i) (major i) (minor i) (nlink i)
    (size i) (addrs i).

Record fsys := mkfs {
  blocks : Z → blk;
  base : Z → blk;
  logged : gset Z;
  bheld : gset Z;
  disksize : Z;
  sb : superblock;
  icache : list inode;
  me : nat;
  cwd : nat
}.

#[export] Instance fsys_eta : Eta fsys := λ s,
  mkfs (blocks s) (base s) (logged s) (bheld s) (disksize s) (sb s) (icache s) (me s) (cwd s).

(** ** Buffers *)

Definition bread (b : Z) : M fsys unit := λ s,
  if decide (b ∈ bheld s) then Block s
  else if (0 <=? b) && (b <? disksize s) then Ok tt (s <| bheld := {[b]} ∪ bheld s |>)
  else Panic "incorrect blockno".

Definition bdata (b : Z) : M fsys blk := λ s,
  if decide (b ∈ bheld s) then Ok (blocks s b) s else Undef "buffer not locked".

Definition bstore (b : Z) (d : blk) : M fsys unit := λ s,
  if decide (b ∈ bheld s) then Ok tt (s <| blocks := upd (blocks s) b d |>)
  else Undef "buffer not locked".

Definition log_write (b : Z) : M fsys unit := λ s,
  if decide (b ∈ bheld s) then Ok tt (s <| logged := {[b]} ∪ logged s |>) else Undef "buffer not locked".

Definition brelse (b : Z) : M fsys unit := λ s,
  if decide (b ∈ bheld s) then
    if decide (b ∈ logged s ∨ blocks s b = base s b) then Ok tt (s <| bheld := bheld s ∖ {[b]} |>)
    else Undef "change not logged"
  else Panic "brelse".

(** ** Blocks *)

Definition get_sb (d : blk) : superblock :=
  mksb (get32 d 0) (get32 d 4) (get32 d 8) (get32 d 12) (get32 d 16) (get32 d 20) (get32 d 24).

Definition readsb : M fsys superblock :=
  _ ← bread 1; d ← bdata 1; _ ← brelse 1; mret (get_sb d).

Definition bzero (bno : Z) : M fsys unit :=
  _ ← bread bno; _ ← bstore bno zeros; _ ← log_write bno; brelse bno.

Definition BBLOCK (b : Z) (sb : superblock) : Z := b / BPB + sb_bmapstart sb.

(** The byte and the mask of bit [bi] of a bitmap block. *)
Definition bm_byte (bi : Z) : nat := Z.to_nat (bi / 8).
Definition bm_mask (bi : Z) : Z := Z.shiftl 1 (bi mod 8).

(** The inner loop body of [balloc]. *)
Definition balloc_bit (bno b bi : Z) : M fsys (option Z) :=
  d ← bdata bno;
  if Z.land (byte d (bm_byte bi)) (bm_mask bi) =? 0 then
    _ ← bstore bno (<[bm_byte bi := Z.lor (byte d (bm_byte bi)) (bm_mask bi)]> d);
    _ ← log_write bno;
    _ ← brelse bno;
    _ ← bzero (b + bi);
    mret (Some (b + bi))
  else mret None.

(** The outer loop body, for [b = k * BPB]. *)
Definition balloc_group (sb : superblock) (k : Z) : M fsys (option Z) :=
  let b := k * BPB in
  let bno := BBLOCK b sb in
  _ ← bread bno;
  r ← for_ret (Z.to_nat (Z.min BPB (sb_size sb - b))) 0 (balloc_bit bno b);
  match r with
  | Some v => mret (Some v)
  | None => _ ← brelse bno; mret None
  end.

Definition balloc : M fsys Z :=
  sb ← gets sb;
  r ← for_ret (Z.to_nat ((sb_size sb + BPB - 1) / BPB)) 0 (balloc_group sb);
  match r with Some v => mret v | None => panic "balloc: out of blocks" end.

Definition bfree (b : Z) : M fsys unit :=
  sb ← gets sb;
  let bno := BBLOCK b sb in
  _ ← bread bno;
  d ← bdata bno;
  let bi := b mod BPB in
  if Z.land (byte d (bm_byte bi)) (bm_mask bi) =? 0 then panic "freeing free block" else
  _ ← bstore bno (<[bm_byte bi := Z.land (byte d (bm_byte bi)) (Z.lnot (bm_mask bi))]> d);
  _ ← log_write bno;
  brelse bno.

(** ** Inodes *)

Definition IBLOCK (i : Z) (sb : superblock) : Z := i / IPB + sb_inodestart sb.
Definition dinode_off (i : Z) : nat := Z.to_nat (64 * (i mod IPB)).

Definition s16 (x : Z) : Z := if x <? 32768 then x else x - 65536.

(** The fields of [struct dinode] at offset [o] of its block. *)
Definition get_addrs (d : blk) (o : nat) : list Z := (λ k, get32 d (o + 4 * k)) <$> seq 0 13.

Fixpoint put_addrs (d : blk) (o : nat) (l : list Z) : blk :=
  match l with [] => d | a :: l => put_addrs (put32 d o a) (o + 4) l end.

Definition put_dinode (d : blk) (o : nat) (ip : inode) : blk :=
  put_addrs
    (put32 (put16 (put16 (put16 (put16 d o (type ip)) (o + 2) (major ip)) (o + 4) (minor ip))
       (o + 6) (nlink ip)) (o + 8) (size ip))
    (o + 12) (addrs ip).

Definition get_dinode (d : blk) (o : nat) (ip : inode) : inode :=
  ip <| type := s16 (get16 d o) |> <| major := s16 (get16 d (o + 2)) |>
     <| minor := s16 (get16 d (o + 4)) |> <| nlink := s16 (get16 d (o + 6)) |>
     <| size := get32 d (o + 8) |> <| addrs := get_addrs d (o + 12) |>.

Definition geti (i : nat) : M fsys inode := λ s,
  match icache s !! i with Some ip => Ok ip s | None => Undef "inode pointer" end.
Definition seti (i : nat) (f : inode → inode) : M fsys unit :=
  modify (λ s, s <| icache := alter f i (icache s) |>).

(** The loop of [iget]: the entry for the inode, and the first empty slot. *)
Fixpoint iget_scan (d n : Z) (i : nat) (empty : option nat) (l : list inode) : nat + option nat :=
  match l with
  | [] => inr empty
  | ip :: l =>
      if (0 <? ref ip) && (dev ip =? d) && (inum ip =? n) then inl i
      else iget_scan d n (S i) (match empty with None => if ref ip =? 0 then Some i else None | e => e end) l
  end.

Definition iget (d n : Z) : M fsys nat :=
  l ← gets icache;
  match iget_scan d n 0 None l with
  | inl i => _ ← seti i (λ ip, ip <| ref := ref ip + 1 |>); mret i
  | inr None => panic "iget: no inodes"
  | inr (Some i) =>
      _ ← seti i (λ ip, ip <| dev := d |> <| inum := n |> <| ref := 1 |> <| valid := false |>);
      mret i
  end.

Definition iinit : M fsys unit :=
  _ ← modify (λ s, s <| icache := (λ ip, ip <| ilck := None |>) <$> icache s |>);
  b ← readsb; modify (λ s, s <| sb := b |>).

(** [memset(dip, 0, sizeof( *dip)); dip->type = type] *)
Definition new_dinode (d : blk) (o : nat) (ty : Z) : blk :=
  put16 (splice d o (replicate 64 0)) o ty.

Definition ialloc (d ty : Z) : M fsys nat :=
  sb ← gets sb;
  r ← for_ret (Z.to_nat (sb_ninodes sb - 1)) 1 (λ inum,
    let bno := IBLOCK inum sb in
    _ ← bread bno;
    b ← bdata bno;
    if s16 (get16 b (dinode_off inum)) =? 0 then
      _ ← bstore bno (new_dinode b (dinode_off inum) ty);
      _ ← log_write bno;
      _ ← brelse bno;
      i ← iget d inum;
      mret (Some i)
    else _ ← brelse bno; mret None);
  match r with Some i => mret i | None => panic "ialloc: no inodes" end.

Definition iupdate (i : nat) : M fsys unit :=
  ip ← geti i; sb ← gets sb;
  let bno := IBLOCK (inum ip) sb in
  _ ← bread bno;
  d ← bdata bno;
  _ ← bstore bno (put_dinode d (dinode_off (inum ip)) ip);
  _ ← log_write bno;
  brelse bno.

Definition idup (i : nat) : M fsys nat := _ ← seti i (λ ip, ip <| ref := ref ip + 1 |>); mret i.

Definition acquiresleep (i : nat) : M fsys unit :=
  ip ← geti i;
  match ilck ip with
  | Some _ => block
  | None => p ← gets me; seti i (λ ip, ip <| ilck := Some p |>)
  end.

Definition releasesleep (i : nat) : M fsys unit := seti i (λ ip, ip <| ilck := None |>).

Definition ilock (i : nat) : M fsys unit :=
  ip ← geti i;
  if ref ip <? 1 then panic "ilock" else
  _ ← acquiresleep i;
  ip ← geti i;
  if valid ip then skip else
  sb ← gets sb;
  let bno := IBLOCK (inum ip) sb in
  _ ← bread bno;
  d ← bdata bno;
  _ ← seti i (get_dinode d (dinode_off (inum ip)));
  _ ← brelse bno;
  _ ← seti i (λ ip, ip <| valid := true |>);
  ip ← geti i;
  if type ip =? 0 then panic "ilock: no type" else skip.

Definition iunlock (i : nat) : M fsys unit :=
  ip ← geti i; p ← gets me;
  if negb (bool_decide (ilck ip = Some p)) || (ref ip <? 1) then panic "iunlock"
  else releasesleep i.

(** ** File contents *)

(** [ip->addrs[k]], allocating a block if there is none. *)
Definition addr_slot (i k : nat) : M fsys Z :=
  ip ← geti i;
  match addrs ip !! k with
  | None => undef "ip->addrs index"
  | Some a =>
      if a =? 0 then
        b ← balloc;
        _ ← seti i (λ ip, ip <| addrs := <[k := b]> (addrs ip) |>);
        mret b
      else mret a
  end.

(** [a[k]] in the indirect block [p], allocating a block if there is none. *)
Definition ind_slot (p k : Z) : M fsys Z :=
  _ ← bread p;
  if NINDIRECT <=? k then undef "indirect block index" else
  d ← bdata p;
  let a := get32 d (Z.to_nat (4 * k)) in
  if a =? 0 then
    b ← balloc;
    d ← bdata p;
    _ ← bstore p (put32 d (Z.to_nat (4 * k)) b);
    _ ← log_write p;
    _ ← brelse p;
    mret b
  else _ ← brelse p; mret a.

Definition bmap (i : nat) (bn : Z) : M fsys Z :=
  if bn <? NDIRECT then addr_slot i (Z.to_nat bn) else
  let bn := bn - NDIRECT in
  if bn <? NINDIRECT then
    p ← addr_slot i 10; ind_slot p bn
  else
  let bn := bn - NINDIRECT in
  if bn <? NINDIRECT * NINDIRECT then
    p ← addr_slot i 11;
    p ← ind_slot p (bn / NINDIRECT);
    ind_slot p (bn mod NINDIRECT)
  else
  let bn := bn - NINDIRECT * NINDIRECT in
  if bn <? NINDIRECT * NINDIRECT * NINDIRECT then
    p ← addr_slot i 12;
    p ← ind_slot p (bn / (NINDIRECT * NINDIRECT));
    let bn := Z.land bn (NINDIRECT * NINDIRECT) in
    p ← ind_slot p (bn / NINDIRECT);
    ind_slot p (bn mod NINDIRECT)
  else panic "bmap: out of range".

(** [for(j = 0; j < NINDIRECT; j++) if(a[j]) bfree(dev, a[j])] on the locked block [p]. *)
Definition free_slots (p : Z) : M fsys unit :=
  for_ 128 0 (λ j,
    d ← bdata p;
    let a := get32 d (Z.to_nat (4 * j)) in
    when (negb (a =? 0)) (bfree a)).

(** A loop over the entries of the locked block [p] that releases it while it
    frees the subtree of an entry by [sub], then frees the entry's block. *)
Definition free_subtrees (p : Z) (sub : Z → M fsys unit) : M fsys unit :=
  for_ 128 0 (λ i,
    d ← bdata p;
    let a := get32 d (Z.to_nat (4 * i)) in
    when (negb (a =? 0))
      (_ ← brelse p;
       _ ← bread a;
       _ ← sub a;
       _ ← brelse a;
       _ ← bfree a;
       bread p)).

Definition free_tree (k : nat) (i : nat) (sub : Z → M fsys unit) : M fsys unit :=
  ip ← geti i;
  match addrs ip !! k with
  | None => undef "ip->addrs index"
  | Some a =>
      when (negb (a =? 0))
        (_ ← bread a;
         _ ← sub a;
         _ ← brelse a;
         _ ← bfree a;
         seti i (λ ip, ip <| addrs := <[k := 0]> (addrs ip) |>))
  end.

Definition itrunc (i : nat) : M fsys unit :=
  _ ← for_ 10 0 (λ k,
    ip ← geti i;
    match addrs ip !! Z.to_nat k with
    | None => undef "ip->addrs index"
    | Some a =>
        when (negb (a =? 0))
          (_ ← bfree a; seti i (λ ip, ip <| addrs := <[Z.to_nat k := 0]> (addrs ip) |>))
    end);
  _ ← free_tree 10 i free_slots;
  _ ← free_tree 11 i (λ p, free_subtrees p free_slots);
  _ ← free_tree 12 i (λ p, free_subtrees p (λ q, free_subtrees q free_slots));
  _ ← seti i (λ ip, ip <| size := 0 |>);
  iupdate i.

Definition iput (i : nat) : M fsys unit :=
  _ ← acquiresleep i;
  ip ← geti i;
  _ ← when (valid ip && (nlink ip =? 0) && (ref ip =? 1))
    (_ ← itrunc i;
     _ ← seti i (λ ip, ip <| type := 0 |>);
     _ ← iupdate i;
     seti i (λ ip, ip <| valid := false |>));
  _ ← releasesleep i;
  seti i (λ ip, ip <| ref := ref ip - 1 |>).

Definition iunlockput (i : nat) : M fsys unit := _ ← iunlock i; iput i.

(** [struct stat] *)
Record stat := mkstat { st_dev : Z; st_ino : Z; st_type : Z; st_nlink : Z; st_size : Z }.

Definition stati (i : nat) : M fsys stat :=
  ip ← geti i; mret (mkstat (dev ip) (inum ip) (type ip) (nlink ip) (size ip)).

(** The copying loops of [readi] and [writei]; every round moves at least one
    byte, so [n] rounds are enough. *)
Fixpoint readi_loop (fuel : nat) (i : nat) (off n : Z) : M fsys (list Z) :=
  if n <=? 0 then mret [] else
  match fuel with
  | O => λ _, NoFuel
  | S fuel =>
      bno ← bmap i (off / BSIZE);
      _ ← bread bno;
      let m := Z.min n (BSIZE - off mod BSIZE) in
      d ← bdata bno;
      let l := slice d (Z.to_nat (off mod BSIZE)) (Z.to_nat m) in
      _ ← brelse bno;
      r ← readi_loop fuel i (off + m) (n - m);
      mret (l ++ r)
  end.

Fixpoint writei_loop (fuel : nat) (i : nat) (off : Z) (src : list Z) : M fsys unit :=
  match src with
  | [] => skip
  | _ =>
    match fuel with
    | O => λ _, NoFuel
    | S fuel =>
        bno ← bmap i (off / BSIZE);
        _ ← bread bno;
        let m := Z.min (Z.of_nat (length src)) (BSIZE - off mod BSIZE) in
        d ← bdata bno;
        _ ← bstore bno (splice d (Z.to_nat (off mod BSIZE)) (take (Z.to_nat m) src));
        _ ← log_write bno;
        _ ← brelse bno;
        writei_loop fuel i (off + m) (drop (Z.to_nat m) src)
    end
  end.

Section Devices.
(** [devsw]: the read and write functions of the devices, or null. *)
Variable dev_read : Z → option (nat → Z → M fsys (Z * list Z)).
Variable dev_write : Z → option (nat → list Z → M fsys Z).

(** [readi]: the result and the bytes stored at [dst]. *)
Definition readi (i : nat) (off n : Z) : M fsys (Z * list Z) :=
  ip ← geti i;
  if type ip =? T_DEV then
    if (major ip <? 0) || (NDEV <=? major ip) then mret (-1, [])
    else match dev_read (major ip) with
         | None => mret (-1, [])
         | Some f => f i n
         end
  else
  if (size ip <? off) || (u32 (off + n) <? off) then mret (-1, []) else
  let n := if size ip <? off + n then size ip - off else n in
  l ← readi_loop (Z.to_nat n) i off n;
  mret (n, l).

Definition writei (i : nat) (off : Z) (src : list Z) : M fsys Z :=
  let n := Z.of_nat (length src) in
  ip ← geti i;
  if type ip =? T_DEV then
    if (major ip <? 0) || (NDEV <=? major ip) then mret (-1)
    else match dev_write (major ip) with
         | None => mret (-1)
         | Some f => f i src
         end
  else
  if (size ip <? off) || (u32 (off + n) <? off) then mret (-1) else
  if MAXFILE * BSIZE <? off + n then mret (-1) else
  _ ← writei_loop (length src) i off src;
  ip ← geti i;
  _ ← when ((0 <? n) && (size ip <? off + n))
    (_ ← seti i (λ ip, ip <| size := off + n |>); iupdate i);
  mret n.

(** ** Directories *)

(** Two C strings in one memory, for [strncmp]. *)
Definition two_strings (s t : list Z) : mem :=
  λ a, if a <? 65536 then byte s (Z.to_nat a) else byte t (Z.to_nat (a - 65536)).

Definition namecmp (s t : list Z) : Z := strncmp 0 65536 DIRSIZ (two_strings s t).

(** [strncpy(de.name, name, DIRSIZ)], where the end of [t] is its terminator. *)
Fixpoint strncpy_name (n : nat) (t : list Z) : list Z :=
  match n with
  | O => []
  | S n =>
      match t with
      | [] => replicate (S n) 0
      | x :: t => if x =? 0 then replicate (S n) 0 else x :: strncpy_name n t
      end
  end.

(** [struct dirent] as its 16 bytes. *)
Definition de_inum (de : list Z) : Z := get16 de 0.
Definition de_name (de : list Z) : list Z := drop 2 de.
Definition mk_dirent (name : list Z) (inum : Z) : list Z :=
  [u8 inum; u8 (Z.shiftr inum 8)] ++ strncpy_name DIRSIZ name.

(** The loop of [dirlookup] from [off] on; the result is the matching entry's
    offset and inode number. *)
Fixpoint dirlookup_loop (fuel : nat) (dp : nat) (name : list Z) (off : Z) : M fsys (option (Z * Z)) :=
  match fuel with
  | O => λ _, NoFuel
  | S fuel =>
      ip ← geti dp;
      if size ip <=? off then mret None else
      r ← readi dp off 16;
      if negb (r.1 =? 16) then panic "dirlookup read" else
      if de_inum r.2 =? 0 then dirlookup_loop fuel dp name (off + 16) else
      if namecmp name (de_name r.2) =? 0 then mret (Some (off, de_inum r.2))
      else dirlookup_loop fuel dp name (off + 16)
  end.

(** [dirlookup]: the inode, not locked, and the value stored in [*poff]. *)
Definition dirlookup (dp : nat) (name : list Z) : M fsys (option (nat * Z)) :=
  ip ← geti dp;
  if negb (type ip =? T_DIR) then panic "dirlookup not DIR" else
  r ← dirlookup_loop (S (Z.to_nat (size ip))) dp name 0;
  match r with
  | None => mret None
  | Some (off, n) => i ← iget (dev ip) n; mret (Some (i, off))
  end.

(** The loop of [dirlink]: the offset of the first empty entry, or the end. *)
Fixpoint dirlink_loop (fuel : nat) (dp : nat) (off : Z) : M fsys Z :=
  match fuel with
  | O => λ _, NoFuel
  | S fuel =>
      ip ← geti dp;
      if size ip <=? off then mret off else
      r ← readi dp off 16;
      if negb (r.1 =? 16) then panic "dirlink read" else
      if de_inum r.2 =? 0 then mret off else dirlink_loop fuel dp (off + 16)
  end.

Definition dirlink (dp : nat) (name : list Z) (inum : Z) : M fsys Z :=
  r ← dirlookup dp name;
  match r with
  | Some (ip, _) => _ ← iput ip; mret (-1)
  | None =>
      ip ← geti dp;
      off ← dirlink_loop (S (Z.to_nat (size ip))) dp 0;
      n ← writei dp off (mk_dirent name inum);
      if negb (n =? 16) then panic "dirlink" else mret 0
  end.

(** ** Paths *)

Definition SLASH : Z := 47.

(** [while( *path == '/') path++] and [while( *path != '/' && *path != 0) path++];
    a path is the list of its characters before the terminator. *)
Fixpoint skip_slashes (path : list Z) : list Z :=
  match path with x :: p => if x =? SLASH then skip_slashes p else path | [] => [] end.

Fixpoint span_elem (path : list Z) : list Z * list Z :=
  match path with
  | [] => ([], [])
  | x :: p => if x =? SLASH then ([], path) else let '(s, r) := span_elem p in (x :: s, r)
  end.

(** [skipelem]: the rest of the path and the element, cut off at DIRSIZ. *)
Definition skipelem (path : list Z) : option (list Z * list Z) :=
  match skip_slashes path with
  | [] => None
  | p => let '(s, r) := span_elem p in Some (skip_slashes r, take DIRSIZ s)
  end.

(** The loop of [namex]; each round consumes at least one character. *)
Fixpoint namex_loop (fuel : nat) (ip : nat) (path : list Z) (nameiparent : bool) (name : list Z) :
    M fsys (option nat * list Z) :=
  match skipelem path with
  | None =>
      if nameiparent then _ ← iput ip; mret (None, name) else mret (Some ip, name)
  | Some (path, name) =>
      match fuel with
      | O => λ _, NoFuel
      | S fuel =>
          _ ← ilock ip;
          i ← geti ip;
          if negb (type i =? T_DIR) then _ ← iunlockput ip; mret (None, name) else
          if nameiparent && bool_decide (path = []) then _ ← iunlock ip; mret (Some ip, name) else
          r ← dirlookup ip name;
          match r with
          | None => _ ← iunlockput ip; mret (None, name)
          | Some (next, _) => _ ← iunlockput ip; namex_loop fuel next path nameiparent name
          end
      end
  end.

Definition namex (path : list Z) (nameiparent : bool) : M fsys (option nat * list Z) :=
  ip ← (match path with
        | x :: _ => if x =? SLASH then iget ROOTDEV ROOTINO else c ← gets cwd; idup c
        | [] => c ← gets cwd; idup c
        end);
  namex_loop (length path) ip path nameiparent [].

Definition namei (path : list Z) : M fsys (option nat) :=
  r ← namex path false; mret r.1.

Definition nameiparent (path : list Z) : M fsys (option nat * list Z) := namex path true.
End Devices.
