(* ===== verification/FsBlocks.v ===== *)
(** Block allocation (balloc, bfree): the free-block bitmap as a set of blocks. *)

From S2P Require Import Prelude CString Bytes Fs.

(** The bit of block [b] in the bitmap. *)
Definition bit (s : fsys) (b : Z) : bool :=
  Z.testbit (byte (blocks s (BBLOCK b (sb s))) (bm_byte (b mod BPB))) ((b mod BPB) mod 8).

(** The first block after the bitmap. *)
Definition datastart (sb : superblock) : Z := sb_bmapstart sb + sb_size sb / BPB + 1.

(** Blocks that hold file data. *)
Definition is_data (s : fsys) (b : Z) : Prop := datastart (sb s) ≤ b < sb_size (sb s).

(** The file system between operations on blocks: blocks are 512 bytes, the
    blocks before the data are marked in use, the locked buffers are data blocks
    in use, and every other block is as on disk or logged. *)
Record fs_wf (s : fsys) : Prop := {
  wf_block : ∀ b, is_block (blocks s b);
  wf_bmap : 0 ≤ sb_bmapstart (sb s);
  wf_size : 0 ≤ sb_size (sb s) ≤ disksize s ∧ sb_size (sb s) < 2147483648;
  wf_start : datastart (sb s) ≤ sb_size (sb s);
  wf_meta : ∀ b, 0 ≤ b < datastart (sb s) → bit s b = true;
  wf_held : ∀ b, b ∈ bheld s → is_data s b ∧ bit s b = true;
  wf_logged : ∀ b, b ∉ bheld s → b ∈ logged s ∨ blocks s b = base s b
}.

(** ** Bits *)

Lemma mask_bit k n : 0 ≤ k → Z.testbit (bm_mask k) n = (n =? k mod 8).
Proof.
  intros Hk. unfold bm_mask. pose proof (Z.mod_pos_bound k 8 ltac:(lia)).
  rewrite Z.shiftl_1_l, Z.pow2_bits_eqb, Z.eqb_sym by lia. done.
Qed.

Lemma bm_mask_test x k : 0 ≤ k → (Z.land x (bm_mask k) =? 0) = negb (Z.testbit x (k mod 8)).
Proof.
  intros Hk. pose proof (Z.mod_pos_bound k 8 ltac:(lia)) as Hm.
  destruct (Z.testbit x (k mod 8)) eqn:Hb; simpl.
  - apply Z.eqb_neq. intros H. apply (f_equal (λ z, Z.testbit z (k mod 8))) in H.
    rewrite Z.land_spec, Hb, mask_bit, Z.eqb_refl, Z.bits_0 in H by lia. done.
  - apply Z.eqb_eq, Z.bits_inj'. intros n Hn. rewrite Z.land_spec, Z.bits_0, mask_bit by lia.
    destruct (Z.eqb_spec n (k mod 8)) as [->|]; [by rewrite Hb | apply andb_false_r].
Qed.

Lemma byte_small x : (∀ n, 8 ≤ n → Z.testbit x n = false) → 0 ≤ x → x < 256.
Proof.
  intros Hx H0. destruct (decide (x = 0)) as [->|]; [lia|].
  destruct (decide (x < 256)) as [|Hge]; [done|]. exfalso.
  assert (8 ≤ Z.log2 x) by (apply (Z.log2_le_mono 256); lia).
  pose proof (Z.bit_log2 x ltac:(lia)). rewrite Hx in *; [done|lia].
Qed.

Lemma testbit_byte x n : 0 ≤ x < 256 → 8 ≤ n → Z.testbit x n = false.
Proof.
  intros Hx Hn. destruct (decide (x = 0)) as [->|]; [apply Z.bits_0|].
  apply Z.bits_above_log2; [lia|]. apply Z.log2_lt_pow2; [lia|].
  pose proof (Z.pow_le_mono_r 2 8 n). lia.
Qed.

Lemma mask_range k : 0 ≤ k → 0 ≤ bm_mask k < 256.
Proof.
  intros Hk. unfold bm_mask. pose proof (Z.mod_pos_bound k 8 ltac:(lia)).
  rewrite Z.shiftl_1_l. split; [apply Z.pow_nonneg; lia|].
  change 256 with (2 ^ 8). apply Z.pow_lt_mono_r; lia.
Qed.

Lemma lor_byte x k : 0 ≤ x < 256 → 0 ≤ k → 0 ≤ Z.lor x (bm_mask k) < 256.
Proof.
  intros Hx Hk. pose proof (mask_range k Hk).
  assert (0 ≤ Z.lor x (bm_mask k)) by (apply Z.lor_nonneg; lia). split; [done|].
  apply byte_small; [|done]. intros n Hn. rewrite Z.lor_spec, !testbit_byte by lia. done.
Qed.

Lemma ldiff_byte x k : 0 ≤ x < 256 → 0 ≤ k → 0 ≤ Z.land x (Z.lnot (bm_mask k)) < 256.
Proof.
  intros Hx Hk. assert (0 ≤ Z.land x (Z.lnot (bm_mask k))) by (apply Z.land_nonneg; lia).
  split; [done|]. apply byte_small; [|done]. intros n Hn.
  rewrite Z.land_spec, (testbit_byte x) by lia. done.
Qed.

(** ** Buffers *)

(** The effect of [bread], a change, [log_write] and [brelse]. *)
Definition put_block (b : Z) (d : blk) (s : fsys) : fsys :=
  s <| blocks := upd (blocks s) b d |> <| logged := {[b]} ∪ logged s |>.

Lemma hold_release (b : Z) (X : gset Z) : b ∉ X → ({[b]} ∪ X) ∖ {[b]} = X.
Proof. set_solver. Qed.

Lemma returns_bread b s (Q : unit → fsys → Prop) :
  b ∉ bheld s → 0 ≤ b < disksize s → Q tt (s <| bheld := {[b]} ∪ bheld s |>) →
  returns (bread b) s Q.
Proof.
  intros Hb Hd HQ. unfold returns, bread. rewrite decide_False by done.
  by replace ((0 <=? b) && (b <? disksize s))%bool with true by (symmetry; lia).
Qed.

Lemma returns_bdata b s (Q : blk → fsys → Prop) :
  b ∈ bheld s → Q (blocks s b) s → returns (bdata b) s Q.
Proof. intros Hb HQ. unfold returns, bdata. by rewrite decide_True. Qed.

Lemma returns_bstore b d s (Q : unit → fsys → Prop) :
  b ∈ bheld s → Q tt (s <| blocks := upd (blocks s) b d |>) → returns (bstore b d) s Q.
Proof. intros Hb HQ. unfold returns, bstore. by rewrite decide_True. Qed.

Lemma returns_log_write b s (Q : unit → fsys → Prop) :
  b ∈ bheld s → Q tt (s <| logged := {[b]} ∪ logged s |>) → returns (log_write b) s Q.
Proof. intros Hb HQ. unfold returns, log_write. by rewrite decide_True. Qed.

Lemma returns_brelse b s (Q : unit → fsys → Prop) :
  b ∈ bheld s → b ∈ logged s ∨ blocks s b = base s b →
  Q tt (s <| bheld := bheld s ∖ {[b]} |>) → returns (brelse b) s Q.
Proof. intros Hb Hl HQ. unfold returns, brelse. by rewrite !decide_True. Qed.

Lemma set_bheld_id s X : X = bheld s → s <| bheld := X |> = s.
Proof. intros ->. by destruct s. Qed.

(** A buffer is locked, changed, logged and released. *)
Lemma returns_store_log b d s (Q : unit → fsys → Prop) :
  b ∉ bheld s → Q tt (put_block b d s) →
  returns (_ ← bstore b d; _ ← log_write b; brelse b) (s <| bheld := {[b]} ∪ bheld s |>) Q.
Proof.
  intros Hb HQ. mgo. apply returns_bstore; [simpl; set_solver|]. mgo.
  apply returns_log_write; [simpl; set_solver|]. mgo.
  apply returns_brelse; simpl; [set_solver | left; set_solver|].
  unfold put_block in HQ. eapply eq_ind; [exact HQ|]. destruct s; simpl in *.
  unfold set; simpl. by rewrite hold_release.
Qed.

Lemma returns_bzero b s (Q : unit → fsys → Prop) :
  b ∉ bheld s → 0 ≤ b < disksize s → Q tt (put_block b zeros s) → returns (bzero b) s Q.
Proof.
  intros Hb Hd HQ. unfold bzero. mgo. apply returns_bread; [done..|]. by apply returns_store_log.
Qed.

(** ** The bitmap *)

Lemma mod_index x y : 0 ≤ x → 0 ≤ y → x / BPB = y / BPB →
  bm_byte (x mod BPB) = bm_byte (y mod BPB) → (x mod BPB) mod 8 = (y mod BPB) mod 8 → x = y.
Proof.
  unfold bm_byte, BPB. intros Hx Hy Hq Hb Hm.
  pose proof (Z.div_mod x 4096). pose proof (Z.div_mod y 4096).
  pose proof (Z.mod_pos_bound x 4096). pose proof (Z.mod_pos_bound y 4096).
  pose proof (Z.div_mod (x mod 4096) 8). pose proof (Z.div_mod (y mod 4096) 8).
  apply Z2Nat.inj in Hb; [lia | apply Z.div_pos; lia..].
Qed.

Lemma bm_byte_lt x : (bm_byte (x mod BPB) < 512)%nat.
Proof.
  unfold bm_byte, BPB. pose proof (Z.mod_pos_bound x 4096).
  assert (x mod 4096 / 8 < 512) by (apply Z.div_lt_upper_bound; lia). lia.
Qed.

(** Changing one bit of the bitmap byte that holds it. *)
Lemma bit_put s b y v :
  is_block (blocks s (BBLOCK b (sb s))) → 0 ≤ b →
  (∀ n, 0 ≤ n < 8 → Z.testbit y n =
     if n =? (b mod BPB) mod 8 then v
     else Z.testbit (byte (blocks s (BBLOCK b (sb s))) (bm_byte (b mod BPB))) n) →
  ∀ x, 0 ≤ x →
  bit (put_block (BBLOCK b (sb s)) (<[bm_byte (b mod BPB) := y]> (blocks s (BBLOCK b (sb s)))) s) x
    = if x =? b then v else bit s x.
Proof.
  intros [Hl _] Hb Hy x Hx. unfold bit, put_block. simpl.
  destruct (decide (x / BPB = b / BPB)) as [Hq|Hq].
  - assert (HB : BBLOCK x (sb s) = BBLOCK b (sb s)) by (unfold BBLOCK; lia). rewrite HB, upd_eq.
    pose proof (bm_byte_lt b) as Hlt. pose proof (Z.mod_pos_bound (x mod BPB) 8 ltac:(lia)).
    destruct (decide (bm_byte (b mod BPB) = bm_byte (x mod BPB))) as [He|He].
    + rewrite <-He, byte_insert_eq, Hy by lia.
      destruct (Z.eqb_spec ((x mod BPB) mod 8) ((b mod BPB) mod 8)), (Z.eqb_spec x b);
        subst; try done. exfalso. eauto using mod_index.
    + rewrite byte_insert_ne by done. destruct (Z.eqb_spec x b); [by subst|]. done.
  - rewrite upd_ne by (unfold BBLOCK; lia). destruct (Z.eqb_spec x b); [by subst|]. done.
Qed.

Lemma bit_other s b d x :
  0 ≤ x < sb_size (sb s) → is_data s b → bit (put_block b d s) x = bit s x.
Proof.
  intros Hx [Hb _]. unfold bit, put_block. simpl. rewrite upd_ne; [done|].
  unfold BBLOCK. unfold datastart in Hb.
  pose proof (Z.div_le_mono x (sb_size (sb s)) BPB). unfold BPB in *. lia.
Qed.

Lemma bblock_range s b : fs_wf s → 0 ≤ b < sb_size (sb s) →
  0 ≤ BBLOCK b (sb s) < disksize s ∧ BBLOCK b (sb s) < datastart (sb s).
Proof.
  intros Hwf Hb. pose proof (wf_bmap s Hwf). pose proof (wf_size s Hwf). pose proof (wf_start s Hwf) as Hst.
  unfold datastart, BBLOCK in *. pose proof (Z.div_le_mono b (sb_size (sb s)) BPB).
  pose proof (Z.div_pos b BPB). unfold BPB in *. lia.
Qed.

Lemma bblock_not_held s b : fs_wf s → 0 ≤ b < sb_size (sb s) → BBLOCK b (sb s) ∉ bheld s.
Proof.
  intros Hwf Hb Hin. pose proof (bblock_range s b Hwf Hb). destruct (wf_held s Hwf _ Hin) as [[??] _]. lia.
Qed.

Lemma data_range s b : fs_wf s → is_data s b → 0 ≤ b < disksize s ∧ b < sb_size (sb s) ∧ 0 < b.
Proof.
  intros Hwf [Hb ?]. pose proof (wf_size s Hwf). pose proof (wf_bmap s Hwf).
  pose proof (Z.div_pos (sb_size (sb s)) BPB). unfold datastart, BPB in *. lia.
Qed.

Lemma data_above s b : fs_wf s → is_data s b → sb_bmapstart (sb s) < b.
Proof.
  intros Hwf [Hb ?]. pose proof (wf_size s Hwf).
  pose proof (Z.div_pos (sb_size (sb s)) BPB). unfold datastart, BPB in *. lia.
Qed.

Lemma wf_put_data s b d : fs_wf s → is_data s b → is_block d → fs_wf (put_block b d s).
Proof.
  intros Hwf Hb Hd. pose proof (wf_start s Hwf). split; try apply Hwf.
  - intros x. unfold put_block; simpl. unfold upd. case_decide; [done|apply Hwf].
  - intros x Hx. simpl in Hx.
    rewrite bit_other; [apply Hwf; done | lia | done].
  - intros x Hx. destruct (wf_held s Hwf x Hx) as [Hdx ?]. split; [done|].
    destruct (data_range s x Hwf Hdx). rewrite bit_other; [done|lia|done].
  - intros x Hx. unfold put_block; simpl. unfold upd. case_decide; [set_solver|].
    destruct (wf_logged s Hwf x Hx); set_solver.
Qed.

(** [s'] is [s] with bit [b] of the bitmap changed to [v]. *)
Lemma wf_put_bit s b y v :
  fs_wf s → 0 ≤ b < sb_size (sb s) → 0 ≤ y < 256 →
  (v = false → is_data s b ∧ b ∉ bheld s) →
  (∀ n, 0 ≤ n < 8 → Z.testbit y n =
     if n =? (b mod BPB) mod 8 then v
     else Z.testbit (byte (blocks s (BBLOCK b (sb s))) (bm_byte (b mod BPB))) n) →
  fs_wf (put_block (BBLOCK b (sb s)) (<[bm_byte (b mod BPB) := y]> (blocks s (BBLOCK b (sb s)))) s).
Proof.
  intros Hwf Hb Hy Hv Hbits.
  pose proof (bit_put s b y v (wf_block s Hwf _) ltac:(lia) Hbits) as Hbit.
  split; try apply Hwf.
  - intros x. unfold put_block; simpl. unfold upd. case_decide; [|apply Hwf].
    apply is_block_insert; [apply Hwf|done].
  - intros x Hx. simpl in Hx. rewrite Hbit by lia. destruct (Z.eqb_spec x b); [|by apply Hwf].
    destruct v; [done|]. destruct Hv as [[??] ?]; [done|]. subst. lia.
  - intros x Hx. destruct (wf_held s Hwf x Hx) as [Hdx ?]. split; [done|].
    destruct (data_range s x Hwf Hdx). rewrite Hbit by lia. destruct (Z.eqb_spec x b); [|done].
    destruct v; [done|]. destruct Hv; [done|]. by subst.
  - intros x Hx. unfold put_block; simpl. unfold upd. case_decide; [set_solver|].
    destruct (wf_logged s Hwf x Hx); set_solver.
Qed.

(** The parts of the state block allocation does not touch. *)
Definition same_frame (s s' : fsys) : Prop :=
  base s' = base s ∧ bheld s' = bheld s ∧ disksize s' = disksize s ∧ sb s' = sb s ∧
  icache s' = icache s ∧ me s' = me s ∧ cwd s' = cwd s ∧ logged s ⊆ logged s'.

(** [s'] is [s] after the allocation of block [b]. *)
Record allocated (s : fsys) (b : Z) (s' : fsys) : Prop := {
  al_data : is_data s b;
  al_free : bit s b = false;
  al_bit : ∀ x, 0 ≤ x < sb_size (sb s) → bit s' x = (x =? b) || bit s x;
  al_zero : blocks s' b = zeros;
  al_other : ∀ x, is_data s x → x ≠ b → blocks s' x = blocks s x;
  al_low : ∀ x, x < sb_bmapstart (sb s) → blocks s' x = blocks s x;
  al_wf : fs_wf s';
  al_frame : same_frame s s'
}.

(** [s'] is [s] after block [b] was given back. *)
Record freed (s : fsys) (b : Z) (s' : fsys) : Prop := {
  fr_bit : ∀ x, 0 ≤ x < sb_size (sb s) → bit s' x = negb (x =? b) && bit s x;
  fr_other : ∀ x, is_data s x → blocks s' x = blocks s x;
  fr_low : ∀ x, x < sb_bmapstart (sb s) → blocks s' x = blocks s x;
  fr_wf : fs_wf s';
  fr_frame : same_frame s s'
}.

Lemma put_frame s b d : same_frame s (put_block b d s).
Proof. repeat split. unfold put_block; simpl. set_solver. Qed.

Lemma same_frame_trans s1 s2 s3 : same_frame s1 s2 → same_frame s2 s3 → same_frame s1 s3.
Proof.
  intros (? & ? & ? & ? & ? & ? & ? & ?) (? & ? & ? & ? & ? & ? & ? & ?).
  repeat split; try congruence. by etrans.
Qed.

Lemma set_bits x b n :
  0 ≤ b → Z.testbit (Z.lor x (bm_mask b)) n = if n =? b mod 8 then true else Z.testbit x n.
Proof.
  intros. rewrite Z.lor_spec, mask_bit by done. destruct (n =? b mod 8); [apply orb_true_r|apply orb_false_r].
Qed.

Lemma clear_bits x b n :
  0 ≤ b → 0 ≤ n →
  Z.testbit (Z.land x (Z.lnot (bm_mask b))) n = if n =? b mod 8 then false else Z.testbit x n.
Proof.
  intros. rewrite Z.land_spec, Z.lnot_spec, mask_bit by done.
  destruct (n =? b mod 8); [apply andb_false_r|apply andb_true_r].
Qed.

Lemma bmod_nonneg b : 0 ≤ b mod BPB.
Proof. apply Z.mod_pos_bound. done. Qed.

(** Freeing a block in use. *)
Lemma bfree_ok s b (Q : unit → fsys → Prop) :
  fs_wf s → is_data s b → b ∉ bheld s → bit s b = true →
  (∀ s', freed s b s' → Q tt s') → returns (bfree b) s Q.
Proof.
  intros Hwf Hd Hh Hb HQ. destruct (data_range s b Hwf Hd) as (? & ? & ?).
  destruct (bblock_range s b Hwf ltac:(lia)) as [? Hlow].
  pose proof (bblock_not_held s b Hwf ltac:(lia)) as Hnh. pose proof (bmod_nonneg b).
  unfold bfree. mgo. apply returns_bread; [done..|]. mgo.
  apply returns_bdata; [simpl; set_solver|]. simpl.
  rewrite bm_mask_test by done. unfold bit in Hb. rewrite Hb. simpl.
  apply returns_store_log; [done|]. apply HQ.
  set (y := Z.land _ _).
  assert (Hy : 0 ≤ y < 256) by (apply ldiff_byte; [apply byte_range, Hwf | done]).
  assert (Hbits : ∀ n, 0 ≤ n < 8 → Z.testbit y n = if n =? (b mod BPB) mod 8 then false
     else Z.testbit (byte (blocks s (BBLOCK b (sb s))) (bm_byte (b mod BPB))) n)
    by (intros; apply clear_bits; [done|lia]).
  split; [| | | |apply put_frame].
  - intros x Hx. rewrite (bit_put s b y false (wf_block s Hwf _)) by (done || lia).
    by destruct (x =? b).
  - intros x [??]. unfold put_block; simpl. rewrite upd_ne by lia. done.
  - intros x Hx. unfold put_block; simpl. rewrite upd_ne; [done|]. unfold BBLOCK.
    pose proof (Z.div_pos b BPB). unfold BPB in *. lia.
  - by apply (wf_put_bit s b y false); [|lia|..].
Qed.

(** Setting the bit of a free block and clearing the block allocates it. *)
Lemma alloc_puts s b :
  fs_wf s → 0 ≤ b < sb_size (sb s) → bit s b = false →
  let B := BBLOCK b (sb s) in
  let k := bm_byte (b mod BPB) in
  let s1 := put_block B (<[k := Z.lor (byte (blocks s B) k) (bm_mask (b mod BPB))]> (blocks s B)) s in
  allocated s b (put_block b zeros s1) ∧ b ∉ bheld s.
Proof.
  intros Hwf Hb Hfree B k. pose proof (bmod_nonneg b).
  set (y := Z.lor _ _). intros s1.
  destruct (bblock_range s b Hwf Hb) as [? Hlow].
  assert (Hd : is_data s b).
  { split; [|lia]. destruct (decide (b < datastart (sb s))); [|lia].
    rewrite (wf_meta s Hwf) in Hfree by lia. done. }
  assert (Hh : b ∉ bheld s).
  { intros Hin. destruct (wf_held s Hwf b Hin). congruence. }
  assert (Hbits : ∀ n, 0 ≤ n < 8 → Z.testbit y n = if n =? (b mod BPB) mod 8 then true
     else Z.testbit (byte (blocks s B) k) n) by (intros; by apply set_bits).
  assert (Hwf1 : fs_wf s1).
  { apply (wf_put_bit s b y true); try done. apply lor_byte; [apply byte_range, Hwf|done]. }
  split; [|done]. split; try done.
  - intros x Hx. rewrite bit_other by done. unfold s1, B, k.
    rewrite (bit_put s b y true (wf_block s Hwf _)) by (done || lia). by destruct (x =? b).
  - unfold put_block; simpl. by rewrite upd_eq.
  - intros x [??] Hne. unfold put_block, s1, B; simpl. rewrite !upd_ne by (simpl; lia). done.
  - intros x Hx. unfold put_block, s1, B; simpl. destruct Hd.
    pose proof (Z.div_pos b BPB). pose proof (Z.div_pos (sb_size (sb s)) BPB).
    unfold datastart, BBLOCK, BPB in *. rewrite !upd_ne by (simpl; lia). done.
  - apply wf_put_data; [done..|apply is_block_zeros].
  - eapply same_frame_trans; apply put_frame.
Qed.

(** The first three steps of a sequence as one block. *)
Lemma returns_bind_assoc3 {S A} (m1 m2 m3 : M S unit) (k : M S A) s Q :
  returns ((_ ← m1; _ ← m2; m3) ≫= λ _, k) s Q → returns (_ ← m1; _ ← m2; _ ← m3; k) s Q.
Proof.
  unfold returns, mbind, M_bind. destruct (m1 s) as [? s1| | | |]; try done.
  by destruct (m2 s1) as [? s2| | | |].
Qed.

Lemma group_index k bi :
  0 ≤ bi < BPB → (k * BPB + bi) mod BPB = bi ∧ (k * BPB + bi) / BPB = k.
Proof.
  unfold BPB. intros H. rewrite (Z.add_comm (k * 4096)), Z.mod_add, Z.div_add by lia.
  rewrite Z.mod_small, Z.div_small by lia. lia.
Qed.

(** One round of the inner loop, on the locked bitmap block. *)
Lemma balloc_bit_ok s k bi (Q : option Z → fsys → Prop) :
  let bno := BBLOCK (k * BPB) (sb s) in
  let b := k * BPB + bi in
  let s1 := s <| bheld := {[bno]} ∪ bheld s |> in
  fs_wf s → 0 ≤ k → 0 ≤ bi < BPB → b < sb_size (sb s) →
  (bit s b = true → Q None s1) →
  (bit s b = false → ∀ s', allocated s b s' → Q (Some b) s') →
  returns (balloc_bit bno (k * BPB) bi) s1 Q.
Proof.
  intros bno b s1 Hwf Hk Hbi Hsz Hno Hyes.
  assert (Hb : 0 ≤ b < sb_size (sb s)) by (unfold b, BPB in *; lia).
  destruct (group_index k bi Hbi) as [Hm Hq].
  assert (HB : BBLOCK b (sb s) = bno) by (unfold bno, BBLOCK, b; rewrite Hq, Z.div_mul by done; done).
  pose proof (bblock_not_held s b Hwf Hb) as Hnh. rewrite HB in Hnh.
  assert (Hbit : Z.testbit (byte (blocks s bno) (bm_byte bi)) (bi mod 8) = bit s b)
    by (unfold bit; rewrite HB; unfold b; by rewrite Hm).
  unfold balloc_bit. mgo. apply returns_bdata; [simpl; set_solver|]. simpl.
  rewrite bm_mask_test, Hbit by lia. destruct (bit s b) eqn:E; simpl; [by apply returns_ret, Hno|].
  pose proof (alloc_puts s b Hwf Hb E) as [Hal Hh]. rewrite HB in Hal.
  change (b mod BPB) with ((k * BPB + bi) mod BPB) in Hal. rewrite Hm in Hal.
  apply (returns_bind_assoc3 _ _ _ (bzero b ≫= λ _, mret (Some b))).
  apply returns_bind, returns_store_log; [done|]. mgo.
  destruct (data_range s b Hwf (al_data _ _ _ Hal)) as (? & ? & ?).
  apply returns_bzero; [done..|]. mgo. by apply Hyes.
Qed.

Lemma balloc_group_ok s k (Q : option Z → fsys → Prop) :
  fs_wf s → 0 ≤ k → k * BPB < sb_size (sb s) →
  ((∀ x, k * BPB ≤ x < (k + 1) * BPB → x < sb_size (sb s) → bit s x = true) → Q None s) →
  (∀ b s', (∀ x, k * BPB ≤ x < b → bit s x = true) → allocated s b s' → Q (Some b) s') →
  returns (balloc_group (sb s) k) s Q.
Proof.
  intros Hwf Hk Hsz Hno Hyes.
  assert (Hb : 0 ≤ k * BPB < sb_size (sb s)) by (unfold BPB in *; lia).
  pose proof (bblock_not_held s _ Hwf Hb) as Hnh. destruct (bblock_range s _ Hwf Hb).
  unfold balloc_group. mgo. apply returns_bread; [done..|]. mgo.
  eapply returns_mono.
  - apply (returns_for_ret _ _
      (λ i s', s' = s <| bheld := {[BBLOCK (k * BPB) (sb s)]} ∪ bheld s |> ∧
               ∀ x, k * BPB ≤ x < k * BPB + i → bit s x = true)
      (λ b s', (∀ x, k * BPB ≤ x < b → bit s x = true) ∧ allocated s b s')).
    + split; [done|]. lia.
    + intros i s' Hi [-> Hset]. apply balloc_bit_ok; [done|done|lia|lia| |].
      * intros Ht. split; [done|]. intros x Hx.
        destruct (decide (x = k * BPB + i)) as [->|]; [done|]. apply Hset. lia.
      * intros _ s' Hal. done.
  - intros [b|] s'; [intros []; apply returns_ret; by apply Hyes|]. intros [-> Hset].
    mgo. apply returns_brelse; simpl; [set_solver|by apply (wf_logged s Hwf)|]. mgo.
    rewrite hold_release by done. replace (set _ _ _) with s by (by destruct s).
    apply Hno. intros x Hx Hs. apply Hset. unfold BPB in *. lia.
Qed.

(** Allocation takes the first free block. *)
Lemma balloc_ok s (Q : Z → fsys → Prop) :
  fs_wf s → (∃ x, 0 ≤ x < sb_size (sb s) ∧ bit s x = false) →
  (∀ b s', (∀ x, 0 ≤ x < b → bit s x = true) → allocated s b s' → Q b s') →
  returns balloc s Q.
Proof.
  intros Hwf (f & Hf & Hfree) HQ. unfold balloc. mgo. eapply returns_mono.
  - apply (returns_for_ret _ _
      (λ k s', s' = s ∧ ∀ x, 0 ≤ x < k * BPB → x < sb_size (sb s) → bit s x = true)
      (λ b s', (∀ x, 0 ≤ x < b → bit s x = true) ∧ allocated s b s')).
    + split; [done|]. lia.
    + intros k s' Hk [-> Hset].
      assert (k * BPB < sb_size (sb s)).
      { pose proof (Z.div_mod (sb_size (sb s) + BPB - 1) BPB).
        pose proof (Z.mod_pos_bound (sb_size (sb s) + BPB - 1) BPB). unfold BPB in *. nia. }
      assert (Hext : ∀ z, z ≤ sb_size (sb s) → (∀ x, k * BPB ≤ x < z → bit s x = true) →
                ∀ x, 0 ≤ x < z → bit s x = true).
      { intros z Hz Hall x Hx. destruct (decide (x < k * BPB)); [apply Hset; lia|apply Hall; lia]. }
      apply balloc_group_ok; [done|lia|done| |].
      * intros Hall. split; [done|]. intros x Hx Hs. destruct (decide (x < k * BPB)); [apply Hset; lia|apply Hall; lia].
      * intros b s' Hall Hal. split; [|done]. apply Hext; [|done]. destruct (al_data _ _ _ Hal). lia.
  - intros [b|] s'; [intros []; apply returns_ret; by apply HQ|]. intros [-> Hset]. exfalso.
    rewrite Hset in Hfree; [done| |lia].
    pose proof (Z.div_mod (sb_size (sb s) + BPB - 1) BPB).
    pose proof (Z.mod_pos_bound (sb_size (sb s) + BPB - 1) BPB).
    pose proof (Z.div_pos (sb_size (sb s) + BPB - 1) BPB). unfold BPB in *. lia.
Qed.

(** ** Free blocks *)

Definition free_set (s : fsys) : gset Z :=
  filter (λ b, bit s b = false) (list_to_set (seqZ 0 (sb_size (sb s)))).
Definition nfree (s : fsys) : nat := base.size (free_set s).

Lemma elem_free_set s b : b ∈ free_set s ↔ 0 ≤ b < sb_size (sb s) ∧ bit s b = false.
Proof. unfold free_set. rewrite elem_of_filter, elem_of_list_to_set, elem_of_seqZ. naive_solver lia. Qed.

Lemma nfree_pos s : (0 < nfree s)%nat → ∃ x, 0 ≤ x < sb_size (sb s) ∧ bit s x = false.
Proof.
  intros H. destruct (size_pos_elem_of (free_set s)) as [x Hx]; [done|].
  exists x. by apply elem_free_set.
Qed.

Lemma nfree_ext s s' :
  sb s' = sb s → (∀ x, 0 ≤ x < sb_size (sb s) → bit s' x = bit s x) → nfree s' = nfree s.
Proof.
  intros Hsb Hbit. unfold nfree. f_equal. apply set_eq. intros x. rewrite !elem_free_set, Hsb.
  split; intros [Hx Hb]; (split; [done|]); [by rewrite <-Hbit|by rewrite Hbit].
Qed.

Lemma nfree_alloc s b s' : fs_wf s → allocated s b s' → nfree s = S (nfree s').
Proof.
  intros Hwf Hal. destruct (data_range s b Hwf (al_data _ _ _ Hal)) as (? & ? & ?).
  destruct (al_frame _ _ _ Hal) as (_ & _ & _ & Hsb & _).
  assert (Hset : free_set s = {[b]} ∪ free_set s').
  { apply set_eq. intros x. rewrite elem_of_union, elem_of_singleton, !elem_free_set, Hsb.
    split.
    - intros [Hx Hb]. destruct (decide (x = b)); [by left|right]. split; [done|].
      rewrite (al_bit _ _ _ Hal) by done. rewrite Hb, orb_false_r. by apply Z.eqb_neq.
    - intros [->|[Hx Hb]]; [split; [lia|apply Hal]|]. split; [done|].
      rewrite (al_bit _ _ _ Hal) in Hb by done. apply orb_false_iff in Hb. tauto. }
  unfold nfree. rewrite Hset, size_union, size_singleton; [done|].
  intros x Hx [_ Hb]%elem_free_set. apply elem_of_singleton in Hx as ->.
  rewrite (al_bit _ _ _ Hal), Z.eqb_refl in Hb by lia. done.
Qed.

(** ** Locked data blocks *)

Lemma wf_hold s p :
  fs_wf s → is_data s p → bit s p = true → fs_wf (s <| bheld := {[p]} ∪ bheld s |>).
Proof.
  intros Hwf Hp Hb. split; try apply Hwf; simpl.
  - intros x [->%elem_of_singleton|Hx]%elem_of_union; [done|by apply Hwf].
  - intros x Hx. apply Hwf. set_solver.
Qed.

Lemma wf_release s p :
  fs_wf s → p ∈ logged s ∨ blocks s p = base s p → fs_wf (s <| bheld := bheld s ∖ {[p]} |>).
Proof.
  intros Hwf Hp. split; try apply Hwf; simpl.
  - intros x [Hx _]%elem_of_difference. by apply (wf_held s Hwf).
  - intros x Hx. destruct (decide (x = p)) as [->|]; [done|]. apply (wf_logged s Hwf). set_solver.
Qed.

(** [balloc] returns whenever a block is free, with the lowest free block: it was
    not in use, its bit is set, its contents are zeroes, the bits and contents of
    all other blocks are as before, and both changed blocks are logged.  [bfree]
    of that block then gives back exactly the bitmap from before. *)
Theorem balloc_first_fit s :
  fs_wf s → (∃ x, 0 ≤ x < sb_size (sb s) ∧ bit s x = false) →
  returns balloc s (λ b s',
    (∀ x, 0 ≤ x < b → bit s x = true) ∧ allocated s b s' ∧
    returns (bfree b) s' (λ _ s'',
      fs_wf s'' ∧ ∀ x, 0 ≤ x < sb_size (sb s) → bit s'' x = bit s x)).
Proof.
  intros Hwf Hfree. apply balloc_ok; [done..|]. intros b s' Hlow Hal.
  split; [done|]. split; [done|].
  destruct (al_frame _ _ _ Hal) as (_ & Hh & _ & Hsb & _).
  destruct (data_range s b Hwf (al_data _ _ _ Hal)) as (? & ? & ?).
  apply bfree_ok; [apply Hal|unfold is_data; rewrite Hsb; apply Hal| | |].
  - rewrite Hh. intros Hin. destruct (wf_held s Hwf b Hin) as [_ Hb].
    rewrite (al_free _ _ _ Hal) in Hb. done.
  - rewrite (al_bit _ _ _ Hal), Z.eqb_refl by lia. done.
  - intros s'' Hfr. split; [apply Hfr|]. intros x Hx. rewrite <-Hsb in Hx.
    rewrite (fr_bit _ _ _ Hfr) by done. rewrite Hsb in Hx. rewrite (al_bit _ _ _ Hal) by done.
    destruct (Z.eqb_spec x b) as [->|]; [|done]. simpl. by rewrite (al_free _ _ _ Hal).
Qed.
