(* ===== verification/FsInode.v ===== *)
(** Inodes on disk (iupdate, ilock): the 64-byte dinode and its round trip. *)

From S2P Require Import Prelude CString Bytes Fs FsBlocks.

(** ** The fields of a dinode *)

Lemma get16_put16_mod d off w :
  (off + 2 ≤ length d)%nat → get16 (put16 d off w) off = w mod 65536.
Proof.
  intros Hl. unfold get16, put16. bytes. unfold u8. rewrite Z.shiftr_div_pow2 by lia.
  change (2 ^ 8) with 256. change 65536 with (256 * 256). rewrite (Z.rem_mul_r w 256 256) by lia. done.
Qed.

Lemma s16_mod w : -32768 ≤ w < 32768 → s16 (w mod 65536) = w.
Proof.
  intros Hw. unfold s16. destruct (decide (0 ≤ w)).
  - rewrite Z.mod_small by lia. by rewrite (proj2 (Z.ltb_lt _ _)) by lia.
  - rewrite <-(Z.mod_add w 1), Z.mod_small by lia. rewrite (proj2 (Z.ltb_ge _ _)) by lia. lia.
Qed.

Lemma length_put_addrs l : ∀ d o, length (put_addrs d o l) = length d.
Proof. induction l as [|a l IH]; intros d o; simpl; [done|]. by rewrite IH, length_put32. Qed.

Lemma byte_put32_out d o a i : (i < o ∨ o + 4 ≤ i)%nat → byte (put32 d o a) i = byte d i.
Proof. intros H. unfold put32. by bytes. Qed.

Lemma byte_put16_out d o a i : (i < o ∨ o + 2 ≤ i)%nat → byte (put16 d o a) i = byte d i.
Proof. intros H. unfold put16. by bytes. Qed.

Lemma byte_put_addrs_out l : ∀ d o i,
  (i < o ∨ o + 4 * length l ≤ i)%nat → byte (put_addrs d o l) i = byte d i.
Proof.
  induction l as [|a l IH]; intros d o i H; simpl in *; [done|].
  rewrite IH, byte_put32_out by lia. done.
Qed.

(** Integers outside the bytes that were changed. *)
Lemma get32_same d d' o :
  (∀ i, (o ≤ i < o + 4)%nat → byte d' i = byte d i) → get32 d' o = get32 d o.
Proof. intros H. unfold get32. by rewrite !H by lia. Qed.

Lemma get16_same d d' o :
  (∀ i, (o ≤ i < o + 2)%nat → byte d' i = byte d i) → get16 d' o = get16 d o.
Proof. intros H. unfold get16. by rewrite !H by lia. Qed.

Lemma get32_put_addrs l : ∀ d o k a,
  (o + 4 * length l ≤ length d)%nat → Forall (λ a, 0 ≤ a < two32) l → l !! k = Some a →
  get32 (put_addrs d o l) (o + 4 * k) = a.
Proof.
  induction l as [|b l IH]; intros d o [|k] a Hl Hf Hk; simplify_eq/=;
    apply Forall_cons in Hf as [Hb Hf].
  - rewrite Nat.add_0_r, (get32_same (put32 d o a)).
    + apply get32_put32_eq; [lia|done].
    + intros i Hi. apply byte_put_addrs_out. lia.
  - replace (o + S (k + S (k + S (k + S (k + 0)))))%nat with (o + 4 + 4 * k)%nat by lia.
    apply IH; [rewrite length_put32; lia|done|done].
Qed.

Lemma get_put_addrs d o l :
  length l = 13%nat → (o + 52 ≤ length d)%nat → Forall (λ a, 0 ≤ a < two32) l →
  get_addrs (put_addrs d o l) o = l.
Proof.
  intros Hl Ho Hf. unfold get_addrs. apply list_eq_same_length with (n := 13%nat); [done|done|].
  intros k x y Hk Hx Hy. rewrite list_lookup_fmap, lookup_seq_lt in Hx by done. simpl in Hx. simplify_eq.
  apply get32_put_addrs; [lia|done|done].
Qed.

(** The values the fields can hold. *)
Record inode_wf (ip : inode) : Prop := {
  iw_type : -32768 ≤ type ip < 32768;
  iw_major : -32768 ≤ major ip < 32768;
  iw_minor : -32768 ≤ minor ip < 32768;
  iw_nlink : -32768 ≤ nlink ip < 32768;
  iw_size : 0 ≤ size ip < two32;
  iw_len : length (addrs ip) = 13%nat;
  iw_addrs : Forall (λ a, 0 ≤ a < two32) (addrs ip)
}.

(** [jp] with the fields of [ip] that are kept on disk. *)
Definition copy_dinode (ip jp : inode) : inode :=
  jp <| type := type ip |> <| major := major ip |> <| minor := minor ip |> <| nlink := nlink ip |>
     <| size := size ip |> <| addrs := addrs ip |>.

Lemma byte_put_dinode_out d o ip i :
  length (addrs ip) = 13%nat → (i < o ∨ o + 64 ≤ i)%nat → byte (put_dinode d o ip) i = byte d i.
Proof.
  intros Hl H. unfold put_dinode. rewrite byte_put_addrs_out by lia.
  rewrite byte_put32_out, !byte_put16_out by lia. done.
Qed.

Lemma length_put_dinode d o ip : length (put_dinode d o ip) = length d.
Proof. unfold put_dinode. by rewrite length_put_addrs, length_put32, !length_put16. Qed.

Ltac field :=
  repeat match goal with d := put16 _ _ _ |- _ => subst d end;
  rewrite ?get16_put16_ne by lia; apply get16_put16_mod; rewrite ?length_put16; lia.

(** Reading back a dinode gives the fields that were written. *)
Lemma get_put_dinode d o ip jp :
  (o + 64 ≤ length d)%nat → inode_wf ip → get_dinode (put_dinode d o ip) o jp = copy_dinode ip jp.
Proof.
  intros Ho [??????]. unfold get_dinode, put_dinode, copy_dinode.
  rewrite get_put_addrs by (rewrite ?length_put32, ?length_put16; done || lia).
  set (d1 := put16 d o (type ip)). set (d2 := put16 d1 (o + 2) (major ip)).
  set (d3 := put16 d2 (o + 4) (minor ip)). set (d4 := put16 d3 (o + 6) (nlink ip)).
  assert (length d4 = length d) as Hd4 by (unfold d4, d3, d2, d1; by rewrite !length_put16).
  assert (H16 : ∀ k, (o ≤ k ≤ o + 6)%nat →
    get16 (put_addrs (put32 d4 (o + 8) (size ip)) (o + 12) (addrs ip)) k = get16 d4 k).
  { intros k Hk. apply get16_same. intros j Hj. rewrite byte_put_addrs_out, byte_put32_out by lia. done. }
  rewrite !H16 by lia.
  rewrite (get32_same (put32 d4 (o + 8) (size ip)))
    by (intros j Hj; apply byte_put_addrs_out; lia).
  rewrite get32_put32_eq by (done || lia).
  assert (get16 d4 (o + 6) = nlink ip mod 65536) as -> by field.
  assert (get16 d4 (o + 4) = minor ip mod 65536) as -> by field.
  assert (get16 d4 (o + 2) = major ip mod 65536) as -> by field.
  assert (get16 d4 o = type ip mod 65536) as -> by field.
  by rewrite !s16_mod by done.
Qed.

(** ** The inode blocks *)

(** [n] is an inode number whose dinode is in the inode blocks. *)
Definition ino_ok (s : fsys) (n : Z) : Prop :=
  0 ≤ n ∧ 0 ≤ sb_inodestart (sb s) ∧ IBLOCK n (sb s) < sb_bmapstart (sb s).

(** The dinode of inode [n], as [ilock] reads it into [jp]. *)
Definition dinode_at (s : fsys) (n : Z) (jp : inode) : inode :=
  get_dinode (blocks s (IBLOCK n (sb s))) (dinode_off n) jp.

Lemma iblock_range s n : ino_ok s n → 0 ≤ IBLOCK n (sb s).
Proof. intros (? & ? & _). unfold IBLOCK, IPB. pose proof (Z.div_pos n 8). lia. Qed.

Lemma dinode_off_bound n : (dinode_off n + 64 ≤ 512)%nat.
Proof. unfold dinode_off, IPB. pose proof (Z.mod_pos_bound n 8). lia. Qed.

(** Dinodes do not overlap. *)
Lemma dinode_off_apart m n sb : 0 ≤ m → 0 ≤ n → m ≠ n → IBLOCK m sb = IBLOCK n sb →
  (dinode_off m + 64 ≤ dinode_off n ∨ dinode_off n + 64 ≤ dinode_off m)%nat.
Proof.
  unfold IBLOCK, dinode_off, IPB. intros. pose proof (Z.div_mod m 8). pose proof (Z.div_mod n 8).
  pose proof (Z.mod_pos_bound m 8). pose proof (Z.mod_pos_bound n 8). lia.
Qed.

Lemma bit_low s b d x : 0 ≤ x → b < sb_bmapstart (sb s) → bit (put_block b d s) x = bit s x.
Proof.
  intros Hx Hb. unfold bit; simpl. rewrite upd_ne; [done|]. unfold BBLOCK.
  pose proof (Z.div_pos x BPB). unfold BPB in *. lia.
Qed.

Lemma wf_put_low s b d :
  fs_wf s → b < sb_bmapstart (sb s) → is_block d → fs_wf (put_block b d s).
Proof.
  intros Hwf Hb Hd. split; try apply Hwf.
  - intros x. simpl. unfold upd. case_decide; [done|apply Hwf].
  - intros x Hx. rewrite bit_low by (done || lia). by apply Hwf.
  - intros x Hx. destruct (wf_held s Hwf x Hx) as [Hda ?]. split; [done|].
    destruct (data_range s x Hwf Hda). rewrite bit_low by (done || lia). done.
  - intros x Hx. simpl. unfold upd. case_decide; [set_solver|].
    destruct (wf_logged s Hwf x Hx); set_solver.
Qed.

Lemma low_not_held s b : fs_wf s → b < sb_bmapstart (sb s) → b ∉ bheld s.
Proof.
  intros Hwf Hb Hin. destruct (wf_held s Hwf b Hin) as [Hda _]. pose proof (data_above s b Hwf Hda). lia.
Qed.

Lemma low_disk s b : fs_wf s → 0 ≤ b < sb_bmapstart (sb s) → 0 ≤ b < disksize s.
Proof.
  intros Hwf Hb. pose proof (wf_size s Hwf). pose proof (wf_start s Hwf).
  pose proof (Z.div_pos (sb_size (sb s)) BPB). unfold datastart, BPB in *. lia.
Qed.

Lemma is_block_put_addrs l : ∀ d o, is_block d → is_block (put_addrs d o l).
Proof. induction l as [|a l IH]; intros d o Hd; simpl; [done|]. by apply IH, is_block_put32. Qed.

Lemma is_block_put_dinode d o ip : is_block d → is_block (put_dinode d o ip).
Proof.
  intros Hd. unfold put_dinode. by apply is_block_put_addrs, is_block_put32; repeat apply is_block_put16.
Qed.

(** The state after [iupdate] of inode [ip]. *)
Definition updated (ip : inode) (s : fsys) : fsys :=
  let b := IBLOCK (inum ip) (sb s) in
  put_block b (put_dinode (blocks s b) (dinode_off (inum ip)) ip) s.

Lemma iupdate_ok i ip s (Q : unit → fsys → Prop) :
  fs_wf s → icache s !! i = Some ip → ino_ok s (inum ip) →
  (fs_wf (updated ip s) → Q tt (updated ip s)) → returns (iupdate i) s Q.
Proof.
  intros Hwf Hi Hn HQ. pose proof (iblock_range s _ Hn). destruct Hn as (? & ? & Hlow).
  unfold iupdate, geti. mgo. unfold returns at 1. rewrite Hi. mgo.
  apply returns_bread; [by apply low_not_held|by apply low_disk|]. mgo.
  apply returns_bdata; [simpl; set_solver|]. simpl.
  apply returns_store_log; [by apply low_not_held|]. apply HQ.
  apply wf_put_low; [done..|]. apply is_block_put_dinode, Hwf.
Qed.

Lemma get_dinode_same d d' o jp :
  (∀ k, (o ≤ k < o + 64)%nat → byte d' k = byte d k) → get_dinode d' o jp = get_dinode d o jp.
Proof.
  intros H. unfold get_dinode.
  rewrite (get16_same d d' o), (get16_same d d' (o + 2)), (get16_same d d' (o + 4)),
    (get16_same d d' (o + 6)), (get32_same d d' (o + 8)) by (intros; apply H; lia).
  assert (get_addrs d' (o + 12) = get_addrs d (o + 12)) as ->; [|done].
  unfold get_addrs. apply list_fmap_ext. intros j k Hk. apply lookup_seq in Hk as [-> ?].
  apply get32_same. intros m Hm. apply H. lia.
Qed.

(** [iupdate] writes this dinode and no other. *)
Lemma dinode_at_updated ip s n jp :
  fs_wf s → inode_wf ip → 0 ≤ n → 0 ≤ inum ip →
  dinode_at (updated ip s) n jp =
    if decide (n = inum ip) then copy_dinode ip jp else dinode_at s n jp.
Proof.
  intros Hwf Hip Hn Hi. unfold dinode_at, updated. simpl.
  destruct (wf_block s Hwf (IBLOCK (inum ip) (sb s))) as [Hl _].
  pose proof (dinode_off_bound (inum ip)). pose proof (dinode_off_bound n).
  case_decide as Hd.
  - subst n. rewrite upd_eq. apply get_put_dinode; [lia|done].
  - destruct (decide (IBLOCK n (sb s) = IBLOCK (inum ip) (sb s))) as [E|E]; [|by rewrite upd_ne].
    rewrite E, upd_eq. pose proof (dinode_off_apart _ _ _ Hn Hi Hd E).
    apply get_dinode_same. intros k Hk. apply byte_put_dinode_out; [apply Hip|lia].
Qed.

(** ** The inode cache *)

Lemma returns_geti i s ip (Q : inode → fsys → Prop) :
  icache s !! i = Some ip → Q ip s → returns (geti i) s Q.
Proof. intros Hi HQ. unfold returns, geti. by rewrite Hi. Qed.

Lemma returns_seti i f s (Q : unit → fsys → Prop) :
  Q tt (s <| icache := alter f i (icache s) |>) → returns (seti i f) s Q.
Proof. done. Qed.

(** Locking an inode that is not in memory yet reads its dinode. *)
Lemma ilock_reads j jp s (Q : unit → fsys → Prop) :
  fs_wf s → ino_ok s (inum jp) → icache s !! j = Some jp →
  1 ≤ ref jp → ilck jp = None → valid jp = false → type (dinode_at s (inum jp) jp) ≠ 0 →
  Q tt (s <| icache := <[j := (dinode_at s (inum jp) jp) <| valid := true |> <| ilck := Some (me s) |>]> (icache s) |>) →
  returns (ilock j) s Q.
Proof.
  intros Hwf Hn Hj Href Hlk Hv Hty HQ. pose proof (iblock_range s _ Hn). destruct Hn as (? & ? & Hlow).
  unfold ilock. mgo. apply (returns_geti j s jp); [done|]. rewrite (proj2 (Z.ltb_ge _ _)) by done.
  unfold acquiresleep. mgo. apply (returns_geti j s jp); [done|]. rewrite Hlk. mgo.
  apply returns_seti. mgo.
  eapply returns_geti; [simpl; rewrite list_lookup_alter_eq, Hj; done|]. simpl. rewrite Hv. mgo.
  apply returns_bread; simpl; [by apply low_not_held|by apply low_disk|]. mgo.
  apply returns_bdata; [simpl; set_solver|]. mgo. apply returns_seti. mgo.
  apply returns_brelse; simpl; [set_solver| |].
  { apply (wf_logged s Hwf). by apply low_not_held. }
  mgo. apply returns_seti. mgo.
  eapply returns_geti; [simpl; rewrite !list_lookup_alter_eq, Hj; done|]. simpl.
  unfold dinode_at, get_dinode in Hty. simpl in Hty. rewrite (proj2 (Z.eqb_neq _ 0)) by done. mgo.
  eapply eq_ind; [exact HQ|]. destruct s; unfold set; simpl in *.
  rewrite hold_release by (eapply (low_not_held (mkfs _ _ _ _ _ _ _ _ _)); done). f_equal.
  rewrite !list_alter_alter_eq. apply list_eq. intros k. destruct (decide (j = k)) as [<-|].
  - rewrite list_lookup_alter_eq, Hj, list_lookup_insert_eq by (by eapply lookup_lt_Some). done.
  - by rewrite list_lookup_insert_ne, list_lookup_alter_ne.
Qed.

(** The entry in use for inode [n] of device [d]. *)
Definition imatch (d n : Z) (ip : inode) : Prop := 0 < ref ip ∧ dev ip = d ∧ inum ip = n.

(** No inode is in two entries. *)
Definition icache_ok (l : list inode) : Prop :=
  (∀ i ip, l !! i = Some ip → 0 ≤ ref ip) ∧
  (∀ i j ip jp, l !! i = Some ip → l !! j = Some jp → 0 < ref ip →
     imatch (dev ip) (inum ip) jp → i = j).

Lemma iget_scan_spec d n : ∀ l i e,
  match iget_scan d n i e l with
  | inl k => ∃ ip, (i ≤ k)%nat ∧ l !! (k - i)%nat = Some ip ∧ imatch d n ip
  | inr r =>
      (∀ k ip, l !! k = Some ip → ¬ imatch d n ip) ∧
      match r with
      | Some k => e = Some k ∨ ∃ ip, (i ≤ k)%nat ∧ l !! (k - i)%nat = Some ip ∧ ref ip = 0
      | None => e = None ∧ ∀ k ip, l !! k = Some ip → ref ip ≠ 0
      end
  end.
Proof.
  induction l as [|ip l IH]; intros i e; simpl.
  - split; [done|]. destruct e; [by left|done].
  - destruct ((0 <? ref ip) && (dev ip =? d) && (inum ip =? n)) eqn:E.
    { bsimpl. exists ip. rewrite Nat.sub_diag. done. }
    assert (Hno : ¬ imatch d n ip) by (intros (? & <- & <-); rewrite !Z.eqb_refl in E; bsimpl; simpl in *; lia).
    specialize (IH (S i) (match e with None => if ref ip =? 0 then Some i else None | e => e end)).
    destruct (iget_scan d n (S i) _ l) as [k|r].
    + destruct IH as (kp & ? & Hk & ?). exists kp. split; [lia|].
      replace (k - i)%nat with (S (k - S i))%nat by lia. done.
    + destruct IH as [IH1 IH2]. split.
      { intros [|k] kp Hk; simplify_eq/=; [done|by eapply IH1]. }
      destruct r as [k|].
      * destruct IH2 as [He|(kp & ? & Hk & ?)].
        -- destruct e; [by left|]. destruct (Z.eqb_spec (ref ip) 0); simplify_eq. right.
           exists ip. rewrite Nat.sub_diag. done.
        -- right. exists kp. split; [lia|]. replace (k - i)%nat with (S (k - S i))%nat by lia. done.
      * destruct IH2 as [He Hr]. destruct e; [done|]. destruct (Z.eqb_spec (ref ip) 0); [done|].
        split; [done|]. intros [|k] kp Hk; simplify_eq/=; [done|by eapply Hr].
Qed.

Lemma icache_ok_alter l k f ip :
  icache_ok l → l !! k = Some ip → 0 ≤ ref (f ip) →
  (∀ j jp, j ≠ k → l !! j = Some jp → ¬ imatch (dev (f ip)) (inum (f ip)) jp) →
  icache_ok (alter f k l).
Proof.
  intros [Hr Hu] Hk Hf Hno. split.
  - intros i jp. destruct (decide (k = i)) as [<-|].
    + rewrite list_lookup_alter_eq, Hk. simpl. by intros [= <-].
    + rewrite list_lookup_alter_ne by done. apply Hr.
  - intros i j x y. destruct (decide (k = i)) as [<-|Hi], (decide (k = j)) as [<-|Hj]; try done;
      rewrite ?list_lookup_alter_eq, ?list_lookup_alter_ne, ?Hk by done; simpl.
    + intros [= <-] Hy _ Hm. by destruct (Hno j y).
    + intros Hx [= <-] Hrx (? & Hd & Hn). destruct (Hno i x); [done|done|]. done.
    + apply Hu.
Qed.

(** An inode written by [iupdate] is what [ilock] finds when the inode is read
    into a cache slot again: type, device numbers, link count, size and block
    addresses are those of the inode that was written, the slot is locked by the
    caller, and the dinode of every other inode is unchanged. *)
Theorem iupdate_ilock_roundtrip s i ip j jp :
  fs_wf s → ino_ok s (inum ip) → inode_wf ip → type ip ≠ 0 →
  icache s !! i = Some ip → icache s !! j = Some jp →
  inum jp = inum ip → valid jp = false → ilck jp = None → 1 ≤ ref jp →
  returns (_ ← iupdate i; ilock j) s (λ _ s',
    icache s' !! j = Some ((copy_dinode ip jp) <| valid := true |> <| ilck := Some (me s) |>) ∧
    (∀ k, k ≠ j → icache s' !! k = icache s !! k) ∧
    (∀ n kp, 0 ≤ n → n ≠ inum ip → dinode_at s' n kp = dinode_at s n kp) ∧
    fs_wf s' ∧ bheld s' = bheld s).
Proof.
  intros Hwf Hn Hip Hty Hi Hj Heq Hv Hlk Href. destruct Hn as (? & ? & ?).
  mgo. apply (iupdate_ok i ip); [done..|]. intros Hwf'.
  assert (Hd : dinode_at (updated ip s) (inum jp) jp = copy_dinode ip jp).
  { rewrite Heq, dinode_at_updated by done. by rewrite decide_True. }
  apply (ilock_reads j jp); [done|by rewrite Heq|done..| |].
  - rewrite Hd. done.
  - rewrite Hd. simpl. split_and!.
    + rewrite list_lookup_insert_eq; [done|]. by eapply lookup_lt_Some.
    + intros k Hk. by rewrite list_lookup_insert_ne.
    + intros n kp Hn0 Hne. etrans; [apply (dinode_at_updated ip s n kp); done|].
      by rewrite decide_False.
    + destruct Hwf'; by split.
    + done.
Qed.

(** [iget] keeps one entry per inode.  If the cache has an entry for the inode,
    its reference count goes up by one; if not, an entry with count 0 is given to
    the inode with count 1, not valid.  It returns whenever one of the two exists,
    and no other entry, and nothing else, changes. *)
Theorem iget_unique s d n :
  icache_ok (icache s) →
  (∃ i ip, icache s !! i = Some ip ∧ (imatch d n ip ∨ ref ip = 0)) →
  returns (iget d n) s (λ k s', ∃ ip,
    icache s !! k = Some ip ∧
    s' = s <| icache := icache s' |> ∧
    icache_ok (icache s') ∧
    (∀ j, j ≠ k → icache s' !! j = icache s !! j) ∧
    ((imatch d n ip ∧ icache s' !! k = Some (ip <| ref := ref ip + 1 |>)) ∨
     ((∀ j jp, icache s !! j = Some jp → ¬ imatch d n jp) ∧ ref ip = 0 ∧
      icache s' !! k = Some (ip <| dev := d |> <| inum := n |> <| ref := 1 |> <| valid := false |>)))).
Proof.
  intros Hok (i & ip & Hi & Hex). unfold iget. mgo.
  pose proof (iget_scan_spec d n (icache s) 0 None) as Hs.
  destruct (iget_scan d n 0 None (icache s)) as [k|[k|]].
  - destruct Hs as (kp & _ & Hk & Hm). rewrite Nat.sub_0_r in Hk. mgo. apply returns_seti. mgo.
    exists kp. split; [done|]. simpl. split; [done|]. split; [|split].
    + eapply icache_ok_alter; [done|done|destruct Hm; simpl; lia|]. simpl. intros j jp Hj Hjp Hmj.
      apply Hj. symmetry. destruct Hm as (? & _ & _). by eapply (proj2 Hok k j).
    + intros j Hj. by rewrite list_lookup_alter_ne.
    + left. by rewrite list_lookup_alter_eq, Hk.
  - destruct Hs as [Hno [?|(kp & _ & Hk & Hr)]]; [done|]. rewrite Nat.sub_0_r in Hk. mgo.
    apply returns_seti. mgo. exists kp. split; [done|]. simpl. split; [done|]. split; [|split].
    + eapply icache_ok_alter; [done|done|simpl; lia|]. simpl. intros j jp _ Hjp. by eapply Hno.
    + intros j Hj. by rewrite list_lookup_alter_ne.
    + right. by rewrite list_lookup_alter_eq, Hk.
  - destruct Hs as [Hno [_ Hr]]. destruct Hex; [by destruct (Hno i ip)|by destruct (Hr i ip)].
Qed.
