(* ===== verification/FsFile.v ===== *)
(** File contents (bmap, readi, writei): an inode's tree of blocks, as a function
    from paths in the tree to block numbers. *)

From S2P Require Import Prelude CString Bytes Fs FsBlocks FsInode.

(** [ip->addrs] of the inode in slot [i] of the cache. *)
Definition faddrs (s : fsys) (i : nat) : list Z :=
  match icache s !! i with Some ip => addrs ip | None => [] end.

(** Entry [j] of indirect block [a]. *)
Definition child (s : fsys) (a : Z) (j : nat) : Z :=
  if a =? 0 then 0 else get32 (blocks s a) (4 * j).

(** The block number at a path: [k :: π] starts at [addrs[k]] and follows the
    entries [π] of indirect blocks; 0 if there is no block. *)
Definition node (s : fsys) (i : nat) (π : list nat) : Z :=
  match π with [] => 0 | k :: π => foldl (child s) (nth k (faddrs s i) 0) π end.

(** The paths of the tree: ten direct blocks, and a tree of depth 1, 2 and 3. *)
Definition vpath (π : list nat) : Prop :=
  match π with
  | [] => False
  | k :: π => (k < 13)%nat ∧ (length π ≤ k - 9)%nat ∧ Forall (λ j, j < 128)%nat π
  end.

(** Where [bmap] looks for block [n] of a file, up to the double indirect tree. *)
Definition fpath (n : Z) : list nat :=
  if n <? 10 then [Z.to_nat n]
  else if n <? 138 then [10%nat; Z.to_nat (n - 10)]
  else [11%nat; Z.to_nat ((n - 138) / 128); Z.to_nat ((n - 138) mod 128)].

Definition NDOUBLE : Z := 10 + 128 + 128 * 128.

(** Block [n] of the file's contents. *)
Definition fblock (s : fsys) (i : nat) (n : Z) : blk :=
  let b := node s i (fpath n) in if b =? 0 then zeros else blocks s b.

(** The blocks of the tree are data blocks in use, not locked, and no block
    is at two places. *)
Record file_ok (s : fsys) (i : nat) : Prop := {
  fo_len : length (faddrs s i) = 13%nat;
  fo_node : ∀ π, vpath π → node s i π ≠ 0 →
    is_data s (node s i π) ∧ bit s (node s i π) = true ∧ node s i π ∉ bheld s;
  fo_inj : ∀ π1 π2, vpath π1 → vpath π2 → node s i π1 ≠ 0 → node s i π1 = node s i π2 → π1 = π2
}.

(** [s'] is [s] after changes to the contents of inode [i], which may have grown its
    tree: its blocks stay where they are, new ones were free, and the rest of the
    file system is as before. *)
Record touches (i : nat) (s s' : fsys) : Prop := {
  to_wf : fs_wf s';
  to_ok : file_ok s' i;
  to_node : ∀ π, vpath π → node s i π ≠ 0 → node s' i π = node s i π;
  to_new : ∀ π, vpath π → node s' i π ≠ 0 →
    node s' i π = node s i π ∨ bit s (node s' i π) = false;
  to_bit : ∀ x, 0 ≤ x < sb_size (sb s) → bit s x = true → bit s' x = true;
  to_other : ∀ x, is_data s x → bit s x = true → (∀ π, vpath π → node s i π ≠ x) →
    blocks s' x = blocks s x;
  to_low : ∀ x, x < sb_bmapstart (sb s) → blocks s' x = blocks s x;
  to_icache : icache s' = alter (λ ip, ip <| addrs := faddrs s' i |>) i (icache s);
  to_frame : base s' = base s ∧ bheld s' = bheld s ∧ disksize s' = disksize s ∧ sb s' = sb s ∧
    me s' = me s ∧ cwd s' = cwd s ∧ logged s ⊆ logged s'
}.

(** The same without a change of the contents, taking at most [k] blocks. *)
Record extends (k : nat) (i : nat) (s s' : fsys) : Prop := {
  ex_touches : touches i s s';
  ex_block : ∀ n, 0 ≤ n < NDOUBLE → fblock s' i n = fblock s i n;
  ex_free : (nfree s ≤ nfree s' + k)%nat
}.

(** ** Paths *)

Lemma node_snoc s i π j : π ≠ [] → node s i (π ++ [j]) = child s (node s i π) j.
Proof. destruct π as [|k π]; [done|]. intros _. simpl. by rewrite foldl_snoc. Qed.

Lemma vpath_snoc π j : vpath (π ++ [j]) → π ≠ [] → vpath π ∧ (j < 128)%nat.
Proof.
  destruct π as [|k π]; [done|]. simpl. rewrite length_app, Forall_app, Forall_singleton. simpl.
  intros (? & ? & ? & ?) _. repeat split; [done|lia|done..].
Qed.

Lemma div_mod_128 n : 0 ≤ n - 138 < 16384 →
  0 ≤ (n - 138) / 128 < 128 ∧ 0 ≤ (n - 138) mod 128 < 128 ∧
  n = 138 + 128 * ((n - 138) / 128) + (n - 138) mod 128.
Proof.
  intros. pose proof (Z.div_mod (n - 138) 128). pose proof (Z.mod_pos_bound (n - 138) 128).
  pose proof (Z.div_pos (n - 138) 128). pose proof (Z.div_lt_upper_bound (n - 138) 128 128). lia.
Qed.

Lemma fpath_valid n : 0 ≤ n < NDOUBLE → vpath (fpath n).
Proof.
  unfold fpath, NDOUBLE. intros Hn. repeat case_if; simpl.
  - repeat split; [lia|lia|constructor].
  - repeat split; [lia|lia|]. constructor; [lia|constructor].
  - pose proof (div_mod_128 n ltac:(lia)). repeat split; [lia|lia|].
    constructor; [lia|]. constructor; [lia|constructor].
Qed.

(** The blocks of a file are at different leaves of the tree. *)
Lemma fpath_leaf n j : ¬ vpath (fpath n ++ [j]).
Proof.
  unfold fpath. repeat case_if; simpl; intros (? & ? & _); lia.
Qed.

Lemma fpath_inj m n : 0 ≤ m < NDOUBLE → 0 ≤ n < NDOUBLE → fpath m = fpath n → m = n.
Proof.
  unfold fpath, NDOUBLE. intros Hm Hn.
  destruct (Z.ltb_spec m 10), (Z.ltb_spec n 10), (Z.ltb_spec m 138), (Z.ltb_spec n 138);
    intros Heq; try lia; injection Heq; intros; try lia.
  pose proof (div_mod_128 n). pose proof (div_mod_128 m). lia.
Qed.

(** ** Growing the tree *)

Lemma alter_same_addrs s i : icache s = alter (λ ip, ip <| addrs := faddrs s i |>) i (icache s).
Proof.
  unfold faddrs. apply list_eq. intros j. destruct (decide (i = j)) as [->|].
  - rewrite list_lookup_alter_eq. destruct (icache s !! j) as [ip|]; [|done]. by destruct ip.
  - by rewrite list_lookup_alter_ne.
Qed.

Lemma touches_refl i s : fs_wf s → file_ok s i → touches i s s.
Proof. intros. split; eauto; [apply alter_same_addrs|repeat split; done]. Qed.

Lemma touches_trans i s1 s2 s3 : touches i s1 s2 → touches i s2 s3 → touches i s1 s3.
Proof.
  intros H1 H2. destruct (to_frame _ _ _ H1) as (? & ? & ? & Hsb & ? & ? & ?).
  destruct (to_frame _ _ _ H2) as (? & ? & ? & ? & ? & ? & ?).
  assert (Hd : ∀ x, is_data s1 x → is_data s2 x) by (unfold is_data; by rewrite Hsb).
  split; try apply H2.
  - intros π Hv Hn. rewrite (to_node _ _ _ H2), (to_node _ _ _ H1); try done.
    by rewrite (to_node _ _ _ H1).
  - intros π Hv Hn. destruct (to_new _ _ _ H2 π Hv Hn) as [He|Hb].
    + rewrite He in *. by apply (to_new _ _ _ H1).
    + right. destruct (bit s1 (node s3 i π)) eqn:E; [|done].
      destruct (fo_node _ _ (to_ok _ _ _ H2) π Hv Hn) as (Hda & _ & _).
      destruct (data_range _ _ (to_wf _ _ _ H2) Hda) as (? & ? & ?).
      rewrite (to_bit _ _ _ H1) in Hb; [done| |done]. split; [lia|]. congruence.
  - intros x Hx Hb. apply (to_bit _ _ _ H2); [by rewrite Hsb|]. by apply (to_bit _ _ _ H1).
  - intros x Hx Hb Hne. destruct (data_range _ _ (to_wf _ _ _ H1) (Hd _ Hx)) as (? & ? & ?).
    rewrite Hsb in *.
    rewrite (to_other _ _ _ H2); [by apply (to_other _ _ _ H1)|by apply Hd|by apply (to_bit _ _ _ H1); [lia|]|].
    intros π Hv Heq. destruct (decide (node s2 i π = 0)) as [Hz|Hz]; [lia|].
    destruct (to_new _ _ _ H1 π Hv Hz) as [He|Hf]; [|congruence]. apply (Hne π Hv). congruence.
  - intros x Hx. rewrite (to_low _ _ _ H2), (to_low _ _ _ H1); congruence.
  - rewrite (to_icache _ _ _ H2), (to_icache _ _ _ H1), list_alter_alter_eq.
    by apply list_alter_ext.
  - repeat split; try congruence. by etrans.
Qed.

Lemma extends_refl i s : fs_wf s → file_ok s i → extends 0 i s s.
Proof. intros. split; [by apply touches_refl|done|lia]. Qed.

Lemma extends_trans j k i s1 s2 s3 :
  extends j i s1 s2 → extends k i s2 s3 → extends (j + k) i s1 s3.
Proof.
  intros H1 H2. split.
  - eapply touches_trans; [apply H1|apply H2].
  - intros n Hn. by rewrite (ex_block _ _ _ _ H2), (ex_block _ _ _ _ H1).
  - pose proof (ex_free _ _ _ _ H1). pose proof (ex_free _ _ _ _ H2). lia.
Qed.

(** Block [b], which was free, is put at place [τ] of the tree. *)
Record filled (i : nat) (τ : list nat) (b : Z) (s s' : fsys) : Prop := {
  fi_data : is_data s b;
  fi_free : bit s b = false;
  fi_bit : ∀ x, 0 ≤ x < sb_size (sb s) → bit s' x = (x =? b) || bit s x;
  fi_zero : blocks s' b = zeros;
  fi_other : ∀ x, is_data s x → x ≠ b →
    (∀ π j, τ = π ++ [j] → π ≠ [] → node s i π ≠ x) → blocks s' x = blocks s x;
  fi_parent : ∀ π j, τ = π ++ [j] → π ≠ [] → ∀ j', (j' < 128)%nat →
    child s' (node s i π) j' = if decide (j' = j) then b else child s (node s i π) j';
  fi_root : ∀ k, (k < 13)%nat →
    node s' i [k] = if decide ([k] = τ) then b else node s i [k];
  fi_len : length (faddrs s' i) = 13%nat;
  fi_low : ∀ x, x < sb_bmapstart (sb s) → blocks s' x = blocks s x;
  fi_nfree : nfree s = S (nfree s');
  fi_wf : fs_wf s';
  fi_icache : icache s' = alter (λ ip, ip <| addrs := faddrs s' i |>) i (icache s);
  fi_frame : base s' = base s ∧ bheld s' = bheld s ∧ disksize s' = disksize s ∧ sb s' = sb s ∧
    me s' = me s ∧ cwd s' = cwd s ∧ logged s ⊆ logged s'
}.

Lemma get32_zeros o : get32 zeros o = 0.
Proof.
  assert (H : ∀ k, byte zeros k = 0).
  { intros k. unfold byte, zeros. destruct (replicate 512 0 !! k) eqn:E; [|done].
    by apply lookup_replicate in E as [-> _]. }
  unfold get32. by rewrite !H.
Qed.

Section Filled.
Context (s s' : fsys) (i : nat) (τ : list nat) (b : Z).
Context (Hwf : fs_wf s) (Hok : file_ok s i) (Hτ : vpath τ) (H0 : node s i τ = 0).
Context (Hf : filled i τ b s s').

Lemma filled_pos : 0 < b.
Proof. destruct (data_range s b Hwf (fi_data _ _ _ _ _ Hf)). lia. Qed.

Lemma filled_fresh π : vpath π → node s i π ≠ b.
Proof.
  intros Hv Heq. pose proof filled_pos. destruct (fo_node s i Hok π Hv) as (_ & Hb & _); [lia|].
  rewrite Heq, (fi_free _ _ _ _ _ Hf) in Hb. done.
Qed.

(** The tree has changed at [τ] only. *)
Lemma filled_node π : vpath π → node s' i π = if decide (π = τ) then b else node s i π.
Proof.
  pose proof filled_pos as Hpos. induction π as [|j π IH] using rev_ind; [done|]. intros Hv.
  destruct (decide (π = [])) as [->|Hne].
  { apply (fi_root _ _ _ _ _ Hf), Hv. }
  destruct (vpath_snoc _ _ Hv Hne) as [Hvp Hj]. rewrite !node_snoc, IH by done.
  destruct (decide (π = τ)) as [->|Hpt].
  - rewrite decide_False by (intros E; by apply (f_equal length) in E; rewrite length_app in E; simpl in E; lia).
    rewrite H0. unfold child at 2; simpl. unfold child.
    rewrite (proj2 (Z.eqb_neq b 0)) by lia. by rewrite (fi_zero _ _ _ _ _ Hf), get32_zeros.
  - destruct (decide (π ++ [j] = τ)) as [Heq|Hnt].
    { rewrite (fi_parent _ _ _ _ _ Hf π j) by done. by rewrite decide_True. }
    destruct (decide (node s i π = 0)) as [Hz|Hz]; [by rewrite Hz|].
    destruct (exists_last (l := τ)) as (π0 & j0 & Hτ0); [by destruct τ|].
    destruct (decide (π = π0)) as [->|Hpar].
    { rewrite (fi_parent _ _ _ _ _ Hf π0 j0) by done. rewrite decide_False by congruence. done. }
    unfold child. rewrite (fi_other _ _ _ _ _ Hf); [done| | |].
    + by apply (fo_node s i Hok).
    + by apply filled_fresh.
    + intros π1 j1 Hτ1 Hn1 Heq. apply Hpar. rewrite Hτ1 in Hτ, Hτ0.
      apply app_inj_tail in Hτ0 as [-> ->]. destruct (vpath_snoc _ _ Hτ Hn1).
      apply (fo_inj s i Hok); [done..|congruence].
Qed.

Lemma filled_keep π : vpath π → node s i π ≠ 0 → node s' i π = node s i π.
Proof. intros Hv Hn. rewrite filled_node by done. case_decide; [by subst|done]. Qed.

Lemma filled_file_ok : file_ok s' i.
Proof.
  destruct (fi_frame _ _ _ _ _ Hf) as (_ & Hh & _ & Hsb & _).
  destruct (data_range s b Hwf (fi_data _ _ _ _ _ Hf)) as (? & ? & ?).
  split; [apply Hf| |].
  - intros π Hv. rewrite filled_node, Hh by done. unfold is_data. rewrite Hsb. intros Hn.
    case_decide as Hd.
    + split; [apply Hf|]. rewrite (fi_bit _ _ _ _ _ Hf), Z.eqb_refl by lia. split; [done|].
      intros Hin. destruct (wf_held s Hwf b Hin). rewrite (fi_free _ _ _ _ _ Hf) in *. done.
    + destruct (fo_node s i Hok π Hv Hn) as (Hda & Hb & ?). split; [done|]. split; [|done].
      destruct (data_range s _ Hwf Hda) as (? & ? & ?).
      rewrite (fi_bit _ _ _ _ _ Hf), Hb by lia. apply orb_true_r.
  - intros π1 π2 Hv1 Hv2. rewrite !filled_node by done.
    repeat case_decide; subst; try done.
    + intros _ E. by destruct (filled_fresh π2 Hv2).
    + intros _ E. by destruct (filled_fresh π1 Hv1).
    + by apply (fo_inj s i Hok).
Qed.

(** File contents are not changed: a new block is filled with zeroes. *)
Lemma filled_block n : 0 ≤ n < NDOUBLE → fblock s' i n = fblock s i n.
Proof.
  intros Hn. unfold fblock. pose proof (fpath_valid n Hn) as Hv. rewrite filled_node by done.
  pose proof filled_pos. case_decide as Hd.
  - subst τ. rewrite H0. simpl. rewrite (proj2 (Z.eqb_neq b 0)) by lia. apply Hf.
  - destruct (Z.eqb_spec (node s i (fpath n)) 0) as [|Hz]; [done|].
    apply (fi_other _ _ _ _ _ Hf).
    + by apply (fo_node s i Hok).
    + by apply filled_fresh.
    + intros π j -> Hne Heq. destruct (vpath_snoc _ _ Hτ Hne) as [Hvp _].
      apply (fo_inj s i Hok) in Heq; [|done..|congruence]. subst π. by apply (fpath_leaf n j).
Qed.

Lemma filled_extends : extends 1 i s s' ∧ node s' i τ = b.
Proof.
  split; [|rewrite filled_node by done; by rewrite decide_True].
  split; [|apply filled_block|rewrite (fi_nfree _ _ _ _ _ Hf); lia]. split; try apply Hf.
  - apply filled_file_ok.
  - apply filled_keep.
  - intros π Hv. rewrite filled_node by done. case_decide; [right; apply Hf|by left].
  - intros x Hx Hb. rewrite (fi_bit _ _ _ _ _ Hf), Hb by done. apply orb_true_r.
  - intros x Hx Hb Hne. apply (fi_other _ _ _ _ _ Hf); [done| |].
    + intros ->. rewrite (fi_free _ _ _ _ _ Hf) in Hb. done.
    + intros π j -> Hn. apply Hne. by apply (vpath_snoc _ _ Hτ).
Qed.
End Filled.

(** ** The slots of the tree *)

(** The result of looking up, or filling, the place [τ]. *)
Definition slot_post (i : nat) (τ : list nat) (s : fsys) (b : Z) (s' : fsys) : Prop :=
  extends 1 i s s' ∧ node s' i τ = b ∧ b ≠ 0 ∧ (node s i τ ≠ 0 → s' = s).

Lemma extends_mono j k i s s' : (j ≤ k)%nat → extends j i s s' → extends k i s s'.
Proof. intros Hle [? ? ?]. split; [done..|lia]. Qed.

Lemma nth_lookup_some {A} (l : list A) k d x : l !! k = Some x → nth k l d = x.
Proof. intros H. by apply nth_lookup_Some. Qed.

Lemma file_slot s i : file_ok s i → ∃ ip, icache s !! i = Some ip ∧ faddrs s i = addrs ip.
Proof.
  intros H. pose proof (fo_len s i H) as Hl. unfold faddrs in *.
  destruct (icache s !! i) as [ip|]; [by exists ip|done].
Qed.

Lemma slot_hit i τ s : fs_wf s → file_ok s i → node s i τ ≠ 0 → slot_post i τ s (node s i τ) s.
Proof.
  intros. split; [|done]. apply (extends_mono 0); [lia|]. by apply extends_refl.
Qed.

Lemma wf_icache s l : fs_wf s → fs_wf (s <| icache := l |>).
Proof. intros H. split; apply H. Qed.

(** A fresh block stored in [addrs[k]]. *)
Lemma filled_root i k b s s1 :
  file_ok s i → fs_wf s → (k < 13)%nat → allocated s b s1 →
  filled i [k] b s (s1 <| icache := alter (λ ip, ip <| addrs := <[k := b]> (addrs ip) |>) i (icache s1) |>).
Proof.
  intros Hok Hwf Hk Hal. destruct (file_slot s i Hok) as (ip & Hi & Ha).
  destruct (al_frame _ _ _ Hal) as (? & ? & ? & ? & Hic & ? & ? & ?).
  pose proof (fo_len s i Hok) as Hlen.
  assert (Hfa : faddrs (s1 <| icache := alter (λ ip, ip <| addrs := <[k := b]> (addrs ip) |>) i (icache s1) |>) i
                = <[k := b]> (faddrs s i)).
  { unfold faddrs at 1; simpl. rewrite Hic, list_lookup_alter_eq, Hi; simpl. by rewrite Ha. }
  split; try (apply Hal).
  - intros x Hx Hne _. by apply (al_other _ _ _ Hal).
  - intros π j Heq Hne. destruct π as [|? [|]]; done.
  - intros k' Hk'. unfold node; simpl. rewrite Hfa. case_decide as Hd.
    + simplify_eq. apply nth_lookup_some. rewrite list_lookup_insert_eq; [done|lia].
    + rewrite !nth_lookup, list_lookup_insert_ne; [done|]. congruence.
  - rewrite Hfa, length_insert. done.
  - rewrite (nfree_alloc s b s1) by done. done.
  - apply wf_icache, Hal.
  - simpl. rewrite Hic. apply list_alter_ext; [|done]. intros ip' Hi'. simplify_eq.
    rewrite Hic in Hfa. simpl. rewrite Hfa, Ha. done.
  - repeat split; done.
Qed.

Lemma addr_slot_ok i k s (Q : Z → fsys → Prop) :
  fs_wf s → file_ok s i → (k < 13)%nat → node s i [k] ≠ 0 ∨ (0 < nfree s)%nat →
  (∀ b s', slot_post i [k] s b s' → Q b s') → returns (addr_slot i k) s Q.
Proof.
  intros Hwf Hok Hk Hfree HQ. destruct (file_slot s i Hok) as (ip & Hi & Ha).
  pose proof (fo_len s i Hok) as Hlen. rewrite Ha in Hlen.
  destruct (addrs ip !! k) as [a|] eqn:Hka; [|apply lookup_ge_None in Hka; lia].
  assert (Hn : node s i [k] = a) by (unfold node; simpl; rewrite Ha; by apply nth_lookup_some).
  unfold addr_slot. mgo. apply (returns_geti _ _ ip); [done|]. rewrite Hka.
  destruct (Z.eqb_spec a 0) as [->|Hz].
  - mgo. apply balloc_ok; [done|apply nfree_pos; tauto|]. intros b s1 _ Hal.
    unfold seti. mgo. apply HQ. pose proof (filled_root i k b s s1 Hok Hwf Hk Hal) as Hf.
    assert (Hv : vpath [k]) by (repeat split; [done|simpl; lia|constructor]).
    destruct (filled_extends _ _ _ _ _ Hwf Hok Hv Hn Hf) as [Hex Hb].
    split; [done|]. split; [done|]. pose proof (filled_pos _ _ _ _ _ Hwf Hf).
    split; [lia|]. intros. congruence.
  - mgo. apply HQ. rewrite <-Hn in Hz |- *. by apply slot_hit.
Qed.

(** A fresh block stored in entry [j] of the locked indirect block [p]. *)
Lemma filled_indirect i π j b p s s2 :
  fs_wf s → file_ok s i → π ≠ [] → vpath (π ++ [j]) → node s i π = p → p ≠ 0 →
  allocated (s <| bheld := {[p]} ∪ bheld s |>) b s2 →
  filled i (π ++ [j]) b s
    ((put_block p (put32 (blocks s2 p) (4 * j) b) s2) <| bheld := bheld s2 ∖ {[p]} |>).
Proof.
  intros Hwf Hok Hne Hv Hp Hz Hal. destruct (vpath_snoc _ _ Hv Hne) as [Hvp Hj].
  destruct (al_frame _ _ _ Hal) as (? & Hh & ? & Hsb & Hic & ? & ? & Hlog). simpl in *.
  destruct (fo_node s i Hok π Hvp) as (Hda & Hb & Hnh); [congruence|]. rewrite Hp in *.
  assert (Hbp : b ≠ p) by (intros ->; pose proof (al_free _ _ _ Hal) as Hf; change (bit s p = false) in Hf; congruence).
  assert (Hdp : is_data s2 p) by (unfold is_data; by rewrite Hsb).
  pose proof (al_wf _ _ _ Hal) as Hwf2.
  pose proof (nfree_alloc _ b s2 (wf_hold s p Hwf Hda Hb) Hal) as Hnf.
  assert (Hfa : faddrs ((put_block p (put32 (blocks s2 p) (4 * j) b) s2) <| bheld := bheld s2 ∖ {[p]} |>) i
    = faddrs s i) by (unfold faddrs; simpl; by rewrite Hic).
  assert (Hbits : ∀ x, 0 ≤ x < sb_size (sb s) →
    bit (put_block p (put32 (blocks s2 p) (4 * j) b) s2) x = bit s2 x).
  { intros x Hx. apply bit_other; [by rewrite Hsb|done]. }
  assert (Hrange : 0 ≤ b < two32).
  { destruct (data_range _ b (wf_hold s p Hwf Hda Hb) (al_data _ _ _ Hal)) as (? & Hlt & ?).
    pose proof (wf_size s Hwf). simpl in *. unfold two32. lia. }
  assert (Hblk : is_block (blocks s2 p)) by apply Hwf2.
  assert (Hpb : blocks s2 p = blocks s p) by (apply (al_other _ _ _ Hal p Hda); done).
  split; try apply Hal; simpl.
  - intros x Hx. etrans; [by apply Hbits|]. by apply (al_bit _ _ _ Hal).
  - rewrite upd_ne by done. apply Hal.
  - intros x Hx Hxb Hpar. rewrite upd_ne by (intros ->; by apply (Hpar π j)).
    by apply (al_other _ _ _ Hal).
  - intros π' j' [<- <-]%app_inj_tail _ k Hk. rewrite Hp. unfold child. simpl.
    rewrite (proj2 (Z.eqb_neq p 0)), upd_eq by done. destruct Hblk as [Hl _]. case_decide as Hd.
    + subst. by rewrite get32_put32_eq by lia.
    + rewrite get32_put32_ne by lia. by rewrite Hpb.
  - intros k Hk. rewrite decide_False; [exact (f_equal (λ l, nth k l 0) Hfa)|].
    intros E. destruct π as [|? [|]]; done.
  - exact (eq_trans (f_equal length Hfa) (fo_len s i Hok)).
  - intros x Hx. pose proof (data_above s p Hwf Hda).
    rewrite upd_ne by lia. by apply (al_low _ _ _ Hal).
  - etrans; [exact Hnf|]. f_equal. symmetry. apply nfree_ext; [done|]. simpl. rewrite Hsb. apply Hbits.
  - refine (wf_release (put_block p _ s2) p _ _); [|left; simpl; set_solver].
    apply wf_put_data; [done..|]. by apply is_block_put32.
  - rewrite Hic. etrans; [apply alter_same_addrs|]. by rewrite <-Hfa.
  - repeat split; try done; [|set_solver]. rewrite Hh. by apply hold_release.
Qed.

Lemma ind_slot_ok i π j p s (Q : Z → fsys → Prop) :
  fs_wf s → file_ok s i → π ≠ [] → vpath (π ++ [j]) → node s i π = p → p ≠ 0 →
  node s i (π ++ [j]) ≠ 0 ∨ (0 < nfree s)%nat →
  (∀ b s', slot_post i (π ++ [j]) s b s' → Q b s') → returns (ind_slot p (Z.of_nat j)) s Q.
Proof.
  intros Hwf Hok Hne Hv Hp Hz Hfree HQ. destruct (vpath_snoc _ _ Hv Hne) as [Hvp Hj].
  destruct (fo_node s i Hok π Hvp) as (Hda & Hb & Hnh); [congruence|]. rewrite Hp in *.
  destruct (data_range s p Hwf Hda) as (? & ? & ?).
  assert (Hch : node s i (π ++ [j]) = get32 (blocks s p) (4 * j)).
  { rewrite node_snoc, Hp by done. unfold child. by rewrite (proj2 (Z.eqb_neq p 0)). }
  unfold ind_slot. mgo. apply returns_bread; [done..|]. unfold NINDIRECT.
  rewrite (proj2 (Z.leb_gt 128 _)) by lia. mgo. apply returns_bdata; [simpl; set_solver|]. simpl.
  replace (Z.to_nat (4 * Z.of_nat j)) with (4 * j)%nat by lia. rewrite <-Hch.
  destruct (Z.eqb_spec (node s i (π ++ [j])) 0) as [Hch0|Hch0].
  - mgo. apply balloc_ok; [by apply wf_hold|apply (nfree_pos s); tauto|]. intros b s2 _ Hal.
    destruct (al_frame _ _ _ Hal) as (_ & Hh & _). simpl in Hh.
    mgo. apply returns_bdata; [rewrite Hh; set_solver|]. mgo.
    apply returns_bstore; [rewrite Hh; set_solver|]. mgo.
    apply returns_log_write; [simpl; rewrite Hh; set_solver|]. mgo.
    apply returns_brelse; simpl; [rewrite Hh; set_solver|left; set_solver|]. mgo. apply HQ.
    pose proof (filled_indirect i π j b p s s2 Hwf Hok Hne Hv Hp Hz Hal) as Hf.
    destruct (filled_extends _ _ _ _ _ Hwf Hok Hv Hch0 Hf) as [Hex Hbn].
    split; [done|]. split; [done|]. pose proof (filled_pos _ _ _ _ _ Hwf Hf).
    split; [lia|]. done.
  - mgo. apply returns_brelse; simpl; [set_solver|by apply (wf_logged s Hwf)|]. mgo.
    rewrite hold_release by done. replace (set _ _ _) with s by (by destruct s).
    apply HQ. by apply slot_hit.
Qed.

Lemma node_parent s i π j : π ≠ [] → node s i (π ++ [j]) ≠ 0 → node s i π ≠ 0.
Proof. intros Hne H E. rewrite node_snoc, E in H by done. done. Qed.

(** A second slot after the first. *)
Lemma slot_then m i π j s s1 b s2 :
  extends m i s s1 → slot_post i (π ++ [j]) s1 b s2 → extends (m + 1) i s s2.
Proof. intros H1 [H2 _]. by eapply extends_trans. Qed.

(** The result of [bmap]. *)
Definition bmap_post (i : nat) (n : Z) (s : fsys) (b : Z) (s' : fsys) : Prop :=
  extends 3 i s s' ∧ node s' i (fpath n) = b ∧ b ≠ 0 ∧ (node s i (fpath n) ≠ 0 → s' = s).

Lemma slot_bmap i n s b s' : slot_post i (fpath n) s b s' → bmap_post i n s b s'.
Proof. intros (? & ? & ? & ?). split; [by apply (extends_mono 1); [lia|]|done]. Qed.

(** An indirect slot below a place that was just looked up or filled. *)
Lemma next_slot m i π j p s s1 (Q : Z → fsys → Prop) :
  extends m i s s1 → π ≠ [] → vpath (π ++ [j]) → node s1 i π = p → p ≠ 0 →
  (node s i (π ++ [j]) ≠ 0 → s1 = s) →
  node s i (π ++ [j]) ≠ 0 ∨ (m < nfree s)%nat →
  (∀ b s', extends (m + 1) i s s' → node s' i (π ++ [j]) = b → b ≠ 0 →
           (node s i (π ++ [j]) ≠ 0 → s' = s) → Q b s') →
  returns (ind_slot p (Z.of_nat j)) s1 Q.
Proof.
  intros Hex Hne Hv Hp Hz Hsame Hfree HQ. pose proof (ex_free _ _ _ _ Hex) as Hnf.
  apply (ind_slot_ok i π j); try done; [apply (ex_touches _ _ _ _ Hex)|apply (ex_touches _ _ _ _ Hex)| |].
  - destruct Hfree as [Hn|Hn]; [left; by rewrite Hsame|right; lia].
  - intros b s' Hs. pose proof (slot_then m i π j s s1 b s' Hex Hs).
    destruct Hs as (_ & ? & ? & Hid). apply HQ; try done.
    intros Hn. specialize (Hsame Hn). subst s1. by apply Hid.
Qed.

Lemma bmap_ok i n s (Q : Z → fsys → Prop) :
  fs_wf s → file_ok s i → 0 ≤ n < NDOUBLE → node s i (fpath n) ≠ 0 ∨ (3 ≤ nfree s)%nat →
  (∀ b s', bmap_post i n s b s' → Q b s') → returns (bmap i n) s Q.
Proof.
  intros Hwf Hok Hn Hfree HQ. pose proof (fpath_valid n Hn) as Hv.
  unfold bmap, NDIRECT, NINDIRECT. cbv zeta.
  unfold fpath in Hfree, Hv.
  destruct (Z.ltb_spec n 10) as [H10|H10].
  { apply addr_slot_ok; [done..|lia|destruct Hfree; [by left|right; lia]|].
    intros b s' Hs. apply HQ, slot_bmap. unfold fpath. by rewrite (proj2 (Z.ltb_lt n 10)). }
  replace (n - 10 <? 128) with (n <? 138) by lia.
  destruct (Z.ltb_spec n 138) as [H138|H138].
  { mgo. apply addr_slot_ok; [done..|lia| |].
    { destruct Hfree as [Hf|]; [left; by apply (node_parent s i [10%nat]) in Hf|right; lia]. }
    intros p s1 (Hex & Hp & Hz & Hid).
    rewrite <-(Z2Nat.id (n - 10)) by lia.
    apply (next_slot 1 i [10%nat] _ p s s1); try done.
    { intros Hf. apply Hid. by apply (node_parent s i [10%nat]) in Hf. }
    { destruct Hfree; [by left|right; lia]. }
    intros b s' Hex' Hb Hbz Hid'. apply HQ. unfold bmap_post, fpath.
    rewrite (proj2 (Z.ltb_ge n 10)), (proj2 (Z.ltb_lt n 138)) by done.
    split; [by apply (extends_mono 2); [lia|]|done]. }
  replace (n - 10 - 128 <? 128 * 128) with true by (unfold NDOUBLE in Hn; lia).
  replace (n - 10 - 128) with (n - 138) by lia.
  destruct (div_mod_128 n ltac:(unfold NDOUBLE in Hn; lia)) as (? & ? & _).
  set (d := Z.to_nat ((n - 138) / 128)) in *. set (e := Z.to_nat ((n - 138) mod 128)) in *.
  assert (Hanc : node s i [11%nat; d; e] ≠ 0 → node s i [11%nat; d] ≠ 0 ∧ node s i [11%nat] ≠ 0).
  { intros Hf. apply (node_parent s i [11%nat; d]) in Hf; [|done]. split; [done|].
    by apply (node_parent s i [11%nat]) in Hf. }
  mgo. apply addr_slot_ok; [done..|lia|destruct Hfree; [left; tauto|right; lia]|].
  intros p s1 (Hex & Hp & Hz & Hid). mgo.
  rewrite <-(Z2Nat.id ((n - 138) / 128)), <-(Z2Nat.id ((n - 138) mod 128)) by lia. fold d e.
  apply (next_slot 1 i [11%nat] _ p s s1); try done.
  { by apply (vpath_snoc [11%nat; d]) in Hv as [??]. }
  { intros Hf. apply Hid. by apply (node_parent s i [11%nat]) in Hf. }
  { destruct Hfree; [left; tauto|right; lia]. }
  intros q s2 Hex2 Hq Hqz Hid2.
  apply (next_slot 2 i [11%nat; d] _ q s s2); try done.
  { intros Hf. apply Hid2. by apply (node_parent s i [11%nat; d]) in Hf. }
  intros b s' Hex' Hb Hbz Hid'. apply HQ. unfold bmap_post, fpath.
  rewrite (proj2 (Z.ltb_ge n 10)), (proj2 (Z.ltb_ge n 138)) by done. done.
Qed.

(** ** Writing to a block of the file *)

Section Store.
Context (s : fsys) (i : nat) (n : Z) (d : blk).
Context (Hwf : fs_wf s) (Hok : file_ok s i) (Hn : 0 ≤ n < NDOUBLE) (Hd : is_block d).
Context (Hb : node s i (fpath n) ≠ 0).
Local Abbreviation b := (node s i (fpath n)).
Local Abbreviation s' := (put_block b d s).

Lemma store_data : is_data s b.
Proof. by apply (fo_node s i Hok); [apply fpath_valid|]. Qed.

Lemma store_node π : vpath π → node s' i π = node s i π.
Proof.
  induction π as [|j π IH] using rev_ind; [done|]. intros Hv.
  destruct (decide (π = [])) as [->|Hne]; [done|].
  destruct (vpath_snoc _ _ Hv Hne) as [Hvp _]. rewrite !node_snoc, IH by done.
  destruct (decide (node s i π = 0)) as [->|Hz]; [done|].
  unfold child. simpl. rewrite upd_ne; [done|]. intros E.
  apply (fo_inj s i Hok) in E; [|done|by apply fpath_valid|done]. subst π. by apply (fpath_leaf n j).
Qed.

Lemma store_block m : 0 ≤ m < NDOUBLE → fblock s' i m = if decide (m = n) then d else fblock s i m.
Proof.
  intros Hm. unfold fblock. rewrite store_node by (by apply fpath_valid). case_decide as E.
  - subst m. rewrite (proj2 (Z.eqb_neq _ 0)) by done. simpl. by rewrite upd_eq.
  - destruct (Z.eqb_spec (node s i (fpath m)) 0); [done|]. simpl. rewrite upd_ne; [done|].
    intros He. apply E, fpath_inj; [done..|]. by apply (fo_inj s i Hok); try apply fpath_valid.
Qed.

Lemma store_bit x : 0 ≤ x < sb_size (sb s) → bit s' x = bit s x.
Proof. intros. apply bit_other; [done|apply store_data]. Qed.

Lemma store_touches : touches i s s'.
Proof.
  pose proof store_data as Hda. split; try done.
  - by apply wf_put_data.
  - split; [apply Hok| |].
    + intros π Hv. rewrite store_node by done. intros Hz.
      destruct (fo_node s i Hok π Hv Hz) as (Hp & ? & ?). split; [done|]. split; [|done].
      destruct (data_range s _ Hwf Hp) as (? & ? & ?). rewrite store_bit by lia. done.
    + intros π1 π2 Hv1 Hv2. rewrite !store_node by done. by apply (fo_inj s i Hok).
  - intros π Hv _. by apply store_node.
  - intros π Hv _. left. by apply store_node.
  - intros x Hx. by rewrite store_bit.
  - intros x _ _ Hne. simpl. rewrite upd_ne; [done|]. intros E. apply (Hne (fpath n)); [|done].
    by apply fpath_valid.
  - intros x Hx. simpl. rewrite upd_ne; [done|]. pose proof (data_above s _ Hwf Hda). lia.
  - exact (alter_same_addrs s i).
  - repeat split. simpl. set_solver.
Qed.

Lemma store_nfree : nfree s' = nfree s.
Proof. apply nfree_ext; [done|apply store_bit]. Qed.
End Store.

(** ** Bytes of a file *)

Definition fbyte (s : fsys) (i : nat) (x : Z) : Z :=
  byte (fblock s i (x / BSIZE)) (Z.to_nat (x mod BSIZE)).

(** The blocks among the [cnt] from [lo] on that the file does not have. *)
Definition nmissing (s : fsys) (i : nat) (lo : Z) (cnt : Z) : nat :=
  length (filter (λ n, node s i (fpath n) = 0) (seqZ lo cnt)).

(** The number of blocks that [len] bytes from [off] on touch. *)
Definition nspan (off len : Z) : Z := (off + len + BSIZE - 1) / BSIZE - off / BSIZE.

Lemma nmissing_cons s i lo cnt :
  0 < cnt → nmissing s i lo cnt =
    ((if decide (node s i (fpath lo) = 0%Z) then 1 else 0) + nmissing s i (lo + 1)%Z (cnt - 1)%Z)%nat.
Proof.
  intros Hc. unfold nmissing. rewrite seqZ_cons by done. rewrite filter_cons.
  replace (Z.succ lo) with (lo + 1) by lia. replace (Z.pred cnt) with (cnt - 1) by lia.
  by case_decide.
Qed.

Lemma nmissing_mono s s' i lo cnt :
  (∀ n, lo ≤ n < lo + cnt → node s i (fpath n) ≠ 0 → node s' i (fpath n) ≠ 0) →
  (nmissing s' i lo cnt ≤ nmissing s i lo cnt)%nat.
Proof.
  intros H. unfold nmissing. assert (Hs : ∀ n, n ∈ seqZ lo cnt → lo ≤ n < lo + cnt)
    by (intros n; by rewrite elem_of_seqZ).
  revert Hs. induction (seqZ lo cnt) as [|n l IH]; intros Hs; [done|]. rewrite !filter_cons.
  assert (Hn : lo ≤ n < lo + cnt) by (apply Hs; left).
  specialize (IH ltac:(intros m Hm; apply Hs; by right)).
  repeat case_decide; simpl; try lia. by destruct (H n Hn).
Qed.

Lemma nmissing_0 s i lo cnt n :
  nmissing s i lo cnt = 0%nat → lo ≤ n < lo + cnt → node s i (fpath n) ≠ 0.
Proof.
  intros H Hn E. unfold nmissing in H. apply nil_length_inv in H.
  assert (Hin : n ∈ filter (λ n, node s i (fpath n) = 0) (seqZ lo cnt))
    by (apply list_elem_of_filter; rewrite elem_of_seqZ; auto).
  rewrite H in Hin. by apply not_elem_of_nil in Hin.
Qed.

Definition NBYTES : Z := NDOUBLE * BSIZE.

Lemma block_of x : 0 ≤ x < NBYTES → 0 ≤ x / BSIZE < NDOUBLE.
Proof.
  unfold NBYTES, BSIZE. intros. split; [apply Z.div_pos; lia|apply Z.div_lt_upper_bound; lia].
Qed.

(** A range of bytes within a block. *)
Definition chunk (off len : Z) : Z := Z.min len (BSIZE - off mod BSIZE).

Lemma chunk_bounds off len : 0 ≤ off → 0 < len →
  0 < chunk off len ≤ len ∧ off mod BSIZE + chunk off len ≤ BSIZE ∧ 0 ≤ off mod BSIZE.
Proof. unfold chunk, BSIZE. intros. pose proof (Z.mod_pos_bound off 512). lia. Qed.

(** Where the bytes of a chunk are. *)
Lemma chunk_index off len x : 0 ≤ off → 0 < len →
  off ≤ x < off + chunk off len →
  x / BSIZE = off / BSIZE ∧ x mod BSIZE = off mod BSIZE + (x - off).
Proof.
  intros Ho Hl Hx. destruct (chunk_bounds off len Ho Hl) as (? & ? & ?). unfold BSIZE in *.
  pose proof (Z.div_mod off 512). split.
  - symmetry. apply (Z.div_unique _ _ _ (off mod 512 + (x - off))); lia.
  - symmetry. apply (Z.mod_unique _ _ (off / 512)); lia.
Qed.

Lemma chunk_back off len x : 0 ≤ off → 0 < len → x / BSIZE = off / BSIZE →
  off mod BSIZE ≤ x mod BSIZE < off mod BSIZE + chunk off len → off ≤ x < off + chunk off len.
Proof.
  unfold BSIZE. intros Ho Hl Hq Hm. pose proof (Z.div_mod off 512). pose proof (Z.div_mod x 512). lia.
Qed.

(** The rest of the range after a chunk starts a block. *)
Lemma chunk_rest off len : 0 ≤ off → chunk off len < len →
  (off + chunk off len) / BSIZE = off / BSIZE + 1 ∧
  nspan (off + chunk off len) (len - chunk off len) = nspan off len - 1.
Proof.
  intros Ho Hl. unfold nspan, chunk in *. unfold BSIZE in *.
  pose proof (Z.mod_pos_bound off 512). pose proof (Z.div_mod off 512).
  assert (E : (off + Z.min len (512 - off mod 512)) / 512 = off / 512 + 1).
  { symmetry. apply (Z.div_unique _ _ _ 0); lia. }
  split; [done|]. rewrite E.
  replace (off + Z.min len (512 - off mod 512) + (len - Z.min len (512 - off mod 512)) + 512 - 1)
    with (off + len + 512 - 1) by lia. lia.
Qed.

Lemma nspan_pos off len : 0 ≤ off → 0 < len → 0 < nspan off len.
Proof.
  intros. unfold nspan, BSIZE.
  assert (off / 512 + 1 ≤ (off + len + 512 - 1) / 512); [|lia].
  rewrite <-Z.div_add by lia. apply Z.div_le_mono; lia.
Qed.

Lemma nspan_last off len : 0 ≤ off → 0 < len → chunk off len = len → nspan off len = 1.
Proof.
  intros Ho Hl Hc. pose proof (nspan_pos off len Ho Hl). unfold nspan, chunk in *. unfold BSIZE in *.
  assert ((off + len + 512 - 1) / 512 < off / 512 + 2); [|lia].
  apply Z.div_lt_upper_bound; [lia|]. pose proof (Z.div_mod off 512). lia.
Qed.

Lemma nspan_max off len : off + len ≤ NBYTES → off / BSIZE + nspan off len ≤ NDOUBLE.
Proof.
  intros H. unfold nspan, NBYTES, BSIZE in *.
  assert ((off + len + 512 - 1) / 512 < NDOUBLE + 1); [apply Z.div_lt_upper_bound; lia|lia].
Qed.

(** Overwriting a chunk, byte by byte. *)
Lemma splice_fbyte s s' i off len l :
  0 ≤ off → 0 < len → off + len ≤ NBYTES → Z.of_nat (length l) = chunk off len →
  is_block (fblock s i (off / BSIZE)) →
  (∀ m, 0 ≤ m < NDOUBLE → fblock s' i m =
     if decide (m = off / BSIZE) then splice (fblock s i (off / BSIZE)) (Z.to_nat (off mod BSIZE)) l
     else fblock s i m) →
  ∀ x, 0 ≤ x < NBYTES → fbyte s' i x =
    if decide (off ≤ x < off + chunk off len) then byte l (Z.to_nat (x - off)) else fbyte s i x.
Proof.
  intros Ho Hl Hmax Hll [Hlen _] Hblk x Hx. unfold fbyte. rewrite Hblk by (by apply block_of).
  destruct (chunk_bounds off len Ho Hl) as (? & Hb & ?).
  pose proof (Z.mod_pos_bound x BSIZE ltac:(done)).
  destruct (decide (off ≤ x < off + chunk off len)) as [Hin|Hout].
  - destruct (chunk_index off len x Ho Hl Hin) as [-> Hm]. rewrite decide_True by done.
    rewrite byte_splice by (unfold BSIZE in *; lia). rewrite Hm, decide_True by lia.
    f_equal. lia.
  - case_decide as Hq; [|done]. rewrite byte_splice by (unfold BSIZE in *; lia).
    rewrite decide_False; [by rewrite Hq|]. intros Hr. apply Hout, chunk_back; try done. lia.
Qed.

Lemma fblock_is_block s i n : fs_wf s → is_block (fblock s i n).
Proof. intros Hwf. unfold fblock. case_if; [apply is_block_zeros|apply Hwf]. Qed.

Lemma node_fblock s i n : node s i (fpath n) ≠ 0 → blocks s (node s i (fpath n)) = fblock s i n.
Proof. intros H. unfold fblock. by rewrite (proj2 (Z.eqb_neq _ 0)). Qed.

(** What a write of [l] at [off] does to the file. *)
Record wrote (i : nat) (off : Z) (l : list Z) (s s' : fsys) : Prop := {
  wr_touches : touches i s s';
  wr_bytes : ∀ x, 0 ≤ x < NBYTES → fbyte s' i x =
    if decide (off ≤ x < off + Z.of_nat (length l)) then byte l (Z.to_nat (x - off)) else fbyte s i x;
  wr_nodes : ∀ x, off ≤ x < off + Z.of_nat (length l) → node s' i (fpath (x / BSIZE)) ≠ 0;
  wr_same : (∀ x, off ≤ x < off + Z.of_nat (length l) → node s i (fpath (x / BSIZE)) ≠ 0) →
    icache s' = icache s
}.

(** One round of the loop of [writei]: the rest of a block is overwritten. *)
Lemma write_round i off len l s (k : M fsys unit) (Q : unit → fsys → Prop) :
  fs_wf s → file_ok s i → 0 ≤ off → 0 < len → off + len ≤ NBYTES →
  Z.of_nat (length l) = chunk off len → Forall (λ x, 0 ≤ x < 256) l →
  node s i (fpath (off / BSIZE)) ≠ 0 ∨ (3 ≤ nfree s)%nat →
  (∀ s', wrote i off l s s' → (nfree s ≤ nfree s' + 3)%nat →
         (node s i (fpath (off / BSIZE)) ≠ 0 → nfree s' = nfree s) →
         returns k s' Q) →
  returns (bno ← bmap i (off / BSIZE);
           _ ← bread bno;
           d ← bdata bno;
           _ ← bstore bno (splice d (Z.to_nat (off mod BSIZE)) l);
           _ ← log_write bno;
           _ ← brelse bno;
           k) s Q.
Proof.
  intros Hwf Hok Ho Hl Hmax Hll Hlb Hfree HQ.
  assert (Hn : 0 ≤ off / BSIZE < NDOUBLE) by (apply block_of; lia).
  destruct (chunk_bounds off len Ho Hl) as (Hc & Hcb & Hm).
  mgo. apply bmap_ok; [done..|]. intros b s1 (Hex & Hb & Hz & Hid). mgo.
  pose proof (ex_touches _ _ _ _ Hex) as Ht1. pose proof (to_wf _ _ _ Ht1) as Hwf1.
  pose proof (to_ok _ _ _ Ht1) as Hok1.
  destruct (fo_node s1 i Hok1 _ (fpath_valid _ Hn)) as (Hda & _ & Hnh); [congruence|].
  rewrite Hb in Hda, Hnh. destruct (data_range s1 b Hwf1 Hda) as (? & ? & ?).
  apply returns_bread; [done..|]. mgo. apply returns_bdata; [simpl; set_solver|]. simpl.
  set (d' := splice _ _ _).
  assert (Hd' : is_block d').
  { apply is_block_splice; [apply Hwf1|done|]. unfold BSIZE in *. lia. }
  apply (returns_bind_assoc3 _ _ _ k). apply returns_bind, returns_store_log; [done|].
  assert (Hz1 : node s1 i (fpath (off / BSIZE)) ≠ 0) by congruence.
  pose proof (store_touches s1 i _ d' Hwf1 Hok1 Hn Hd' Hz1) as Ht2. rewrite Hb in Ht2.
  pose proof (store_nfree s1 i _ d' Hok1 Hn Hz1) as Hnf. rewrite Hb in Hnf.
  pose proof (touches_trans _ _ _ _ Ht1 Ht2) as Ht. pose proof (ex_free _ _ _ _ Hex).
  assert (Hnode : node (put_block b d' s1) i (fpath (off / BSIZE)) ≠ 0).
  { rewrite (to_node _ _ _ Ht2); [done|by apply fpath_valid|done]. }
  apply HQ; [|lia|intros Hz0; by rewrite Hnf, Hid]. split; [done| | |].
  - rewrite Hll. apply (splice_fbyte s _ i off len l); try done; [by apply fblock_is_block|].
    intros m Hm'. rewrite <-Hb, store_block by done. rewrite <-!(ex_block _ _ _ _ Hex) by done.
    case_decide; [|done]. subst d'. by rewrite <-node_fblock, Hb.
  - intros x Hx. rewrite Hll in Hx. by destruct (chunk_index off len x Ho Hl Hx) as [-> _].
  - intros Hall. simpl. rewrite Hid; [done|]. apply Hall. lia.
Qed.

(** A write is a write of its first part followed by a write of the rest. *)
Lemma wrote_app i off l1 l2 s1 s2 s3 :
  0 ≤ off → off + Z.of_nat (length (l1 ++ l2)) ≤ NBYTES →
  wrote i off l1 s1 s2 → wrote i (off + Z.of_nat (length l1)) l2 s2 s3 →
  wrote i off (l1 ++ l2) s1 s3.
Proof.
  rewrite length_app. intros Ho Hmax H1 H2.
  assert (Hkeep : ∀ (s s' : fsys) x, touches i s s' → 0 ≤ x < NBYTES →
    node s i (fpath (x / BSIZE)) ≠ 0 → node s' i (fpath (x / BSIZE)) ≠ 0).
  { intros s s' x Ht Hx Hz. rewrite (to_node _ _ _ Ht); [done|by apply fpath_valid, block_of|done]. }
  split.
  - eapply touches_trans; [apply H1|apply H2].
  - intros x Hx. rewrite (wr_bytes _ _ _ _ _ H2), (wr_bytes _ _ _ _ _ H1), length_app by done.
    unfold byte. repeat case_decide; try lia; try done.
    + rewrite lookup_app_r by lia. do 2 f_equal. lia.
    + by rewrite lookup_app_l by lia.
  - intros x Hx. rewrite length_app in Hx.
    destruct (decide (x < off + Z.of_nat (length l1))).
    + apply (Hkeep s2); [apply H2|lia|]. apply H1. lia.
    + apply H2. lia.
  - intros Hall. rewrite length_app in Hall.
    rewrite (wr_same _ _ _ _ _ H2); [apply H1; intros x Hx; apply Hall; lia|].
    intros x Hx. apply (Hkeep s1); [apply H1|lia|]. apply Hall. lia.
Qed.

Lemma wrote_nil i off s : fs_wf s → file_ok s i → wrote i off [] s s.
Proof.
  intros. split; [by apply touches_refl| |simpl; lia|done].
  intros x Hx. rewrite decide_False by (simpl; lia). done.
Qed.

Lemma writei_loop_ok fuel i : ∀ off src s,
  fs_wf s → file_ok s i → 0 ≤ off → off + Z.of_nat (length src) ≤ NBYTES →
  Forall (λ x, 0 ≤ x < 256) src → (length src ≤ fuel)%nat →
  (3 * nmissing s i (off / BSIZE) (nspan off (Z.of_nat (length src))) ≤ nfree s)%nat →
  returns (writei_loop fuel i off src) s (λ _ s', wrote i off src s s').
Proof.
  induction fuel as [|fuel IH]; intros off src s Hwf Hok Ho Hmax Hsrc Hfu Hfree;
    destruct src as [|x0 src]; [by apply wrote_nil|simpl in Hfu; lia|by apply wrote_nil|].
  simpl writei_loop. set (l := x0 :: src) in *. set (len := Z.of_nat (length l)) in *.
  assert (Hlen : 0 < len) by (unfold len, l; simpl; lia).
  change (Z.min _ _) with (chunk off len).
  destruct (chunk_bounds off len Ho Hlen) as (Hc & Hcb & Hm).
  assert (Htl : Z.of_nat (length (take (Z.to_nat (chunk off len)) l)) = chunk off len)
    by (rewrite length_take; lia).
  assert (Hdl : Z.of_nat (length (drop (Z.to_nat (chunk off len)) l)) = len - chunk off len)
    by (rewrite length_drop; lia).
  pose proof (nspan_pos off len Ho Hlen) as Hsp. rewrite nmissing_cons in Hfree by done.
  eapply (write_round i off len); try done; [by apply Forall_take| |].
  { case_decide; [right; lia|by left]. }
  intros s1 Hw Hnf Hnf'. destruct (decide (chunk off len = len)) as [Hd|Hd].
  { rewrite take_ge in Hw by lia. rewrite drop_ge by lia. by destruct fuel. }
  eapply returns_mono.
  - apply IH; [apply Hw|apply Hw|lia|lia|by apply Forall_drop|lia|]. rewrite Hdl.
    destruct (chunk_rest off len Ho ltac:(lia)) as [-> ->].
    assert (nmissing s1 i (off / BSIZE + 1) (nspan off len - 1) ≤
            nmissing s i (off / BSIZE + 1) (nspan off len - 1))%nat; [|case_decide; [lia|rewrite Hnf' by done; lia]].
    apply nmissing_mono. intros n Hn Hz. pose proof (nspan_max off len Hmax).
    assert (0 ≤ off / BSIZE) by (apply Z.div_pos; done).
    rewrite (to_node _ _ _ (wr_touches _ _ _ _ _ Hw)); [done|apply fpath_valid; lia|done].
  - intros [] s2 Hw2. rewrite <-(take_drop (Z.to_nat (chunk off len)) l).
    eapply wrote_app; [done| |done|by rewrite Htl]. by rewrite take_drop.
Qed.

(** C39: in the triple indirect tree [bmap] masks the block number with
    [NINDIRECT * NINDIRECT] where it means the remainder: within an even group of
    16384 blocks, all block numbers are mapped by the same steps to the same disk
    block. *)
Theorem bmap_triple_alias i q a b s :
  0 ≤ q < 64 → 0 ≤ a < 16384 → 0 ≤ b < 16384 →
  bmap i (NDOUBLE + 2 * q * 16384 + a) s = bmap i (NDOUBLE + 2 * q * 16384 + b) s.
Proof.
  assert (Hstep : ∀ x, 0 ≤ q < 64 → 0 ≤ x < 16384 → bmap i (NDOUBLE + 2 * q * 16384 + x) s =
    (p ← addr_slot i 12; p ← ind_slot p (2 * q); p ← ind_slot p 0; ind_slot p 0) s).
  { intros x Hq Hx. unfold bmap, NDIRECT, NINDIRECT, NDOUBLE. cbv zeta.
    rewrite (proj2 (Z.ltb_ge _ 10)), (proj2 (Z.ltb_ge _ 128)), (proj2 (Z.ltb_ge _ (128 * 128))),
      (proj2 (Z.ltb_lt _ (128 * 128 * 128))) by lia.
    replace (10 + 128 + 128 * 128 + 2 * q * 16384 + x - 10 - 128 - 128 * 128) with (x + 2 * q * 16384) by lia.
    change (128 * 128) with 16384. rewrite Z.div_add, (Z.div_small x), Z.add_0_l by lia.
    assert (Z.land (x + 2 * q * 16384) 16384 = 0) as ->; [|done].
    change 16384 with (2 ^ 14) at 2. apply Z.bits_inj'. intros n Hn.
    rewrite Z.land_spec, Z.pow2_bits_eqb, Z.bits_0 by lia.
    destruct (Z.eqb_spec 14 n) as [<-|]; [|apply andb_false_r]. rewrite andb_true_r.
    rewrite Z.testbit_odd, Z.shiftr_div_pow2 by lia. change (2 ^ 14) with 16384.
    rewrite Z.div_add, (Z.div_small x), Z.add_0_l by lia. apply Z.odd_mul. }
  intros Hq Ha Hb. by rewrite !Hstep.
Qed.
