(* ===== verification/FsRw.v ===== *)
(** Reading and writing files (readi, writei): the contents of a file as a function
    from offsets to bytes. *)

From S2P Require Import Prelude CString Bytes Fs FsBlocks FsInode FsFile.

(** A regular file or directory in slot [i] between operations: every block
    below its size is in its tree, and its dinode is up to date. *)
Definition synced (s : fsys) (ip : inode) : Prop := dinode_at s (inum ip) ip = ip.

Record file_inv (s : fsys) (i : nat) (ip : inode) : Prop := {
  fv_wf : fs_wf s;
  fv_ok : file_ok s i;
  fv_slot : icache s !! i = Some ip;
  fv_type : type ip ≠ T_DEV;
  fv_inode : inode_wf ip;
  fv_ino : ino_ok s (inum ip);
  fv_size : size ip ≤ NBYTES;
  fv_dense : ∀ x, 0 ≤ x < size ip → node s i (fpath (x / BSIZE)) ≠ 0;
  fv_synced : synced s ip
}.

(** ** Changes outside the data blocks *)

(** [s'] differs from [s] in inode blocks and inode fields other than the addresses. *)
Record meta_change (i : nat) (s s' : fsys) : Prop := {
  mc_addrs : faddrs s' i = faddrs s i;
  mc_data : ∀ x, is_data s x → blocks s' x = blocks s x;
  mc_bit : ∀ x, 0 ≤ x < sb_size (sb s) → bit s' x = bit s x;
  mc_held : bheld s' = bheld s;
  mc_sb : sb s' = sb s
}.

Section Meta.
Context (s s' : fsys) (i : nat) (Hok : file_ok s i) (Hm : meta_change i s s').

Lemma meta_node π : vpath π → node s' i π = node s i π.
Proof.
  induction π as [|j π IH] using rev_ind; [done|]. intros Hv.
  destruct (decide (π = [])) as [->|Hne]; [simpl; by rewrite (mc_addrs _ _ _ Hm)|].
  destruct (vpath_snoc _ _ Hv Hne) as [Hvp _]. rewrite !node_snoc, IH by done.
  destruct (decide (node s i π = 0)) as [->|Hz]; [done|].
  unfold child. rewrite (mc_data _ _ _ Hm); [done|]. by apply (fo_node s i Hok).
Qed.

Lemma meta_fblock n : 0 ≤ n < NDOUBLE → fblock s' i n = fblock s i n.
Proof.
  intros Hn. pose proof (fpath_valid n Hn). unfold fblock. rewrite meta_node by done.
  destruct (Z.eqb_spec (node s i (fpath n)) 0); [done|].
  apply (mc_data _ _ _ Hm). by apply (fo_node s i Hok).
Qed.

Lemma meta_fbyte x : 0 ≤ x < NBYTES → fbyte s' i x = fbyte s i x.
Proof. intros Hx. unfold fbyte. by rewrite meta_fblock by (by apply block_of). Qed.

Lemma meta_file_ok : fs_wf s → file_ok s' i.
Proof.
  intros Hwf. split.
  - rewrite (mc_addrs _ _ _ Hm). apply Hok.
  - intros π Hv. rewrite meta_node by done. intros Hz.
    destruct (fo_node s i Hok π Hv Hz) as (Hda & Hb & Hh).
    destruct (data_range s _ Hwf Hda) as (? & ? & ?).
    unfold is_data. rewrite (mc_sb _ _ _ Hm), (mc_held _ _ _ Hm), (mc_bit _ _ _ Hm) by lia. done.
  - intros π1 π2 Hv1 Hv2. rewrite !meta_node by done. by apply (fo_inj s i Hok).
Qed.
End Meta.

(** ** Reading *)

Lemma slice_chunk s i off len :
  fs_wf s → 0 ≤ off → 0 < len →
  slice (fblock s i (off / BSIZE)) (Z.to_nat (off mod BSIZE)) (Z.to_nat (chunk off len))
    = fbyte s i <$> seqZ off (chunk off len).
Proof.
  intros Hwf Ho Hl. destruct (chunk_bounds off len Ho Hl) as (Hc & Hb & Hm).
  destruct (fblock_is_block s i (off / BSIZE) Hwf) as [Hlen _]. unfold slice.
  apply list_eq_same_length with (n := Z.to_nat (chunk off len)).
  - by rewrite length_fmap, length_seqZ.
  - rewrite length_take, length_drop. unfold BSIZE in *. lia.
  - intros k x y Hk Hx Hy. rewrite lookup_take_lt, lookup_drop in Hx by done.
    rewrite list_lookup_fmap in Hy. apply fmap_Some in Hy as (z & Hz & ->).
    apply lookup_seqZ in Hz as [-> Hkc].
    destruct (chunk_index off len (off + Z.of_nat k) Ho Hl) as [Hq Hr]; [lia|].
    unfold fbyte, byte. rewrite Hq, Hr.
    replace (Z.to_nat (off mod BSIZE + (off + Z.of_nat k - off))) with (Z.to_nat (off mod BSIZE) + k)%nat by lia.
    by rewrite Hx.
Qed.

Lemma readi_loop_ok fuel i : ∀ off n s,
  fs_wf s → file_ok s i → 0 ≤ off → 0 ≤ n → off + n ≤ NBYTES → (Z.to_nat n ≤ fuel)%nat →
  (∀ x, off ≤ x < off + n → node s i (fpath (x / BSIZE)) ≠ 0) →
  returns (readi_loop fuel i off n) s (λ l s', s' = s ∧ l = fbyte s i <$> seqZ off n).
Proof.
  induction fuel as [|fuel IH]; intros off n s Hwf Hok Ho Hn Hmax Hf Hall; simpl;
    destruct (Z.leb_spec n 0) as [Hn0|Hn0];
    try (apply returns_ret; by replace n with 0 by lia); [lia|].
  change (Z.min n (BSIZE - off mod BSIZE)) with (chunk off n).
  destruct (chunk_bounds off n Ho Hn0) as (Hc & Hb & Hm).
  assert (Hz : node s i (fpath (off / BSIZE)) ≠ 0) by (apply Hall; lia).
  assert (Hn' : 0 ≤ off / BSIZE < NDOUBLE) by (apply block_of; lia).
  destruct (fo_node s i Hok _ (fpath_valid _ Hn') Hz) as (Hda & _ & Hnh).
  destruct (data_range s _ Hwf Hda) as (? & ? & ?).
  mgo. apply bmap_ok; [done..|by left|]. intros b s1 (_ & Hbn & _ & Hid). specialize (Hid Hz). subst s1 b.
  mgo. apply returns_bread; [done..|]. mgo. apply returns_bdata; [simpl; set_solver|]. simpl. mgo.
  apply returns_brelse; simpl; [set_solver|by apply (wf_logged s Hwf)|].
  rewrite hold_release by done. replace (set _ _ _) with s by (by destruct s). mgo.
  eapply returns_mono; [apply IH; try done; try lia; intros x Hx; apply Hall; lia|].
  intros l s' [-> ->]. mgo. split; [done|].
  rewrite node_fblock, slice_chunk by done. rewrite <-fmap_app. f_equal.
  rewrite <-seqZ_app by lia. f_equal. lia.
Qed.

Section Devices.
Variable dev_read : Z → option (nat → Z → M fsys (Z * list Z)).
Variable dev_write : Z → option (nat → list Z → M fsys Z).

Lemma readi_ok s i ip off n (Q : Z * list Z → fsys → Prop) :
  file_inv s i ip → 0 ≤ off ≤ size ip → 0 ≤ n → off + n < two32 →
  Q (Z.min n (size ip - off), fbyte s i <$> seqZ off (Z.min n (size ip - off))) s →
  returns (readi dev_read i off n) s Q.
Proof.
  intros Hinv Ho Hn Hmax HQ. pose proof (fv_size _ _ _ Hinv).
  unfold readi. mgo. apply (returns_geti i s ip); [apply Hinv|].
  rewrite (proj2 (Z.eqb_neq (type ip) T_DEV)) by apply Hinv.
  rewrite u32_small by lia. rewrite (proj2 (Z.ltb_ge (size ip) off)), (proj2 (Z.ltb_ge (off + n) off)) by lia.
  replace (if size ip <? off + n then size ip - off else n) with (Z.min n (size ip - off))
    by (destruct (Z.ltb_spec (size ip) (off + n)); lia).
  simpl. mgo. eapply returns_mono.
  - apply readi_loop_ok; try apply Hinv; try lia. intros x Hx. apply Hinv. lia.
  - intros l s' [-> ->]. by mgo.
Qed.

(** ** Writing *)

(** The inode after a write of [len] bytes at [off]. *)
Definition grown (s' : fsys) (i : nat) (off len : Z) (ip : inode) : inode :=
  ip <| size := Z.max (size ip) (off + len) |> <| addrs := faddrs s' i |>.

Lemma wrote_slot i off l s s' ip :
  wrote i off l s s' → icache s !! i = Some ip → icache s' !! i = Some (ip <| addrs := faddrs s' i |>).
Proof.
  intros Hw Hi. rewrite (to_icache _ _ _ (wr_touches _ _ _ _ _ Hw)), list_lookup_alter_eq, Hi. done.
Qed.

Lemma file_addrs_range s i : fs_wf s → file_ok s i → Forall (λ a, 0 ≤ a < two32) (faddrs s i).
Proof.
  intros Hwf Hok. apply Forall_lookup. intros k a Hk.
  assert (Hkl : (k < 13)%nat) by (apply lookup_lt_Some in Hk; by rewrite (fo_len s i Hok) in Hk).
  assert (Hn : node s i [k] = a) by (by apply nth_lookup_some).
  destruct (decide (a = 0)) as [->|Hz]; [done|].
  destruct (fo_node s i Hok [k]) as (Hda & _ & _); [repeat split; [done|simpl; lia|constructor]|congruence|].
  rewrite Hn in Hda. destruct (data_range s a Hwf Hda) as (? & ? & ?). pose proof (wf_size s Hwf).
  unfold two32. lia.
Qed.

(** The inode stays consistent when its size grows and it is written to disk. *)
Lemma grow_meta s i ip v :
  fs_wf s → icache s !! i = Some ip → ino_ok s (inum ip) →
  meta_change i s (updated (ip <| size := v |>) (s <| icache := alter (λ ip, ip <| size := v |>) i (icache s) |>)).
Proof.
  intros Hwf Hi (? & ? & Hlow). split; try done.
  - unfold faddrs. simpl. rewrite list_lookup_alter_eq, Hi. done.
  - intros x Hx. simpl. rewrite upd_ne; [done|]. pose proof (data_above s x Hwf Hx). lia.
  - intros x Hx. unfold updated. etrans; [apply bit_low; [lia|done]|done].
Qed.

(** What a write to a file does. *)
Record write_post (i : nat) (ip : inode) (off : Z) (src : list Z) (s : fsys) (s' : fsys) : Prop := {
  wp_inv : file_inv s' i (grown s' i off (Z.of_nat (length src)) ip);
  wp_bytes : ∀ x, 0 ≤ x < NBYTES → fbyte s' i x =
    if decide (off ≤ x < off + Z.of_nat (length src)) then byte src (Z.to_nat (x - off))
    else fbyte s i x;
  wp_other : ∀ x, is_data s x → bit s x = true → (∀ π, vpath π → node s i π ≠ x) →
    blocks s' x = blocks s x;
  wp_inodes : ∀ n jp, 0 ≤ n → n ≠ inum ip → ino_ok s n → dinode_at s' n jp = dinode_at s n jp;
  wp_slots : ∀ j, j ≠ i → icache s' !! j = icache s !! j;
  wp_frame : bheld s' = bheld s ∧ sb s' = sb s ∧ base s' = base s
}.

Lemma wrote_dense i off src s s1 ip x :
  file_inv s i ip → wrote i off src s s1 → 0 ≤ off ≤ size ip →
  0 ≤ x < Z.max (size ip) (off + Z.of_nat (length src)) → x < NBYTES →
  node s1 i (fpath (x / BSIZE)) ≠ 0.
Proof.
  intros Hinv Hw Ho Hx Hb. destruct (decide (off ≤ x < off + Z.of_nat (length src))).
  - by apply (wr_nodes _ _ _ _ _ Hw).
  - pose proof (fv_dense _ _ _ Hinv x ltac:(lia)).
    rewrite (to_node _ _ _ (wr_touches _ _ _ _ _ Hw)); [done|apply fpath_valid, block_of; lia|done].
Qed.

(** A write that makes the file larger. *)
Lemma grow_ok i ip off src s s1 :
  file_inv s i ip → wrote i off src s s1 → 0 ≤ off ≤ size ip →
  size ip < off + Z.of_nat (length src) ≤ NBYTES →
  let v := off + Z.of_nat (length src) in
  write_post i ip off src s
    (updated (ip <| addrs := faddrs s1 i |> <| size := v |>)
       (s1 <| icache := alter (λ ip, ip <| size := v |>) i (icache s1) |>)).
Proof.
  intros Hinv Hw Ho Hv v. pose proof (wr_touches _ _ _ _ _ Hw) as Ht.
  pose proof (wrote_slot _ _ _ _ _ _ Hw (fv_slot _ _ _ Hinv)) as Hslot.
  destruct (to_frame _ _ _ Ht) as (? & ? & ? & Hsb & ? & ? & ?).
  pose proof (to_wf _ _ _ Ht) as Hwf1. pose proof (to_ok _ _ _ Ht) as Hok1.
  assert (Hino : ino_ok s1 (inum ip)) by (unfold ino_ok; rewrite Hsb; apply Hinv).
  pose proof (grow_meta s1 i (ip <| addrs := faddrs s1 i |>) v Hwf1 Hslot Hino) as Hm.
  assert (Hiw : inode_wf (ip <| addrs := faddrs s1 i |> <| size := v |>)).
  { destruct (fv_inode _ _ _ Hinv). split; try done; simpl; [|apply Hok1|by apply file_addrs_range].
    unfold NBYTES, NDOUBLE, BSIZE, two32 in *. lia. }
  set (s2 := updated _ _) in *.
  assert (Hdi : ∀ n jp, 0 ≤ n → dinode_at s2 n jp = if decide (n = inum ip)
    then copy_dinode (ip <| addrs := faddrs s1 i |> <| size := v |>) jp else dinode_at s1 n jp).
  { intros n jp Hn. etrans; [apply dinode_at_updated; [by apply wf_icache|done|done|apply Hino]|done]. }
  assert (Hg : grown s2 i off (Z.of_nat (length src)) ip = ip <| addrs := faddrs s1 i |> <| size := v |>).
  { unfold grown. rewrite Z.max_r by lia. by rewrite (mc_addrs _ _ _ Hm). }
  split.
  - rewrite Hg. split; try done.
    + apply wf_put_low; [by apply wf_icache|apply Hino|]. apply is_block_put_dinode, Hwf1.
    + by eapply meta_file_ok.
    + simpl. by rewrite list_lookup_alter_eq, Hslot.
    + apply Hinv.
    + simpl. lia.
    + intros x Hx. simpl in Hx. rewrite (meta_node s1 s2 i Hok1 Hm); [|apply fpath_valid, block_of; lia].
      eapply wrote_dense; [done..| |]; lia.
    + unfold synced. simpl. rewrite Hdi by apply Hino. rewrite decide_True by done. by destruct ip.
  - intros x Hx. rewrite (meta_fbyte s1 s2 i Hok1 Hm x Hx). by apply (wr_bytes _ _ _ _ _ Hw).
  - intros x Hx Hb Hne. rewrite (mc_data _ _ _ Hm) by (unfold is_data; by rewrite Hsb).
    by apply (to_other _ _ _ Ht).
  - intros n jp Hn Hne (_ & _ & Hlow). rewrite Hdi, decide_False by done. unfold dinode_at.
    rewrite Hsb. by rewrite (to_low _ _ _ Ht) by done.
  - intros j Hj. simpl. rewrite list_lookup_alter_ne by done.
    by rewrite (to_icache _ _ _ Ht), list_lookup_alter_ne by done.
  - done.
Qed.

(** A write within the file. *)
Lemma overwrite_ok i ip off src s s1 :
  file_inv s i ip → wrote i off src s s1 → 0 ≤ off →
  off + Z.of_nat (length src) ≤ size ip →
  write_post i ip off src s s1.
Proof.
  intros Hinv Hw Ho Hv. pose proof (wr_touches _ _ _ _ _ Hw) as Ht.
  destruct (to_frame _ _ _ Ht) as (? & ? & ? & Hsb & ? & ? & ?).
  assert (Hic : icache s1 = icache s).
  { apply (wr_same _ _ _ _ _ Hw). intros x Hx. apply (fv_dense _ _ _ Hinv). lia. }
  assert (Hg : grown s1 i off (Z.of_nat (length src)) ip = ip).
  { unfold grown, faddrs. rewrite Z.max_l, Hic, (fv_slot _ _ _ Hinv) by lia. by destruct ip. }
  assert (Hdi : ∀ n jp, ino_ok s n → dinode_at s1 n jp = dinode_at s n jp).
  { intros n jp (_ & _ & Hlow). unfold dinode_at. by rewrite Hsb, (to_low _ _ _ Ht). }
  pose proof (fv_size _ _ _ Hinv). split; try done.
  - rewrite Hg. split; try apply Hinv; try apply Ht.
    + rewrite Hic. apply Hinv.
    + unfold ino_ok. rewrite Hsb. apply Hinv.
    + intros x Hx. eapply wrote_dense; [done..|lia|lia|lia].
    + unfold synced. rewrite Hdi by apply Hinv. apply Hinv.
  - apply (wr_bytes _ _ _ _ _ Hw).
  - apply (to_other _ _ _ Ht).
  - intros n jp _ _ Hn. by apply Hdi.
  - intros j Hj. by rewrite Hic.
Qed.

Lemma writei_ok s i ip off src (Q : Z → fsys → Prop) :
  file_inv s i ip → 0 ≤ off ≤ size ip → off + Z.of_nat (length src) ≤ NBYTES →
  Forall (λ x, 0 ≤ x < 256) src →
  (3 * nmissing s i (off / BSIZE) (nspan off (Z.of_nat (length src))) ≤ nfree s)%nat →
  (∀ s', write_post i ip off src s s' → Q (Z.of_nat (length src)) s') →
  returns (writei dev_write i off src) s Q.
Proof.
  intros Hinv Ho Hmax Hsrc Hfree HQ.
  assert (HB : NBYTES < two32) by done. assert (HM : NBYTES ≤ MAXFILE * BSIZE) by done.
  unfold writei. mgo. apply (returns_geti i s ip); [apply Hinv|].
  rewrite (proj2 (Z.eqb_neq (type ip) T_DEV)) by apply Hinv.
  rewrite u32_small by lia. rewrite (proj2 (Z.ltb_ge (size ip) off)), (proj2 (Z.ltb_ge (_ + _) off)),
    (proj2 (Z.ltb_ge (MAXFILE * BSIZE) _)) by lia. simpl. mgo.
  eapply returns_mono; [apply writei_loop_ok; try apply Hinv; try done; lia|].
  intros [] s1 Hw. mgo.
  apply (returns_geti i s1 _ _ (wrote_slot _ _ _ _ _ _ Hw (fv_slot _ _ _ Hinv))). simpl. mgo.
  pose proof (wr_touches _ _ _ _ _ Hw) as Ht. destruct (to_frame _ _ _ Ht) as (_ & _ & _ & Hsb & _).
  destruct (decide (size ip < off + Z.of_nat (length src))) as [Hlt|Hge].
  - rewrite (proj2 (Z.ltb_lt 0 _)), (proj2 (Z.ltb_lt (size ip) _)) by lia. simpl. mgo.
    apply returns_seti. eapply iupdate_ok.
    + apply wf_icache, Ht.
    + simpl. by rewrite list_lookup_alter_eq, (wrote_slot _ _ _ _ _ _ Hw (fv_slot _ _ _ Hinv)).
    + unfold ino_ok. simpl. rewrite Hsb. apply Hinv.
    + intros _. mgo. apply HQ. apply grow_ok; [done..|lia].
  - rewrite (proj2 (Z.ltb_ge (size ip) _)), andb_false_r by lia. mgo.
    apply HQ. apply overwrite_ok; [done|done|lia|lia].
Qed.
End Devices.

(** An inode without blocks. *)
Lemma empty_node s i π : faddrs s i = replicate 13 0 → node s i π = 0.
Proof.
  intros Hf. destruct π as [|k π]; [done|]. unfold node. rewrite Hf.
  assert (nth k (replicate 13 0) 0 = 0) as ->.
  { rewrite nth_lookup. destruct (replicate 13 0 !! k) eqn:E; [|done].
    by apply lookup_replicate in E as [-> _]. }
  induction π; done.
Qed.

Lemma file_ok_empty s i : faddrs s i = replicate 13 0 → file_ok s i.
Proof.
  intros Hf. split; [by rewrite Hf| |]; intros; by rewrite !empty_node in *.
Qed.


(** [readi] returns the bytes of the file from [off] on, as many as asked for
    or as there are before the end of the file, and changes nothing. *)
Theorem readi_spec dev_read s i ip off n :
  file_inv s i ip → 0 ≤ off ≤ size ip → 0 ≤ n → off + n < two32 →
  readi dev_read i off n s =
    Ok (Z.min n (size ip - off), fbyte s i <$> seqZ off (Z.min n (size ip - off))) s.
Proof.
  intros Hinv Ho Hn Hmax.
  assert (H : returns (readi dev_read i off n) s (λ r s', s' = s ∧
    r = (Z.min n (size ip - off), fbyte s i <$> seqZ off (Z.min n (size ip - off))))).
  { by eapply readi_ok. }
  apply returns_ok in H as (r & s' & E & -> & ->). done.
Qed.

(** ** A small disk: 30 blocks, the inode blocks at 2, the bitmap at 3, one data block *)

Definition demo_disk (ip : inode) (bm : Z) (d : blk) (b : Z) : blk :=
  if b =? 2 then put_dinode zeros 64 ip else if b =? 3 then <[0%nat := bm]> zeros
  else if b =? 4 then d else zeros.
Definition demo (ip : inode) (bm : Z) (d : blk) : fsys :=
  mkfs (demo_disk ip bm d) (demo_disk ip bm d) ∅ ∅ 30 (mksb 30 26 8 0 0 2 3) [ip] 0 0.

(** Inode 1: an empty file or directory, and a file of two bytes. *)
Definition demo_ip (ty : Z) : inode := mkinode 1 1 1 (Some 0%nat) true ty 0 0 1 0 (replicate 13 0).
Definition demo_empty (ty : Z) : fsys := demo (demo_ip ty) 15 zeros.
Definition hi_ip (nl : Z) (lk : option nat) : inode :=
  mkinode 1 1 1 lk true T_FILE 0 0 nl 2 (4 :: replicate 12 0).
Definition hi_file (nl : Z) (lk : option nat) : fsys :=
  demo (hi_ip nl lk) 31 (<[0%nat := 104]> (<[1%nat := 105]> zeros)).

Lemma demo_wf ip bm d : bm = 15 ∨ bm = 31 → is_block d → fs_wf (demo ip bm d).
Proof.
  intros Hbm Hd. split; try done.
  - intros b. unfold demo, demo_disk, blocks.
    destruct (b =? 2); [apply is_block_put_dinode, is_block_zeros|].
    destruct (b =? 3); [apply is_block_insert; [apply is_block_zeros|lia]|].
    destruct (b =? 4); [done|apply is_block_zeros].
  - intros b Hb. change (datastart (sb (demo ip bm d))) with 4 in Hb.
    assert (b = 0 ∨ b = 1 ∨ b = 2 ∨ b = 3) as [-> | [-> | [-> | ->]]] by lia;
      destruct Hbm; subst; by vm_compute.
  - intros b Hb. by right.
Qed.

Lemma demo_inv ty : ty = T_FILE ∨ ty = T_DIR → file_inv (demo_empty ty) 0 (demo_ip ty).
Proof.
  intros Hty. split.
  - exact (demo_wf _ 15 _ (or_introl eq_refl) is_block_zeros).
  - apply file_ok_empty. reflexivity.
  - reflexivity.
  - by destruct Hty; subst.
  - split; [destruct Hty; subst; by vm_compute|done..| |done|by apply Forall_replicate].
    by vm_compute.
  - by vm_compute.
  - by vm_compute.
  - simpl. lia.
  - destruct Hty; subst; by vm_compute.
Qed.

Lemma hi_node nl lk π :
  vpath π → node (hi_file nl lk) 0 π = if decide (π = [0%nat]) then 4 else 0.
Proof.
  intros Hv. destruct π as [|[|k] ρ]; [done| |].
  - destruct Hv as (_ & Hl & _). by destruct ρ; [|simpl in Hl; lia].
  - rewrite decide_False by done. unfold node.
    assert (nth (S k) (faddrs (hi_file nl lk) 0) 0 = 0) as ->;
      [|clear Hv; by induction ρ].
    change (nth k (replicate 12 0) 0 = 0). rewrite nth_lookup.
    destruct (replicate 12 0 !! k) eqn:E; [|done]. by apply lookup_replicate in E as [-> _].
Qed.

Lemma hi_block : is_block (<[0%nat := 104]> (<[1%nat := 105]> zeros)).
Proof. repeat apply is_block_insert; [apply is_block_zeros|lia..]. Qed.

Lemma hi_inv nl lk : nl = 0 ∨ nl = 1 → file_inv (hi_file nl lk) 0 (hi_ip nl lk).
Proof.
  intros Hnl. split.
  - exact (demo_wf _ 31 _ (or_intror eq_refl) hi_block).
  - split; [reflexivity| |].
    + intros π Hv. rewrite hi_node by done. case_decide; [|done]. intros _.
      split; [by vm_compute|]. split; [by vm_compute|]. apply not_elem_of_empty.
    + intros π1 π2 Hv1 Hv2. rewrite !hi_node by done. by repeat case_decide; subst.
  - reflexivity.
  - by vm_compute.
  - assert (H4 : 0 ≤ 4 < two32) by (unfold two32; lia).
    split; simpl; unfold T_FILE, two32; try lia.
    apply Forall_cons. split; [exact H4|]. apply (Forall_replicate _ 12). unfold two32. lia.
  - by vm_compute.
  - by vm_compute.
  - intros x Hx. simpl in Hx. rewrite hi_node.
    + by assert (x = 0 ∨ x = 1) as [-> | ->] by lia.
    + apply fpath_valid, block_of. unfold NBYTES, NDOUBLE, BSIZE. lia.
  - destruct Hnl; subst; by vm_compute.
Qed.


Lemma readi_spec_witness :
  file_inv (hi_file 1 None) 0 (hi_ip 1 None) ∧
  readi (λ _, None) 0 0 10 (hi_file 1 None) = Ok (2, [104; 105]) (hi_file 1 None).
Proof.
  assert (H : file_inv (hi_file 1 None) 0 (hi_ip 1 None)) by (apply hi_inv; by right).
  split; [exact H|].
  rewrite (readi_spec (λ _, None) (hi_file 1 None) 0 (hi_ip 1 None) 0 10 H); [|simpl; unfold two32; lia..].
  reflexivity.
Defined.

Lemma bmap_triple_alias_witness :
  bmap 0 (NDOUBLE + 5) (demo_empty T_FILE) = bmap 0 (NDOUBLE + 6) (demo_empty T_FILE).
Proof. apply (bmap_triple_alias 0 0 5 6); lia. Defined.

Lemma balloc_first_fit_witness :
  (∃ x, 0 ≤ x < 30 ∧ bit (demo_empty T_FILE) x = false) ∧
  returns balloc (demo_empty T_FILE) (λ b s',
    (∀ x, 0 ≤ x < b → bit (demo_empty T_FILE) x = true) ∧ allocated (demo_empty T_FILE) b s' ∧
    returns (bfree b) s' (λ _ s'',
      fs_wf s'' ∧ ∀ x, 0 ≤ x < 30 → bit s'' x = bit (demo_empty T_FILE) x)).
Proof.
  assert (H : ∃ x, 0 ≤ x < 30 ∧ bit (demo_empty T_FILE) x = false)
    by (exists 4; split; [lia | by vm_compute]).
  split; [exact H|]. apply (balloc_first_fit (demo_empty T_FILE) (demo_wf _ 15 _ (or_introl eq_refl) is_block_zeros) H).
Defined.

(** The file of two bytes with a second, empty cache slot for its inode. *)
Definition two_slots : fsys :=
  (hi_file 1 None) <| icache := [hi_ip 1 (Some 0%nat); mkinode 1 1 1 None false 0 0 0 0 0 []] |>.

Lemma iupdate_ilock_roundtrip_witness :
  type (hi_ip 1 (Some 0%nat)) ≠ 0 ∧
  returns (_ ← iupdate 0; ilock 1) two_slots (λ _ s',
    icache s' !! 1%nat = Some (mkinode 1 1 1 (Some 0%nat) true T_FILE 0 0 1 2 (4 :: replicate 12 0)) ∧
    (∀ k, k ≠ 1%nat → icache s' !! k = icache two_slots !! k) ∧
    (∀ n kp, 0 ≤ n → n ≠ 1 → dinode_at s' n kp = dinode_at two_slots n kp) ∧
    fs_wf s' ∧ bheld s' = bheld two_slots).
Proof.
  split; [by vm_compute|].
  apply (iupdate_ilock_roundtrip two_slots 0 (hi_ip 1 (Some 0%nat)) 1 (mkinode 1 1 1 None false 0 0 0 0 0 [])).
  - apply wf_icache. exact (demo_wf _ 31 _ (or_intror eq_refl) hi_block).
  - by vm_compute.
  - apply (hi_inv 1 (Some 0%nat)). by right.
  - by vm_compute.
  - reflexivity.
  - reflexivity.
  - reflexivity.
  - reflexivity.
  - reflexivity.
  - simpl. lia.
Defined.

Lemma iget_unique_witness :
  icache_ok [hi_ip 1 None] ∧
  returns (iget 1 1) (hi_file 1 None) (λ k s', ∃ ip,
    icache (hi_file 1 None) !! k = Some ip ∧
    s' = (hi_file 1 None) <| icache := icache s' |> ∧
    icache_ok (icache s') ∧
    (∀ j, j ≠ k → icache s' !! j = icache (hi_file 1 None) !! j) ∧
    ((imatch 1 1 ip ∧ icache s' !! k = Some (ip <| ref := ref ip + 1 |>)) ∨
     ((∀ j jp, icache (hi_file 1 None) !! j = Some jp → ¬ imatch 1 1 jp) ∧ ref ip = 0 ∧
      icache s' !! k = Some (ip <| dev := 1 |> <| inum := 1 |> <| ref := 1 |> <| valid := false |>)))).
Proof.
  assert (H : icache_ok [hi_ip 1 None]).
  { split; intros [|i]; [intros ip [= <-]; simpl; lia|done| |done].
    intros [|j] ip jp [= <-] Hj; [done|done]. }
  split; [exact H|]. apply (iget_unique (hi_file 1 None) 1 1); [exact H|].
  exists 0%nat, (hi_ip 1 None). split; [reflexivity|]. left. by vm_compute.
Defined.
