(* ===== verification/FsTrunc.v ===== *)
(** Truncation (itrunc): every block of the file's tree is given back, once. *)

From S2P Require Import Prelude CString Bytes Fs FsBlocks FsInode FsFile FsRw.

Section Trunc.
Context (s0 : fsys) (i : nat) (ip : inode) (Hinv : file_inv s0 i ip).

(** Block [x] is at one of the places [F] of the tree. *)
Definition at_places (F : list nat → Prop) (x : Z) : Prop :=
  ∃ π, F π ∧ vpath π ∧ node s0 i π = x ∧ x ≠ 0.

(** [s] is [s0] after the blocks at the places [F] were freed; [H] are the locked
    buffers and [A] the addresses left in the inode. *)
Record trunc (F : list nat → Prop) (H : gset Z) (A : list Z) (s : fsys) : Prop := {
  tr_wf : fs_wf s;
  tr_data : ∀ x, is_data s0 x → blocks s x = blocks s0 x;
  tr_low : ∀ x, x < sb_bmapstart (sb s0) → blocks s x = blocks s0 x;
  tr_bit : ∀ x, 0 ≤ x < sb_size (sb s0) →
    (bit s x = true ↔ bit s0 x = true ∧ ¬ at_places F x);
  tr_logged : ∀ x, is_data s0 x → x ∈ logged s ∨ blocks s x = base s x;
  tr_held : bheld s = H;
  tr_icache : icache s = alter (λ ip, ip <| addrs := A |>) i (icache s0);
  tr_frame : sb s = sb s0 ∧ disksize s = disksize s0 ∧ base s = base s0 ∧ me s = me s0 ∧ cwd s = cwd s0
}.

Lemma trunc_ext (F F' : list nat → Prop) H A s :
  (∀ π, vpath π → node s0 i π ≠ 0 → F π ↔ F' π) → trunc F H A s → trunc F' H A s.
Proof.
  intros HF [? ? ? Hbit ? ? ? ?]. split; try done. intros x Hx. rewrite Hbit by done.
  assert (E : at_places F x ↔ at_places F' x); [|tauto].
  unfold at_places. split; intros (π & HFπ & Hv & Hn & Hz); exists π; (split; [|done]);
    apply HF; congruence.
Qed.

(** The facts about a block of the tree. *)
Lemma tree_node π : vpath π → node s0 i π ≠ 0 →
  is_data s0 (node s0 i π) ∧ bit s0 (node s0 i π) = true ∧
  0 ≤ node s0 i π < sb_size (sb s0) ∧ node s0 i π < disksize s0.
Proof.
  intros Hv Hz. destruct (fo_node s0 i (fv_ok _ _ _ Hinv) π Hv Hz) as (Hd & Hb & _).
  destruct (data_range s0 _ (fv_wf _ _ _ Hinv) Hd) as (? & ? & ?). repeat split; try apply Hd; lia || done.
Qed.

Lemma not_freed F H A s π : trunc F H A s → vpath π → node s0 i π ≠ 0 → ¬ F π →
  bit s (node s0 i π) = true.
Proof.
  intros Ht Hv Hz HF. destruct (tree_node π Hv Hz) as (Hd & Hb & Hr & _).
  apply (tr_bit _ _ _ _ Ht); [done|]. split; [done|]. intros (π' & HF' & Hv' & Hn & _).
  apply HF. by rewrite (fo_inj s0 i (fv_ok _ _ _ Hinv) π π').
Qed.

Lemma trunc_bread F H A s π (Q : unit → fsys → Prop) :
  trunc F H A s → vpath π → node s0 i π ≠ 0 → ¬ F π → node s0 i π ∉ H →
  (∀ s', trunc F ({[node s0 i π]} ∪ H) A s' → Q tt s') → returns (bread (node s0 i π)) s Q.
Proof.
  intros Ht Hv Hz HF Hh HQ. destruct (tree_node π Hv Hz) as (Hd & Hb & Hr & Hdk).
  destruct (tr_frame _ _ _ _ Ht) as (Hsb & Hds & ?).
  apply returns_bread; [by rewrite (tr_held _ _ _ _ Ht)|lia|]. apply HQ.
  pose proof (not_freed _ _ _ _ _ Ht Hv Hz HF).
  destruct Ht. split; try done; [|simpl; congruence].
  apply wf_hold; [done| |done]. unfold is_data. by rewrite Hsb.
Qed.

Lemma trunc_brelse F H A s π (Q : unit → fsys → Prop) :
  trunc F H A s → vpath π → node s0 i π ≠ 0 → node s0 i π ∈ H →
  (∀ s', trunc F (H ∖ {[node s0 i π]}) A s' → Q tt s') → returns (brelse (node s0 i π)) s Q.
Proof.
  intros Ht Hv Hz Hh HQ. destruct (tree_node π Hv Hz) as (Hd & _).
  pose proof (tr_logged _ _ _ _ Ht _ Hd) as Hlog.
  apply returns_brelse; [by rewrite (tr_held _ _ _ _ Ht)|done|]. apply HQ.
  destruct Ht. split; try done; [|simpl; congruence]. by apply wf_release.
Qed.

Lemma trunc_bdata F H A s π (Q : blk → fsys → Prop) :
  trunc F H A s → vpath π → node s0 i π ≠ 0 → node s0 i π ∈ H →
  Q (blocks s0 (node s0 i π)) s → returns (bdata (node s0 i π)) s Q.
Proof.
  intros Ht Hv Hz Hh HQ. destruct (tree_node π Hv Hz) as (Hd & _).
  apply returns_bdata; [by rewrite (tr_held _ _ _ _ Ht)|]. by rewrite (tr_data _ _ _ _ Ht).
Qed.

(** Freeing one more block. *)
Lemma trunc_bfree F H A s π (Q : unit → fsys → Prop) :
  trunc F H A s → vpath π → node s0 i π ≠ 0 → ¬ F π → node s0 i π ∉ H →
  (∀ s', trunc (λ π', F π' ∨ π' = π) H A s' → Q tt s') → returns (bfree (node s0 i π)) s Q.
Proof.
  intros Ht Hv Hz HF Hh HQ. destruct (tree_node π Hv Hz) as (Hd & Hb & Hr & Hdk).
  destruct (tr_frame _ _ _ _ Ht) as (Hsb & Hds & Hba & Hme & Hcwd).
  pose proof (not_freed _ _ _ _ _ Ht Hv Hz HF) as Hb1.
  apply bfree_ok; [apply Ht|unfold is_data; by rewrite Hsb|by rewrite (tr_held _ _ _ _ Ht)|done|].
  intros s' Hfr. apply HQ. destruct (fr_frame _ _ _ Hfr) as (? & ? & ? & ? & ? & ? & ? & Hlog).
  assert (Hds' : ∀ x, is_data s0 x → is_data s x) by (unfold is_data; by rewrite Hsb).
  split; try apply Hfr; try (by repeat split; congruence).
  - intros x Hx. rewrite (fr_other _ _ _ Hfr) by auto. by apply (tr_data _ _ _ _ Ht).
  - intros x Hx. rewrite (fr_low _ _ _ Hfr) by (by rewrite Hsb). by apply (tr_low _ _ _ _ Ht).
  - intros x Hx. rewrite (fr_bit _ _ _ Hfr), andb_true_iff, (tr_bit _ _ _ _ Ht), negb_true_iff, Z.eqb_neq
      by (rewrite ?Hsb; done). unfold at_places. split.
    + intros (Hne & Hbx & Hno). split; [done|]. intros (π' & [HF'| ->] & Hv' & Hn & Hz'); [|done].
      apply Hno. by exists π'.
    + intros (Hbx & Hno). split; [|split; [done|]].
      * intros ->. apply Hno. exists π. auto.
      * intros (π' & HF' & Hrest). apply Hno. exists π'. auto.
  - intros x Hx. rewrite (fr_other _ _ _ Hfr) by auto.
    destruct (tr_logged _ _ _ _ Ht x Hx) as [Hin|He]; [left; set_solver|right; congruence].
  - rewrite <-(tr_held _ _ _ _ Ht). done.
  - rewrite <-(tr_icache _ _ _ _ Ht). done.
Qed.

(** ** Subtrees *)

(** The places up to [d] levels below [π]. *)
Definition below (d : nat) (π π' : list nat) : Prop :=
  ∃ ρ, π' = π ++ ρ ∧ (1 ≤ length ρ ≤ d)%nat ∧ Forall (λ j, j < 128)%nat ρ.

Lemma node_zero_below s π ρ : π ≠ [] → node s i π = 0 → node s i (π ++ ρ) = 0.
Proof.
  intros Hne Hz. induction ρ as [|j ρ IH] using rev_ind; [by rewrite app_nil_r|].
  rewrite app_assoc, node_snoc, IH; [done|]. by destruct π.
Qed.

(** [sub] frees what is up to [d] levels below a locked block. *)
Definition frees (d : nat) (sub : Z → M fsys unit) : Prop :=
  ∀ π F H A s,
  π ≠ [] → vpath π → node s0 i π ≠ 0 → node s0 i π ∈ H → ¬ F π →
  (∀ π', below d π π' → vpath π' ∧ ¬ F π' ∧ (node s0 i π' ≠ 0 → node s0 i π' ∉ H)) →
  trunc F H A s →
  returns (sub (node s0 i π)) s (λ _ s', trunc (λ π', F π' ∨ below d π π') H A s').

(** The entries before the [k]-th and what is below them. *)
Definition below_to (k d : nat) (π π' : list nat) : Prop :=
  ∃ j ρ, π' = π ++ j :: ρ ∧ (j < k)%nat ∧ (length ρ < d)%nat ∧ Forall (λ j, j < 128)%nat ρ.

Lemma below_to_all d π π' : below d π π' ↔ below_to 128 d π π'.
Proof.
  split.
  - intros ([|j ρ] & -> & Hl & Hf); [simpl in Hl; lia|]. apply Forall_cons in Hf as [??].
    exists j, ρ. simpl in Hl. split; [done|]. split; [done|]. split; [lia|done].
  - intros (j & ρ & -> & Hj & Hl & Hf). exists (j :: ρ). split; [done|]. simpl. split; [lia|by constructor].
Qed.

Lemma below_to_S k d π π' :
  (0 < d)%nat → below_to (S k) d π π' ↔ below_to k d π π' ∨ π' = π ++ [k] ∨ below (d - 1) (π ++ [k]) π'.
Proof.
  intros Hd. split.
  - intros (j & ρ & -> & Hj & Hl & Hf). destruct (decide (j = k)) as [->|].
    + right. destruct ρ as [|a ρ]; [by left|right]. exists (a :: ρ). rewrite <-app_assoc. simpl in *.
      split; [done|]. split; [lia|done].
    + left. exists j, ρ. split; [done|]. split; [lia|done].
  - intros [(j & ρ & -> & Hj & ?)|[->|(ρ & -> & Hl & Hf)]].
    + exists j, ρ. split; [done|]. split; [lia|done].
    + exists k, []. split; [done|]. split; [lia|]. split; [simpl; lia|constructor].
    + exists k, ρ. rewrite <-app_assoc. split; [done|]. split; [lia|]. split; [lia|done].
Qed.

Lemma child_place j π : π ≠ [] → node s0 i π ≠ 0 →
  get32 (blocks s0 (node s0 i π)) (Z.to_nat (4 * Z.of_nat j)) = node s0 i (π ++ [j]).
Proof.
  intros Hne Hz. rewrite node_snoc by done. unfold child. rewrite (proj2 (Z.eqb_neq _ 0)) by done.
  f_equal. lia.
Qed.

(** Nothing is left to free below an empty entry. *)
Lemma skip_entry k d π F H A s :
  (0 < d)%nat → π ≠ [] → node s0 i (π ++ [k]) = 0 →
  trunc (λ π', F π' ∨ below_to k d π π') H A s → trunc (λ π', F π' ∨ below_to (S k) d π π') H A s.
Proof.
  intros Hd Hne Hz. apply trunc_ext. intros π' Hv Hn. rewrite below_to_S by done.
  assert (¬ (π' = π ++ [k] ∨ below (d - 1) (π ++ [k]) π')); [|tauto].
  intros [->|(ρ & -> & _)]; [done|]. apply Hn, node_zero_below; [by destruct π|done].
Qed.

Lemma entries_loop d π F H A s body :
  (∀ k s, (k < 128)%nat → trunc (λ π', F π' ∨ below_to k d π π') H A s →
     returns (body (Z.of_nat k)) s (λ _ s', trunc (λ π', F π' ∨ below_to (S k) d π π') H A s')) →
  trunc F H A s →
  returns (for_ 128 0 body) s (λ _ s', trunc (λ π', F π' ∨ below d π π') H A s').
Proof.
  intros Hbody Ht. eapply returns_mono.
  - apply (returns_for 128 body (λ k s', trunc (λ π', F π' ∨ below_to (Z.to_nat k) d π π') H A s')).
    + eapply trunc_ext; [|exact Ht]. intros π' _ _. split; [by left|].
      intros [?|(j & ρ & _ & Hj & _)]; [done|]. simpl in Hj. lia.
    + intros k s' Hk Ht'. rewrite <-(Z2Nat.id k) by lia.
      replace (Z.to_nat (Z.of_nat (Z.to_nat k) + 1)) with (S (Z.to_nat k)) by lia.
      apply Hbody; [lia|done].
  - intros [] s' Ht'. eapply trunc_ext; [|exact Ht']. intros π' _ _. by rewrite below_to_all.
Qed.

Lemma below_to_fresh k d π : ¬ below_to k d π (π ++ [k]).
Proof. intros (j & ρ & Heq & Hj & _). apply app_inv_head in Heq. simplify_eq. lia. Qed.

Lemma below_to_apart k d d' π π' : below_to k d π π' → ¬ below d' (π ++ [k]) π'.
Proof.
  intros (j & ρ & -> & Hj & _) (ρ' & Heq & _). rewrite <-app_assoc in Heq. apply app_inv_head in Heq.
  simplify_eq/=. lia.
Qed.

Lemma below_longer d π π' : below d π π' → (length π < length π')%nat.
Proof. intros (ρ & -> & ? & _). rewrite length_app. lia. Qed.

Lemma below_to_longer k d π π' : below_to k d π π' → (length π < length π')%nat.
Proof. intros (j & ρ & -> & _). rewrite length_app. simpl. lia. Qed.

Lemma below_entry d k π : (k < 128)%nat → (0 < d)%nat → below d π (π ++ [k]).
Proof.
  intros Hk Hd. exists [k]. split; [done|]. split; [simpl; lia|]. by constructor.
Qed.

Lemma below_next d k π π' : (k < 128)%nat → below d (π ++ [k]) π' → below (S d) π π'.
Proof.
  intros Hk (ρ & -> & Hl & Hf). exists (k :: ρ). rewrite <-app_assoc. split; [done|].
  split; [simpl; lia|by constructor].
Qed.

Lemma free_slots_frees : frees 1 free_slots.
Proof.
  intros π F H A s Hne Hv Hz Hp HFπ Hbelow Ht. unfold free_slots. apply entries_loop; [|done].
  clear s Ht. intros k s Hk Ht. mgo. apply (trunc_bdata _ _ _ _ π _ Ht); [done..|].
  rewrite child_place by done. unfold when. destruct (Z.eqb_spec (node s0 i (π ++ [k])) 0) as [Hk0|Hk0]; simpl.
  - mgo. apply skip_entry; [lia|done..].
  - destruct (Hbelow (π ++ [k])) as (Hvk & HFk & HHk); [by apply below_entry; [|lia]|].
    apply (trunc_bfree _ _ _ _ (π ++ [k]) _ Ht); [done|done| |by apply HHk|].
    { intros [?|?]; [done|]. by eapply below_to_fresh. }
    intros s'. apply trunc_ext. intros π' _ _. rewrite below_to_S by lia.
    assert (¬ below (1 - 1) (π ++ [k]) π') by (intros (? & _ & ? & _); simpl in *; lia). tauto.
Qed.

Lemma free_subtrees_frees d sub : frees d sub → frees (S d) (λ p, free_subtrees p sub).
Proof.
  intros Hsub π F H A s Hne Hv Hz Hp HFπ Hbelow Ht. unfold free_subtrees. apply entries_loop; [|done].
  clear s Ht. intros k s Hk Ht. mgo. apply (trunc_bdata _ _ _ _ π _ Ht); [done..|].
  rewrite child_place by done. unfold when.
  destruct (Z.eqb_spec (node s0 i (π ++ [k])) 0) as [Hk0|Hk0]; simpl; [mgo; apply skip_entry; [lia|done..]|].
  destruct (Hbelow (π ++ [k])) as (Hvk & HFk & HHk); [by apply below_entry; [|lia]|]. specialize (HHk Hk0).
  assert (Hfr : ¬ (F (π ++ [k]) ∨ below_to k (S d) π (π ++ [k])))
    by (intros [?|?]; [done|by eapply below_to_fresh]).
  assert (Hnek : π ++ [k] ≠ []) by (by destruct π).
  mgo. apply (trunc_brelse _ _ _ _ π _ Ht); [done..|]. clear s Ht. intros s Ht. mgo.
  apply (trunc_bread _ _ _ _ (π ++ [k]) _ Ht); [done..|set_solver|]. clear s Ht. intros s Ht. mgo.
  eapply returns_mono; [refine (Hsub (π ++ [k]) _ _ A s Hnek Hvk Hk0 _ Hfr _ Ht); [set_solver|]|].
  { intros π' Hb. destruct (Hbelow π') as (Hv' & HF' & HH'); [by eapply below_next|].
    split; [done|]. split; [intros [?|?]; [done|by eapply below_to_apart]|].
    intros Hz'. specialize (HH' Hz'). assert (node s0 i π' ≠ node s0 i (π ++ [k])); [|set_solver].
    intros E. apply (fo_inj s0 i (fv_ok _ _ _ Hinv)) in E; [|done..]. subst π'.
    apply below_longer in Hb. lia. }
  clear s Ht. intros [] s Ht. mgo.
  apply (trunc_brelse _ _ _ _ (π ++ [k]) _ Ht); [done|done|set_solver|]. clear s Ht. intros s Ht. mgo.
  apply (trunc_bfree _ _ _ _ (π ++ [k]) _ Ht); [done|done| |set_solver|].
  { intros [?|Hb]; [done|]. apply below_longer in Hb. lia. }
  clear s Ht. intros s Ht. mgo.
  apply (trunc_bread _ _ _ _ π _ Ht); [done|done| |set_solver|].
  { intros [[[?|Hb]|Hb]|Hb]; [done|by apply below_to_longer in Hb; lia|..].
    - apply below_longer in Hb. rewrite length_app in Hb. lia.
    - apply (f_equal length) in Hb. rewrite length_app in Hb. simpl in Hb. lia. }
  clear s Ht. intros s Ht.
  replace H with ({[node s0 i π]} ∪ (({[node s0 i (π ++ [k])]} ∪ H ∖ {[node s0 i π]}) ∖ {[node s0 i (π ++ [k])]})).
  { eapply trunc_ext; [|exact Ht]. intros π' _ _. rewrite below_to_S, Nat.sub_succ, Nat.sub_0_r by lia. tauto. }
  apply set_eq. intros x. destruct (decide (x = node s0 i π)); set_solver.
Qed.

(** ** The whole tree *)

(** The places under the first [k] addresses, and the addresses left. *)
Definition under (k : nat) (π : list nat) : Prop := ∃ j ρ, π = j :: ρ ∧ (j < k)%nat.
Definition zap (k : nat) : list Z := replicate k 0 ++ drop k (faddrs s0 i).

Lemma zap_S k : (k < 13)%nat → <[k := 0]> (zap k) = zap (S k).
Proof.
  intros Hk. pose proof (fo_len s0 i (fv_ok _ _ _ Hinv)) as Hl. unfold zap.
  rewrite insert_app_r_alt by (rewrite length_replicate; lia). rewrite length_replicate, Nat.sub_diag.
  destruct (lookup_lt_is_Some_2 (faddrs s0 i) k) as [a Ha]; [lia|].
  rewrite (drop_S _ a k) by done. simpl insert. rewrite (cons_middle 0), app_assoc, <-replicate_cons_app. done.
Qed.

Lemma zap_lookup k : (k < 13)%nat → zap k !! k = Some (node s0 i [k]).
Proof.
  intros Hk. pose proof (fo_len s0 i (fv_ok _ _ _ Hinv)) as Hl. unfold zap.
  rewrite lookup_app_r by (rewrite length_replicate; lia).
  rewrite length_replicate, Nat.sub_diag, lookup_drop, Nat.add_0_r.
  destruct (lookup_lt_is_Some_2 (faddrs s0 i) k) as [a Ha]; [lia|]. rewrite Ha.
  simpl. by rewrite (nth_lookup_some _ _ _ _ Ha).
Qed.

Lemma trunc_slot F H A s : trunc F H A s → icache s !! i = Some (ip <| addrs := A |>).
Proof. intros Ht. rewrite (tr_icache _ _ _ _ Ht), list_lookup_alter_eq, (fv_slot _ _ _ Hinv). done. Qed.

Lemma trunc_zap F H k s : (k < 13)%nat → trunc F H (zap k) s →
  trunc F H (zap (S k)) (s <| icache := alter (λ ip, ip <| addrs := <[k := 0]> (addrs ip) |>) i (icache s) |>).
Proof.
  intros Hk Ht. pose proof (trunc_slot _ _ _ _ Ht) as Hs. destruct Ht as [? ? ? ? ? ? Hic ?]. split; try done.
  - by apply wf_icache.
  - simpl. rewrite Hic, list_alter_alter_eq. apply list_alter_ext; [|done].
    intros x _. unfold compose. simpl. rewrite zap_S by done. done.
Qed.

Lemma root_valid k : (k < 13)%nat → vpath [k].
Proof. intros. repeat split; [done|simpl; lia|constructor]. Qed.

Lemma zap_zero k : (k < 13)%nat → node s0 i [k] = 0 → zap (S k) = zap k.
Proof. intros Hk Hz. rewrite <-zap_S by done. apply list_insert_id. by rewrite zap_lookup, Hz. Qed.

(** Nothing is under an empty address. *)
Lemma under_zero k H A s : node s0 i [k] = 0 → trunc (under k) H A s → trunc (under (S k)) H A s.
Proof.
  intros Hz. apply trunc_ext. intros π Hv Hn. split; intros (j & ρ & -> & Hj); exists j, ρ; (split; [done|]); [lia|].
  destruct (decide (j = k)) as [->|]; [|lia]. destruct Hn. by apply (node_zero_below s0 [k] ρ).
Qed.

Lemma direct_ok s :
  trunc (under 0) ∅ (zap 0) s →
  returns (for_ 10 0 (λ k,
    ip ← geti i;
    match addrs ip !! Z.to_nat k with
    | None => undef "ip->addrs index"
    | Some a =>
        when (negb (a =? 0))
          (_ ← bfree a; seti i (λ ip, ip <| addrs := <[Z.to_nat k := 0]> (addrs ip) |>))
    end)) s (λ _ s', trunc (under 10) ∅ (zap 10) s').
Proof.
  intros Ht. apply (returns_for 10 _ (λ k s', trunc (under (Z.to_nat k)) ∅ (zap (Z.to_nat k)) s')); [done|].
  clear s Ht. intros z s Hz Ht. replace (Z.to_nat (z + 1)) with (S (Z.to_nat z)) by lia.
  set (k := Z.to_nat z) in *. assert (Hk : (k < 10)%nat) by lia.
  mgo. apply (returns_geti _ _ _ _ (trunc_slot _ _ _ _ Ht)). simpl. rewrite zap_lookup by lia.
  unfold when. destruct (Z.eqb_spec (node s0 i [k]) 0) as [Hk0|Hk0]; simpl.
  - mgo. rewrite zap_zero by (done || lia). by apply under_zero.
  - mgo. apply (trunc_bfree _ _ _ _ [k] _ Ht); [apply root_valid; lia|done| |set_solver|].
    { intros (j & ρ & [= <-] & Hj). lia. }
    clear s Ht. intros s Ht. apply returns_seti, trunc_zap; [lia|]. eapply trunc_ext; [|exact Ht].
    intros π Hv _. split.
    + intros [(j & ρ & -> & Hj)| ->]; [exists j, ρ; split; [done|lia]|exists k, []; split; [done|lia]].
    + intros (j & ρ & -> & Hj). destruct (decide (j = k)) as [->|]; [right|left; exists j, ρ; split; [done|lia]].
      destruct Hv as (_ & Hl & _). destruct ρ; [done|]. simpl in Hl. lia.
Qed.

Lemma free_tree_ok k sub s :
  (10 ≤ k < 13)%nat → frees (k - 9) sub → trunc (under k) ∅ (zap k) s →
  returns (free_tree k i sub) s (λ _ s', trunc (under (S k)) ∅ (zap (S k)) s').
Proof.
  intros Hk Hsub Ht. unfold free_tree. mgo. apply (returns_geti _ _ _ _ (trunc_slot _ _ _ _ Ht)).
  simpl. rewrite zap_lookup by lia. unfold when.
  assert (Hnu : ∀ ρ, ¬ under k (k :: ρ)) by (intros ρ (j & ρ' & [= <- <-] & Hj); lia).
  destruct (Z.eqb_spec (node s0 i [k]) 0) as [Hk0|Hk0]; simpl.
  { mgo. rewrite zap_zero by (done || lia). by apply under_zero. }
  pose proof (root_valid k ltac:(lia)) as Hv.
  mgo. apply (trunc_bread _ _ _ _ [k] _ Ht); [done|done|apply Hnu|set_solver|]. clear s Ht. intros s Ht. mgo.
  eapply returns_mono; [refine (Hsub [k] _ _ _ s _ Hv Hk0 _ (Hnu []) _ Ht); [done|set_solver|]|].
  { intros π' (ρ & -> & Hl & Hf). split; [repeat split; [lia|simpl; lia|done]|]. split; [apply Hnu|].
    intros Hn. assert (node s0 i ([k] ++ ρ) ≠ node s0 i [k]); [|set_solver]. intros E.
    apply (fo_inj s0 i (fv_ok _ _ _ Hinv)) in E; [|repeat split; [lia|simpl; lia|done]|done..].
    destruct ρ; [simpl in Hl; lia|done]. }
  clear s Ht. intros [] s Ht. mgo.
  apply (trunc_brelse _ _ _ _ [k] _ Ht); [done|done|set_solver|]. clear s Ht. intros s Ht. mgo.
  apply (trunc_bfree _ _ _ _ [k] _ Ht); [done|done| |set_solver|].
  { intros [?|Hb]; [by eapply Hnu|]. apply below_longer in Hb. simpl in Hb. lia. }
  clear s Ht. intros s Ht. apply returns_seti, trunc_zap; [lia|].
  replace (({[node s0 i [k]]} ∪ ∅) ∖ {[node s0 i [k]]}) with (∅ : gset Z) in Ht by set_solver.
  eapply trunc_ext; [|exact Ht]. intros π Hvπ _. split.
  - intros [[(j & ρ & -> & Hj)|(ρ & -> & _)]| ->];
      [exists j, ρ; split; [done|lia]|exists k, ρ; split; [done|lia]|exists k, []; split; [done|lia]].
  - intros (j & ρ & -> & Hj). destruct (decide (j = k)) as [->|]; [|left; left; exists j, ρ; split; [done|lia]].
    destruct Hvπ as (_ & Hl & Hf). destruct ρ as [|a ρ]; [by right|left; right].
    exists (a :: ρ). split; [done|]. split; [simpl in *; lia|done].
Qed.

Lemma trunc_start : bheld s0 = ∅ → trunc (under 0) ∅ (zap 0) s0.
Proof.
  intros Hh. split; try done.
  - apply Hinv.
  - intros x Hx. split; [|tauto]. intros Hb. split; [done|]. intros (π & (j & ρ & _ & Hj) & _). lia.
  - intros x _. apply (wf_logged s0 (fv_wf _ _ _ Hinv)). rewrite Hh. set_solver.
  - unfold zap. simpl. rewrite drop_0. apply alter_same_addrs.
Qed.

(** What is left of the inode. *)
Definition emptied : inode := ip <| size := 0 |> <| addrs := replicate 13 0 |>.

Record trunc_post (s' : fsys) : Prop := {
  tp_inv : file_inv s' i emptied;
  tp_bit : ∀ x, 0 ≤ x < sb_size (sb s0) →
    (bit s' x = true ↔ bit s0 x = true ∧ ¬ at_places (λ _, True) x);
  tp_data : ∀ x, is_data s0 x → blocks s' x = blocks s0 x;
  tp_inodes : ∀ n jp, 0 ≤ n → n ≠ inum ip → ino_ok s0 n → dinode_at s' n jp = dinode_at s0 n jp;
  tp_icache : icache s' = <[i := emptied]> (icache s0);
  tp_frame : bheld s' = ∅ ∧ sb s' = sb s0 ∧ disksize s' = disksize s0 ∧ me s' = me s0
}.

Lemma emptied_wf : inode_wf emptied.
Proof. destruct (fv_inode _ _ _ Hinv). split; try done. by apply (Forall_replicate _ 13). Qed.

Lemma trunc_end s :
  trunc (under 13) ∅ (zap 13) s →
  trunc_post (updated emptied (s <| icache := alter (λ ip, ip <| size := 0 |>) i (icache s) |>)).
Proof.
  intros Ht. destruct (tr_frame _ _ _ _ Ht) as (Hsb & Hds & Hba & Hme & _).
  pose proof (trunc_slot _ _ _ _ Ht) as Hs. pose proof (tr_wf _ _ _ _ Ht) as Hwf.
  assert (Hz : zap 13 = replicate 13 0)
    by (unfold zap; rewrite drop_ge; [by rewrite app_nil_r|by rewrite (fo_len s0 i (fv_ok _ _ _ Hinv))]).
  destruct (fv_ino _ _ _ Hinv) as (Hn0 & Hs0 & Hlow).
  assert (Hic : alter (λ ip, ip <| size := 0 |>) i (icache s) = <[i := emptied]> (icache s0)).
  { rewrite (tr_icache _ _ _ _ Ht), list_alter_alter_eq, Hz. apply list_eq. intros j.
    pose proof (lookup_lt_Some _ _ _ (fv_slot _ _ _ Hinv)). destruct (decide (i = j)) as [<-|].
    - by rewrite list_lookup_alter_eq, list_lookup_insert_eq, (fv_slot _ _ _ Hinv).
    - by rewrite list_lookup_alter_ne, list_lookup_insert_ne. }
  set (s1 := s <| icache := _ |>). assert (Hwf1 : fs_wf s1) by (by apply wf_icache).
  assert (Hdi : ∀ n jp, 0 ≤ n → dinode_at (updated emptied s1) n jp =
    if decide (n = inum ip) then copy_dinode emptied jp else dinode_at s n jp).
  { intros n jp Hn. etrans; [by apply dinode_at_updated; [|apply emptied_wf|..]|done]. }
  assert (Hlow1 : IBLOCK (inum ip) (sb s) < sb_bmapstart (sb s)) by (by rewrite Hsb).
  split; try done.
  - split; try done.
    + apply wf_put_low; [done|done|]. apply is_block_put_dinode, Hwf.
    + apply file_ok_empty. unfold faddrs. simpl. rewrite Hic, list_lookup_insert_eq; [done|].
      eapply lookup_lt_Some, Hinv.
    + simpl. rewrite Hic, list_lookup_insert_eq; [done|]. eapply lookup_lt_Some, Hinv.
    + apply Hinv.
    + apply emptied_wf.
    + unfold ino_ok. simpl. by rewrite Hsb.
    + simpl. lia.
    + unfold synced. rewrite Hdi by done. simpl. by rewrite decide_True.
  - intros x Hx. unfold updated. rewrite bit_low by (done || lia).
    change (bit s1 x) with (bit s x). rewrite (tr_bit _ _ _ _ Ht) by done.
    assert (E : at_places (under 13) x ↔ at_places (λ _, True) x); [|by rewrite E].
    unfold at_places. split; intros (π & Hu & Hv & ?); exists π; (split; [|done]); [done|].
    destruct π as [|k ρ]; [done|]. exists k, ρ. split; [done|]. apply Hv.
  - intros x Hx. simpl. rewrite upd_ne; [by apply (tr_data _ _ _ _ Ht)|].
    pose proof (data_above s0 x (fv_wf _ _ _ Hinv) Hx). rewrite Hsb. lia.
  - intros n jp Hn Hne (_ & _ & Hl). rewrite Hdi, decide_False by done. unfold dinode_at.
    by rewrite Hsb, (tr_low _ _ _ _ Ht).
  - split; [by apply Ht|done].
Qed.

Lemma itrunc_ok (Q : unit → fsys → Prop) :
  bheld s0 = ∅ → (∀ s', trunc_post s' → Q tt s') → returns (itrunc i) s0 Q.
Proof.
  intros Hh HQ. unfold itrunc. mgo.
  eapply returns_mono; [apply direct_ok, trunc_start, Hh|]. intros [] s1 Ht1. mgo.
  eapply returns_mono; [apply free_tree_ok; [lia|apply free_slots_frees|done]|]. intros [] s2 Ht2. mgo.
  eapply returns_mono; [apply free_tree_ok; [lia|apply free_subtrees_frees, free_slots_frees|done]|].
  intros [] s3 Ht3. mgo.
  eapply returns_mono; [apply free_tree_ok;
    [lia|apply (free_subtrees_frees 2), free_subtrees_frees, free_slots_frees|done]|].
  intros [] s4 Ht4. mgo. apply returns_seti.
  pose proof (trunc_end s4 Ht4) as Hp. destruct (tr_frame _ _ _ _ Ht4) as (Hsb & _).
  eapply (iupdate_ok i emptied).
  - apply wf_icache, Ht4.
  - pose proof (fv_slot _ _ _ (tp_inv _ Hp)). done.
  - unfold ino_ok. simpl. rewrite Hsb. apply Hinv.
  - intros _. by apply HQ.
Qed.
End Trunc.

(** ** Dropping the last reference *)

Lemma lock_meta s i lk :
  meta_change i s (s <| icache := alter (λ ip, ip <| ilck := lk |>) i (icache s) |>).
Proof.
  split; try done. unfold faddrs. simpl. rewrite list_lookup_alter_eq. by destruct (icache s !! i).
Qed.

Lemma at_places_meta s s' i F x :
  file_ok s i → meta_change i s s' → at_places s' i F x ↔ at_places s i F x.
Proof.
  intros Hok Hm. unfold at_places. split; intros (π & HF & Hv & Hn & Hz); exists π;
    rewrite (meta_node s s' i Hok Hm π Hv) in *; done.
Qed.

Lemma bit_updated ip s x :
  0 ≤ x → IBLOCK (inum ip) (sb s) < sb_bmapstart (sb s) → bit (updated ip s) x = bit s x.
Proof. apply bit_low. Qed.

Lemma file_inv_lock s i ip lk :
  file_inv s i ip →
  file_inv (s <| icache := alter (λ ip, ip <| ilck := lk |>) i (icache s) |>) i (ip <| ilck := lk |>).
Proof.
  intros Hinv. pose proof (fv_slot _ _ _ Hinv) as Hs.
  pose proof (lock_meta s i lk) as Hm. split; try apply Hinv.
  - apply wf_icache, Hinv.
  - eapply meta_file_ok; [apply Hinv|done|apply Hinv].
  - simpl. by rewrite list_lookup_alter_eq, Hs.
  - destruct (fv_inode _ _ _ Hinv). by split.
  - intros x Hx. rewrite (meta_node s _ i (fv_ok _ _ _ Hinv) Hm); [by apply Hinv|].
    pose proof (fv_size _ _ _ Hinv). simpl in Hx. apply fpath_valid, block_of. lia.
  - pose proof (fv_synced _ _ _ Hinv) as Hsy. unfold synced, dinode_at, get_dinode in *. simpl in *.
    rewrite <-Hsy at 2. by destruct ip.
Qed.

(** C22: [itrunc] gives back every block of the file and nothing else: the bitmap
    loses exactly the blocks of the tree, direct and under the single, double and
    triple indirect blocks, each freed once; the inode is left with size 0 and no
    addresses, and so is its dinode; the contents of data blocks, the other
    inodes and the locks do not change. *)
Theorem itrunc_frees_all s i ip :
  file_inv s i ip → bheld s = ∅ → returns (itrunc i) s (λ _ s', trunc_post s i ip s').
Proof. intros Hinv Hh. by apply (itrunc_ok s i ip Hinv). Qed.

(** [iput] of the last reference to an inode without links frees the inode: all
    its blocks go back to the bitmap, its dinode has type 0, so [ialloc] can use
    it, and its cache slot has no references and is not valid. *)
Theorem iput_frees_inode s i ip :
  file_inv s i ip → bheld s = ∅ → ilck ip = None → valid ip = true → nlink ip = 0 → ref ip = 1 →
  returns (iput i) s (λ _ s',
    fs_wf s' ∧
    (∀ x, 0 ≤ x < sb_size (sb s) →
       (bit s' x = true ↔ bit s x = true ∧ ¬ at_places s i (λ _, True) x)) ∧
    (∀ jp, type (dinode_at s' (inum ip) jp) = 0) ∧
    (∀ n jp, 0 ≤ n → n ≠ inum ip → ino_ok s n → dinode_at s' n jp = dinode_at s n jp) ∧
    (∃ ip', icache s' !! i = Some ip' ∧ ref ip' = 0 ∧ valid ip' = false ∧ ilck ip' = None) ∧
    (∀ j, j ≠ i → icache s' !! j = icache s !! j)).
Proof.
  intros Hinv Hh Hlk Hv Hnl Href. pose proof (fv_slot _ _ _ Hinv) as Hs.
  pose proof (file_inv_lock s i ip (Some (me s)) Hinv) as Hinv1.
  set (s1 := s <| icache := _ |>) in *. set (ip1 := ip <| ilck := _ |>) in *.
  unfold iput, acquiresleep. mgo. apply (returns_geti _ _ _ _ Hs). rewrite Hlk. mgo.
  apply returns_seti. change (set icache _ _) with s1. mgo. apply (returns_geti _ _ _ _ (fv_slot _ _ _ Hinv1)).
  replace (valid ip1 && (nlink ip1 =? 0) && (ref ip1 =? 1)) with true
    by (simpl; rewrite Hv, Hnl, Href; done). mgo.
  apply (itrunc_ok s1 i ip1 Hinv1); [done|]. intros s2 Hp. mgo. apply returns_seti. mgo.
  pose proof (fv_slot _ _ _ (tp_inv _ _ _ _ Hp)) as Hs2. destruct (tp_frame _ _ _ _ Hp) as (_ & Hsb2 & _).
  set (ip2 := emptied ip1) in *.
  assert (Hw0 : inode_wf (ip2 <| type := 0 |>)) by (destruct (emptied_wf s1 i ip1 Hinv1); by split).
  destruct (fv_ino _ _ _ Hinv) as (Hn0 & ? & ?).
  apply (iupdate_ok i (ip2 <| type := 0 |>)); [apply wf_icache, (tp_inv _ _ _ _ Hp)| |apply (tp_inv _ _ _ _ Hp)|].
  { simpl. by rewrite list_lookup_alter_eq, Hs2. }
  intros Hwf3. mgo. apply returns_seti. mgo. unfold releasesleep. apply returns_seti. apply returns_seti.
  assert (Hd : ∀ n jp, 0 ≤ n → dinode_at (updated (ip2 <| type := 0 |>) (s2 <| icache := alter (λ ip, ip <| type := 0 |>) i (icache s2) |>)) n jp
     = if decide (n = inum ip) then copy_dinode (ip2 <| type := 0 |>) jp else dinode_at s2 n jp).
  { intros n jp Hn. etrans; [by apply dinode_at_updated; [apply wf_icache, (tp_inv _ _ _ _ Hp)|..]|done]. }
  split_and!.
  - repeat apply wf_icache. exact Hwf3.
  - intros x Hx. rewrite <-(at_places_meta s s1 i _ x (fv_ok _ _ _ Hinv) (lock_meta s i _)).
    rewrite <-(tp_bit _ _ _ _ Hp x Hx : bit s2 x = true ↔ bit s x = true ∧ _).
    assert (E : bit (updated (ip2 <| type := 0 |>) (s2 <| icache := alter (λ ip, ip <| type := 0 |>) i (icache s2) |>)) x
      = bit s2 x) by (etrans; [apply bit_updated; [lia|simpl; by rewrite Hsb2]|done]).
    rewrite <-E. reflexivity.
  - intros jp. etrans; [exact (f_equal type (Hd (inum ip) jp Hn0))|]. by rewrite decide_True.
  - intros n jp Hn Hne Hok. etrans; [exact (Hd n jp Hn)|]. rewrite decide_False by done.
    by apply (tp_inodes _ _ _ _ Hp).
  - simpl. rewrite !list_lookup_alter_eq, Hs2. eexists. split; [done|]. simpl. rewrite Href. done.
  - intros j Hj. simpl. rewrite !list_lookup_alter_ne, (tp_icache _ _ _ _ Hp), list_lookup_insert_ne by done.
    simpl. by rewrite list_lookup_alter_ne.
Qed.

Lemma itrunc_frees_all_witness :
  file_inv (hi_file 1 None) 0 (hi_ip 1 None) ∧
  returns (itrunc 0) (hi_file 1 None) (λ _ s', trunc_post (hi_file 1 None) 0 (hi_ip 1 None) s').
Proof.
  assert (H : file_inv (hi_file 1 None) 0 (hi_ip 1 None)) by (apply hi_inv; by right).
  split; [exact H|]. apply (itrunc_frees_all (hi_file 1 None) 0 (hi_ip 1 None) H). reflexivity.
Defined.

Lemma iput_frees_inode_witness :
  file_inv (hi_file 0 None) 0 (hi_ip 0 None) ∧
  returns (iput 0) (hi_file 0 None) (λ _ s',
    fs_wf s' ∧
    (∀ x, 0 ≤ x < 30 →
       (bit s' x = true ↔ bit (hi_file 0 None) x = true ∧ ¬ at_places (hi_file 0 None) 0 (λ _, True) x)) ∧
    (∀ jp, type (dinode_at s' 1 jp) = 0) ∧
    (∀ n jp, 0 ≤ n → n ≠ 1 → ino_ok (hi_file 0 None) n → dinode_at s' n jp = dinode_at (hi_file 0 None) n jp) ∧
    (∃ ip', icache s' !! 0%nat = Some ip' ∧ ref ip' = 0 ∧ valid ip' = false ∧ ilck ip' = None) ∧
    (∀ j, j ≠ 0%nat → icache s' !! j = icache (hi_file 0 None) !! j)).
Proof.
  assert (H : file_inv (hi_file 0 None) 0 (hi_ip 0 None)) by (apply hi_inv; by left).
  split; [exact H|].
  apply (iput_frees_inode (hi_file 0 None) 0 (hi_ip 0 None) H); reflexivity.
Defined.
