(* ===== verification/FsDir.v ===== *)
(** Directories and path names (dirlookup, dirlink, skipelem): a directory as the
    list of its entries, and a path as the list of its elements. *)

From S2P Require Import Prelude CString Bytes Fs FsBlocks FsInode FsFile FsRw.

(** The name in a field of [n] characters: what is before a terminator, if any. *)
Fixpoint cname (n : nat) (l : list Z) : list Z :=
  match n, l with
  | S n, x :: l => if x =? 0 then [] else x :: cname n l
  | _, _ => []
  end.

(** The entries of a directory. *)
Definition dirent_at (s : fsys) (dp : nat) (k : nat) : list Z :=
  fbyte s dp <$> seqZ (16 * Z.of_nat k) 16.
Definition dirents (s : fsys) (dp : nat) (sz : Z) : list (list Z) :=
  dirent_at s dp <$> seq 0 (Z.to_nat (sz / 16)).

(** What a directory means: the first entry in use with the name. *)
Definition has_name (name de : list Z) : Prop :=
  de_inum de ≠ 0 ∧ cname DIRSIZ name = cname DIRSIZ (de_name de).

#[export] Instance has_name_dec name de : Decision (has_name name de).
Proof. unfold has_name. apply _. Defined.

Definition dir_find (name : list Z) (es : list (list Z)) : option (nat * list Z) :=
  list_find (has_name name) es.

(** Where a new entry goes: the first entry not in use, or the end. *)
Definition dir_free (es : list (list Z)) : nat :=
  match list_find (λ de, de_inum de = 0) es with Some (k, _) => k | None => length es end.

(** A directory between operations. *)
Record dir_inv (s : fsys) (dp : nat) (ip : inode) : Prop := {
  dv_file : file_inv s dp ip;
  dv_type : type ip = T_DIR;
  dv_size : size ip mod 16 = 0
}.

(** ** Names *)

Lemma two_strings_left s t k n :
  (k + n ≤ 1000)%nat → cstr (two_strings s t) (Z.of_nat k) n = cname n (drop k s).
Proof.
  revert k. induction n as [|n IH]; intros k Hk; simpl; [by destruct (drop k s)|].
  unfold two_strings at 1 2. rewrite (proj2 (Z.ltb_lt _ 65536)) by lia. rewrite Nat2Z.id.
  unfold byte. destruct (s !! k) as [x|] eqn:E; simpl.
  - rewrite (drop_S _ _ _ E). destruct (x =? 0); [done|]. f_equal.
    replace (Z.of_nat k + 1) with (Z.of_nat (S k)) by lia. apply IH. lia.
  - apply lookup_ge_None in E. by rewrite drop_ge by done.
Qed.

Lemma two_strings_right s t k n :
  cstr (two_strings s t) (65536 + Z.of_nat k) n = cname n (drop k t).
Proof.
  revert k. induction n as [|n IH]; intros k; simpl; [by destruct (drop k t)|].
  unfold two_strings at 1 2. rewrite (proj2 (Z.ltb_ge _ 65536)) by lia.
  replace (Z.to_nat (65536 + Z.of_nat k - 65536)) with k by lia.
  unfold byte. destruct (t !! k) as [x|] eqn:E; simpl.
  - rewrite (drop_S _ _ _ E). destruct (x =? 0); [done|]. f_equal.
    replace (65536 + Z.of_nat k + 1) with (65536 + Z.of_nat (S k)) by lia. apply IH.
  - apply lookup_ge_None in E. by rewrite drop_ge by done.
Qed.

Lemma namecmp_eq s t : namecmp s t = 0 ↔ cname DIRSIZ s = cname DIRSIZ t.
Proof.
  unfold namecmp. rewrite strncmp_eq. pose proof (two_strings_left s t 0 DIRSIZ ltac:(unfold DIRSIZ; lia)) as H1.
  pose proof (two_strings_right s t 0 DIRSIZ) as H2.
  change (65536 + Z.of_nat 0) with 65536 in H2. change (Z.of_nat 0) with 0 in H1.
  rewrite drop_0 in H1, H2. by rewrite H1, H2.
Qed.

Lemma cname_strncpy n t : cname n (strncpy_name n t) = cname n t.
Proof.
  revert t. induction n as [|n IH]; intros t; [done|]. destruct t as [|x t]; [done|]. simpl.
  destruct (x =? 0) eqn:E; [done|]. simpl. by rewrite E, IH.
Qed.

Lemma length_strncpy n t : length (strncpy_name n t) = n.
Proof.
  revert t. induction n as [|n IH]; intros [|x t]; simpl; rewrite ?length_replicate; try done.
  destruct (x =? 0); simpl; [by rewrite length_replicate|by rewrite IH].
Qed.

(** ** Reading entries *)

Section Entries.
Context (s : fsys) (dp : nat) (ip : inode) (Hinv : dir_inv s dp ip).
Local Abbreviation es := (dirents s dp (size ip)).

Lemma dirents_length : Z.of_nat (length es) * 16 = size ip.
Proof.
  unfold dirents. rewrite length_fmap, length_seq. pose proof (dv_size _ _ _ Hinv).
  pose proof (iw_size _ (fv_inode _ _ _ (dv_file _ _ _ Hinv))). pose proof (Z.div_mod (size ip) 16).
  pose proof (Z.div_pos (size ip) 16). lia.
Qed.

Lemma dirents_lookup k : (k < length es)%nat → es !! k = Some (dirent_at s dp k).
Proof.
  unfold dirents. rewrite length_fmap, length_seq. intros Hk.
  by rewrite list_lookup_fmap, lookup_seq_lt by done.
Qed.

Lemma read_entry dr k (Q : Z * list Z → fsys → Prop) :
  (k < length es)%nat → Q (16, dirent_at s dp k) s →
  returns (readi dr dp (16 * Z.of_nat k) 16) s Q.
Proof.
  intros Hk HQ. pose proof dirents_length. pose proof (dv_file _ _ _ Hinv) as Hf.
  pose proof (iw_size _ (fv_inode _ _ _ Hf)). pose proof (fv_size _ _ _ Hf).
  assert (NBYTES < two32) by done.
  apply (readi_ok dr s dp ip); [done|lia|lia|lia|]. rewrite Z.min_l by lia. done.
Qed.

Lemma end_of_dir k : (size ip <=? 16 * Z.of_nat k) = true ↔ (length es ≤ k)%nat.
Proof. pose proof dirents_length. rewrite Z.leb_le. lia. Qed.

Lemma slot : icache s !! dp = Some ip.
Proof. apply Hinv. Qed.

(** The next entry, or the end of the directory. *)
Lemma next_entry k : (k ≤ length es)%nat →
  ((size ip <=? 16 * Z.of_nat k) = true ∧ drop k es = []) ∨
  ((size ip <=? 16 * Z.of_nat k) = false ∧ (k < length es)%nat ∧
   drop k es = dirent_at s dp k :: drop (S k) es).
Proof.
  intros Hk. pose proof dirents_length. destruct (decide (k < length es)%nat).
  - right. split; [apply Z.leb_gt; lia|]. split; [done|]. apply drop_S. by apply dirents_lookup.
  - left. split; [apply Z.leb_le; lia|]. apply drop_ge. lia.
Qed.

Lemma dirlookup_loop_ok dr name fuel : ∀ k (Q : option (Z * Z) → fsys → Prop),
  (k ≤ length es < k + fuel)%nat →
  Q (match list_find (has_name name) (drop k es) with
     | Some (j, de) => Some (16 * Z.of_nat (k + j), de_inum de)
     | None => None
     end) s →
  returns (dirlookup_loop dr fuel dp name (16 * Z.of_nat k)) s Q.
Proof.
  induction fuel as [|fuel IH]; intros k Q Hk HQ; [lia|]. simpl.
  mgo. apply (returns_geti _ _ _ _ slot).
  destruct (next_entry k) as [[-> Hd]|(-> & Hlt & Hd)]; [lia| |]; rewrite Hd in HQ; [by mgo|].
  mgo. apply read_entry; [done|]. simpl in *.
  assert (Hnext : ∀ Q, Q (match list_find (has_name name) (drop (S k) es) with
      | Some (j, de) => Some (16 * Z.of_nat (k + S j), de_inum de) | None => None end) s →
      returns (dirlookup_loop dr fuel dp name (16 * Z.of_nat k + 16)) s Q).
  { intros Q' HQ'. replace (16 * Z.of_nat k + 16) with (16 * Z.of_nat (S k)) by lia. apply IH; [lia|].
    destruct (list_find _ _) as [[j de]|]; [|done]. by replace (S k + j)%nat with (k + S j)%nat by lia. }
  destruct (decide (has_name name (dirent_at s dp k))) as [Hn|Hn].
  - destruct Hn as [Hi Hn]. rewrite (proj2 (Z.eqb_neq _ 0)) by done.
    apply namecmp_eq in Hn. rewrite Hn. simpl. mgo. by rewrite Nat.add_0_r in HQ.
  - assert (Hq : Q (match list_find (has_name name) (drop (S k) es) with
      | Some (j, de) => Some (16 * Z.of_nat (k + S j), de_inum de) | None => None end) s).
    { by destruct (list_find _ (drop (S k) es)) as [[j de]|]. }
    destruct (Z.eqb_spec (de_inum (dirent_at s dp k)) 0); [by apply Hnext|].
    destruct (Z.eqb_spec (namecmp name (de_name (dirent_at s dp k))) 0) as [Hc|]; [|by apply Hnext].
    destruct Hn. split; [done|]. by apply namecmp_eq.
Qed.

Lemma dirlookup_ok dr name (Q : option (nat * Z) → fsys → Prop) :
  match dir_find name es with
  | None => Q None s
  | Some (k, de) => returns (iget (dev ip) (de_inum de)) s (λ i s', Q (Some (i, 16 * Z.of_nat k)) s')
  end →
  returns (dirlookup dr dp name) s Q.
Proof.
  intros HQ. unfold dirlookup. mgo. apply (returns_geti _ _ _ _ slot).
  rewrite (dv_type _ _ _ Hinv). change (negb (T_DIR =? T_DIR)) with false. mgo. pose proof dirents_length.
  apply (dirlookup_loop_ok dr name _ 0); [lia|]. rewrite drop_0. unfold dir_find in HQ.
  destruct (list_find _ es) as [[k de]|]; mgo; [|done].
  eapply returns_mono; [exact HQ|]. intros i s' Hs. by mgo.
Qed.

Lemma dirlink_loop_ok dr fuel : ∀ k (Q : Z → fsys → Prop),
  (k ≤ length es < k + fuel)%nat →
  Q (16 * Z.of_nat (match list_find (λ de, de_inum de = 0) (drop k es) with
                    | Some (j, _) => k + j | None => length es end)) s →
  returns (dirlink_loop dr fuel dp (16 * Z.of_nat k)) s Q.
Proof.
  induction fuel as [|fuel IH]; intros k Q Hk HQ; [lia|]. simpl.
  mgo. apply (returns_geti _ _ _ _ slot).
  destruct (next_entry k) as [[E Hd]|(-> & Hlt & Hd)]; [lia| |]; rewrite Hd in HQ.
  { rewrite E. mgo. apply end_of_dir in E. simpl in HQ. by replace k with (length es) by lia. }
  mgo. apply read_entry; [done|]. simpl in *. destruct (Z.eqb_spec (de_inum (dirent_at s dp k)) 0) as [E|E].
  - rewrite decide_True, Nat.add_0_r in HQ by done. by mgo.
  - rewrite decide_False in HQ by done.
    replace (16 * Z.of_nat k + 16) with (16 * Z.of_nat (S k)) by lia. apply IH; [lia|].
    destruct (list_find _ (drop (S k) es)) as [[j de]|]; [|done].
    simpl in HQ. by replace (S k + j)%nat with (k + S j)%nat by lia.
Qed.
End Entries.

(** ** Adding an entry *)

(** [l] with [x] at [k], which may be its end. *)
Definition put_at {A} (k : nat) (x : A) (l : list A) : list A := take k l ++ x :: drop (S k) l.

Lemma lookup_put_at {A} (k : nat) (x : A) l j :
  (k ≤ length l)%nat → put_at k x l !! j = if decide (j = k) then Some x else l !! j.
Proof.
  intros Hk. unfold put_at. case_decide as E.
  - subst j. rewrite lookup_app_r by (rewrite length_take; lia).
    by rewrite length_take, Nat.min_l, Nat.sub_diag by lia.
  - destruct (decide (j < k)%nat).
    + rewrite lookup_app_l by (rewrite length_take; lia). by rewrite lookup_take_lt.
    + rewrite lookup_app_r by (rewrite length_take; lia). rewrite length_take, Nat.min_l by lia.
      destruct (j - k)%nat as [|m] eqn:Ej; [lia|]. simpl. rewrite lookup_drop. f_equal. lia.
Qed.

Lemma length_put_at {A} (k : nat) (x : A) l :
  (k ≤ length l)%nat → length (put_at k x l) = Nat.max (length l) (S k).
Proof. intros Hk. unfold put_at. rewrite length_app, length_take. simpl. rewrite length_drop. lia. Qed.

Lemma find_put_at_new {A} (P : A → Prop) `{∀ x, Decision (P x)} k x l :
  (k ≤ length l)%nat → P x → list_find P l = None → list_find P (put_at k x l) = Some (k, x).
Proof.
  intros Hk Hx Hno. apply list_find_Some. rewrite lookup_put_at, decide_True by done.
  split; [done|]. split; [done|]. intros j y Hj Hlt. rewrite lookup_put_at, decide_False in Hj by (done || lia).
  apply list_find_None in Hno. rewrite Forall_forall in Hno. apply Hno. by eapply list_elem_of_lookup_2.
Qed.

Lemma find_put_at_other {A} (P : A → Prop) `{∀ x, Decision (P x)} k x l :
  ¬ P x → (∀ y, l !! k = Some y → ¬ P y) → (k ≤ length l)%nat →
  list_find P (put_at k x l) = list_find P l.
Proof.
  intros Hx. revert k. induction l as [|y l IH]; intros [|k] Hy Hk; simpl in *; try lia.
  - by rewrite decide_False.
  - unfold put_at. simpl. rewrite drop_0. by rewrite !decide_False by auto.
  - unfold put_at. simpl. case_decide; [done|]. f_equal. apply IH; [done|lia].
Qed.

Lemma dir_free_le es : (dir_free es ≤ length es)%nat.
Proof.
  unfold dir_free. destruct (list_find _ es) as [[k de]|] eqn:E; [|done].
  apply list_find_Some in E as (Hk & _). apply lookup_lt_Some in Hk. lia.
Qed.

Lemma dir_free_unused es de : es !! dir_free es = Some de → de_inum de = 0.
Proof.
  unfold dir_free. destruct (list_find _ es) as [[k d]|] eqn:E.
  - apply list_find_Some in E as (Hk & Hd & _). intros. by simplify_eq.
  - intros Hl. apply lookup_lt_Some in Hl. lia.
Qed.

Lemma length_mk_dirent name inum : length (mk_dirent name inum) = 16%nat.
Proof. unfold mk_dirent. rewrite length_app, length_strncpy. done. Qed.

Lemma mk_dirent_inum name inum : 0 ≤ inum < 65536 → de_inum (mk_dirent name inum) = inum.
Proof.
  intros H. unfold de_inum, get16, mk_dirent, byte. simpl. unfold u8.
  rewrite Z.shiftr_div_pow2 by lia. change (2 ^ 8) with 256.
  pose proof (Z.div_mod inum 256). rewrite (Z.mod_small (inum / 256)); [lia|].
  split; [apply Z.div_pos; lia|apply Z.div_lt_upper_bound; lia].
Qed.

Lemma mk_dirent_name name inum : cname DIRSIZ (de_name (mk_dirent name inum)) = cname DIRSIZ name.
Proof.
  unfold de_name, mk_dirent. rewrite drop_app_length' by done. apply cname_strncpy.
Qed.

Lemma strncpy_bytes n t : Forall (λ x, 0 ≤ x < 256) t → Forall (λ x, 0 ≤ x < 256) (strncpy_name n t).
Proof.
  revert t. induction n as [|n IH]; intros [|x t] Ht; cbn [strncpy_name]; [constructor..| |].
  - by apply Forall_replicate.
  - apply Forall_cons in Ht as [Hx Ht]. destruct (x =? 0); [by apply Forall_replicate|].
    constructor; [done|by apply IH].
Qed.

Lemma mk_dirent_bytes name inum :
  Forall (λ x, 0 ≤ x < 256) name → Forall (λ x, 0 ≤ x < 256) (mk_dirent name inum).
Proof. intros Hn. unfold mk_dirent. repeat (constructor; [apply u8_range|]). by apply strncpy_bytes. Qed.

(** Writing entry [k] of a directory. *)
Lemma write_entry s dp ip k de s' :
  dir_inv s dp ip → (k ≤ length (dirents s dp (size ip)))%nat → length de = 16%nat →
  16 * Z.of_nat k + 16 ≤ NBYTES →
  write_post dp ip (16 * Z.of_nat k) de s s' →
  let ip' := grown s' dp (16 * Z.of_nat k) 16 ip in
  dir_inv s' dp ip' ∧ dirents s' dp (size ip') = put_at k de (dirents s dp (size ip)).
Proof.
  intros Hinv Hk Hde Hmax Hp ip'. pose proof (dirents_length _ _ _ Hinv) as Hl.
  pose proof (wp_inv _ _ _ _ _ _ Hp) as Hf. rewrite Hde in Hf. change (Z.of_nat 16) with 16 in Hf.
  assert (Hsz : size ip' = Z.max (size ip) (16 * Z.of_nat k + 16)) by done.
  assert (Hinv' : dir_inv s' dp ip').
  { split; [done|apply Hinv|]. rewrite Hsz. pose proof (dv_size _ _ _ Hinv).
    destruct (Z.max_spec (size ip) (16 * Z.of_nat k + 16)) as [[_ ->]|[_ ->]]; [|done].
    replace (16 * Z.of_nat k + 16) with ((Z.of_nat k + 1) * 16) by lia. by apply Z.mod_mul. }
  split; [done|]. pose proof (dirents_length _ _ _ Hinv') as Hl'.
  pose proof (fv_size _ _ _ (dv_file _ _ _ Hinv)).
  assert (Hent : ∀ j, 16 * Z.of_nat j + 16 ≤ NBYTES →
    dirent_at s' dp j = if decide (j = k) then de else dirent_at s dp j).
  { intros j Hj. unfold dirent_at. case_decide as E.
    - subst j. apply list_eq_same_length with (n := 16%nat); [done|done|].
      intros m x y Hm Hx Hy. rewrite list_lookup_fmap in Hx. apply fmap_Some in Hx as (z & Hz & ->).
      apply lookup_seqZ in Hz as [-> Hz].
      rewrite (wp_bytes _ _ _ _ _ _ Hp), Hde, decide_True by lia.
      unfold byte. replace (Z.to_nat _) with m by lia. by rewrite Hy.
    - apply list_fmap_ext. intros m z Hz. apply lookup_seqZ in Hz as [-> Hz].
      rewrite (wp_bytes _ _ _ _ _ _ Hp), Hde, decide_False by lia. done. }
  assert (Hle : Z.of_nat (length (dirents s' dp (size ip'))) * 16 ≤ NBYTES) by lia.
  apply list_eq_same_length with (n := length (dirents s' dp (size ip'))); [rewrite length_put_at by done; lia|done|].
  intros j x y Hj Hx Hy. rewrite dirents_lookup in Hx by done. simplify_eq.
  rewrite lookup_put_at in Hy by done. rewrite Hent by lia.
  case_decide as E; [by simplify_eq|]. rewrite dirents_lookup in Hy by lia. by simplify_eq.
Qed.

(** C23: [dirlookup] implements the lookup in the list of entries: without an entry in
    use of that name, compared on at most 14 characters, it returns 0 and changes
    nothing; with one, it does what [iget] does on the first such entry's inode
    number, and stores the entry's offset. *)
Theorem dirlookup_refines dev_read s dp ip name :
  dir_inv s dp ip →
  dirlookup dev_read dp name s =
    match dir_find name (dirents s dp (size ip)) with
    | None => Ok None s
    | Some (k, de) => (i ← iget (dev ip) (de_inum de); mret (Some (i, 16 * Z.of_nat k))) s
    end.
Proof.
  intros Hinv. unfold dirlookup, geti, mbind at 1, M_bind at 1. rewrite (slot _ _ _ Hinv).
  rewrite (dv_type _ _ _ Hinv). change (negb (T_DIR =? T_DIR)) with false. cbv iota.
  pose proof (dirents_length _ _ _ Hinv) as Hl.
  assert (H : returns (dirlookup_loop dev_read (S (Z.to_nat (size ip))) dp name 0) s (λ r s', s' = s ∧
    r = match dir_find name (dirents s dp (size ip)) with
        | Some (k, de) => Some (16 * Z.of_nat k, de_inum de) | None => None end)).
  { apply (dirlookup_loop_ok s dp ip Hinv dev_read name _ 0); [lia|]. by rewrite drop_0. }
  apply returns_ok in H as (r & s' & E & -> & ->). unfold mbind at 1, M_bind at 1. rewrite E.
  by destruct (dir_find name _) as [[k de]|].
Qed.

(** [dirlink] of a new name puts its entry into the first unused place, or at
    the end: it returns 0, the directory is consistent, the new list of entries
    differs in that place only, the name is found there with its inode number,
    and every other name is found as before. *)
Theorem dirlink_adds dev_read dev_write s dp ip name inum :
  dir_inv s dp ip →
  let es := dirents s dp (size ip) in
  let k := dir_free es in
  dir_find name es = None → 0 < inum < 65536 → Forall (λ x, 0 ≤ x < 256) name →
  16 * Z.of_nat k + 16 ≤ NBYTES →
  (3 * nmissing s dp (16 * Z.of_nat k / BSIZE) (nspan (16 * Z.of_nat k) 16) ≤ nfree s)%nat →
  returns (dirlink dev_read dev_write dp name inum) s (λ r s', r = 0 ∧
    ∃ ip', dir_inv s' dp ip' ∧
      let es' := dirents s' dp (size ip') in
      es' = put_at k (mk_dirent name inum) es ∧
      dir_find name es' = Some (k, mk_dirent name inum) ∧ de_inum (mk_dirent name inum) = inum ∧
      ∀ name', cname DIRSIZ name' ≠ cname DIRSIZ name → dir_find name' es' = dir_find name' es).
Proof.
  intros Hinv es k Hno Hi Hname Hmax Hfree. pose proof (dirents_length _ _ _ Hinv) as Hl.
  fold es in Hl. pose proof (dir_free_le es) as Hk. fold k in Hk.
  unfold dirlink. mgo. apply (dirlookup_ok s dp ip Hinv). fold es. rewrite Hno. mgo.
  apply (returns_geti _ _ _ _ (slot _ _ _ Hinv)). mgo.
  apply (dirlink_loop_ok s dp ip Hinv dev_read _ 0); [fold es; lia|]. fold es. rewrite drop_0.
  change (match _ with Some _ => _ | None => _ end) with k. mgo.
  assert (Hlen : Z.of_nat (length (mk_dirent name inum)) = 16) by (by rewrite length_mk_dirent).
  apply (writei_ok dev_write s dp ip); [apply Hinv|lia|lia|by apply mk_dirent_bytes|by rewrite Hlen|].
  intros s' Hp. rewrite Hlen. change (negb (16 =? 16)) with false. mgo.
  destruct (write_entry s dp ip k _ s' Hinv Hk (length_mk_dirent _ _) Hmax Hp) as [Hinv' Hes].
  assert (Hde : de_inum (mk_dirent name inum) = inum) by (apply mk_dirent_inum; lia).
  split; [done|]. eexists. split; [exact Hinv'|]. cbv zeta. rewrite Hes. fold es.
  split; [done|]. split; [|split; [done|]].
  - apply find_put_at_new; [done| |done]. split; [lia|]. symmetry. apply mk_dirent_name.
  - intros name' Hne. apply find_put_at_other; [| |done].
    + intros [_ E]. rewrite mk_dirent_name in E. done.
    + intros de Hd [Hz _]. apply dir_free_unused in Hd. done.
Qed.

(** ** Paths *)

(** The elements of a path: what is between slashes, without empty elements. *)
Fixpoint elements_from (cur : list Z) (path : list Z) : list (list Z) :=
  match path with
  | [] => if decide (cur = []) then [] else [cur]
  | x :: p =>
      if x =? SLASH then (if decide (cur = []) then elements_from [] p else cur :: elements_from [] p)
      else elements_from (cur ++ [x]) p
  end.
Definition elements (path : list Z) : list (list Z) := elements_from [] path.

Lemma elements_skip path : elements (skip_slashes path) = elements path.
Proof.
  unfold elements. induction path as [|x p IH]; [done|]. simpl.
  destruct (x =? SLASH) eqn:E; [done|]. simpl. by rewrite E.
Qed.

Lemma elements_span p : ∀ cur,
  elements_from cur p =
    let '(e, r) := span_elem p in
    if decide (cur ++ e = []) then elements r else (cur ++ e) :: elements r.
Proof.
  induction p as [|x p IH]; intros cur; simpl.
  - rewrite app_nil_r. by case_decide.
  - destruct (x =? SLASH) eqn:E; simpl.
    + rewrite app_nil_r. unfold elements at 1 2. simpl. rewrite E. by case_decide.
    + rewrite IH. destruct (span_elem p) as [e r]. rewrite <-app_assoc. done.
Qed.

Lemma skip_slashes_head path x p : skip_slashes path = x :: p → x ≠ SLASH.
Proof.
  induction path as [|y q IH]; simpl; [done|]. destruct (Z.eqb_spec y SLASH); [done|]. by intros [= <- <-].
Qed.

Lemma skip_slashes_length path : (length (skip_slashes path) ≤ length path)%nat.
Proof. induction path as [|x p IH]; simpl; [done|]. destruct (x =? SLASH); simpl; lia. Qed.

Lemma span_elem_length p : let '(e, r) := span_elem p in (length e + length r = length p)%nat.
Proof.
  induction p as [|x p IH]; simpl; [done|]. destruct (x =? SLASH); simpl; [done|].
  destruct (span_elem p) as [e r]. simpl. lia.
Qed.

(** [skipelem] splits off the first element of a path: it returns 0 exactly
    when the path has no element, and otherwise the element, cut off at 14
    characters, and a shorter path with the remaining elements and no leading
    slash.  So the loop of [namex] visits the elements of the path in order and
    ends. *)
Theorem skipelem_elements path :
  match skipelem path with
  | None => elements path = []
  | Some (rest, name) =>
      ∃ e, elements path = e :: elements rest ∧ name = take DIRSIZ e ∧
           (length rest < length path)%nat ∧ skip_slashes rest = rest
  end.
Proof.
  unfold skipelem. rewrite <-elements_skip. pose proof (skip_slashes_length path) as Hlen.
  destruct (skip_slashes path) as [|x p] eqn:E; [done|].
  pose proof (skip_slashes_head _ _ _ E) as Hx.
  pose proof (span_elem_length (x :: p)) as Hs.
  unfold elements. rewrite (elements_span (x :: p) []).
  simpl span_elem in *. rewrite (proj2 (Z.eqb_neq x SLASH)) in * by done.
  destruct (span_elem p) as [e r]. simpl in *. exists (x :: e). split; [|split; [done|split]].
  - f_equal. symmetry. apply elements_skip.
  - pose proof (skip_slashes_length r). lia.
  - clear. induction r as [|y r IH]; simpl; [done|]. destruct (y =? SLASH) eqn:E; [done|]. simpl. by rewrite E.
Qed.

(** ** An empty directory *)

Lemma demo_dir : dir_inv (demo_empty T_DIR) 0 (demo_ip T_DIR).
Proof. split; [apply demo_inv; by right|reflexivity|reflexivity]. Qed.

Lemma dirlookup_refines_witness :
  dir_inv (demo_empty T_DIR) 0 (demo_ip T_DIR) ∧
  dirlookup (λ _, None) 0 [97] (demo_empty T_DIR) = Ok None (demo_empty T_DIR).
Proof.
  split; [exact demo_dir|].
  rewrite (dirlookup_refines (λ _, None) (demo_empty T_DIR) 0 (demo_ip T_DIR) [97] demo_dir). reflexivity.
Defined.

Lemma dirlink_adds_witness :
  dir_inv (demo_empty T_DIR) 0 (demo_ip T_DIR) ∧
  returns (dirlink (λ _, None) (λ _, None) 0 [97] 5) (demo_empty T_DIR) (λ r s', r = 0 ∧
    ∃ ip', dir_inv s' 0 ip' ∧
      let es' := dirents s' 0 (size ip') in
      es' = put_at 0 (mk_dirent [97] 5) [] ∧
      dir_find [97] es' = Some (0%nat, mk_dirent [97] 5) ∧ de_inum (mk_dirent [97] 5) = 5 ∧
      ∀ name', cname DIRSIZ name' ≠ cname DIRSIZ [97] → dir_find name' es' = dir_find name' []).
Proof.
  split; [exact demo_dir|].
  apply (dirlink_adds (λ _, None) (λ _, None) (demo_empty T_DIR) 0 (demo_ip T_DIR) [97] 5 demo_dir).
  - reflexivity.
  - lia.
  - repeat constructor; lia.
  - vm_compute. discriminate.
  - vm_compute. lia.
Defined.
