(* ===== verification/FsProg.v ===== *)
(** The file system as programs over buffers.

    The functions of fs.c reach the disk only through [bread], the data of a locked
    buffer, [log_write] and [brelse].  [prog] is a tree of such steps, which a handler runs
    on a state: on the blocks that Fs.v works with, or on the log and the buffer cache
    (FsLog.v).  [fsprog] gives for a function of Fs.v the program whose run it is, and
    counts the buffers it locks. *)

From S2P Require Import Prelude CString Bytes Fs.

(** What the file system keeps in memory apart from the buffers. *)
Record fmem := mkfm { fm_sb : superblock; fm_icache : list inode; fm_me : nat; fm_cwd : nat }.

Definition mem_of (s : fsys) : fmem := mkfm (sb s) (icache s) (me s) (cwd s).
Definition with_mem (m : fmem) (s : fsys) : fsys :=
  s <| sb := fm_sb m |> <| icache := fm_icache m |> <| me := fm_me m |> <| cwd := fm_cwd m |>.

(** The ways to stop without a result. *)
Inductive stop := Spanic (msg : string) | Sblock | Sundef (why : string) | Snofuel.

Inductive prog (A : Type) : Type :=
| Ret (a : A)
| Bread (b : Z) (k : prog A)
| Bdata (b : Z) (k : blk → prog A)
| Bstore (b : Z) (d : blk) (k : prog A)
| Log_write (b : Z) (k : prog A)
| Brelse (b : Z) (k : prog A)
| Get (k : fmem → prog A)
| Put (m : fmem) (k : prog A)
| Stop (o : stop).
Arguments Ret {A}.
Arguments Bread {A}.
Arguments Bdata {A}.
Arguments Bstore {A}.
Arguments Log_write {A}.
Arguments Brelse {A}.
Arguments Get {A}.
Arguments Put {A}.
Arguments Stop {A}.

(** ** Running a program *)

Record handler (S : Type) := mkhandler {
  on_bread : Z → M S unit;
  on_bdata : Z → M S blk;
  on_bstore : Z → blk → M S unit;
  on_log_write : Z → M S unit;
  on_brelse : Z → M S unit;
  on_get : S → fmem;
  on_put : fmem → S → S
}.
Arguments on_bread {S}.
Arguments on_bdata {S}.
Arguments on_bstore {S}.
Arguments on_log_write {S}.
Arguments on_brelse {S}.
Arguments on_get {S}.
Arguments on_put {S}.

Definition stopped {S A} (o : stop) : M S A :=
  match o with Spanic m => panic m | Sblock => block | Sundef w => undef w | Snofuel => λ _, NoFuel end.

Fixpoint run {S A} (H : handler S) (p : prog A) : M S A :=
  match p with
  | Ret a => mret a
  | Bread b k => _ ← on_bread H b; run H k
  | Bdata b k => d ← on_bdata H b; run H (k d)
  | Bstore b d k => _ ← on_bstore H b d; run H k
  | Log_write b k => _ ← on_log_write H b; run H k
  | Brelse b k => _ ← on_brelse H b; run H k
  | Get k => m ← gets (on_get H); run H (k m)
  | Put m k => _ ← modify (on_put H m); run H k
  | Stop o => stopped o
  end.

Fixpoint pbind {A B} (p : prog A) (f : A → prog B) : prog B :=
  match p with
  | Ret a => f a
  | Bread b k => Bread b (pbind k f)
  | Bdata b k => Bdata b (λ d, pbind (k d) f)
  | Bstore b d k => Bstore b d (pbind k f)
  | Log_write b k => Log_write b (pbind k f)
  | Brelse b k => Brelse b (pbind k f)
  | Get k => Get (λ m, pbind (k m) f)
  | Put m k => Put m (pbind k f)
  | Stop o => Stop o
  end.

(** The handler of Fs.v. *)
Definition on_fsys : handler fsys := mkhandler fsys bread bdata bstore log_write brelse mem_of with_mem.

(** ** Counting buffers *)

(** The buffers a program of fs.c locks at a time: an indirect block and a bitmap block. *)
Definition MAXHELD : nat := 2.

(** From [h] locked buffers on, the program never locks more than [MAXHELD] and ends with
    [j a] when it returns [a]. *)
Fixpoint nest {A} (h : nat) (p : prog A) (j : A → nat) : Prop :=
  match p with
  | Ret a => (h ≤ j a)%nat
  | Bread _ k => (h < MAXHELD)%nat ∧ nest (S h) k j
  | Brelse _ k => nest (pred h) k j
  | Bdata _ k => ∀ d, nest h (k d) j
  | Bstore _ _ k | Log_write _ k | Put _ k => nest h k j
  | Get k => ∀ m, nest h (k m) j
  | Stop _ => True
  end.

(** [m] is the run of a program that starts with [h] locked buffers. *)
Record fsprog {A} (h : nat) (j : A → nat) (m : M fsys A) : Type := mkfp {
  body : prog A;
  body_run : ∀ s, run on_fsys body s = m s;
  body_nest : nest h body j
}.
Arguments body {A h j m}.
Arguments body_run {A h j m}.
Arguments body_nest {A h j m}.

Lemma run_bind {S A B} (H : handler S) (p : prog A) (f : A → prog B) s :
  run H (pbind p f) s = (a ← run H p; run H (f a)) s.
Proof.
  revert s. induction p as [a|b k IH|b k IH|b d k IH|b k IH|b k IH|k IH|m k IH|o]; intros s; cbn [pbind run]; try done;
    unfold mbind, M_bind, gets, modify in *; cbn.
  all: try (destruct (on_bread H b s); [by rewrite IH|done..]).
  all: try (destruct (on_bdata H b s); [by rewrite IH|done..]).
  all: try (destruct (on_bstore H b d s); [by rewrite IH|done..]).
  all: try (destruct (on_log_write H b s); [by rewrite IH|done..]).
  all: try (destruct (on_brelse H b s); [by rewrite IH|done..]).
  all: try by rewrite IH.
  by destruct o.
Qed.

Lemma nest_bind {A B} (p : prog A) (f : A → prog B) h j l :
  nest h p j → (∀ a h', (h' ≤ j a)%nat → nest h' (f a) l) → nest h (pbind p f) l.
Proof.
  revert h. induction p; intros h; cbn [nest pbind]; intros Hp Hf; eauto.
  destruct Hp. eauto.
Qed.

Lemma nest_weaken {A} (p : prog A) h h' j j' :
  nest h p j → (h' ≤ h)%nat → (∀ a, (j a ≤ j' a)%nat) → nest h' p j'.
Proof.
  intros Hp Hle Hj. revert h h' Hp Hle. induction p as [a|b k IH|b k IH|b d k IH|b k IH|b k IH|k IH|m k IH|o]; intros h h'; cbn [nest]; intros Hp Hle.
  - specialize (Hj a). lia.
  - destruct Hp as [? Hp]. split; [lia|]. eapply IH; [exact Hp|lia].
  - intros d. eapply IH; [apply Hp|done].
  - by eapply IH.
  - by eapply IH.
  - eapply IH; [exact Hp|lia].
  - intros m. eapply IH; [apply Hp|done].
  - by eapply IH.
  - done.
Qed.

(** ** Programs from their parts *)

Section Parts.
Context {A B : Type}.
Implicit Types (h : nat) (j : A → nat).

Definition fp_ret h j (a : A) : (h ≤ j a)%nat → fsprog h j (mret a).
Proof. intros Hh. exact (mkfp _ h j _ (Ret a) (λ s, eq_refl) Hh). Defined.

Definition fp_bind h j (l : B → nat) (m : M fsys A) (k : A → M fsys B) :
  fsprog h j m → (∀ a, fsprog (j a) l (k a)) → fsprog h l (m ≫= k).
Proof.
  intros P K. refine (mkfp _ h l _ (pbind (body P) (λ a, body (K a))) _ _).
  - intros s. rewrite run_bind. unfold mbind, M_bind. rewrite (body_run P). destruct (m s); try done. apply (body_run (K a)).
  - eapply nest_bind; [exact (body_nest P)|]. intros a h' Hh. eapply nest_weaken; [exact (body_nest (K a))|exact Hh|done].
Defined.

Definition fp_gets h (f : fsys → A) (g : fmem → A) : (∀ s, f s = g (mem_of s)) → fsprog h (λ _, h) (gets f).
Proof.
  intros Hf. refine (mkfp _ h _ _ (Get (λ m, Ret (g m))) _ _); [|intros m; cbn; lia]. intros s. cbn. unfold mbind, M_bind, gets. cbn. by rewrite Hf.
Defined.

Definition fp_panic h j (msg : string) : fsprog h j (panic msg).
Proof. exact (mkfp _ h j _ (Stop (Spanic msg)) (λ s, eq_refl) I). Defined.
Definition fp_undef h j (why : string) : fsprog h j (undef why).
Proof. exact (mkfp _ h j _ (Stop (Sundef why)) (λ s, eq_refl) I). Defined.
Definition fp_block h j : fsprog h j (block : M fsys A).
Proof. exact (mkfp _ h j _ (Stop Sblock) (λ s, eq_refl) I). Defined.
Definition fp_nofuel h j : fsprog h j ((λ _, NoFuel) : M fsys A).
Proof. exact (mkfp _ h j _ (Stop Snofuel) (λ s, eq_refl) I). Defined.

Definition fp_weaken h h' j j' (m : M fsys A) : fsprog h j m → (h' ≤ h)%nat → (∀ a, (j a ≤ j' a)%nat) → fsprog h' j' m.
Proof. intros P Hh Hj. refine (mkfp _ h' j' _ (body P) (body_run P) _). eapply nest_weaken; [exact (body_nest P)|exact Hh|exact Hj]. Defined.
End Parts.

Definition fp_bread h b : (h < MAXHELD)%nat → fsprog h (λ _, S h) (bread b).
Proof. intros Hh. refine (mkfp _ h _ _ (Bread b (Ret tt)) _ _); [|split; cbn; lia]. intros s. cbn. unfold mbind, M_bind. by destruct (bread b s) as [[]| | | |]. Defined.
Definition fp_bdata h b : fsprog h (λ _, h) (bdata b).
Proof. refine (mkfp _ h _ _ (Bdata b Ret) _ _); [|intros d; cbn; lia]. intros s. cbn. unfold mbind, M_bind. by destruct (bdata b s). Defined.
Definition fp_bstore h b d : fsprog h (λ _, h) (bstore b d).
Proof. refine (mkfp _ h _ _ (Bstore b d (Ret tt)) _ _); [|cbn; lia]. intros s. cbn. unfold mbind, M_bind. by destruct (bstore b d s) as [[]| | | |]. Defined.
Definition fp_log_write h b : fsprog h (λ _, h) (log_write b).
Proof. refine (mkfp _ h _ _ (Log_write b (Ret tt)) _ _); [|cbn; lia]. intros s. cbn. unfold mbind, M_bind. by destruct (log_write b s) as [[]| | | |]. Defined.
Definition fp_brelse h b : fsprog h (λ _, pred h) (brelse b).
Proof. refine (mkfp _ h _ _ (Brelse b (Ret tt)) _ _); [|cbn; lia]. intros s. cbn. unfold mbind, M_bind. by destruct (brelse b s) as [[]| | | |]. Defined.

Definition fp_modify h (f : fsys → fsys) (g : fmem → fmem) :
  (∀ s, f s = with_mem (g (mem_of s)) s) → fsprog h (λ _, h) (modify f).
Proof.
  intros Hf. refine (mkfp _ h _ _ (Get (λ m, Put (g m) (Ret tt))) _ _); [|intros m; cbn; lia]. intros s. cbn. unfold mbind, M_bind, gets, modify. cbn. by rewrite Hf.
Defined.

Definition fp_geti h i : fsprog h (λ _, h) (geti i).
Proof.
  refine (mkfp _ h _ _ (Get (λ m, match fm_icache m !! i with Some ip => Ret ip | None => Stop (Sundef "inode pointer") end)) _ _).
  - intros s. cbn. unfold mbind, M_bind, gets, geti. cbn. by destruct (icache s !! i).
  - intros m. cbn. destruct (fm_icache m !! i); cbn; [lia|done].
Defined.

Definition fp_seti h i f : fsprog h (λ _, h) (seti i f).
Proof. apply (fp_modify _ _ (λ m, mkfm (fm_sb m) (alter f i (fm_icache m)) (fm_me m) (fm_cwd m))). intros s. by destruct s. Defined.

Definition fp_sb h : fsprog h (λ _, h) (gets sb).
Proof. by apply (fp_gets _ _ fm_sb). Defined.
Definition fp_icache h : fsprog h (λ _, h) (gets icache).
Proof. by apply (fp_gets _ _ fm_icache). Defined.
Definition fp_me h : fsprog h (λ _, h) (gets me).
Proof. by apply (fp_gets _ _ fm_me). Defined.
Definition fp_cwd h : fsprog h (λ _, h) (gets cwd).
Proof. by apply (fp_gets _ _ fm_cwd). Defined.

Definition fp_when h (b : bool) m : fsprog h (λ _, h) m → fsprog h (λ _, h) (when b m).
Proof. intros P. destruct b; [exact P|by apply fp_ret]. Defined.

Definition fp_for h n lo f : (∀ i, fsprog h (λ _, h) (f i)) → fsprog h (λ _, h) (for_ n lo f).
Proof.
  intros P. revert lo. induction n as [|n IH]; intros lo; [by apply fp_ret|]. cbn [for_]. eapply fp_bind; [apply P|]. intros ?. apply IH.
Defined.

(** A loop whose body may return, with [l v] locked buffers for the value [v]. *)
Definition fp_for_ret {R} h (l : R → nat) n lo (f : Z → M fsys (option R)) :
  (∀ i, fsprog h (λ r, match r with Some v => l v | None => h end) (f i)) →
  fsprog h (λ r, match r with Some v => l v | None => h end) (for_ret n lo f).
Proof.
  intros P. revert lo. induction n as [|n IH]; intros lo; [by apply fp_ret|]. cbn [for_ret]. eapply fp_bind; [apply P|].
  intros [v|]; [by apply fp_ret|apply IH].
Defined.

Create HintDb fsprog.
#[export] Hint Extern 0 (_ < MAXHELD)%nat => unfold MAXHELD in *; cbn in *; lia : fsprog.

(** The program of a function from its text: its calls of other functions are looked up
    in [fsprog]; what is left are its loops. *)
Ltac fp_step :=
  lazymatch goal with
  | |- fsprog _ _ (mret _) => apply fp_ret; cbn; lia
  | |- fsprog _ _ skip => apply fp_ret; cbn; lia
  | |- fsprog _ _ (_ ≫= _) => eapply fp_bind; [|intros ?; cbv beta]
  | |- fsprog _ _ (bread _) => apply fp_bread; unfold MAXHELD in *; lia
  | |- fsprog _ _ (bdata _) => apply fp_bdata
  | |- fsprog _ _ (bstore _ _) => apply fp_bstore
  | |- fsprog _ _ (log_write _) => apply fp_log_write
  | |- fsprog _ _ (brelse _) => apply fp_brelse
  | |- fsprog _ _ (geti _) => apply fp_geti
  | |- fsprog _ _ (seti _ _) => apply fp_seti
  | |- fsprog _ _ (gets sb) => apply fp_sb
  | |- fsprog _ _ (gets icache) => apply fp_icache
  | |- fsprog _ _ (gets me) => apply fp_me
  | |- fsprog _ _ (gets cwd) => apply fp_cwd
  | |- fsprog _ _ (panic _) => apply fp_panic
  | |- fsprog _ _ (undef _) => apply fp_undef
  | |- fsprog _ _ block => apply fp_block
  | |- fsprog _ _ (λ _, NoFuel) => apply fp_nofuel
  | |- fsprog _ _ (when _ _) => apply fp_when
  | |- fsprog _ _ (let _ := _ in _) => cbv zeta
  | |- fsprog _ _ (if ?b then _ else _) => destruct b
  | |- fsprog _ _ (match ?x with _ => _ end) => destruct x
  | |- fsprog _ _ _ => solve [eauto 2 with fsprog nocore]
  end.
Ltac fp := repeat fp_step.

(** ** The functions of fs.c *)

Definition fp_bzero h b : (h < MAXHELD)%nat → fsprog h (λ _, h) (bzero b).
Proof. intros Hh. unfold bzero. fp. Defined.
#[export] Hint Resolve fp_bzero : fsprog.

Definition fp_balloc_group h sb k : (h < MAXHELD)%nat → fsprog h (λ _, h) (balloc_group sb k).
Proof.
  intros Hh. unfold balloc_group. cbv zeta. eapply fp_bind; [by apply fp_bread|]. intros ?. eapply fp_bind.
  - apply (fp_for_ret (S h) (λ _, h)). intros i. unfold balloc_bit. fp.
  - intros [v|]; fp.
Defined.
#[export] Hint Resolve fp_balloc_group : fsprog.

Definition fp_balloc h : (h < MAXHELD)%nat → fsprog h (λ _, h) balloc.
Proof.
  intros Hh. unfold balloc. eapply fp_bind; [apply fp_sb|]. intros ?. eapply fp_bind.
  - apply (fp_for_ret h (λ _, h)). intros i. eapply fp_weaken; [by apply fp_balloc_group|done|]. by intros [].
  - intros [v|]; fp.
Defined.
#[export] Hint Resolve fp_balloc : fsprog.

Definition fp_bfree h b : (h < MAXHELD)%nat → fsprog h (λ _, h) (bfree b).
Proof. intros Hh. unfold bfree. fp. Defined.
#[export] Hint Resolve fp_bfree : fsprog.

Definition fp_readsb h : (h < MAXHELD)%nat → fsprog h (λ _, h) readsb.
Proof. intros Hh. unfold readsb. fp. Defined.
#[export] Hint Resolve fp_readsb : fsprog.

Definition fp_iinit : fsprog 0 (λ _, 0%nat) iinit.
Proof.
  unfold iinit. eapply fp_bind.
  { apply (fp_modify 0 _ (λ m, mkfm (fm_sb m) ((λ ip, ip <| ilck := None |>) <$> fm_icache m) (fm_me m) (fm_cwd m))). by intros []. }
  intros ?. eapply fp_bind; [apply (fp_readsb 0); unfold MAXHELD; lia|]. intros b.
  apply (fp_modify 0 _ (λ m, mkfm b (fm_icache m) (fm_me m) (fm_cwd m))). by intros [].
Defined.

Definition fp_iget h d n : fsprog h (λ _, h) (iget d n).
Proof. unfold iget. fp. Defined.
#[export] Hint Resolve fp_iget : fsprog.

Definition fp_ialloc h d ty : (h < MAXHELD)%nat → fsprog h (λ _, h) (ialloc d ty).
Proof.
  intros Hh. unfold ialloc. eapply fp_bind; [apply fp_sb|]. intros ?. eapply fp_bind.
  - apply (fp_for_ret h (λ _, h)). intros i. cbv beta zeta. fp.
  - intros [v|]; fp.
Defined.
#[export] Hint Resolve fp_ialloc : fsprog.

Definition fp_iupdate h i : (h < MAXHELD)%nat → fsprog h (λ _, h) (iupdate i).
Proof. intros Hh. unfold iupdate. fp. Defined.
#[export] Hint Resolve fp_iupdate : fsprog.

Definition fp_idup h i : fsprog h (λ _, h) (idup i).
Proof. unfold idup. fp. Defined.
#[export] Hint Resolve fp_idup : fsprog.

Definition fp_acquiresleep h i : fsprog h (λ _, h) (acquiresleep i).
Proof. unfold acquiresleep. fp. Defined.
#[export] Hint Resolve fp_acquiresleep : fsprog.

Definition fp_ilock h i : (h < MAXHELD)%nat → fsprog h (λ _, h) (ilock i).
Proof. intros Hh. unfold ilock. fp. Defined.
#[export] Hint Resolve fp_ilock : fsprog.

Definition fp_iunlock h i : fsprog h (λ _, h) (iunlock i).
Proof. unfold iunlock, releasesleep. fp. Defined.
#[export] Hint Resolve fp_iunlock : fsprog.

Definition fp_addr_slot h i k : (h < MAXHELD)%nat → fsprog h (λ _, h) (addr_slot i k).
Proof. intros Hh. unfold addr_slot. fp. Defined.
#[export] Hint Resolve fp_addr_slot : fsprog.

Definition fp_ind_slot h p k : (S h < MAXHELD)%nat → fsprog h (λ _, h) (ind_slot p k).
Proof. intros Hh. unfold ind_slot. fp. Defined.
#[export] Hint Resolve fp_ind_slot : fsprog.

Definition fp_bmap i bn : fsprog 0 (λ _, 0%nat) (bmap i bn).
Proof. unfold bmap. fp. Defined.
#[export] Hint Resolve fp_bmap : fsprog.

Definition fp_free_slots p : fsprog 1 (λ _, 1%nat) (free_slots p).
Proof. apply fp_for. intros j. fp. Defined.
#[export] Hint Resolve fp_free_slots : fsprog.

Definition fp_free_subtrees p sub : (∀ a, fsprog 1 (λ _, 1%nat) (sub a)) → fsprog 1 (λ _, 1%nat) (free_subtrees p sub).
Proof. intros P. apply fp_for. intros j. fp. Defined.

Definition fp_free_tree k i sub : (∀ a, fsprog 1 (λ _, 1%nat) (sub a)) → fsprog 0 (λ _, 0%nat) (free_tree k i sub).
Proof. intros P. unfold free_tree. fp. Defined.

Definition fp_itrunc i : fsprog 0 (λ _, 0%nat) (itrunc i).
Proof.
  unfold itrunc. eapply fp_bind; [apply fp_for; intros k; fp|]. intros ?.
  eapply fp_bind; [apply fp_free_tree, fp_free_slots|]. intros ?.
  eapply fp_bind; [apply fp_free_tree; intros p; apply fp_free_subtrees, fp_free_slots|]. intros ?.
  eapply fp_bind; [apply fp_free_tree; intros p; apply fp_free_subtrees; intros q; apply fp_free_subtrees, fp_free_slots|]. intros ?.
  fp.
Defined.
#[export] Hint Resolve fp_itrunc : fsprog.

Definition fp_iput i : fsprog 0 (λ _, 0%nat) (iput i).
Proof. unfold iput, releasesleep. fp. Defined.
#[export] Hint Resolve fp_iput : fsprog.

Definition fp_iunlockput i : fsprog 0 (λ _, 0%nat) (iunlockput i).
Proof. unfold iunlockput. fp. Defined.
#[export] Hint Resolve fp_iunlockput : fsprog.

Definition fp_readi_loop fuel i off n : fsprog 0 (λ _, 0%nat) (readi_loop fuel i off n).
Proof. revert off n. induction fuel as [|fuel IH]; intros off n; cbn [readi_loop]; fp. Defined.
#[export] Hint Resolve fp_readi_loop : fsprog.

Definition fp_writei_loop fuel i off src : fsprog 0 (λ _, 0%nat) (writei_loop fuel i off src).
Proof. revert off src. induction fuel as [|fuel IH]; intros off src; cbn [writei_loop]; fp. Defined.
#[export] Hint Resolve fp_writei_loop : fsprog.

(** Files and directories; the devices are not reached from a transaction. *)
Definition no_read : Z → option (nat → Z → M fsys (Z * list Z)) := λ _, None.
Definition no_write : Z → option (nat → list Z → M fsys Z) := λ _, None.

Definition fp_readi i off n : fsprog 0 (λ _, 0%nat) (readi no_read i off n).
Proof. unfold readi, no_read. fp. Defined.
#[export] Hint Resolve fp_readi : fsprog.

Definition fp_writei i off src : fsprog 0 (λ _, 0%nat) (writei no_write i off src).
Proof. unfold writei, no_write. fp. Defined.
#[export] Hint Resolve fp_writei : fsprog.

Definition fp_dirlookup_loop fuel dp name off : fsprog 0 (λ _, 0%nat) (dirlookup_loop no_read fuel dp name off).
Proof. revert off. induction fuel as [|fuel IH]; intros off; cbn [dirlookup_loop]; fp. Defined.
#[export] Hint Resolve fp_dirlookup_loop : fsprog.

Definition fp_dirlookup dp name : fsprog 0 (λ _, 0%nat) (dirlookup no_read dp name).
Proof. unfold dirlookup. fp. Defined.
#[export] Hint Resolve fp_dirlookup : fsprog.

Definition fp_dirlink_loop fuel dp off : fsprog 0 (λ _, 0%nat) (dirlink_loop no_read fuel dp off).
Proof. revert off. induction fuel as [|fuel IH]; intros off; cbn [dirlink_loop]; fp. Defined.
#[export] Hint Resolve fp_dirlink_loop : fsprog.

Definition fp_dirlink dp name inum : fsprog 0 (λ _, 0%nat) (dirlink no_read no_write dp name inum).
Proof. unfold dirlink. fp. Defined.
#[export] Hint Resolve fp_dirlink : fsprog.

Definition fp_namex_loop fuel ip path par name : fsprog 0 (λ _, 0%nat) (namex_loop no_read fuel ip path par name).
Proof.
  revert ip path name. induction fuel as [|fuel IH]; intros ip path name; cbn [namex_loop]; fp.
Defined.
#[export] Hint Resolve fp_namex_loop : fsprog.

Definition fp_namex path par : fsprog 0 (λ _, 0%nat) (namex no_read path par).
Proof. unfold namex. fp. Defined.
#[export] Hint Resolve fp_namex : fsprog.
