(* ===== verification/FsLog.v ===== *)
(** The file system on the log and the buffer cache.

    A file system call is made between [begin_op] and [end_op].  Here the programs of
    FsProg.v run on the log of log.c and the cache of bio.c, and a transaction made of
    calls of fs.c is shown to have the effect that Fs.v gives it, at once or not at all
    even if the machine stops in between. *)

From S2P Require Import Prelude CString Bytes BlockCache Fs FsProg Log.

#[local] Abbreviation card := stdpp.base.size.

(** ** The handler *)

Section FsLog.
Context {T : Type} {BC : BlockCache T}.

(** The log with the cache below it, the memory of the file system, and for each locked
    block its buffer. *)
Record fslog := mkfl { fl_log : lst T; fl_mem : fmem; fl_bufs : gmap Z nat }.
#[global] Instance fslog_eta : Eta fslog := λ s, mkfl (fl_log s) (fl_mem s) (fl_bufs s).

Definition on_lst {A} : M (lst T) A → M fslog A := zoom fl_log (λ l s, s <| fl_log := l |>).

Definition buf_of (b : Z) : M fslog nat := λ s,
  match fl_bufs s !! b with Some h => Ok h s | None => Undef "buffer not locked" end.

Definition log_bread (b : Z) : M fslog unit :=
  h ← on_lst (lift (bc_bread b)); modify (λ s, s <| fl_bufs := <[b := h]> (fl_bufs s) |>).
Definition log_brelse (b : Z) : M fslog unit :=
  h ← buf_of b; _ ← on_lst (lift (bc_brelse h)); modify (λ s, s <| fl_bufs := delete b (fl_bufs s) |>).

Definition on_fslog : handler fslog := mkhandler fslog
  log_bread
  (λ b, h ← buf_of b; on_lst (lift (bc_data h)))
  (λ b d, h ← buf_of b; on_lst (lift (bc_store h d)))
  (λ b, h ← buf_of b; on_lst (log_write h))
  log_brelse
  fl_mem
  (λ m s, s <| fl_mem := m |>).

(** A transaction. *)
Definition transaction {A} (p : prog A) : M fslog A :=
  _ ← on_lst begin_op; a ← run on_fslog p; _ ← on_lst end_op; mret a.

(** ** The two runs agree *)

(** The blocks [s] of Fs.v are what the cache [c] under the log shows, with the buffers
    [H] locked and the blocks [bl] logged; [l] is the log when the transaction began. *)
Record agrees (l : lst T) (c0 : cview) (s : fsys) (L : fslog) (c : cview) (H : gmap nat Z) (bl : list Z) : Prop := {
  ag_mem : fl_mem L = mem_of s;
  ag_rep : rep (cache (fl_log L)) c H;
  ag_bufs : ∀ b h, fl_bufs L !! b = Some h ↔ H !! h = Some b;
  ag_held : ∀ b, b ∈ bheld s ↔ is_Some (fl_bufs L !! b);
  ag_view : ∀ x, c_view c x = blocks s x;
  ag_disk : ∀ x, c_disk c x = base s x;
  ag_pinned : c_pinned c = Fs.logged s;
  ag_logged : Fs.logged s = list_to_set bl;
  ag_nodup : NoDup bl;
  ag_lh : lh_is (fl_log L) bl;
  ag_range : ∀ b, b ∈ bheld s ∪ Fs.logged s → 0 ≤ b < disksize s;
  ag_clean : ∀ x, x ∉ Fs.logged s → x ∉ bheld s → blocks s x = base s x;
  ag_log : same_log l (fl_log L);
  ag_cache : c_disk c = c_disk c0 ∧ c_trace c = c_trace c0 ∧ c_size c = disksize s ∧ c_size c = c_size c0 ∧ c_bufs c = 30%nat;
  ag_started : lsize l = 30 ∧ length (lh_block l) = 30%nat ∧ 0 < outstanding l
}.

Lemma agrees_count l c0 s L c H bl : agrees l c0 s L c H bl → card (Fs.logged s) = length bl.
Proof. intros Ha. rewrite (ag_logged _ _ _ _ _ _ _ Ha). apply size_list_to_set, Ha. Qed.

Lemma agrees_buf l c0 s L c H bl b : agrees l c0 s L c H bl → b ∈ bheld s →
  ∃ h, fl_bufs L !! b = Some h ∧ H !! h = Some b.
Proof. intros Ha [h Hh]%(ag_held _ _ _ _ _ _ _ Ha). exists h. split; [done|]. by apply (ag_bufs _ _ _ _ _ _ _ Ha). Qed.

Lemma returns_buf_of b h L (Q : nat → fslog → Prop) : fl_bufs L !! b = Some h → Q h L → returns (buf_of b) L Q.
Proof. unfold returns, buf_of. by intros ->. Qed.

Lemma returns_on_lst {A} (m : M (lst T) A) L (Q : A → fslog → Prop) :
  returns m (fl_log L) (λ a l, Q a (L <| fl_log := l |>)) → returns (on_lst m) L Q.
Proof. unfold returns, on_lst, zoom. by destruct (m (fl_log L)). Qed.

Lemma bread_agrees l c0 s L c H bl b s' :
  agrees l c0 s L c H bl → bread b s = Ok tt s' → (card (Fs.logged s) ≤ 28)%nat → (card (bheld s) < 2)%nat →
  returns (log_bread b) L (λ _ L', ∃ H', agrees l c0 s' L' c H' bl).
Proof.
  intros Ha E Hl Hh. unfold bread in E. case_decide as Hb; [done|]. destruct ((0 <=? b) && (b <? disksize s)) eqn:Er; [|done].
  injection E as <-. apply andb_true_iff in Er as [H1%Z.leb_le H2%Z.ltb_lt]. destruct (ag_cache _ _ _ _ _ _ _ Ha) as (_ & _ & Hsz & _ & Hnb).
  assert (Himg : (map_img H : gset Z) ⊆ bheld s).
  { intros x [h Hx]%elem_of_map_img. apply (ag_held _ _ _ _ _ _ _ Ha). exists h. by apply (ag_bufs _ _ _ _ _ _ _ Ha). }
  unfold log_bread. apply returns_bind, returns_on_lst, returns_lift. eapply returns_mono.
  { apply (bc_bread_ok _ _ b (ag_rep _ _ _ _ _ _ _ Ha)); cbn [c_held c_size c_bufs set]; [set_solver|lia|]. unfold in_use. cbn [c_held c_pinned set].
    rewrite Hnb, (ag_pinned _ _ _ _ _ _ _ Ha). etrans; [apply subseteq_size|etrans; [apply (size_union_le (Fs.logged s) ({[b]} ∪ bheld s))|]].
    - set_solver.
    - pose proof (size_union_le {[b]} (bheld s)). rewrite size_singleton in *. lia. }
  intros h t [Hfresh Hr]. cbn [c_held set] in Hfresh. apply returns_modify. exists (<[h:=b]> H).
  destruct Ha as [A1 A2 A3 A4 A5 A6 A7 A8 A9 A10 A11 A12 A13 A14 A15]. constructor; cbn; try done.
  - intros b' h'. rewrite !lookup_insert_Some. rewrite A3. split.
    + intros [[<- <-]|[Hne Hbh]]; [by left|]. right. split; [|done]. intros <-. congruence.
    + intros [[<- <-]|[Hne Hbh]]; [by left|]. right. split; [|done]. intros <-. apply Hb, A4. exists h'. by apply A3.
  - intros b'. rewrite elem_of_union, elem_of_singleton, A4. destruct (decide (b' = b)) as [->|Hne].
    + rewrite lookup_insert_eq. split; [by eexists|by left].
    + rewrite lookup_insert_ne by done. split; [by intros [?|?]|by right].
  - intros b' Hb'. destruct (decide (b' = b)) as [->|]; [lia|]. apply A11. set_solver.
  - intros x Hx Hx'. apply A12; set_solver.
Qed.

Lemma bdata_agrees l c0 s L c H bl b d s' :
  agrees l c0 s L c H bl → bdata b s = Ok d s' →
  returns (on_bdata on_fslog b) L (λ d' L', d' = d ∧ L' = L ∧ s' = s).
Proof.
  intros Ha E. unfold bdata in E. case_decide as Hb; [|done]. injection E as <- <-.
  destruct (agrees_buf _ _ _ _ _ _ _ b Ha Hb) as (h & Hh & HH). cbn. apply returns_bind. apply (returns_buf_of _ h); [done|].
  apply returns_on_lst. eapply lift_data; [exact (ag_rep _ _ _ _ _ _ _ Ha)|exact HH|].
  split_and!; [apply (ag_view _ _ _ _ _ _ _ Ha)|by destruct L|done].
Qed.

Lemma bstore_agrees l c0 s L c H bl b d s' :
  agrees l c0 s L c H bl → bstore b d s = Ok tt s' →
  returns (on_bstore on_fslog b d) L (λ _ L', ∃ c', agrees l c0 s' L' c' H bl).
Proof.
  intros Ha E. unfold bstore in E. case_decide as Hb; [|done]. injection E as <-.
  destruct (agrees_buf _ _ _ _ _ _ _ b Ha Hb) as (h & Hh & HH). cbn. apply returns_bind. apply (returns_buf_of _ h); [done|].
  apply returns_on_lst. eapply returns_mono; [eapply lift_store; [exact (ag_rep _ _ _ _ _ _ _ Ha)|exact HH]|].
  intros [] lg (t & -> & Hr). exists (c <| c_view := upd (c_view c) b d |>). destruct Ha as [A1 A2 A3 A4 A5 A6 A7 A8 A9 A10 A11 A12 A13 A14 A15].
  constructor; cbn; try done.
  - intros x. destruct (decide (x = b)) as [->|]; [by rewrite !upd_eq|by rewrite !upd_ne, A5].
  - intros x Hx Hx'. rewrite upd_ne by (intros ->; done). by apply A12.
Qed.

Lemma log_write_agrees l c0 s L c H bl b s' :
  agrees l c0 s L c H bl → Fs.log_write b s = Ok tt s' → (card (Fs.logged s') ≤ 28)%nat →
  returns (on_log_write on_fslog b) L (λ _ L', ∃ c' bl', agrees l c0 s' L' c' H bl').
Proof.
  intros Ha E Hc. unfold Fs.log_write in E. case_decide as Hb; [|done]. injection E as <-. cbn in Hc.
  destruct (agrees_buf _ _ _ _ _ _ _ b Ha Hb) as (h & Hh & HH). pose proof (agrees_count _ _ _ _ _ _ _ Ha) as Hn.
  destruct Ha as [A1 A2 A3 A4 A5 A6 A7 A8 A9 A10 A11 A12 A13 A14 (A15 & A16 & A17)]. destruct A13 as (B1 & B2 & B3 & B4 & B5).
  assert (Hle : (length bl ≤ 28)%nat) by (rewrite <- Hn; etrans; [apply subseteq_size|exact Hc]; set_solver).
  cbn. apply returns_bind. apply (returns_buf_of _ h); [done|]. apply returns_on_lst.
  eapply returns_mono; [apply (log_write_ok _ c H h b bl A2 HH A10)|]; [lia|lia|lia|by rewrite B5|].
  intros [] lg (t & Hr & Hlh & Hlb & Elg). exists (c <| c_pinned := {[b]} ∪ c_pinned c |>), (logged bl b). rewrite Elg.
  rewrite Elg in Hlh. constructor; cbn; try done.
  - by rewrite A7.
  - unfold logged. rewrite A8. case_decide as Hin; [set_solver|]. rewrite list_to_set_app_L. set_solver.
  - unfold logged. case_decide as Hin; [done|]. apply NoDup_app. split_and!; [done| |apply NoDup_singleton]. set_solver.
  - intros x Hx. apply A11. set_solver.
  - intros x Hx Hx'. apply A12; set_solver.
  - unfold same_log. cbn. by rewrite Hlb, A16.
Qed.

Lemma brelse_agrees l c0 s L c H bl b s' :
  agrees l c0 s L c H bl → brelse b s = Ok tt s' →
  returns (log_brelse b) L (λ _ L', ∃ H', agrees l c0 s' L' c H' bl).
Proof.
  intros Ha E. unfold brelse in E. case_decide as Hb; [|done]. case_decide as Hsv; [|done]. injection E as <-.
  destruct (agrees_buf _ _ _ _ _ _ _ b Ha Hb) as (h & Hh & HH). unfold log_brelse. apply returns_bind. apply (returns_buf_of _ h); [done|].
  destruct Ha as [A1 A2 A3 A4 A5 A6 A7 A8 A9 A10 A11 A12 A13 A14 A15].
  apply returns_bind, returns_on_lst. eapply returns_mono; [eapply lift_brelse; [exact A2|exact HH|]|].
  { unfold saved. by rewrite A7, A5, A6. }
  intros [] lg (t & -> & Hr). apply returns_modify. exists (delete h H). constructor; cbn; try done.
  - intros b' h'. rewrite !lookup_delete_Some, A3. split; intros [Hne Hx]; (split; [|done]).
    + intros <-. congruence.
    + intros <-. apply A3 in Hx. congruence.
  - intros b'. rewrite elem_of_difference, elem_of_singleton, A4, lookup_delete_is_Some. naive_solver.
  - intros x Hx. apply A11. set_solver.
  - intros x Hx Hx'. destruct (decide (x = b)) as [->|]; [by destruct Hsv|]. apply A12; set_solver.
Qed.

Lemma put_agrees l c0 s L c H bl m :
  agrees l c0 s L c H bl → agrees l c0 (with_mem m s) (L <| fl_mem := m |>) c H bl.
Proof. intros [A1 A2 A3 A4 A5 A6 A7 A8 A9 A10 A11 A12 A13 A14 A15]. constructor; cbn; try done. by destruct m. Qed.

(** ** Programs *)

Lemma logged_grows {A} (p : prog A) s a s' : run on_fsys p s = Ok a s' → Fs.logged s ⊆ Fs.logged s'.
Proof.
  revert s. induction p as [x|b k IH|b k IH|b d k IH|b k IH|b k IH|k IH|m k IH|o]; intros s; cbn [run];
    unfold mbind, M_bind, mret, M_ret, gets, modify; cbn.
  - by intros [= <- <-].
  - unfold bread. case_decide; [done|]. destruct ((0 <=? b) && (b <? disksize s)); [|done]. apply IH.
  - unfold bdata. case_decide; [|done]. apply IH.
  - unfold bstore. case_decide; [|done]. intros E%IH. exact E.
  - unfold Fs.log_write. case_decide; [|done]. intros E%IH. cbn in E. set_solver.
  - unfold brelse. case_decide; [|done]. case_decide; [|done]. intros E%IH. exact E.
  - apply IH.
  - intros E%IH. exact E.
  - by destruct o.
Qed.

(** A program that returns on the blocks of Fs.v returns the same on the log, if it logs
    no more than 28 blocks. *)
Lemma run_agrees {A} (p : prog A) : ∀ l c0 s L c H bl h j a s',
  agrees l c0 s L c H bl → nest h p j → (card (bheld s) ≤ h)%nat → run on_fsys p s = Ok a s' → (card (Fs.logged s') ≤ 28)%nat →
  returns (run on_fslog p) L (λ a' L', a' = a ∧ (card (bheld s') ≤ j a)%nat ∧ ∃ c' H' bl', agrees l c0 s' L' c' H' bl').
Proof.
  induction p as [x|b k IH|b k IH|b d k IH|b k IH|b k IH|k IH|m k IH|o]; intros l c0 s L c H bl h j a s' Ha Hn Hh E Hc; cbn [run nest] in *.
  - injection E as <- <-. apply returns_ret. split_and!; [done|lia|by eauto].
  - destruct Hn as [Hn1 Hn2]. apply bind_ok in E as ([] & s1 & E1 & E). apply returns_bind.
    pose proof (logged_grows _ _ _ _ E) as Hg. assert (Hle : (card (Fs.logged s1) ≤ 28)%nat) by (etrans; [by apply subseteq_size|done]).
    assert (E2 : Fs.logged s1 = Fs.logged s ∧ bheld s1 = {[b]} ∪ bheld s).
    { cbn in E1. unfold bread in E1. case_decide; [done|]. destruct (_ && _); [|done]. by injection E1 as <-. }
    destruct E2 as [El Eh]. unfold MAXHELD in Hn1. eapply returns_mono; [eapply bread_agrees; [done|exact E1|by rewrite <- El|lia]|].
    intros [] L1 (H1 & Ha1). eapply IH; [exact Ha1|exact Hn2| |exact E|exact Hc]. rewrite Eh. etrans; [apply size_union_le|]. rewrite size_singleton. lia.
  - apply bind_ok in E as (d & s1 & E1 & E). apply returns_bind. eapply returns_mono; [eapply bdata_agrees; [exact Ha|exact E1]|].
    intros d' L1 (-> & -> & ->). by eapply IH.
  - apply bind_ok in E as ([] & s1 & E1 & E). apply returns_bind. assert (Eh : bheld s1 = bheld s).
    { cbn in E1. unfold bstore in E1. case_decide; [|done]. by injection E1 as <-. }
    eapply returns_mono; [eapply bstore_agrees; [exact Ha|exact E1]|]. intros [] L1 (c1 & Ha1). eapply IH; [exact Ha1|exact Hn|by rewrite Eh|done|done].
  - apply bind_ok in E as ([] & s1 & E1 & E). apply returns_bind. assert (Eh : bheld s1 = bheld s).
    { cbn in E1. unfold Fs.log_write in E1. case_decide; [|done]. by injection E1 as <-. }
    pose proof (logged_grows _ _ _ _ E) as Hg. assert (Hle : (card (Fs.logged s1) ≤ 28)%nat) by (etrans; [by apply subseteq_size|done]).
    eapply returns_mono; [eapply log_write_agrees; [exact Ha|exact E1|done]|]. intros [] L1 (c1 & bl1 & Ha1).
    eapply IH; [exact Ha1|exact Hn|by rewrite Eh|done|done].
  - apply bind_ok in E as ([] & s1 & E1 & E). apply returns_bind. assert (Eh : b ∈ bheld s ∧ bheld s1 = bheld s ∖ {[b]}).
    { cbn in E1. unfold brelse in E1. case_decide; [|done]. case_decide; [|done]. by injection E1 as <-. }
    eapply returns_mono; [eapply brelse_agrees; [exact Ha|exact E1]|]. intros [] L1 (H1 & Ha1). destruct Eh as [Hb Eh].
    eapply IH; [exact Ha1|exact Hn| |exact E|exact Hc]. rewrite Eh, size_difference by set_solver. rewrite size_singleton. lia.
  - apply returns_bind, returns_gets. cbn. rewrite (ag_mem _ _ _ _ _ _ _ Ha). by eapply (IH (mem_of s)).
  - apply returns_bind, returns_modify. cbn. eapply IH; [by apply put_agrees|exact Hn|done|exact E|done].
  - by destruct o.
Qed.

(** ** Transactions *)

(** The blocks after a commit. *)
Definition settled (D : Z → blk) (s : fsys) : fsys :=
  s <| blocks := D |> <| base := D |> <| Fs.logged := ∅ |>.

(** Between transactions: no buffer is locked, nothing is logged, and the disk holds the
    blocks [s]. *)
Record quiet (s : fsys) (L : fslog) (c : cview) : Prop := {
  qt_mem : fl_mem L = mem_of s;
  qt_bufs : fl_bufs L = ∅;
  qt_held : bheld s = ∅;
  qt_logged : Fs.logged s = ∅;
  qt_ready : ready (fl_log L) c [];
  qt_blocks : ∀ x, c_disk c x = blocks s x;
  qt_base : ∀ x, base s x = blocks s x;
  qt_size : c_size c = disksize s ∧ c_size c ≤ 2147483648;
  qt_nbuf : c_bufs c = 30%nat;
  qt_log : lsize (fl_log L) = 30 ∧ length (lh_block (fl_log L)) = 30%nat ∧ outstanding (fl_log L) = 0 ∧ committing (fl_log L) = false
}.

Lemma begin_agrees s L c : quiet s L c →
  returns (on_lst begin_op) L (λ _ L', committing (fl_log L') = false ∧ outstanding (fl_log L') = 1 ∧ lstart (fl_log L') = lstart (fl_log L) ∧
    ready (fl_log L') c [] ∧ agrees (fl_log L') c s L' c ∅ []).
Proof.
  intros [Q1 Q2 Q3 Q4 Q5 Q6 Q7 [Q8 Q8'] Q9 (Q10 & Q11 & Q12 & Q13)]. pose proof Q5 as [R1 [R2 R2'] R3 R4 R5 R6 R7 R8 R9].
  apply returns_on_lst. unfold begin_op, returns. rewrite Q13, R2, Q12. cbn. split_and!; [done|done|done|by constructor|].
  constructor; cbn; rewrite ?Q2, ?Q3, ?Q4, ?Q9; try done.
  - intros b. rewrite lookup_empty, is_Some_alt. set_solver.
  - intros x. rewrite R5 by apply not_elem_of_nil. apply Q6.
  - intros x. by rewrite Q6, Q7.
  - apply NoDup_nil_2.
Qed.

Lemma end_ready l c0 s L c H bl :
  agrees l c0 s L c H bl → bheld s = ∅ → ready l c0 [] → (length bl ≤ 28)%nat → (∀ b, b ∈ Fs.logged s → outside (lstart l) b) →
  c_size c0 ≤ 2147483648 → ready (fl_log L) c bl.
Proof.
  intros Ha Hh [_ _ [_ _ _ Hl] _ _ R6 R7 _ _] Hn Hout Hsz. destruct Ha as [A1 A2 A3 A4 A5 A6 A7 A8 A9 A10 A11 A12 A13 A14 A15].
  destruct A14 as (B1 & B2 & B3 & B4 & B5). destruct A13 as (C1 & C2 & C3 & C4 & C5). destruct A15 as (D1 & D2 & D3).
  assert (EH : H = ∅).
  { apply map_empty. intros h. destruct (H !! h) as [b|] eqn:E; [|done]. apply A3 in E. assert (b ∈ bheld s) by (apply A4; by eexists). set_solver. }
  subst H. constructor; try done.
  - constructor; [lia|done| |by rewrite C1, B4]. intros b Hb. assert (Hb' : b ∈ Fs.logged s) by (rewrite A8; set_solver).
    rewrite C1. assert (Hr : 0 ≤ b < disksize s) by (apply A11; set_solver). split; [|split]; [lia|lia|by apply Hout].
  - by rewrite A7.
  - intros x Hx. rewrite A5, A6. apply A12; [rewrite A8; set_solver|set_solver].
  - by rewrite C1, B1.
  - by rewrite C1, B1.
  - rewrite B5. lia.
  - lia.
Qed.

(** A program that returns on the blocks of Fs.v, run as a transaction, returns the same
    and is atomic. *)
Lemma transaction_agrees {A} (p : prog A) s L c a s' :
  quiet s L c → nest 0 p (λ _, 0%nat) → run on_fsys p s = Ok a s' → (card (Fs.logged s') ≤ 28)%nat →
  (∀ b, b ∈ Fs.logged s' → outside (lstart (fl_log L)) b) →
  returns (transaction p) L (λ a' L', a' = a ∧ lstart (fl_log L') = lstart (fl_log L) ∧ ∃ c' w,
    quiet (settled (c_disk c') s') L' c' ∧ c_trace c' = c_trace c ++ w ∧
    (∀ x, outside (lstart (fl_log L)) x → c_disk c' x = blocks s' x) ∧
    (∀ x, x ∈ w.*1 → x ∈ Fs.logged s' ∨ ¬ outside (lstart (fl_log L)) x) ∧
    crash_ok (lstart (fl_log L)) (disksize s) (c_disk c) (blocks s') w).
Proof.
  intros Hq Hn E Hc Hout. pose proof (qt_size _ _ _ Hq) as [Hsz Hsz']. unfold transaction. apply returns_bind.
  eapply returns_mono; [by apply begin_agrees|]. intros [] L1 (C1 & O1 & S1 & R1 & A1). apply returns_bind.
  eapply returns_mono; [eapply (run_agrees p _ c s L1 c ∅ []); [exact A1|exact Hn| |exact E|exact Hc]|].
  { by rewrite (qt_held _ _ _ Hq), size_empty. }
  intros ? L2 (-> & Hh & c2 & H2 & bl2 & A2). assert (Eh : bheld s' = ∅) by (apply leibniz_equiv, size_empty_inv; lia).
  pose proof (agrees_count _ _ _ _ _ _ _ A2) as Hcount. rewrite <- S1 in *.
  assert (R2 : ready (fl_log L2) c2 bl2) by (eapply (end_ready _ _ _ _ _ _ _ A2); [done|done|lia|done|done]).
  destruct A2 as [B1 B2 B3 B4 B5 B6 B7 B8 B9 B10 B11 B12 (B13 & B13a & B13b & B13c & B13d) (B14 & B14a & B14b & B14c & B14d) (B15 & B15a & B15b)].
  apply returns_bind, returns_on_lst. eapply returns_mono; [apply (end_op_atomic _ c2 bl2 R2); congruence|].
  intros [] l3 (O3 & C3 & S3 & Z3 & N3 & c' & w & R3 & T3 & Zc & Bc & D3 & Hks & Hcs). apply returns_ret.
  rewrite B13 in S3, D3, Hks, Hcs. split_and!; [done|done|]. exists c', w. split_and!.
  - constructor; cbn; try done.
    + apply map_empty. intros b. apply eq_None_not_Some. intros Hb%B4. set_solver.
    + split; [congruence|lia].
    + congruence.
    + split_and!; [congruence|congruence|done|done].
  - congruence.
  - intros x Hx. by rewrite D3, B5.
  - intros x Hx. rewrite B8. destruct (Hks x Hx); [left; set_solver|by right].
  - rewrite B14, B14c, Hsz in Hcs. intros k. destruct (Hcs k) as [G1 G2]. split; [done|]. destruct G2 as [G2|G2]; [by left|right].
    intros x Hx. by rewrite G2, B5.
Qed.

(** ** Transactions of calls *)

(** The functions of fs.c that system calls make, and transactions, in which each call
    may depend on what the earlier ones returned. *)
Inductive fs_call : Type → Type :=
| Cialloc (dev type : Z) : fs_call nat
| Ciget (dev inum : Z) : fs_call nat
| Cidup (i : nat) : fs_call nat
| Ciupdate (i : nat) : fs_call unit
| Cilock (i : nat) : fs_call unit
| Ciunlock (i : nat) : fs_call unit
| Ciput (i : nat) : fs_call unit
| Ciunlockput (i : nat) : fs_call unit
| Cstati (i : nat) : fs_call stat
| Creadi (i : nat) (off n : Z) : fs_call (Z * list Z)
| Cwritei (i : nat) (off : Z) (src : list Z) : fs_call Z
| Cdirlookup (dp : nat) (name : list Z) : fs_call (option (nat * Z))
| Cdirlink (dp : nat) (name : list Z) (inum : Z) : fs_call Z
| Cnamei (path : list Z) : fs_call (option nat)
| Cnameiparent (path : list Z) : fs_call (option nat * list Z).

(** [Tset] is a change of the fields of an inode in memory, such as [ip->nlink--]. *)
Inductive fs_tx : Type → Type :=
| Tret {A} (a : A) : fs_tx A
| Tcall {A B} (c : fs_call A) (k : A → fs_tx B) : fs_tx B
| Tget {A} (i : nat) (k : inode → fs_tx A) : fs_tx A
| Tset {A} (i : nat) (f : inode → inode) (k : fs_tx A) : fs_tx A.

Definition fs_do {A} (c : fs_call A) : M fsys A :=
  match c with
  | Cialloc d ty => ialloc d ty
  | Ciget d n => iget d n
  | Cidup i => idup i
  | Ciupdate i => iupdate i
  | Cilock i => ilock i
  | Ciunlock i => iunlock i
  | Ciput i => iput i
  | Ciunlockput i => iunlockput i
  | Cstati i => stati i
  | Creadi i off n => readi no_read i off n
  | Cwritei i off src => writei no_write i off src
  | Cdirlookup dp name => dirlookup no_read dp name
  | Cdirlink dp name inum => dirlink no_read no_write dp name inum
  | Cnamei path => namei no_read path
  | Cnameiparent path => nameiparent no_read path
  end.

Fixpoint tx_do {A} (x : fs_tx A) : M fsys A :=
  match x with
  | Tret a => mret a
  | Tcall c k => a ← fs_do c; tx_do (k a)
  | Tget i k => ip ← geti i; tx_do (k ip)
  | Tset i f k => _ ← seti i f; tx_do k
  end.

Definition fs_prog {A} (c : fs_call A) : fsprog 0 (λ _, 0%nat) (fs_do c).
Proof. refine (match c with Cialloc _ _ => _ | _ => _ end); cbn [fs_do]; unfold stati, namei, nameiparent; fp. Defined.

Fixpoint tx_prog {A} (x : fs_tx A) : fsprog 0 (λ _, 0%nat) (tx_do x).
Proof.
  refine (match x with Tret a => _ | Tcall c k => _ | Tget i k => _ | Tset i f k => _ end); cbn [tx_do].
  - by apply fp_ret.
  - eapply fp_bind; [apply fs_prog|]. intros a. apply tx_prog.
  - eapply fp_bind; [apply fp_geti|]. intros ip. apply tx_prog.
  - eapply fp_bind; [apply fp_seti|]. intros ?. apply tx_prog.
Defined.

(** ** The first process after a start *)

(** What [forkret] works on: its static [first], whether [ptable.lock] is held, and the
    file system. *)
Record starting := mkstarting { st_first : bool; st_locked : bool; st_fs : fslog }.
#[global] Instance starting_eta : Eta starting := λ s, mkstarting (st_first s) (st_locked s) (st_fs s).

Definition on_started {A} : M fslog A → M starting A := zoom st_fs (λ L s, s <| st_fs := L |>).

Definition forkret : M starting unit :=
  l ← gets st_locked;
  if negb l then panic "release" else
  _ ← modify (λ s, s <| st_locked := false |>);
  f ← gets st_first;
  when f
    (_ ← modify (λ s, s <| st_first := false |>);
     _ ← on_started (run on_fslog (body fp_iinit));
     on_started (on_lst initlog)).

(** The machine was switched on with the disk [D] of [n] blocks: the cache is empty, and
    the other variables of the kernel are as the loader leaves them. *)
Record powered (D : Z → blk) (n : Z) (s : starting) : Prop := {
  pw_first : st_first s = true;
  pw_locked : st_locked s = true;
  pw_cache : rep (cache (fl_log (st_fs s))) (fresh D n 30) ∅;
  pw_bufs : fl_bufs (st_fs s) = ∅;
  pw_log : length (lh_block (fl_log (st_fs s))) = 30%nat ∧ outstanding (fl_log (st_fs s)) = 0 ∧ committing (fl_log (st_fs s)) = false
}.

Lemma returns_on_started {A} (m : M fslog A) s (Q : A → starting → Prop) :
  returns m (st_fs s) (λ a L, Q a (s <| st_fs := L |>)) → returns (on_started m) s Q.
Proof. unfold returns, on_started, zoom. by destruct (m (st_fs s)). Qed.

Lemma room_fresh D n (b : Z) : room (fresh D n 30) {[b]}.
Proof. unfold room. cbn. rewrite union_empty_l_L, size_singleton. lia. Qed.

(** [iinit] reads the superblock. *)
Lemma iinit_boot L D n : rep (cache (fl_log L)) (fresh D n 30) ∅ → fl_bufs L = ∅ → 1 < n →
  returns (run on_fslog (body fp_iinit)) L (λ _ L', ∃ t, fl_log L' = (fl_log L) <| cache := t |> ∧ rep t (fresh D n 30) ∅ ∧
    fl_bufs L' = ∅ ∧ fm_sb (fl_mem L') = get_sb (D 1)).
Proof.
  intros Hr Hb Hn. cbn. unfold log_bread, log_brelse. mgo. apply returns_on_lst.
  eapply returns_mono; [apply (bread1 _ _ 1 Hr); [cbn; lia|apply room_fresh]|]. intros h l1 (t1 & -> & H1). mgo. cbn.
  apply (returns_buf_of _ h); [cbn; by rewrite Hb, lookup_insert_eq|]. apply returns_on_lst.
  eapply lift_data; [exact H1|by rewrite lookup_singleton_eq|]. mgo. cbn.
  apply (returns_buf_of _ h); [cbn; by rewrite Hb, lookup_insert_eq|]. mgo. apply returns_on_lst.
  eapply returns_mono; [eapply lift_brelse; [exact H1|by rewrite lookup_singleton_eq|by right]|]. intros [] l2 (t2 & -> & H2). mgo. cbn.
  exists t2. rewrite delete_singleton_eq in H2. split_and!; [done|done| |done]. by rewrite Hb, delete_insert_eq.
Qed.

(** The superblock [d] describes a log of 30 blocks at [start]. *)
Definition log_at (start : Z) (d : blk) : Prop := s32 (get32 d 16) = start ∧ s32 (get32 d 12) = 30.

(** The first process reads the superblock and recovers. *)
Lemma forkret_recovers D n start s : powered D n s → log_ok start n D → 1 < n ≤ 2147483648 → log_at start (D 1) →
  returns forkret s (λ _ s', st_first s' = false ∧ st_locked s' = false ∧ ∃ f c,
    quiet f (st_fs s') c ∧ lstart (fl_log (st_fs s')) = start ∧ sb f = get_sb (D 1) ∧ disksize f = n ∧
    ∀ x, outside start x → blocks f x = replay start D x).
Proof.
  intros [P1 P2 P3 P4 (P5 & P6 & P7)] Hok Hn [Hs1 Hs2]. unfold forkret. mgo. rewrite P2. cbn [negb]. mgo. cbn. rewrite P1. cbn [when]. mgo.
  apply returns_on_started. cbn. eapply returns_mono; [apply (iinit_boot _ D n P3 P4); lia|]. intros [] L1 (t1 & E1 & H1 & Hb1 & Hsb). mgo.
  apply returns_on_started, returns_on_lst. cbn. rewrite E1. unfold initlog. mgo.
  eapply returns_mono; [apply (bread1 _ (fresh D n 30) 1); [exact H1|cbn; lia|apply room_fresh]|]. intros h l2 (t2 & -> & H2). mgo.
  eapply lift_data; [exact H2|by rewrite lookup_singleton_eq|]. mgo.
  eapply returns_mono; [eapply lift_brelse; [exact H2|by rewrite lookup_singleton_eq|by right]|]. intros [] l3 (t3 & -> & H3). mgo. cbn.
  rewrite delete_singleton_eq in H3. rewrite Hs1, Hs2. eapply returns_mono; [apply (recover_ready _ D n 30); cbn; [exact H3|exact Hok|lia|exact P5]|].
  intros [] l4 [(S1 & S2 & S3 & S4 & S5) (c & Hrd & Hz & Hbf & Hd)]. cbn in *. split_and!; [done|done|].
  exists (mkfs (c_disk c) (c_disk c) ∅ ∅ n (get_sb (D 1)) (fm_icache (fl_mem L1)) (fm_me (fl_mem L1)) (fm_cwd (fl_mem L1))), c.
  split_and!; [|done|done|done|done]. constructor; cbn; try done.
  - rewrite <- Hsb. by destruct (fl_mem L1).
  - split; [done|lia].
  - split_and!; congruence.
Qed.

(** C1: a transaction of file system calls, run on the log and the buffer cache, returns
    what the calls return on the blocks themselves and leaves the disk with their effect.
    If the machine stops after any number of the disk writes of the transaction and is
    started again, the first process returns from [forkret] with a file system whose
    blocks are as they were before the transaction or as they are after all its calls,
    and the latter if no write was lost. *)
Theorem fs_survives_crash {A} (x : fs_tx A) s L c a s' :
  quiet s L c → tx_do x s = Ok a s' → (card (Fs.logged s') ≤ 28)%nat →
  (∀ b, b ∈ Fs.logged s' → b ≠ 1 ∧ outside (lstart (fl_log L)) b) →
  log_at (lstart (fl_log L)) (blocks s 1) → outside (lstart (fl_log L)) 1 →
  returns (transaction (body (tx_prog x))) L (λ a' L', a' = a ∧ ∃ c' w,
    quiet (settled (c_disk c') s') L' c' ∧ c_trace c' = c_trace c ++ w ∧
    (∀ b, outside (lstart (fl_log L)) b → c_disk c' b = blocks s' b) ∧
    ∀ k s1, powered (apply_writes (take k w) (c_disk c)) (disksize s) s1 →
      returns forkret s1 (λ _ s2, ∃ f c2, quiet f (st_fs s2) c2 ∧ sb f = get_sb (blocks s 1) ∧
        ((k < length w)%nat ∧ (∀ b, outside (lstart (fl_log L)) b → blocks f b = blocks s b) ∨
         ∀ b, outside (lstart (fl_log L)) b → blocks f b = blocks s' b))).
Proof.
  intros Hq E Hc Hout Hat H1. pose proof (qt_size _ _ _ Hq) as [Hsz Hsz'].
  eapply returns_mono; [apply (transaction_agrees (body (tx_prog x)) s L c a s' Hq (body_nest (tx_prog x)))|].
  { by rewrite (body_run (tx_prog x)). } { done. } { intros b Hb. by apply Hout. }
  intros a' L' (-> & Hst & c' & w & Hq' & Ht & Hd & Hks & Hcr). split; [done|]. exists c', w. split_and!; [done|done|done|].
  intros k s1 Hp. destruct (Hcr k) as [Hok Hr].
  assert (E1 : apply_writes (take k w) (c_disk c) 1 = blocks s 1).
  { rewrite apply_other; [apply (qt_blocks _ _ _ Hq)|]. rewrite fmap_take. intros Hin%elem_of_take_in.
    destruct (Hks 1 Hin) as [Hl|]; [by destruct (Hout 1 Hl)|done]. }
  pose proof (pl_log _ _ _ (rd_placed _ _ _ (qt_ready _ _ _ Hq))) as Hlog.
  eapply returns_mono; [apply (forkret_recovers _ _ (lstart (fl_log L)) _ Hp Hok); [unfold outside in *; lia|by rewrite E1]|].
  intros [] s2 (_ & _ & f & c2 & Hq2 & _ & Hsb & _ & Hb). exists f, c2. split_and!; [done|by rewrite Hsb, E1|].
  destruct Hr as [[Hk Hr]|Hr]; [left; split; [done|]|right]; intros b Ho; rewrite Hb, Hr by done; [apply (qt_blocks _ _ _ Hq)|done].
Qed.

End FsLog.
