(* ===== verification/FsLogBio.v ===== *)
(** The file system, the log and the buffer cache of bio.c together: a transaction on
    a small disk, and a start after a crash. *)

From S2P Require Import Prelude CString Bytes BlockCache Bio Fs FsBlocks FsFile FsRw FsProg Log LogBio FsLog.

(** The small disk of FsRw.v with an empty directory, and a log at block 100. *)
Definition demo_sb : blk := put32 (put32 zeros 12 30) 16 100.
Definition demo_blocks : Z → blk := upd (blocks (demo_empty T_DIR)) 1 demo_sb.
Definition demo_dir : fsys := (demo_empty T_DIR) <| blocks := demo_blocks |> <| base := demo_blocks |> <| disksize := 1000 |>.
Definition demo_log (b : bst) : fslog := mkfl (mklog b 100 30 0 false 0 (replicate 30 0)) (mem_of demo_dir) ∅.
Definition demo_cache : cview := fresh demo_blocks 1000 NBUF.

(** A name is added to the directory, and its links are counted. *)
Definition demo_tx : fs_tx Z :=
  Tcall (Cdirlink 0 [97] 5) (λ r, Tset 0 (λ ip, ip <| nlink := nlink ip + 1 |>) (Tcall (Ciupdate 0) (λ _, Tret r))).

Lemma demo_quiet : ∃ b, quiet demo_dir (demo_log b) demo_cache.
Proof.
  destruct (returns_ok _ _ _ (binit_ok 7 demo_blocks 1000)) as ([] & b & _ & Hb). exists b.
  assert (Hr : rep b demo_cache ∅) by exact Hb. constructor; try done.
  constructor; try done.
  - constructor; [simpl; lia|apply NoDup_nil_2|by intros ? ?%elem_of_nil|done].
  - apply is_block_zeros.
  - by vm_compute; lia.
  - simpl; lia.
Qed.

(** The machine can be switched on with any disk. *)
Lemma demo_powered D : ∃ s, powered D 1000 (s : @starting bst).
Proof.
  destruct (returns_ok _ _ _ (binit_ok 7 D 1000)) as ([] & b & _ & Hb).
  exists (mkstarting true true (mkfl (mklog b 0 0 0 false 0 (replicate 30 0)) (mkfm (mksb 0 0 0 0 0 0 0) [] 0 0) ∅)).
  constructor; try done.
Qed.

Definition demo_after : fsys := match tx_do demo_tx demo_dir with Ok _ s' => s' | _ => demo_dir end.

Lemma demo_runs : tx_do demo_tx demo_dir = Ok 0 demo_after.
Proof.
  assert (H : match tx_do demo_tx demo_dir with Ok a _ => a = 0 | _ => False end) by (vm_compute; reflexivity).
  unfold demo_after. destruct (tx_do demo_tx demo_dir); [by subst|done..].
Qed.

Lemma demo_outside : ∀ x, x ∈ Fs.logged demo_after → x ≠ 1 ∧ outside 100 x.
Proof.
  assert (El : Fs.logged demo_after = {[2; 3; 4]}) by (apply (bool_decide_eq_true_1 _); vm_compute; reflexivity).
  rewrite El. clear El. unfold outside. intros x Hx. assert (x = 2 ∨ x = 3 ∨ x = 4) by set_solver. lia.
Qed.

Lemma fs_survives_crash_witness :
  ∃ b, returns (transaction (body (tx_prog demo_tx))) (demo_log b) (λ a L', a = 0 ∧ ∃ c' w,
    slice (c_disk c' 4) 0 3 = [5; 0; 97] ∧ get16 (c_disk c' 2) 70 = 2 ∧
    ∀ k, ∃ s1 : @starting bst, powered (apply_writes (take k w) demo_blocks) 1000 s1 ∧
      returns forkret s1 (λ _ s2, ∃ f c2, quiet f (st_fs s2) c2 ∧ sb f = get_sb demo_sb ∧
        ((k < length w)%nat ∧ (∀ b, outside 100 b → blocks f b = demo_blocks b) ∨
         ∀ b, outside 100 b → blocks f b = blocks demo_after b))).
Proof.
  destruct demo_quiet as (b & Hq). exists b.
  eapply returns_mono; [apply (fs_survives_crash demo_tx demo_dir (demo_log b) demo_cache 0 demo_after Hq demo_runs)|].
  - apply (bool_decide_eq_true_1 _). vm_compute. reflexivity.
  - exact demo_outside.
  - split; vm_compute; reflexivity.
  - intros Ho. simpl in Ho. lia.
  - intros a L' (-> & c' & w & _ & _ & Hd & Hcr). split; [done|]. exists c', w. split_and!.
    + assert (Ho : outside 100 4) by (unfold outside; lia). rewrite (Hd 4 Ho). vm_compute. reflexivity.
    + assert (Ho : outside 100 2) by (unfold outside; lia). rewrite (Hd 2 Ho). vm_compute. reflexivity.
    + intros k. destruct (demo_powered (apply_writes (take k w) demo_blocks)) as (s1 & Hp). exists s1. split; [exact Hp|]. exact (Hcr k s1 Hp).
Defined.
