(* ===== verification/PageAlloc.v ===== *)
(** What the page allocator promises to its clients: pages that are free, and
    memory that only its holder changes. *)

From S2P Require Import Prelude Layout CString Kalloc.

(** [pa_ok s l]: the allocator is consistent and the pages [l] are free. *)
Class PageAlloc (S : Type) := {
  pa_kalloc : M S Z;
  pa_kfree : Z → M S unit;
  pa_ram : S → mem;
  pa_write : mem → S → S;
  pa_page : Z → Prop;
  pa_ok : S → list Z → Prop;
  pa_ram_write m s : pa_ram (pa_write m s) = m;
  pa_page_range v : pa_page v → v mod PGSIZE = 0 ∧ KERNBASE < v < KERNBASE + PHYSTOP;
  pa_ok_pages s l : pa_ok s l → Forall pa_page l ∧ NoDup l;
  pa_ok_write s l m :
    pa_ok s l → (∀ p a, p ∈ l → in_page p a → m a = pa_ram s a) → pa_ok (pa_write m s) l;
  pa_kalloc_ok s l :
    pa_ok s l →
    returns pa_kalloc s (λ r s',
      match l with
      | [] => r = 0 ∧ s' = s
      | p :: l' => r = p ∧ pa_ok s' l' ∧ pa_ram s' = pa_ram s
      end);
  pa_kfree_ok s l v :
    pa_ok s l → pa_page v → v ∉ l →
    returns (pa_kfree v) s (λ _ s',
      pa_ok s' (v :: l) ∧ ∀ a, ¬ in_page v a → pa_ram s' a = pa_ram s a)
}.

(** kalloc.c keeps the promise; the kernel is linked above KERNBASE. *)
#[refine] Instance kalloc_pages (end_ : Z) (Hend : KERNBASE < end_) : PageAlloc kmem := {
  pa_kalloc := kalloc;
  pa_kfree := kfree end_;
  pa_ram := ram;
  pa_write m s := s <| ram := m |>;
  pa_page := page end_;
  pa_ok := alloc_ok end_
}.
Proof.
  - done.
  - intros v (? & ? & ?). split; [done|lia].
  - intros s l H. split; apply H.
  - intros s l m. apply alloc_ok_ram.
  - intros s l H. eapply returns_mono; [by apply kalloc_spec|].
    intros r s' Hr. destruct l; [done|]. destruct Hr as (? & ? & ? & _). done.
  - intros s l v H Hv Hn. eapply returns_mono; [by apply kfree_spec|].
    intros [] s' (? & _ & ?). done.
Defined.
