(* ===== verification/Vm.v ===== *)
(** Page tables (vm.c).

    The page allocator is used through the interface [PageAlloc].  A page
    directory is the address of its page; page directories and page tables are
    words of physical memory, at the addresses the kernel maps it to. *)

From S2P Require Import Prelude Layout CString Kalloc PageAlloc.

Record kmap_entry := mkkmap { virt : Z; phys_start : Z; phys_end : Z; perm : Z }.

Section Vm.
Context {S : Type} `{PA : PageAlloc S}.

(** A word of memory; [memset] and [memmove] on memory. *)
Definition ld (a : Z) : M S Z := gets (λ s, load32 (pa_ram s) a).
Definition st (a w : Z) : M S unit := modify (λ s, pa_write (store32 (pa_ram s) a w) s).
Definition do_memset (dst c n : Z) : M S unit := modify (λ s, pa_write (memset dst c n (pa_ram s)) s).
Definition do_memmove (dst src n : Z) : M S unit :=
  modify (λ s, pa_write (memmove dst src (Z.to_nat n) (pa_ram s)) s).
(** [memmove] from a buffer outside this memory. *)
Definition store_bytes (dst : Z) (l : list Z) (m : mem) : mem :=
  λ a, if in_range dst (Z.of_nat (length l)) a then nth (Z.to_nat (a - dst)) l 0 else m a.
Definition put_bytes (dst : Z) (l : list Z) : M S unit :=
  modify (λ s, pa_write (store_bytes dst l (pa_ram s)) s).

Definition present (e : Z) : bool := negb (Z.land e PTE_P =? 0).

Definition walkpgdir (pgdir va : Z) (alloc : bool) : M S Z :=
  let pde := pgdir + 4 * PDX va in
  e ← ld pde;
  if present e then mret (P2V (PTE_ADDR e) + 4 * PTX va) else
  if negb alloc then mret 0 else
  pgtab ← pa_kalloc;
  if pgtab =? 0 then mret 0 else
  _ ← do_memset pgtab 0 PGSIZE;
  _ ← st pde (Z.lor (Z.lor (Z.lor (V2P pgtab) PTE_P) PTE_W) PTE_U);
  mret (pgtab + 4 * PTX va).

(** The loop of [mappages]; the address space has [NPAGES] pages. *)
Fixpoint mappages_loop (fuel : nat) (pgdir a last pa perm : Z) : M S Z :=
  match fuel with
  | O => λ _, NoFuel
  | Datatypes.S fuel =>
      pte ← walkpgdir pgdir a true;
      if pte =? 0 then mret (-1) else
      e ← ld pte;
      if present e then panic "remap" else
      _ ← st pte (Z.lor (Z.lor pa perm) PTE_P);
      if a =? last then mret 0
      else mappages_loop fuel pgdir (u32 (a + PGSIZE)) last (u32 (pa + PGSIZE)) perm
  end.

Definition mappages (pgdir va size pa perm : Z) : M S Z :=
  mappages_loop NPAGES pgdir (PGROUNDDOWN va) (PGROUNDDOWN (u32 (va + size - 1))) pa perm.

(** The loop of [deallocuvm] from [a] on. *)
Fixpoint deallocuvm_loop (fuel : nat) (pgdir a oldsz : Z) : M S unit :=
  match fuel with
  | O => λ _, NoFuel
  | Datatypes.S fuel =>
      if oldsz <=? a then skip else
      pte ← walkpgdir pgdir a false;
      if pte =? 0 then
        deallocuvm_loop fuel pgdir (u32 (u32 (PGADDR (PDX a + 1) 0 0 - PGSIZE) + PGSIZE)) oldsz
      else
        e ← ld pte;
        _ ← when (present e)
          (let pa := PTE_ADDR e in
           if pa =? 0 then panic "kfree" else
           _ ← pa_kfree (P2V pa);
           st pte 0);
        deallocuvm_loop fuel pgdir (u32 (a + PGSIZE)) oldsz
  end.

Definition deallocuvm (pgdir oldsz newsz : Z) : M S Z :=
  if oldsz <=? newsz then mret oldsz else
  _ ← deallocuvm_loop (Datatypes.S NPAGES) pgdir (PGROUNDUP newsz) oldsz;
  mret newsz.

Definition freevm (pgdir : Z) : M S unit :=
  if pgdir =? 0 then panic "freevm: no pgdir" else
  _ ← deallocuvm pgdir KERNBASE 0;
  _ ← for_ (Z.to_nat NPDENTRIES) 0 (λ i,
    e ← ld (pgdir + 4 * i);
    when (present e) (pa_kfree (P2V (PTE_ADDR e))));
  pa_kfree pgdir.

(** [data]: the end of the kernel's text, from the linker script. *)
Variable data : Z.

Definition kmap : list kmap_entry :=
  [ mkkmap KERNBASE 0 EXTMEM PTE_W;
    mkkmap KERNLINK (V2P KERNLINK) (V2P data) 0;
    mkkmap data (V2P data) PHYSTOP PTE_W;
    mkkmap DEVSPACE DEVSPACE 0 PTE_W ].

Fixpoint map_kmap (pgdir : Z) (l : list kmap_entry) : M S Z :=
  match l with
  | [] => mret pgdir
  | k :: l =>
      r ← mappages pgdir (virt k) (u32 (phys_end k - phys_start k)) (phys_start k) (perm k);
      if r <? 0 then _ ← freevm pgdir; mret 0 else map_kmap pgdir l
  end.

Definition setupkvm : M S Z :=
  pgdir ← pa_kalloc;
  if pgdir =? 0 then mret 0 else
  _ ← do_memset pgdir 0 PGSIZE;
  if DEVSPACE <? P2V PHYSTOP then panic "PHYSTOP too high" else
  map_kmap pgdir kmap.

Definition inituvm (pgdir : Z) (init : list Z) : M S unit :=
  let sz := Z.of_nat (length init) in
  if PGSIZE <=? sz then panic "inituvm: more than a page" else
  mem ← pa_kalloc;
  if mem =? 0 then undef "inituvm: memset(0, ...)" else
  _ ← do_memset mem 0 PGSIZE;
  _ ← mappages pgdir 0 PGSIZE (V2P mem) (Z.lor PTE_W PTE_U);
  put_bytes mem init.

(** [loaduvm]; [readi off n] is [readi(ip, ...)]: its result and the bytes. *)
Fixpoint loaduvm_loop (fuel : nat) (readi : Z → Z → M S (Z * list Z)) (pgdir addr offset i sz : Z) : M S Z :=
  if sz <=? i then mret 0 else
  match fuel with
  | O => λ _, NoFuel
  | Datatypes.S fuel =>
      pte ← walkpgdir pgdir (u32 (addr + i)) false;
      if pte =? 0 then panic "loaduvm: address should exist" else
      e ← ld pte;
      let pa := PTE_ADDR e in
      let n := if sz - i <? PGSIZE then sz - i else PGSIZE in
      r ← readi (u32 (offset + i)) n;
      _ ← put_bytes (P2V pa) r.2;
      if negb (r.1 =? n) then mret (-1)
      else loaduvm_loop fuel readi pgdir addr offset (u32 (i + PGSIZE)) sz
  end.

Definition loaduvm (readi : Z → Z → M S (Z * list Z)) (pgdir addr offset sz : Z) : M S Z :=
  if negb (addr mod PGSIZE =? 0) then panic "loaduvm: addr must be page aligned" else
  loaduvm_loop NPAGES readi pgdir addr offset 0 sz.

Fixpoint allocuvm_loop (fuel : nat) (pgdir a oldsz newsz : Z) : M S Z :=
  if newsz <=? a then mret newsz else
  match fuel with
  | O => λ _, NoFuel
  | Datatypes.S fuel =>
      mem ← pa_kalloc;
      if mem =? 0 then _ ← deallocuvm pgdir newsz oldsz; mret 0 else
      _ ← do_memset mem 0 PGSIZE;
      r ← mappages pgdir a PGSIZE (V2P mem) (Z.lor PTE_W PTE_U);
      if r <? 0 then _ ← deallocuvm pgdir newsz oldsz; _ ← pa_kfree mem; mret 0
      else allocuvm_loop fuel pgdir (u32 (a + PGSIZE)) oldsz newsz
  end.

Definition allocuvm (pgdir oldsz newsz : Z) : M S Z :=
  if KERNBASE <=? newsz then mret 0 else
  if newsz <? oldsz then mret oldsz else
  allocuvm_loop NPAGES pgdir (PGROUNDUP oldsz) oldsz newsz.

Definition clearpteu (pgdir uva : Z) : M S unit :=
  pte ← walkpgdir pgdir uva false;
  if pte =? 0 then panic "clearpteu" else
  e ← ld pte; st pte (Z.land e (u32 (Z.lnot PTE_U))).

Fixpoint copyuvm_loop (fuel : nat) (pgdir d i sz : Z) : M S Z :=
  if sz <=? i then mret d else
  match fuel with
  | O => λ _, NoFuel
  | Datatypes.S fuel =>
      pte ← walkpgdir pgdir i false;
      if pte =? 0 then panic "copyuvm: pte should exist" else
      e ← ld pte;
      if negb (present e) then panic "copyuvm: page not present" else
      mem ← pa_kalloc;
      if mem =? 0 then _ ← freevm d; mret 0 else
      _ ← do_memmove mem (P2V (PTE_ADDR e)) PGSIZE;
      r ← mappages d i PGSIZE (V2P mem) (PTE_FLAGS e);
      if r <? 0 then _ ← pa_kfree mem; _ ← freevm d; mret 0
      else copyuvm_loop fuel pgdir d (u32 (i + PGSIZE)) sz
  end.

Definition copyuvm (pgdir sz : Z) : M S Z :=
  d ← setupkvm;
  if d =? 0 then mret 0 else copyuvm_loop NPAGES pgdir d 0 sz.

(** [uva2ka]; an address whose page table is absent makes it read address 0. *)
Definition uva2ka (pgdir uva : Z) : M S Z :=
  pte ← walkpgdir pgdir uva false;
  if pte =? 0 then undef "uva2ka: null pte" else
  e ← ld pte;
  if negb (present e) then mret 0 else
  if Z.land e PTE_U =? 0 then mret 0 else
  mret (P2V (PTE_ADDR e)).

(** [copyout]; every round copies at least one byte. *)
Fixpoint copyout_loop (fuel : nat) (pgdir va : Z) (buf : list Z) : M S Z :=
  match buf with
  | [] => mret 0
  | _ =>
    match fuel with
    | O => λ _, NoFuel
    | Datatypes.S fuel =>
        let va0 := PGROUNDDOWN va in
        pa0 ← uva2ka pgdir va0;
        if pa0 =? 0 then mret (-1) else
        let n := Z.min (PGSIZE - (va - va0)) (Z.of_nat (length buf)) in
        _ ← put_bytes (pa0 + (va - va0)) (take (Z.to_nat n) buf);
        copyout_loop fuel pgdir (u32 (va0 + PGSIZE)) (drop (Z.to_nat n) buf)
    end
  end.

Definition copyout (pgdir va : Z) (buf : list Z) : M S Z :=
  copyout_loop (length buf) pgdir va buf.
End Vm.
