(* ===== verification/VmMap.v ===== *)
(** What a page table means: the page-table entry of every virtual address, and
    how walkpgdir and mappages change it. *)

From S2P Require Import Prelude Layout CString Kalloc PageAlloc Vm.

(** The page table for entry [d] of the directory, and the entry for [va]. *)
Definition tab (m : mem) (pgdir d : Z) : option Z :=
  let e := load32 m (pgdir + 4 * d) in
  if present e then Some (P2V (PTE_ADDR e)) else None.

Definition pte_of (m : mem) (pgdir va : Z) : Z :=
  match tab m pgdir (PDX va) with Some t => load32 m (t + 4 * PTX va) | None => 0 end.

(** The pages a page table is made of. *)
Definition owns (m : mem) (pgdir p : Z) : Prop :=
  p = pgdir ∨ ∃ d, 0 ≤ d < 1024 ∧ tab m pgdir d = Some p.

Section Maps.
Context {S : Type} `{PA : PageAlloc S}.

Record pt_ok (m : mem) (pgdir : Z) : Prop := {
  pt_dir : pa_page pgdir;
  pt_tab : ∀ d t, 0 ≤ d < 1024 → tab m pgdir d = Some t → pa_page t ∧ t ≠ pgdir;
  pt_inj : ∀ d d' t, 0 ≤ d < 1024 → 0 ≤ d' < 1024 →
    tab m pgdir d = Some t → tab m pgdir d' = Some t → d = d'
}.

(** A page table beside the free pages [l]. *)
Record as_ok (s : S) (l : list Z) (pgdir : Z) : Prop := {
  as_alloc : pa_ok s l;
  as_table : pt_ok (pa_ram s) pgdir;
  as_apart : ∀ p, owns (pa_ram s) pgdir p → p ∉ l
}.

(** ** Memory *)

Lemma pages_apart v w a : pa_page v → pa_page w → in_page v a → in_page w a → v = w.
Proof.
  intros [Hv _]%pa_page_range [Hw _]%pa_page_range Ha Hb. unfold in_page, PGSIZE in *.
  pose proof (Z.div_mod v 4096). pose proof (Z.div_mod w 4096). lia.
Qed.

Lemma slot_in_page v k : 0 ≤ k < 1024 → ∀ i, 0 ≤ i < 4 → in_page v (v + 4 * k + i).
Proof. unfold in_page, PGSIZE. intros. lia. Qed.

Lemma owns_page m pgdir p : pt_ok m pgdir → owns m pgdir p → pa_page p.
Proof. intros H [->|(d & Hd & Ht)]; [apply H|by eapply pt_tab]. Qed.

(** A page table depends on its own pages only. *)
Lemma tab_ext m m' pgdir d :
  0 ≤ d < 1024 → (∀ a, in_page pgdir a → m' a = m a) → tab m' pgdir d = tab m pgdir d.
Proof.
  intros Hd H. unfold tab. rewrite (load32_ext m m'); [done|]. intros i Hi. by apply H, slot_in_page.
Qed.

Section Ext.
Context (m m' : mem) (pgdir : Z).
Context (Hm : ∀ p a, owns m pgdir p → in_page p a → m' a = m a).

Lemma tab_same d : 0 ≤ d < 1024 → tab m' pgdir d = tab m pgdir d.
Proof. intros Hd. apply tab_ext; [done|]. intros a. apply Hm. by left. Qed.

Lemma pte_same va : pte_of m' pgdir va = pte_of m pgdir va.
Proof.
  unfold pte_of. rewrite tab_same by apply PDX_range. destruct (tab m pgdir (PDX va)) as [t|] eqn:E; [|done].
  apply load32_ext. intros i Hi. apply (Hm t); [right; exists (PDX va); split; [apply PDX_range|done]|].
  apply slot_in_page; [apply PTX_range|done].
Qed.

Lemma owns_same p : owns m' pgdir p ↔ owns m pgdir p.
Proof.
  unfold owns. split; (intros [?|(d & Hd & Ht)]; [by left|right; exists d]);
    rewrite tab_same in *; done.
Qed.

Lemma pt_ok_same : pt_ok m pgdir → pt_ok m' pgdir.
Proof.
  intros [? Ht Hi]. split; [done| |].
  - intros d t Hd. rewrite tab_same by done. by apply Ht.
  - intros d d' t Hd Hd'. rewrite !tab_same by done. by apply Hi.
Qed.
End Ext.

(** Writes outside the page table and the free pages. *)
Lemma as_ok_write s l pgdir m' :
  as_ok s l pgdir →
  (∀ p a, p ∈ l ∨ owns (pa_ram s) pgdir p → in_page p a → m' a = pa_ram s a) →
  as_ok (pa_write m' s) l pgdir ∧ ∀ va, pte_of m' pgdir va = pte_of (pa_ram s) pgdir va.
Proof.
  intros [Ha Ht Hd] Hm. split; [|apply pte_same; intros; eapply Hm; eauto].
  split; rewrite ?pa_ram_write.
  - apply pa_ok_write; [done|]. intros p a Hp. apply Hm. by left.
  - eapply pt_ok_same; [|done]. intros p a Hp. apply Hm. by right.
  - intros p Hp. apply Hd. by apply (owns_same (pa_ram s) m' pgdir (λ q a Hq, Hm q a (or_intror Hq))).
Qed.

(** ** Entries of the page directory *)

(** Flags in the low bits of a page-aligned address. *)
Lemma small_bits f n : 0 ≤ f < PGSIZE → 12 ≤ n → Z.testbit f n = false.
Proof.
  intros Hf Hn. destruct (decide (f = 0)) as [->|]; [apply Z.bits_0|].
  apply Z.bits_above_log2; [lia|]. apply Z.log2_lt_pow2; [lia|].
  apply Z.lt_le_trans with (2 ^ 12); [apply Hf|apply Z.pow_le_mono_r; lia].
Qed.

Lemma aligned_bits x n : x mod PGSIZE = 0 → n < 12 → Z.testbit x n = false.
Proof.
  intros Hm Hn. assert (x = Z.shiftl (x / 4096) 12) as ->.
  { rewrite Z.shiftl_mul_pow2 by lia. change (2 ^ 12) with 4096. unfold PGSIZE in Hm.
    pose proof (Z.div_mod x 4096). lia. }
  by apply Z.shiftl_spec_low.
Qed.

Lemma lor_small f g : 0 ≤ f < PGSIZE → 0 ≤ g < PGSIZE → 0 ≤ Z.lor f g < PGSIZE.
Proof.
  intros Hf Hg. assert (0 ≤ Z.lor f g) by (apply Z.lor_nonneg; lia). split; [done|].
  destruct (decide (Z.lor f g < PGSIZE)) as [|Hge]; [done|]. exfalso.
  assert (12 ≤ Z.log2 (Z.lor f g)) by (apply (Z.log2_le_mono PGSIZE); lia).
  pose proof (Z.bit_log2 (Z.lor f g)) as Hb. rewrite Z.lor_spec, !small_bits in Hb by done.
  discriminate Hb. unfold PGSIZE in *. lia.
Qed.

Lemma lor_flags x f : x mod PGSIZE = 0 → 0 ≤ f < PGSIZE → Z.lor x f = x + f.
Proof.
  intros Hm Hf. symmetry. rewrite <-Z.lxor_lor, Z.add_nocarry_lxor; [done|..];
    apply Z.bits_inj'; intros n Hn; rewrite Z.land_spec, Z.bits_0;
    (destruct (decide (n < 12)); [by rewrite aligned_bits|rewrite (small_bits f) by (done || lia); apply andb_false_r]).
Qed.

(** The address and the present bit of an entry. *)
Lemma entry_fields x f : 0 ≤ x → x + PGSIZE ≤ two32 → x mod PGSIZE = 0 → 0 ≤ f < PGSIZE →
  let e := Z.lor (Z.lor x f) PTE_P in
  e = x + Z.lor f PTE_P ∧ 0 ≤ e < two32 ∧ PTE_ADDR e = x ∧ PTE_FLAGS e = Z.lor f PTE_P ∧ present e = true.
Proof.
  intros Hx Hmax Hm Hf e. assert (HP : 0 ≤ PTE_P < PGSIZE) by done.
  pose proof (lor_small f PTE_P Hf HP) as Hfp.
  assert (He : e = x + Z.lor f PTE_P) by (unfold e; rewrite <-Z.lor_assoc; by apply lor_flags).
  assert (Hr : 0 ≤ e < two32) by (unfold PGSIZE in *; lia).
  split; [done|]. split; [done|]. rewrite PTE_ADDR_div, PTE_FLAGS_mod by done. rewrite He.
  pose proof (Z.div_mod x PGSIZE ltac:(done)) as Hdm. rewrite Hm, Z.add_0_r in Hdm.
  split; [|split].
  - rewrite Hdm at 1. rewrite (Z.mul_comm PGSIZE), Z.div_add_l, (Z.div_small (Z.lor f PTE_P)) by done. lia.
  - rewrite Z.add_mod, Hm, Z.add_0_l, Z.mod_mod by done. by apply Z.mod_small.
  - unfold present. rewrite <-He. unfold e. apply negb_true_iff, Z.eqb_neq. intros E.
    apply (f_equal (λ z, Z.testbit z 0)) in E. rewrite Z.land_spec, Z.lor_spec in E.
    rewrite orb_true_r in E. done.
Qed.

(** ** Walking the tables *)

Definition pte_addr (t va : Z) : Z := t + 4 * PTX va.

Lemma pte_addr_pos t va : pa_page t → 0 < pte_addr t va.
Proof.
  intros [_ ?]%pa_page_range. unfold pte_addr. pose proof (PTX_range va). unfold KERNBASE in *. lia.
Qed.

(** Without allocation nothing changes. *)
Lemma walk_lookup pgdir va s :
  walkpgdir pgdir va false s =
    Ok (match tab (pa_ram s) pgdir (PDX va) with Some t => pte_addr t va | None => 0 end) s.
Proof.
  unfold walkpgdir, ld, tab, pte_addr, mbind, M_bind, gets. by destruct (present _).
Qed.

(** A fresh page becomes the page table for [va]. *)
Section NewTable.
Context (m : mem) (pgdir p va : Z) (Hok : pt_ok m pgdir) (Hp : pa_page p).
Context (Hfresh : ¬ owns m pgdir p) (Hno : tab m pgdir (PDX va) = None).
Local Abbreviation m' := (store32 (memset p 0 PGSIZE m) (pgdir + 4 * PDX va)
  (Z.lor (Z.lor (Z.lor (V2P p) PTE_P) PTE_W) PTE_U)).

Lemma new_entry_flags : Z.lor (Z.lor (Z.lor (V2P p) PTE_P) PTE_W) PTE_U = Z.lor (Z.lor (V2P p) 6) PTE_P.
Proof. rewrite <-!Z.lor_assoc. reflexivity. Qed.

Lemma new_entry : let e := Z.lor (Z.lor (V2P p) 6) PTE_P in
  0 ≤ e < two32 ∧ P2V (PTE_ADDR e) = p ∧ present e = true.
Proof.
  destruct (pa_page_range p Hp) as [Hm Hr]. intros e.
  assert (HV : V2P p = p - KERNBASE) by (apply V2P_kern; unfold PHYSTOP, KERNBASE, two32 in *; lia).
  destruct (entry_fields (V2P p) 6) as (_ & Hre & Ha & _ & Hpr).
  - rewrite HV. lia.
  - rewrite HV. unfold PHYSTOP, PGSIZE, two32, KERNBASE in *. lia.
  - rewrite HV, Zminus_mod, Hm. done.
  - done.
  - split; [done|]. split; [|done]. fold e in Ha. rewrite Ha. apply P2V_V2P.
    unfold PHYSTOP, KERNBASE, two32 in *. lia.
Qed.

Lemma new_outside a : ¬ in_page p a → ¬ (pgdir + 4 * PDX va ≤ a < pgdir + 4 * PDX va + 4) → m' a = m a.
Proof.
  intros Hpa Hd. rewrite store32_other by done. rewrite memset_spec by done.
  unfold in_range. unfold in_page in Hpa. destruct (Z.leb_spec p a), (Z.ltb_spec a (p + PGSIZE)); try done. lia.
Qed.

Lemma new_zero k : 0 ≤ k < 1024 → load32 m' (p + 4 * k) = 0.
Proof.
  intros Hk. rewrite (load32_ext (λ _, 0)); [done|]. intros i Hi.
  rewrite store32_other.
  - rewrite memset_spec by done. unfold in_range.
    pose proof (slot_in_page p k Hk i Hi) as Hin. unfold in_page in Hin.
    by rewrite (proj2 (Z.leb_le _ _)), (proj2 (Z.ltb_lt _ _)) by lia.
  - intros Hb. apply Hfresh. left. apply (pages_apart p pgdir (p + 4 * k + i) Hp (pt_dir _ _ Hok)).
    + by apply slot_in_page.
    + pose proof (PDX_range va). unfold in_page, PGSIZE. lia.
Qed.

Lemma new_tab d : 0 ≤ d < 1024 → tab m' pgdir d = if decide (d = PDX va) then Some p else tab m pgdir d.
Proof.
  intros Hd. unfold tab. destruct new_entry as (Hr & Ha & Hpr). rewrite new_entry_flags. case_decide as E.
  - subst d. rewrite load32_store32 by done. by rewrite Hpr, Ha.
  - rewrite (load32_ext m); [done|]. intros i Hi. rewrite <-new_entry_flags. apply new_outside.
    + intros Hin. apply Hfresh. left. apply (pages_apart p pgdir (pgdir + 4 * d + i) Hp (pt_dir _ _ Hok)); [done|].
      by apply slot_in_page.
    + lia.
Qed.

Lemma new_pte va' : pte_of m' pgdir va' = pte_of m pgdir va'.
Proof.
  unfold pte_of. rewrite new_tab by apply PDX_range. case_decide as E.
  - rewrite E, Hno. apply new_zero, PTX_range.
  - destruct (tab m pgdir (PDX va')) as [t|] eqn:Et; [|done].
    destruct (pt_tab _ _ Hok _ _ (PDX_range va') Et) as [Htp Htd].
    apply load32_ext. intros i Hi. pose proof (slot_in_page t (PTX va') (PTX_range va') i Hi) as Hin.
    apply new_outside.
    + intros Hpa. apply Hfresh. right. exists (PDX va'). split; [apply PDX_range|].
      by rewrite <-(pages_apart t p _ Htp Hp Hin Hpa).
    + intros Hb. apply Htd. apply (pages_apart t pgdir _ Htp (pt_dir _ _ Hok) Hin).
      pose proof (PDX_range va). unfold in_page, PGSIZE. lia.
Qed.

Lemma new_owns q : owns m' pgdir q ↔ owns m pgdir q ∨ q = p.
Proof.
  unfold owns. split.
  - intros [->|(d & Hd & Ht)]; [by left; left|]. rewrite new_tab in Ht by done.
    case_decide; [right; by simplify_eq|left; right; by exists d].
  - intros [[->|(d & Hd & Ht)]| ->]; [by left| |]; right.
    + exists d. split; [done|]. rewrite new_tab, decide_False by (done || congruence). done.
    + exists (PDX va). split; [apply PDX_range|]. rewrite new_tab, decide_True by (done || apply PDX_range). done.
Qed.

Lemma new_pt_ok : pt_ok m' pgdir.
Proof.
  split; [apply Hok| |].
  - intros d t Hd. rewrite new_tab by done. case_decide; [|by apply Hok].
    intros [= <-]. split; [done|]. intros ->. apply Hfresh. by left.
  - intros d d' t Hd Hd'. rewrite !new_tab by done. repeat case_decide; subst; try done.
    + intros [= <-] Ht. destruct Hfresh. right. by exists d'.
    + intros Ht [= <-]. destruct Hfresh. right. by exists d.
    + by apply (pt_inj _ _ Hok).
Qed.
End NewTable.

(** [s'] is [s] after the free pages [new] became page tables and entries were
    changed: no other memory changes. *)
Record grew (pgdir : Z) (s : S) (l new : list Z) (s' : S) (l' : list Z) : Prop := {
  gr_as : as_ok s' l' pgdir;
  gr_free : l = new ++ l';
  gr_owns : ∀ p, owns (pa_ram s') pgdir p ↔ owns (pa_ram s) pgdir p ∨ p ∈ new;
  gr_mem : ∀ a, (∀ p, owns (pa_ram s') pgdir p → ¬ in_page p a) → pa_ram s' a = pa_ram s a
}.

Lemma grew_refl pgdir s l : as_ok s l pgdir → grew pgdir s l [] s l.
Proof. intros. split; try done. intros p. rewrite elem_of_nil. tauto. Qed.

Lemma grew_trans pgdir s1 l1 n1 s2 l2 n2 s3 l3 :
  grew pgdir s1 l1 n1 s2 l2 → grew pgdir s2 l2 n2 s3 l3 → grew pgdir s1 l1 (n1 ++ n2) s3 l3.
Proof.
  intros H1 H2. split.
  - apply H2.
  - rewrite (gr_free _ _ _ _ _ _ H1), (gr_free _ _ _ _ _ _ H2). by rewrite app_assoc.
  - intros p. rewrite (gr_owns _ _ _ _ _ _ H2), (gr_owns _ _ _ _ _ _ H1), elem_of_app. tauto.
  - intros a Ha. rewrite (gr_mem _ _ _ _ _ _ H2) by done. apply (gr_mem _ _ _ _ _ _ H1).
    intros p Hp. apply Ha. apply (gr_owns _ _ _ _ _ _ H2). by left.
Qed.

Lemma walk_alloc pgdir va s l (Q : Z → S → Prop) :
  as_ok s l pgdir →
  (l = [] → tab (pa_ram s) pgdir (PDX va) = None → Q 0 s) →
  (∀ new s' l' t, grew pgdir s l new s' l' →
     (∀ va', pte_of (pa_ram s') pgdir va' = pte_of (pa_ram s) pgdir va') →
     tab (pa_ram s') pgdir (PDX va) = Some t → Q (pte_addr t va) s') →
  returns (walkpgdir pgdir va true) s Q.
Proof.
  intros Has Hnone Hsome. unfold walkpgdir, ld. mgo.
  destruct (present (load32 (pa_ram s) (pgdir + 4 * PDX va))) eqn:Hpr.
  { mgo. eapply Hsome; [by apply grew_refl|done|]. unfold tab. by rewrite Hpr. }
  assert (Hno : tab (pa_ram s) pgdir (PDX va) = None) by (unfold tab; by rewrite Hpr).
  simpl. mgo. eapply returns_mono; [apply pa_kalloc_ok, Has|]. intros r s1 Hr.
  destruct l as [|p l]; [destruct Hr as [-> ->]; simpl; mgo; by apply Hnone|].
  destruct Hr as (-> & Hok1 & Hram1). destruct (pa_ok_pages _ _ (as_alloc _ _ _ Has)) as [Hpg Hnd].
  apply Forall_cons in Hpg as [Hp Hpl]. apply NoDup_cons in Hnd as [Hnin Hnd].
  destruct (pa_page_range p Hp) as [_ Hpr']. rewrite (proj2 (Z.eqb_neq p 0)) by (unfold KERNBASE in *; lia).
  unfold do_memset, st. mgo. rewrite !pa_ram_write, Hram1.
  assert (Hfr : ¬ owns (pa_ram s) pgdir p) by (intros Ho; apply (as_apart _ _ _ Has p Ho); left).
  pose proof (as_table _ _ _ Has) as Hpt.
  set (m1 := memset p 0 PGSIZE (pa_ram s)) in *.
  eapply (Hsome [p] _ l p).
  - split; rewrite ?pa_ram_write.
    + split; rewrite ?pa_ram_write.
      * apply pa_ok_write; [apply pa_ok_write; [done|]|].
        -- intros q a Hq Ha. rewrite Hram1. unfold m1. rewrite memset_spec by done. unfold in_range.
           destruct (Z.leb_spec p a), (Z.ltb_spec a (p + PGSIZE)); try done. exfalso. apply Hnin.
           rewrite Forall_forall in Hpl. by rewrite (pages_apart p q a Hp (Hpl q Hq)).
        -- intros q a Hq Ha. rewrite pa_ram_write. apply store32_other. intros Hb.
           rewrite Forall_forall in Hpl.
           assert (q = pgdir) as ->.
           { apply (pages_apart q pgdir a (Hpl q Hq) (pt_dir _ _ Hpt) Ha).
             pose proof (PDX_range va). unfold in_page, PGSIZE. lia. }
           apply (as_apart _ _ _ Has pgdir); [by left|by right].
      * by apply new_pt_ok.
      * intros q Hq. apply new_owns in Hq as [Hq| ->]; [|done..].
        intros Hql. apply (as_apart _ _ _ Has q Hq). by right.
    + done.
    + intros q. rewrite list_elem_of_singleton. by apply new_owns.
    + intros a Ha. apply new_outside.
      * apply Ha. apply new_owns; [done..|]. by right.
      * intros Hb. apply (Ha pgdir); [apply new_owns; [done..|]; left; by left|].
        pose proof (PDX_range va). unfold in_page, PGSIZE. lia.
  - intros va'. rewrite pa_ram_write. by apply new_pte.
  - rewrite pa_ram_write. unfold m1. rewrite new_tab by (done || apply PDX_range). by rewrite decide_True.
Qed.

(** ** Changing an entry *)

Lemma same_index va va' : 0 ≤ va < two32 → 0 ≤ va' < two32 →
  (PDX va' = PDX va ∧ PTX va' = PTX va) ↔ va' / PGSIZE = va / PGSIZE.
Proof.
  intros H H'. rewrite <-(page_index va H), <-(page_index va' H').
  pose proof (PTX_range va). pose proof (PTX_range va'). lia.
Qed.

Lemma set_pte pgdir s l va t w :
  as_ok s l pgdir → 0 ≤ va < two32 → 0 ≤ w < two32 → tab (pa_ram s) pgdir (PDX va) = Some t →
  let s' := pa_write (store32 (pa_ram s) (pte_addr t va) w) s in
  grew pgdir s l [] s' l ∧
  ∀ va', 0 ≤ va' < two32 →
    pte_of (pa_ram s') pgdir va' = if decide (va' / PGSIZE = va / PGSIZE) then w else pte_of (pa_ram s) pgdir va'.
Proof.
  intros Has Hva Hw Ht s'. destruct Has as [Hal Hpt Hd].
  destruct (pt_tab _ _ Hpt _ _ (PDX_range va) Ht) as [Htp Htd].
  assert (Hot : owns (pa_ram s) pgdir t) by (right; exists (PDX va); split; [apply PDX_range|done]).
  assert (Hin : ∀ a, pte_addr t va ≤ a < pte_addr t va + 4 → in_page t a).
  { intros a Ha. unfold pte_addr in Ha. pose proof (PTX_range va). unfold in_page, PGSIZE. lia. }
  assert (Hout : ∀ a, ¬ in_page t a → store32 (pa_ram s) (pte_addr t va) w a = pa_ram s a).
  { intros a Ha. apply store32_other. intros Hb. by apply Ha, Hin. }
  assert (Htab : ∀ d, 0 ≤ d < 1024 → tab (pa_ram s') pgdir d = tab (pa_ram s) pgdir d).
  { intros d Hd'. unfold s'. rewrite pa_ram_write. apply tab_ext; [done|]. intros a Ha. apply Hout.
    intros Hta. apply Htd. by apply (pages_apart t pgdir a Htp (pt_dir _ _ Hpt)). }
  assert (Hown : ∀ p, owns (pa_ram s') pgdir p ↔ owns (pa_ram s) pgdir p).
  { intros p. unfold owns. split; (intros [?|(d & Hd' & E)]; [by left|right; exists d]);
      rewrite Htab in *; done. }
  split.
  - split; [split| | |].
    + apply pa_ok_write; [done|]. intros p a Hp Ha. apply Hout. intros Hta. apply (Hd t Hot).
      destruct (pa_ok_pages _ _ Hal) as [Hpg _]. rewrite Forall_forall in Hpg.
      by rewrite (pages_apart t p a Htp (Hpg p Hp)).
    + split; [apply Hpt| |].
      * intros d t' Hd'. rewrite Htab by done. by apply Hpt.
      * intros d d' t' Hd' Hd''. rewrite !Htab by done. by apply (pt_inj _ _ Hpt).
    + intros p Hp. by apply Hd, Hown.
    + done.
    + intros p. rewrite Hown, elem_of_nil. tauto.
    + intros a Ha. unfold s'. rewrite pa_ram_write. apply Hout. by apply Ha, Hown.
  - intros va' Hva'. unfold pte_of at 1. rewrite Htab by apply PDX_range.
    destruct (tab (pa_ram s) pgdir (PDX va')) as [t'|] eqn:Et'.
    + destruct (decide (va' / PGSIZE = va / PGSIZE)) as [E|E].
      * apply same_index in E as [E1 E2]; [|done..]. rewrite E1, Ht in Et'. injection Et' as <-.
        unfold s'. rewrite pa_ram_write, E2. by apply load32_store32.
      * unfold pte_of. rewrite Et'. apply load32_ext. intros i Hi. unfold s'. rewrite pa_ram_write.
        apply store32_other. intros Hb. apply E, same_index; [done..|].
        assert (t' = t) as ->.
        { apply (pages_apart t' t (t' + 4 * PTX va' + i)); [by eapply pt_tab, Et'; [|apply PDX_range]|done| |by apply Hin].
          apply slot_in_page; [apply PTX_range|done]. }
        split; [by apply (pt_inj _ _ Hpt _ _ t (PDX_range va') (PDX_range va))|].
        unfold pte_addr in Hb. lia.
    + rewrite decide_False; [unfold pte_of; by rewrite Et'|]. intros E.
      apply same_index in E as [E1 _]; [|done..]. congruence.
Qed.

(** ** Mapping a range *)

(** The entry that maps [va] when the pages from [a] on are mapped to [pa] on. *)
Definition map_entry (a pa perm va : Z) : Z :=
  Z.lor (Z.lor (pa + (va / PGSIZE * PGSIZE - a)) perm) PTE_P.

(** The entries of [s'] are those of [s], but for [k] pages from [a] on. *)
Definition mapped (pgdir a pa perm : Z) (k : nat) (s s' : S) : Prop :=
  ∀ va, 0 ≤ va < two32 →
    pte_of (pa_ram s') pgdir va =
      if decide (a ≤ va < a + Z.of_nat k * PGSIZE) then map_entry a pa perm va
      else pte_of (pa_ram s) pgdir va.

Lemma page_floor a va : a mod PGSIZE = 0 →
  (a ≤ va < a + PGSIZE ↔ va / PGSIZE = a / PGSIZE) ∧ (a ≤ va → a ≤ va / PGSIZE * PGSIZE).
Proof.
  unfold PGSIZE. intros Hm. pose proof (Z.div_mod a 4096). pose proof (Z.div_mod va 4096).
  pose proof (Z.mod_pos_bound va 4096). lia.
Qed.

Lemma mapped_step pgdir a pa perm k s s1 s2 :
  a mod PGSIZE = 0 → 0 ≤ a →
  mapped pgdir a pa perm 1 s s1 → mapped pgdir (a + PGSIZE) (pa + PGSIZE) perm k s1 s2 →
  mapped pgdir a pa perm (Datatypes.S k) s s2.
Proof.
  intros Hm Ha H1 H2 va Hva. rewrite (H2 va Hva). rewrite (H1 va Hva).
  replace (Z.of_nat (Datatypes.S k) * PGSIZE) with (PGSIZE + Z.of_nat k * PGSIZE) by lia.
  change (Z.of_nat 1 * PGSIZE) with PGSIZE. unfold map_entry.
  replace (pa + PGSIZE + (va / PGSIZE * PGSIZE - (a + PGSIZE))) with (pa + (va / PGSIZE * PGSIZE - a)) by lia.
  assert (0 ≤ Z.of_nat k * PGSIZE) by (unfold PGSIZE; lia). assert (0 < PGSIZE) by done.
  repeat case_decide; done || lia.
Qed.

(** The result of mapping [n] pages: all of them, or as many as there was memory for. *)
Definition map_post (pgdir a pa perm : Z) (n : nat) (s : S) (l : list Z) (r : Z) (s' : S) : Prop :=
  ∃ new l' k, grew pgdir s l new s' l' ∧ mapped pgdir a pa perm k s s' ∧
    ((r = 0 ∧ k = n) ∨ (r = -1 ∧ (k < n)%nat ∧ l' = [])).

Lemma map_first pgdir a pa perm s l (Q : Z → S → Prop) (k : Z → M S Z) :
  as_ok s l pgdir → a mod PGSIZE = 0 → 0 ≤ a < two32 → pa mod PGSIZE = 0 → 0 ≤ pa → pa + PGSIZE ≤ two32 →
  0 ≤ perm < PGSIZE → present (pte_of (pa_ram s) pgdir a) = false →
  (l = [] → returns (mret (-1)) s Q) →
  (∀ new s1 l1 z, grew pgdir s l new s1 l1 → mapped pgdir a pa perm 1 s s1 → returns (k z) s1 Q) →
  returns (pte ← walkpgdir pgdir a true;
           if pte =? 0 then mret (-1) else
           e ← ld pte;
           if present e then panic "remap" else
           _ ← st pte (Z.lor (Z.lor pa perm) PTE_P); k pte) s Q.
Proof.
  intros Has Ham Ha Hpm Hpa Hpx Hperm Hnp Hfail Hgo. mgo. apply (walk_alloc _ _ _ _ _ Has).
  { intros Hl _. simpl. by apply Hfail. }
  intros new s1 l1 t Hg Hsame Ht. pose proof (gr_as _ _ _ _ _ _ Hg) as Has1.
  destruct (pt_tab _ _ (as_table _ _ _ Has1) _ _ (PDX_range a) Ht) as [Htp _].
  rewrite (proj2 (Z.eqb_neq _ 0)) by (pose proof (pte_addr_pos t a Htp); lia).
  unfold ld. mgo. assert (He : load32 (pa_ram s1) (pte_addr t a) = pte_of (pa_ram s) pgdir a).
  { rewrite <-Hsame. unfold pte_of. by rewrite Ht. }
  rewrite He, Hnp. unfold st. mgo.
  destruct (entry_fields pa perm Hpa Hpx Hpm Hperm) as (_ & Hw & _).
  destruct (set_pte pgdir s1 l1 a t _ Has1 Ha Hw Ht) as [Hg2 Hptes].
  eapply Hgo; [exact (grew_trans _ _ _ _ _ _ _ _ _ Hg Hg2)|].
  intros va Hva. rewrite Hptes, Hsame by done. change (Z.of_nat 1 * PGSIZE) with PGSIZE.
  destruct (page_floor a va Ham) as [Hiff _]. unfold map_entry.
  pose proof (Z.div_mod a PGSIZE ltac:(done)) as Hdm. rewrite Ham in Hdm.
  repeat case_decide; try tauto. repeat f_equal. rewrite H. lia.
Qed.

Lemma mappages_loop_ok pgdir perm n : ∀ fuel a pa s l,
  (Datatypes.S n ≤ fuel)%nat → as_ok s l pgdir → a mod PGSIZE = 0 → 0 ≤ a →
  a + (Z.of_nat n + 1) * PGSIZE ≤ two32 → pa mod PGSIZE = 0 → 0 ≤ pa →
  pa + (Z.of_nat n + 1) * PGSIZE ≤ two32 → 0 ≤ perm < PGSIZE →
  (∀ va, a ≤ va < a + (Z.of_nat n + 1) * PGSIZE → present (pte_of (pa_ram s) pgdir va) = false) →
  returns (mappages_loop fuel pgdir a (a + Z.of_nat n * PGSIZE) pa perm) s
    (map_post pgdir a pa perm (Datatypes.S n) s l).
Proof.
  assert (HPG : 0 < PGSIZE) by done. assert (H4096 : PGSIZE mod PGSIZE = 0) by done.
  induction n as [|n IH]; intros [|fuel] a pa s l Hf Has Ham Ha Hax Hpm Hpa Hpx Hperm Hnp; try plia;
    cbn [mappages_loop].
  - apply (map_first pgdir a pa perm s l); try done; try plia; [apply Hnp; plia| |].
    + intros ->. apply returns_ret. exists [], [], 0%nat. split; [by apply grew_refl|].
      split; [|right; split; [done|split; [plia|done]]]. intros va Hva. rewrite decide_False by plia. done.
    + intros new s1 l1 z Hg Hm. rewrite Z.mul_0_l, Z.add_0_r, Z.eqb_refl. mgo.
      exists new, l1, 1%nat. split; [done|]. split; [done|]. by left.
  - apply (map_first pgdir a pa perm s l); try done; try plia; [apply Hnp; plia| |].
    + intros ->. apply returns_ret. exists [], [], 0%nat. split; [by apply grew_refl|].
      split; [|right; split; [done|split; [plia|done]]]. intros va Hva. rewrite decide_False by plia. done.
    + intros new s1 l1 z Hg Hm. rewrite (proj2 (Z.eqb_neq _ _)) by plia.
      rewrite !u32_small by plia.
      replace (a + Z.of_nat (Datatypes.S n) * PGSIZE) with (a + PGSIZE + Z.of_nat n * PGSIZE) by plia.
      eapply returns_mono; [apply IH; try plia; try done|].
      * apply Hg.
      * by rewrite Z.add_mod, Ham, H4096.
      * by rewrite Z.add_mod, Hpm, H4096.
      * intros va Hva. rewrite (Hm va) by plia. rewrite decide_False by plia. apply Hnp. plia.
      * intros r s' (new2 & l' & k & Hg2 & Hm2 & Hr). exists (new ++ new2), l', (Datatypes.S k).
        split; [by eapply grew_trans|]. split; [by eapply mapped_step|].
        destruct Hr as [[-> ->]|(-> & ? & ->)]; [by left|right]. split; [done|]. split; [plia|done].
Qed.

(** [mappages] maps the pages of a range that is not mapped yet: it returns, and
    either with 0, the entry of every page of the range being the physical page,
    the permissions and the present bit, or with -1 after the memory for page
    tables ran out, with a first part of the range mapped.  Every other entry is
    unchanged, page tables are taken from the free pages, and no memory outside
    the page tables changes. *)
Theorem mappages_maps s l pgdir va size pa perm :
  let first := va / PGSIZE * PGSIZE in
  let n := (va + size - 1) / PGSIZE - va / PGSIZE + 1 in
  as_ok s l pgdir → 0 ≤ va → 1 ≤ size → va + size ≤ two32 →
  pa mod PGSIZE = 0 → 0 ≤ pa → pa + n * PGSIZE ≤ two32 → 0 ≤ perm < PGSIZE →
  (∀ va', first ≤ va' < first + n * PGSIZE → present (pte_of (pa_ram s) pgdir va') = false) →
  returns (mappages pgdir va size pa perm) s (map_post pgdir first pa perm (Z.to_nat n) s l).
Proof.
  intros first n Has Hva Hs Hmax Hpm Hpa Hpx Hperm Hnp. unfold mappages.
  rewrite u32_small by lia. rewrite !PGROUNDDOWN_div by lia. fold first.
  assert (Hn : 1 ≤ n).
  { unfold n. pose proof (Z.div_le_mono va (va + size - 1) PGSIZE ltac:(done)). lia. }
  assert (Hlast : (va + size - 1) / PGSIZE * PGSIZE = first + Z.of_nat (Z.to_nat (n - 1)) * PGSIZE)
    by (unfold first, n; rewrite Z2Nat.id by (unfold n in Hn; lia); lia).
  rewrite Hlast. replace (Z.to_nat n) with (Datatypes.S (Z.to_nat (n - 1))) by lia.
  assert (Hq : (va + size - 1) / PGSIZE < 1048576) by (apply Z.div_lt_upper_bound; [done|]; unfold PGSIZE, two32 in *; lia).
  assert (0 ≤ va / PGSIZE) by (by apply Z.div_pos).
  assert (Hm1 : Z.of_nat (Z.to_nat (n - 1)) + 1 = n) by lia.
  apply mappages_loop_ok; rewrite ?Hm1; try done.
  - unfold NPAGES, n in *. lia.
  - unfold first. by apply Z_mod_mult.
  - unfold first. unfold PGSIZE. unfold PGSIZE in *. lia.
  - unfold first, n, PGSIZE, two32 in *. lia.
Qed.
End Maps.
