(* ===== verification/VmUser.v ===== *)
(** User memory (deallocuvm, allocuvm): the pages of a process, each mapped once. *)

From S2P Require Import Prelude Layout CString Kalloc PageAlloc Vm VmMap.

Section User.
Context {S : Type} `{PA : PageAlloc S}.

(** The physical page at [va], if one is mapped. *)
Definition frame (m : mem) (pgdir va : Z) : option Z :=
  let e := pte_of m pgdir va in if present e then Some (P2V (PTE_ADDR e)) else None.

(** The address space of a process beside the free pages [l]. *)
Record space_ok (s : S) (l : list Z) (pgdir : Z) : Prop := {
  sp_as : as_ok s l pgdir;
  sp_frame : ∀ va f, 0 ≤ va < KERNBASE → frame (pa_ram s) pgdir va = Some f →
    pa_page f ∧ (f ∉ l) ∧ ¬ owns (pa_ram s) pgdir f;
  sp_inj : ∀ va va' f, 0 ≤ va < KERNBASE → 0 ≤ va' < KERNBASE →
    frame (pa_ram s) pgdir va = Some f → frame (pa_ram s) pgdir va' = Some f → va / PGSIZE = va' / PGSIZE
}.

Lemma pte_page m pgdir va va' :
  0 ≤ va < two32 → 0 ≤ va' < two32 → va / PGSIZE = va' / PGSIZE → pte_of m pgdir va = pte_of m pgdir va'.
Proof. intros H H' E. apply same_index in E as [E1 E2]; [|done..]. unfold pte_of. by rewrite E1, E2. Qed.

Lemma frame_addr m pgdir va f :
  frame m pgdir va = Some f → pa_page f →
  present (pte_of m pgdir va) = true ∧ P2V (PTE_ADDR (pte_of m pgdir va)) = f ∧ PTE_ADDR (pte_of m pgdir va) ≠ 0.
Proof.
  unfold frame. intros Hf Hp. destruct (present _) eqn:E; [|done]. injection Hf as Hf.
  split; [done|]. split; [done|]. intros Hz. rewrite Hz in Hf.
  destruct (pa_page_range f Hp) as [_ ?]. change (P2V 0) with KERNBASE in Hf. lia.
Qed.

(** ** Unmapping *)

(** Freeing the page at [a] and clearing its entry. *)
Lemma unmap_one pgdir a s l f t (Q : unit → S → Prop) :
  space_ok s l pgdir → 0 ≤ a < KERNBASE → frame (pa_ram s) pgdir a = Some f →
  tab (pa_ram s) pgdir (PDX a) = Some t →
  (∀ s', space_ok s' (f :: l) pgdir →
     (∀ va, 0 ≤ va < two32 → pte_of (pa_ram s') pgdir va =
        if decide (va / PGSIZE = a / PGSIZE) then 0 else pte_of (pa_ram s) pgdir va) →
     (∀ p, owns (pa_ram s') pgdir p ↔ owns (pa_ram s) pgdir p) →
     (∀ x, ¬ in_page f x → (∀ p, owns (pa_ram s) pgdir p → ¬ in_page p x) → pa_ram s' x = pa_ram s x) →
     Q tt s') →
  returns (_ ← pa_kfree f; st (pte_addr t a) 0) s Q.
Proof.
  intros Hsp Ha Hf Ht HQ. destruct (sp_frame _ _ _ Hsp a f Ha Hf) as (Hfp & Hfl & Hfo).
  pose proof (sp_as _ _ _ Hsp) as Has. pose proof (as_table _ _ _ Has) as Hpt.
  mgo. eapply returns_mono; [apply (pa_kfree_ok s l f); [apply Has|done|done]|].
  intros [] s1 [Hok1 Hm1].
  assert (Hown1 : ∀ p x, owns (pa_ram s) pgdir p → in_page p x → pa_ram s1 x = pa_ram s x).
  { intros p x Hp Hx. apply Hm1. intros Hfx. apply Hfo.
    by rewrite (pages_apart f p x Hfp (owns_page _ _ _ Hpt Hp) Hfx Hx). }
  pose proof (owns_same _ _ _ Hown1) as Howns. pose proof (pte_same _ _ _ Hown1) as Hptes.
  assert (Has1 : as_ok s1 (f :: l) pgdir).
  { split; [done|by eapply pt_ok_same|]. intros p Hp%Howns [->|Hin]%elem_of_cons; [done|].
    by apply (as_apart _ _ _ Has p Hp). }
  assert (Ht1 : tab (pa_ram s1) pgdir (PDX a) = Some t) by (rewrite (tab_same _ _ _ Hown1); [done|apply PDX_range]).
  assert (Ha32 : 0 ≤ a < two32) by (unfold KERNBASE, two32 in *; lia).
  destruct (set_pte pgdir s1 (f :: l) a t 0 Has1 Ha32 ltac:(done) Ht1) as [Hg Hset].
  unfold st. mgo. set (s2 := pa_write _ s1) in *.
  assert (Howns2 : ∀ p, owns (pa_ram s2) pgdir p ↔ owns (pa_ram s) pgdir p).
  { intros p. rewrite (gr_owns _ _ _ _ _ _ Hg), elem_of_nil, Howns. tauto. }
  assert (Hpte2 : ∀ va, 0 ≤ va < two32 → pte_of (pa_ram s2) pgdir va =
        if decide (va / PGSIZE = a / PGSIZE) then 0 else pte_of (pa_ram s) pgdir va).
  { intros va Hva. rewrite Hset by done. case_decide; [done|]. apply Hptes. }
  assert (Hfr2 : ∀ va g, 0 ≤ va < KERNBASE → frame (pa_ram s2) pgdir va = Some g →
    frame (pa_ram s) pgdir va = Some g ∧ va / PGSIZE ≠ a / PGSIZE).
  { intros va g Hva. unfold frame. rewrite Hpte2 by (unfold KERNBASE, two32 in *; lia).
    case_decide; [done|]. by intros. }
  apply HQ; [|done|done|].
  - split.
    + apply Hg.
    + intros va g Hva Hg2. destruct (Hfr2 va g Hva Hg2) as [Hg1 Hne].
      destruct (sp_frame _ _ _ Hsp va g Hva Hg1) as (? & ? & ?). split; [done|]. rewrite Howns2. split; [|done].
      intros [->|?]%elem_of_cons; [|done]. apply Hne. by apply (sp_inj _ _ _ Hsp va a f).
    + intros va va' g Hva Hva' H1 H2. eapply (sp_inj _ _ _ Hsp); [done|done|by apply Hfr2|by apply Hfr2].
  - intros x Hx Hno. rewrite (gr_mem _ _ _ _ _ _ Hg); [by apply Hm1|].
    intros p Hp. apply Hno. by apply Howns2.
Qed.

(** [s'] is [s] after the pages from [lo] up to [hi] were unmapped and freed; [fs]
    are the pages given back. *)
Record unmapped (pgdir lo hi : Z) (s : S) (l fs : list Z) (s' : S) : Prop := {
  um_space : space_ok s' (fs ++ l) pgdir;
  um_pte : ∀ va, 0 ≤ va < two32 → pte_of (pa_ram s') pgdir va =
    if decide (lo ≤ va / PGSIZE * PGSIZE < hi ∧ present (pte_of (pa_ram s) pgdir va) = true) then 0
    else pte_of (pa_ram s) pgdir va;
  um_owns : ∀ p, owns (pa_ram s') pgdir p ↔ owns (pa_ram s) pgdir p;
  um_frames : ∀ f, f ∈ fs ↔
    ∃ va, 0 ≤ va < KERNBASE ∧ lo ≤ va / PGSIZE * PGSIZE < hi ∧ frame (pa_ram s) pgdir va = Some f;
  um_mem : ∀ x, (∀ f, f ∈ fs → ¬ in_page f x) → (∀ p, owns (pa_ram s) pgdir p → ¬ in_page p x) →
    pa_ram s' x = pa_ram s x
}.

(** Nothing is mapped from [lo] up to [mid]. *)
Lemma unmapped_gap pgdir lo mid hi s l fs s' :
  hi ≤ KERNBASE → lo ≤ mid →
  (∀ va, 0 ≤ va < two32 → lo ≤ va / PGSIZE * PGSIZE < mid → va / PGSIZE * PGSIZE < hi →
     present (pte_of (pa_ram s) pgdir va) = false) →
  unmapped pgdir mid hi s l fs s' → unmapped pgdir lo hi s l fs s'.
Proof.
  intros Hhi Hlm Hno [Hsp Hpte Hown Hfr Hmem]. split; try done.
  - intros va Hva. rewrite Hpte by done.
    destruct (present (pte_of (pa_ram s) pgdir va)) eqn:E; [|by rewrite !decide_False by naive_solver].
    destruct (decide (mid ≤ va / PGSIZE * PGSIZE)).
    + repeat case_decide; try done; exfalso; intuition lia.
    + destruct (decide (lo ≤ va / PGSIZE * PGSIZE < hi)); [|by rewrite !decide_False by intuition lia].
      rewrite Hno in E by lia. done.
  - intros f. rewrite Hfr. split; intros (va & Hva & Hr & Hf); exists va; (split; [done|]); (split; [|done]); [lia|].
    destruct (decide (mid ≤ va / PGSIZE * PGSIZE)); [lia|]. exfalso.
    unfold frame in Hf. rewrite Hno in Hf; [done|unfold KERNBASE, two32 in *; lia|lia|lia].
Qed.

Lemma unmapped_none pgdir lo hi s l : space_ok s l pgdir → hi ≤ lo → unmapped pgdir lo hi s l [] s.
Proof.
  intros Hsp Hle. split; try done.
  - intros va Hva. rewrite decide_False by lia. done.
  - intros f. rewrite elem_of_nil. split; [done|]. intros (va & _ & ? & _). lia.
Qed.

(** One page, then the rest. *)
Lemma unmapped_step pgdir a hi s l f s1 fs s2 :
  space_ok s l pgdir → a mod PGSIZE = 0 → 0 ≤ a < hi → hi ≤ KERNBASE → frame (pa_ram s) pgdir a = Some f →
  (∀ va, 0 ≤ va < two32 → pte_of (pa_ram s1) pgdir va =
        if decide (va / PGSIZE = a / PGSIZE) then 0 else pte_of (pa_ram s) pgdir va) →
  (∀ p, owns (pa_ram s1) pgdir p ↔ owns (pa_ram s) pgdir p) →
  (∀ x, ¬ in_page f x → (∀ p, owns (pa_ram s) pgdir p → ¬ in_page p x) → pa_ram s1 x = pa_ram s x) →
  unmapped pgdir (a + PGSIZE) hi s1 (f :: l) fs s2 →
  unmapped pgdir a hi s l (fs ++ [f]) s2.
Proof.
  intros Hsp Ham Ha Hhi Hf Hpte1 Hown1 Hmem1 [Hsp2 Hpte2 Hown2 Hfr2 Hmem2].
  assert (Hfl : ∀ va, va / PGSIZE = a / PGSIZE ↔ va / PGSIZE * PGSIZE = a).
  { intros va. pose proof (Z.div_mod a PGSIZE ltac:(done)). plia. }
  assert (Hgap : ∀ va, a ≤ va / PGSIZE * PGSIZE → va / PGSIZE ≠ a / PGSIZE → a + PGSIZE ≤ va / PGSIZE * PGSIZE).
  { intros va H1 H2. pose proof (Z.div_mod a PGSIZE ltac:(done)). plia. }
  split.
  - by rewrite <-app_assoc.
  - intros va Hva. rewrite Hpte2, Hpte1 by done. destruct (decide (va / PGSIZE = a / PGSIZE)) as [E|E].
    + assert (va / PGSIZE * PGSIZE = a) as Ev by (by apply Hfl).
      rewrite decide_False by plia. rewrite decide_True; [done|]. split; [lia|].
      unfold frame in Hf. rewrite (pte_page _ _ va a) by (done || (unfold KERNBASE, two32 in *; lia)).
      by destruct (present (pte_of (pa_ram s) pgdir a)).
    + assert (Hiff : a + PGSIZE ≤ va / PGSIZE * PGSIZE ↔ a ≤ va / PGSIZE * PGSIZE)
        by (split; [plia|intros; by apply Hgap]).
      repeat case_decide; try done; exfalso; tauto.
  - intros p. by rewrite Hown2, Hown1.
  - intros g. rewrite elem_of_app, list_elem_of_singleton, Hfr2. split.
    + intros [(va & Hva & Hr & Hg)| ->]; [exists va|exists a].
      * unfold frame in *. rewrite Hpte1 in Hg by (unfold KERNBASE, two32 in *; lia).
        case_decide as E; [done|]. split; [done|]. split; [plia|done].
      * split; [lia|]. split; [|done]. pose proof (Z.div_mod a PGSIZE ltac:(done)). plia.
    + intros (va & Hva & Hr & Hg). destruct (decide (va / PGSIZE = a / PGSIZE)) as [E|E].
      * right. unfold frame in *. rewrite (pte_page _ _ va a) in Hg by (done || (unfold KERNBASE, two32 in *; lia)). congruence.
      * left. exists va. split; [done|]. split; [specialize (Hgap va); lia|].
        unfold frame in *. rewrite Hpte1 by (unfold KERNBASE, two32 in *; lia). by rewrite decide_False.
  - intros x Hx Hno. rewrite Hmem2.
    + apply Hmem1; [|done]. apply Hx. set_solver.
    + intros g Hg. apply Hx. set_solver.
    + intros p Hp. apply Hno. by apply Hown1.
Qed.

(** The next page-table boundary after [a]. *)
Lemma next_table a : 0 ≤ a < KERNBASE →
  u32 (u32 (PGADDR (PDX a + 1) 0 0 - PGSIZE) + PGSIZE) = (PDX a + 1) * 4194304 ∧
  a < (PDX a + 1) * 4194304 ≤ KERNBASE.
Proof.
  intros Ha. rewrite PDX_div by (unfold KERNBASE, two32 in *; lia).
  assert (Hd : 0 ≤ a / 4194304 < 512)
    by (split; [apply Z.div_pos; lia|apply Z.div_lt_upper_bound; unfold KERNBASE in *; lia]).
  pose proof (Z.div_mod a 4194304). pose proof (Z.mod_pos_bound a 4194304).
  unfold PGADDR, PDXSHIFT, PTXSHIFT. rewrite Z.shiftl_0_l, !Z.lor_0_r, Z.shiftl_mul_pow2 by lia.
  change (2 ^ 22) with 4194304. unfold PGSIZE, KERNBASE, two32 in *.
  rewrite (u32_small ((a / 4194304 + 1) * 4194304)) by (unfold two32; lia).
  rewrite (u32_small (_ - 4096)) by (unfold two32; lia).
  rewrite u32_small by (unfold two32; lia). lia.
Qed.

Lemma table_pages a va : 0 ≤ a < KERNBASE → 0 ≤ va < two32 → a mod PGSIZE = 0 →
  a ≤ va / PGSIZE * PGSIZE < (PDX a + 1) * 4194304 → PDX va = PDX a.
Proof.
  intros Ha Hva Ham Hr. rewrite !PDX_div in * by (unfold KERNBASE, two32 in *; lia).
  pose proof (Z.div_mod a 4194304). pose proof (Z.mod_pos_bound a 4194304).
  pose proof (Z.div_mod va PGSIZE ltac:(done)). pose proof (Z.mod_pos_bound va PGSIZE ltac:(done)).
  symmetry. apply (Z.div_unique va 4194304 (a / 4194304) (va - a / 4194304 * 4194304)); [|lia].
  left. split; [plia|].
  assert (va / PGSIZE * PGSIZE ≤ (a / 4194304 + 1) * 4194304 - 4096); [|plia].
  assert (va / PGSIZE < (a / 4194304 + 1) * 1024) by plia. plia.
Qed.

Lemma deallocuvm_loop_ok pgdir hi fuel : ∀ a s l,
  space_ok s l pgdir → a mod PGSIZE = 0 → 0 ≤ a → hi ≤ KERNBASE →
  hi - a ≤ (Z.of_nat fuel - 1) * PGSIZE → (1 ≤ fuel)%nat →
  returns (deallocuvm_loop fuel pgdir a hi) s (λ _ s', ∃ fs, unmapped pgdir a hi s l fs s').
Proof.
  induction fuel as [|fuel IH]; intros a s l Hsp Ham Ha Hhi Hfu Hf1; [lia|]. cbn [deallocuvm_loop].
  destruct (Z.leb_spec hi a) as [Hle|Hlt]; [mgo; exists []; by apply unmapped_none|].
  assert (Hfu1 : (1 ≤ fuel)%nat) by (destruct fuel; [plia|lia]).
  assert (HaK : 0 ≤ a < KERNBASE) by lia.
  pose proof (as_table _ _ _ (sp_as _ _ _ Hsp)) as Hpt.
  mgo. unfold returns at 1. rewrite walk_lookup.
  destruct (tab (pa_ram s) pgdir (PDX a)) as [t|] eqn:Et.
  - destruct (pt_tab _ _ Hpt _ _ (PDX_range a) Et) as [Htp _].
    rewrite (proj2 (Z.eqb_neq _ 0)) by (pose proof (pte_addr_pos t a Htp); lia).
    unfold ld. mgo. assert (He : load32 (pa_ram s) (pte_addr t a) = pte_of (pa_ram s) pgdir a)
      by (unfold pte_of; by rewrite Et).
    rewrite He. rewrite (u32_small (a + PGSIZE)) by (unfold KERNBASE, two32, PGSIZE in *; lia).
    assert (Ham' : (a + PGSIZE) mod PGSIZE = 0) by (by rewrite Z.add_mod, Ham).
    assert (Hrest : ∀ s1 l1, space_ok s1 l1 pgdir → returns (deallocuvm_loop fuel pgdir (a + PGSIZE) hi) s1
      (λ _ s', ∃ fs, unmapped pgdir (a + PGSIZE) hi s1 l1 fs s')) by (intros; apply IH; done || plia).
    destruct (present (pte_of (pa_ram s) pgdir a)) eqn:Epr.
    + assert (Hf : frame (pa_ram s) pgdir a = Some (P2V (PTE_ADDR (pte_of (pa_ram s) pgdir a))))
        by (unfold frame; by rewrite Epr).
      destruct (sp_frame _ _ _ Hsp a _ HaK Hf) as (Hfp & _).
      destruct (frame_addr _ _ _ _ Hf Hfp) as (_ & _ & Hz). cbn [when]. rewrite (proj2 (Z.eqb_neq _ 0)) by done.
      eapply (unmap_one pgdir a s l _ t); [done..|]. intros s1 Hsp1 Hpte1 Hown1 Hmem1.
      eapply returns_mono; [by apply Hrest|]. intros [] s2 [fs Hu]. eexists.
      by eapply (unmapped_step pgdir a hi s l _ s1).
    + cbn [when]. mgo. eapply returns_mono; [by apply Hrest|]. intros [] s2 [fs Hu]. exists fs.
      eapply (unmapped_gap pgdir a (a + PGSIZE)); [done|plia| |done].
      intros va Hva Hr _. rewrite (pte_page _ _ va a); [done|done|unfold KERNBASE, two32 in *; lia|].
      pose proof (Z.div_mod a PGSIZE ltac:(done)). plia.
  - change (0 =? 0) with true. cbv iota. destruct (next_table a HaK) as [-> Hnt].
    assert (Hnm : (PDX a + 1) * 4194304 mod PGSIZE = 0).
    { change 4194304 with (1024 * PGSIZE). rewrite Z.mul_assoc. by apply Z_mod_mult. }
    eapply returns_mono; [apply (IH _ s l); [done|done|lia|done| |done]|].
    + assert (a + PGSIZE ≤ (PDX a + 1) * 4194304); [|plia].
      pose proof (Z.div_mod a PGSIZE ltac:(done)). plia.
    + intros [] s2 [fs Hu]. exists fs. eapply unmapped_gap; [done| | |exact Hu]; [lia|].
      intros va Hva Hr _. unfold pte_of. rewrite (table_pages a va) by (done || lia). by rewrite Et.
Qed.

Lemma deallocuvm_ok pgdir s l oldsz newsz (Q : Z → S → Prop) :
  space_ok s l pgdir → 0 ≤ newsz < oldsz → oldsz ≤ KERNBASE →
  (∀ fs s', unmapped pgdir (PGROUNDUP newsz) oldsz s l fs s' → Q newsz s') →
  returns (deallocuvm pgdir oldsz newsz) s Q.
Proof.
  intros Hsp Hn Ho HQ. unfold deallocuvm. rewrite (proj2 (Z.leb_gt _ _)) by lia. mgo.
  destruct (PGROUNDUP_spec newsz) as [Hm Hr]; [lia|unfold KERNBASE, PGSIZE, two32 in *; lia|].
  assert (Hf : Z.of_nat (Datatypes.S NPAGES) = 1048577) by (unfold NPAGES; lia).
  assert (Hf1 : (1 ≤ Datatypes.S NPAGES)%nat) by lia.
  revert Hf Hf1. generalize (Datatypes.S NPAGES) as fuel. intros fuel Hf Hf1.
  eapply returns_mono; [apply (deallocuvm_loop_ok pgdir oldsz fuel _ s l Hsp Hm)|].
  - lia.
  - lia.
  - rewrite Hf. unfold KERNBASE, PGSIZE in *. lia.
  - done.
  - intros [] s' [fs Hu]. mgo. by eapply HQ.
Qed.

(** ** Mapping *)

(** Page [p] is allocated and not used yet. *)
Record in_hand (s : S) (l : list Z) (pgdir p : Z) : Prop := {
  ih_page : pa_page p;
  ih_free : p ∉ l;
  ih_owns : ¬ owns (pa_ram s) pgdir p;
  ih_frame : ∀ va, 0 ≤ va < KERNBASE → frame (pa_ram s) pgdir va ≠ Some p
}.

(** The frames depend on the entries only. *)
Lemma space_same s l pgdir s' l' :
  as_ok s' l' pgdir → (∀ p, p ∈ l' → p ∈ l) →
  (∀ p, owns (pa_ram s') pgdir p → owns (pa_ram s) pgdir p ∨ p ∈ l) →
  (∀ va, pte_of (pa_ram s') pgdir va = pte_of (pa_ram s) pgdir va) →
  space_ok s l pgdir → space_ok s' l' pgdir.
Proof.
  intros Has Hl Hown Hpte Hsp.
  assert (Hfr : ∀ va, frame (pa_ram s') pgdir va = frame (pa_ram s) pgdir va)
    by (intros va; unfold frame; by rewrite Hpte).
  split; [done| |].
  - intros va f Hva. rewrite Hfr. intros Hf. destruct (sp_frame _ _ _ Hsp va f Hva Hf) as (? & ? & ?).
    split; [done|]. split; [auto|]. intros [?|?]%Hown; done.
  - intros va va' f Hva Hva'. rewrite !Hfr. by apply (sp_inj _ _ _ Hsp).
Qed.

(** Taking a page off the free list and writing to it. *)
Lemma take_page s p l pgdir s1 m' :
  space_ok s (p :: l) pgdir → pa_ok s1 l → pa_ram s1 = pa_ram s →
  (∀ a, ¬ in_page p a → m' a = pa_ram s a) →
  let s2 := pa_write m' s1 in
  space_ok s2 l pgdir ∧ in_hand s2 l pgdir p ∧
  (∀ va, pte_of (pa_ram s2) pgdir va = pte_of (pa_ram s) pgdir va) ∧
  (∀ q, owns (pa_ram s2) pgdir q ↔ owns (pa_ram s) pgdir q).
Proof.
  intros Hsp Hok1 Hram Hm s2. pose proof (sp_as _ _ _ Hsp) as Has. pose proof (as_table _ _ _ Has) as Hpt.
  destruct (pa_ok_pages _ _ (as_alloc _ _ _ Has)) as [Hpg Hnd].
  apply Forall_cons in Hpg as [Hp Hpl]. rewrite Forall_forall in Hpl. apply NoDup_cons in Hnd as [Hnin _].
  assert (Hno : ¬ owns (pa_ram s) pgdir p) by (intros Ho; apply (as_apart _ _ _ Has p Ho); left).
  assert (Hm' : ∀ q x, owns (pa_ram s) pgdir q → in_page q x → m' x = pa_ram s x).
  { intros q x Hq Hx. apply Hm. intros Hpx. apply Hno.
    by rewrite (pages_apart p q x Hp (owns_page _ _ _ Hpt Hq) Hpx Hx). }
  assert (Hpte : ∀ va, pte_of (pa_ram s2) pgdir va = pte_of (pa_ram s) pgdir va)
    by (intros va; unfold s2; rewrite pa_ram_write; by apply pte_same).
  assert (Hown : ∀ q, owns (pa_ram s2) pgdir q ↔ owns (pa_ram s) pgdir q)
    by (intros q; unfold s2; rewrite pa_ram_write; by apply owns_same).
  assert (Has2 : as_ok s2 l pgdir).
  { split.
    - apply pa_ok_write; [done|]. intros q x Hq Hx. rewrite Hram. apply Hm. intros Hpx. apply Hnin.
      by rewrite (pages_apart p q x Hp (Hpl q Hq) Hpx Hx).
    - unfold s2. rewrite pa_ram_write. by eapply pt_ok_same.
    - intros q Hq%Hown Hin. apply (as_apart _ _ _ Has q Hq). by right. }
  split; [|split; [|done]].
  - eapply (space_same s (p :: l)); try done; [by right|]. intros q Hq. left. by apply Hown.
  - split; [done|done|by rewrite Hown|]. intros va Hva. unfold frame. rewrite Hpte.
    change (frame (pa_ram s) pgdir va ≠ Some p). intros Hf.
    destruct (sp_frame _ _ _ Hsp va p Hva Hf) as (_ & Hn & _). apply Hn. left.
Qed.

(** The same in two steps: a page is taken, and then written to. *)
Lemma page_taken s p l pgdir s1 :
  space_ok s (p :: l) pgdir → pa_ok s1 l → pa_ram s1 = pa_ram s → space_ok s1 l pgdir ∧ in_hand s1 l pgdir p.
Proof.
  intros Hsp Hok Hram. pose proof (sp_as _ _ _ Hsp) as Has. destruct (pa_ok_pages _ _ (as_alloc _ _ _ Has)) as [Hpg Hnd].
  apply Forall_cons in Hpg as [Hp _]. apply NoDup_cons in Hnd as [Hnin _]. split; [split; [split|..]|]; rewrite ?Hram.
  - done.
  - apply Has.
  - intros q Hq Hin. apply (as_apart _ _ _ Has q Hq). by right.
  - intros va f Hva Hf. destruct (sp_frame _ _ _ Hsp va f Hva Hf) as (? & Hn & ?). rewrite elem_of_cons in Hn. tauto.
  - apply Hsp.
  - split; rewrite ?Hram; [done|done| |].
    + intros Ho. apply (as_apart _ _ _ Has p Ho). left.
    + intros va Hva Hf. destruct (sp_frame _ _ _ Hsp va p Hva Hf) as (_ & Hn & _). apply Hn. left.
Qed.

Lemma page_written s p l pgdir m' :
  space_ok s l pgdir → in_hand s l pgdir p → (∀ a, ¬ in_page p a → m' a = pa_ram s a) →
  let s2 := pa_write m' s in
  space_ok s2 l pgdir ∧ in_hand s2 l pgdir p ∧ ∀ va, pte_of (pa_ram s2) pgdir va = pte_of (pa_ram s) pgdir va.
Proof.
  intros Hsp [Hp Hl Ho Hf] Hm s2. pose proof (sp_as _ _ _ Hsp) as Has. pose proof (as_table _ _ _ Has) as Hpt.
  destruct (pa_ok_pages _ _ (as_alloc _ _ _ Has)) as [Hpg _]. rewrite Forall_forall in Hpg.
  destruct (as_ok_write s l pgdir m' Has) as [Has2 Hpte].
  { intros q x Hq Hx. apply Hm. intros Hpx. destruct Hq as [Hq|Hq].
    - apply Hl. by rewrite (pages_apart p q x Hp (Hpg q Hq) Hpx Hx).
    - apply Ho. by rewrite (pages_apart p q x Hp (owns_page _ _ _ Hpt Hq) Hpx Hx). }
  fold s2 in Has2.
  assert (Hram : pa_ram s2 = m') by apply pa_ram_write. rewrite <- Hram in Hpte.
  assert (Hm' : ∀ q x, owns (pa_ram s) pgdir q → in_page q x → pa_ram s2 x = pa_ram s x).
  { intros q x Hq Hx. unfold s2. rewrite pa_ram_write. apply Hm. intros Hpx. apply Ho.
    by rewrite (pages_apart p q x Hp (owns_page _ _ _ Hpt Hq) Hpx Hx). }
  pose proof (owns_same _ _ _ Hm') as Hown. split; [|split; [|exact Hpte]].
  - eapply (space_same s l); try done. intros q Hq. left. by apply Hown.
  - split; [done|done|by rewrite Hown|]. intros va Hva. unfold frame. rewrite Hpte. by apply Hf.
Qed.

(** The entry of page [a] becomes one for page [p]. *)
Lemma space_map s l new s' l' pgdir a p e :
  space_ok s l pgdir → in_hand s l pgdir p → grew pgdir s l new s' l' → 0 ≤ a < KERNBASE →
  present e = true → P2V (PTE_ADDR e) = p →
  (∀ va, 0 ≤ va < two32 → pte_of (pa_ram s') pgdir va =
     if decide (va / PGSIZE = a / PGSIZE) then e else pte_of (pa_ram s) pgdir va) →
  space_ok s' l' pgdir.
Proof.
  intros Hsp Hih Hg Ha He Hep Hpte.
  assert (Hnew : ∀ q, q ∈ l' ∨ q ∈ new → q ∈ l) by (intros q; rewrite (gr_free _ _ _ _ _ _ Hg); set_solver).
  assert (Hown : ∀ q, owns (pa_ram s') pgdir q → owns (pa_ram s) pgdir q ∨ q ∈ l).
  { intros q [?|?]%(gr_owns _ _ _ _ _ _ Hg); [by left|right; auto]. }
  assert (Hfr : ∀ va f, 0 ≤ va < KERNBASE → frame (pa_ram s') pgdir va = Some f →
    (va / PGSIZE = a / PGSIZE ∧ f = p) ∨ (va / PGSIZE ≠ a / PGSIZE ∧ frame (pa_ram s) pgdir va = Some f)).
  { intros va f Hva. unfold frame. rewrite Hpte by (unfold KERNBASE, two32 in *; lia).
    case_decide; [rewrite He, Hep; intros [= <-]; by left|by right]. }
  split; [apply Hg| |].
  - intros va f Hva Hf. destruct (Hfr va f Hva Hf) as [[_ ->]|[_ Hf']].
    + split; [apply Hih|]. split; [intros Hin; apply (ih_free _ _ _ _ Hih); auto|].
      intros [?|?]%Hown; [by apply (ih_owns _ _ _ _ Hih)|by apply (ih_free _ _ _ _ Hih)].
    + destruct (sp_frame _ _ _ Hsp va f Hva Hf') as (? & ? & ?). split; [done|].
      split; [auto|]. intros [?|?]%Hown; done.
  - intros va va' f Hva Hva' Hf Hf'.
    destruct (Hfr va f Hva Hf) as [[E ->]|[E H1]], (Hfr va' _ Hva' Hf') as [[E' E2]|[E' H2]].
    + congruence.
    + by destruct (ih_frame _ _ _ _ Hih va' Hva').
    + subst f. by destruct (ih_frame _ _ _ _ Hih va Hva).
    + by apply (sp_inj _ _ _ Hsp va va' f).
Qed.

(** The entry for page [p]. *)
Definition page_entry (p perm : Z) : Z := Z.lor (Z.lor (V2P p) perm) PTE_P.

(** Mapping one page. *)
Lemma mappages_page pgdir a p perm s l (Q : Z → S → Prop) :
  as_ok s l pgdir → a mod PGSIZE = 0 → 0 ≤ a < KERNBASE → pa_page p → 0 ≤ perm < PGSIZE →
  pte_of (pa_ram s) pgdir a = 0 →
  (∀ new l' s', grew pgdir s l new s' l' →
     (∀ va, 0 ≤ va < two32 → pte_of (pa_ram s') pgdir va =
        if decide (va / PGSIZE = a / PGSIZE) then page_entry p perm else pte_of (pa_ram s) pgdir va) → Q 0 s') →
  (∀ new s', grew pgdir s l new s' [] →
     (∀ va, 0 ≤ va < two32 → pte_of (pa_ram s') pgdir va = pte_of (pa_ram s) pgdir va) → Q (-1) s') →
  returns (mappages pgdir a PGSIZE (V2P p) perm) s Q.
Proof.
  intros Has Ham Ha Hp Hperm Hz Hok Hfail. destruct (pa_page_range p Hp) as [Hpm Hpr].
  assert (HV : V2P p = p - KERNBASE) by (apply V2P_kern; unfold PHYSTOP, KERNBASE, two32 in *; lia).
  assert (HVm : V2P p mod PGSIZE = 0) by (rewrite HV, Zminus_mod, Hpm; done).
  assert (Hfl : ∀ va, (a ≤ va < a + PGSIZE ↔ va / PGSIZE = a / PGSIZE)) by (intros va; by apply page_floor).
  unfold mappages. rewrite !PGROUNDDOWN_div, (u32_small (a + PGSIZE - 1)) by
    (try apply u32_range; unfold KERNBASE, two32, PGSIZE in *; lia).
  assert (a / PGSIZE * PGSIZE = a) as -> by (pose proof (Z.div_mod a PGSIZE ltac:(done)); plia).
  assert ((a + PGSIZE - 1) / PGSIZE * PGSIZE = a + Z.of_nat 0 * PGSIZE) as ->.
  { rewrite (proj1 (Hfl (a + PGSIZE - 1))) by plia. pose proof (Z.div_mod a PGSIZE ltac:(done)). plia. }
  assert (HN : (1 ≤ NPAGES)%nat) by (unfold NPAGES; lia). revert HN. generalize NPAGES as fuel. intros fuel HN.
  eapply returns_mono; [apply (mappages_loop_ok pgdir perm 0 fuel a (V2P p) s l); try done|].
  - lia.
  - unfold KERNBASE, two32, PGSIZE in *. lia.
  - rewrite HV. lia.
  - rewrite HV. unfold KERNBASE, PHYSTOP, two32, PGSIZE in *. lia.
  - intros va Hva. rewrite (pte_page _ _ va a), Hz; [done|unfold KERNBASE, two32, PGSIZE in *; lia..|].
    apply Hfl. plia.
  - intros r s' (new & l' & k & Hg & Hm & [[-> ->]|(-> & Hk & ->)]).
    + eapply Hok; [exact Hg|]. intros va Hva. rewrite (Hm va Hva). change (Z.of_nat 1 * PGSIZE) with PGSIZE.
      destruct (decide (va / PGSIZE = a / PGSIZE)) as [E|E].
      * rewrite decide_True by (by apply Hfl). unfold map_entry. rewrite E.
        replace (a / PGSIZE * PGSIZE - a) with 0 by (pose proof (Z.div_mod a PGSIZE ltac:(done)); plia).
        by rewrite Z.add_0_r.
      * rewrite decide_False; [done|]. by rewrite Hfl.
    + eapply Hfail; [exact Hg|]. intros va Hva. rewrite (Hm va Hva).
      assert (k = 0%nat) as -> by lia. by rewrite decide_False by lia.
Qed.

Lemma page_entry_fields p perm : pa_page p → 0 ≤ perm < PGSIZE →
  present (page_entry p perm) = true ∧ P2V (PTE_ADDR (page_entry p perm)) = p ∧
  PTE_FLAGS (page_entry p perm) = Z.lor perm PTE_P.
Proof.
  intros Hp Hperm. destruct (pa_page_range p Hp) as [Hpm Hpr].
  assert (HV : V2P p = p - KERNBASE) by (apply V2P_kern; unfold PHYSTOP, KERNBASE, two32 in *; lia).
  destruct (entry_fields (V2P p) perm) as (_ & _ & Ha & Hfl & Hpre); rewrite ?HV.
  - lia.
  - unfold PHYSTOP, PGSIZE, two32, KERNBASE in *. lia.
  - by rewrite Zminus_mod, Hpm.
  - done.
  - rewrite HV in *. unfold page_entry. rewrite HV, Ha, Hfl, Hpre. split; [done|]. split; [|done].
    rewrite <- HV. apply P2V_V2P. unfold PHYSTOP, KERNBASE, two32 in *. lia.
Qed.

(** The entry of a page of the user. *)
Lemma user_page_entry p : pa_page p → page_entry p (Z.lor PTE_W PTE_U) = V2P p + 7.
Proof.
  intros Hp. destruct (pa_page_range p Hp) as [Hpm Hpr].
  assert (HV : V2P p = p - KERNBASE) by (apply V2P_kern; unfold PHYSTOP, KERNBASE, two32 in *; lia).
  unfold page_entry. rewrite <-Z.lor_assoc. apply lor_flags; [|done]. by rewrite HV, Zminus_mod, Hpm.
Qed.

Lemma user_entry p : pa_page p →
  present (V2P p + 7) = true ∧ P2V (PTE_ADDR (V2P p + 7)) = p.
Proof. intros Hp. destruct (page_entry_fields p (Z.lor PTE_W PTE_U)) as (? & ? & _); [done..|]. by rewrite <- user_page_entry. Qed.

(** Giving back a page that is not used. *)
Lemma give_back s l pgdir p (Q : unit → S → Prop) :
  space_ok s l pgdir → in_hand s l pgdir p →
  (∀ s', space_ok s' (p :: l) pgdir →
     (∀ va, pte_of (pa_ram s') pgdir va = pte_of (pa_ram s) pgdir va) →
     (∀ q, owns (pa_ram s') pgdir q ↔ owns (pa_ram s) pgdir q) →
     (∀ x, ¬ in_page p x → pa_ram s' x = pa_ram s x) → Q tt s') →
  returns (pa_kfree p) s Q.
Proof.
  intros Hsp [Hp Hl Ho Hf] HQ. pose proof (sp_as _ _ _ Hsp) as Has. pose proof (as_table _ _ _ Has) as Hpt.
  eapply returns_mono; [apply (pa_kfree_ok s l p); [apply Has|done|done]|]. intros [] s' [Hok Hm].
  assert (Hm' : ∀ q x, owns (pa_ram s) pgdir q → in_page q x → pa_ram s' x = pa_ram s x).
  { intros q x Hq Hx. apply Hm. intros Hpx. apply Ho.
    by rewrite (pages_apart p q x Hp (owns_page _ _ _ Hpt Hq) Hpx Hx). }
  pose proof (pte_same _ _ _ Hm') as Hpte. pose proof (owns_same _ _ _ Hm') as Hown.
  assert (Hfr : ∀ va, frame (pa_ram s') pgdir va = frame (pa_ram s) pgdir va)
    by (intros va; unfold frame; by rewrite Hpte).
  apply HQ; [|done..]. split.
  - split; [done|by eapply pt_ok_same|]. intros q Hq%Hown [->|?]%elem_of_cons; [done|].
    by apply (as_apart _ _ _ Has q).
  - intros va f Hva. rewrite Hfr. intros Hfa. destruct (sp_frame _ _ _ Hsp va f Hva Hfa) as (? & ? & ?).
    split; [done|]. rewrite Hown. split; [|done]. intros [->|?]%elem_of_cons; [|done]. by apply (Hf va Hva).
  - intros va va' f Hva Hva'. rewrite !Hfr. by apply (sp_inj _ _ _ Hsp).
Qed.

(** The pages from [lo] up to [a] have been mapped to [frames], with [tabs] as new
    page tables; the pages [held] are allocated and not used yet. *)
Record allocating (pgdir lo : Z) (s : S) (l : list Z) (a : Z) (tabs frames held : list Z) (s' : S) (l' : list Z) : Prop := {
  ag_space : space_ok s' l' pgdir;
  ag_free : l ≡ₚ tabs ++ frames ++ held ++ l';
  ag_owns : ∀ p, owns (pa_ram s') pgdir p ↔ owns (pa_ram s) pgdir p ∨ p ∈ tabs;
  ag_in : ∀ va, 0 ≤ va < two32 → lo ≤ va / PGSIZE * PGSIZE < a →
    ∃ f, f ∈ frames ∧ pte_of (pa_ram s') pgdir va = V2P f + 7;
  ag_out : ∀ va, 0 ≤ va < two32 → ¬ (lo ≤ va / PGSIZE * PGSIZE < a) →
    pte_of (pa_ram s') pgdir va = pte_of (pa_ram s) pgdir va;
  ag_frames : ∀ f, f ∈ frames →
    ∃ va, 0 ≤ va < KERNBASE ∧ lo ≤ va / PGSIZE * PGSIZE < a ∧ frame (pa_ram s') pgdir va = Some f;
  ag_zero : ∀ f x, f ∈ frames → in_page f x → pa_ram s' x = 0
}.

(** What [allocuvm] leaves when it gives up: the page tables it made, no pages. *)
Definition alloc_failed (pgdir : Z) (s : S) (l : list Z) (s' : S) : Prop :=
  ∃ tabs l', l ≡ₚ tabs ++ l' ∧ space_ok s' l' pgdir ∧
    (∀ p, owns (pa_ram s') pgdir p ↔ owns (pa_ram s) pgdir p ∨ p ∈ tabs) ∧
    ∀ va, 0 ≤ va < two32 → pte_of (pa_ram s') pgdir va = pte_of (pa_ram s) pgdir va.

(** Undoing the allocation frees exactly the pages that were mapped. *)
Lemma alloc_undo pgdir lo hi s l a tabs frames held s1 l1 fs s2 :
  allocating pgdir lo s l a tabs frames held s1 l1 → NoDup l → a ≤ KERNBASE →
  (∀ va, 0 ≤ va < two32 → lo ≤ va / PGSIZE * PGSIZE < hi → pte_of (pa_ram s) pgdir va = 0) →
  (∀ va, 0 ≤ va < KERNBASE → lo ≤ va / PGSIZE * PGSIZE < a → va / PGSIZE * PGSIZE < hi) →
  unmapped pgdir lo hi s1 l1 fs s2 →
  fs ≡ₚ frames ∧ ∀ va, 0 ≤ va < two32 → pte_of (pa_ram s2) pgdir va = pte_of (pa_ram s) pgdir va.
Proof.
  intros Hag Hnd HaK Hz Hahi Hum. split.
  - apply NoDup_Permutation.
    + destruct (pa_ok_pages _ _ (as_alloc _ _ _ (sp_as _ _ _ (um_space _ _ _ _ _ _ _ Hum)))) as [_ Hn].
      by apply NoDup_app in Hn as (? & _ & _).
    + rewrite (ag_free _ _ _ _ _ _ _ _ _ _ Hag) in Hnd. apply NoDup_app in Hnd as (_ & _ & Hnd).
      by apply NoDup_app in Hnd as (? & _ & _).
    + intros f. rewrite (um_frames _ _ _ _ _ _ _ Hum). split.
      * intros (va & Hva & Hr & Hf). assert (Hva' : 0 ≤ va < two32) by (unfold KERNBASE, two32 in *; lia).
        destruct (decide (va / PGSIZE * PGSIZE < a)).
        -- destruct (ag_in _ _ _ _ _ _ _ _ _ _ Hag va Hva' ltac:(lia)) as (g & Hg & Hpte).
           assert (pa_page g) as Hgp.
           { destruct (ag_frames _ _ _ _ _ _ _ _ _ _ Hag g Hg) as (vb & Hvb & _ & Hfb).
             by apply (sp_frame _ _ _ (ag_space _ _ _ _ _ _ _ _ _ _ Hag) vb g). }
           destruct (user_entry g Hgp) as [E1 E2]. unfold frame in Hf. rewrite Hpte, E1, E2 in Hf. by simplify_eq.
        -- unfold frame in Hf. rewrite (ag_out _ _ _ _ _ _ _ _ _ _ Hag), Hz in Hf; [done|done|lia|done|lia].
      * intros Hf. destruct (ag_frames _ _ _ _ _ _ _ _ _ _ Hag f Hf) as (va & Hva & Hr & Hfr).
        exists va. split; [done|]. split; [|done]. specialize (Hahi va Hva Hr). lia.
  - intros va Hva. rewrite (um_pte _ _ _ _ _ _ _ Hum) by done. case_decide as Hd.
    + destruct Hd as [Hr _]. by rewrite Hz.
    + destruct (decide (lo ≤ va / PGSIZE * PGSIZE < a)) as [Hr|Hr]; [|by apply (ag_out _ _ _ _ _ _ _ _ _ _ Hag)].
      destruct (ag_in _ _ _ _ _ _ _ _ _ _ Hag va Hva Hr) as (f & Hf & Hpte).
      destruct (ag_frames _ _ _ _ _ _ _ _ _ _ Hag f Hf) as (vb & Hvb & _ & Hfb).
      destruct (sp_frame _ _ _ (ag_space _ _ _ _ _ _ _ _ _ _ Hag) vb f Hvb Hfb) as (Hfp & _).
      destruct Hd. split; [|rewrite Hpte; by apply user_entry].
      split; [lia|]. apply Hahi; [|done].
      pose proof (Z.div_mod va PGSIZE ltac:(done)). pose proof (Z.mod_pos_bound va PGSIZE ltac:(done)).
      assert (KERNBASE mod PGSIZE = 0) by done. pose proof (Z.div_mod KERNBASE PGSIZE ltac:(done)). plia.
Qed.

(** The page at the head of the free list is taken and cleared. *)
Lemma alloc_take pgdir lo s l a tabs frames s1 p l2 s1' :
  allocating pgdir lo s l a tabs frames [] s1 (p :: l2) →
  pa_ok s1' l2 → pa_ram s1' = pa_ram s1 →
  let s2 := pa_write (memset p 0 PGSIZE (pa_ram s1')) s1' in
  allocating pgdir lo s l a tabs frames [p] s2 l2 ∧ in_hand s2 l2 pgdir p ∧
  ∀ x, in_page p x → pa_ram s2 x = 0.
Proof.
  intros Hag Hok Hram s2.
  destruct (take_page s1 p l2 pgdir s1' (memset p 0 PGSIZE (pa_ram s1')) (ag_space _ _ _ _ _ _ _ _ _ _ Hag) Hok Hram)
    as (Hsp2 & Hih & Hpte & Hown).
  { intros x Hx. rewrite memset_spec, Hram by done. unfold in_range. case_match eqn:E; [|done].
    exfalso. apply Hx. unfold in_page. lia. }
  fold s2 in Hsp2, Hih, Hpte, Hown. split; [|split; [done|]].
  - split; [done|by rewrite (ag_free _ _ _ _ _ _ _ _ _ _ Hag)| | | | |].
    + intros q. rewrite Hown. apply Hag.
    + intros va. rewrite Hpte. apply Hag.
    + intros va. rewrite Hpte. apply Hag.
    + intros f Hf. destruct (ag_frames _ _ _ _ _ _ _ _ _ _ Hag f Hf) as (va & ?). exists va.
      unfold frame. by rewrite Hpte.
    + intros f x Hf Hx. unfold s2. rewrite pa_ram_write, memset_spec by done. case_match; [done|].
      rewrite Hram. by apply (ag_zero _ _ _ _ _ _ _ _ _ _ Hag f).
  - intros x Hx. unfold s2. rewrite pa_ram_write, memset_spec by done.
    assert (in_range p PGSIZE x = true) as -> by (unfold in_range, in_page in *; lia). done.
Qed.

(** New page tables leave the pages alone. *)
Lemma grew_page pgdir s2 l2 new s3 l3 f x :
  grew pgdir s2 l2 new s3 l3 →
  pa_page f → ¬ owns (pa_ram s2) pgdir f → f ∉ l2 → in_page f x → pa_ram s3 x = pa_ram s2 x.
Proof.
  intros Hg Hf Ho Hl Hx. apply (gr_mem _ _ _ _ _ _ Hg). intros q Hq Hqx.
  assert (pa_page q) as Hqp by (eapply owns_page; [apply (as_table _ _ _ (gr_as _ _ _ _ _ _ Hg))|done]).
  rewrite (pages_apart q f x Hqp Hf Hqx Hx) in Hq.
  apply (gr_owns _ _ _ _ _ _ Hg) in Hq as [?|Hq]; [done|]. apply Hl.
  rewrite (gr_free _ _ _ _ _ _ Hg). set_solver.
Qed.

(** Mapping failed: only page tables were added. *)
Lemma alloc_unmapped pgdir lo s l a tabs frames held s2 l2 new s3 l3 :
  allocating pgdir lo s l a tabs frames held s2 l2 → grew pgdir s2 l2 new s3 l3 →
  (∀ va, 0 ≤ va < two32 → pte_of (pa_ram s3) pgdir va = pte_of (pa_ram s2) pgdir va) →
  allocating pgdir lo s l a (tabs ++ new) frames held s3 l3.
Proof.
  intros Hag Hg Hpte. pose proof (ag_space _ _ _ _ _ _ _ _ _ _ Hag) as Hsp2.
  assert (Hfr : ∀ va, 0 ≤ va < KERNBASE → frame (pa_ram s3) pgdir va = frame (pa_ram s2) pgdir va)
    by (intros va Hva; unfold frame; rewrite Hpte by (unfold KERNBASE, two32 in *; lia); done).
  assert (Hnew : ∀ q, q ∈ l3 ∨ q ∈ new → q ∈ l2) by (intros q; rewrite (gr_free _ _ _ _ _ _ Hg); set_solver).
  split.
  - split; [apply Hg| |].
    + intros va f Hva. rewrite Hfr by done. intros Hf. destruct (sp_frame _ _ _ Hsp2 va f Hva Hf) as (? & Hn & Ho).
      split; [done|]. split; [auto|]. intros [?|?]%(gr_owns _ _ _ _ _ _ Hg); auto.
    + intros va va' f Hva Hva'. rewrite !Hfr by done. by apply (sp_inj _ _ _ Hsp2).
  - rewrite (ag_free _ _ _ _ _ _ _ _ _ _ Hag), (gr_free _ _ _ _ _ _ Hg). solve_Permutation.
  - intros q. rewrite (gr_owns _ _ _ _ _ _ Hg), (ag_owns _ _ _ _ _ _ _ _ _ _ Hag), elem_of_app. tauto.
  - intros va Hva. rewrite Hpte by done. by apply Hag.
  - intros va Hva. rewrite Hpte by done. by apply Hag.
  - intros f Hf. destruct (ag_frames _ _ _ _ _ _ _ _ _ _ Hag f Hf) as (va & ? & ? & ?). exists va. by rewrite Hfr.
  - intros f x Hf Hx. destruct (ag_frames _ _ _ _ _ _ _ _ _ _ Hag f Hf) as (va & Hva & _ & Hfr').
    destruct (sp_frame _ _ _ Hsp2 va f Hva Hfr') as (? & ? & ?).
    rewrite (grew_page _ _ _ _ _ _ f x Hg) by done. by apply (ag_zero _ _ _ _ _ _ _ _ _ _ Hag f).
Qed.

(** Mapping succeeded: the page in hand is the frame of page [a]. *)
Lemma alloc_mapped pgdir lo s l a tabs frames p s2 l2 new s3 l3 :
  allocating pgdir lo s l a tabs frames [p] s2 l2 → in_hand s2 l2 pgdir p →
  (∀ x, in_page p x → pa_ram s2 x = 0) → grew pgdir s2 l2 new s3 l3 →
  lo ≤ a → lo mod PGSIZE = 0 → a mod PGSIZE = 0 → 0 ≤ a < KERNBASE →
  (∀ va, 0 ≤ va < two32 → pte_of (pa_ram s3) pgdir va =
     if decide (va / PGSIZE = a / PGSIZE) then V2P p + 7 else pte_of (pa_ram s2) pgdir va) →
  allocating pgdir lo s l (a + PGSIZE) (tabs ++ new) (p :: frames) [] s3 l3.
Proof.
  intros Hag Hih Hp0 Hg Hla Hlm Ham Ha Hpte. pose proof (ag_space _ _ _ _ _ _ _ _ _ _ Hag) as Hsp2.
  destruct (user_entry p (ih_page _ _ _ _ Hih)) as [Hpr Hpa].
  assert (Hfl : ∀ va, (va / PGSIZE = a / PGSIZE ↔ va / PGSIZE * PGSIZE = a)).
  { intros va. pose proof (Z.div_mod a PGSIZE ltac:(done)). plia. }
  assert (Hstep : ∀ va, va / PGSIZE * PGSIZE ≠ a →
    (lo ≤ va / PGSIZE * PGSIZE < a + PGSIZE ↔ lo ≤ va / PGSIZE * PGSIZE < a)).
  { intros va. pose proof (Z.div_mod a PGSIZE ltac:(done)). plia. }
  split.
  - by eapply (space_map s2 l2 new s3 l3 pgdir a p (V2P p + 7)).
  - rewrite (ag_free _ _ _ _ _ _ _ _ _ _ Hag), (gr_free _ _ _ _ _ _ Hg). solve_Permutation.
  - intros q. rewrite (gr_owns _ _ _ _ _ _ Hg), (ag_owns _ _ _ _ _ _ _ _ _ _ Hag), elem_of_app. tauto.
  - intros va Hva Hr. rewrite Hpte by done. case_decide as Hd.
    + exists p. split; [left|done].
    + rewrite Hfl in Hd. rewrite Hstep in Hr by done.
      destruct (ag_in _ _ _ _ _ _ _ _ _ _ Hag va Hva Hr) as (f & ? & ?). exists f. split; [by right|done].
  - intros va Hva Hr. rewrite Hpte by done. rewrite decide_False by (rewrite Hfl; intros E; apply Hr; rewrite E; plia).
    apply (ag_out _ _ _ _ _ _ _ _ _ _ Hag); [done|plia].
  - assert (Hp32 : ∀ va, 0 ≤ va < KERNBASE → 0 ≤ va < two32) by (unfold KERNBASE, two32 in *; lia).
    intros f [->|Hf]%elem_of_cons.
    + exists a. assert (a / PGSIZE * PGSIZE = a) as -> by (by apply Hfl). split; [done|]. split; [plia|].
      unfold frame. by rewrite Hpte, decide_True, Hpr, Hpa by auto.
    + destruct (ag_frames _ _ _ _ _ _ _ _ _ _ Hag f Hf) as (va & ? & ? & ?). exists va. split; [done|]. split; [plia|].
      unfold frame. rewrite Hpte, decide_False; [done|rewrite Hfl; lia|auto].
  - intros f x Hf Hx. assert (pa_page f ∧ (f ∉ l2) ∧ ¬ owns (pa_ram s2) pgdir f ∧ pa_ram s2 x = 0) as (? & ? & ? & E).
    { apply elem_of_cons in Hf as [->|Hf]; [destruct Hih; auto|].
      destruct (ag_frames _ _ _ _ _ _ _ _ _ _ Hag f Hf) as (va & Hva & _ & Hfr).
      destruct (sp_frame _ _ _ Hsp2 va f Hva Hfr) as (? & ? & ?).
      split_and!; [done..|]. by apply (ag_zero _ _ _ _ _ _ _ _ _ _ Hag f). }
    by rewrite (grew_page _ _ _ _ _ _ f x Hg).
Qed.

(** The pages asked for are not mapped yet. *)
Definition unused (m : mem) (pgdir oldsz newsz : Z) : Prop :=
  ∀ va, 0 ≤ va < two32 → PGROUNDUP oldsz ≤ va / PGSIZE * PGSIZE < newsz → pte_of m pgdir va = 0.

Lemma alloc_abort pgdir oldsz newsz s l a tabs frames held s1 l1 (Q : Z → S → Prop) :
  allocating pgdir (PGROUNDUP oldsz) s l a tabs frames held s1 l1 → NoDup l →
  0 ≤ oldsz < newsz → a < newsz → newsz < KERNBASE → unused (pa_ram s) pgdir oldsz newsz →
  (∀ fs s2, unmapped pgdir (PGROUNDUP oldsz) newsz s1 l1 fs s2 → fs ≡ₚ frames →
     (∀ va, 0 ≤ va < two32 → pte_of (pa_ram s2) pgdir va = pte_of (pa_ram s) pgdir va) → Q oldsz s2) →
  returns (deallocuvm pgdir newsz oldsz) s1 Q.
Proof.
  intros Hag Hnd Ho Ha Hn Hz HQ.
  apply (deallocuvm_ok pgdir s1 l1); [apply Hag|lia|lia|]. intros fs s2 Hum.
  destruct (alloc_undo _ _ newsz _ _ _ _ _ _ _ _ _ _ Hag Hnd ltac:(lia) Hz ltac:(lia) Hum) as [Hfs Hpte].
  by eapply HQ.
Qed.

(** No page is left: what was allocated is freed again. *)
Lemma alloc_no_page pgdir oldsz newsz s l a tabs frames s1 :
  allocating pgdir (PGROUNDUP oldsz) s l a tabs frames [] s1 [] → NoDup l →
  0 ≤ oldsz < newsz → a < newsz → newsz < KERNBASE → unused (pa_ram s) pgdir oldsz newsz →
  returns (deallocuvm pgdir newsz oldsz) s1 (λ _ s', alloc_failed pgdir s l s').
Proof.
  intros Hag Hnd Ho Ha Hn Hz. eapply alloc_abort; [done..|]. intros fs s2 Hum Hfs Hpte.
  exists tabs, (fs ++ []). split; [by rewrite Hfs, (ag_free _ _ _ _ _ _ _ _ _ _ Hag)|].
  split; [apply Hum|]. split; [|done]. intros q. rewrite (um_owns _ _ _ _ _ _ _ Hum). apply Hag.
Qed.

(** No page table could be allocated: the page in hand is freed as well. *)
Lemma alloc_no_table pgdir oldsz newsz s l a tabs frames p s1 :
  allocating pgdir (PGROUNDUP oldsz) s l a tabs frames [p] s1 [] → in_hand s1 [] pgdir p → NoDup l →
  0 ≤ oldsz < newsz → a < newsz → newsz < KERNBASE → unused (pa_ram s) pgdir oldsz newsz →
  returns (_ ← deallocuvm pgdir newsz oldsz; _ ← pa_kfree p; mret 0) s1 (λ r s', r = 0 ∧ alloc_failed pgdir s l s').
Proof.
  intros Hag Hih Hnd Ho Ha Hn Hz. apply returns_bind. eapply alloc_abort; [done..|]. intros fs s2 Hum Hfs Hpte.
  assert (Hfr : ∀ va, 0 ≤ va < KERNBASE → frame (pa_ram s2) pgdir va ≠ Some p).
  { intros va Hva. unfold frame. rewrite (um_pte _ _ _ _ _ _ _ Hum) by (unfold KERNBASE, two32 in *; lia).
    case_decide; [done|]. by apply (ih_frame _ _ _ _ Hih). }
  assert (Hpf : p ∉ fs).
  { rewrite (um_frames _ _ _ _ _ _ _ Hum). intros (va & Hva & _ & Hf). by apply (ih_frame _ _ _ _ Hih va Hva). }
  apply returns_bind, (give_back s2 (fs ++ []) pgdir p); [apply Hum| |].
  - split; [apply Hih|set_solver|rewrite (um_owns _ _ _ _ _ _ _ Hum); apply Hih|done].
  - intros s3 Hsp3 Hpte3 Hown3 _. mgo. split; [done|]. exists tabs, (p :: fs ++ []).
    split; [by rewrite Hfs, (ag_free _ _ _ _ _ _ _ _ _ _ Hag); solve_Permutation|]. split; [done|].
    split; [intros q; rewrite Hown3, (um_owns _ _ _ _ _ _ _ Hum); apply Hag|].
    intros va Hva. by rewrite Hpte3, Hpte.
Qed.

Definition alloc_post (pgdir oldsz newsz : Z) (s : S) (l : list Z) (r : Z) (s' : S) : Prop :=
  (r = newsz ∧ ∃ a tabs frames l', newsz ≤ a ∧ a < newsz + PGSIZE ∧
     allocating pgdir (PGROUNDUP oldsz) s l a tabs frames [] s' l') ∨
  (r = 0 ∧ alloc_failed pgdir s l s').

Lemma allocuvm_loop_ok pgdir oldsz newsz s l fuel : ∀ a tabs frames s1 l1,
  allocating pgdir (PGROUNDUP oldsz) s l a tabs frames [] s1 l1 → NoDup l →
  0 ≤ oldsz < newsz → PGROUNDUP oldsz ≤ a < newsz + PGSIZE → a mod PGSIZE = 0 → PGROUNDUP oldsz mod PGSIZE = 0 →
  newsz < KERNBASE → unused (pa_ram s) pgdir oldsz newsz →
  newsz ≤ a + Z.of_nat fuel * PGSIZE →
  returns (allocuvm_loop fuel pgdir a oldsz newsz) s1 (alloc_post pgdir oldsz newsz s l).
Proof.
  induction fuel as [|fuel IH]; intros a tabs frames s1 l1 Hag Hnd Ho Ha Ham Hlm Hn Hz Hfuel; cbn [allocuvm_loop];
    destruct (newsz <=? a) eqn:Hdone; try (apply returns_ret; left; split; [done|]; exists a, tabs, frames, l1; split_and!; [lia|lia|done]); [lia|].
  pose proof (as_alloc _ _ _ (sp_as _ _ _ (ag_space _ _ _ _ _ _ _ _ _ _ Hag))) as Hok.
  mgo. eapply returns_mono; [by apply pa_kalloc_ok|]. intros mem s1' Hk.
  destruct l1 as [|p l2].
  { destruct Hk as [-> ->]. cbn. mgo. eapply returns_mono; [eapply (alloc_no_page _ _ _ _ _ _ _ _ _ Hag); try done; lia|].
    intros ? s' Hf. apply returns_ret. by right. }
  destruct Hk as (-> & Hok' & Hram). destruct (pa_ok_pages _ _ Hok) as [Hpg _]. apply Forall_cons in Hpg as [Hp _].
  destruct (pa_page_range p Hp) as [Hpm Hpr]. rewrite (proj2 (Z.eqb_neq p 0)) by (unfold KERNBASE in *; lia).
  destruct (alloc_take _ _ _ _ _ _ _ _ _ _ _ Hag Hok' Hram) as (Hag2 & Hih & Hp0).
  unfold do_memset. mgo. set (s2 := pa_write _ _) in *.
  assert (Hfl : a / PGSIZE * PGSIZE = a) by (pose proof (Z.div_mod a PGSIZE ltac:(done)); plia).
  apply (mappages_page pgdir a p _ s2 l2); [apply (ag_space _ _ _ _ _ _ _ _ _ _ Hag2)|done| |done|done| | |].
  - pose proof (PGROUNDUP_spec oldsz). unfold KERNBASE, two32, PGSIZE in *. lia.
  - rewrite (ag_out _ _ _ _ _ _ _ _ _ _ Hag2), Hz; [done|..]; rewrite ?Hfl;
      pose proof (PGROUNDUP_spec oldsz); unfold KERNBASE, two32, PGSIZE in *; lia.
  - intros new l3 s3 Hg Hpte. rewrite user_page_entry in Hpte by done. mgo.
    assert (Ha0 : 0 ≤ a) by (pose proof (PGROUNDUP_spec oldsz); unfold KERNBASE, two32, PGSIZE in *; lia).
    rewrite u32_small by (unfold KERNBASE, two32, PGSIZE in *; lia).
    eapply IH; [by eapply alloc_mapped; try done; lia| | | | | | | |]; try done; try plia.
    by rewrite <-Zplus_mod_idemp_l, Ham.
  - intros new s3 Hg Hpte. change (-1 <? 0) with true. cbn match.
    eapply returns_mono; [eapply (alloc_no_table _ _ _ _ _ _ _ _ p); [by eapply (alloc_unmapped _ _ _ _ a)|..]; try done; try lia|].
    + split; [apply Hih|apply not_elem_of_nil| |].
      * intros [?|Hin]%(gr_owns _ _ _ _ _ _ Hg); [by apply (ih_owns _ _ _ _ Hih)|]. apply (ih_free _ _ _ _ Hih).
        rewrite (gr_free _ _ _ _ _ _ Hg). set_solver.
      * intros va Hva. unfold frame. rewrite Hpte by (unfold KERNBASE, two32 in *; lia). by apply (ih_frame _ _ _ _ Hih).
    + intros r s' [-> ?]. by right.
Qed.

(** C20: [allocuvm] grows a process from [oldsz] to [newsz], below the kernel and
    over pages that are not mapped: it returns, and either with [newsz], every
    page from [PGROUNDUP oldsz] up to [newsz] being mapped, user-accessible and
    writable, to a page of zeros of its own that was free before; or with 0 and
    every entry as before, where every page it took but those that became page
    tables is free again.  Nothing is leaked, and no other entry changes. *)
Theorem allocuvm_grows pgdir oldsz newsz s l :
  space_ok s l pgdir → 0 ≤ oldsz ≤ newsz → newsz < KERNBASE → unused (pa_ram s) pgdir oldsz newsz →
  returns (allocuvm pgdir oldsz newsz) s (alloc_post pgdir oldsz newsz s l).
Proof.
  intros Hsp Ho Hn Hz. unfold allocuvm.
  rewrite (proj2 (Z.leb_gt _ _)), (proj2 (Z.ltb_ge _ _)) by lia.
  destruct (PGROUNDUP_spec oldsz) as [Hm Hr]; [lia|unfold KERNBASE, PGSIZE, two32 in *; lia|].
  assert (Hag : allocating pgdir (PGROUNDUP oldsz) s l (PGROUNDUP oldsz) [] [] [] s l).
  { split; try done; try set_solver. lia. }
  assert (HN : Z.of_nat NPAGES = 1048576) by (unfold NPAGES; lia). revert HN. generalize NPAGES as fuel. intros fuel HN.
  destruct (decide (oldsz = newsz)) as [->|Hne].
  - destruct fuel; cbn [allocuvm_loop]; [lia|]. rewrite (proj2 (Z.leb_le _ _)) by lia.
    apply returns_ret. left. split; [done|]. exists (PGROUNDUP newsz), [], [], l. split_and!; [lia|lia|done].
  - eapply allocuvm_loop_ok; try done; try lia.
    + by destruct (pa_ok_pages _ _ (as_alloc _ _ _ (sp_as _ _ _ Hsp))).
    + rewrite HN. unfold KERNBASE, PGSIZE in *. lia.
Qed.
End User.

(** ** A concrete address space: a directory with no tables beside two free pages. *)

Definition demo_pgdir : Z := 2149588992.

Lemma kernlink_above : KERNBASE < KERNLINK.
Proof. done. Qed.

#[local] Instance demo_pages : PageAlloc kmem := kalloc_pages KERNLINK kernlink_above.

Lemma demo_no_tab d : 0 ≤ d < 1024 → tab (ram demo_kmem) demo_pgdir d = None.
Proof.
  intros Hd. unfold tab. rewrite (load32_ext (λ _, 0)); [done|].
  intros i Hi. cbn [ram demo_kmem].
  rewrite !store32_other; [done|unfold demo_p1, demo_p2, demo_pgdir; lia..].
Qed.

Lemma demo_no_pte va : 0 ≤ va < two32 → pte_of (ram demo_kmem) demo_pgdir va = 0.
Proof. intros Hva. unfold pte_of. by rewrite demo_no_tab by apply PDX_range. Qed.

Lemma demo_space : space_ok demo_kmem [demo_p1; demo_p2] demo_pgdir.
Proof.
  assert (Hfr : ∀ va, 0 ≤ va < KERNBASE → frame (ram demo_kmem) demo_pgdir va = None).
  { intros va Hva. unfold frame. rewrite demo_no_pte by (unfold KERNBASE, two32 in *; lia). done. }
  split; [|intros va f Hva H; exfalso; revert H|intros va va' f Hva Hva' H; exfalso; revert H];
    try (change (frame (ram demo_kmem) demo_pgdir va = Some f → False); by rewrite Hfr).
  split.
  - destruct demo_kmem_ok. split; try done. repeat constructor; unfold page; by vm_compute.
  - split; [cbn [pa_page demo_pages kalloc_pages]; unfold page; by vm_compute|..];
      intros d; change (pa_ram demo_kmem) with (ram demo_kmem); intros; by rewrite demo_no_tab in *.
  - intros p [->|(d & Hd & Ht)]; change (pa_ram demo_kmem) with (ram demo_kmem) in *; [|by rewrite demo_no_tab in Ht].
    rewrite !elem_of_cons, elem_of_nil. intros [?|[?|?]]; done.
Qed.

Lemma allocuvm_grows_witness :
  returns (allocuvm demo_pgdir 0 100) demo_kmem (alloc_post demo_pgdir 0 100 demo_kmem [demo_p1; demo_p2]).
Proof.
  apply (allocuvm_grows demo_pgdir 0 100 demo_kmem [demo_p1; demo_p2] demo_space); [lia|done|].
  intros va Hva _. exact (demo_no_pte va Hva).
Defined.

Lemma mappages_maps_witness :
  returns (mappages demo_pgdir 4196 100 8192 PTE_W) demo_kmem
    (map_post demo_pgdir 4096 8192 PTE_W 1 demo_kmem [demo_p1; demo_p2]).
Proof.
  apply (mappages_maps demo_kmem [demo_p1; demo_p2] demo_pgdir 4196 100 8192 PTE_W); try done; try lia.
  - apply demo_space.
  - intros va' Hva. change (present (pte_of (ram demo_kmem) demo_pgdir va') = false).
    rewrite demo_no_pte; [done|]. unfold two32. change (4096 ≤ va' < 8192) in Hva. lia.
Defined.
