(* ===== verification/VmCopy.v ===== *)
(** Whole address spaces (freevm, setupkvm, copyuvm): what a process is given when
    it starts, and what is given back when it ends. *)

From S2P Require Import Prelude Layout CString Kalloc PageAlloc Vm VmMap VmUser.

Section Copy.
Context {S : Type} `{PA : PageAlloc S}.

(** The physical pages of the user part. *)
Definition user_page (m : mem) (pgdir p : Z) : Prop := ∃ va, 0 ≤ va < KERNBASE ∧ frame m pgdir va = Some p.

(** ** Freeing an address space *)

Lemma for_tables_ok pgdir m1 n : ∀ i s l,
  pt_ok m1 pgdir → 0 ≤ i → i + Z.of_nat n = 1024 → pa_ok s l → (∀ x, in_page pgdir x → pa_ram s x = m1 x) →
  (∀ k t, i ≤ k < 1024 → tab m1 pgdir k = Some t → t ∉ l) →
  returns (for_ n i (λ i, e ← ld (pgdir + 4 * i); when (present e) (pa_kfree (P2V (PTE_ADDR e))))) s (λ _ s',
    ∃ l', pa_ok s' l' ∧ (∀ p, p ∈ l' ↔ p ∈ l ∨ ∃ k, i ≤ k < 1024 ∧ tab m1 pgdir k = Some p) ∧
      ∀ x, (∀ k t, i ≤ k < 1024 → tab m1 pgdir k = Some t → ¬ in_page t x) → pa_ram s' x = pa_ram s x).
Proof.
  induction n as [|n IH]; intros i s l Hpt Hi Hn Hok Hdir Hfree; cbn [for_].
  { apply returns_ret. exists l. split; [done|]. split; [|done]. intros p. split; [by left|].
    intros [?|(k & Hk & _)]; [done|lia]. }
  apply returns_bind. unfold ld. apply returns_bind, returns_gets.
  assert (Et : tab m1 pgdir i = tab (pa_ram s) pgdir i) by (symmetry; apply tab_ext; [lia|done]).
  unfold tab in Et at 2. destruct (present (load32 (pa_ram s) (pgdir + 4 * i))); cbn [when].
  - set (t := P2V _) in *. destruct (pt_tab _ _ Hpt i t ltac:(lia) Et) as [Htp Htd].
    eapply returns_mono; [apply (pa_kfree_ok s l t); [done..|by apply (Hfree i); [lia|]]|]. intros [] s1 [Hok1 Hm1].
    eapply returns_mono; [apply (IH (i + 1) s1 (t :: l)); [done|lia|lia|done|..]|].
    + intros x Hx. rewrite Hm1; [by apply Hdir|]. intros Hxt. apply Htd. by apply (pages_apart t pgdir x Htp (pt_dir _ _ Hpt)).
    + intros k t' Hk Ht' [->|Hin]%elem_of_cons; [|by eapply Hfree, Hin; [|exact Ht']; lia].
      assert (k = i); [|lia]. by apply (pt_inj _ _ Hpt k i t); [lia|lia|..].
    + intros [] s2 (l' & Hok2 & Hl & Hm2). exists l'. split; [done|]. split.
      * intros p. rewrite Hl, elem_of_cons. split.
        -- intros [[->|?]|(k & ? & ?)]; [right; exists i; split; [lia|done]|by left|right; exists k; split; [lia|done]].
        -- intros [?|(k & ? & Hkt)]; [by left; right|]. destruct (decide (k = i)) as [->|]; [left; left; congruence|].
           right. exists k. split; [lia|done].
      * intros x Hx. rewrite Hm2 by (intros k t' Hk; apply Hx; lia). apply Hm1. by apply (Hx i); [lia|].
  - apply returns_ret. eapply returns_mono; [apply (IH (i + 1) s l); [done|lia|lia|done|done|]|].
    + intros k t' Hk. apply Hfree. lia.
    + intros [] s2 (l' & Hok2 & Hl & Hm2). exists l'. split; [done|]. split.
      * intros p. rewrite Hl. split; (intros [?|(k & ? & Hkt)]; [by left|right; exists k]); (split; [|done]); [lia|].
        destruct (decide (k = i)) as [->|]; [congruence|lia].
      * intros x Hx. apply Hm2. intros k t' Hk. apply Hx. lia.
Qed.

(** The pages an address space consists of. *)
Definition space_page (m : mem) (pgdir p : Z) : Prop := owns m pgdir p ∨ user_page m pgdir p.

Lemma freevm_ok pgdir s l : space_ok s l pgdir →
  returns (freevm pgdir) s (λ _ s', ∃ l', pa_ok s' l' ∧
    (∀ p, p ∈ l' ↔ p ∈ l ∨ space_page (pa_ram s) pgdir p) ∧
    ∀ x, (∀ p, space_page (pa_ram s) pgdir p → ¬ in_page p x) → pa_ram s' x = pa_ram s x).
Proof.
  intros Hsp. pose proof (as_table _ _ _ (sp_as _ _ _ Hsp)) as Hpt.
  destruct (pa_page_range pgdir (pt_dir _ _ Hpt)) as [_ Hr]. unfold freevm.
  rewrite (proj2 (Z.eqb_neq pgdir 0)) by (unfold KERNBASE in *; lia).
  apply returns_bind. apply (deallocuvm_ok pgdir s l); [exact Hsp|split; [lia|reflexivity]|reflexivity|]. intros fs s1 Hum.
  pose proof (um_space _ _ _ _ _ _ _ Hum) as Hsp1. pose proof (sp_as _ _ _ Hsp1) as Has1.
  assert (Hfs : ∀ f, f ∈ fs ↔ user_page (pa_ram s) pgdir f).
  { intros f. rewrite (um_frames _ _ _ _ _ _ _ Hum). unfold user_page. split; intros (va & Hva & H); exists va; [tauto|].
    split; [done|]. split; [|done]. change (PGROUNDUP 0) with 0.
    pose proof (Z.div_mod va PGSIZE ltac:(done)). pose proof (Z.mod_pos_bound va PGSIZE ltac:(done)).
    assert (0 ≤ va / PGSIZE) by (apply Z.div_pos; [lia|done]). plia. }
  apply returns_bind. change (Z.to_nat NPDENTRIES) with 1024%nat.
  eapply returns_mono; [apply (for_tables_ok pgdir (pa_ram s1) 1024 0 s1 (fs ++ l)); [apply Has1|done|done|apply Has1|done|]|].
  { intros k t Hk Ht. apply (as_apart _ _ _ Has1). right. by exists k. }
  intros [] s2 (l2 & Hok2 & Hl2 & Hm2).
  assert (Hown : ∀ p, owns (pa_ram s1) pgdir p ↔ p = pgdir ∨ ∃ k, 0 ≤ k < 1024 ∧ tab (pa_ram s1) pgdir k = Some p) by done.
  eapply returns_mono; [apply (pa_kfree_ok s2 l2 pgdir); [done|apply Hpt|]|].
  { rewrite Hl2. intros [Hin|(k & Hk & Ht)]; [by apply (as_apart _ _ _ Has1 pgdir); [left|]|].
    by destruct (pt_tab _ _ (as_table _ _ _ Has1) k pgdir Hk Ht). }
  intros [] s3 [Hok3 Hm3]. exists (pgdir :: l2). split; [done|]. split.
  - intros p. rewrite elem_of_cons, Hl2, elem_of_app, Hfs. unfold space_page.
    rewrite <- (um_owns _ _ _ _ _ _ _ Hum), Hown. tauto.
  - intros x Hx. rewrite Hm3, Hm2.
    + apply (um_mem _ _ _ _ _ _ _ Hum); [intros f Hf; apply Hx; right; by apply Hfs|intros p Hp; apply Hx; by left].
    + intros k t Hk Ht. apply Hx. left. apply (um_owns _ _ _ _ _ _ _ Hum). right. by exists k.
    + apply Hx. left. by left.
Qed.

(** ** Building an address space from free pages *)

(** From the state [s0] with the free pages [l0], an address space [d] has been built;
    [held] are allocated and not used yet, and nothing but pages of [l0] changed. *)
Record built (s0 : S) (l0 : list Z) (d : Z) (held : list Z) (s : S) (l : list Z) : Prop := {
  bt_space : space_ok s l d;
  bt_pages : ∀ p, p ∈ l0 ↔ p ∈ l ∨ p ∈ held ∨ space_page (pa_ram s) d p;
  bt_mem : ∀ x, (∀ p, p ∈ l0 → ¬ in_page p x) → pa_ram s x = pa_ram s0 x
}.

Lemma user_pte_lt va : 0 ≤ va < KERNBASE → 0 ≤ va < two32.
Proof. unfold KERNBASE, two32. lia. Qed.

Lemma space_page_same m m' d : (∀ va, pte_of m' d va = pte_of m d va) → (∀ q, owns m' d q ↔ owns m d q) →
  ∀ q, space_page m' d q ↔ space_page m d q.
Proof.
  intros Hpte Hown q. unfold space_page. rewrite Hown. apply or_iff_compat_l.
  split; intros (va & Hva & Hf); exists va; (split; [done|]); unfold frame in *; by rewrite Hpte in *.
Qed.

(** The head of the free list is taken and written to. *)
Lemma built_take s0 l0 d s p l s1 m' :
  built s0 l0 d [] s (p :: l) → pa_ok s1 l → pa_ram s1 = pa_ram s →
  (∀ a, ¬ in_page p a → m' a = pa_ram s a) →
  let s2 := pa_write m' s1 in
  built s0 l0 d [p] s2 l ∧ in_hand s2 l d p ∧ ∀ va, pte_of (pa_ram s2) d va = pte_of (pa_ram s) d va.
Proof.
  intros [Hsp Hpg Hmem] Hok Hram Hm s2.
  destruct (take_page s p l d s1 m' Hsp Hok Hram Hm) as (Hsp2 & Hih & Hpte & Hown). fold s2 in Hsp2, Hih, Hpte, Hown.
  split; [|done]. split; [done| |].
  - intros q. rewrite Hpg, (space_page_same _ _ _ Hpte Hown), !elem_of_cons, elem_of_nil. tauto.
  - intros x Hx. unfold s2. rewrite pa_ram_write, Hm; [by apply Hmem|]. apply Hx, Hpg. left. apply list_elem_of_here.
Qed.

(** New page tables. *)
Lemma grew_free d s l new s' l' p : grew d s l new s' l' → p ∈ l ↔ p ∈ new ∨ p ∈ l'.
Proof. intros Hg. by rewrite (gr_free _ _ _ _ _ _ Hg), elem_of_app. Qed.

Lemma grew_mem s0 l0 d held s l new s' l' x :
  built s0 l0 d held s l → grew d s l new s' l' → (∀ p, p ∈ l0 → ¬ in_page p x) → pa_ram s' x = pa_ram s0 x.
Proof.
  intros [Hsp Hpg Hmem] Hg Hx. rewrite (gr_mem _ _ _ _ _ _ Hg); [by apply Hmem|]. intros p Hp. apply Hx, Hpg.
  apply (gr_owns _ _ _ _ _ _ Hg) in Hp as [Hp|Hp]; [by right; right; left|]. left. apply (grew_free _ _ _ _ _ _ _ Hg). by left.
Qed.

Lemma built_grow s0 l0 d held s l new s' l' :
  built s0 l0 d held s l → grew d s l new s' l' →
  (∀ va, 0 ≤ va < KERNBASE → pte_of (pa_ram s') d va = pte_of (pa_ram s) d va) → built s0 l0 d held s' l'.
Proof.
  intros Hb Hg Hpte. pose proof Hb as [Hsp Hpg Hmem].
  assert (Hfr : ∀ va, 0 ≤ va < KERNBASE → frame (pa_ram s') d va = frame (pa_ram s) d va)
    by (intros va Hva; unfold frame; by rewrite Hpte).
  assert (Hup : ∀ p, user_page (pa_ram s') d p ↔ user_page (pa_ram s) d p).
  { intros p. split; intros (va & Hva & Hf); exists va; (split; [done|]); by rewrite Hfr in *. }
  split; [split| |].
  - apply Hg.
  - intros va f Hva. rewrite Hfr by done. intros Hf. destruct (sp_frame _ _ _ Hsp va f Hva Hf) as (? & Hn & Ho).
    split; [done|]. rewrite (grew_free _ _ _ _ _ _ _ Hg) in Hn. split; [tauto|].
    rewrite (gr_owns _ _ _ _ _ _ Hg). tauto.
  - intros va va' f Hva Hva'. rewrite !Hfr by done. by apply (sp_inj _ _ _ Hsp).
  - intros p. rewrite Hpg, (grew_free _ _ _ _ _ _ _ Hg). unfold space_page. rewrite Hup, (gr_owns _ _ _ _ _ _ Hg). tauto.
  - intros x Hx. by eapply grew_mem.
Qed.

(** The page in hand becomes the frame of page [a]. *)
Lemma built_map s0 l0 d s l p new s' l' a e :
  built s0 l0 d [p] s l → in_hand s l d p → grew d s l new s' l' → 0 ≤ a < KERNBASE →
  pte_of (pa_ram s) d a = 0 → present e = true → P2V (PTE_ADDR e) = p →
  (∀ va, 0 ≤ va < two32 → pte_of (pa_ram s') d va =
     if decide (va / PGSIZE = a / PGSIZE) then e else pte_of (pa_ram s) d va) →
  built s0 l0 d [] s' l'.
Proof.
  intros Hb Hih Hg Ha Hz He Hep Hpte. pose proof Hb as [Hsp Hpg Hmem].
  split; [by eapply (space_map s l new s' l' d a p e)| |intros x Hx; by eapply grew_mem].
  assert (Hup : ∀ q, user_page (pa_ram s') d q ↔ q = p ∨ user_page (pa_ram s) d q).
  { intros q. split.
    - intros (va & Hva & Hf). unfold frame in Hf. rewrite Hpte in Hf by (by apply user_pte_lt). case_decide as E.
      + rewrite He, Hep in Hf. left. congruence.
      + right. by exists va.
    - intros [->|(va & Hva & Hf)].
      + exists a. split; [done|]. unfold frame. by rewrite Hpte, decide_True, He, Hep by (done || by apply user_pte_lt).
      + exists va. split; [done|]. unfold frame. rewrite Hpte by (by apply user_pte_lt). case_decide as E; [|done].
        unfold frame in Hf. rewrite (pte_page _ _ va a), Hz in Hf; [done|by apply user_pte_lt..|done]. }
  intros q. rewrite Hpg, (grew_free _ _ _ _ _ _ _ Hg), list_elem_of_singleton. unfold space_page.
  rewrite Hup, (gr_owns _ _ _ _ _ _ Hg), elem_of_nil. tauto.
Qed.

(** Giving up: every page is free again. *)
Definition undone (s0 : S) (l0 : list Z) (s : S) : Prop :=
  (∃ l, pa_ok s l ∧ l ≡ₚ l0) ∧ ∀ x, (∀ p, p ∈ l0 → ¬ in_page p x) → pa_ram s x = pa_ram s0 x.

Lemma built_free s0 l0 d s l : NoDup l0 → built s0 l0 d [] s l → returns (freevm d) s (λ _, undone s0 l0).
Proof.
  intros Hnd [Hsp Hpg Hmem]. eapply returns_mono; [by apply freevm_ok|]. intros [] s' (l' & Hok & Hl & Hm).
  assert (Hall : ∀ p, p ∈ l' ↔ p ∈ l0) by (intros p; rewrite Hl, Hpg, elem_of_nil; tauto).
  split.
  - exists l'. split; [done|]. apply NoDup_Permutation; [apply (pa_ok_pages _ _ Hok)|done|done].
  - intros x Hx. rewrite Hm; [by apply Hmem|]. intros p Hp. apply Hx, Hpg. tauto.
Qed.

Lemma built_give_back s0 l0 d s l p (Q : unit → S → Prop) :
  built s0 l0 d [p] s l → in_hand s l d p → (∀ s', built s0 l0 d [] s' (p :: l) → Q tt s') → returns (pa_kfree p) s Q.
Proof.
  intros [Hsp Hpg Hmem] Hih HQ. apply (give_back s l d p); [done..|]. intros s' Hsp' Hpte Hown Hm. apply HQ. split; [done| |].
  - intros q. rewrite Hpg, (space_page_same _ _ _ Hpte Hown), !elem_of_cons, elem_of_nil. tauto.
  - intros x Hx. rewrite Hm; [by apply Hmem|]. apply Hx, Hpg. right. left. apply list_elem_of_here.
Qed.

(** ** The kernel's part *)

(** The entry that the mappings [ks] give to [va]. *)
Definition kspan (k : kmap_entry) : Z := u32 (phys_end k - phys_start k).

Fixpoint kpte (ks : list kmap_entry) (va : Z) : Z :=
  match ks with
  | [] => 0
  | k :: ks =>
      if decide (virt k ≤ va < virt k + kspan k) then map_entry (virt k) (phys_start k) (perm k) va else kpte ks va
  end.

Record kmap_ok (k : kmap_entry) : Prop := {
  km_virt : KERNBASE ≤ virt k ∧ virt k mod PGSIZE = 0;
  km_phys : 0 ≤ phys_start k ∧ phys_start k mod PGSIZE = 0;
  km_span : 0 < kspan k ∧ kspan k mod PGSIZE = 0;
  km_max : virt k + kspan k ≤ two32 ∧ phys_start k + kspan k ≤ two32;
  km_perm : 0 ≤ perm k < PGSIZE
}.

Fixpoint kmaps_ok (lo : Z) (ks : list kmap_entry) : Prop :=
  match ks with [] => True | k :: ks => lo ≤ virt k ∧ kmap_ok k ∧ kmaps_ok (virt k + kspan k) ks end.

(** The mappings made so far end below [lo]. *)
Definition below (lo : Z) (done : list kmap_entry) : Prop :=
  Forall (λ k, KERNBASE ≤ virt k ∧ virt k + kspan k ≤ lo) done.

Lemma below_mono lo lo' done : below lo done → lo ≤ lo' → below lo' done.
Proof. intros H Hle. eapply Forall_impl; [exact H|]. intros k [? ?]. lia. Qed.

Lemma kpte_none lo done va : below lo done → (lo ≤ va ∨ va < KERNBASE) → kpte done va = 0.
Proof. induction 1 as [|k done [Hk1 Hk2] _ IH]; intros Hva; cbn; [done|]. rewrite decide_False by lia. by apply IH. Qed.

Lemma kpte_snoc lo done k va : below lo done → lo ≤ virt k →
  kpte (done ++ [k]) va =
    if decide (virt k ≤ va < virt k + kspan k) then map_entry (virt k) (phys_start k) (perm k) va else kpte done va.
Proof.
  intros Hb Hlo. induction Hb as [|j done [Hj1 Hj2] _ IH]; cbn; [done|]. rewrite IH. repeat case_decide; done || lia.
Qed.

Lemma span_pages va size : va mod PGSIZE = 0 → size mod PGSIZE = 0 → 0 < size →
  va / PGSIZE * PGSIZE = va ∧ ((va + size - 1) / PGSIZE - va / PGSIZE + 1) * PGSIZE = size ∧
  Z.of_nat (Z.to_nat ((va + size - 1) / PGSIZE - va / PGSIZE + 1)) * PGSIZE = size.
Proof.
  intros Hv Hs Hp. pose proof (Z.div_mod va PGSIZE ltac:(done)) as Ev. pose proof (Z.div_mod size PGSIZE ltac:(done)) as Es.
  rewrite Hv in Ev. rewrite Hs in Es.
  assert (E : (va + size - 1) / PGSIZE = va / PGSIZE + size / PGSIZE - 1).
  { symmetry. apply (Z.div_unique _ PGSIZE _ (PGSIZE - 1)); [left; done|]. lia. }
  assert (0 < size / PGSIZE) by plia. rewrite E. rewrite Z2Nat.id by lia. lia.
Qed.

Definition kvm_post (s0 : S) (l0 : list Z) (d : Z) (ks : list kmap_entry) (r : Z) (s : S) : Prop :=
  (r = d ∧ ∃ l, built s0 l0 d [] s l ∧ ∀ va, 0 ≤ va < two32 → pte_of (pa_ram s) d va = kpte ks va) ∨
  (r = 0 ∧ undone s0 l0 s).

Lemma map_kmap_ok s0 l0 d : NoDup l0 → ∀ ks done lo s l,
  kmaps_ok lo ks → below lo done → built s0 l0 d [] s l →
  (∀ va, 0 ≤ va < two32 → pte_of (pa_ram s) d va = kpte done va) →
  returns (map_kmap d ks) s (kvm_post s0 l0 d (done ++ ks)).
Proof.
  intros Hnd. induction ks as [|k ks IH]; intros done lo s l Hks Hlo Hb Hpte; cbn [map_kmap].
  { apply returns_ret. left. split; [done|]. exists l. by rewrite app_nil_r. }
  destruct Hks as (Hk & [[Hv Hvm] [Hp Hpm] [Hs Hsm] [Hmx Hpx] Hpe] & Hks).
  destruct (span_pages (virt k) (kspan k) Hvm Hsm Hs) as (Ev & En & En').
  apply returns_bind. eapply returns_mono; [apply (mappages_maps s l); rewrite ?Ev, ?En; try done|].
  - apply (bt_space _ _ _ _ _ _ Hb).
  - unfold KERNBASE in *. lia.
  - fold (kspan k). lia.
  - fold (kspan k). rewrite En. done.
  - fold (kspan k). rewrite En. intros va Hva. rewrite Hpte by (unfold KERNBASE in *; lia). rewrite (kpte_none lo) by (done || lia). done.
  - fold (kspan k). rewrite Ev. intros r s' (new & l' & n & Hg & Hm & Hr).
    assert (Hn : Z.of_nat n * PGSIZE ≤ kspan k) by (rewrite <- En'; destruct Hr as [[_ ->]|(_ & ? & _)]; plia).
    assert (Hb' : built s0 l0 d [] s' l').
    { eapply built_grow; [exact Hb|exact Hg|]. intros va Hva. rewrite (Hm va) by (by apply user_pte_lt). by rewrite decide_False by lia. }
    destruct Hr as [[-> ->]|(-> & _)]; cbn [Z.ltb Z.compare].
    + eapply returns_mono; [apply (IH (done ++ [k]) (virt k + kspan k) s' l'); [done| |done|]|].
      * apply Forall_app. split; [eapply below_mono; [exact Hlo|lia]|]. by repeat constructor.
      * intros va Hva. rewrite (Hm va Hva), En', Hpte, (kpte_snoc lo) by done. done.
      * intros r s2. by rewrite <- app_assoc.
    + apply returns_bind. eapply returns_mono; [eapply built_free; [done|exact Hb']|]. intros [] s2 H2. apply returns_ret. by right.
Qed.

(** A directory without entries. *)
Lemma built_new s0 d l s1 : pa_ok s0 (d :: l) → pa_ok s1 l → pa_ram s1 = pa_ram s0 →
  let s2 := pa_write (memset d 0 PGSIZE (pa_ram s1)) s1 in
  built s0 (d :: l) d [] s2 l ∧ ∀ va, pte_of (pa_ram s2) d va = 0.
Proof.
  intros Hok Hok1 Hram s2. destruct (pa_ok_pages _ _ Hok) as [Hpg Hnd].
  apply Forall_cons in Hpg as [Hd Hpl]. rewrite Forall_forall in Hpl. apply NoDup_cons in Hnd as [Hnin _].
  assert (Hm : ∀ x, pa_ram s2 x = if in_range d PGSIZE x then 0 else pa_ram s0 x).
  { intros x. unfold s2. by rewrite pa_ram_write, memset_spec, Hram by done. }
  assert (Hout : ∀ x, ¬ in_page d x → pa_ram s2 x = pa_ram s0 x).
  { intros x Hx. rewrite Hm. unfold in_range, in_page in *. case_match eqn:E; [lia|done]. }
  assert (Ht : ∀ k, 0 ≤ k < 1024 → tab (pa_ram s2) d k = None).
  { intros k Hk. unfold tab. rewrite (load32_ext (λ _, 0)); [done|]. intros i Hi. rewrite Hm.
    assert (in_range d PGSIZE (d + 4 * k + i) = true) as ->; [|done]. unfold in_range, PGSIZE. lia. }
  assert (Hpte : ∀ va, pte_of (pa_ram s2) d va = 0) by (intros va; unfold pte_of; by rewrite Ht by apply PDX_range).
  assert (Hown : ∀ p, owns (pa_ram s2) d p ↔ p = d).
  { intros p. split; [|by left]. intros [?|(k & Hk & E)]; [done|]. by rewrite Ht in E. }
  assert (Hfr : ∀ va, frame (pa_ram s2) d va = None) by (intros va; unfold frame; by rewrite Hpte).
  split; [|done]. split.
  - split; [split| |].
    + apply pa_ok_write; [done|]. intros p a Hp Ha. rewrite memset_spec by done. unfold in_range. case_match eqn:E; [|done].
      destruct Hnin. rewrite (pages_apart d p a Hd (Hpl p Hp)); [done| |done]. unfold in_page. lia.
    + split; [done|..]; intros k; intros; by rewrite Ht in *.
    + by intros p ->%Hown.
    + intros va f _. by rewrite Hfr.
    + intros va va' f _ _. by rewrite Hfr.
  - intros p. unfold space_page. rewrite Hown, elem_of_cons, elem_of_nil. split; [tauto|].
    intros [?|[?|[?|(va & _ & E)]]]; [tauto..|]. by rewrite Hfr in E.
  - intros x Hx. apply Hout, Hx, list_elem_of_here.
Qed.

Context (data : Z).

(** Where kernel.ld puts [data]: on a page boundary, after the text. *)
Definition data_ok : Prop := data mod PGSIZE = 0 ∧ KERNLINK < data < KERNBASE + PHYSTOP.

Lemma data_spans : data_ok → V2P data = data - KERNBASE ∧
  kspan (mkkmap KERNLINK (V2P KERNLINK) (V2P data) 0) = data - KERNLINK ∧
  kspan (mkkmap data (V2P data) PHYSTOP PTE_W) = KERNBASE + PHYSTOP - data.
Proof.
  intros [_ Hr]. assert (HV : V2P data = data - KERNBASE) by (apply V2P_kern; unfold KERNLINK, KERNBASE, EXTMEM, PHYSTOP, two32 in *; lia).
  unfold kspan. cbn [phys_start phys_end]. rewrite HV. change (V2P KERNLINK) with (KERNLINK - KERNBASE).
  rewrite !u32_small by (unfold KERNLINK, KERNBASE, EXTMEM, PHYSTOP, two32 in *; lia). split; [done|lia].
Qed.

Lemma kmap_layout : data_ok → kmaps_ok KERNBASE (kmap data).
Proof.
  intros Hd. destruct (data_spans Hd) as (HV & E2 & E3). destruct Hd as [Hm Hr].
  assert (Hm' : (data - KERNBASE) mod PGSIZE = 0) by (by rewrite Zminus_mod, Hm).
  unfold kmap. cbn [kmaps_ok]. rewrite E2, E3. cbn [virt].
  assert (Hk : ∀ a b, a mod PGSIZE = 0 → b mod PGSIZE = 0 → (a - b) mod PGSIZE = 0) by (intros a b Ha Hb; by rewrite Zminus_mod, Ha, Hb).
  split; [done|]. split; [by split|]. split; [done|]. split; [|split; [unfold KERNLINK in *; lia|split; [|split]]].
  - split; rewrite ?E2; cbn [virt phys_start perm]; try done.
    + split; [lia|]. by apply (Hk _ _).
    + change (V2P KERNLINK) with (KERNLINK - KERNBASE). unfold KERNLINK, KERNBASE, EXTMEM, PHYSTOP, two32 in *. lia.
  - split; rewrite ?E3; cbn [virt phys_start perm]; rewrite ?HV; try done.
    + split; [unfold KERNLINK, EXTMEM in *; lia|done].
    + split; [unfold KERNLINK, EXTMEM in *; lia|done].
    + split; [lia|]. by apply (Hk _ _).
    + unfold KERNLINK, KERNBASE, EXTMEM, PHYSTOP, two32 in *. lia.
  - unfold DEVSPACE, KERNBASE, PHYSTOP in *. lia.
  - split; [by split|done].
Qed.

Lemma setupkvm_ok s0 l0 : data_ok → pa_ok s0 l0 →
  returns (setupkvm data) s0 (λ d s, (d = 0 ∧ undone s0 l0 s) ∨
    (d ≠ 0 ∧ ∃ l, built s0 l0 d [] s l ∧ ∀ va, 0 ≤ va < two32 → pte_of (pa_ram s) d va = kpte (kmap data) va)).
Proof.
  intros Hd Hok. unfold setupkvm. apply returns_bind. eapply returns_mono; [by apply pa_kalloc_ok|]. intros d s1 Hk.
  destruct l0 as [|p l].
  { destruct Hk as [-> ->]. apply returns_ret. left. split; [done|]. split; [by exists []|done]. }
  destruct Hk as (-> & Hok1 & Hram). destruct (pa_ok_pages _ _ Hok) as [Hpg Hnd]. apply Forall_cons in Hpg as [Hp _].
  destruct (pa_page_range p Hp) as [_ Hpr]. assert (Hp0 : p ≠ 0) by (unfold KERNBASE in *; lia).
  rewrite (proj2 (Z.eqb_neq p 0)) by done. unfold do_memset. apply returns_bind, returns_modify.
  change (DEVSPACE <? P2V PHYSTOP) with false. cbv iota.
  destruct (built_new s0 p l s1 Hok Hok1 Hram) as [Hb Hpte].
  eapply returns_mono; [eapply (map_kmap_ok s0 (p :: l) p Hnd (kmap data) [] KERNBASE); [by apply kmap_layout|constructor|exact Hb|]|].
  - intros va _. apply Hpte.
  - intros r s2 [[-> H2]|[-> H2]]; [by right|by left].
Qed.

(** ** Copying the user's part *)

(** The copy of the page at [va]: a page of its own, with the same contents and flags. *)
Definition copied_page (s0 : S) (pgdir : Z) (s : S) (d va : Z) : Prop :=
  ∃ f f', frame (pa_ram s0) pgdir va = Some f ∧ frame (pa_ram s) d va = Some f' ∧
    PTE_FLAGS (pte_of (pa_ram s) d va) = PTE_FLAGS (pte_of (pa_ram s0) pgdir va) ∧
    ∀ x, 0 ≤ x < PGSIZE → pa_ram s (f' + x) = pa_ram s0 (f + x).

(** The pages below [i] have been copied. *)
Record copied (s0 : S) (pgdir : Z) (s : S) (d i : Z) : Prop := {
  cp_in : ∀ va, 0 ≤ va < KERNBASE → va / PGSIZE * PGSIZE < i → copied_page s0 pgdir s d va;
  cp_out : ∀ va, 0 ≤ va < KERNBASE → i ≤ va / PGSIZE * PGSIZE → pte_of (pa_ram s) d va = 0;
  cp_kern : ∀ va, KERNBASE ≤ va < two32 → pte_of (pa_ram s) d va = kpte (kmap data) va
}.

(** The original stays as it is. *)
Lemma original_same s0 l0 pgdir (s : S) p x :
  space_ok s0 l0 pgdir → (∀ x, (∀ p, p ∈ l0 → ¬ in_page p x) → pa_ram s x = pa_ram s0 x) →
  space_page (pa_ram s0) pgdir p → in_page p x → pa_ram s x = pa_ram s0 x.
Proof.
  intros Hsp Hm Hp Hx. apply Hm. intros q Hq Hqx. pose proof (sp_as _ _ _ Hsp) as Has.
  destruct (pa_ok_pages _ _ (as_alloc _ _ _ Has)) as [Hpg _]. rewrite Forall_forall in Hpg.
  assert (pa_page p ∧ p ∉ l0) as [Hpp Hpl].
  { destruct Hp as [Ho|(va & Hva & Hf)].
    - split; [by eapply owns_page; [apply Has|]|by apply (as_apart _ _ _ Has)].
    - by destruct (sp_frame _ _ _ Hsp va p Hva Hf) as (? & ? & _). }
  apply Hpl. by rewrite (pages_apart p q x Hpp (Hpg q Hq)).
Qed.

Lemma original_tables s0 l0 pgdir d held s l :
  space_ok s0 l0 pgdir → built s0 l0 d held s l →
  (∀ k, 0 ≤ k < 1024 → tab (pa_ram s) pgdir k = tab (pa_ram s0) pgdir k) ∧
  ∀ va, pte_of (pa_ram s) pgdir va = pte_of (pa_ram s0) pgdir va.
Proof.
  intros Hsp Hb. assert (Hm : ∀ p x, owns (pa_ram s0) pgdir p → in_page p x → pa_ram s x = pa_ram s0 x).
  { intros p x Hp. eapply original_same; [done|apply Hb|by left]. }
  split; [intros k Hk; by apply tab_same|apply pte_same, Hm].
Qed.

(** A page of the copy keeps its contents while the rest is built. *)
Lemma copied_page_keep s0 pgdir s d va s' :
  copied_page s0 pgdir s d va → pte_of (pa_ram s') d va = pte_of (pa_ram s) d va →
  (∀ f x, frame (pa_ram s) d va = Some f → in_page f x → pa_ram s' x = pa_ram s x) → copied_page s0 pgdir s' d va.
Proof.
  intros (f & f' & Hf & Hf' & Hfl & Hx) Hpte Hm. exists f, f'. unfold frame in *. rewrite Hpte.
  split; [done|]. split; [done|]. split; [done|]. intros x Hlt. rewrite (Hm f' (f' + x)); [by apply Hx|done|].
  unfold in_page, PGSIZE in *. lia.
Qed.

Lemma flags_small e : 0 ≤ PTE_FLAGS e < PGSIZE.
Proof. rewrite PTE_FLAGS_mod. by apply Z.mod_pos_bound. Qed.

Lemma flags_present e : present e = true → Z.lor (PTE_FLAGS e) PTE_P = PTE_FLAGS e.
Proof.
  unfold present, PTE_FLAGS. intros Hp. apply negb_true_iff, Z.eqb_neq in Hp. apply Z.bits_inj'. intros n Hn.
  rewrite Z.lor_spec. destruct (decide (n = 0)) as [->|Hn0].
  - rewrite Z.land_spec. change (Z.testbit PTE_P 0) with true. change (Z.testbit 4095 0) with true. rewrite andb_true_r.
    destruct (Z.testbit e 0) eqn:E; [done|]. destruct Hp. apply Z.bits_inj'. intros k Hk. rewrite Z.land_spec, Z.bits_0.
    change PTE_P with (2 ^ 0). rewrite Z.pow2_bits_eqb by lia. destruct (Z.eqb_spec 0 k) as [<-|]; [by rewrite E|apply andb_false_r].
  - change PTE_P with (2 ^ 0). rewrite Z.pow2_bits_eqb by lia. rewrite (proj2 (Z.eqb_neq 0 n)) by lia. apply orb_false_r.
Qed.

(** One page: taken, filled with a copy, mapped. *)
Section Step.
Context (s0 : S) (l0 : list Z) (pgdir d i f p : Z) (s s1 : S) (l2 : list Z).
Context (Hsp : space_ok s0 l0 pgdir) (Hb : built s0 l0 d [] s (p :: l2)) (Hc : copied s0 pgdir s d i).
Context (Him : i mod PGSIZE = 0) (Hi : 0 ≤ i < KERNBASE) (Hf : frame (pa_ram s0) pgdir i = Some f).
Context (Hok1 : pa_ok s1 l2) (Hram : pa_ram s1 = pa_ram s).
Local Abbreviation s2 := (pa_write (memmove p f (Z.to_nat PGSIZE) (pa_ram s1)) s1).
Local Abbreviation fl := (PTE_FLAGS (pte_of (pa_ram s0) pgdir i)).

Lemma step_taken : built s0 l0 d [p] s2 l2 ∧ in_hand s2 l2 d p ∧ ∀ va, pte_of (pa_ram s2) d va = pte_of (pa_ram s) d va.
Proof.
  apply built_take; [done..|]. intros a Ha. rewrite memmove_spec, Hram, Z2Nat.id by done.
  unfold in_range, in_page in *. case_match eqn:E; [lia|done].
Qed.

Lemma step_filled x : 0 ≤ x < PGSIZE → pa_ram s2 (p + x) = pa_ram s0 (f + x).
Proof.
  intros Hx. rewrite pa_ram_write, memmove_spec, Hram, Z2Nat.id by done.
  assert (in_range p PGSIZE (p + x) = true) as -> by (unfold in_range; lia).
  replace (p + x - p + f) with (f + x) by lia. eapply original_same; [done|apply Hb| |].
  - right. by exists i.
  - unfold in_page, PGSIZE in *. lia.
Qed.

Lemma step_other va g x : 0 ≤ va < KERNBASE → frame (pa_ram s) d va = Some g → in_page g x → pa_ram s2 x = pa_ram s x.
Proof.
  intros Hva Hg Hx. rewrite pa_ram_write, memmove_spec, Hram, Z2Nat.id by done.
  destruct (sp_frame _ _ _ (bt_space _ _ _ _ _ _ Hb) va g Hva Hg) as (Hgp & Hgl & _).
  destruct (in_range p PGSIZE x) eqn:E; [|done]. destruct Hgl. rewrite (pages_apart g p x Hgp); [apply list_elem_of_here| |done|].
  - apply (ih_page _ _ _ _ (proj1 (proj2 step_taken))).
  - unfold in_range in E. unfold in_page. lia.
Qed.

Lemma step_slot : pte_of (pa_ram s2) d i = 0.
Proof.
  rewrite (proj2 (proj2 step_taken)). apply (cp_out _ _ _ _ _ Hc); [done|].
  pose proof (Z.div_mod i PGSIZE ltac:(done)). plia.
Qed.

Lemma step_done new s3 l3 : grew d s2 l2 new s3 l3 →
  (∀ va, 0 ≤ va < two32 → pte_of (pa_ram s3) d va =
     if decide (va / PGSIZE = i / PGSIZE) then page_entry p fl else pte_of (pa_ram s2) d va) →
  built s0 l0 d [] s3 l3 ∧ copied s0 pgdir s3 d (i + PGSIZE).
Proof.
  intros Hg Hpte. destruct step_taken as (Hb2 & Hih & Hsame).
  destruct (page_entry_fields p fl (ih_page _ _ _ _ Hih) (flags_small _)) as (Hpr & Hpa & Hfl).
  assert (Hfloor : i / PGSIZE * PGSIZE = i) by (pose proof (Z.div_mod i PGSIZE ltac:(done)); plia).
  split; [by eapply (built_map s0 l0 d s2 l2 p new s3 l3 i _ Hb2 Hih Hg Hi step_slot)|]. split.
  - intros va Hva Hlt. assert (Hva32 : 0 ≤ va < two32) by (by apply user_pte_lt).
    destruct (decide (va / PGSIZE = i / PGSIZE)) as [E|E].
    + exists f, p. rewrite (pte_page (pa_ram s0) _ va i) by (done || by apply user_pte_lt).
      unfold frame. rewrite (pte_page (pa_ram s0) _ va i) by (done || by apply user_pte_lt). rewrite Hpte, decide_True by done.
      rewrite Hpr, Hpa, Hfl, flags_present by (unfold frame in Hf; by destruct (present (pte_of (pa_ram s0) pgdir i))).
      split; [exact Hf|]. split; [done|]. split; [done|]. intros x Hx.
      rewrite (grew_page _ _ _ _ _ _ p (p + x) Hg); [by apply step_filled|apply Hih..|]. unfold in_page, PGSIZE in *. lia.
    + assert (Hlt' : va / PGSIZE * PGSIZE < i) by plia.
      apply (copied_page_keep s0 pgdir s); [by apply (cp_in _ _ _ _ _ Hc)| |].
      * by rewrite Hpte, decide_False, Hsame.
      * intros g x Hgf Hx. rewrite <- (step_other va g x) by done.
        assert (Hgf2 : frame (pa_ram s2) d va = Some g) by (unfold frame in *; by rewrite Hsame).
        destruct (sp_frame _ _ _ (bt_space _ _ _ _ _ _ Hb2) va g Hva Hgf2) as (? & ? & ?). by apply (grew_page _ _ _ _ _ _ g x Hg).
  - intros va Hva Hle. rewrite Hpte, decide_False, Hsame by (plia || by apply user_pte_lt).
    apply (cp_out _ _ _ _ _ Hc); [done|plia].
  - intros va Hva. assert (i / PGSIZE < va / PGSIZE).
    { assert (KERNBASE / PGSIZE ≤ va / PGSIZE) by (apply Z.div_le_mono; [done|lia]).
      assert (i / PGSIZE < KERNBASE / PGSIZE); [|lia]. apply Z.div_lt_upper_bound; [done|].
      change (PGSIZE * (KERNBASE / PGSIZE)) with KERNBASE. lia. }
    rewrite Hpte, decide_False, Hsame by (lia || (unfold KERNBASE in *; lia)). by apply (cp_kern _ _ _ _ _ Hc).
Qed.
End Step.

Definition copy_post (s0 : S) (l0 : list Z) (pgdir sz r : Z) (s : S) : Prop :=
  (r = 0 ∧ undone s0 l0 s) ∨
  (r ≠ 0 ∧ ∃ l i, i mod PGSIZE = 0 ∧ sz ≤ i < sz + PGSIZE ∧ built s0 l0 r [] s l ∧ copied s0 pgdir s r i).

Lemma copy_loop_ok s0 l0 pgdir d sz : space_ok s0 l0 pgdir → d ≠ 0 → 0 ≤ sz ≤ KERNBASE →
  (∀ va, 0 ≤ va < sz → frame (pa_ram s0) pgdir va ≠ None) → ∀ fuel i s l,
  built s0 l0 d [] s l → copied s0 pgdir s d i → i mod PGSIZE = 0 → 0 ≤ i < sz + PGSIZE →
  sz ≤ i + Z.of_nat fuel * PGSIZE →
  returns (copyuvm_loop fuel pgdir d i sz) s (copy_post s0 l0 pgdir sz).
Proof.
  intros Hsp Hd Hsz Hfull. assert (Hnd : NoDup l0) by apply (pa_ok_pages _ _ (as_alloc _ _ _ (sp_as _ _ _ Hsp))).
  induction fuel as [|fuel IH]; intros i s l Hb Hc Him Hi Hfuel; cbn [copyuvm_loop];
    (destruct (sz <=? i) eqn:Hdone; [apply returns_ret; right; split; [done|]; exists l, i; split_and!; try done; lia|]); [lia|].
  assert (HiK : 0 ≤ i < KERNBASE) by lia. pose proof (original_tables _ _ _ _ _ _ _ Hsp Hb) as [Htab Hpte].
  destruct (frame (pa_ram s0) pgdir i) as [f|] eqn:Hf; [|by destruct (Hfull i ltac:(lia))].
  assert (Hpr : present (pte_of (pa_ram s0) pgdir i) = true ∧ P2V (PTE_ADDR (pte_of (pa_ram s0) pgdir i)) = f).
  { pose proof Hf as Hf'. unfold frame in Hf'. destruct (present _); [|done]. split; [done|congruence]. }
  destruct Hpr as [Hpr Hpa]. apply returns_bind. unfold returns at 1. rewrite walk_lookup, Htab by apply PDX_range.
  destruct (tab (pa_ram s0) pgdir (PDX i)) as [t|] eqn:Et; [|unfold pte_of in Hpr; by rewrite Et in Hpr].
  destruct (pt_tab _ _ (as_table _ _ _ (sp_as _ _ _ Hsp)) _ _ (PDX_range i) Et) as [Htp _].
  rewrite (proj2 (Z.eqb_neq _ 0)) by (pose proof (pte_addr_pos t i Htp); lia).
  unfold ld. apply returns_bind, returns_gets.
  assert (load32 (pa_ram s) (pte_addr t i) = pte_of (pa_ram s0) pgdir i) as ->.
  { rewrite <- Hpte. unfold pte_of, pte_addr. by rewrite Htab, Et by apply PDX_range. }
  rewrite Hpr, Hpa. cbn [negb]. apply returns_bind.
  eapply returns_mono; [apply pa_kalloc_ok, (bt_space _ _ _ _ _ _ Hb)|]. intros p s1 Hk.
  destruct l as [|q l2].
  { destruct Hk as [-> ->]. apply returns_bind. eapply returns_mono; [by eapply built_free|]. intros [] s' Hu. apply returns_ret. by left. }
  destruct Hk as (-> & Hok1 & Hram). destruct (step_taken s0 l0 d f q s s1 l2 Hb Hok1 Hram) as (Hb2 & Hih & Hsame).
  destruct (pa_page_range q (ih_page _ _ _ _ Hih)) as [_ Hqr]. rewrite (proj2 (Z.eqb_neq q 0)) by (unfold KERNBASE in *; lia).
  unfold do_memmove. apply returns_bind, returns_modify, returns_bind.
  apply (mappages_page d i q _ _ l2); [apply Hb2|done|done|apply Hih|apply flags_small| | |].
  - by apply (step_slot s0 l0 pgdir d i f q s s1 l2).
  - intros new l3 s3 Hg Hpte3. cbn [Z.ltb Z.compare]. rewrite u32_small by (unfold KERNBASE, PGSIZE, two32 in *; lia).
    destruct (step_done s0 l0 pgdir d i f q s s1 l2 Hsp Hb Hc Him HiK Hf Hok1 Hram new s3 l3 Hg Hpte3) as [Hb3 Hc3].
    apply (IH _ _ l3); [done|done|by rewrite Z.add_mod, Him|plia|plia].
  - intros new s3 Hg Hpte3. change (-1 <? 0) with true. cbv iota.
    assert (Hb3 : built s0 l0 d [q] s3 []).
    { eapply built_grow; [exact Hb2|exact Hg|]. intros va Hva. apply Hpte3. by apply user_pte_lt. }
    apply returns_bind, (built_give_back s0 l0 d s3 [] q); [done| |].
    + split; [apply Hih|apply not_elem_of_nil| |].
      * intros [?|Hin]%(gr_owns _ _ _ _ _ _ Hg); [by apply (ih_owns _ _ _ _ Hih)|]. apply (ih_free _ _ _ _ Hih).
        apply (grew_free _ _ _ _ _ _ _ Hg). by left.
      * intros va Hva. unfold frame. rewrite Hpte3 by (by apply user_pte_lt). by apply (ih_frame _ _ _ _ Hih).
    + intros s4 Hb4. apply returns_bind. eapply returns_mono; [by eapply built_free|]. intros [] s5 Hu. apply returns_ret. by left.
Qed.

(** The two outcomes of [copyuvm]. *)
Definition copyuvm_post (s : S) (l : list Z) (pgdir sz d : Z) (s' : S) : Prop :=
  (d = 0 ∧ ∃ l', pa_ok s' l' ∧ l' ≡ₚ l) ∨
  (d ≠ 0 ∧ ∃ l', space_ok s' l' d ∧ (∀ p, p ∈ l ↔ p ∈ l' ∨ space_page (pa_ram s') d p) ∧
     (∀ va, 0 ≤ va < sz → copied_page s pgdir s' d va) ∧
     (∀ va, 0 ≤ va < KERNBASE → sz ≤ va / PGSIZE * PGSIZE → pte_of (pa_ram s') d va = 0) ∧
     ∀ va, KERNBASE ≤ va < two32 → pte_of (pa_ram s') d va = kpte (kmap data) va).

Lemma copyuvm_ok s l pgdir sz : data_ok → space_ok s l pgdir → 0 ≤ sz ≤ KERNBASE →
  (∀ va, 0 ≤ va < sz → frame (pa_ram s) pgdir va ≠ None) →
  returns (copyuvm data pgdir sz) s (λ d s',
    (∀ x, (∀ p, p ∈ l → ¬ in_page p x) → pa_ram s' x = pa_ram s x) ∧ copyuvm_post s l pgdir sz d s').
Proof.
  intros Hdata Hsp Hsz Hfull. unfold copyuvm. apply returns_bind.
  eapply returns_mono; [by apply (setupkvm_ok s l); [|apply Hsp]|]. intros d s1 [[-> [(l' & Hok & Hl) Hm]]|(Hd & l1 & Hb & Hpte)].
  { apply returns_ret. split; [done|]. left. split; [done|]. by exists l'. }
  rewrite (proj2 (Z.eqb_neq d 0)) by done.
  assert (Hk0 : ∀ va, va < KERNBASE → kpte (kmap data) va = 0).
  { intros va Hva. pose proof (kmap_layout Hdata) as Hl. cbn [kmap kmaps_ok] in Hl. cbn [kmap kpte].
    rewrite !decide_False; [done|..]; destruct Hl as (_ & K1 & _ & K2 & _ & K3 & _ & K4 & _);
      [destruct (km_virt _ K4)|destruct (km_virt _ K3)|destruct (km_virt _ K2)|destruct (km_virt _ K1)]; cbn [virt] in *; lia. }
  assert (Hc : copied s pgdir s1 d 0).
  { split.
    - intros va Hva Hlt. assert (0 ≤ va / PGSIZE) by (apply Z.div_pos; [lia|done]). plia.
    - intros va Hva _. rewrite Hpte by (by apply user_pte_lt). apply Hk0. lia.
    - intros va Hva. apply Hpte. unfold KERNBASE in *. lia. }
  assert (HN : KERNBASE ≤ Z.of_nat NPAGES * PGSIZE) by (unfold NPAGES, KERNBASE, PGSIZE; lia).
  revert HN. generalize NPAGES as fuel. intros fuel HN.
  eapply returns_mono; [apply (copy_loop_ok s l pgdir d sz Hsp Hd Hsz Hfull fuel 0 s1 l1 Hb Hc); [done|plia|lia]|].
  intros r s' [[-> [(l' & Hok & Hl) Hm]]|(Hr & l' & i & Him & Hi & [Hsp' Hpg Hm] & Hc')].
  - split; [done|]. left. split; [done|]. by exists l'.
  - split; [done|]. right. split; [done|]. exists l'. split; [done|]. split.
    { intros p. rewrite Hpg, elem_of_nil. tauto. }
    split; [|split; [|apply Hc']].
    + intros va Hva. apply (cp_in _ _ _ _ _ Hc'); [lia|]. pose proof (Z.div_mod va PGSIZE ltac:(done)).
      pose proof (Z.mod_pos_bound va PGSIZE ltac:(done)). plia.
    + intros va Hva Hle. apply (cp_out _ _ _ _ _ Hc'); [done|]. pose proof (Z.div_mod i PGSIZE ltac:(done)). plia.
Qed.

(** C15: [copyuvm] gives the child of [fork] a copy of the parent's memory: it returns,
    and either with 0 and every page it took free again; or with a page directory
    built from pages that were free, in which every page below [sz] is mapped with the
    parent's flags to a page of its own with the parent's contents, no other
    user page is mapped, and the kernel is mapped as [kmap] says.  The pages of the
    parent do not change. *)
Theorem copyuvm_copies s l pgdir sz : data_ok → space_ok s l pgdir → 0 ≤ sz ≤ KERNBASE →
  (∀ va, 0 ≤ va < sz → frame (pa_ram s) pgdir va ≠ None) →
  returns (copyuvm data pgdir sz) s (λ d s',
    (∀ p x, space_page (pa_ram s) pgdir p → in_page p x → pa_ram s' x = pa_ram s x) ∧ copyuvm_post s l pgdir sz d s').
Proof.
  intros Hd Hsp Hsz Hfull. eapply returns_mono; [by apply (copyuvm_ok s l)|]. intros d s' [Hm Hp].
  split; [intros p x; by eapply original_same|done].
Qed.
(** Freeing an address space gives back its pages, each once, and changes nothing else. *)
Theorem freevm_frees_all pgdir s l : space_ok s l pgdir →
  returns (freevm pgdir) s (λ _ s', ∃ l', pa_ok s' l' ∧ NoDup l' ∧
    (∀ p, p ∈ l' ↔ p ∈ l ∨ space_page (pa_ram s) pgdir p) ∧
    ∀ x, (∀ p, space_page (pa_ram s) pgdir p → ¬ in_page p x) → pa_ram s' x = pa_ram s x).
Proof.
  intros Hsp. eapply returns_mono; [by apply (freevm_ok pgdir s l)|]. intros [] s' (l' & Hok & Hl & Hm).
  exists l'. split; [done|]. split; [apply (pa_ok_pages _ _ Hok)|done].
Qed.

(** The entry of a mapping: the physical page beside it and the permissions. *)
Lemma map_entry_fields k va : kmap_ok k → virt k ≤ va < virt k + kspan k →
  let e := map_entry (virt k) (phys_start k) (perm k) va in
  present e = true ∧ PTE_ADDR e = phys_start k + (va / PGSIZE * PGSIZE - virt k) ∧ PTE_FLAGS e = Z.lor (perm k) PTE_P.
Proof.
  intros [[Hv Hvm] [Hp Hpm] [Hs Hsm] [Hmx Hpx] Hpe] Hva e.
  assert (Hfl : virt k ≤ va / PGSIZE * PGSIZE ∧ va / PGSIZE * PGSIZE + PGSIZE ≤ virt k + kspan k).
  { pose proof (Z.div_mod (virt k) PGSIZE ltac:(done)). pose proof (Z.div_mod (kspan k) PGSIZE ltac:(done)).
    pose proof (Z.div_mod va PGSIZE ltac:(done)). pose proof (Z.mod_pos_bound va PGSIZE ltac:(done)). plia. }
  destruct (entry_fields (phys_start k + (va / PGSIZE * PGSIZE - virt k)) (perm k)) as (_ & _ & Ha & Hf & Hpr); [lia|lia| |done|done].
  rewrite Z.add_mod, Hpm, Zminus_mod, Hvm, Z_mod_mult by done. done.
Qed.

(** The kernel sees physical memory at KERNBASE, its own text read-only, and the
    devices at their addresses; nothing else is mapped. *)
Theorem setupkvm_maps s l : data_ok → pa_ok s l →
  returns (setupkvm data) s (λ d s', d = 0 ∨ ∀ va, 0 ≤ va < two32 →
    let e := pte_of (pa_ram s') d va in
    present e = bool_decide (KERNBASE ≤ va < KERNBASE + PHYSTOP ∨ DEVSPACE ≤ va) ∧
    (KERNBASE ≤ va < KERNBASE + PHYSTOP → PTE_ADDR e = va / PGSIZE * PGSIZE - KERNBASE ∧
       PTE_FLAGS e = if decide (KERNLINK ≤ va < data) then PTE_P else Z.lor PTE_W PTE_P) ∧
    (DEVSPACE ≤ va → PTE_ADDR e = va / PGSIZE * PGSIZE ∧ PTE_FLAGS e = Z.lor PTE_W PTE_P)).
Proof.
  intros Hd Hok. eapply returns_mono; [by apply setupkvm_ok|]. intros d s' [[-> _]|(_ & l' & _ & Hpte)]; [by left|right].
  intros va Hva. cbv zeta. rewrite Hpte by done. pose proof (kmap_layout Hd) as Hk.
  destruct (data_spans Hd) as (HV & E2 & E3). destruct Hd as [Hdm Hdr].
  unfold kmap in *. cbn [kmaps_ok] in Hk. destruct Hk as (_ & K1 & _ & K2 & _ & K3 & _ & K4 & _).
  cbn [kpte]. pose proof (map_entry_fields _ va K1) as F1. pose proof (map_entry_fields _ va K2) as F2.
  pose proof (map_entry_fields _ va K3) as F3. pose proof (map_entry_fields _ va K4) as F4.
  rewrite E2 in *. rewrite E3 in *. cbn [virt phys_start perm] in *. rewrite HV in *.
  change (V2P KERNLINK) with (KERNLINK - KERNBASE) in *. change (kspan (mkkmap KERNBASE 0 EXTMEM PTE_W)) with EXTMEM in *.
  change (kspan (mkkmap DEVSPACE DEVSPACE 0 PTE_W)) with (two32 - DEVSPACE) in *. 
  assert (Hl : KERNLINK = KERNBASE + EXTMEM) by done. assert (Ht : KERNBASE + PHYSTOP < DEVSPACE) by done.
  assert (0 < EXTMEM) by done. clear E2 E3 K1 K2 K3 K4 Hpte.
  case_decide as C1; [|case_decide as C2; [|case_decide as C3; [|case_decide as C4]]].
  - destruct (F1 C1) as (-> & -> & ->). rewrite bool_decide_true by lia. split; [done|]. split; intros; [|lia].
    split; [lia|]. by rewrite decide_False by lia.
  - destruct (F2 C2) as (-> & -> & ->). rewrite bool_decide_true by lia. split; [done|]. split; intros; [|lia].
    split; [lia|]. by rewrite decide_True by lia.
  - destruct (F3 C3) as (-> & -> & ->). rewrite bool_decide_true by lia. split; [done|]. split; intros; [|lia].
    split; [lia|]. by rewrite decide_False by lia.
  - destruct (F4 C4) as (-> & -> & ->). rewrite bool_decide_true by lia. split; [done|]. split; intros; [lia|].
    split; [lia|done].
  - rewrite bool_decide_false by lia. split; [done|lia].
Qed.
End Copy.

(** ** A concrete parent: one page of user memory beside two free pages. *)

#[local] Instance demo_copy_pages : PageAlloc kmem := kalloc_pages KERNLINK kernlink_above.

Definition demo_table : Z := 2149593088.
Definition demo_frame : Z := 2149597184.

Definition demo_parent : kmem :=
  pa_write (store32 (store32 (ram demo_kmem) demo_pgdir (V2P demo_table + 7)) demo_table (V2P demo_frame + 7)) demo_kmem.

Lemma demo_parent_tab d : 0 ≤ d < 1024 → tab (pa_ram demo_parent) demo_pgdir d = if decide (d = 0) then Some demo_table else None.
Proof.
  intros Hd. unfold tab. change (pa_ram demo_parent) with (store32 (store32 (ram demo_kmem) demo_pgdir (V2P demo_table + 7)) demo_table (V2P demo_frame + 7)).
  case_decide as E.
  - subst d. rewrite (load32_ext (store32 (ram demo_kmem) demo_pgdir (V2P demo_table + 7))), Z.mul_0_r, Z.add_0_r, load32_store32; [done|done|].
    intros i Hi. apply store32_other. unfold demo_pgdir, demo_table. lia.
  - rewrite (load32_ext (ram demo_kmem)).
    + pose proof (demo_no_tab d Hd) as Ht. unfold tab in Ht. by destruct (present _).
    + intros i Hi. rewrite !store32_other; [done|unfold demo_pgdir, demo_table; lia..].
Qed.

Lemma demo_parent_pte va : 0 ≤ va < two32 →
  pte_of (pa_ram demo_parent) demo_pgdir va = if decide (va / PGSIZE = 0) then V2P demo_frame + 7 else 0.
Proof.
  intros Hva. unfold pte_of. rewrite demo_parent_tab by apply PDX_range.
  change (0 = 0) with (0 / PGSIZE = 0). pose proof (same_index 0 va ltac:(done) Hva) as Hs.
  change (PDX 0) with 0 in Hs. change (PTX 0) with 0 in Hs. change (0 / PGSIZE) with 0 in Hs.
  destruct (decide (va / PGSIZE = 0)) as [E|E].
  - destruct (proj2 Hs E) as [-> ->]. rewrite decide_True by done. rewrite Z.mul_0_r, Z.add_0_r.
    change (pa_ram demo_parent) with (store32 (store32 (ram demo_kmem) demo_pgdir (V2P demo_table + 7)) demo_table (V2P demo_frame + 7)).
    by rewrite load32_store32.
  - case_decide as E0; [|done]. assert (PTX va ≠ 0) by tauto. pose proof (PTX_range va).
    rewrite (load32_ext (λ _, 0)); [done|]. intros i Hi.
    change (pa_ram demo_parent) with (store32 (store32 (ram demo_kmem) demo_pgdir (V2P demo_table + 7)) demo_table (V2P demo_frame + 7)).
    rewrite !store32_other by (unfold demo_pgdir, demo_table; lia). cbn [ram demo_kmem].
    by rewrite !store32_other by (unfold demo_p1, demo_p2, demo_table; lia).
Qed.

Lemma demo_parent_frame va : 0 ≤ va < KERNBASE →
  frame (pa_ram demo_parent) demo_pgdir va = if decide (va / PGSIZE = 0) then Some demo_frame else None.
Proof. intros Hva. unfold frame. rewrite demo_parent_pte by (unfold KERNBASE, two32 in *; lia). by case_decide. Qed.

Lemma demo_parent_owns p : owns (pa_ram demo_parent) demo_pgdir p → p = demo_pgdir ∨ p = demo_table.
Proof.
  intros [->|(d & Hd & Ht)]; [by left|right]. rewrite demo_parent_tab in Ht by done. case_decide; congruence.
Qed.

Lemma demo_parent_ok : space_ok demo_parent [demo_p1; demo_p2] demo_pgdir.
Proof.
  split; [split| |].
  - apply pa_ok_write; [apply demo_space|]. intros p a Hp Ha. rewrite !elem_of_cons, elem_of_nil in Hp.
    unfold in_page, PGSIZE in Ha. apply eq_trans with (store32 (ram demo_kmem) demo_pgdir (V2P demo_table + 7) a); apply store32_other;
      destruct Hp as [->|[->|[]]]; unfold demo_p1, demo_p2, demo_pgdir, demo_table in *; lia.
  - split.
    + cbn [pa_page demo_copy_pages kalloc_pages]. unfold page. by vm_compute.
    + intros d t Hd. rewrite demo_parent_tab by done. case_decide; [|done]. intros [= <-]. split; [|done].
      cbn [pa_page demo_copy_pages kalloc_pages]. unfold page. by vm_compute.
    + intros d d' t Hd Hd'. rewrite !demo_parent_tab by done. repeat case_decide; congruence.
  - intros p [->| ->]%demo_parent_owns; rewrite !elem_of_cons, elem_of_nil; intros [?|[?|?]]; done.
  - intros va f Hva. rewrite demo_parent_frame by done. case_decide; [|done]. intros [= <-].
    split; [cbn [pa_page demo_copy_pages kalloc_pages]; unfold page; by vm_compute|].
    split; [rewrite !elem_of_cons, elem_of_nil; intros [?|[?|?]]; done|]. by intros [?|?]%demo_parent_owns.
  - intros va va' f Hva Hva'. rewrite !demo_parent_frame by done. repeat case_decide; congruence.
Qed.

Lemma copyuvm_copies_witness :
  returns (copyuvm (KERNLINK + 4096) demo_pgdir 4096) demo_parent (λ d s',
    d = 0 ∨ copied_page demo_parent demo_pgdir s' d 100).
Proof.
  eapply returns_mono;
    [apply (copyuvm_copies (KERNLINK + 4096) demo_parent [demo_p1; demo_p2] demo_pgdir 4096 ltac:(by vm_compute) demo_parent_ok)|].
  - split; [lia|by vm_compute].
  - intros va Hva. rewrite demo_parent_frame by (unfold KERNBASE; lia). by rewrite decide_True by (apply Z.div_small; plia).
  - intros d s' [_ [[-> _]|(_ & l' & _ & _ & Hc & _)]]; [by left|right]. apply Hc. lia.
Defined.

Lemma freevm_frees_all_witness :
  returns (freevm demo_pgdir) demo_parent (λ _ s', ∃ l', pa_ok s' l' ∧ demo_frame ∈ l').
Proof.
  eapply returns_mono; [apply (freevm_frees_all demo_pgdir demo_parent [demo_p1; demo_p2] demo_parent_ok)|].
  intros [] s' (l' & Hok & _ & Hl & _). exists l'. split; [exact Hok|]. apply Hl. right. right. exists 0.
  split; [by vm_compute|]. rewrite demo_parent_frame by (by vm_compute). done.
Defined.
