(* ===== verification/Kernel.v ===== *)
(** The kernel as a whole: the process table, the running CPU, physical memory,
    the file system, the file table and the pipes in one state, the operations
    of the components run on their part of it, and what processes use to wait
    for each other: [sched], [yield], [sleep], [wakeup] and [kill] (proc.c).

    A call that reaches [sched] ends in [Block]: the processor goes to the
    scheduler.  What such a call does when it is resumed is a definition of its
    own.  Waiting for a sleep lock, which Sleeplock.v describes, is [Block] as well. *)

From S2P Require Import Prelude Layout CString ProcTable Sched Spinlock Pipe Bytes Fs PageAlloc Vm.

Definition NFILE : nat := 100.

Inductive fdtype := FD_NONE | FD_PIPE | FD_INODE.

#[export] Instance fdtype_eq : EqDecision fdtype.
Proof. solve_decision. Defined.

(** [struct file]; a [struct pipe *] is the address of the pipe's page, a
    [struct inode *] the index of the entry of the inode cache. *)
Record file := mkfile {
  ftype : fdtype; fref : Z; readable : bool; writable : bool;
  fpipe : Z; fip : option nat; foff : Z
}.

#[export] Instance file_eta : Eta file := λ f,
  mkfile (ftype f) (fref f) (readable f) (writable f) (fpipe f) (fip f) (foff f).

Definition file0 : file := mkfile FD_NONE 0 false false 0 None 0.

(** The spin locks beside [ptable.lock] that a process may hold when it sleeps. *)
Inductive klock := LKftable | LKpipe (p : Z) | LKticks | LKlog.

#[export] Instance klock_eq : EqDecision klock.
Proof. solve_decision. Defined.

(** [k_tx] and [k_committing] are [log.outstanding], the number of file system calls
    between [begin_op] and [end_op], and [log.committing]; [k_out] is the text that
    [my_syscall] has printed. *)
Record kernel (S : Type) := mkk {
  k_pt : ptst;
  k_cpu : Cli.cpu;
  k_mem : S;
  k_fs : fsys;
  k_ftable : list file;
  k_pipes : gmap Z pipe;
  k_locks : list klock;
  k_ticks : Z;
  k_tx : Z;
  k_committing : bool;
  k_out : list Z
}.

Arguments mkk {S}.
Arguments k_pt {S}.
Arguments k_cpu {S}.
Arguments k_mem {S}.
Arguments k_fs {S}.
Arguments k_ftable {S}.
Arguments k_pipes {S}.
Arguments k_locks {S}.
Arguments k_ticks {S}.
Arguments k_tx {S}.
Arguments k_committing {S}.
Arguments k_out {S}.

#[export] Instance kernel_eta {S} : Eta (kernel S) := λ k,
  mkk (k_pt k) (k_cpu k) (k_mem k) (k_fs k) (k_ftable k) (k_pipes k) (k_locks k) (k_ticks k) (k_tx k)
    (k_committing k) (k_out k).

Section Kernel.
Context {S : Type} `{PA : PageAlloc S}.
#[local] Abbreviation K := (kernel S).

(** Running an operation of one component. *)
Definition on_pt {A} : M ptst A → M K A := zoom k_pt (λ s k, k <| k_pt := s |>).
Definition on_cpu {A} : M Cli.cpu A → M K A := zoom k_cpu (λ s k, k <| k_cpu := s |>).
Definition on_mem {A} : M S A → M K A := zoom k_mem (λ s k, k <| k_mem := s |>).

(** The file system runs for the current process and its directory. *)
Definition fs_view (k : K) : fsys :=
  match cpu_proc (k_pt k) with
  | Some i =>
      match procs (k_pt k) !! i with
      | Some p => (k_fs k) <| me := i |> <| Fs.cwd := default 0%nat (ProcTable.cwd p) |>
      | None => k_fs k
      end
  | None => k_fs k
  end.
Definition on_fs {A} : M fsys A → M K A := zoom fs_view (λ s k, k <| k_fs := s |>).

Definition curproc : M K nat := on_pt cur.
Definition procn (i : nat) : M K proc := on_pt (getp i).
Definition setproc (i : nat) (f : proc → proc) : M K unit := on_pt (updp i f).

(** ** Locks *)

Definition acquire (l : klock) : M K unit :=
  _ ← on_cpu Cli.pushcli;
  ls ← gets k_locks;
  if bool_decide (l ∈ ls) then panic "acquire" else modify (λ k, k <| k_locks := l :: ls |>).

Definition release (l : klock) : M K unit :=
  ls ← gets k_locks;
  if bool_decide (l ∈ ls) then
    _ ← modify (λ k, k <| k_locks := filter (λ m, m ≠ l) ls |>);
    on_cpu Cli.popcli
  else panic "release".

Definition acquire_pt : M K unit := _ ← on_cpu Cli.pushcli; on_pt acquire_ptable.
Definition release_pt : M K unit := _ ← on_pt release_ptable; on_cpu Cli.popcli.

(** ** Waiting *)

Definition sched {A} : M K A :=
  p ← curproc;
  l ← gets (λ k, ptable_lock (k_pt k));
  if negb l then panic "sched ptable.lock" else
  n ← gets (λ k, Cli.ncli (k_cpu k));
  if negb (n =? 1) then panic "sched locks" else
  q ← procn p;
  if bool_decide (state q = RUNNING) then panic "sched running" else
  b ← gets (λ k, Cli.FL_IF (k_cpu k));
  if b : bool then panic "sched interruptible" else block.

(** [yield], up to the scheduler; resumed, it releases [ptable.lock] and returns. *)
Definition yield {A} : M K A :=
  _ ← acquire_pt;
  p ← curproc;
  _ ← setproc p (λ q, q <| state := RUNNABLE |>);
  sched.
Definition yield_resumed : M K Z := _ ← release_pt; mret 0.

(** [sleep(chan, lk)], where [None] is [&ptable.lock]; [slept] is what it does
    when the process runs again. *)
Definition sleep {A} (c : chan) (lk : option klock) : M K A :=
  q ← on_pt myproc;
  match q with
  | None => panic "sleep"
  | Some p =>
      _ ← match lk with
          | Some l => _ ← acquire_pt; release l
          | None => skip
          end;
      _ ← setproc p (λ q, q <| chan_ := c |> <| state := SLEEPING |>);
      sched
  end.

Definition slept (lk : option klock) : M K unit :=
  p ← curproc;
  _ ← setproc p (λ q, q <| chan_ := Cnull |>);
  match lk with
  | Some l => _ ← release_pt; acquire l
  | None => skip
  end.

(** [wakeup1] on the table, where a [struct proc *] may be the channel. *)
Definition wake (c : chan) (q : proc) : proc :=
  if bool_decide (state q = SLEEPING) && bool_decide (chan_ q = c) then q <| state := RUNNABLE |> else q.

Definition wakeup1 (c : chan) : M K unit :=
  on_pt (modify (λ s, s <| procs := each (λ _, wake c) (procs s) |>)).

Definition wakeup (c : chan) : M K unit := _ ← acquire_pt; _ ← wakeup1 c; release_pt.

Definition chan_of (q : option nat) : chan := match q with Some i => Cproc i | None => Cnull end.

(** The loop of [kill] from entry [i] on: the first process with that pid. *)
Fixpoint kill_scan (pd : Z) (i : nat) (l : list proc) : option nat :=
  match l with
  | [] => None
  | p :: l => if pid p =? pd then Some i else kill_scan pd (Datatypes.S i) l
  end.

Definition kill_proc (p : proc) : proc :=
  let p := p <| killed := 1 |> in
  if bool_decide (state p = SLEEPING) then p <| state := RUNNABLE |> else p.

Definition kill (pd : Z) : M K Z :=
  _ ← acquire_pt;
  tab ← gets (λ k, procs (k_pt k));
  match kill_scan pd 0 tab with
  | Some i => _ ← setproc i kill_proc; _ ← release_pt; mret 0
  | None => _ ← release_pt; mret (-1)
  end.

(** [kill_lwpgroup(pid, np)]: the other threads of the group. *)
Definition kill_lwpgroup (pd : Z) (np : nat) : M K Z :=
  _ ← acquire_pt;
  n ← procn np;
  if isthread n =? 1 then
    tab ← gets (λ k, procs (k_pt k));
    _ ← for_ (length tab) 0 (λ j,
      p ← procn (Z.to_nat j);
      if negb (isthread p =? 1) then skip else
      m ← on_pt (deref (mother p));
      mp ← procn m;
      n ← procn np;
      when ((pid mp =? pd) && negb (pid p =? pid n)) (setproc (Z.to_nat j) kill_proc));
    _ ← release_pt; mret 0
  else _ ← release_pt; mret (-1).

(** ** Transactions

    [begin_op] and [end_op] on the blocks the file system sees; Log.v has the log on the
    disk.  [log.lh.n] is the number of blocks in [logged], and [commit_view] is what
    [commit] does to the blocks. *)

Definition MAXOPBLOCKS : Z := 10.
Definition LOGSIZE : Z := MAXOPBLOCKS * 3.

(** [&log] as a channel. *)
Definition ch_log : chan := Caddr 1.

Definition commit_view (s : fsys) : fsys :=
  s <| base := λ b, if decide (b ∈ logged s) then blocks s b else base s b |> <| logged := ∅ |>.

(** The loop of [begin_op] with [log.lock] held; a process that slept goes on with it. *)
Definition begin_op_go : M K unit :=
  c ← gets k_committing;
  n ← gets (λ k, Z.of_nat (base.size (logged (k_fs k))));
  o ← gets k_tx;
  if c : bool then sleep ch_log (Some LKlog)
  else if LOGSIZE <? n + (o + 1) * MAXOPBLOCKS then sleep ch_log (Some LKlog)
  else
    _ ← modify (λ k, k <| k_tx := o + 1 |>);
    release LKlog.

Definition begin_op : M K unit := _ ← acquire LKlog; begin_op_go.

Definition end_op : M K unit :=
  _ ← acquire LKlog;
  _ ← modify (λ k, k <| k_tx := k_tx k - 1 |>);
  c ← gets k_committing;
  if c : bool then panic "log.committing" else
  o ← gets k_tx;
  _ ← (if o =? 0 then modify (λ k, k <| k_committing := true |>) else wakeup ch_log);
  _ ← release LKlog;
  when (o =? 0)
    (_ ← modify (λ k, k <| k_fs := commit_view (k_fs k) |>);
     _ ← acquire LKlog;
     _ ← modify (λ k, k <| k_committing := false |>);
     _ ← wakeup ch_log;
     release LKlog).

(** ** Rules *)

Lemma returns_zoom {T U A} (get : U → T) (put : T → U → U) (m : M T A) u (Q : A → U → Prop) :
  returns m (get u) (λ a t, Q a (put t u)) → returns (zoom get put m) u Q.
Proof. unfold returns, zoom. destruct (m (get u)); done. Qed.
End Kernel.
