(* ===== verification/File.v ===== *)
(** Open files (file.c) and the pipes behind them (pipe.c): the file table with
    its reference counts, and reading and writing a file by the kind of object it
    stands for.

    The buffer that a call reads from or writes to is passed as the list of its
    bytes.  A call that sleeps in a pipe ends in [Block]; [piperead_go] and
    [pipewrite_go] are the loops it goes on with after [slept]. *)

From S2P Require Import Prelude Layout CString ProcTable Sched Spinlock Pipe Bytes Fs PageAlloc Vm Kernel.

Section File.
Context {S : Type} `{PA : PageAlloc S}.
#[local] Abbreviation K := (kernel S).

(** [devsw] *)
Variable dev_read : Z → option (nat → Z → M fsys (Z * list Z)).
Variable dev_write : Z → option (nat → list Z → M fsys Z).

Definition getf (f : nat) : M K file := λ k,
  match k_ftable k !! f with Some ff => Ok ff k | None => Undef "struct file *" end.
Definition setf (f : nat) (g : file → file) : M K unit :=
  modify (λ k, k <| k_ftable := alter g f (k_ftable k) |>).

(** [f->ip] *)
Definition inode_of (ff : file) : M K nat :=
  match fip ff with Some i => mret i | None => undef "null struct inode *" end.

Fixpoint falloc_scan (i : nat) (l : list file) : option nat :=
  match l with
  | [] => None
  | f :: l => if fref f =? 0 then Some i else falloc_scan (Datatypes.S i) l
  end.

Definition filealloc : M K (option nat) :=
  _ ← acquire LKftable;
  l ← gets k_ftable;
  match falloc_scan 0 l with
  | Some f => _ ← setf f (λ ff, ff <| fref := 1 |>); _ ← release LKftable; mret (Some f)
  | None => _ ← release LKftable; mret None
  end.

Definition filedup (f : nat) : M K nat :=
  _ ← acquire LKftable;
  ff ← getf f;
  if fref ff <? 1 then panic "filedup" else
  _ ← setf f (λ ff, ff <| fref := fref ff + 1 |>);
  _ ← release LKftable;
  mret f.

(** ** Pipes *)

(** [&p->nread] and [&p->nwrite], after the lock (52 bytes) and the data. *)
Definition ch_nread (p : Z) : chan := Caddr (p + 564).
Definition ch_nwrite (p : Z) : chan := Caddr (p + 568).

Definition getpipe (p : Z) : M K pipe := λ k,
  match k_pipes k !! p with Some pp => Ok pp k | None => Undef "struct pipe *" end.
Definition setpipe (p : Z) (pp : pipe) : M K unit := modify (λ k, k <| k_pipes := <[p := pp]> (k_pipes k) |>).

(** [pipeclose]: both ends closed, the page is freed. *)
Definition kpipeclose (p : Z) (w : bool) : M K unit :=
  _ ← acquire (LKpipe p);
  pp ← getpipe p;
  let pp := Pipe.pipeclose w pp in
  _ ← setpipe p pp;
  _ ← wakeup (if w then ch_nread p else ch_nwrite p);
  if negb (readopen pp) && negb (writeopen pp) then
    _ ← release (LKpipe p);
    _ ← on_mem (pa_kfree p);
    modify (λ k, k <| k_pipes := delete p (k_pipes k) |>)
  else release (LKpipe p).

(** The loop of [pipewrite] with the lock held and [rest] still to be written. *)
Definition pipewrite_go (p : Z) (n : Z) (rest : list Z) : M K Z :=
  pp ← getpipe p;
  c ← curproc; q ← procn c;
  match Pipe.pipewrite (negb (killed q =? 0)) rest pp with
  | (Wdone, pp) =>
      _ ← setpipe p pp; _ ← wakeup (ch_nread p); _ ← release (LKpipe p); mret n
  | (Wfail _, pp) => _ ← setpipe p pp; _ ← release (LKpipe p); mret (-1)
  | (Wsleep _, pp) =>
      _ ← setpipe p pp; _ ← wakeup (ch_nread p); sleep (ch_nwrite p) (Some (LKpipe p))
  end.

Definition kpipewrite (p : Z) (addr : list Z) : M K Z :=
  _ ← acquire (LKpipe p); pipewrite_go p (Z.of_nat (length addr)) addr.

Definition piperead_go (p : Z) (n : Z) : M K (Z * list Z) :=
  pp ← getpipe p;
  c ← curproc; q ← procn c;
  match Pipe.piperead (negb (killed q =? 0)) n pp with
  | (Rdone l, pp) =>
      _ ← setpipe p pp; _ ← wakeup (ch_nwrite p); _ ← release (LKpipe p);
      mret (Z.of_nat (length l), l)
  | (Rfail, _) => _ ← release (LKpipe p); mret (-1, [])
  | (Rsleep, _) => sleep (ch_nread p) (Some (LKpipe p))
  end.

Definition kpiperead (p n : Z) : M K (Z * list Z) := _ ← acquire (LKpipe p); piperead_go p n.

(** ** Closing *)

(** [fileclose] up to the release of [ftable.lock]: the file as it was where this was
    the last reference. *)
Definition fileclose_ref (f : nat) : M K (option file) :=
  _ ← acquire LKftable;
  ff ← getf f;
  if fref ff <? 1 then panic "fileclose" else
  _ ← setf f (λ ff, ff <| fref := fref ff - 1 |>);
  if 0 <? fref ff - 1 then _ ← release LKftable; mret None else
  let ff := ff <| fref := fref ff - 1 |> in
  _ ← setf f (λ ff, ff <| fref := 0 |> <| ftype := FD_NONE |>);
  _ ← release LKftable;
  mret (Some ff).

(** The rest of it, where the process may sleep. *)
Definition fileclose_last (ff : file) : M K unit :=
  match ftype ff with
  | FD_PIPE => kpipeclose (fpipe ff) (writable ff)
  | FD_INODE => i ← inode_of ff; _ ← begin_op; _ ← on_fs (iput i); end_op
  | FD_NONE => skip
  end.

Definition fileclose (f : nat) : M K unit :=
  r ← fileclose_ref f;
  match r with
  | Some ff => fileclose_last ff
  | None => skip
  end.

(** [pipealloc(&f0, &f1)]: 0 and the two files, or -1. *)
Definition pipealloc_bad (p : Z) (f0 f1 : option nat) : M K (option (nat * nat)) :=
  _ ← when (negb (p =? 0)) (on_mem (pa_kfree p));
  _ ← match f0 with Some f => fileclose f | None => skip end;
  _ ← match f1 with Some f => fileclose f | None => skip end;
  mret None.

Definition pipealloc : M K (option (nat * nat)) :=
  f0 ← filealloc;
  match f0 with
  | None => pipealloc_bad 0 None None
  | Some f0 =>
  f1 ← filealloc;
  match f1 with
  | None => pipealloc_bad 0 (Some f0) None
  | Some f1 =>
  p ← on_mem pa_kalloc;
  if p =? 0 then pipealloc_bad 0 (Some f0) (Some f1) else
  _ ← modify (λ k, k <| k_pipes := <[p := pipe_init (λ i, pa_ram (k_mem k) (p + 52 + i))]> (k_pipes k) |>);
  _ ← setf f0 (λ ff, ff <| ftype := FD_PIPE |> <| readable := true |> <| writable := false |> <| fpipe := p |>);
  _ ← setf f1 (λ ff, ff <| ftype := FD_PIPE |> <| readable := false |> <| writable := true |> <| fpipe := p |>);
  mret (Some (f0, f1))
  end end.

(** ** Reading and writing *)

(** [filestat]: 0 and the attributes, or -1. *)
Definition filestat (f : nat) : M K (Z * option stat) :=
  ff ← getf f;
  match ftype ff with
  | FD_INODE =>
      i ← inode_of ff;
      _ ← on_fs (ilock i);
      st ← on_fs (stati i);
      _ ← on_fs (iunlock i);
      mret (0, Some st)
  | _ => mret (-1, None)
  end.

(** The result and the bytes stored at [addr]. *)
Definition fileread (f : nat) (n : Z) : M K (Z * list Z) :=
  ff ← getf f;
  if negb (readable ff) then mret (-1, []) else
  match ftype ff with
  | FD_PIPE => kpiperead (fpipe ff) n
  | FD_INODE =>
      i ← inode_of ff;
      _ ← on_fs (ilock i);
      r ← on_fs (readi dev_read i (foff ff) n);
      _ ← when (0 <? r.1) (setf f (λ ff, ff <| foff := u32 (foff ff + r.1) |>));
      _ ← on_fs (iunlock i);
      mret r
  | FD_NONE => panic "fileread"
  end.

Definition filepread (f : nat) (n off : Z) : M K (Z * list Z) :=
  ff ← getf f;
  if negb (readable ff) then mret (-1, []) else
  match ftype ff with
  | FD_PIPE => kpiperead (fpipe ff) n
  | FD_INODE =>
      i ← inode_of ff;
      _ ← on_fs (ilock i);
      r ← on_fs (readi dev_read i (u32 off) n);
      _ ← on_fs (iunlock i);
      mret r
  | FD_NONE => panic "fileread"
  end.

Definition max_write : Z := (MAXOPBLOCKS - 1 - 1 - 2) / 2 * 512.

(** One round of the loops of [filewrite] and [filepwrite] writes [chunk] at the
    offset [off] in a transaction of its own. *)
Definition write_chunk (i : nat) (off : Z) (chunk : list Z) : M K Z :=
  _ ← begin_op;
  _ ← on_fs (ilock i);
  on_fs (writei dev_write i off chunk).

Fixpoint filewrite_loop (fuel : nat) (f i : nat) (rest : list Z) : M K bool :=
  match rest with
  | [] => mret true
  | _ =>
    match fuel with
    | O => λ _, NoFuel
    | Datatypes.S fuel =>
        let n1 := Z.min (Z.of_nat (length rest)) max_write in
        ff ← getf f;
        r ← write_chunk i (foff ff) (take (Z.to_nat n1) rest);
        _ ← when (0 <? r) (setf f (λ ff, ff <| foff := u32 (foff ff + r) |>));
        _ ← on_fs (iunlock i);
        _ ← end_op;
        if r <? 0 then mret false else
        if negb (r =? n1) then panic "short filewrite" else
        filewrite_loop fuel f i (drop (Z.to_nat r) rest)
    end
  end.

Fixpoint filepwrite_loop (fuel : nat) (i : nat) (offset : Z) (rest : list Z) : M K bool :=
  match rest with
  | [] => mret true
  | _ =>
    match fuel with
    | O => λ _, NoFuel
    | Datatypes.S fuel =>
        let n1 := Z.min (Z.of_nat (length rest)) max_write in
        r ← write_chunk i offset (take (Z.to_nat n1) rest);
        _ ← on_fs (iunlock i);
        _ ← end_op;
        if r <? 0 then mret false else
        if negb (r =? n1) then panic "short filewrite" else
        filepwrite_loop fuel i (u32 (offset + r)) (drop (Z.to_nat r) rest)
    end
  end.

Definition filewrite (f : nat) (addr : list Z) : M K Z :=
  ff ← getf f;
  if negb (writable ff) then mret (-1) else
  match ftype ff with
  | FD_PIPE => kpipewrite (fpipe ff) addr
  | FD_INODE =>
      i ← inode_of ff;
      b ← filewrite_loop (length addr) f i addr;
      mret (if b : bool then Z.of_nat (length addr) else -1)
  | FD_NONE => panic "filewrite"
  end.

Definition filepwrite (f : nat) (addr : list Z) (off : Z) : M K Z :=
  ff ← getf f;
  if negb (writable ff) then mret (-1) else
  match ftype ff with
  | FD_PIPE => kpipewrite (fpipe ff) addr
  | FD_INODE =>
      i ← inode_of ff;
      b ← filepwrite_loop (length addr) i (u32 off) addr;
      mret (if b : bool then Z.of_nat (length addr) else -1)
  | FD_NONE => panic "filewrite"
  end.
End File.
