(* ===== verification/Proc.v ===== *)
(** The life of processes and threads (proc.c): [allocproc], [userinit],
    [growproc], [fork], [exit], [wait], [thread_create], [thread_exit] and
    [thread_join].

    [exit], [wait] and the thread calls run up to the point where they give up
    the processor; [wait_body], [join_body] and [exit_threads] are the loops
    they go on with.  The kernel stack of a process holds its trap frame, which
    is the field [tf] of the process, below it the return address and the
    context that [allocproc] writes. *)

From S2P Require Import Prelude Layout CString ProcTable Sched Spinlock Pipe Bytes Fs PageAlloc Vm Kernel File.

Section Proc.
Context {S : Type} `{PA : PageAlloc S}.
#[local] Abbreviation K := (kernel S).

(** Addresses of the linker: the end of the kernel's text, [trapret] and [forkret]. *)
Variable data : Z.
Variable trapret : Z.
Variable forkret_addr : Z.

(** [safestrcpy(p->name, s, sizeof(p->name))] *)
Definition proc_name (s : string) : string := String.substring 0 15 s.

(** ** Creating processes *)

Fixpoint unused_scan (i : nat) (l : list proc) : option nat :=
  match l with
  | [] => None
  | p :: l => if bool_decide (state p = UNUSED) then Some i else unused_scan (Datatypes.S i) l
  end.

(** The assignments at [found] that do not depend on the state. *)
Definition embryo (pd : Z) (p : proc) : proc :=
  p <| state := EMBRYO |> <| pid := pd |> <| tick := 0 |> <| MLFQ_lv := HIGH |>
    <| proc_mode := MLFQ |> <| CPU_SHARE := 0 |> <| PASS := 0 |>
    <| hasthread := 0 |> <| isthread := 0 |> <| exiting := 0 |>
    <| CPU_share_Stride := 0 |> <| PASS_MLFQ := 0 |> <| PASS_Stride := 0 |>
    <| max_stride_thread_pass := 0 |> <| total_ticks_MLFQ := 0 |> <| CPU_S := 0 |>
    <| m_tick := 0 |> <| m_MLFQ_lv := HIGH |>.

(** Sizes of [struct trapframe] and [struct context]; offset of [context.eip]. *)
Definition SIZE_TF : Z := 76.
Definition SIZE_CTX : Z := 20.

Definition allocproc : M K (option nat) :=
  _ ← acquire_pt;
  tab ← gets (λ k, procs (k_pt k));
  match unused_scan 0 tab with
  | None => _ ← release_pt; mret None
  | Some p =>
      n ← gets (λ k, nextpid (k_pt k));
      n' ← sadd n 1;
      _ ← setproc p (embryo n);
      _ ← modify (λ k, k <| k_pt := (k_pt k) <| nextpid := n' |> |>);
      _ ← release_pt;
      m ← on_mem pa_kalloc;
      _ ← setproc p (λ q, q <| kstack := m |>);
      if m =? 0 then _ ← setproc p (λ q, q <| state := UNUSED |>); mret None else
      let sp := m + KSTACKSIZE - SIZE_TF - 4 in
      _ ← on_mem (st sp trapret);
      let sp := sp - SIZE_CTX in
      _ ← on_mem (do_memset sp 0 SIZE_CTX);
      _ ← on_mem (st (sp + 16) forkret_addr);
      mret (Some p)
  end.

(** [userinit]; [initcode] is the binary of initcode.S, [namei] looks up a path. *)
Definition userinit (initcode : list Z) (namei_root : M K (option nat)) : M K unit :=
  _ ← modify (λ k, k <| k_pt := (k_pt k) <| nm_total_ticks := 0 |> <| ns_CPU_share_Stride := 0 |>
                                   <| ns_PASS_MLFQ := 0 |> <| ns_PASS_Stride := 0 |> |>);
  q ← allocproc;
  _ ← modify (λ k, k <| k_pt := (k_pt k) <| initproc := q |> |>);
  p ← on_pt (deref q);
  d ← on_mem (setupkvm data);
  _ ← setproc p (λ q, q <| pgdir := d |>);
  if d =? 0 then panic "userinit: out of memory?" else
  _ ← on_mem (inituvm d initcode);
  _ ← setproc p (λ q, q <| sz := PGSIZE |>
       <| tf := tf0 <| cs := 27 |> <| ds := 35 |> <| es := 35 |> <| ss := 35 |>
                    <| eflags := 512 |> <| esp := PGSIZE |> <| eip := 0 |> |>
       <| name := "initcode" |>);
  c ← namei_root;
  _ ← setproc p (λ q, q <| ProcTable.cwd := c |>);
  _ ← acquire_pt;
  _ ← setproc p (λ q, q <| state := RUNNABLE |>);
  release_pt.

Definition growproc (n : Z) : M K Z :=
  c ← curproc; p ← procn c;
  r ← (if 0 <? n then
         s ← on_mem (allocuvm (pgdir p) (sz p) (u32 (sz p + n)));
         mret (if s =? 0 then None else Some s)
       else if n <? 0 then
         s ← on_mem (deallocuvm (pgdir p) (sz p) (u32 (sz p + n)));
         mret (if s =? 0 then None else Some s)
       else mret (Some (sz p)));
  match r with
  | None => mret (-1)
  | Some s =>
      _ ← setproc c (λ q, q <| sz := s |>);
      _ ← on_pt (switchuvm c);
      mret 0
  end.

(** [for(i = 0; i < NOFILE; i++) if(from->ofile[i]) to->ofile[i] = filedup(from->ofile[i])] *)
Definition dup_files (from to : nat) : M K unit :=
  for_ NOFILE 0 (λ i,
    p ← procn from;
    match ofile p !! Z.to_nat i with
    | Some (Some f) =>
        g ← filedup f;
        setproc to (λ q, q <| ofile := <[Z.to_nat i := Some g]> (ofile q) |>)
    | _ => skip
    end).

(** [to->cwd = idup(from->cwd)] *)
Definition dup_cwd (from to : nat) : M K unit :=
  p ← procn from;
  match ProcTable.cwd p with
  | None => undef "idup(0)"
  | Some c => d ← on_fs (idup c); setproc to (λ q, q <| ProcTable.cwd := Some d |>)
  end.

(** [fork_child]: if the process has children, the second loop of the function
    assigns an element of an array that was never written to its loop variable. *)
Definition fork_child (old : nat) : M K Z :=
  tab ← gets (λ k, procs (k_pt k));
  if existsb (λ p, bool_decide (parent p = Some old)) tab
  then undef "fork_child: oldthreads[i] is not initialised" else mret 0.

Definition fork : M K Z :=
  c ← curproc;
  q ← allocproc;
  match q with
  | None => mret (-1)
  | Some np =>
      p ← procn c;
      d ← on_mem (copyuvm data (pgdir p) (sz p));
      _ ← setproc np (λ q, q <| pgdir := d |>);
      if d =? 0 then
        n ← procn np;
        _ ← on_mem (pa_kfree (kstack n));
        _ ← setproc np (λ q, q <| kstack := 0 |> <| state := UNUSED |>);
        mret (-1)
      else
      _ ← setproc np (λ q, q <| sz := sz p |> <| parent := Some c |> <| tf := (tf p) <| eax := 0 |> |>);
      _ ← dup_files c np;
      _ ← dup_cwd c np;
      _ ← setproc np (λ q, q <| name := proc_name (name p) |>);
      n ← procn np;
      _ ← acquire_pt;
      _ ← setproc np (λ q, q <| state := RUNNABLE |>);
      p ← procn c;
      r ← (if hasthread p =? 1 then fork_child c else mret 0);
      if r =? -1 then mret (-1) else
      _ ← release_pt;
      mret (pid n)
  end.

(** ** Threads *)

(** The loop of [thread_create] that finds a stack: the index of the first slot
    whose thread has left. *)
Fixpoint slot_scan (i : nat) (l : list Z) : option nat :=
  match l with
  | [] => None
  | x :: l => if x =? 0 then Some i else slot_scan (Datatypes.S i) l
  end.

(** [t[i]] for a table of the process. *)
Definition tab_get (l : list Z) (i : nat) : Z := default 0 (l !! i).

(** Allocating the stack of slot [i]; [None] after [goto bad], with the lock held. *)
Definition thread_stack (c i : nat) : M K (option Z) :=
  p ← procn c;
  if negb (tab_get (sz_thread p) i =? 0) then mret (Some (tab_get (sz_thread p) i)) else
  let s := match i with O => sz p | Datatypes.S j => u32 (tab_get (sz_thread p) j + PGSIZE) end in
  _ ← acquire_pt;
  r ← on_mem (allocuvm (pgdir p) s (u32 (s + 3 * PGSIZE)));
  if r =? 0 then mret None else
  _ ← release_pt;
  let s := u32 (r - PGSIZE) in
  _ ← setproc c (λ q, q <| sz_thread := <[i := s]> (sz_thread q) |>);
  mret (Some s).

(** The four words pushed on the thread's stack. *)
Definition le32 (w : Z) : list Z := [u8 w; u8 (Z.shiftr w 8); u8 (Z.shiftr w 16); u8 (Z.shiftr w 24)].
Definition thread_args (arg : Z) : list Z := le32 4294967295 ++ le32 arg ++ le32 0 ++ le32 arg.

(** [thread_create]; [store] writes the thread's id through the pointer [thread]. *)
Definition thread_create (store : Z → M K unit) (start_routine arg : Z) : M K Z :=
  c ← curproc; p ← procn c;
  _ ← when (hasthread p =? 0)
    (setproc c (λ q, q <| sz_thread := replicate NTHREAD 0 |> <| ex_thread := replicate NTHREAD 0 |>
                       <| hasthread := 1 |>));
  q ← allocproc;
  match q with
  | None => mret (-1)
  | Some np =>
      p ← procn c;
      _ ← setproc np (λ q, q <| pgdir := pgdir p |> <| tf := tf p |>);
      ok ← match slot_scan 0 (ex_thread p) with
           | None => mret true
           | Some i =>
               r ← thread_stack c i;
               match r with
               | None => mret false
               | Some s =>
                   _ ← setproc np (λ q, q <| sz := s |>);
                   _ ← setproc c (λ q, q <| ex_thread := <[i := 1]> (ex_thread q) |>);
                   _ ← setproc np (λ q, q <| thread_num := Z.of_nat i |>);
                   mret true
               end
           end;
      if negb ok then mret (-1) else
      n ← procn np;
      let sp := u32 (sz n - 16) in
      r ← on_mem (copyout (pgdir n) sp (thread_args arg));
      if r <? 0 then mret (-1) else
      _ ← setproc np (λ q, q <| tf := (tf q) <| esp := sp |> <| eip := start_routine |> <| eax := 0 |> |>);
      _ ← store (pid n);
      _ ← setproc np (λ q, q <| isthread := 1 |> <| ret_val := 0 |> <| parent := Some c |>);
      p ← procn c;
      _ ← setproc np (λ q, q <| mother := if hasthread p =? 1 then Some c else mother p |>);
      _ ← dup_files c np;
      _ ← dup_cwd c np;
      _ ← setproc np (λ q, q <| name := proc_name (name p) |>);
      _ ← acquire_pt;
      _ ← setproc np (λ q, q <| state := RUNNABLE |>);
      _ ← release_pt;
      mret 0
  end.

(** [begin_op(); iput(p->cwd); end_op(); p->cwd = 0] *)
Definition drop_cwd (c : nat) : M K unit :=
  _ ← begin_op;
  p ← procn c;
  _ ← match ProcTable.cwd p with None => undef "iput(0)" | Some d => on_fs (iput d) end;
  _ ← end_op;
  setproc c (λ q, q <| ProcTable.cwd := None |>).

(** Passing abandoned children to init. *)
Definition reparent (c : nat) : M K unit :=
  for_ NPROC 0 (λ j,
    p ← procn (Z.to_nat j);
    i ← gets (λ k, initproc (k_pt k));
    when (bool_decide (parent p = Some c))
      (_ ← setproc (Z.to_nat j) (λ q, q <| parent := i |>);
       when (bool_decide (state p = ZOMBIE)) (wakeup1 (chan_of i)))).

Definition thread_exit (retval : Z) : M K unit :=
  c ← curproc;
  i ← gets (λ k, initproc (k_pt k));
  if bool_decide (i = Some c) then panic "init exiting" else
  _ ← drop_cwd c;
  _ ← acquire_pt;
  _ ← reparent c;
  _ ← setproc c (λ q, q <| state := ZOMBIE |> <| ret_val := retval |>);
  p ← procn c;
  _ ← wakeup1 (chan_of (parent p));
  _ ← sched (A := unit);
  panic "zombie exit".

(** Cleaning the entry [i] of a thread that has left. *)
Definition joined (s : Z) (init : option nat) (p : proc) : proc :=
  p <| kstack := 0 |> <| sz := s |> <| pid := 0 |> <| parent := None |> <| name := "" |> <| killed := 0 |>
    <| state := UNUSED |> <| tick := 0 |> <| MLFQ_lv := HIGH |> <| proc_mode := MLFQ |> <| CPU_SHARE := 0 |>
    <| PASS := 0 |> <| ret_val := 0 |> <| thread_num := -1 |> <| isthread := 0 |> <| mother := init |>.

Fixpoint join_scan (c : nat) (thread : Z) (i : nat) (l : list proc) : option nat :=
  match l with
  | [] => None
  | p :: l =>
      if bool_decide (parent p = Some c) && (pid p =? thread) && bool_decide (state p = ZOMBIE)
      then Some i else join_scan c thread (Datatypes.S i) l
  end.

(** A round of the loop of [thread_join] with [ptable.lock] held; [store] writes
    through [retval]. *)
Definition join_body (store : Z → M K unit) (thread : Z) : M K Z :=
  c ← curproc;
  tab ← gets (λ k, procs (k_pt k));
  match join_scan c thread 0 tab with
  | Some i =>
      p ← procn i;
      _ ← store (ret_val p);
      _ ← on_mem (pa_kfree (kstack p));
      m ← procn c;
      _ ← (if (0 <=? thread_num p) && (thread_num p <? Z.of_nat NTHREAD)
           then setproc c (λ q, q <| ex_thread := <[Z.to_nat (thread_num p) := 0]> (ex_thread q) |>)
           else undef "ex_thread index");
      init ← gets (λ k, initproc (k_pt k));
      _ ← setproc i (joined (sz m) init);
      _ ← release_pt;
      mret 0
  | None => sleep (Cproc c) None
  end.

Definition thread_join (store : Z → M K unit) (thread : Z) : M K Z :=
  _ ← acquire_pt; join_body store thread.

(** ** Leaving *)

(** One pass over the children of a process that has threads. *)
Definition exit_pass (c : nat) : M K unit :=
  for_ NPROC 0 (λ j,
    p ← procn (Z.to_nat j);
    if negb (bool_decide (parent p = Some c)) then skip else
    if bool_decide (state p = ZOMBIE) then _ ← thread_join (λ _, skip) (pid p); skip
    else
      _ ← setproc (Z.to_nat j) (λ q, q <| killed := 1 |>);
      wakeup1 (Cproc (Z.to_nat j))).

(** [RE:] the process spins until no child is left. *)
Definition exit_threads (c : nat) : M K unit :=
  _ ← exit_pass c;
  tab ← gets (λ k, procs (k_pt k));
  if existsb (λ p, bool_decide (parent p = Some c)) tab then block else skip.

Definition close_files (c : nat) : M K unit :=
  for_ NOFILE 0 (λ fd,
    p ← procn c;
    match ofile p !! Z.to_nat fd with
    | Some (Some f) =>
        _ ← fileclose f;
        setproc c (λ q, q <| ofile := <[Z.to_nat fd := None]> (ofile q) |>)
    | _ => skip
    end).

(** The rest of [exit] once the threads are gone, up to the call of [sched]. *)
Definition exit_rest (c : nat) : M K unit :=
  p ← procn c;
  _ ← when (isthread p =? 1)
    (m ← on_pt (deref (parent p));
     mp ← procn m;
     when (negb (exiting mp =? 1))
       (_ ← acquire_pt;
        _ ← setproc m (λ q, q <| killed := 1 |> <| exiting := 1 |>);
        release_pt));
  p ← procn c;
  _ ← when (bool_decide (proc_mode p = Stride))
    (t ← gets (λ k, ns_CPU_share_Stride (k_pt k));
     t ← sadd t (- CPU_SHARE p);
     modify (λ k, k <| k_pt := (k_pt k) <| ns_CPU_share_Stride := t |> |>));
  _ ← close_files c;
  _ ← drop_cwd c;
  _ ← acquire_pt;
  _ ← reparent c;
  _ ← setproc c (λ q, q <| state := ZOMBIE |>);
  p ← procn c;
  wakeup1 (chan_of (parent p)).

Definition exit : M K unit :=
  c ← curproc;
  i ← gets (λ k, initproc (k_pt k));
  if bool_decide (Some c = i) then panic "init exiting" else
  p ← procn c;
  _ ← when (hasthread p =? 1)
    (_ ← setproc c (λ q, q <| exiting := 1 |>); exit_threads c);
  _ ← exit_rest c;
  _ ← sched (A := unit);
  panic "zombie exit".

(** The scan of [wait]: the first child that has exited, or whether there are children. *)
Fixpoint wait_scan (c i : nat) (havekids : bool) (l : list proc) : nat + bool :=
  match l with
  | [] => inr havekids
  | p :: l =>
      if negb (bool_decide (parent p = Some c)) then wait_scan c (Datatypes.S i) havekids l
      else if bool_decide (state p = ZOMBIE) then inl i
      else wait_scan c (Datatypes.S i) true l
  end.

Definition reaped (p : proc) : proc :=
  p <| pid := 0 |> <| parent := None |> <| name := "" |> <| killed := 0 |> <| state := UNUSED |>.

(** A round of the loop of [wait] with [ptable.lock] held. *)
Definition wait_body : M K Z :=
  c ← curproc;
  tab ← gets (λ k, procs (k_pt k));
  match wait_scan c 0 false tab with
  | inl i =>
      p ← procn i;
      _ ← on_mem (pa_kfree (kstack p));
      _ ← setproc i (λ q, q <| kstack := 0 |>);
      _ ← on_mem (freevm (pgdir p));
      _ ← setproc i reaped;
      _ ← release_pt;
      mret (pid p)
  | inr havekids =>
      p ← procn c;
      if negb havekids || negb (killed p =? 0) then _ ← release_pt; mret (-1)
      else sleep (Cproc c) None
  end.

Definition wait : M K Z := _ ← acquire_pt; wait_body.
End Proc.
