(* ===== verification/Syscall.v ===== *)
(** System call arguments (syscall.c) and the calls of sysproc.c and
    prac_syscall.c.

    User memory is reached through the page directory of the running process: an
    access to a page that is not mapped, or a store to one that is not writable,
    is a trap in the kernel, which panics (trap.c). *)

From S2P Require Import Prelude Layout CString ProcTable Sched Xem Spinlock Pipe Bytes Fs PageAlloc Vm VmMap Kernel File Proc.

Section Syscall.
Context {S : Type} `{PA : PageAlloc S}.
#[local] Abbreviation K := (kernel S).

(** ** User memory *)

Definition cur_pgdir (k : K) : Z := P2V (cpu_cr3 (k_pt k)).

(** The address at which the kernel maps the memory behind [va]. *)
Definition translate (m : mem) (pgdir va : Z) (w : bool) : option Z :=
  let e := pte_of m pgdir va in
  if present e && (negb w || negb (Z.land e PTE_W =? 0))
  then Some (P2V (PTE_ADDR e) + va mod PGSIZE) else None.

Definition uload (va : Z) : M K Z := λ k,
  match translate (pa_ram (k_mem k)) (cur_pgdir k) va false with
  | Some a => Ok (pa_ram (k_mem k) a) k
  | None => Panic "trap"
  end.

Definition ustore (va b : Z) : M K unit := λ k,
  match translate (pa_ram (k_mem k)) (cur_pgdir k) va true with
  | Some a => Ok tt (k <| k_mem := pa_write (upd (pa_ram (k_mem k)) a (u8 b)) (k_mem k) |>)
  | None => Panic "trap"
  end.

Definition uload32 (va : Z) : M K Z :=
  a ← uload va; b ← uload (va + 1); c ← uload (va + 2); d ← uload (va + 3);
  mret (a + 256 * b + 65536 * c + 16777216 * d).

Fixpoint ustore_bytes (va : Z) (l : list Z) : M K unit :=
  match l with [] => skip | b :: l => _ ← ustore va b; ustore_bytes (va + 1) l end.

Fixpoint uload_bytes (va : Z) (n : nat) : M K (list Z) :=
  match n with
  | O => mret []
  | Datatypes.S n => b ← uload va; l ← uload_bytes (va + 1) n; mret (b :: l)
  end.

Definition ustore32 (va w : Z) : M K unit := ustore_bytes va (le32 w).

(** ** Arguments; [None] is the result -1 *)

Definition fetchint (addr : Z) : M K (option Z) :=
  c ← curproc; p ← procn c;
  if (sz p <=? addr) || (sz p <? u32 (addr + 4)) then mret None
  else w ← uload32 addr; mret (Some (s32 w)).

(** The loop of [fetchstr] over the characters from [s] up to [ep]. *)
Fixpoint fetchstr_loop (n : nat) (s : Z) : M K (option (list Z)) :=
  match n with
  | O => mret None
  | Datatypes.S n =>
      c ← uload s;
      if c =? 0 then mret (Some []) else
      r ← fetchstr_loop n (s + 1);
      mret (match r with Some l => Some (c :: l) | None => None end)
  end.

(** The string at [addr] as the list of its characters. *)
Definition fetchstr (addr : Z) : M K (option (list Z)) :=
  c ← curproc; p ← procn c;
  if sz p <=? addr then mret None else fetchstr_loop (Z.to_nat (sz p - addr)) addr.

Definition argint (n : Z) : M K (option Z) :=
  c ← curproc; p ← procn c; fetchint (u32 (esp (tf p) + 4 + 4 * n)).

Definition argptr (n size : Z) : M K (option Z) :=
  c ← curproc; p ← procn c;
  r ← argint n;
  match r with
  | None => mret None
  | Some i =>
      if (size <? 0) || (sz p <=? u32 i) || (sz p <? u32 (u32 i + size)) then mret None
      else mret (Some (u32 i))
  end.

Definition argstr (n : Z) : M K (option (list Z)) :=
  r ← argint n;
  match r with None => mret None | Some addr => fetchstr (u32 addr) end.

(** [if(arg... < 0) return -1] *)
Definition with_arg {A} (arg : M K (option A)) (f : A → M K Z) : M K Z :=
  r ← arg; match r with None => mret (-1) | Some a => f a end.

(** ** sysproc.c *)

Variable data trapret forkret_addr : Z.

Definition sys_fork : M K Z := fork data trapret forkret_addr.
Definition sys_exit : M K Z := _ ← exit; mret 0.
Definition sys_wait : M K Z := wait.
Definition sys_kill : M K Z := with_arg (argint 0) kill.
Definition sys_getpid : M K Z := c ← curproc; p ← procn c; mret (pid p).

Definition sys_sbrk : M K Z := with_arg (argint 0) (λ n,
  c ← curproc; p ← procn c;
  if isthread p =? 1 then
    _ ← setproc c (λ q, q <| sz := u32 (sz q + n) |>); mret (s32 (sz p))
  else
    r ← growproc n;
    mret (if r <? 0 then -1 else s32 (sz p))).

(** The address of [ticks] as a channel. *)
Definition ch_ticks : chan := Caddr 0.

(** The loop of [sys_sleep] with [tickslock] held. *)
Definition sleep_go (ticks0 n : Z) : M K Z :=
  t ← gets k_ticks;
  if u32 (t - ticks0) <? u32 n then
    c ← curproc; p ← procn c;
    if negb (killed p =? 0) then _ ← release LKticks; mret (-1)
    else sleep ch_ticks (Some LKticks)
  else _ ← release LKticks; mret 0.

Definition sys_sleep : M K Z := with_arg (argint 0) (λ n,
  _ ← acquire LKticks; ticks0 ← gets k_ticks; sleep_go ticks0 n).

Definition sys_uptime : M K Z :=
  _ ← acquire LKticks; x ← gets k_ticks; _ ← release LKticks; mret (s32 x).

(** ** prac_syscall.c *)

(** 0xABCDABCD as an [int] *)
Definition MY_MAGIC : Z := s32 2882382797.

(** [my_yield], up to the scheduler, and what it does and returns when it runs again. *)
Definition my_yield : M K Z := yield.
Definition my_yield_resumed : M K Z := _ ← yield_resumed; mret MY_MAGIC.
Definition sys_my_yield : M K Z := with_arg (argint 0) (λ _, my_yield).
Definition sys_yield : M K Z := yield.
Definition sys_getlev : M K Z := on_pt getlev.
Definition sys_set_cpu_share : M K Z := with_arg (argint 0) (λ n, on_pt (set_cpu_share n)).

Definition sys_thread_create : M K Z :=
  with_arg (argptr 0 4) (λ thread,
  with_arg (argptr 1 4) (λ start_routine,
  with_arg (argptr 2 4) (λ arg,
    thread_create trapret forkret_addr (ustore32 thread) start_routine arg))).

Definition sys_thread_exit : M K Z := with_arg (argptr 0 4) (λ retval, _ ← thread_exit retval; mret 0).

Definition sys_thread_join : M K Z :=
  with_arg (argint 0) (λ thread, with_arg (argptr 1 4) (λ retval, thread_join (ustore32 retval) thread)).

(** The semaphore and lock calls on a lock in user memory; a call that has to
    wait yields. *)
Definition kxem_init (a : Z) : M K Z := _ ← ustore32 a xem_init; mret 0.
Definition kxem_wait (a : Z) : M K Z :=
  v ← uload32 a;
  let '(ok, v) := xem_wait_iter v in
  _ ← ustore32 a v;
  if ok then mret 0 else yield.
Definition kxem_unlock (a : Z) : M K Z :=
  v ← uload32 a;
  let '(ok, v) := xem_unlock_iter v in
  _ ← ustore32 a v;
  if ok then mret 0 else yield.

Definition krwlock_init (a : Z) : M K Z :=
  _ ← ustore32 (a + 8) 0; _ ← kxem_init a; _ ← kxem_init (a + 4); mret 0.
Definition krwlock_acquire_readlock (a : Z) : M K Z :=
  _ ← kxem_wait a;
  r ← uload32 (a + 8);
  r ← sadd (s32 r) 1;
  _ ← ustore32 (a + 8) r;
  _ ← when (r =? 1) (_ ← kxem_wait (a + 4); skip);
  _ ← kxem_unlock a; mret 0.
Definition krwlock_release_readlock (a : Z) : M K Z :=
  _ ← kxem_wait a;
  r ← uload32 (a + 8);
  r ← sadd (s32 r) (-1);
  _ ← ustore32 (a + 8) r;
  _ ← when (r =? 0) (_ ← kxem_unlock (a + 4); skip);
  _ ← kxem_unlock a; mret 0.
Definition krwlock_acquire_writelock (a : Z) : M K Z := _ ← kxem_wait (a + 4); mret 0.
Definition krwlock_release_writelock (a : Z) : M K Z := _ ← kxem_unlock (a + 4); mret 0.

(** Every wrapper checks the size of the pointer, 4, whatever it points to. *)
Definition sys_xem_init : M K Z := with_arg (argptr 0 4) kxem_init.
Definition sys_xem_wait : M K Z := with_arg (argptr 0 4) kxem_wait.
Definition sys_xem_unlock : M K Z := with_arg (argptr 0 4) kxem_unlock.
Definition sys_rwlock_init : M K Z := with_arg (argptr 0 4) krwlock_init.
Definition sys_rwlock_acquire_readlock : M K Z := with_arg (argptr 0 4) krwlock_acquire_readlock.
Definition sys_rwlock_release_readlock : M K Z := with_arg (argptr 0 4) krwlock_release_readlock.
Definition sys_rwlock_acquire_writelock : M K Z := with_arg (argptr 0 4) krwlock_acquire_writelock.
Definition sys_rwlock_release_writelock : M K Z := with_arg (argptr 0 4) krwlock_release_writelock.

Definition sys_getppid : M K Z :=
  c ← curproc; p ← procn c; m ← on_pt (deref (parent p)); q ← procn m; mret (pid q).

(** [my_syscall(str)] prints [str] on a line of its own. *)
Definition my_syscall (str : list Z) : M K Z :=
  _ ← modify (λ k, k <| k_out := k_out k ++ str ++ [10] |>);
  mret MY_MAGIC.
Definition sys_my_syscall : M K Z := with_arg (argstr 0) my_syscall.
End Syscall.
