(* ===== verification/Sysfile.v ===== *)
(** The file system calls (sysfile.c): argument checks, then file.c and fs.c. *)

From S2P Require Import Prelude Layout CString ProcTable Sched Xem Spinlock Pipe Bytes Fs PageAlloc Vm VmMap Kernel File Proc Syscall.

Definition O_RDONLY : Z := 0.
Definition O_WRONLY : Z := 1.
Definition O_RDWR : Z := 2.
Definition O_CREATE : Z := 512.
Definition MAXARG : nat := 32.

Section Sysfile.
Context {S : Type} `{PA : PageAlloc S}.
#[local] Abbreviation K := (kernel S).
Variable dev_read : Z → option (nat → Z → M fsys (Z * list Z)).
Variable dev_write : Z → option (nat → list Z → M fsys Z).

(** ** Descriptors *)

(** [argfd]: the descriptor and its file. *)
Definition argfd (n : Z) : M K (option (nat * nat)) :=
  r ← argint n;
  match r with
  | None => mret None
  | Some fd =>
      if (fd <? 0) || (Z.of_nat NOFILE <=? fd) then mret None else
      c ← curproc; p ← procn c;
      match ofile p !! Z.to_nat fd with
      | Some (Some f) => mret (Some (Z.to_nat fd, f))
      | _ => mret None
      end
  end.

Fixpoint fd_scan (i : nat) (l : list (option nat)) : option nat :=
  match l with
  | [] => None
  | None :: _ => Some i
  | Some _ :: l => fd_scan (Datatypes.S i) l
  end.

Definition set_fd (c fd : nat) (v : option nat) : M K unit :=
  setproc c (λ q, q <| ofile := <[fd := v]> (ofile q) |>).

Definition fdalloc (f : nat) : M K (option nat) :=
  c ← curproc; p ← procn c;
  match fd_scan 0 (ofile p) with
  | Some fd => _ ← set_fd c fd (Some f); mret (Some fd)
  | None => mret None
  end.

Definition sys_dup : M K Z :=
  with_arg (argfd 0) (λ fdf,
  with_arg (fdalloc fdf.2) (λ fd,
  _ ← filedup fdf.2; mret (Z.of_nat fd))).

Definition sys_read : M K Z :=
  with_arg (argfd 0) (λ fdf, with_arg (argint 2) (λ n, with_arg (argptr 1 n) (λ p,
  r ← fileread dev_read fdf.2 n;
  _ ← ustore_bytes p r.2; mret r.1))).

Definition sys_write : M K Z :=
  with_arg (argfd 0) (λ fdf, with_arg (argint 2) (λ n, with_arg (argptr 1 n) (λ p,
  l ← uload_bytes p (Z.to_nat n);
  filewrite dev_write fdf.2 l))).

Definition sys_pread : M K Z :=
  with_arg (argfd 0) (λ fdf, with_arg (argint 2) (λ n, with_arg (argptr 1 n) (λ p, with_arg (argint 3) (λ off,
  r ← filepread dev_read fdf.2 n off;
  _ ← ustore_bytes p r.2; mret r.1)))).

Definition sys_pwrite : M K Z :=
  with_arg (argfd 0) (λ fdf, with_arg (argint 2) (λ n, with_arg (argptr 1 n) (λ p, with_arg (argint 3) (λ off,
  l ← uload_bytes p (Z.to_nat n);
  filepwrite dev_write fdf.2 l off)))).

Definition sys_close : M K Z :=
  with_arg (argfd 0) (λ fdf,
  c ← curproc;
  _ ← set_fd c fdf.1 None;
  _ ← fileclose fdf.2; mret 0).

(** [struct stat] as its 20 bytes: [short type; int dev; uint ino; short nlink; uint size]. *)
Definition le16 (w : Z) : list Z := [u8 w; u8 (Z.shiftr w 8)].
Definition stat_bytes (st : stat) (pad1 pad2 : list Z) : list Z :=
  le16 (st_type st) ++ pad1 ++ le32 (st_dev st) ++ le32 (st_ino st) ++ le16 (st_nlink st) ++ pad2 ++ le32 (st_size st).

Definition sys_fstat : M K Z :=
  with_arg (argfd 0) (λ fdf, with_arg (argptr 1 20) (λ a,
  r ← filestat fdf.2;
  match r.2 with
  | Some st =>
      pad1 ← uload_bytes (a + 2) 2; pad2 ← uload_bytes (a + 14) 2;
      _ ← ustore_bytes a (stat_bytes st pad1 pad2); mret r.1
  | None => mret r.1
  end)).

(** ** Links *)

(** [iunlockput(ip); end_op(); return -1] *)
Definition put_end (i : nat) : M K Z := _ ← on_fs (iunlockput i); _ ← end_op; mret (-1).

Definition link_bad (ip : nat) : M K Z :=
  _ ← on_fs (ilock ip);
  _ ← on_fs (seti ip (λ i, i <| nlink := s16 ((nlink i - 1) mod 65536) |>));
  _ ← on_fs (iupdate ip);
  put_end ip.

Definition sys_link : M K Z :=
  with_arg (argstr 0) (λ old, with_arg (argstr 1) (λ new,
  _ ← begin_op;
  r ← on_fs (namei dev_read old);
  match r with
  | None => _ ← end_op; mret (-1)
  | Some ip =>
      _ ← on_fs (ilock ip);
      i ← on_fs (geti ip);
      if type i =? T_DIR then put_end ip else
      _ ← on_fs (seti ip (λ i, i <| nlink := s16 ((nlink i + 1) mod 65536) |>));
      _ ← on_fs (iupdate ip);
      _ ← on_fs (iunlock ip);
      d ← on_fs (nameiparent dev_read new);
      match d.1 with
      | None => link_bad ip
      | Some dp =>
          _ ← on_fs (ilock dp);
          di ← on_fs (geti dp);
          i ← on_fs (geti ip);
          ok ← (if negb (dev di =? dev i) then mret false
                else r ← on_fs (dirlink dev_read dev_write dp d.2 (inum i)); mret (negb (r <? 0)));
          if negb ok then _ ← on_fs (iunlockput dp); link_bad ip else
          _ ← on_fs (iunlockput dp);
          _ ← on_fs (iput ip);
          _ ← end_op;
          mret 0
      end
  end)).

Fixpoint isdirempty_loop (fuel : nat) (dp : nat) (off : Z) : M K bool :=
  match fuel with
  | O => λ _, NoFuel
  | Datatypes.S fuel =>
      i ← on_fs (geti dp);
      if size i <=? off then mret true else
      r ← on_fs (readi dev_read dp off 16);
      if negb (r.1 =? 16) then panic "isdirempty: readi" else
      if negb (de_inum r.2 =? 0) then mret false else isdirempty_loop fuel dp (off + 16)
  end.

(** Each round advances by an entry. *)
Definition isdirempty (dp : nat) : M K bool :=
  i ← on_fs (geti dp); isdirempty_loop (Datatypes.S (Z.to_nat (size i))) dp 32.

Definition DOT : list Z := [46].
Definition DOTDOT : list Z := [46; 46].

Definition sys_unlink : M K Z :=
  with_arg (argstr 0) (λ path,
  _ ← begin_op;
  d ← on_fs (nameiparent dev_read path);
  match d.1 with
  | None => _ ← end_op; mret (-1)
  | Some dp =>
      _ ← on_fs (ilock dp);
      if (namecmp d.2 DOT =? 0) || (namecmp d.2 DOTDOT =? 0) then put_end dp else
      r ← on_fs (dirlookup dev_read dp d.2);
      match r with
      | None => put_end dp
      | Some (ip, off) =>
          _ ← on_fs (ilock ip);
          i ← on_fs (geti ip);
          if nlink i <? 1 then panic "unlink: nlink < 1" else
          e ← (if type i =? T_DIR then isdirempty ip else mret true);
          if negb e then _ ← on_fs (iunlockput ip); put_end dp else
          n ← on_fs (writei dev_write dp off (replicate 16 0));
          if negb (n =? 16) then panic "unlink: writei" else
          i ← on_fs (geti ip);
          _ ← when (type i =? T_DIR)
            (_ ← on_fs (seti dp (λ i, i <| nlink := s16 ((nlink i - 1) mod 65536) |>)); on_fs (iupdate dp));
          _ ← on_fs (iunlockput dp);
          _ ← on_fs (seti ip (λ i, i <| nlink := s16 ((nlink i - 1) mod 65536) |>));
          _ ← on_fs (iupdate ip);
          _ ← on_fs (iunlockput ip);
          _ ← end_op;
          mret 0
      end
  end).

(** ** Creating and opening *)

(** [create]: the inode, locked. *)
Definition create (path : list Z) (ty mj mn : Z) : M K (option nat) :=
  d ← on_fs (nameiparent dev_read path);
  match d.1 with
  | None => mret None
  | Some dp =>
      _ ← on_fs (ilock dp);
      r ← on_fs (dirlookup dev_read dp d.2);
      match r with
      | Some (ip, _) =>
          _ ← on_fs (iunlockput dp);
          _ ← on_fs (ilock ip);
          i ← on_fs (geti ip);
          if (ty =? T_FILE) && (type i =? T_FILE) then mret (Some ip) else
          _ ← on_fs (iunlockput ip); mret None
      | None =>
          di ← on_fs (geti dp);
          ip ← on_fs (ialloc (dev di) ty);
          _ ← on_fs (ilock ip);
          _ ← on_fs (seti ip (λ i, i <| major := mj |> <| minor := mn |> <| nlink := 1 |>));
          _ ← on_fs (iupdate ip);
          i ← on_fs (geti ip);
          _ ← when (ty =? T_DIR)
            (_ ← on_fs (seti dp (λ i, i <| nlink := s16 ((nlink i + 1) mod 65536) |>));
             _ ← on_fs (iupdate dp);
             r1 ← on_fs (dirlink dev_read dev_write ip DOT (inum i));
             if r1 <? 0 then panic "create dots" else
             r2 ← on_fs (dirlink dev_read dev_write ip DOTDOT (inum di));
             if r2 <? 0 then panic "create dots" else skip);
          r ← on_fs (dirlink dev_read dev_write dp d.2 (inum i));
          if r <? 0 then panic "create: dirlink" else
          _ ← on_fs (iunlockput dp);
          mret (Some ip)
      end
  end.

(** [filealloc] and [fdalloc]; without a descriptor the file is closed again. *)
Definition open_fd : M K (option (nat * nat)) :=
  r ← filealloc;
  match r with
  | None => mret None
  | Some f =>
      fd ← fdalloc f;
      match fd with
      | None => _ ← fileclose f; mret None
      | Some fd => mret (Some (f, fd))
      end
  end.

Definition sys_open : M K Z :=
  with_arg (argstr 0) (λ path, with_arg (argint 1) (λ omode,
  _ ← begin_op;
  r ← (if negb (Z.land omode O_CREATE =? 0) then create path T_FILE 0 0
       else
         r ← on_fs (namei dev_read path);
         match r with
         | None => mret None
         | Some ip =>
             _ ← on_fs (ilock ip);
             i ← on_fs (geti ip);
             if (type i =? T_DIR) && negb (omode =? O_RDONLY) then _ ← on_fs (iunlockput ip); mret None
             else mret (Some ip)
         end);
  match r with
  | None => _ ← end_op; mret (-1)
  | Some ip =>
      r ← open_fd;
      match r with
      | None => put_end ip
      | Some (f, fd) =>
          _ ← on_fs (iunlock ip);
          _ ← end_op;
          _ ← setf f (λ ff, ff <| ftype := FD_INODE |> <| fip := Some ip |> <| foff := 0 |>
                 <| readable := Z.land omode O_WRONLY =? 0 |>
                 <| writable := negb (Z.land omode O_WRONLY =? 0) || negb (Z.land omode O_RDWR =? 0) |>);
          mret (Z.of_nat fd)
      end
  end)).

(** [if(arg... < 0 || (ip = create(...)) == 0){ end_op(); return -1; } iunlockput(ip); ...] *)
Definition finish_create (r : option nat) : M K Z :=
  match r with
  | None => _ ← end_op; mret (-1)
  | Some ip => _ ← on_fs (iunlockput ip); _ ← end_op; mret 0
  end.

Definition sys_mkdir : M K Z :=
  _ ← begin_op;
  r ← argstr 0;
  match r with
  | None => finish_create None
  | Some path => r ← create path T_DIR 0 0; finish_create r
  end.

Definition sys_mknod : M K Z :=
  _ ← begin_op;
  r ← argstr 0; 
  match r with
  | None => finish_create None
  | Some path =>
      mj ← argint 1;
      match mj with
      | None => finish_create None
      | Some mj =>
          mn ← argint 2;
          match mn with
          | None => finish_create None
          | Some mn => r ← create path T_DEV (s16 (mj mod 65536)) (s16 (mn mod 65536)); finish_create r
          end
      end
  end.

Definition sys_chdir : M K Z :=
  c ← curproc;
  _ ← begin_op;
  r ← argstr 0;
  r ← match r with None => mret None | Some path => on_fs (namei dev_read path) end;
  match r with
  | None => _ ← end_op; mret (-1)
  | Some ip =>
      _ ← on_fs (ilock ip);
      i ← on_fs (geti ip);
      if negb (type i =? T_DIR) then put_end ip else
      _ ← on_fs (iunlock ip);
      p ← procn c;
      _ ← match ProcTable.cwd p with None => undef "iput(0)" | Some d => on_fs (iput d) end;
      _ ← end_op;
      _ ← setproc c (λ q, q <| ProcTable.cwd := Some ip |>);
      mret 0
  end.

(** The argument loop of [sys_exec]. *)
Fixpoint exec_args (n : nat) (i uargv : Z) : M K (option (list (list Z))) :=
  match n with
  | O => mret None
  | Datatypes.S n =>
      r ← fetchint (u32 (uargv + 4 * i));
      match r with
      | None => mret None
      | Some uarg =>
          if uarg =? 0 then mret (Some []) else
          s ← fetchstr (u32 uarg);
          match s with
          | None => mret None
          | Some s =>
              l ← exec_args n (i + 1) uargv;
              mret (match l with Some l => Some (s :: l) | None => None end)
          end
      end
  end.

Definition sys_exec (exec : list Z → list (list Z) → M K Z) : M K Z :=
  with_arg (argstr 0) (λ path, with_arg (argint 1) (λ uargv,
  with_arg (exec_args MAXARG 0 (u32 uargv)) (exec path))).

Definition sys_pipe : M K Z :=
  with_arg (argptr 0 8) (λ fd,
  with_arg pipealloc (λ rw,
  c ← curproc;
  fd0 ← fdalloc rw.1;
  fd1 ← match fd0 with Some _ => fdalloc rw.2 | None => mret None end;
  match fd0, fd1 with
  | Some fd0, Some fd1 =>
      _ ← ustore32 fd (Z.of_nat fd0); _ ← ustore32 (fd + 4) (Z.of_nat fd1); mret 0
  | _, _ =>
      _ ← match fd0 with Some fd0 => set_fd c fd0 None | None => skip end;
      _ ← fileclose rw.1;
      _ ← fileclose rw.2;
      mret (-1)
  end)).
End Sysfile.
