(* ===== verification/Exec.v ===== *)
(** Running a program (exec.c), and the dispatch of system calls (syscall.c,
    trap.c). *)

From S2P Require Import Prelude Layout CString ProcTable Sched Xem Spinlock Pipe Bytes Fs PageAlloc Vm VmMap Kernel File Proc Syscall Sysfile.

(** The kernel's memory is that of its page allocator. *)
#[refine] Instance kernel_pages {S : Type} `{PA : PageAlloc S} : PageAlloc (kernel S) := {
  pa_kalloc := on_mem pa_kalloc;
  pa_kfree v := on_mem (pa_kfree v);
  pa_ram k := pa_ram (k_mem k);
  pa_write m k := k <| k_mem := pa_write m (k_mem k) |>;
  pa_page := pa_page;
  pa_ok k := pa_ok (k_mem k)
}.
Proof.
  - intros m k. apply pa_ram_write.
  - apply pa_page_range.
  - intros k. apply pa_ok_pages.
  - intros k l m. apply pa_ok_write.
  - intros k l H. apply returns_zoom. eapply returns_mono; [by apply pa_kalloc_ok|].
    intros r s' Hr. destruct l; [|done]. destruct Hr as [-> ->]. by destruct k.
  - intros k l v H Hv Hn. apply returns_zoom. by apply pa_kfree_ok.
Defined.

Definition ELF_MAGIC : Z := 1179403647.
Definition ELF_PROG_LOAD : Z := 1.

(** The fields of [struct elfhdr] and [struct proghdr] that [exec] uses. *)
Record elfhdr := mkelf { magic : Z; entry : Z; phoff : Z; phnum : Z }.
Record proghdr := mkph { ph_type : Z; ph_off : Z; vaddr : Z; filesz : Z; memsz : Z }.

Definition get_elf (d : list Z) : elfhdr := mkelf (get32 d 0) (get32 d 24) (get32 d 28) (get16 d 44).
Definition get_ph (d : list Z) : proghdr :=
  mkph (get32 d 0) (get32 d 4) (get32 d 8) (get32 d 16) (get32 d 20).

Section Exec.
Context {S : Type} `{PA : PageAlloc S}.
#[local] Abbreviation K := (kernel S).
Variable dev_read : Z → option (nat → Z → M fsys (Z * list Z)).
Variable dev_write : Z → option (nat → list Z → M fsys Z).
Variable data trapret forkret_addr : Z.

(** [bad:] *)
Definition exec_bad (pgdir : Z) (ip : option nat) : M K Z :=
  _ ← when (negb (pgdir =? 0)) (on_mem (freevm pgdir));
  _ ← match ip with Some ip => _ ← on_fs (iunlockput ip); end_op | None => skip end;
  mret (-1).

(** The loop that loads the segments, with [n] headers left: the size of the
    image, or [None] for [goto bad]. *)
Fixpoint load_segments (n : nat) (ip : nat) (pgdir off s : Z) : M K (option Z) :=
  match n with
  | O => mret (Some s)
  | Datatypes.S n =>
      r ← on_fs (readi dev_read ip off 32);
      if negb (r.1 =? 32) then mret None else
      let ph := get_ph r.2 in
      if negb (ph_type ph =? ELF_PROG_LOAD) then load_segments n ip pgdir (u32 (off + 32)) s else
      if memsz ph <? filesz ph then mret None else
      if u32 (vaddr ph + memsz ph) <? vaddr ph then mret None else
      s ← on_mem (allocuvm pgdir s (u32 (vaddr ph + memsz ph)));
      if s =? 0 then mret None else
      if negb (vaddr ph mod PGSIZE =? 0) then mret None else
      l ← loaduvm (λ o m, on_fs (readi dev_read ip o m)) pgdir (vaddr ph) (ph_off ph) (filesz ph);
      if l <? 0 then mret None else load_segments n ip pgdir (u32 (off + 32)) s
  end.

(** Pushing the argument strings: the stack pointer and the addresses of the
    strings, in order. *)
Fixpoint push_args (argc : nat) (pgdir sp : Z) (argv : list (list Z)) : M K (option (Z * list Z)) :=
  match argv with
  | [] => mret (Some (sp, []))
  | a :: argv =>
      if (MAXARG <=? argc)%nat then mret None else
      let sp := Z.land (u32 (sp - (Z.of_nat (length a) + 1))) (u32 (Z.lnot 3)) in
      r ← on_mem (copyout pgdir sp (a ++ [0]));
      if r <? 0 then mret None else
      r ← push_args (Datatypes.S argc) pgdir sp argv;
      mret (match r with Some (sp', l) => Some (sp', sp :: l) | None => None end)
  end.

(** [ustack]: the fake return address, [argc], [argv], and the array of strings. *)
Definition ustack (sp : Z) (argv : list Z) : list Z :=
  let argc := Z.of_nat (length argv) in
  concat (le32 <$> [4294967295; argc; u32 (sp - (argc + 1) * 4)] ++ argv ++ [0]).

(** [for(last=s=path; *s; s++) if( *s == '/') last = s+1] *)
Fixpoint last_elem (last path : list Z) : list Z :=
  match path with
  | [] => last
  | c :: path => last_elem (if c =? SLASH then path else last) path
  end.

Definition to_string (l : list Z) : string :=
  String.string_of_list_ascii ((λ c, Ascii.ascii_of_nat (Z.to_nat c)) <$> l).

(** From the loaded image of size [s] to the return. *)
Definition exec_start (islwpgroup : bool) (path : list Z) (argv : list (list Z)) (pgdir entry s : Z) : M K Z :=
  c ← curproc;
  let s := PGROUNDUP s in
  s ← on_mem (allocuvm pgdir s (u32 (s + 2 * PGSIZE)));
  if s =? 0 then exec_bad pgdir None else
  _ ← on_mem (clearpteu pgdir (u32 (s - 2 * PGSIZE)));
  r ← push_args 0 pgdir s argv;
  match r with
  | None => exec_bad pgdir None
  | Some (sp, args) =>
      let stack := ustack sp args in
      let sp := u32 (sp - Z.of_nat (length stack)) in
      r ← on_mem (copyout pgdir sp stack);
      if r <? 0 then exec_bad pgdir None else
      _ ← setproc c (λ q, q <| name := proc_name (to_string (last_elem path path)) |>);
      p ← procn c;
      let oldpgdir := ProcTable.pgdir p in
      _ ← setproc c (λ q, q <| ProcTable.pgdir := pgdir |> <| sz := s |>
                           <| tf := (tf q) <| eip := entry |> <| esp := sp |> |>);
      _ ← on_pt (switchuvm c);
      _ ← when (negb islwpgroup) (on_mem (freevm oldpgdir));
      mret 0
  end.

Definition exec (path : list Z) (argv : list (list Z)) : M K Z :=
  c ← curproc; p ← procn c;
  let islwpgroup := isthread p =? 1 in
  _ ← when islwpgroup
    (m ← on_pt (deref (mother p)); mp ← procn m; _ ← kill_lwpgroup (pid mp) c; skip);
  _ ← begin_op;
  r ← on_fs (namei dev_read path);
  match r with
  | None => _ ← end_op; mret (-1)
  | Some ip =>
      _ ← on_fs (ilock ip);
      r ← on_fs (readi dev_read ip 0 52);
      if negb (r.1 =? 52) then exec_bad 0 (Some ip) else
      let elf := get_elf r.2 in
      if negb (magic elf =? ELF_MAGIC) then exec_bad 0 (Some ip) else
      pgdir ← on_mem (setupkvm data);
      if pgdir =? 0 then exec_bad 0 (Some ip) else
      r ← load_segments (Z.to_nat (phnum elf)) ip pgdir (phoff elf) 0;
      match r with
      | None => exec_bad pgdir (Some ip)
      | Some s =>
          _ ← on_fs (iunlockput ip);
          _ ← end_op;
          exec_start islwpgroup path argv pgdir (entry elf) s
      end
  end.

(** ** Dispatch *)

(** [syscalls[num]] *)
Definition syscalls (num : Z) : option (M K Z) :=
  nth (Z.to_nat num)
    [ None;
      Some (sys_fork data trapret forkret_addr); Some sys_exit; Some sys_wait; Some sys_pipe;
      Some (sys_read dev_read); Some sys_kill; Some (sys_exec exec); Some sys_fstat;
      Some (sys_chdir dev_read); Some sys_dup; Some sys_getpid; Some sys_sbrk;
      Some sys_sleep; Some sys_uptime; Some (sys_open dev_read dev_write); Some (sys_write dev_write);
      Some (sys_mknod dev_read dev_write); Some (sys_unlink dev_read dev_write);
      Some (sys_link dev_read dev_write); Some (sys_mkdir dev_read dev_write); Some sys_close;
      Some sys_my_syscall; Some sys_getppid; Some sys_my_yield; Some sys_yield; Some sys_getlev;
      Some sys_set_cpu_share; Some (sys_thread_create trapret forkret_addr); Some sys_thread_exit;
      Some sys_thread_join; Some sys_xem_init; Some sys_xem_wait; Some sys_xem_unlock;
      Some sys_rwlock_init; Some sys_rwlock_acquire_readlock; Some sys_rwlock_release_readlock;
      Some sys_rwlock_acquire_writelock; Some sys_rwlock_release_writelock;
      Some (sys_pwrite dev_write); Some (sys_pread dev_read) ] None.

Definition NSYSCALLS : Z := 41.

(** The return value goes to [tf->eax], whose user sees it as an [int]. *)
Definition set_eax (c : nat) (r : Z) : M K unit := setproc c (λ q, q <| tf := (tf q) <| eax := u32 r |> |>).

Definition syscall : M K unit :=
  c ← curproc; p ← procn c;
  let num := s32 (eax (tf p)) in
  match (if (0 <? num) && (num <? NSYSCALLS) then syscalls num else None) with
  | Some f => r ← f; set_eax c r
  | None => set_eax c (-1)
  end.

(** The end of [trap] for [T_SYSCALL]. *)
Definition trap_syscall_end : M K unit :=
  c ← curproc; p ← procn c;
  when (negb (killed p =? 0)) exit.

(** [trap] for [T_SYSCALL]; [frame] is the trap frame on the kernel stack. *)
Definition trap_syscall (frame : trapframe) : M K unit :=
  c ← curproc; p ← procn c;
  _ ← when (negb (killed p =? 0)) exit;
  c ← curproc;
  _ ← setproc c (λ q, q <| tf := frame |>);
  _ ← syscall;
  trap_syscall_end.

(** The end of a system call that gave up the processor, with the value [r] that it
    returns; [c] is the process it was called by. *)
Definition trap_syscall_resumed (c : nat) (r : Z) : M K unit := _ ← set_eax c r; trap_syscall_end.

(** [trap] for the timer on CPU 0: the clock. *)
Definition trap_tick : M K unit :=
  _ ← acquire LKticks;
  _ ← modify (λ k, k <| k_ticks := u32 (k_ticks k + 1) |>);
  _ ← wakeup ch_ticks;
  release LKticks.

(** [if(myproc() && myproc()->killed && (tf->cs&3) == DPL_USER) exit()]; [user] tells
    whether the trap came from user mode. *)
Definition killed_exit (user : bool) : M K unit :=
  c ← on_pt myproc;
  match c with
  | None => skip
  | Some c => p ← procn c; when (negb (killed p =? 0) && user) exit
  end.

(** The end of [trap]; [timer] tells whether it was the timer.  When the process gives
    up the processor, which [yield] always does, it goes on with [trap_resumed]. *)
Definition trap_end (user timer : bool) : M K unit :=
  _ ← killed_exit user;
  c ← on_pt myproc;
  _ ← match c with
      | None => skip
      | Some c => p ← procn c; if bool_decide (state p = RUNNING) && timer then yield else skip
      end;
  killed_exit user.

Definition trap_resumed (user : bool) : M K unit := _ ← yield_resumed; killed_exit user.

Definition trap_timer (user : bool) : M K unit := _ ← trap_tick; trap_end user true.
End Exec.
