(* ===== verification/KernelInv.v ===== *)
(** What every kernel operation keeps, whichever process runs it: no file is
    reused while a descriptor refers to it, and process ids are unique.  The kernel is a
    transition system whose state carries, beside the kernel's own, the references that
    calls hold which sleep or were interrupted, and the descriptors that such calls have
    closed and not cleared or made and not counted. *)

From S2P Require Import Prelude Keeps Layout CString Kalloc ProcTable Sched Xem Spinlock Pipe Bytes Fs PageAlloc Vm VmMap Kernel File Proc Syscall Sysfile Exec.

(** ** The invariant *)

(** What it looks at: the id and the descriptors of each process, the next id, the
    running process, and the reference count of each file. *)
Definition view : Type := list (Z * list (option nat)) * (Z * option nat) * list Z.

Definition pv (p : proc) : Z * list (option nat) := (pid p, ofile p).
Definition pt_view (t : ptst) : list (Z * list (option nat)) * (Z * option nat) :=
  (pv <$> procs t, (nextpid t, cpu_proc t)).
Definition kview {S} (k : kernel S) : view := (pt_view (k_pt k), fref <$> k_ftable k).

(** A property of the view. *)
Definition viewed {S} (P : view → Prop) (k : kernel S) : Prop := P (kview k).

(** What the processes that were interrupted or sleep inside a call have left undone:
    the references they hold to files beside their descriptors, and the descriptors
    (process and index) that are not counted, either because [exit] has closed the file
    and not cleared the descriptor yet, or because [sys_dup] has made the descriptor and
    not counted it yet. *)
Record ghost := Ghost { held : list nat; hanging : list (nat * nat) }.

Definition refers (f : nat) (o : option nat) : Z := if decide (o = Some f) then 1 else 0.

(** The descriptors [l] of process [i] without the hanging ones. *)
Definition mask (D : list (nat * nat)) (i : nat) (l : list (option nat)) : list (option nat) :=
  imap (λ n o, if decide ((i, n) ∈ D) then None else o) l.

(** The number of counted descriptors of process [i] and of all processes that refer to
    file [f], and of references [L] that a running call holds. *)
Definition fdcount1 (D : list (nat * nat)) (f i : nat) (l : list (option nat)) : Z := psum (refers f) (mask D i l).
Definition fdcount (D : list (nat * nat)) (f : nat) (v : view) : Z :=
  psum (λ n, n) (imap (λ i q, fdcount1 D f i q.2) v.1.1).
Definition inflight (f : nat) (L : list nat) : Z := psum (λ g, refers f (Some g)) L.
Definition file_ref (f : nat) (v : view) : Z := default 0 (v.2 !! f).

Definition fds_ok (G : ghost) (L : list nat) (v : view) : Prop :=
  ∀ f, fdcount (hanging G) f v + inflight f (held G) + inflight f L ≤ file_ref f v.

Definition pids_ok (v : view) : Prop :=
  0 < v.1.2.1 ∧ (∀ i q, v.1.1 !! i = Some q → 0 ≤ q.1 < v.1.2.1) ∧
  ∀ i j q r, v.1.1 !! i = Some q → v.1.1 !! j = Some r → q.1 = r.1 → q.1 ≠ 0 → i = j.

(** The arrays have the sizes they are declared with. *)
Definition shape_ok (v : view) : Prop :=
  length v.1.1 = NPROC ∧ Forall (λ q, length q.2 = NOFILE) v.1.1 ∧ length v.2 = NFILE.

(** The running process is not in the middle of [exit] or [sys_dup]. *)
Definition idle (G : ghost) (cu : option nat) : Prop := ∀ c, cu = Some c → c ∉ (hanging G).*1.

(** The invariant of a running call that holds the references [L]. *)
Definition inv_view (G : ghost) (L : list nat) (v : view) : Prop :=
  fds_ok G L v ∧ pids_ok v ∧ shape_ok v ∧ idle G v.1.2.2.

Lemma refers_nonneg f o : 0 ≤ refers f o.
Proof. unfold refers. by case_decide. Qed.

Lemma inflight_nonneg f L : 0 ≤ inflight f L.
Proof. apply psum_nonneg. intros. apply refers_nonneg. Qed.

Lemma fds_nil G L v : fds_ok G L v → fds_ok G [] v.
Proof. intros Hf f. specialize (Hf f). pose proof (inflight_nonneg f L). change (inflight f []) with 0. lia. Qed.

Lemma inv_nil {S} G L (k : kernel S) : viewed (inv_view G L) k → viewed (inv_view G []) k.
Proof. intros [Hf Hp]. split; [by eapply fds_nil|done]. Qed.

Lemma inflight_cons f g L : inflight f (g :: L) = refers f (Some g) + inflight f L.
Proof. done. Qed.

(** Arithmetic on reference counts, by cases on which files are equal. *)
Ltac refs := cbn [fref]; rewrite ?inflight_cons; unfold refers; repeat case_decide; simplify_eq/=; lia.

(** ** Counting descriptors *)

Lemma mask_lookup D i l n : mask D i l !! n = (λ o, if decide ((i, n) ∈ D) then None else o) <$> l !! n.
Proof. apply list_lookup_imap. Qed.

Lemma mask_insert D i l n o :
  mask D i (<[n := o]> l) = if decide ((i, n) ∈ D) then mask D i l else <[n := o]> (mask D i l).
Proof.
  apply list_eq. intros m. case_decide as Hd; rewrite !mask_lookup; destruct (decide (n = m)) as [->|Hn].
  - destruct (decide (m < length l)%nat) as [Hm|Hm].
    + rewrite list_lookup_insert_eq by done. destruct (lookup_lt_is_Some_2 l m Hm) as [o' ->]. cbn. by case_decide.
    + by rewrite list_insert_ge by lia.
  - by rewrite list_lookup_insert_ne.
  - destruct (decide (m < length l)%nat) as [Hm|Hm].
    + rewrite !list_lookup_insert_eq by (unfold mask; rewrite ?length_imap; done). cbn. by rewrite decide_False.
    + rewrite !list_insert_ge by (unfold mask; rewrite ?length_imap; lia). by rewrite mask_lookup.
  - by rewrite !list_lookup_insert_ne, mask_lookup.
Qed.

Lemma fdcount1_nonneg D f i l : 0 ≤ fdcount1 D f i l.
Proof. apply psum_nonneg. intros. apply refers_nonneg. Qed.

Lemma fdcount1_le D f i n o l : fdcount1 D f i (<[n:=o]> l) ≤ fdcount1 D f i l + refers f o.
Proof.
  unfold fdcount1. rewrite mask_insert. pose proof (refers_nonneg f o). case_decide; [lia|].
  destruct (mask D i l !! n) as [o'|] eqn:E.
  - rewrite (psum_insert _ _ _ _ o' E). pose proof (refers_nonneg f o'). lia.
  - rewrite list_insert_ge by (by apply lookup_ge_None). lia.
Qed.

Lemma fdcount1_clear D f g i n l : (i, n) ∉ D → l !! n = Some (Some g) →
  fdcount1 D f i (<[n:=None]> l) = fdcount1 D f i l - refers f (Some g).
Proof.
  intros Hd Hn. unfold fdcount1. rewrite mask_insert, decide_False by done.
  rewrite (psum_insert _ _ _ _ (Some g)); [by assert (refers f None = 0) as -> by done; lia|].
  by rewrite mask_lookup, Hn; cbn; rewrite decide_False.
Qed.

(** Hanging a descriptor is as good as clearing it. *)
Lemma fdcount1_hang D f i n l : fdcount1 ((i, n) :: D) f i l = fdcount1 D f i (<[n:=None]> l).
Proof.
  unfold fdcount1. f_equal. apply list_eq. intros m. rewrite !mask_lookup.
  destruct (decide (n = m)) as [<-|Hn].
  - destruct (decide (n < length l)%nat) as [Hm|Hm].
    + rewrite list_lookup_insert_eq by done. destruct (lookup_lt_is_Some_2 l n Hm) as [o' ->]. cbn.
      rewrite decide_True by (by left). by case_decide.
    + rewrite list_insert_ge by lia. by rewrite (lookup_ge_None_2 l n) by lia.
  - rewrite list_lookup_insert_ne by done. destruct (l !! m); [|done]. cbn. f_equal.
    apply decide_ext. rewrite elem_of_cons. naive_solver.
Qed.

Lemma fdcount1_other D f i j n l : i ≠ j → fdcount1 ((i, n) :: D) f j l = fdcount1 D f j l.
Proof.
  intros Hn. unfold fdcount1. f_equal. apply list_eq. intros m. rewrite !mask_lookup. destruct (l !! m); [|done]. cbn. f_equal.
  apply decide_ext. rewrite elem_of_cons. naive_solver.
Qed.

(** ** Operations that leave the view alone *)

Section Keep.
Context {S : Type} `{PA : PageAlloc S} (P : view → Prop).
#[local] Abbreviation K := (kernel S).
#[local] Abbreviation I := (viewed (S := S) P).

Lemma keeps_view f : (∀ k : K, kview (f k) = kview k) → keeps I (modify f).
Proof. intros H. apply keeps_modify. intros k Hk. unfold viewed. by rewrite H. Qed.

Lemma keeps_cpu {A} (m : M Cli.cpu A) : keeps I (on_cpu m).
Proof. apply keeps_zoom_other. by intros t k. Qed.
Lemma keeps_mem {A} (m : M S A) : keeps I (on_mem m).
Proof. apply keeps_zoom_other. by intros t k. Qed.
Lemma keeps_fs {A} (m : M fsys A) : keeps I (on_fs m).
Proof. apply keeps_zoom_other. by intros t k. Qed.

(** An operation on the process table that changes neither ids nor descriptors. *)
Lemma keeps_pt {A} (m : M ptst A) : (∀ v, keeps (λ t, pt_view t = v) m) → keeps I (on_pt m).
Proof.
  intros H. apply keeps_zoom. intros k Hk. specialize (H (pt_view (k_pt k)) (k_pt k) eq_refl).
  unfold safe in *. destruct (m (k_pt k)) as [a t| |t| |]; try done; unfold viewed, kview; cbn; by rewrite H.
Qed.

Lemma keeps_getp {R : ptst → Prop} i : keeps R (getp i).
Proof. intros t Ht. unfold safe, getp. by destruct (procs t !! i). Qed.
Lemma keeps_deref {R : ptst → Prop} q : keeps R (deref q).
Proof. unfold deref. destruct q; auto with keeps. Qed.
Lemma pv_alter f (i : nat) (l : list proc) : (∀ p, pv (f p) = pv p) → pv <$> alter f i l = pv <$> l.
Proof.
  intros H. apply list_eq. intros j. rewrite !list_lookup_fmap. destruct (decide (i = j)) as [->|].
  - rewrite list_lookup_alter_eq. destruct (l !! j); [|done]. cbn. by rewrite H.
  - by rewrite list_lookup_alter_ne.
Qed.

Lemma keeps_updp v i f : (∀ p, pv (f p) = pv p) → keeps (λ t, pt_view t = v) (updp i f).
Proof.
  intros Hf. apply keeps_modify. intros t <-. unfold pt_view, setp. cbn. f_equal. by apply pv_alter.
Qed.

Lemma keeps_setproc i f : (∀ p, pv (f p) = pv p) → keeps I (setproc i f).
Proof. intros Hf. apply keeps_pt. intros v. by apply keeps_updp. Qed.

#[local] Hint Extern 1 (keeps _ (setproc _ _)) => apply keeps_setproc; intros; reflexivity : keeps.
#[local] Hint Extern 1 (keeps _ (updp _ _)) => apply keeps_updp; intros; reflexivity : keeps.
#[local] Hint Resolve keeps_cpu keeps_mem keeps_fs keeps_getp keeps_deref : keeps.

Lemma keeps_cur {R : ptst → Prop} : keeps R cur.
Proof. unfold cur, myproc. kgo. Qed.
Lemma keeps_curproc : keeps I curproc.
Proof. apply keeps_pt. intros v. apply keeps_cur. Qed.
Lemma keeps_procn i : keeps I (procn i).
Proof. apply keeps_pt. intros v. apply keeps_getp. Qed.
Lemma keeps_deref_pt q : keeps I (on_pt (deref q)).
Proof. apply keeps_pt. intros v. apply keeps_deref. Qed.
#[local] Hint Resolve keeps_cur keeps_curproc keeps_procn keeps_deref_pt : keeps.

Lemma keeps_acquire l : keeps I (acquire l).
Proof. unfold acquire. kgo. by apply keeps_view. Qed.
Lemma keeps_release l : keeps I (release l).
Proof. unfold release. kgo. by apply keeps_view. Qed.
Lemma keeps_acquire_pt : keeps I acquire_pt.
Proof.
  unfold acquire_pt. kgo. apply keeps_pt. intros v. unfold acquire_ptable. kgo.
  by apply keeps_modify.
Qed.
Lemma keeps_release_pt : keeps I release_pt.
Proof.
  unfold release_pt. kgo. apply keeps_pt. intros v. unfold release_ptable. kgo.
  by apply keeps_modify.
Qed.
#[local] Hint Resolve keeps_acquire keeps_release keeps_acquire_pt keeps_release_pt : keeps.

Lemma keeps_sched {A} : keeps I (sched (A := A)).
Proof. unfold sched. kgo. Qed.
#[local] Hint Resolve keeps_sched : keeps.
Lemma keeps_yield {A} : keeps I (yield (A := A)).
Proof. unfold yield. kgo. Qed.
Lemma keeps_sleep {A} c lk : keeps I (sleep (A := A) c lk).
Proof. unfold sleep. kgo. apply keeps_pt. intros v. unfold myproc. kgo. Qed.
Lemma keeps_slept lk : keeps I (slept lk).
Proof. unfold slept. kgo. Qed.
Lemma keeps_wakeup1 c : keeps I (wakeup1 c).
Proof.
  apply keeps_pt. intros v. apply keeps_modify. intros t <-. unfold pt_view. cbn. f_equal.
  apply list_eq. intros i. rewrite !list_lookup_fmap, each_lookup. destruct (procs t !! i) as [p|]; [|done].
  cbn. unfold wake. by case_match.
Qed.
#[local] Hint Resolve keeps_yield keeps_sleep keeps_slept keeps_wakeup1 : keeps.
Lemma keeps_wakeup c : keeps I (wakeup c).
Proof. unfold wakeup. kgo. Qed.
#[local] Hint Resolve keeps_wakeup : keeps.

Lemma keeps_kill_proc i : keeps I (setproc i kill_proc).
Proof. apply keeps_setproc. intros p. unfold kill_proc. cbv zeta. by case_match. Qed.
#[local] Hint Resolve keeps_kill_proc : keeps.
Lemma keeps_kill pd : keeps I (kill pd).
Proof. unfold kill. kgo. Qed.
Lemma keeps_kill_lwpgroup pd np : keeps I (kill_lwpgroup pd np).
Proof. unfold kill_lwpgroup. kgo. Qed.
#[local] Hint Resolve keeps_kill keeps_kill_lwpgroup : keeps.

Lemma keeps_begin_op : keeps I begin_op.
Proof. unfold begin_op, begin_op_go. kgo. by apply keeps_view. Qed.
Lemma keeps_end_op : keeps I end_op.
Proof. unfold end_op. kgo; by apply keeps_view. Qed.
#[local] Hint Resolve keeps_begin_op keeps_end_op : keeps.
End Keep.

#[export] Hint Extern 1 (keeps _ (setproc _ _)) => apply keeps_setproc; intros; reflexivity : keeps.
#[export] Hint Extern 1 (keeps _ (updp _ _)) => apply keeps_updp; intros; reflexivity : keeps.
#[export] Hint Resolve keeps_cpu keeps_mem keeps_fs keeps_getp keeps_deref keeps_cur keeps_curproc keeps_procn
  keeps_deref_pt keeps_acquire keeps_release keeps_acquire_pt keeps_release_pt keeps_sched keeps_yield keeps_sleep
  keeps_slept keeps_wakeup1 keeps_wakeup keeps_kill keeps_kill_lwpgroup keeps_begin_op keeps_end_op : keeps.

(** ** References in flight *)

Section Refs.
Context {S : Type} `{PA : PageAlloc S} {G : ghost}.
#[local] Abbreviation K := (kernel S).
#[local] Abbreviation inv L := (viewed (inv_view G L)).

(** A call that keeps the invariant while it holds references; where it gives up
    the processor they are forgotten. *)
Definition moves {A} (L : list nat) (m : M K A) (L' : A → list nat) : Prop :=
  ∀ k, inv L k → safe (inv []) m k (λ a, inv (L' a)).

Lemma moves_keeps {A} L (m : M K A) : keeps (inv L) m → moves L m (λ _, L).
Proof.
  intros H k Hk. specialize (H k Hk). unfold safe in *. destruct (m k); try done. by eapply inv_nil.
Qed.

Lemma moves_bind {A C} L (m : M K A) L1 (f : A → M K C) L2 :
  moves L m L1 → (∀ a, moves (L1 a) (f a) L2) → moves L (m ≫= f) L2.
Proof. intros Hm Hf k Hk. apply safe_bind. eapply safe_mono; [by apply Hm|]. intros a k'. apply Hf. Qed.

Lemma moves_bind_keep {A C} L (m : M K A) (f : A → M K C) L2 :
  keeps (inv L) m → (∀ a, moves L (f a) L2) → moves L (m ≫= f) L2.
Proof. intros Hm Hf. eapply moves_bind; [by apply moves_keeps|]. exact Hf. Qed.

Lemma moves_ret {A} L (a : A) L' : L' a = L → moves L (mret a) L'.
Proof. intros E k Hk. unfold safe. cbn. by rewrite E. Qed.

Lemma keeps_moves {A} (m : M K A) : moves [] m (λ _, []) → keeps (inv []) m.
Proof. done. Qed.

(** The view after changing the descriptors of a process. *)
Definition fds_change (g : list (option nat) → list (option nat)) (p : proc) : proc := p <| ofile := g (ofile p) |>.

Definition alter_fds (i : nat) (g : list (option nat) → list (option nat)) (v : view) : view :=
  (alter (λ q, (q.1, g q.2)) i v.1.1, v.1.2, v.2).

Lemma kview_fds (k : K) i g :
  kview (k <| k_pt := setp i (fds_change g) (k_pt k) |>) = alter_fds i g (kview k).
Proof.
  unfold kview, alter_fds, pt_view, setp. cbn. f_equal. f_equal.
  apply list_eq. intros j. rewrite list_lookup_fmap. destruct (decide (i = j)) as [->|].
  - rewrite !list_lookup_alter_eq, list_lookup_fmap. by destruct (procs (k_pt k) !! j).
  - by rewrite !list_lookup_alter_ne, list_lookup_fmap.
Qed.

Lemma pids_fds i g v : pids_ok v → pids_ok (alter_fds i g v).
Proof.
  intros (H0 & H1 & H2). split; [done|].
  assert (E : ∀ j q, (alter_fds i g v).1.1 !! j = Some q → ∃ p, v.1.1 !! j = Some p ∧ p.1 = q.1).
  { intros j q. unfold alter_fds. cbn. destruct (decide (i = j)) as [->|].
    - rewrite list_lookup_alter_eq. destruct (v.1.1 !! j) as [p|]; intros [= <-]. by exists p.
    - rewrite list_lookup_alter_ne by done. intros Hj. by exists q. }
  split.
  - intros j q Hj. destruct (E j q Hj) as (p & Hp & <-). exact (H1 j p Hp).
  - intros j j' q q' Hj Hj'. destruct (E j q Hj) as (p & Hp & <-). destruct (E j' q' Hj') as (p' & Hp' & <-).
    by apply H2.
Qed.

Lemma shape_fds i g v : (∀ l, length (g l) = length l) → shape_ok v → shape_ok (alter_fds i g v).
Proof.
  intros Hg (H1 & H2 & H3). split; [by cbn; rewrite length_alter|]. split; [|done].
  apply Forall_alter; [done|]. intros q _ Hq. cbn. by rewrite Hg.
Qed.

Lemma imap_alter {A B} (F : nat → A → B) h i l q :
  l !! i = Some q → imap F (alter h i l) = <[i := F i (h q)]> (imap F l).
Proof.
  intros Hq. apply list_eq. intros j. rewrite list_lookup_imap. destruct (decide (i = j)) as [->|Hn].
  - rewrite list_lookup_alter_eq, Hq, list_lookup_insert_eq; [done|]. rewrite length_imap. by apply lookup_lt_Some in Hq.
  - by rewrite list_lookup_alter_ne, list_lookup_insert_ne, list_lookup_imap.
Qed.

Lemma fdcount_alter D f h i (v v' : view) q :
  v'.1.1 = alter h i v.1.1 → v.1.1 !! i = Some q →
  fdcount D f v' = fdcount D f v - fdcount1 D f i q.2 + fdcount1 D f i (h q).2.
Proof.
  intros E Hq. unfold fdcount. rewrite E, (imap_alter _ _ _ _ q Hq).
  by rewrite (psum_insert _ _ _ _ (fdcount1 D f i q.2)) by (by rewrite list_lookup_imap, Hq).
Qed.

Lemma alter_fds_none i g v : v.1.1 !! i = None → alter_fds i g v = v.
Proof.
  intros Hn. destruct v as [[tab n] r]. unfold alter_fds. cbn in *. do 2 f_equal.
  apply list_eq. intros j. destruct (decide (i = j)) as [->|].
  - by rewrite list_lookup_alter_eq, Hn.
  - by rewrite list_lookup_alter_ne.
Qed.

Lemma fdcount_hang D f i n v : fdcount ((i, n) :: D) f v = fdcount D f (alter_fds i <[n := None]> v).
Proof.
  unfold fdcount. f_equal. apply list_eq. intros j. rewrite !list_lookup_imap. cbn. destruct (decide (i = j)) as [->|Hn].
  - rewrite list_lookup_alter_eq. destruct (v.1.1 !! j) as [q|]; [|done]. cbn. by rewrite fdcount1_hang.
  - rewrite list_lookup_alter_ne by done. destruct (v.1.1 !! j) as [q|]; [|done]. cbn. by rewrite fdcount1_other.
Qed.

Lemma inv_fds L L' i g v :
  inv_view G L v → (∀ l, length (g l) = length l) →
  (∀ f q, v.1.1 !! i = Some q →
     fdcount1 (hanging G) f i (g q.2) - fdcount1 (hanging G) f i q.2 ≤ inflight f L - inflight f L') →
  (v.1.1 !! i = None → ∀ f, inflight f L' ≤ inflight f L) →
  inv_view G L' (alter_fds i g v).
Proof.
  intros (Hf & Hp & Hs & Hc) Hg Hd Hn. split; [|by split; [apply pids_fds|split; [apply shape_fds|]]]. intros f. specialize (Hf f).
  destruct (v.1.1 !! i) as [q|] eqn:E.
  - rewrite (fdcount_alter _ f (λ q, (q.1, g q.2)) i v _ q) by done. specialize (Hd f q eq_refl).
    change (file_ref f (alter_fds i g v)) with (file_ref f v). cbn [snd]. lia.
  - rewrite alter_fds_none by done. specialize (Hn eq_refl f). lia.
Qed.

(** A reference in flight becomes a descriptor. *)
Lemma moves_set_fd L f i n :
  moves (f :: L) (setproc i (λ q, q <| ofile := <[n := Some f]> (ofile q) |>)) (λ _, L).
Proof.
  intros k Hk. change (inv_view G L (kview (k <| k_pt := setp i (fds_change <[n := Some f]>) (k_pt k) |>))).
  rewrite kview_fds. eapply inv_fds; [exact Hk|intros; apply length_insert|intros h q _|intros _ h];
    change (inflight h (f :: L)) with (refers h (Some f) + inflight h L).
  - pose proof (fdcount1_le (hanging G) h i n (Some f) q.2). lia.
  - pose proof (refers_nonneg h (Some f)). lia.
Qed.

(** A descriptor is cleared and its reference is in flight. *)
Lemma inv_clear_fd L f i n q v :
  inv_view G L v → (i, n) ∉ hanging G → v.1.1 !! i = Some q → q.2 !! n = Some (Some f) →
  inv_view G (f :: L) (alter_fds i <[n := None]> v).
Proof.
  intros Hv Hh Hi Hn. eapply inv_fds; [done|intros; apply length_insert|intros h q' Hq'|by rewrite Hi].
  simplify_eq. rewrite (fdcount1_clear _ h f) by done.
  change (inflight h (f :: L)) with (refers h (Some f) + inflight h L). lia.
Qed.

Lemma moves_clear_fd L i n : moves L (setproc i (λ q, q <| ofile := <[n := None]> (ofile q) |>)) (λ _, L).
Proof.
  intros k Hk. change (inv_view G L (kview (k <| k_pt := setp i (fds_change <[n := None]>) (k_pt k) |>))).
  rewrite kview_fds. eapply inv_fds; [exact Hk|intros; apply length_insert|intros h q _|done].
  pose proof (fdcount1_le (hanging G) h i n None q.2). assert (refers h None = 0) by done. lia.
Qed.

(** Changing the reference count of one file. *)
Definition set_ref (f : nat) (n : Z) (v : view) : view := (v.1, <[f := n]> v.2).

Lemma kview_ref (k : K) f g ff :
  k_ftable k !! f = Some ff →
  kview (k <| k_ftable := alter g f (k_ftable k) |>) = set_ref f (fref (g ff)) (kview k).
Proof.
  intros Hf. unfold kview, set_ref. cbn. f_equal. apply list_eq. intros j. rewrite list_lookup_fmap.
  destruct (decide (f = j)) as [->|].
  - rewrite list_lookup_alter_eq, Hf, list_lookup_insert_eq; [done|]. rewrite length_fmap. by apply lookup_lt_Some in Hf.
  - by rewrite list_lookup_alter_ne, list_lookup_insert_ne, list_lookup_fmap.
Qed.

Lemma inv_ref L L' f n v n0 :
  inv_view G L v → v.2 !! f = Some n0 →
  (∀ h, inflight h L' - inflight h L ≤ if decide (h = f) then n - n0 else 0) →
  inv_view G L' (set_ref f n v).
Proof.
  intros (Hf & Hp & (H1 & H2 & H3) & Hc) Hn Hd.
  split; [|split; [done|split; [split; [done|split; [done|by cbn; rewrite length_insert]]|done]]].
  intros h. specialize (Hd h). specialize (Hf h).
  change (fdcount (hanging G) h (set_ref f n v)) with (fdcount (hanging G) h v). unfold file_ref, set_ref in *. cbn.
  case_decide as E.
  - subst h. rewrite list_lookup_insert_eq by (by apply lookup_lt_Some in Hn). rewrite Hn in Hf. cbn in *. lia.
  - rewrite list_lookup_insert_ne by done. lia.
Qed.

Lemma kview_ftable (k : K) f ff : k_ftable k !! f = Some ff → (kview k).2 !! f = Some (fref ff).
Proof. intros H. cbn. by rewrite list_lookup_fmap, H. Qed.

Lemma falloc_scan_some i l f : falloc_scan i l = Some f → ∃ ff, (i ≤ f)%nat ∧ l !! (f - i)%nat = Some ff ∧ fref ff = 0.
Proof.
  revert i. induction l as [|ff l IH]; intros i; cbn; [done|]. case_if.
  - intros [= <-]. exists ff. rewrite Nat.sub_diag. auto with lia.
  - intros H. destruct (IH _ H) as (ff' & ? & Hl & ?). exists ff'. split; [lia|].
    replace (f - i)%nat with (Datatypes.S (f - Datatypes.S i)) by lia. done.
Qed.

Lemma moves_filealloc L : moves L filealloc (λ r, match r with Some f => f :: L | None => L end).
Proof.
  unfold filealloc. apply moves_bind_keep; [auto with keeps|]. intros _ k Hk.
  apply safe_bind, safe_gets. destruct (falloc_scan 0 (k_ftable k)) as [f|] eqn:E.
  - apply falloc_scan_some in E as (ff & _ & Hff & H0). rewrite Nat.sub_0_r in Hff.
    apply safe_bind, safe_modify. apply (moves_bind_keep (f :: L)); [auto with keeps|by intros; apply moves_ret|].
    unfold viewed. rewrite (kview_ref _ _ _ ff) by done. eapply inv_ref; [exact Hk|by apply kview_ftable|].
    intros h. refs.
  - apply (moves_bind_keep L); [auto with keeps|by intros; apply moves_ret|done].
Qed.

Lemma set_ref_twice f n m v : set_ref f n (set_ref f m v) = set_ref f n v.
Proof. unfold set_ref. cbn. by rewrite list_insert_insert_eq. Qed.

Lemma safe_keeps {A} B P (m : M K A) k :
  keeps (viewed P) m → (∀ k', viewed P k' → B k') → viewed P k → safe B m k (λ _, viewed P).
Proof. intros Hm HB Hk. specialize (Hm k Hk). unfold safe in *. destruct (m k); auto. Qed.

(** Taking and giving back a spin lock does not give up the processor. *)
Lemma safe_acquire B P l (k : K) : viewed P k → safe B (acquire l) k (λ _, viewed P).
Proof.
  intros Hk. unfold safe, acquire, mbind, M_bind, on_cpu, zoom. rewrite Cli.pushcli_eq. cbn. destruct (bool_decide _); [exact Logic.I|exact Hk].
Qed.

Lemma popcli_noblock c c' : Cli.popcli c ≠ Block c'.
Proof. unfold Cli.popcli, when, gets, modify, mbind, M_bind, panic, skip. by repeat (case_match; cbn in *; simplify_eq/=). Qed.

Lemma safe_release B P l (k : K) : viewed P k → safe B (release l) k (λ _, viewed P).
Proof.
  intros Hk. unfold safe, release, mbind, M_bind, on_cpu, zoom. cbn. destruct (bool_decide _); [|done]. cbn.
  destruct (Cli.popcli _) eqn:E; try done. by apply popcli_noblock in E.
Qed.

(** [filedup] adds one reference. *)
Lemma safe_filedup B (P P' : view → Prop) f (k : K) :
  (∀ v n, P v → v.2 !! f = Some n → P' (set_ref f (n + 1) v)) →
  viewed P k → safe B (filedup f) k (λ g k', g = f ∧ viewed P' k').
Proof.
  intros HP Hk. unfold filedup. apply safe_bind. eapply safe_mono; [by apply safe_acquire|]. intros [] k1 H1.
  apply safe_bind. unfold safe at 1, getf. destruct (k_ftable k1 !! f) as [ff|] eqn:E; [|done].
  case_if; [done|]. apply safe_bind, safe_modify, safe_bind.
  eapply safe_mono; [apply (safe_release _ P')|by intros; apply safe_ret].
  unfold viewed. rewrite (kview_ref _ _ _ ff) by done. apply HP; [done|by apply kview_ftable].
Qed.

Lemma moves_filedup L f : moves L (filedup f : M K nat) (λ g, g :: L).
Proof.
  intros k Hk. eapply safe_mono; [apply (safe_filedup _ (inv_view G L) (inv_view G (f :: L))); [|exact Hk]|by intros ? ? [-> ?]].
  intros v n Hv Hf. eapply inv_ref; [exact Hv|exact Hf|]. intros h. refs.
Qed.

Lemma keeps_getpipe (P : view → Prop) p : keeps (viewed P) (getpipe p : M K pipe).
Proof. intros k Hk. unfold safe, getpipe. by destruct (k_pipes k !! p). Qed.
Lemma keeps_setpipe (P : view → Prop) p pp : keeps (viewed P) (setpipe p pp : M K unit).
Proof. by apply keeps_view. Qed.
Lemma keeps_getf (P : view → Prop) f : keeps (viewed P) (getf f : M K file).
Proof. intros k Hk. unfold safe, getf. by destruct (k_ftable k !! f). Qed.
Lemma keeps_setf (P : view → Prop) f g : (∀ ff, fref (g ff) = fref ff) → keeps (viewed P) (setf f g : M K unit).
Proof.
  intros Hg. apply keeps_view. intros k. unfold kview. cbn. f_equal.
  apply list_eq. intros j. rewrite !list_lookup_fmap. destruct (decide (f = j)) as [->|].
  - rewrite list_lookup_alter_eq. destruct (k_ftable k !! j); [|done]. cbn. by rewrite Hg.
  - by rewrite list_lookup_alter_ne.
Qed.
Lemma keeps_inode_of (P : view → Prop) ff : keeps (viewed P) (inode_of ff : M K nat).
Proof. unfold inode_of. kgo. Qed.
#[local] Hint Resolve keeps_getpipe keeps_setpipe keeps_getf keeps_inode_of : keeps.
#[local] Hint Extern 1 (keeps _ (setf _ _)) => apply keeps_setf; intros; reflexivity : keeps.

Lemma keeps_kpipeclose (P : view → Prop) p w : keeps (viewed P) (kpipeclose p w : M K unit).
Proof. unfold kpipeclose. kgo. by apply keeps_view. Qed.
#[local] Hint Resolve keeps_kpipeclose : keeps.

(** [fileclose] takes one reference away, before it may sleep. *)
Lemma safe_fileclose_ref B (P P' : view → Prop) f (k : K) :
  (∀ v n, 1 ≤ n → P v → v.2 !! f = Some n → P' (set_ref f (n - 1) v)) →
  viewed P k → safe B (fileclose_ref f) k (λ _, viewed P').
Proof.
  intros HP Hk. unfold fileclose_ref. apply safe_bind. eapply safe_mono; [by apply safe_acquire|].
  intros [] k1 Ha. apply safe_bind. unfold safe at 1, getf.
  destruct (k_ftable k1 !! f) as [ff|] eqn:E; [|done]. case_if; [done|]. apply safe_bind, safe_modify.
  set (k2 := k1 <| k_ftable := _ |>).
  assert (H2 : viewed P' k2).
  { unfold viewed, k2. rewrite (kview_ref _ _ _ ff) by done. apply HP; [lia|done|by apply kview_ftable]. }
  case_if; [apply safe_bind; eapply safe_mono; [by apply safe_release|by intros; apply safe_ret]|]. cbv zeta. apply safe_bind, safe_modify.
  assert (Hl : k_ftable k2 !! f = Some (ff <| fref := fref ff - 1 |>)).
  { unfold k2. cbn. by rewrite list_lookup_alter_eq, E. }
  match goal with |- safe _ ?m ?k3 _ => assert (H3 : viewed P' k3) end.
  { unfold viewed. rewrite (kview_ref _ _ _ _ Hl). unfold viewed, k2 in H2 |- *.
    rewrite (kview_ref _ _ _ ff) in H2 |- * by done. rewrite set_ref_twice. cbn in H2 |- *.
    replace 0 with (fref ff - 1) by lia. done. }
  apply safe_bind. eapply safe_mono; [by apply safe_release|]. intros [] k4 H4. by apply safe_ret.
Qed.

Lemma keeps_fileclose_last (P : view → Prop) ff : keeps (viewed P) (fileclose_last ff : M K unit).
Proof. unfold fileclose_last. kgo. Qed.

Lemma safe_fileclose B (P P' : view → Prop) f (k : K) :
  (∀ v n, 1 ≤ n → P v → v.2 !! f = Some n → P' (set_ref f (n - 1) v)) →
  (∀ k', viewed P' k' → B k') → viewed P k → safe B (fileclose f) k (λ _, viewed P').
Proof.
  intros HP HB Hk. unfold fileclose. apply safe_bind. eapply safe_mono; [by apply (safe_fileclose_ref _ P P')|].
  intros [ff|] k1 H1; [|by apply safe_ret]. apply safe_keeps; [apply keeps_fileclose_last|done|done].
Qed.

Lemma moves_fileclose_ref L f : moves (f :: L) (fileclose_ref f : M K _) (λ _, L).
Proof.
  intros k Hk. apply (safe_fileclose_ref _ (inv_view G (f :: L))); [|done].
  intros v n Hn Hv Hf. eapply inv_ref; [done|done|]. intros h. refs.
Qed.

Lemma moves_fileclose L f : moves (f :: L) (fileclose f : M K unit) (λ _, L).
Proof.
  unfold fileclose. eapply moves_bind; [apply moves_fileclose_ref|]. intros [ff|]; [|by apply moves_ret].
  apply moves_keeps, keeps_fileclose_last.
Qed.

Lemma moves_pipealloc L :
  moves L pipealloc (λ r, match r with Some (f0, f1) => f1 :: f0 :: L | None => L end).
Proof.
  unfold pipealloc. eapply moves_bind; [apply moves_filealloc|]. intros [f0|]; cbv beta iota.
  2: { unfold pipealloc_bad. apply moves_bind_keep; [kgo|]. intros ?. apply moves_bind_keep; [kgo|]. intros ?.
       apply moves_bind_keep; [kgo|]. intros ?. by apply moves_ret. }
  eapply moves_bind; [apply moves_filealloc|]. intros [f1|]; cbv beta iota.
  2: { unfold pipealloc_bad. apply moves_bind_keep; [kgo|]. intros ?. eapply moves_bind; [apply moves_fileclose|].
       intros ?. apply moves_bind_keep; [kgo|]. intros ?. by apply moves_ret. }
  apply moves_bind_keep; [auto with keeps|]. intros p. case_if.
  - unfold pipealloc_bad. apply moves_bind_keep; [kgo|]. intros ?.
    eapply (moves_bind _ _ (λ _, f1 :: L)).
    + intros k Hk. apply (moves_fileclose (f1 :: L) f0 k). destruct Hk as [Hf Hp]. split; [|done].
      intros h. specialize (Hf h). unfold inflight in *. cbn [psum] in *. lia.
    + intros ?. eapply moves_bind; [apply moves_fileclose|]. intros ?. by apply moves_ret.
  - apply moves_bind_keep; [by apply keeps_view|]. intros ?. apply moves_bind_keep; [kgo|]. intros ?.
    apply moves_bind_keep; [kgo|]. intros ?. by apply moves_ret.
Qed.
End Refs.

#[export] Hint Resolve keeps_getpipe keeps_setpipe keeps_getf keeps_inode_of keeps_kpipeclose keeps_fileclose_last : keeps.
#[export] Hint Extern 1 (keeps _ (setf _ _)) => apply keeps_setf; intros; reflexivity : keeps.

(** ** The calls of file.c and of the user memory *)

Section FileOps.
Context {S : Type} `{PA : PageAlloc S} (P : view → Prop).
#[local] Abbreviation K := (kernel S).
#[local] Abbreviation I := (viewed (S := S) P).
Context (dev_read : Z → option (nat → Z → M fsys (Z * list Z))) (dev_write : Z → option (nat → list Z → M fsys Z)).

Lemma keeps_pipewrite_go p n rest : keeps I (pipewrite_go p n rest).
Proof. unfold pipewrite_go. kgo. Qed.
Lemma keeps_piperead_go p n : keeps I (piperead_go p n).
Proof. unfold piperead_go. kgo. Qed.
#[local] Hint Resolve keeps_pipewrite_go keeps_piperead_go : keeps.
Lemma keeps_kpipewrite p l : keeps I (kpipewrite p l).
Proof. unfold kpipewrite. kgo. Qed.
Lemma keeps_kpiperead p n : keeps I (kpiperead p n).
Proof. unfold kpiperead. kgo. Qed.
#[local] Hint Resolve keeps_kpipewrite keeps_kpiperead : keeps.
Lemma keeps_filestat f : keeps I (filestat f).
Proof. unfold filestat. kgo. Qed.
Lemma keeps_fileread f n : keeps I (fileread dev_read f n).
Proof. unfold fileread. kgo. Qed.
Lemma keeps_filepread f n off : keeps I (filepread dev_read f n off).
Proof. unfold filepread. kgo. Qed.
Lemma keeps_write_chunk i off l : keeps I (write_chunk dev_write i off l).
Proof. unfold write_chunk. kgo. Qed.
#[local] Hint Resolve keeps_write_chunk : keeps.
Lemma keeps_filewrite_loop fuel f i rest : keeps I (filewrite_loop dev_write fuel f i rest).
Proof. revert rest. induction fuel; intros [|b rest]; cbn [filewrite_loop]; kgo. Qed.
Lemma keeps_filepwrite_loop fuel i off rest : keeps I (filepwrite_loop dev_write fuel i off rest).
Proof. revert off rest. induction fuel; intros off [|b rest]; cbn [filepwrite_loop]; kgo. Qed.
#[local] Hint Resolve keeps_filewrite_loop keeps_filepwrite_loop : keeps.
Lemma keeps_filewrite f l : keeps I (filewrite dev_write f l).
Proof. unfold filewrite. kgo. Qed.
Lemma keeps_filepwrite f l off : keeps I (filepwrite dev_write f l off).
Proof. unfold filepwrite. kgo. Qed.

Lemma keeps_uload va : keeps I (uload va).
Proof. intros k Hk. unfold safe, uload. by destruct (translate _ _ _ _). Qed.
Lemma keeps_ustore va b : keeps I (ustore va b).
Proof. intros k Hk. unfold safe, ustore. by destruct (translate _ _ _ _). Qed.
#[local] Hint Resolve keeps_uload keeps_ustore : keeps.
Lemma keeps_uload32 va : keeps I (uload32 va).
Proof. unfold uload32. kgo. Qed.
Lemma keeps_ustore_bytes va l : keeps I (ustore_bytes va l).
Proof. revert va. induction l; intros va; cbn [ustore_bytes]; kgo. Qed.
Lemma keeps_uload_bytes va n : keeps I (uload_bytes va n).
Proof. revert va. induction n; intros va; cbn [uload_bytes]; kgo. Qed.
Lemma keeps_ustore32 va w : keeps I (ustore32 va w).
Proof. apply keeps_ustore_bytes. Qed.
#[local] Hint Resolve keeps_uload32 keeps_ustore32 keeps_ustore_bytes keeps_uload_bytes : keeps.

Lemma keeps_fetchint a : keeps I (fetchint a).
Proof. unfold fetchint. kgo. Qed.
Lemma keeps_fetchstr_loop n a : keeps I (fetchstr_loop n a).
Proof. revert a. induction n; intros a; cbn [fetchstr_loop]; kgo. Qed.
#[local] Hint Resolve keeps_fetchint keeps_fetchstr_loop : keeps.
Lemma keeps_fetchstr a : keeps I (fetchstr a).
Proof. unfold fetchstr. kgo. Qed.
Lemma keeps_argint n : keeps I (argint n).
Proof. unfold argint. kgo. Qed.
#[local] Hint Resolve keeps_fetchstr keeps_argint : keeps.
Lemma keeps_argptr n size : keeps I (argptr n size).
Proof. unfold argptr. kgo. Qed.
Lemma keeps_argstr n : keeps I (argstr n).
Proof. unfold argstr. kgo. Qed.
Lemma keeps_argfd n : keeps I (argfd n).
Proof. unfold argfd. kgo. Qed.
Lemma keeps_with_arg {A} (m : M K (option A)) f : keeps I m → (∀ a, keeps I (f a)) → keeps I (with_arg m f).
Proof. intros Hm Hf. unfold with_arg. apply keeps_bind; [done|]. intros [a|]; auto with keeps. Qed.

Lemma keeps_isdirempty_loop fuel dp off : keeps I (isdirempty_loop dev_read fuel dp off).
Proof. revert off. induction fuel; intros off; cbn [isdirempty_loop]; kgo. Qed.
#[local] Hint Resolve keeps_isdirempty_loop : keeps.
Lemma keeps_isdirempty dp : keeps I (isdirempty dev_read dp).
Proof. unfold isdirempty. kgo. Qed.
Lemma keeps_put_end i : keeps I (put_end i).
Proof. unfold put_end. kgo. Qed.
#[local] Hint Resolve keeps_isdirempty keeps_put_end : keeps.
Lemma keeps_link_bad i : keeps I (link_bad i).
Proof. unfold link_bad. kgo. Qed.
Lemma keeps_create path ty mj mn : keeps I (create dev_read dev_write path ty mj mn).
Proof. unfold create. kgo. Qed.
Lemma keeps_finish_create r : keeps I (finish_create r).
Proof. unfold finish_create. kgo. Qed.
Lemma keeps_exec_args n i a : keeps I (exec_args n i a).
Proof. revert i. induction n; intros i; cbn [exec_args]; kgo. Qed.

Lemma keeps_kxem_init a : keeps I (kxem_init a).
Proof. unfold kxem_init. kgo. Qed.
Lemma keeps_kxem_wait a : keeps I (kxem_wait a).
Proof. unfold kxem_wait. kgo. Qed.
Lemma keeps_kxem_unlock a : keeps I (kxem_unlock a).
Proof. unfold kxem_unlock. kgo. Qed.
End FileOps.

#[export] Hint Resolve keeps_pipewrite_go keeps_piperead_go keeps_filestat keeps_fileread keeps_filepread keeps_filewrite keeps_filepwrite keeps_uload
  keeps_ustore keeps_uload32 keeps_ustore32 keeps_ustore_bytes keeps_uload_bytes keeps_fetchint keeps_fetchstr
  keeps_argint keeps_argptr keeps_argstr keeps_argfd keeps_isdirempty keeps_put_end keeps_link_bad keeps_create
  keeps_finish_create keeps_exec_args keeps_kxem_init keeps_kxem_wait keeps_kxem_unlock : keeps.

(** ** Processes *)

Section ProcOps.
Context {S : Type} `{PA : PageAlloc S} {G : ghost}.
#[local] Abbreviation K := (kernel S).
#[local] Abbreviation inv L := (viewed (inv_view G L)).
Context (dev_read : Z → option (nat → Z → M fsys (Z * list Z))) (dev_write : Z → option (nat → list Z → M fsys Z)).
Context (data trapret forkret_addr : Z).

(** The view after giving entry [i] the id [n]. *)
Definition set_pid (i : nat) (n nx : Z) (v : view) : view := (alter (λ q, (n, q.2)) i v.1.1, (nx, v.1.2.2), v.2).

Lemma kview_pid (k : K) i n nx f :
  (∀ p, pv (f p) = (n, ofile p)) →
  kview (k <| k_pt := (setp i f (k_pt k)) <| nextpid := nx |> |>) = set_pid i n nx (kview k).
Proof.
  intros Hf. unfold kview, set_pid, pt_view, setp. cbn. f_equal. f_equal.
  apply list_eq. intros j. rewrite list_lookup_fmap. destruct (decide (i = j)) as [->|].
  - rewrite !list_lookup_alter_eq, list_lookup_fmap. destruct (procs (k_pt k) !! j); [|done]. cbn. by rewrite Hf.
  - by rewrite !list_lookup_alter_ne, list_lookup_fmap.
Qed.

(** A fresh id, or none. *)
Lemma inv_pid L i n nx v :
  inv_view G L v → v.1.2.1 ≤ nx → (n = 0 ∨ n = v.1.2.1 ∧ n < nx) → inv_view G L (set_pid i n nx v).
Proof.
  intros (Hf & (H0 & H1 & H2) & (S1 & S2 & S3) & Hc) Hnx Hn. split; [|split; [|split; [|done]]].
  - intros f. specialize (Hf f). destruct (v.1.1 !! i) as [q|] eqn:E.
    + rewrite (fdcount_alter _ f (λ q, (n, q.2)) i v _ q) by done. cbn [snd]. change (file_ref f (set_pid i n nx v)) with (file_ref f v). lia.
    + replace (fdcount (hanging G) f (set_pid i n nx v)) with (fdcount (hanging G) f v); [done|].
      unfold fdcount, set_pid. cbn. do 2 f_equal. apply list_eq. intros j. destruct (decide (i = j)) as [->|].
      * by rewrite list_lookup_alter_eq, E.
      * by rewrite list_lookup_alter_ne.
  - assert (E : ∀ j q, (set_pid i n nx v).1.1 !! j = Some q → (i = j ∧ q.1 = n) ∨ (i ≠ j ∧ v.1.1 !! j = Some q)).
    { intros j q. unfold set_pid. cbn. destruct (decide (i = j)) as [->|].
      - rewrite list_lookup_alter_eq. destruct (v.1.1 !! j) as [p|]; intros [= <-]. by left.
      - rewrite list_lookup_alter_ne by done. by right. }
    split; [cbn; lia|]. split.
    + intros j q [[_ ->]|[_ Hj]]%E; cbn; [destruct Hn as [->|[-> ?]]; lia|]. specialize (H1 j q Hj). lia.
    + intros j j' q q' [[<- E1]|[N1 Hj]]%E [[<- E2]|[N2 Hj']]%E Eq Hz; [done| | |by eapply H2].
      * specialize (H1 j' q' Hj'). destruct Hn as [->|[-> ?]]; lia.
      * specialize (H1 j q Hj). destruct Hn as [->|[-> ?]]; lia.
  - split; [by cbn; rewrite length_alter|]. split; [|done]. by apply Forall_alter.
Qed.

Lemma keeps_pid0 L i f : (∀ p, pv (f p) = (0, ofile p)) → keeps (inv L) (setproc i f : M K unit).
Proof.
  intros Hf k Hk. change (inv_view G L (kview (k <| k_pt := (setp i f (k_pt k)) <| nextpid := nextpid (k_pt k) |> |>))).
  rewrite (kview_pid k i 0 _ f Hf). apply inv_pid; [done|done|by left].
Qed.

(** The running process has no hanging descriptor. *)
Lemma inv_idle L (k : K) c n : inv L k → cpu_proc (k_pt k) = Some c → (c, n) ∉ hanging G.
Proof.
  intros (_ & _ & _ & Hc) E Hn. apply (Hc c E). apply list_elem_of_fmap. by exists (c, n).
Qed.

Lemma safe_here {A} L (m : M K A) k : keeps (inv L) m → inv L k → safe (inv []) m k (λ _, inv L).
Proof. intros Hm Hk. apply safe_keeps; [done|apply inv_nil|done]. Qed.

Lemma safe_setproc B (k : K) i f (Q : unit → K → Prop) :
  Q tt (k <| k_pt := setp i f (k_pt k) |>) → safe B (setproc i f) k Q.
Proof. done. Qed.

Lemma safe_procn B (k : K) i (Q : proc → K → Prop) :
  (∀ p, procs (k_pt k) !! i = Some p → Q p k) → safe B (procn i) k Q.
Proof.
  intros H. unfold safe, procn, on_pt, zoom, getp. destruct (procs (k_pt k) !! i) as [p|]; [|done].
  replace (k <| k_pt := k_pt k |>) with k by (by destruct k). by apply H.
Qed.

Lemma safe_curproc B (k : K) (Q : nat → K → Prop) :
  (∀ c, cpu_proc (k_pt k) = Some c → Q c k) → safe B curproc k Q.
Proof.
  intros H. unfold safe, curproc, on_pt, zoom, cur, myproc, gets, mbind, M_bind.
  destruct (cpu_proc (k_pt k)) as [c|]; [|done]. cbn.
  replace (k <| k_pt := k_pt k |>) with k by (by destruct k). by apply H.
Qed.

Lemma keeps_allocproc L : keeps (inv L) (allocproc trapret forkret_addr : M K (option nat)).
Proof.
  unfold allocproc. apply keeps_bind; [auto with keeps|]. intros _. apply keeps_bind; [auto with keeps|]. intros tab.
  destruct (unused_scan 0 tab) as [p|]; [|kgo]. intros k Hk. apply safe_bind, safe_gets.
  apply safe_bind. unfold sadd. case_if; [|done]. apply safe_ret.
  apply safe_bind, safe_setproc, safe_bind, safe_modify.
  match goal with |- safe _ _ ?k1 _ =>
    change k1 with (k <| k_pt := (setp p (embryo (nextpid (k_pt k))) (k_pt k)) <| nextpid := nextpid (k_pt k) + 1 |> |>) end.
  match goal with |- safe _ ?m ?k1 _ => cut (keeps (inv L) m) end.
  { intros Hkeep. apply Hkeep. unfold viewed. rewrite (kview_pid k p (nextpid (k_pt k))) by done.
    apply inv_pid; [done|cbn; lia|right; cbn; lia]. }
  kgo.
Qed.

Lemma keeps_dup_files from to : keeps (inv []) (dup_files from to : M K unit).
Proof.
  unfold dup_files. apply keeps_for. intros i. apply keeps_bind; [auto with keeps|]. intros p.
  destruct (ofile p !! Z.to_nat i) as [[f|]|]; auto with keeps.
  apply keeps_moves. eapply moves_bind; [apply moves_filedup|]. intros g. apply moves_set_fd.
Qed.

Lemma keeps_dup_cwd P from to : keeps (viewed P) (dup_cwd from to : M K unit).
Proof. unfold dup_cwd. kgo. Qed.
Lemma keeps_fork_child P c : keeps (viewed P) (fork_child c : M K Z).
Proof. unfold fork_child. kgo. Qed.
Lemma keeps_switchuvm P i : keeps (viewed (S := S) P) (on_pt (switchuvm i)).
Proof. apply keeps_pt. intros v. unfold switchuvm. kgo. by apply keeps_modify. Qed.
#[local] Hint Resolve keeps_allocproc keeps_dup_files keeps_dup_cwd keeps_fork_child keeps_switchuvm : keeps.

Lemma keeps_fork : keeps (inv []) (fork data trapret forkret_addr : M K Z).
Proof. unfold fork. kgo. Qed.
Lemma keeps_growproc P n : keeps (viewed P) (growproc n : M K Z).
Proof. unfold growproc. kgo. Qed.
Lemma keeps_thread_stack P c i : keeps (viewed P) (thread_stack c i : M K (option Z)).
Proof. unfold thread_stack. kgo. Qed.
#[local] Hint Resolve keeps_fork keeps_growproc keeps_thread_stack : keeps.
Lemma keeps_thread_create (store : Z → M K unit) fn arg :
  (∀ w, keeps (inv []) (store w)) → keeps (inv []) (thread_create trapret forkret_addr store fn arg).
Proof. intros Hs. unfold thread_create. kgo. Qed.

Lemma keeps_drop_cwd P c : keeps (viewed P) (drop_cwd c : M K unit).
Proof. unfold drop_cwd. kgo. Qed.
Lemma keeps_reparent P c : keeps (viewed P) (reparent c : M K unit).
Proof. unfold reparent. kgo. Qed.
#[local] Hint Resolve keeps_drop_cwd keeps_reparent : keeps.
Lemma keeps_thread_exit P r : keeps (viewed P) (thread_exit r : M K unit).
Proof. unfold thread_exit. kgo. Qed.

Lemma keeps_joined L i s init : keeps (inv L) (setproc i (joined s init) : M K unit).
Proof. by apply keeps_pid0. Qed.
Lemma keeps_reaped L i : keeps (inv L) (setproc i reaped : M K unit).
Proof. by apply keeps_pid0. Qed.
#[local] Hint Resolve keeps_joined keeps_reaped : keeps.
Lemma keeps_join_body L (store : Z → M K unit) t : (∀ w, keeps (inv L) (store w)) → keeps (inv L) (join_body store t).
Proof. intros Hs. unfold join_body. kgo. Qed.
#[local] Hint Resolve keeps_join_body : keeps.
Lemma keeps_thread_join L (store : Z → M K unit) t : (∀ w, keeps (inv L) (store w)) → keeps (inv L) (thread_join store t).
Proof. intros Hs. unfold thread_join. kgo. Qed.
#[local] Hint Resolve keeps_thread_join : keeps.
Lemma keeps_exit_threads L c : keeps (inv L) (exit_threads c : M K unit).
Proof. unfold exit_threads, exit_pass. kgo. Qed.
Lemma keeps_wait_body L : keeps (inv L) (wait_body : M K Z).
Proof. unfold wait_body. kgo. Qed.
#[local] Hint Resolve keeps_wait_body : keeps.
Lemma keeps_wait L : keeps (inv L) (wait : M K Z).
Proof. unfold wait. kgo. Qed.

(** ** Leaving *)

(** The first descriptor of process [c] that is not null: in [exit], the one whose file
    it is closing. *)
Definition first_open (l : list (option nat)) : option nat := fst <$> list_find (λ o, o ≠ None) l.

Definition closing_view (c : nat) (v : view) : list (nat * nat) :=
  match q ← v.1.1 !! c; first_open q.2 with Some n => [(c, n)] | None => [] end.

(** The invariant between the steps of the kernel. *)
Definition rest_view (H : ghost) (v : view) : Prop :=
  fds_ok H [] v ∧ pids_ok v ∧ shape_ok v ∧ NoDup (hanging H).*1.

Definition hang (l : list (nat * nat)) (H : ghost) : ghost := Ghost (held H) (l ++ hanging H).

Lemma fdcount_clear_le i n f v : fdcount (hanging G) f (alter_fds i <[n := None]> v) ≤ fdcount (hanging G) f v.
Proof.
  destruct (v.1.1 !! i) as [q|] eqn:E; [|by rewrite alter_fds_none].
  rewrite (fdcount_alter _ f (λ q, (q.1, <[n := None]> q.2)) i v _ q) by done. cbn [snd].
  pose proof (fdcount1_le (hanging G) f i n None q.2). assert (refers f None = 0) by done. lia.
Qed.

Lemma fds_hang L i n v : fds_ok G L (alter_fds i <[n := None]> v) → fds_ok (hang [(i, n)] G) L v.
Proof. intros Hf f. specialize (Hf f). cbn [hang hanging held app]. rewrite fdcount_hang. exact Hf. Qed.

(** Whatever the process is closing may be left out of the count. *)
Lemma inv_closing c v : inv_view G [] v → NoDup (hanging G).*1 → c ∉ (hanging G).*1 → rest_view (hang (closing_view c v) G) v.
Proof.
  intros (Hf & Hp & Hs & _) Hd Hc. unfold closing_view. destruct (_ ≫= _) as [n|].
  - split; [|split; [done|split; [done|by constructor]]]. apply fds_hang. intros f. specialize (Hf f).
    pose proof (fdcount_clear_le c n f v). change (file_ref f (alter_fds c <[n:=None]> v)) with (file_ref f v). lia.
  - by destruct G.
Qed.

(** In the loop over the descriptors of [exit]: those before [n] are null. *)
Definition closed_to (c n : nat) (v : view) : Prop :=
  ∀ q m, v.1.1 !! c = Some q → (m < n)%nat → q.2 !! m = Some None ∨ q.2 !! m = None.

Lemma first_open_at (l : list (option nat)) n f :
  (∀ m, (m < n)%nat → l !! m = Some None ∨ l !! m = None) → l !! n = Some (Some f) → first_open l = Some n.
Proof.
  intros Hm Hn. unfold first_open. assert (list_find (λ o, o ≠ None) l = Some (n, Some f)) as ->; [|done].
  apply list_find_Some. split_and!; [done|done|]. intros j y Hj Hl. destruct (Hm j Hl); naive_solver.
Qed.

(** While it closes descriptor [n], the file's reference is gone and the descriptor is
    still there. *)
Definition closing_fd (c n f : nat) (v : view) : Prop :=
  inv_view G [] (alter_fds c <[n := None]> v) ∧ pids_ok v ∧ shape_ok v ∧ closed_to c n v ∧
  ∃ q, v.1.1 !! c = Some q ∧ q.2 !! n = Some (Some f).

Lemma closing_rest c n f v : closing_fd c n f v → NoDup (hanging G).*1 → c ∉ (hanging G).*1 → rest_view (hang (closing_view c v) G) v.
Proof.
  intros ((Hf & _ & _ & _) & Hp & Hs & Hm & q & Hq & Hn) Hd Hc. unfold closing_view. rewrite Hq. cbn [mbind option_bind].
  rewrite (first_open_at _ n f) by (try done; by intros; eapply Hm).
  split; [|split; [done|split; [done|by constructor]]]. by apply fds_hang.
Qed.

Section Leaving.
Context (c : nat) (Hd : NoDup (hanging G).*1) (Hc : c ∉ (hanging G).*1).
#[local] Abbreviation B := (λ k : K, rest_view (hang (closing_view c (kview k)) G) (kview k)).

Lemma exit_keeps {A} (P : view → Prop) (m : M K A) k :
  keeps (viewed P) m → (∀ v, P v → inv_view G [] v) → viewed P k → safe B m k (λ _, viewed P).
Proof. intros Hm HP Hk. apply safe_keeps; [done|intros k' Hk'; apply inv_closing; [by apply HP|done|done]|done]. Qed.

Lemma ok_close_fd n (k : K) : viewed (λ v, inv_view G [] v ∧ closed_to c n v) k →
  safe B (p ← procn c;
    match ofile p !! n with
    | Some (Some f) => _ ← fileclose f; setproc c (λ q, q <| ofile := <[n := None]> (ofile q) |>)
    | _ => skip
    end) k (λ _, viewed (λ v, inv_view G [] v ∧ closed_to c (Datatypes.S n) v)).
Proof.
  intros [Hk Hm]. apply safe_bind, safe_procn. intros p Ep.
  assert (Hq : (kview k).1.1 !! c = Some (pv p)) by (cbn; by rewrite list_lookup_fmap, Ep).
  destruct (ofile p !! n) as [[f|]|] eqn:Ef;
    [|apply safe_ret; split; [done|]; intros q m Hq' Hl; rewrite Hq in Hq'; simplify_eq;
      destruct (decide (m = n)) as [->|]; [by auto|apply (Hm _ m Hq); lia]..].
  assert (Hn : (c, n) ∉ hanging G) by (intros ?; apply Hc, list_elem_of_fmap; by exists (c, n)).
  set (P := λ v : view, inv_view G [f] (alter_fds c <[n := None]> v) ∧ pids_ok v ∧ shape_ok v ∧ closed_to c n v ∧
     ∃ q, v.1.1 !! c = Some q ∧ q.2 !! n = Some (Some f)).
  apply safe_bind. eapply safe_mono; [apply (safe_fileclose _ P (closing_fd c n f))|].
  - intros v m H1 (Hv & Hp & (S1 & S2 & S3) & Ht) Hf.
    split; [|split; [done|split; [split; [done|split; [done|by cbn; rewrite length_insert]]|done]]].
    change (inv_view G [] (set_ref f (m - 1) (alter_fds c <[n := None]> v))).
    eapply inv_ref; [exact Hv|exact Hf|]. intros h. refs.
  - intros k' Hk'. by eapply closing_rest.
  - pose proof Hk as (_ & Hp & Hs & _). split; [by eapply inv_clear_fd|]. split_and!; [done..|]. by exists (pv p).
  - intros [] k2 (H2 & _ & _ & Hm2 & q & Hq2 & Hf2). apply safe_setproc. unfold viewed.
    change (k2 <| k_pt := _ |>) with (k2 <| k_pt := setp c (fds_change <[n := None]>) (k_pt k2) |>).
    rewrite kview_fds. split; [done|]. intros q' m Hq' Hl. cbn in Hq'. rewrite list_lookup_alter_eq in Hq'. cbn in Hq2. rewrite Hq2 in Hq'.
    injection Hq' as <-. cbn. destruct (decide (m = n)) as [->|].
    + left. apply list_lookup_insert_eq. by apply lookup_lt_Some in Hf2.
    + rewrite list_lookup_insert_ne by done. apply (Hm2 q m Hq2). lia.
Qed.

Lemma ok_close_files (k : K) : inv [] k → safe B (close_files c) k (λ _, inv []).
Proof.
  intros Hk. unfold close_files.
  cut (∀ n lo (k : K), viewed (λ v, inv_view G [] v ∧ closed_to c lo v) k →
    safe B (for_ n (Z.of_nat lo) (λ fd,
      p ← procn c;
      match ofile p !! Z.to_nat fd with
      | Some (Some f) => _ ← fileclose f; setproc c (λ q, q <| ofile := <[Z.to_nat fd := None]> (ofile q) |>)
      | _ => skip
      end)) k (λ _, inv [])).
  { intros H. apply (H NOFILE 0%nat). split; [done|]. intros q m _ Hl. lia. }
  induction n as [|n IH]; intros lo k1 H1; cbn [for_]; [by apply safe_ret; destruct H1|].
  apply safe_bind. rewrite Nat2Z.id. eapply safe_mono; [by apply ok_close_fd|]. intros [] k2 H2.
  replace (Z.of_nat lo + 1) with (Z.of_nat (Datatypes.S lo)) by lia. by apply IH.
Qed.

(** [exit] keeps the invariant, whether it gets to its end or sleeps in it. *)
Lemma ok_exit_rest (k : K) : inv [] k → safe B (exit_rest c) k (λ _, inv []).
Proof.
  intros Hk. assert (Hkeep : ∀ A (m : M K A) k, keeps (inv []) m → inv [] k → safe B m k (λ _, inv [])).
  { intros A m k0 Hm H0. by apply exit_keeps. }
  unfold exit_rest.
  apply safe_bind. eapply safe_mono; [apply Hkeep; [auto with keeps|exact Hk]|]. intros p k1 H1.
  apply safe_bind. eapply safe_mono; [apply Hkeep; [|exact H1]|]; [kgo|]. intros [] k2 H2.
  apply safe_bind. eapply safe_mono; [apply Hkeep; [auto with keeps|exact H2]|]. intros q k3 H3.
  apply safe_bind. eapply safe_mono; [apply Hkeep; [|exact H3]|]; [kgo; by apply keeps_view|]. intros [] k4 H4.
  apply safe_bind. eapply safe_mono; [by apply ok_close_files|]. intros [] k5 H5.
  apply Hkeep; [|exact H5]. kgo.
Qed.
End Leaving.

(** ** System calls *)

(** [fdalloc] of a file whose reference the caller holds. *)
Lemma moves_fdalloc L f :
  moves (G := G) (f :: L) (fdalloc f : M K (option nat)) (λ r, match r with Some _ => L | None => f :: L end).
Proof.
  unfold fdalloc. apply moves_bind_keep; [auto with keeps|]. intros c. apply moves_bind_keep; [auto with keeps|].
  intros p. destruct (fd_scan 0 (ofile p)) as [fd|]; [|by apply moves_ret].
  eapply moves_bind; [apply moves_set_fd|]. intros ?. by apply moves_ret.
Qed.

Lemma fd_scan_some i l fd : fd_scan i l = Some fd → (i ≤ fd)%nat ∧ l !! (fd - i)%nat = Some None.
Proof.
  revert i. induction l as [|[f|] l IH]; intros i; cbn; [done| |].
  - intros H. destruct (IH _ H) as [? Hl]. split; [lia|].
    by replace (fd - i)%nat with (Datatypes.S (fd - Datatypes.S i)) by lia.
  - intros [= <-]. by rewrite Nat.sub_diag.
Qed.

Lemma safe_fdalloc B f (k : K) (Q : option nat → K → Prop) :
  (∀ c p fd, cpu_proc (k_pt k) = Some c → procs (k_pt k) !! c = Some p → ofile p !! fd = Some None →
     Q (Some fd) (k <| k_pt := setp c (fds_change <[fd := Some f]>) (k_pt k) |>)) →
  Q None k → safe B (fdalloc f) k Q.
Proof.
  intros HS HN. unfold fdalloc. apply safe_bind, safe_curproc. intros c Ec. apply safe_bind, safe_procn. intros p Ep.
  destruct (fd_scan 0 (ofile p)) as [fd|] eqn:E; [|by apply safe_ret].
  apply fd_scan_some in E as [_ E]. rewrite Nat.sub_0_r in E.
  apply safe_bind, safe_setproc, safe_ret. by eapply HS.
Qed.

(** [sys_dup] makes the descriptor first and counts it then. *)
Lemma keeps_dup_fd f : keeps (inv []) (with_arg (fdalloc f) (λ fd, _ ← filedup f; mret (Z.of_nat fd)) : M K Z).
Proof.
  intros k Hk. unfold with_arg. apply safe_bind. unfold fdalloc. apply safe_bind.
  eapply safe_mono; [by apply (keeps_curproc (inv_view G []))|]. intros c k1 H1. apply safe_bind, safe_procn. intros p Ep.
  destruct (fd_scan 0 (ofile p)) as [fd|]; [|done]. apply safe_bind, safe_setproc, safe_ret, safe_bind.
  eapply safe_mono; [apply (safe_filedup _ (λ v, ∀ n, v.2 !! f = Some n → inv_view G [] (set_ref f (n + 1) v)) (inv_view G []))|].
  - intros v n Hv Hn. by apply Hv.
  - intros n Hn.
    change (inv_view G [] (set_ref f (n + 1) (kview (k1 <| k_pt := setp c (fds_change <[fd := Some f]>) (k_pt k1) |>)))).
    rewrite kview_fds. change (inv_view G [] (alter_fds c <[fd := Some f]> (set_ref f (n + 1) (kview k1)))).
    eapply (inv_fds [f]); [eapply inv_ref; [exact H1|exact Hn|intros h; refs]|intros; apply length_insert|intros h q _|intros _ h];
      change (inflight h [f]) with (refers h (Some f) + 0); change (inflight h []) with 0.
    + pose proof (fdcount1_le (hanging G) h c fd (Some f) q.2). lia.
    + pose proof (refers_nonneg h (Some f)). lia.
  - intros g k3 [-> H3]. by apply safe_ret.
Qed.

Lemma keeps_sys_dup : keeps (inv []) (sys_dup : M K Z).
Proof.
  unfold sys_dup. apply (keeps_with_arg (inv_view G [])); [auto with keeps|]. intros [fd f]. apply keeps_dup_fd.
Qed.

(** A call with arguments. *)
Ltac kargs := repeat (apply keeps_with_arg; [solve [auto with keeps]|intros ?]).

Lemma keeps_sys_close : keeps (inv []) (sys_close : M K Z).
Proof.
  unfold sys_close, with_arg. intros k Hk. apply safe_bind. unfold argfd. apply safe_bind.
  eapply safe_mono; [by apply (keeps_argint (inv_view G []))|]. intros [fd|] k1 H1; [|by apply safe_ret].
  case_if; [by apply safe_ret|]. apply safe_bind, safe_curproc. intros c Ec. apply safe_bind, safe_procn. intros p Ep.
  destruct (ofile p !! Z.to_nat fd) as [[f|]|] eqn:Ef; try by apply safe_ret.
  apply safe_ret, safe_bind, safe_curproc. intros c' Ec'. rewrite Ec in Ec'. simplify_eq. cbn [fst snd].
  apply safe_bind, safe_setproc, safe_bind.
  eapply safe_mono; [apply (moves_fileclose [] f)|by intros; apply safe_ret].
  change (inv_view G [f] (kview (k1 <| k_pt := setp c' (fds_change <[Z.to_nat fd := None]>) (k_pt k1) |>))).
  rewrite kview_fds. apply (inv_clear_fd [] f c' _ (pv p)); [exact H1|by eapply inv_idle| |exact Ef]. cbn. by rewrite list_lookup_fmap, Ep.
Qed.

Lemma keeps_open_fd : keeps (inv []) (open_fd : M K (option (nat * nat))).
Proof.
  unfold open_fd. apply keeps_moves. eapply moves_bind; [apply moves_filealloc|]. intros [f|]; cbv beta iota; [|by apply moves_ret].
  eapply moves_bind; [apply moves_fdalloc|]. intros [fd|]; cbv beta iota; [by apply moves_ret|].
  eapply moves_bind; [apply moves_fileclose|]. intros ?. by apply moves_ret.
Qed.

Lemma keeps_sys_pipe : keeps (inv []) (sys_pipe : M K Z).
Proof.
  unfold sys_pipe. apply (keeps_with_arg (inv_view G [])); [auto with keeps|]. intros a. unfold with_arg.
  apply keeps_moves. eapply moves_bind; [apply moves_pipealloc|]. intros [[rf wf]|]; cbv beta iota; [|by apply moves_ret].
  intros k Hk. assert (Hk' : inv [rf; wf] k).
  { destruct Hk as [Hf Hp]. split; [|done]. intros h. specialize (Hf h). rewrite !inflight_cons in *. lia. }
  clear Hk. apply safe_bind, safe_curproc. intros c Ec. cbn [fst snd].
  assert (Hclose : ∀ k', inv [rf; wf] k' →
    safe (inv []) (_ ← fileclose rf; _ ← fileclose wf; mret (-1)) k' (λ _, inv [])).
  { intros k' H'. apply safe_bind. eapply safe_mono; [by apply (moves_fileclose [wf] rf)|]. intros [] k2 H2.
    apply safe_bind. eapply safe_mono; [by apply (moves_fileclose [] wf)|]. intros [] k3 H3. by apply safe_ret. }
  apply safe_bind, safe_fdalloc; [|by apply safe_bind, safe_ret, safe_bind, safe_ret, Hclose].
  intros c' p fd0 Ec' Ep Ef. rewrite Ec in Ec'. simplify_eq.
  pose proof (moves_set_fd [wf] rf c' fd0 k Hk') as H1.
  set (k1 := k <| k_pt := _ |>). change (inv [wf] k1) in H1. apply safe_bind, safe_fdalloc.
  - intros c2 p2 fd1 Ec2 _ _. pose proof (moves_set_fd [] wf c2 fd1 k1 H1) as H2.
    refine (safe_here [] _ _ _ H2). kgo.
  - apply safe_bind, safe_setproc, Hclose. unfold viewed.
    change (inv_view G [rf; wf] (kview (k1 <| k_pt := setp c' (fds_change <[fd0 := None]>) (k_pt k1) |>))).
    rewrite kview_fds. apply (inv_clear_fd [wf] rf c' fd0 (pid p, <[fd0 := Some rf]> (ofile p))); [exact H1|by eapply (inv_idle _ k1)| |].
    + cbn. by rewrite list_lookup_fmap, list_lookup_alter_eq, Ep.
    + cbn. apply list_lookup_insert_eq. by apply lookup_lt_Some in Ef.
Qed.

#[local] Hint Resolve keeps_sys_dup keeps_sys_close keeps_open_fd keeps_sys_pipe keeps_wait keeps_thread_exit keeps_exit_threads : keeps.
#[local] Hint Extern 1 (keeps _ (thread_create _ _ _ _ _)) => apply keeps_thread_create : keeps.

(** Follow an operation, with the argument checks of system calls. *)
Ltac kcall :=
  repeat (kgo; lazymatch goal with |- keeps _ (with_arg _ _) => apply keeps_with_arg end).

Lemma keeps_set_cpu_share P n : keeps (viewed (S := S) P) (on_pt (set_cpu_share n)).
Proof. apply keeps_pt. intros v. unfold set_cpu_share. kgo; by apply keeps_modify. Qed.
Lemma keeps_getlev P : keeps (viewed (S := S) P) (on_pt getlev).
Proof. apply keeps_pt. intros v. unfold getlev. kgo. Qed.
#[local] Hint Resolve keeps_set_cpu_share keeps_getlev : keeps.

Lemma keeps_kalloc P : keeps (viewed P) (pa_kalloc : M K Z).
Proof. apply keeps_mem. Qed.
#[local] Hint Resolve keeps_kalloc : keeps.

Lemma keeps_loaduvm P readi d a o n :
  (∀ x y, keeps (viewed (S := S) P) (readi x y)) → keeps (viewed P) (loaduvm readi d a o n).
Proof.
  intros Hr. unfold loaduvm. kgo. generalize NPAGES as fuel, 0 as i. intros fuel.
  induction fuel as [|fuel IH]; intros i; cbn [loaduvm_loop]; unfold walkpgdir, ld, do_memset, st, put_bytes; kgo;
    by apply keeps_view.
Qed.
#[local] Hint Resolve keeps_loaduvm : keeps.

Lemma keeps_load_segments P n ip d off s : keeps (viewed P) (load_segments dev_read n ip d off s : M K (option Z)).
Proof. revert off s. induction n; intros off s; cbn [load_segments]; kgo. Qed.
Lemma keeps_push_args P n d sp l : keeps (viewed P) (push_args n d sp l : M K (option (Z * list Z))).
Proof. revert n sp. induction l; intros n sp; cbn [push_args]; kgo. Qed.
Lemma keeps_exec_bad P d ip : keeps (viewed P) (exec_bad d ip : M K Z).
Proof. unfold exec_bad. kgo. Qed.
#[local] Hint Resolve keeps_load_segments keeps_push_args keeps_exec_bad : keeps.
Lemma keeps_exec P path argv : keeps (viewed P) (exec dev_read data path argv : M K Z).
Proof. unfold exec, exec_start. kgo. Qed.
#[local] Hint Resolve keeps_exec : keeps.

(** The wrappers check arguments and call; the proofs differ only in the name. *)
Ltac kwrap f := unfold f; kcall.

Lemma keeps_sysproc : Forall (keeps (inv []))
  [sys_fork data trapret forkret_addr; sys_wait; sys_kill; sys_getpid; sys_sbrk; sys_sleep; sys_uptime; sys_getppid;
   sys_my_yield; sys_yield; sys_getlev; sys_set_cpu_share; sys_my_syscall : M K Z].
Proof.
  repeat constructor.
  - kwrap @sys_fork.
  - kwrap @sys_wait.
  - kwrap @sys_kill.
  - kwrap @sys_getpid.
  - kwrap @sys_sbrk.
  - unfold sys_sleep, sleep_go. kcall.
  - kwrap @sys_uptime.
  - kwrap @sys_getppid.
  - unfold sys_my_yield, my_yield. kcall.
  - kwrap @sys_yield.
  - kwrap @sys_getlev.
  - kwrap @sys_set_cpu_share.
  - unfold sys_my_syscall, my_syscall. kcall. kgo. by apply keeps_view.
Qed.

Lemma keeps_sysfile : Forall (keeps (inv []))
  [sys_pipe; sys_read dev_read; sys_exec (exec dev_read data); sys_fstat; sys_chdir dev_read; sys_dup;
   sys_open dev_read dev_write; sys_write dev_write; sys_mknod dev_read dev_write; sys_unlink dev_read dev_write;
   sys_link dev_read dev_write; sys_mkdir dev_read dev_write; sys_close; sys_pwrite dev_write;
   sys_pread dev_read : M K Z].
Proof.
  repeat constructor.
  - auto with keeps.
  - kwrap @sys_read.
  - kwrap @sys_exec.
  - kwrap @sys_fstat.
  - kwrap @sys_chdir.
  - auto with keeps.
  - kwrap @sys_open.
  - kwrap @sys_write.
  - kwrap @sys_mknod.
  - kwrap @sys_unlink.
  - kwrap @sys_link.
  - kwrap @sys_mkdir.
  - auto with keeps.
  - kwrap @sys_pwrite.
  - kwrap @sys_pread.
Qed.

Lemma keeps_systhread : Forall (keeps (inv []))
  [sys_thread_create trapret forkret_addr; sys_thread_exit; sys_thread_join; sys_xem_init; sys_xem_wait; sys_xem_unlock;
   sys_rwlock_init; sys_rwlock_acquire_readlock; sys_rwlock_release_readlock; sys_rwlock_acquire_writelock;
   sys_rwlock_release_writelock : M K Z].
Proof.
  repeat constructor.
  - kwrap @sys_thread_create.
  - kwrap @sys_thread_exit.
  - kwrap @sys_thread_join.
  - kwrap @sys_xem_init.
  - kwrap @sys_xem_wait.
  - kwrap @sys_xem_unlock.
  - unfold sys_rwlock_init, krwlock_init. kcall.
  - unfold sys_rwlock_acquire_readlock, krwlock_acquire_readlock. kcall.
  - unfold sys_rwlock_release_readlock, krwlock_release_readlock. kcall.
  - unfold sys_rwlock_acquire_writelock, krwlock_acquire_writelock. kcall.
  - unfold sys_rwlock_release_writelock, krwlock_release_writelock. kcall.
Qed.

(** Every system call but [exit], which does not return. *)
Lemma keeps_syscalls num f :
  Z.to_nat num ≠ 2%nat → syscalls dev_read dev_write data trapret forkret_addr num = Some f → keeps (inv []) (f : M K Z).
Proof.
  unfold syscalls. intros Hn. pose proof keeps_sysproc as H1. pose proof keeps_sysfile as H2. pose proof keeps_systhread as H3.
  rewrite Forall_forall in H1, H2, H3. destruct (Z.to_nat num) as [|[|[|n]]]; [done| |done|].
  { intros [= <-]. apply H1. left. }
  clear Hn. cbn [nth].
  do 38 (destruct n as [|n]; cbn [nth];
    [intros [= <-]; solve [apply H1; repeat first [apply list_elem_of_here|apply list_elem_of_further]
                          |apply H2; repeat first [apply list_elem_of_here|apply list_elem_of_further]
                          |apply H3; repeat first [apply list_elem_of_here|apply list_elem_of_further]]|]).
  by destruct n.
Qed.

End ProcOps.

(** ** The kernel as a transition system *)

Section Steps.
Context {S : Type} `{PA : PageAlloc S}.
#[local] Abbreviation K := (kernel S).
Context (dev_read : Z → option (nat → Z → M fsys (Z * list Z))) (dev_write : Z → option (nat → list Z → M fsys Z)).
Context (data trapret forkret_addr : Z).

(** The scheduler before and after the process it has chosen runs. *)
Definition dispatch (i : nat) : M K unit := on_pt
  (_ ← modify (λ t, t <| cpu_proc := Some i |>);
   _ ← switchuvm i;
   updp i (λ q, q <| state := RUNNING |>)).

Definition undispatch (m : Proc_mode) (i : nat) : M K unit := on_pt
  (_ ← switchkvm; _ ← charge m i; modify (λ t, t <| cpu_proc := None |>)).

(** The stretches of kernel code that run on behalf of a process, from a system
    call or from the point where it slept up to its return or its next sleep. *)
Inductive kernel_op : M K unit → Prop :=
| op_boot initcode :
    kernel_op (userinit data trapret forkret_addr initcode (on_fs (namei dev_read [SLASH])))
| op_call num f :
    Z.to_nat num ≠ 2%nat → syscalls dev_read dev_write data trapret forkret_addr num = Some f →
    kernel_op (_ ← f; skip)
| op_return c r : kernel_op (set_eax c r)
| op_alloc : kernel_op (_ ← allocproc trapret forkret_addr; skip)
| op_wait : kernel_op (_ ← slept None; _ ← wait_body; skip)
| op_join a t : kernel_op (_ ← slept None; _ ← join_body (ustore32 a) t; skip)
| op_pipewrite p n rest : kernel_op (_ ← slept (Some (LKpipe p)); _ ← pipewrite_go p n rest; skip)
| op_piperead p n : kernel_op (_ ← slept (Some (LKpipe p)); _ ← piperead_go p n; skip)
| op_sleep t n : kernel_op (_ ← slept (Some LKticks); _ ← sleep_go t n; skip)
| op_yield : kernel_op (_ ← yield_resumed; skip)
| op_my_yield : kernel_op (_ ← my_yield_resumed; skip)
| op_exit_threads c : kernel_op (_ ← setproc c (λ q, q <| exiting := 1 |>); exit_threads c)
| op_timer : kernel_op (trap_timer false).

(** Storing into a descriptor of process [i]. *)
Definition set_fd (i n : nat) (o : option nat) : M K unit :=
  setproc i (λ q, q <| ofile := <[n := o]> (ofile q) |>).

(** Descriptor [n] of process [c] refers to file [f]. *)
Definition has_fd (k : K) (c n f : nat) : Prop :=
  ∃ p, procs (k_pt k) !! c = Some p ∧ ofile p !! n = Some (Some f).

(** The descriptor whose file process [c] is closing in [exit]: the first that is not null. *)
Definition closing (c : nat) (k : K) : list (nat * nat) :=
  match p ← procs (k_pt k) !! c; first_open (ofile p) with Some n => [(c, n)] | None => [] end.

(** A part of a call that was interrupted by the clock or slept before or after it.
    A call holds the references it has taken and not stored into a descriptor or given
    back yet.  [sys_dup] makes its descriptor before it counts it, and [exit] clears a
    descriptor after it has closed the file; the descriptor hangs in between. *)
Inductive part (k : K) : ghost → K → ghost → Prop :=
| part_filealloc L D f k' : filealloc k = Ok (Some f) k' → part k (Ghost L D) k' (Ghost (f :: L) D)
| part_filedup L D f g k' : filedup f k = Ok g k' → part k (Ghost L D) k' (Ghost (g :: L) D)
| part_fdalloc L1 L2 D f fd k' :
    fdalloc f k = Ok (Some fd) k' → part k (Ghost (L1 ++ f :: L2) D) k' (Ghost (L1 ++ L2) D)
| part_store L1 L2 D f i n k' :
    set_fd i n (Some f) k = Ok tt k' → part k (Ghost (L1 ++ f :: L2) D) k' (Ghost (L1 ++ L2) D)
| part_clear L D c n f k' :
    cpu_proc (k_pt k) = Some c → has_fd k c n f → set_fd c n None k = Ok tt k' →
    part k (Ghost L D) k' (Ghost (f :: L) D)
| part_fileclose L1 L2 D f r k' :
    fileclose_ref f k = Ok r k' → part k (Ghost (L1 ++ f :: L2) D) k' (Ghost (L1 ++ L2) D)
| part_dup_fd L D c f fd k' :
    cpu_proc (k_pt k) = Some c → fdalloc f k = Ok (Some fd) k' →
    part k (Ghost L D) k' (Ghost L ((c, fd) :: D))
| part_exit_close L D c n f r k' :
    cpu_proc (k_pt k) = Some c → has_fd k c n f → fileclose_ref f k = Ok r k' →
    part k (Ghost L D) k' (Ghost L ((c, n) :: D)).

(** The steps of the kernel.  A process with a hanging descriptor finishes with it before
    it does anything else that these steps name.  Whatever a process does inside the file
    system, the memory, the pipes and the rest of the process table is [step_other]. *)
Inductive kstep (k : K) (G : ghost) : K → ghost → Prop :=
| step_op m k' :
    idle G (cpu_proc (k_pt k)) → kernel_op m → (m k = Ok tt k' ∨ m k = Block k') → kstep k G k' G
| step_part k' G' : idle G (cpu_proc (k_pt k)) → part k G k' G' → kstep k G k' G'
| step_dup_counted c n f L D1 D2 g k' :
    G = Ghost L (D1 ++ (c, n) :: D2) → cpu_proc (k_pt k) = Some c → has_fd k c n f → filedup f k = Ok g k' →
    kstep k G k' (Ghost L (D1 ++ D2))
| step_exit_cleared c n L D1 D2 k' :
    G = Ghost L (D1 ++ (c, n) :: D2) → cpu_proc (k_pt k) = Some c → set_fd c n None k = Ok tt k' →
    kstep k G k' (Ghost L (D1 ++ D2))
| step_exit c k1 k' :
    idle G (cpu_proc (k_pt k)) → cpu_proc (k_pt k) = Some c →
    exit_rest c k = Ok tt k1 → sched (A := unit) k1 = Block k' → kstep k G k' G
| step_exit_sleeps c k' :
    idle G (cpu_proc (k_pt k)) → cpu_proc (k_pt k) = Some c →
    exit_rest c k = Block k' → kstep k G k' (hang (closing c k') G)
| step_dispatch i k' : dispatch i k = Ok tt k' → kstep k G k' G
| step_undispatch m i k' : undispatch m i k = Ok tt k' → kstep k G k' G
| step_other k' : kview k' = kview k → kstep k G k' G.

(** The state [main] starts from. *)
Definition booting (k : K) : Prop :=
  procs (k_pt k) = replicate NPROC proc0 ∧ nextpid (k_pt k) = 1 ∧ k_ftable k = replicate NFILE file0.

Inductive reachable : K → ghost → Prop :=
| reach_boot k : booting k → reachable k (Ghost [] [])
| reach_step k G k' G' : reachable k G → kstep k G k' G' → reachable k' G'.

#[local] Hint Resolve keeps_allocproc keeps_wait_body keeps_join_body keeps_exit_threads : keeps.

Lemma keeps_userinit G initcode :
  keeps (viewed (inv_view G [])) (userinit data trapret forkret_addr initcode (on_fs (namei dev_read [SLASH])) : M K unit).
Proof. unfold userinit. kgo; by apply keeps_view. Qed.

Lemma keeps_op G m : kernel_op m → keeps (viewed (inv_view G [])) m.
Proof.
  destruct 1; try (unfold sleep_go, my_yield_resumed, yield_resumed, trap_timer, trap_tick, trap_end, killed_exit, set_eax; by kgo).
  - apply keeps_userinit.
  - apply keeps_bind; [by eapply keeps_syscalls|auto with keeps].
  - unfold trap_timer, trap_tick, trap_end, killed_exit.
    kgo; try (by apply keeps_view); apply keeps_pt; intros v; unfold myproc; kgo.
Qed.

(** ** The scheduler *)

Lemma pv_each f l : (∀ p, pv (f p) = pv p) → pv <$> each (λ _, f) l = pv <$> l.
Proof.
  intros H. apply list_eq. intros i. rewrite !list_lookup_fmap, each_lookup. destruct (l !! i); [|done].
  cbn. by rewrite H.
Qed.

(** What it leaves alone of the process table. *)
Definition pt_core (t : ptst) : list (Z * list (option nat)) * Z := (pv <$> procs t, nextpid t).

Lemma keeps_core {A} (m : M ptst A) v : (∀ v, keeps (λ t, pt_view t = v) m) → keeps (λ t, pt_core t = v) m.
Proof.
  intros H t Ht. specialize (H (pt_view t) t eq_refl). unfold safe in *.
  destruct (m t) as [a t'| |t'| |]; try done; rewrite <- Ht; injection H; unfold pt_core; by intros _ -> ->.
Qed.

Lemma keeps_rest {A} G (m : M ptst A) : (∀ v, keeps (λ t, pt_core t = v) m) → keeps (viewed (S := S) (rest_view G)) (on_pt m).
Proof.
  intros H. apply keeps_zoom. intros k Hk. specialize (H (pt_core (k_pt k)) (k_pt k) eq_refl). unfold viewed, kview, pt_view in *.
  unfold safe in *. destruct (m (k_pt k)) as [a t| |t| |]; try done; cbn; injection H; intros -> ->; exact Hk.
Qed.

Lemma keeps_charge v m i : keeps (λ t, pt_view t = v) (charge m i).
Proof.
  unfold charge, adjust_MLFQ_state, init_MLFQ_state, adjust_Stride_state, revaluate_PASS, d2i. kgo; try by apply keeps_modify.
  - apply keeps_updp. intros p. unfold adjust_MLFQ_proc. cbv zeta. by repeat case_match.
  - intros t <-. unfold safe. case_if; [|done]. unfold pt_view. cbn. f_equal. apply pv_each. intros p. by case_match.
Qed.

Lemma keeps_dispatch G i : keeps (viewed (rest_view G)) (dispatch i).
Proof.
  apply keeps_rest. intros v. unfold switchuvm. kgo; try (by apply keeps_modify). apply keeps_core. auto with keeps.
Qed.

Lemma keeps_undispatch G m i : keeps (viewed (rest_view G)) (undispatch m i).
Proof.
  apply keeps_rest. intros v. unfold switchkvm. kgo; try (by apply keeps_modify). apply keeps_core. intros. apply keeps_charge.
Qed.

(** ** The steps keep the invariant *)

Lemma inflight_app f L1 L2 : inflight f (L1 ++ L2) = inflight f L1 + inflight f L2.
Proof. apply psum_app. Qed.

Lemma fds_hold L D f v : fds_ok (Ghost L D) [f] v → fds_ok (Ghost (f :: L) D) [] v.
Proof. intros Hf h. specialize (Hf h). cbn [held hanging] in *. rewrite !inflight_cons in *. change (inflight h []) with 0 in *. lia. Qed.

Lemma fds_take L1 L2 D f v : fds_ok (Ghost (L1 ++ f :: L2) D) [] v → fds_ok (Ghost (L1 ++ L2) D) [f] v.
Proof.
  intros Hf h. specialize (Hf h). cbn [held hanging] in *. rewrite !inflight_app, !inflight_cons in *.
  change (inflight h []) with 0 in *. lia.
Qed.

Lemma fdcount_perm D D' f v : D ≡ₚ D' → fdcount D f v = fdcount D' f v.
Proof.
  intros Hp. unfold fdcount. f_equal. apply imap_ext. intros i q _. unfold fdcount1, mask. f_equal. apply imap_ext. intros n o _.
  apply decide_ext. by rewrite Hp.
Qed.

Lemma rest_inv G (k : K) : rest_view G (kview k) → idle G (cpu_proc (k_pt k)) → viewed (inv_view G []) k.
Proof. by intros (Hf & Hp & Hs & _) Hi. Qed.

Lemma moves_ok {A} G L (m : M K A) L' k a k' :
  moves (G := G) L m L' → viewed (inv_view G L) k → m k = Ok a k' → inv_view G (L' a) (kview k').
Proof. intros Hm Hk E. specialize (Hm k Hk). unfold safe in Hm. by rewrite E in Hm. Qed.

(** A call of which a part runs at [k] with the reference [f] in hand. *)
Lemma part_take L1 L2 D f (k : K) :
  rest_view (Ghost (L1 ++ f :: L2) D) (kview k) → idle (Ghost (L1 ++ f :: L2) D) (cpu_proc (k_pt k)) →
  viewed (inv_view (Ghost (L1 ++ L2) D) [f]) k.
Proof. intros (Hf & Hp & Hs & _) Hi. split; [by apply fds_take|done]. Qed.

Lemma inv_rest G v : inv_view G [] v → NoDup (hanging G).*1 → rest_view G v.
Proof. by intros (Hf & Hp & Hs & _) Hd. Qed.

Lemma inv_rest_hold L D f v : inv_view (Ghost L D) [f] v → NoDup D.*1 → rest_view (Ghost (f :: L) D) v.
Proof. intros (Hf & Hp & Hs & _) Hd. split; [by apply fds_hold|done]. Qed.

Lemma kview_set_fd (k k' : K) i n o : set_fd i n o k = Ok tt k' → kview k' = alter_fds i <[n := o]> (kview k).
Proof. intros [= <-]. apply kview_fds. Qed.

Lemma alter_fds_twice i n o v : alter_fds i <[n := None]> (alter_fds i <[n := o]> v) = alter_fds i <[n := None]> v.
Proof.
  unfold alter_fds. cbn. do 2 f_equal. apply list_eq. intros j. destruct (decide (i = j)) as [->|].
  - rewrite !list_lookup_alter_eq. destruct (v.1.1 !! j) as [q|]; [|done]. cbn. by rewrite list_insert_insert_eq.
  - by rewrite !list_lookup_alter_ne.
Qed.

Lemma part_dup_ok G c n o v :
  inv_view G [] v → c ∉ (hanging G).*1 → NoDup (hanging G).*1 → rest_view (hang [(c, n)] G) (alter_fds c <[n := o]> v).
Proof.
  intros (Hf & Hp & Hs & _) Hc Hd. split; [|split; [by apply pids_fds|split; [by apply shape_fds; [intros; apply length_insert|]|by constructor]]].
  apply fds_hang. rewrite alter_fds_twice. intros h. specialize (Hf h). pose proof (fdcount_clear_le (G := G) c n h v).
  change (file_ref h (alter_fds c <[n := None]> v)) with (file_ref h v). lia.
Qed.

Lemma part_close_ok G c n f (k : K) r k' :
  viewed (inv_view G []) k → c ∉ (hanging G).*1 → NoDup (hanging G).*1 → has_fd k c n f → fileclose_ref f k = Ok r k' →
  rest_view (hang [(c, n)] G) (kview k').
Proof.
  intros Hk Hc Hd (p & Hp & Hn) E. pose proof Hk as (_ & Hpid & Hs & _).
  assert (Hh : (c, n) ∉ hanging G) by (intros ?; apply Hc, list_elem_of_fmap; by exists (c, n)).
  assert (H : safe (λ _, True) (fileclose_ref f) k (λ _, viewed (λ v, inv_view G [] (alter_fds c <[n := None]> v) ∧ pids_ok v ∧ shape_ok v))).
  { apply (safe_fileclose_ref _ (λ v, inv_view G [f] (alter_fds c <[n := None]> v) ∧ pids_ok v ∧ shape_ok v)).
    - intros v m Hm (Hv & Hpv & S1 & S2 & S3) Hf.
      split; [|split; [done|split; [done|split; [done|by cbn; rewrite length_insert]]]].
      change (inv_view G [] (set_ref f (m - 1) (alter_fds c <[n := None]> v))).
      eapply inv_ref; [exact Hv|exact Hf|]. intros h. refs.
    - split; [|done]. eapply (inv_clear_fd [] f c n (pv p)); [exact Hk|done| |exact Hn]. cbn. by rewrite list_lookup_fmap, Hp. }
  unfold safe in H. rewrite E in H. destruct H as ((Hf & _) & Hp' & Hs').
  split; [by apply fds_hang|]. split; [done|]. split; [done|]. by constructor.
Qed.

Lemma part_ok (k : K) G k' G' :
  rest_view G (kview k) → idle G (cpu_proc (k_pt k)) → part k G k' G' → rest_view G' (kview k').
Proof.
  intros Hk Hi Hp. pose proof (rest_inv G k Hk Hi) as Hv. pose proof Hk as (_ & _ & _ & Hd).
  destruct Hp as [L D f k' E|L D f g k' E|L1 L2 D f fd k' E|L1 L2 D f i n k' E|L D c n f k' Hc (p & Hp & Hn) E
                 |L1 L2 D f r k' E|L D c f fd k' Hc E|L D c n f r k' Hc Hn E].
  - apply inv_rest_hold; [|done]. by apply (moves_ok _ _ _ _ _ _ _ (moves_filealloc []) Hv E).
  - apply inv_rest_hold; [|done]. by apply (moves_ok _ _ _ _ _ _ _ (moves_filedup [] f) Hv E).
  - apply inv_rest; [|done]. by apply (moves_ok _ _ _ _ _ _ _ (moves_fdalloc [] f) (part_take _ _ _ _ _ Hk Hi) E).
  - apply inv_rest; [|done]. by apply (moves_ok _ _ _ _ _ _ _ (moves_set_fd [] f i n) (part_take _ _ _ _ _ Hk Hi) E).
  - apply inv_rest_hold; [|done]. rewrite (kview_set_fd _ _ _ _ _ E).
    apply (inv_clear_fd [] f c n (pv p)); [exact Hv|by eapply inv_idle| |exact Hn]. cbn. by rewrite list_lookup_fmap, Hp.
  - apply inv_rest; [|done]. by apply (moves_ok _ _ _ _ _ _ _ (moves_fileclose_ref [] f) (part_take _ _ _ _ _ Hk Hi) E).
  - assert (H : safe (λ _, True) (fdalloc f) k (λ r k', ∀ n, r = Some n → kview k' = alter_fds c <[n := Some f]> (kview k))).
    { apply safe_fdalloc; [|done]. intros c' p n Hc' _ _ m [= <-]. rewrite Hc in Hc'. simplify_eq. apply kview_fds. }
    unfold safe in H. rewrite E in H. rewrite (H fd eq_refl). by apply (part_dup_ok (Ghost L D)); [exact Hv|apply Hi|].
  - by apply (part_close_ok (Ghost L D) c n f k r); [exact Hv|apply Hi| | |].
Qed.

(** A hanging descriptor is counted or cleared. *)
Lemma unhang_ok L D1 D2 c n v :
  rest_view (Ghost L (D1 ++ (c, n) :: D2)) v →
  ((c, n) ∉ D1 ++ D2) ∧ NoDup (D1 ++ D2).*1 ∧ pids_ok v ∧ shape_ok v ∧
  fds_ok (Ghost L (D1 ++ D2)) [] (alter_fds c <[n := None]> v).
Proof.
  intros (Hf & Hp & Hs & Hd). cbn [hanging] in Hd. rewrite <- Permutation_middle in Hd. apply NoDup_cons in Hd as [Hc Hd].
  split; [intros ?; apply Hc, list_elem_of_fmap; by exists (c, n)|]. split_and!; [done..|].
  intros f. specialize (Hf f). cbn [hanging held] in *.
  rewrite (fdcount_perm _ ((c, n) :: D1 ++ D2)), fdcount_hang in Hf by (by rewrite Permutation_middle). exact Hf.
Qed.

Lemma dup_counted_ok L D1 D2 c n f (k : K) g k' :
  rest_view (Ghost L (D1 ++ (c, n) :: D2)) (kview k) → has_fd k c n f → filedup f k = Ok g k' →
  rest_view (Ghost L (D1 ++ D2)) (kview k').
Proof.
  intros Hk (p & Hp & Hn) E. set (G2 := Ghost L (D1 ++ D2)).
  assert (H : safe (λ _, True) (filedup f) k (λ g k', g = f ∧ viewed (rest_view G2) k')).
  { eapply (safe_filedup _ (λ v, rest_view (Ghost L (D1 ++ (c, n) :: D2)) v ∧ ∃ q, v.1.1 !! c = Some q ∧ q.2 !! n = Some (Some f))).
    - intros v m [Hv (q & Hq & Hqn)] Hm. apply unhang_ok in Hv as (Hh & Hd & Hp' & (S1 & S2 & S3) & Hf).
      split; [|split; [done|split; [split; [done|split; [done|by cbn; rewrite length_insert]]|done]]].
      intros h. specialize (Hf h). rewrite (fdcount_alter _ h (λ q, (q.1, <[n := None]> q.2)) c v _ q) in Hf by done.
      cbn [snd] in Hf. rewrite (fdcount1_clear _ h f) in Hf by done. change (inflight h []) with 0 in *.
      change (fdcount (hanging G2) h (set_ref f (m + 1) v)) with (fdcount (hanging G2) h v).
      unfold file_ref, set_ref, G2 in *. cbn [fst snd held hanging alter_fds] in *. destruct (decide (h = f)) as [->|Hne].
      + rewrite list_lookup_insert_eq by (by apply lookup_lt_Some in Hm). rewrite Hm in Hf. revert Hf. unfold refers. rewrite decide_True by done. cbn. lia.
      + rewrite list_lookup_insert_ne by done. revert Hf. unfold refers. rewrite decide_False by congruence. cbn. lia.
    - split; [done|]. exists (pv p). split; [cbn; by rewrite list_lookup_fmap, Hp|done]. }
  unfold safe in H. rewrite E in H. by destruct H.
Qed.

Lemma exit_cleared_ok L D1 D2 c n (k k' : K) :
  rest_view (Ghost L (D1 ++ (c, n) :: D2)) (kview k) → set_fd c n None k = Ok tt k' →
  rest_view (Ghost L (D1 ++ D2)) (kview k').
Proof.
  intros (_ & Hd & Hp & Hs & Hf)%unhang_ok E. rewrite (kview_set_fd _ _ _ _ _ E).
  split; [done|]. split; [by apply pids_fds|]. split; [|done]. apply shape_fds; [|done]. intros; apply length_insert.
Qed.

Lemma closing_kview c (k : K) : closing c k = closing_view c (kview k).
Proof. unfold closing, closing_view. cbn. rewrite list_lookup_fmap. by destruct (procs (k_pt k) !! c). Qed.

Lemma keeps_step_ok {A} (P : view → Prop) (m : M K A) k a k' :
  keeps (viewed P) m → viewed P k → (m k = Ok a k' ∨ m k = Block k') → P (kview k').
Proof. intros Hm Hk E. specialize (Hm k Hk). unfold safe in Hm. by destruct E as [E|E]; rewrite E in Hm. Qed.

Lemma kstep_ok (k : K) G k' G' : rest_view G (kview k) → kstep k G k' G' → rest_view G' (kview k').
Proof.
  intros Hk Hs. pose proof Hk as (_ & _ & _ & Hd).
  destruct Hs as [m k' Hi Hop E|k' G' Hi Hp|c n f L D1 D2 g k' -> Hc Hn E|c n L D1 D2 k' -> Hc E|c k1 k' Hi Hc E1 E2
                 |c k' Hi Hc E|i k' E|m i k' E|k' E].
  - apply inv_rest; [|done]. by eapply keeps_step_ok; [by apply (keeps_op G)|apply rest_inv|].
  - by eapply part_ok.
  - by eapply dup_counted_ok.
  - by eapply exit_cleared_ok.
  - pose proof (ok_exit_rest dev_read dev_write data c Hd (Hi c Hc) k (rest_inv G k Hk Hi)) as H. unfold safe in H. rewrite E1 in H.
    apply inv_rest; [|done]. eapply (keeps_step_ok _ (sched (A := unit)) _ tt); [apply keeps_sched|exact H|by right].
  - pose proof (ok_exit_rest dev_read dev_write data c Hd (Hi c Hc) k (rest_inv G k Hk Hi)) as H. unfold safe in H. rewrite E in H.
    by rewrite closing_kview.
  - by eapply keeps_step_ok; [apply (keeps_dispatch G i)|exact Hk|left].
  - by eapply keeps_step_ok; [apply (keeps_undispatch G m i)|exact Hk|left].
  - by rewrite E.
Qed.

Lemma rest_boot (k : K) : booting k → rest_view (Ghost [] []) (kview k).
Proof.
  intros (Hp & Hn & Hf). split; [|split; [|split; [|by constructor]]].
  - intros f. assert (fdcount [] f (kview k) = 0) as E.
    { unfold fdcount, kview, pt_view. cbn [fst]. rewrite Hp. reflexivity. }
    cbn [held hanging]. rewrite E. unfold file_ref, kview. cbn [snd]. rewrite Hf, list_lookup_fmap.
    destruct (decide (f < NFILE)%nat); [by rewrite lookup_replicate_2|].
    destruct (replicate NFILE file0 !! f) eqn:E'; [|done]. apply lookup_replicate in E' as [_ E']. lia.
  - assert (H0 : ∀ i q, (kview k).1.1 !! i = Some q → q.1 = 0).
    { intros i q. cbn. rewrite Hp, list_lookup_fmap.
      destruct (replicate NPROC proc0 !! i) as [p|] eqn:E; [|done]. apply lookup_replicate in E as [-> _]. by intros [= <-]. }
    unfold pids_ok. change (kview k).1.2.1 with (nextpid (k_pt k)). rewrite Hn. split; [lia|]. split.
    + intros i q Hi. rewrite (H0 i q Hi). lia.
    + intros i j q r Hi Hj _ Hq. by destruct (Hq (H0 i q Hi)).
  - unfold shape_ok, kview, pt_view. cbn [fst snd]. rewrite Hp, Hf, !length_fmap, !length_replicate.
    split; [done|]. split; [|done]. by apply Forall_fmap, Forall_replicate.
Qed.

Lemma reachable_rest (k : K) G : reachable k G → rest_view G (kview k).
Proof. induction 1 as [k Hk|k G k' G' _ IH Hs]; [by apply rest_boot|by eapply kstep_ok]. Qed.

(** ** What holds in every state *)

(** The number of descriptors of all processes, the hanging ones [D] apart, that refer to
    file [f]. *)
Definition descriptors (D : list (nat * nat)) (f : nat) (k : K) : Z :=
  psum (λ n, n) (imap (λ i p, psum (refers f) (mask D i (ofile p))) (procs (k_pt k))).

(** C4: however processes open, duplicate and close files, fork, create threads, exit and
    wait, and wherever in a call they sleep or are interrupted by the clock, the reference
    count of every file is at least the number of descriptors that refer to it and of
    references that calls hold.  Descriptors that hang do not count: those that a process
    in [exit] has closed and not cleared yet, and those that [sys_dup] has made and not
    counted yet; a process has at most one of them.  So no entry of the file table is
    given out again while a process has it open. *)
Theorem files_counted (k : K) G f :
  reachable k G →
  descriptors (hanging G) f k + inflight f (held G) ≤ match k_ftable k !! f with Some ff => fref ff | None => 0 end ∧
  NoDup (hanging G).*1.
Proof.
  intros Hr. destruct (reachable_rest k G Hr) as (Hf & _ & _ & Hd). split; [|done]. specialize (Hf f).
  assert (fdcount (hanging G) f (kview k) = descriptors (hanging G) f k) as E.
  { unfold fdcount, descriptors, kview, pt_view. cbn [fst]. by rewrite imap_fmap. }
  rewrite E in Hf. change (inflight f []) with 0 in Hf. unfold file_ref, kview in Hf. cbn [snd] in Hf.
  rewrite list_lookup_fmap in Hf. destruct (k_ftable k !! f) as [ff|]; cbn in Hf; lia.
Qed.

(** C37: in every state the kernel can reach, two entries of the process table have
    different process ids unless the ids are 0 (no process), and every id is
    below the next one to be given out. *)
Theorem pids_unique (k : K) G i j p q :
  reachable k G → procs (k_pt k) !! i = Some p → procs (k_pt k) !! j = Some q →
  0 ≤ pid p < nextpid (k_pt k) ∧ (pid p = pid q → pid p ≠ 0 → i = j).
Proof.
  intros Hr Hi Hj. destruct (reachable_rest k G Hr) as (_ & (_ & H1 & H2) & _).
  assert (Hv : ∀ i p, procs (k_pt k) !! i = Some p → (kview k).1.1 !! i = Some (pv p)).
  { intros a b Hab. cbn. by rewrite list_lookup_fmap, Hab. }
  split; [by apply (H1 i (pv p)), Hv|]. intros E Hz. by apply (H2 i j (pv p) (pv q)); auto.
Qed.

(** What the types of the kernel's tables promise to the code that indexes them: the
    tables have their declared sizes, and a descriptor that does not hang is null or
    points to an entry of the file table that is in use. *)
Definition well_typed (D : list (nat * nat)) (k : K) : Prop :=
  length (procs (k_pt k)) = NPROC ∧ length (k_ftable k) = NFILE ∧
  ∀ i p, procs (k_pt k) !! i = Some p → length (ofile p) = NOFILE ∧
    ∀ fd f, ofile p !! fd = Some (Some f) → (i, fd) ∉ D → ∃ ff, k_ftable k !! f = Some ff ∧ 0 < fref ff.

Lemma refers_pos (f : nat) l (fd : nat) : l !! fd = Some (Some f) → 1 ≤ psum (refers f) l.
Proof.
  intros H. pose proof (psum_elem (refers f) l fd (Some f) (λ _ o _, refers_nonneg f o) H) as E.
  unfold refers in E at 1. by rewrite decide_True in E.
Qed.

(** C5: in every state the kernel reaches, the process table has NPROC entries with
    NOFILE descriptors each, the file table has NFILE entries, and every descriptor
    that is not null points to an entry of the file table that is in use, but for the one
    descriptor that a process in the middle of [exit] has closed and not cleared yet, or
    one in the middle of [sys_dup] has not counted yet. *)
Theorem kernel_typed (k : K) G : reachable k G → well_typed (hanging G) k ∧ NoDup (hanging G).*1.
Proof.
  intros Hr. destruct (reachable_rest k G Hr) as (Hf & _ & (S1 & S2 & S3) & Hd). split; [|done].
  unfold kview, pt_view in S1, S2, S3. cbn [fst snd] in S1, S2, S3. rewrite length_fmap in S1. rewrite length_fmap in S3.
  split; [done|]. split; [done|]. intros i p Hp.
  assert (Hv : (kview k).1.1 !! i = Some (pv p)) by (cbn; by rewrite list_lookup_fmap, Hp).
  split; [exact (Forall_lookup_1 _ _ _ _ S2 Hv)|]. intros fd f Hfd Hh. specialize (Hf f).
  assert (H1 : fdcount1 (hanging G) f i (ofile p) ≤ fdcount (hanging G) f (kview k)).
  { apply (psum_elem (λ n, n) _ i); [|by rewrite list_lookup_imap, Hv].
    intros j n. rewrite list_lookup_imap. destruct ((kview k).1.1 !! j); [|done]. intros [= <-]. apply fdcount1_nonneg. }
  assert (H2 : 1 ≤ fdcount1 (hanging G) f i (ofile p)).
  { apply (refers_pos f _ fd). rewrite mask_lookup, Hfd. cbn. by rewrite decide_False. }
  pose proof (inflight_nonneg f (held G)) as H3. change (inflight f []) with 0 in Hf.
  unfold file_ref in Hf. change (kview k).2 with (fref <$> k_ftable k) in Hf. rewrite list_lookup_fmap in Hf.
  generalize dependent (fdcount (hanging G) f (kview k)). intros cnt Hf H1. destruct (k_ftable k !! f) as [ff|]; cbn in Hf; [|lia]. exists ff. split; [done|lia].
Qed.
End Steps.

(** ** A concrete kernel *)

Lemma kernlink_high : KERNBASE < KERNLINK.
Proof. done. Qed.

#[local] Instance demo_pages : PageAlloc kmem := kalloc_pages KERNLINK kernlink_high.

Definition demo_fs0 : fsys := mkfs (λ _, zeros) (λ _, zeros) ∅ ∅ 0 (mksb 0 0 0 0 0 0 0) [] 0 0.

(** The state before the first process. *)
Definition demo_boot : kernel kmem :=
  mkk ptst0 (Cli.mkcpu 0 false false) demo_kmem demo_fs0 (replicate NFILE file0) ∅ [] 0 0 false [].

Definition no_read (_ : Z) : option (nat → Z → M fsys (Z * list Z)) := None.
Definition no_write (_ : Z) : option (nat → list Z → M fsys Z) := None.

(** The state an operation leaves. *)
Definition after {A} (m : M (kernel kmem) A) (k : kernel kmem) : kernel kmem :=
  match m k with Ok _ k' | Block k' => k' | _ => k end.

(** What it returns there; [None] where it gives up the processor. *)
Definition result {A} (m : M (kernel kmem) A) (k : kernel kmem) : option (option A) :=
  match m k with Ok a _ => Some (Some a) | Block _ => Some None | _ => None end.

Lemma after_ok {A} (m : M (kernel kmem) A) k a : result m k = Some (Some a) → m k = Ok a (after m k).
Proof. unfold result, after. destruct (m k); congruence. Qed.
Lemma after_block {A} (m : M (kernel kmem) A) k : result m k = Some None → m k = Block (after m k).
Proof. unfold result, after. destruct (m k); congruence. Qed.

(** Process 1 is made and runs. *)
Definition demo_made : kernel kmem := after (_ ← allocproc 0 0; skip) demo_boot.
Definition demo_ready : kernel kmem :=
  demo_made <| k_pt := setp 0 (λ q, q <| state := RUNNABLE |> <| pgdir := 2147483648 |>) (k_pt demo_made) |>.
Definition demo_runs : kernel kmem := after (dispatch 0) demo_ready.

(** It opens a file, being interrupted after [filealloc]. *)
Definition demo_alloc : kernel kmem := after filealloc demo_runs.
Definition demo_open : kernel kmem := after (fdalloc 0) demo_alloc.

(** It exits while another process commits, and has to wait in the middle of [fileclose]. *)
Definition demo_busy : kernel kmem :=
  demo_open <| k_ftable := alter (λ ff, ff <| ftype := FD_INODE |> <| fip := Some 0%nat |>) 0%nat (k_ftable demo_open) |>
            <| k_committing := true |>.
Definition demo_waits : kernel kmem := after (exit_rest 0) demo_busy.

#[local] Abbreviation demo_reachable := (reachable no_read no_write 0 0 0).

Lemma demo_run_made : (_ ← allocproc 0 0; skip) demo_boot = Ok tt demo_made.
Proof. unfold demo_made. apply (after_ok (_ ← allocproc 0 0; skip) demo_boot tt). vm_compute. reflexivity. Qed.
Lemma demo_view_ready : kview demo_ready = kview demo_made.
Proof. vm_compute. reflexivity. Qed.
Lemma demo_run_runs : dispatch 0 demo_ready = Ok tt demo_runs.
Proof. unfold demo_runs. apply (after_ok (dispatch 0) demo_ready tt). vm_compute. reflexivity. Qed.
Lemma demo_run_alloc : filealloc demo_runs = Ok (Some 0%nat) demo_alloc.
Proof. unfold demo_alloc. apply (after_ok filealloc demo_runs). vm_compute. reflexivity. Qed.
Lemma demo_run_open : fdalloc 0 demo_alloc = Ok (Some 0%nat) demo_open.
Proof. unfold demo_open. apply (after_ok (fdalloc 0) demo_alloc). vm_compute. reflexivity. Qed.
Lemma demo_view_busy : kview demo_busy = kview demo_open.
Proof. vm_compute. reflexivity. Qed.
Lemma demo_run_waits : exit_rest 0 demo_busy = Block demo_waits.
Proof. unfold demo_waits. apply (after_block (exit_rest 0) demo_busy). vm_compute. reflexivity. Qed.
Lemma demo_closing : closing 0 demo_waits = [(0, 0)]%nat.
Proof. vm_compute. reflexivity. Qed.
Lemma demo_current : cpu_proc (k_pt demo_busy) = Some 0%nat.
Proof. vm_compute. reflexivity. Qed.

Lemma idle_none D cu : D = [] → idle (Ghost [] D) cu.
Proof. intros -> c _. apply not_elem_of_nil. Qed.

Lemma demo_reach_open : demo_reachable demo_open (Ghost [] []).
Proof.
  assert (R1 : demo_reachable demo_made (Ghost [] [])).
  { refine (reach_step _ _ _ _ _ demo_boot (Ghost [] []) _ _ (reach_boot _ _ _ _ _ _ _) _); [split_and!; reflexivity|].
    exact (step_op _ _ _ _ _ _ _ _ _ (idle_none _ _ eq_refl) (op_alloc _ _ _ _ _) (or_introl demo_run_made)). }
  assert (R2 : demo_reachable demo_ready (Ghost [] [])) by exact (reach_step _ _ _ _ _ _ _ _ _ R1 (step_other _ _ _ _ _ _ _ _ demo_view_ready)).
  assert (R3 : demo_reachable demo_runs (Ghost [] [])) by exact (reach_step _ _ _ _ _ _ _ _ _ R2 (step_dispatch _ _ _ _ _ _ _ _ _ demo_run_runs)).
  pose proof (step_part no_read no_write 0 0 0 _ _ _ _ (idle_none _ _ eq_refl) (part_filealloc _ [] [] _ _ demo_run_alloc)) as P4.
  pose proof (reach_step _ _ _ _ _ _ _ _ _ R3 P4) as R4.
  refine (reach_step _ _ _ _ _ _ _ _ _ R4 (step_part _ _ _ _ _ _ _ _ _ _ (part_fdalloc _ [] [] [] _ _ _ demo_run_open))).
  intros c _. apply not_elem_of_nil.
Qed.

(** A descriptor is left of a file that is closed. *)
Lemma demo_reach_waits : demo_reachable demo_waits (Ghost [] [(0, 0)]%nat).
Proof.
  pose proof (reach_step _ _ _ _ _ _ _ _ _ demo_reach_open (step_other _ _ _ _ _ _ _ _ demo_view_busy)) as R1.
  pose proof (step_exit_sleeps no_read no_write 0 0 0 _ _ _ _ (idle_none _ _ eq_refl) demo_current demo_run_waits) as P2.
  rewrite demo_closing in P2. exact (reach_step _ _ _ _ _ _ _ _ _ R1 P2).
Qed.

(** The descriptor counts while the file is open, and hangs while it is being closed. *)
Lemma files_counted_witness :
  (descriptors [] 0 demo_open = 1 ∧ fref <$> k_ftable demo_open !! 0%nat = Some 1 ∧
   fref <$> k_ftable demo_waits !! 0%nat = Some 0 ∧ (λ p, ofile p !! 0%nat) <$> procs (k_pt demo_waits) !! 0%nat = Some (Some (Some 0%nat))) ∧
  (descriptors [] 0 demo_open + 0 ≤ match k_ftable demo_open !! 0%nat with Some ff => fref ff | None => 0 end ∧ NoDup (@nil nat)) ∧
  (descriptors [(0, 0)%nat] 0 demo_waits + 0 ≤ match k_ftable demo_waits !! 0%nat with Some ff => fref ff | None => 0 end ∧ NoDup [0%nat]).
Proof.
  split; [split_and!; vm_compute; reflexivity|]. split.
  - exact (files_counted no_read no_write 0 0 0 _ _ 0 demo_reach_open).
  - exact (files_counted no_read no_write 0 0 0 _ _ 0 demo_reach_waits).
Defined.

Lemma pids_unique_witness :
  ∃ p, (procs (k_pt demo_waits) !! 0%nat = Some p ∧ pid p = 1 ∧ nextpid (k_pt demo_waits) = 2) ∧
    0 ≤ pid p < nextpid (k_pt demo_waits) ∧ (pid p = pid proc0 → pid p ≠ 0 → 0%nat = 5%nat).
Proof.
  assert (H5 : procs (k_pt demo_waits) !! 5%nat = Some proc0) by (vm_compute; reflexivity).
  assert (H1 : pid <$> procs (k_pt demo_waits) !! 0%nat = Some 1) by (vm_compute; reflexivity).
  destruct (procs (k_pt demo_waits) !! 0%nat) as [p|] eqn:H0; [|discriminate]. injection H1 as H1.
  exists p. split; [split_and!; [reflexivity|exact H1|vm_compute; reflexivity]|].
  exact (pids_unique no_read no_write 0 0 0 _ _ 0 5 p proc0 demo_reach_waits H0 H5).
Defined.

Lemma kernel_typed_witness : well_typed [(0, 0)%nat] demo_waits ∧ NoDup [0%nat].
Proof. exact (kernel_typed no_read no_write 0 0 0 _ _ demo_reach_waits). Defined.
