(* ===== verification/ProcLife.v ===== *)
(** What [fork] and [wait] (proc.c) do to the whole kernel: the entry of the process
    table, the memory, the open files and the directory of a child, from the fork to the
    wait that gives them back. *)

From S2P Require Import Prelude Keeps Layout CString Kalloc ProcTable Sched Spinlock Bytes Fs PageAlloc Vm VmMap VmUser VmCopy Kernel File Proc KernelInv.

Section Life.
Context {S : Type} `{PA : PageAlloc S}.
#[local] Abbreviation K := (kernel S).

(** ** Rules for the kernel's operations *)

(** Interrupts off once more than in [c0], and as in [c0]. *)
Definition inside (c0 c : Cli.cpu) : Prop :=
  0 ≤ Cli.ncli c0 ∧ Cli.ncli c = Cli.ncli c0 + 1 ∧ Cli.FL_IF c = false ∧
  (Cli.ncli c0 = 0 → Cli.intena c = Cli.FL_IF c0) ∧ (0 < Cli.ncli c0 → Cli.FL_IF c0 = false).
Definition same_cpu (c0 c : Cli.cpu) : Prop :=
  Cli.cli_wf c ∧ Cli.ncli c = Cli.ncli c0 ∧ Cli.FL_IF c = Cli.FL_IF c0.

Lemma same_cpu_refl c : Cli.cli_wf c → same_cpu c c.
Proof. by split. Qed.
Lemma same_cpu_trans c1 c2 c3 : same_cpu c1 c2 → same_cpu c2 c3 → same_cpu c1 c3.
Proof. intros (_ & E1 & E2) (W & E3 & E4). split; [done|]. split; congruence. Qed.

Lemma push_inside c : Cli.cli_wf c →
  inside c (Cli.mkcpu (Cli.ncli c + 1) (if Cli.ncli c =? 0 then Cli.FL_IF c else Cli.intena c) false).
Proof. intros [Hn Hf]. split; [done|]. split; [done|]. split; [done|]. split; [|done]. by intros ->. Qed.

Lemma pop_same c0 c (Q : unit → Cli.cpu → Prop) : inside c0 c → (∀ c', same_cpu c0 c' → Q tt c') → returns Cli.popcli c Q.
Proof.
  intros (Hn0 & Hn & Hf & Hi & Hw) HQ. unfold returns. rewrite Cli.popcli_eq by (done || lia). apply HQ.
  assert (E : (Cli.ncli c - 1 =? 0) && Cli.intena c = Cli.FL_IF c0).
  { destruct (Z.eqb_spec (Cli.ncli c - 1) 0) as [E|E]; cbn; [apply Hi; lia|symmetry; apply Hw; lia]. }
  rewrite E. split; [split; cbn; [lia|intros; apply Hw; lia]|]. cbn. split; [lia|done].
Qed.

Lemma acquire_pt_ok (k : K) (Q : unit → K → Prop) :
  ptable_lock (k_pt k) = false → Cli.cli_wf (k_cpu k) →
  (∀ c, inside (k_cpu k) c → Q tt (k <| k_cpu := c |> <| k_pt := (k_pt k) <| ptable_lock := true |> |>)) →
  returns acquire_pt k Q.
Proof.
  intros Hl Hc HQ. unfold acquire_pt. apply returns_bind. apply returns_zoom. unfold returns. rewrite Cli.pushcli_eq.
  unfold on_pt, zoom, acquire_ptable, gets, modify, mbind, M_bind. cbn. rewrite Hl. cbn. by apply HQ, push_inside.
Qed.

Lemma release_pt_ok c0 (k : K) (Q : unit → K → Prop) :
  ptable_lock (k_pt k) = true → inside c0 (k_cpu k) →
  (∀ c, same_cpu c0 c → Q tt (k <| k_pt := (k_pt k) <| ptable_lock := false |> |> <| k_cpu := c |>)) →
  returns release_pt k Q.
Proof.
  intros Hl Hc HQ. unfold release_pt. apply returns_bind. apply returns_zoom.
  unfold returns, release_ptable, gets, modify, mbind, M_bind. cbn. rewrite Hl. cbn.
  change (returns (on_cpu Cli.popcli) (k <| k_pt := (k_pt k) <| ptable_lock := false |> |>) Q).
  apply returns_zoom. eapply pop_same; [exact Hc|]. intros c Hs. by apply HQ.
Qed.

Lemma acquire_ok l (k : K) (Q : unit → K → Prop) :
  l ∉ k_locks k → Cli.cli_wf (k_cpu k) →
  (∀ c, inside (k_cpu k) c → Q tt (k <| k_cpu := c |> <| k_locks := l :: k_locks k |>)) →
  returns (acquire l) k Q.
Proof.
  intros Hl Hc HQ. unfold acquire. apply returns_bind. apply returns_zoom. unfold returns. rewrite Cli.pushcli_eq.
  unfold gets, modify, mbind, M_bind. cbn. rewrite bool_decide_eq_false_2 by done. by apply HQ, push_inside.
Qed.

Lemma filter_head l (ls : list klock) : l ∉ ls → filter (λ m, m ≠ l) (l :: ls) = ls.
Proof.
  intros Hl. rewrite filter_cons_False by tauto. induction ls as [|m ls IH]; [done|].
  apply not_elem_of_cons in Hl as [Hm Hl]. rewrite filter_cons_True by done. by rewrite IH.
Qed.

Lemma release_ok l ls c0 (k : K) (Q : unit → K → Prop) :
  k_locks k = l :: ls → l ∉ ls → inside c0 (k_cpu k) →
  (∀ c, same_cpu c0 c → Q tt (k <| k_locks := ls |> <| k_cpu := c |>)) → returns (release l) k Q.
Proof.
  intros El Hl Hc HQ. unfold release. apply returns_bind, returns_gets. rewrite El, bool_decide_eq_true_2 by left.
  rewrite filter_head by done. apply returns_bind, returns_modify, returns_zoom.
  eapply pop_same; [exact Hc|]. intros c Hs. by apply HQ.
Qed.

Lemma curproc_ok (k : K) c (Q : nat → K → Prop) : cpu_proc (k_pt k) = Some c → Q c k → returns curproc k Q.
Proof.
  intros Hc HQ. apply returns_zoom. unfold returns, cur, myproc, gets, mbind, M_bind. rewrite Hc. cbn.
  by replace (k <| k_pt := k_pt k |>) with k by (by destruct k).
Qed.

Lemma procn_ok (k : K) i p (Q : proc → K → Prop) : procs (k_pt k) !! i = Some p → Q p k → returns (procn i) k Q.
Proof.
  intros Hp HQ. apply returns_zoom. unfold returns, getp. rewrite Hp.
  by replace (k <| k_pt := k_pt k |>) with k by (by destruct k).
Qed.

Lemma setproc_ok (k : K) i f (Q : unit → K → Prop) : Q tt (k <| k_pt := setp i f (k_pt k) |>) → returns (setproc i f) k Q.
Proof. intros HQ. by apply returns_zoom. Qed.

Lemma on_mem_ok {A} (m : M S A) (k : K) (Q : A → K → Prop) :
  returns m (k_mem k) (λ a s, Q a (k <| k_mem := s |>)) → returns (on_mem m) k Q.
Proof. intros H. unfold on_mem. by apply returns_zoom. Qed.

(** ** The process table *)

Lemma setp_ext i f g t : (∀ x, procs t !! i = Some x → f x = g x) → setp i f t = setp i g t.
Proof. intros H. unfold setp. rewrite (list_alter_ext f g (procs t) (procs t) i); done. Qed.

Lemma setp_setp i f g t : setp i f (setp i g t) = setp i (λ q, f (g q)) t.
Proof.
  unfold setp. cbn. replace (alter f i (alter g i (procs t))) with (alter (λ q, f (g q)) i (procs t)); [done|].
  apply list_eq. intros j. destruct (decide (i = j)) as [->|].
  - rewrite !list_lookup_alter_eq. by destruct (procs t !! j).
  - by rewrite !list_lookup_alter_ne.
Qed.

Lemma setp_id i f t : (∀ x, f x = x) → setp i f t = t.
Proof. intros H. unfold setp. rewrite list_alter_id by done. by destruct t. Qed.

(** ** Files *)

Definition one_more (ff : file) : file := ff <| fref := fref ff + 1 |>.

Lemma filedup_ok f ff (k : K) (Q : nat → K → Prop) :
  LKftable ∉ k_locks k → Cli.cli_wf (k_cpu k) → k_ftable k !! f = Some ff → 1 ≤ fref ff →
  (∀ c, same_cpu (k_cpu k) c → Q f (k <| k_ftable := alter one_more f (k_ftable k) |> <| k_cpu := c |>)) →
  returns (filedup f) k Q.
Proof.
  intros Hl Hc Hf Hr HQ. unfold filedup. apply returns_bind, acquire_ok; [done..|]. intros c1 H1.
  apply returns_bind. unfold returns at 1, getf. cbn [k_ftable set]. rewrite Hf. rewrite (proj2 (Z.ltb_ge _ _)) by lia.
  apply returns_bind, returns_modify, returns_bind. eapply (release_ok LKftable (k_locks k) (k_cpu k)); [done..|].
  intros c2 H2. apply returns_ret. by apply (HQ c2).
Qed.

(** The descriptors [po] of the parent, over those [co] that the entry of the child had. *)
Fixpoint overlay (po co : list (option nat)) : list (option nat) :=
  match po, co with
  | a :: po, b :: co => match a with Some f => Some f | None => b end :: overlay po co
  | _, _ => co
  end.

Lemma overlay_length po co : length (overlay po co) = length co.
Proof. revert co. induction po as [|a po IH]; intros [|b co]; cbn; auto. Qed.

Lemma overlay_step po co i o : po !! i = Some o → (i < length co)%nat →
  overlay (take (Datatypes.S i) po) co = match o with Some f => <[i := Some f]> (overlay (take i po) co) | None => overlay (take i po) co end.
Proof.
  revert po co. induction i as [|i IH]; intros [|a po] [|b co] Ho Hl; cbn in *; simplify_eq; try lia.
  - by destruct o.
  - fold (take (Datatypes.S i) po). rewrite (IH po co) by (done || lia). by destruct o.
Qed.

Lemma overlay_none po : overlay po (replicate (length po) None) = po.
Proof. induction po as [|[f|] po IH]; cbn; by rewrite ?IH. Qed.

(** The file table when the first [i] descriptors have been duplicated. *)
Definition shared (po : list (option nat)) (t : list file) : list file :=
  imap (λ f ff, ff <| fref := fref ff + psum (refers f) po |>) t.

Lemma shared_nil t : shared [] t = t.
Proof.
  unfold shared. apply list_eq. intros i. rewrite list_lookup_imap. destruct (t !! i) as [ff|]; [|done]. cbn.
  rewrite Z.add_0_r. by destruct ff.
Qed.

Lemma shared_step po i o t : po !! i = Some o →
  shared (take (Datatypes.S i) po) t = match o with Some f => alter one_more f (shared (take i po) t) | None => shared (take i po) t end.
Proof.
  intros Ho. rewrite (take_S_r _ _ _ Ho). apply list_eq. intros j. unfold shared at 1. rewrite list_lookup_imap.
  assert (E : psum (refers j) (take i po ++ [o]) = psum (refers j) (take i po) + refers j o)
    by (rewrite psum_app; cbn; lia). rewrite E. destruct o as [f|].
  - destruct (decide (f = j)) as [->|Hne].
    + rewrite list_lookup_alter_eq. unfold shared. rewrite list_lookup_imap. destruct (t !! j) as [ff|]; [|done]. cbn.
      unfold one_more, refers. cbn. rewrite decide_True by done. by rewrite Z.add_assoc.
    + rewrite list_lookup_alter_ne by done. unfold shared. rewrite list_lookup_imap. destruct (t !! j) as [ff|]; [|done]. cbn.
      unfold refers at 2. rewrite decide_False by congruence. by rewrite Z.add_0_r.
  - unfold shared. rewrite list_lookup_imap. destruct (t !! j) as [ff|]; [|done]. cbn. by rewrite Z.add_0_r.
Qed.

Definition dup_procs (np : nat) (po : list (option nat)) (t : ptst) : ptst :=
  setp np (λ q, q <| ofile := overlay po (ofile q) |>) t.

(** The state when the first [n] descriptors have been duplicated. *)
Definition dup_upto (k : K) (np : nat) (po : list (option nat)) (cpu : Cli.cpu) : K :=
  k <| k_pt := dup_procs np po (k_pt k) |> <| k_ftable := shared po (k_ftable k) |> <| k_cpu := cpu |>.

Lemma dup_upto_nil (k : K) np : dup_upto k np [] (k_cpu k) = k.
Proof.
  unfold dup_upto, dup_procs. rewrite shared_nil.
  rewrite setp_id; [by destruct k|]. by intros [].
Qed.

Lemma dup_upto_other (k : K) np po cpu c : np ≠ c → procs (k_pt (dup_upto k np po cpu)) !! c = procs (k_pt k) !! c.
Proof. intros H. change (procs (dup_procs np po (k_pt k)) !! c = procs (k_pt k) !! c). by apply setp_lookup_ne. Qed.

Section Dup.
Context (c np : nat) (p q : proc) (k : K).
Context (Hl : LKftable ∉ k_locks k) (Hne : c ≠ np) (Hp : procs (k_pt k) !! c = Some p) (Hq : procs (k_pt k) !! np = Some q).
Context (Hlp : length (ofile p) = NOFILE) (Hlq : length (ofile q) = NOFILE).
Context (Hfs : ∀ fd f, ofile p !! fd = Some (Some f) → ∃ ff, k_ftable k !! f = Some ff ∧ 1 ≤ fref ff).

Lemma dup_procs_step n o : ofile p !! n = Some o → (n < NOFILE)%nat →
  match o with
  | Some f => setp np (λ q, q <| ofile := <[n := Some f]> (ofile q) |>) (dup_procs np (take n (ofile p)) (k_pt k))
  | None => dup_procs np (take n (ofile p)) (k_pt k)
  end = dup_procs np (take (Datatypes.S n) (ofile p)) (k_pt k).
Proof.
  intros Ho Hn. unfold dup_procs. pose proof (overlay_step _ (ofile q) _ _ Ho ltac:(lia)) as E.
  destruct o as [f|]; rewrite ?setp_setp; apply setp_ext; intros x Hx;
    (assert (x = q) as -> by congruence); cbn; by rewrite E.
Qed.

Lemma dup_step n cpu : (n < NOFILE)%nat → Cli.cli_wf cpu →
  returns (p ← procn c;
    match ofile p !! n with
    | Some (Some f) => g ← filedup f; setproc np (λ q, q <| ofile := <[n := Some g]> (ofile q) |>)
    | _ => skip
    end) (dup_upto k np (take n (ofile p)) cpu)
    (λ _ k', ∃ cpu', same_cpu cpu cpu' ∧ k' = dup_upto k np (take (Datatypes.S n) (ofile p)) cpu').
Proof.
  intros Hn Hc. apply returns_bind. eapply procn_ok; [by rewrite dup_upto_other|].
  destruct (ofile p !! n) as [o|] eqn:Eo; [|apply lookup_ge_None in Eo; lia].
  pose proof (dup_procs_step n o Eo Hn) as Ep. pose proof (shared_step _ _ _ (k_ftable k) Eo) as Et.
  destruct o as [f|].
  - destruct (Hfs n f Eo) as (ff & Hff & Hr). apply returns_bind.
    eapply (filedup_ok f (ff <| fref := fref ff + psum (refers f) (take n (ofile p)) |>)); [done|done|..].
    + cbn. unfold shared. by rewrite list_lookup_imap, Hff.
    + cbn. pose proof (psum_nonneg (refers f) (take n (ofile p)) (λ _ o _, refers_nonneg f o)). lia.
    + intros cpu' Hs. apply setproc_ok. exists cpu'. split; [exact Hs|]. unfold dup_upto. rewrite <- Ep, Et. done.
  - apply returns_ret. exists cpu. split; [by apply same_cpu_refl|]. unfold dup_upto. by rewrite <- Ep, Et.
Qed.

Lemma dup_files_ok (Q : unit → K → Prop) : Cli.cli_wf (k_cpu k) →
  (∀ cpu, same_cpu (k_cpu k) cpu → Q tt (dup_upto k np (ofile p) cpu)) → returns (dup_files c np) k Q.
Proof.
  intros Hc HQ. unfold dup_files.
  set (I := λ (i : Z) (k' : K), ∃ cpu, same_cpu (k_cpu k) cpu ∧ k' = dup_upto k np (take (Z.to_nat i) (ofile p)) cpu).
  eapply returns_mono; [apply (returns_for NOFILE _ I)|].
  - exists (k_cpu k). split; [by apply same_cpu_refl|]. cbn [Z.to_nat take]. by rewrite dup_upto_nil.
  - intros i k' Hi (cpu & Hcpu & ->). eapply returns_mono; [apply dup_step; [lia|apply Hcpu]|].
    intros [] k2 (cpu' & Hcpu' & ->). exists cpu'. split; [by eapply same_cpu_trans|].
    by replace (Z.to_nat (i + 1)) with (Datatypes.S (Z.to_nat i)) by lia.
  - intros [] k' (cpu & Hcpu & ->). rewrite take_ge by (rewrite Hlp; unfold NOFILE; lia). by apply HQ.
Qed.
End Dup.

(** ** The kernel stack of a new process *)

Context (data trapret forkret_addr : Z).

(** The first switch to the process goes to [forkret], which returns to [trapret]. *)
Definition stack_ready (m : mem) (stack : Z) : Prop :=
  load32 m (stack + 4016) = trapret ∧ load32 m (stack + 4012) = forkret_addr ∧
  ∀ j, 0 ≤ j < 4 → load32 m (stack + 3996 + 4 * j) = 0.

Lemma stack_ready_ext m m' stack : (∀ a, in_page stack a → m' a = m a) → stack_ready m stack → stack_ready m' stack.
Proof.
  intros H (E1 & E2 & E3). unfold in_page, PGSIZE in H. split; [|split].
  - rewrite (load32_ext m); [done|]. intros i Hi. apply H. lia.
  - rewrite (load32_ext m); [done|]. intros i Hi. apply H. lia.
  - intros j Hj. rewrite (load32_ext m); [by apply E3|]. intros i Hi. apply H. lia.
Qed.

Definition stack_mem (stack : Z) (m : mem) : mem :=
  store32 (memset (stack + 3996) 0 20 (store32 m (stack + 4016) trapret)) (stack + 4012) forkret_addr.

Lemma stack_mem_ready stack m : 0 ≤ trapret < two32 → 0 ≤ forkret_addr < two32 →
  stack_ready (stack_mem stack m) stack ∧ ∀ a, ¬ in_page stack a → stack_mem stack m a = m a.
Proof.
  intros Ht Hf. unfold stack_mem. split; [split; [|split]|].
  - rewrite (load32_ext (store32 m (stack + 4016) trapret)); [by apply load32_store32|]. intros i Hi.
    rewrite store32_other by lia. rewrite memset_spec by lia. unfold in_range. case_match eqn:E; [lia|done].
  - by apply load32_store32.
  - intros j Hj. rewrite (load32_ext (λ _, 0)); [done|]. intros i Hi. rewrite store32_other by lia. rewrite memset_spec by lia.
    unfold in_range. case_match eqn:E; [done|lia].
  - intros a Ha. unfold in_page, PGSIZE in Ha. rewrite store32_other by lia. rewrite memset_spec by lia.
    unfold in_range. case_match eqn:E; [lia|]. apply store32_other. lia.
Qed.

(** The entry [np] of the table after [f], and the next process id. *)
Definition entry (np : nat) (f : proc → proc) (n : Z) (t : ptst) : ptst := (setp np f t) <| nextpid := n |>.

(** The kernel stack [stack] has been taken from the free pages [l] of a kernel with
    the address space [pgdir], which is not touched. *)
Record with_stack (s0 : S) (l : list Z) (pgdir stack : Z) (s : S) (l' : list Z) : Prop := {
  ws_free : l = stack :: l';
  ws_space : space_ok s l' pgdir;
  ws_hand : in_hand s l' pgdir stack;
  ws_mem : ∀ x, ¬ in_page stack x → pa_ram s x = pa_ram s0 x;
  ws_ready : stack_ready (pa_ram s) stack
}.

Lemma write_stack s p l pgdir m' :
  space_ok s l pgdir → in_hand s l pgdir p → (∀ a, ¬ in_page p a → m' a = pa_ram s a) →
  space_ok (pa_write m' s) l pgdir ∧ in_hand (pa_write m' s) l pgdir p.
Proof. intros Hsp Hih Hm. by destruct (page_written s p l pgdir m' Hsp Hih Hm) as (? & ? & _). Qed.

(** The writes of [allocproc] to the stack. *)
Definition push_frame (stack : Z) (s1 : S) : S :=
  let sp := stack + KSTACKSIZE - SIZE_TF - 4 in
  let s2 := pa_write (store32 (pa_ram s1) sp trapret) s1 in
  let s3 := pa_write (memset (sp - SIZE_CTX) 0 SIZE_CTX (pa_ram s2)) s2 in
  pa_write (store32 (pa_ram s3) (sp - SIZE_CTX + 16) forkret_addr) s3.

Lemma push_frame_ok s0 stack l pgdir s1 : 0 ≤ trapret < two32 → 0 ≤ forkret_addr < two32 →
  space_ok s0 (stack :: l) pgdir → pa_ok s1 l → pa_ram s1 = pa_ram s0 →
  with_stack s0 (stack :: l) pgdir stack (push_frame stack s1) l.
Proof.
  intros Ht Hf Hsp Hok Hram. destruct (page_taken s0 stack l pgdir s1 Hsp Hok Hram) as [Hsp1 Hih1].
  unfold push_frame. cbv zeta. set (sp := stack + KSTACKSIZE - SIZE_TF - 4).
  assert (E1 : sp = stack + 4016) by (unfold sp, KSTACKSIZE, SIZE_TF; lia).
  assert (E2 : sp - SIZE_CTX = stack + 3996) by (rewrite E1; unfold SIZE_CTX; lia).
  assert (E3 : sp - SIZE_CTX + 16 = stack + 4012) by (rewrite E2; lia). rewrite E3, E2, E1.
  destruct (write_stack s1 stack l pgdir (store32 (pa_ram s1) (stack + 4016) trapret) Hsp1 Hih1) as [Hsp2 Hih2].
  { intros a Ha. apply store32_other. unfold in_page, PGSIZE in Ha. lia. }
  set (s2 := pa_write _ s1) in *.
  destruct (write_stack s2 stack l pgdir (memset (stack + 3996) 0 SIZE_CTX (pa_ram s2)) Hsp2 Hih2) as [Hsp3 Hih3].
  { intros a Ha. rewrite memset_spec by done. unfold in_range. unfold in_page, PGSIZE in Ha. unfold SIZE_CTX. case_match eqn:E; [lia|done]. }
  set (s3 := pa_write _ s2) in *.
  destruct (write_stack s3 stack l pgdir (store32 (pa_ram s3) (stack + 4012) forkret_addr) Hsp3 Hih3) as [Hsp4 Hih4].
  { intros a Ha. apply store32_other. unfold in_page, PGSIZE in Ha. lia. }
  set (s4 := pa_write _ s3) in *.
  assert (Em : pa_ram s4 = stack_mem stack (pa_ram s0)) by (unfold s4, s3, s2; rewrite !pa_ram_write, Hram; done).
  destruct (stack_mem_ready stack (pa_ram s0) Ht Hf) as [Hr Ho].
  split; [done|done|done| |by rewrite Em]. intros x Hx. rewrite Em. by apply Ho.
Qed.

Lemma unlocked_entry t np f n g : ptable_lock t = false →
  setp np g ((setp np f (t <| ptable_lock := true |>)) <| nextpid := n |> <| ptable_lock := false |>) =
  entry np (λ q, g (f q)) n t.
Proof. intros Hl. unfold entry. rewrite <- (setp_setp np g f). destruct t as [ps pl]. cbn in Hl. subst pl. reflexivity. Qed.

(** [allocproc] with a free entry [np]. *)
Lemma allocproc_ok (k : K) np pgdir l (Q : option nat → K → Prop) :
  let n := nextpid (k_pt k) in
  0 ≤ trapret < two32 → 0 ≤ forkret_addr < two32 →
  ptable_lock (k_pt k) = false → Cli.cli_wf (k_cpu k) → unused_scan 0 (procs (k_pt k)) = Some np →
  0 ≤ n < 2147483647 → space_ok (k_mem k) l pgdir →
  (l = [] → ∀ cpu, same_cpu (k_cpu k) cpu →
     Q None (k <| k_pt := entry np (λ q, (embryo n q) <| kstack := 0 |> <| state := UNUSED |>) (n + 1) (k_pt k) |> <| k_cpu := cpu |>)) →
  (∀ stack l' s cpu, same_cpu (k_cpu k) cpu → with_stack (k_mem k) l pgdir stack s l' →
     Q (Some np) (k <| k_pt := entry np (λ q, (embryo n q) <| kstack := stack |>) (n + 1) (k_pt k) |>
                    <| k_mem := s |> <| k_cpu := cpu |>)) →
  returns (allocproc trapret forkret_addr) k Q.
Proof.
  intros n Ht Hf Hl Hc Hu Hn Hsp HN HS. unfold allocproc. apply returns_bind, acquire_pt_ok; [done..|]. intros c1 H1.
  apply returns_bind, returns_gets. cbn [k_pt procs set]. rewrite Hu. apply returns_bind, returns_gets. cbn [k_pt nextpid set].
  apply returns_bind. unfold sadd. fold n. rewrite (proj2 (Z.leb_le _ _)), (proj2 (Z.ltb_lt _ _)) by lia. cbn [andb].
  apply returns_ret, returns_bind, setproc_ok, returns_bind, returns_modify, returns_bind.
  eapply (release_pt_ok (k_cpu k)); [done|exact H1|]. intros c2 H2. apply returns_bind, on_mem_ok.
  eapply returns_mono; [apply pa_kalloc_ok, (as_alloc _ _ _ (sp_as _ _ _ Hsp))|]. intros m s1 Hm.
  apply returns_bind, setproc_ok. destruct l as [|stack l].
  - destruct Hm as [-> ->]. change (0 =? 0) with true. cbv iota. apply returns_bind, setproc_ok, returns_ret.
    specialize (HN eq_refl c2 H2). rewrite <- (unlocked_entry _ _ (embryo n) _ (λ q, q <| kstack := 0 |> <| state := UNUSED |>)) in HN by done.
    rewrite <- (setp_setp np (λ q, q <| state := UNUSED |>) (λ q, q <| kstack := 0 |>)) in HN. by destruct k.
  - destruct Hm as (-> & Hok & Hram).
    destruct (pa_ok_pages _ _ (as_alloc _ _ _ (sp_as _ _ _ Hsp))) as [Hpg _]. apply Forall_cons in Hpg as [Hp _].
    destruct (pa_page_range stack Hp) as [_ Hr]. rewrite (proj2 (Z.eqb_neq stack 0)) by (unfold KERNBASE in *; lia). cbv zeta.
    do 3 (apply returns_bind, on_mem_ok; unfold st, do_memset; apply returns_modify). apply returns_ret.
    specialize (HS stack l (push_frame stack s1) c2 H2 (push_frame_ok _ _ _ _ _ Ht Hf Hsp Hok Hram)).
    rewrite <- (unlocked_entry _ _ (embryo n) _ (λ q, q <| kstack := stack |>)) in HS by done. exact HS.
Qed.

Lemma entry_setp np f g n t : setp np g (entry np f n t) = entry np (λ q, g (f q)) n t.
Proof. unfold entry. by rewrite <- (setp_setp np g f). Qed.

Lemma entry_locked np f g n t : ptable_lock t = false →
  (setp np g ((entry np f n t) <| ptable_lock := true |>)) <| ptable_lock := false |> = entry np (λ q, g (f q)) n t.
Proof. intros Hl. unfold entry. rewrite <- (setp_setp np g f). destruct t as [ps pl]. cbn in Hl. subst pl. reflexivity. Qed.

Lemma entry_ne np f n t i : np ≠ i → procs (entry np f n t) !! i = procs t !! i.
Proof. apply setp_lookup_ne. Qed.
Lemma entry_eq np f n t : procs (entry np f n t) !! np = f <$> procs t !! np.
Proof. apply setp_lookup_eq. Qed.

Lemma unused_scan_some i l np : unused_scan i l = Some np → ∃ q, (i ≤ np)%nat ∧ l !! (np - i)%nat = Some q ∧ state q = UNUSED.
Proof.
  revert i. induction l as [|q l IH]; intros i; cbn; [done|]. case_bool_decide as E.
  - intros [= <-]. exists q. rewrite Nat.sub_diag. auto with lia.
  - intros H. destruct (IH _ H) as (q' & ? & Hl & ?). exists q'. split; [lia|].
    by replace (np - i)%nat with (Datatypes.S (np - Datatypes.S i)) by lia.
Qed.

(** ** Memory of the parent and of the child *)

(** Taking the stack does not touch the address space of the parent. *)
Lemma stack_keeps s0 l pgdir stack s l' p x :
  with_stack s0 l pgdir stack s l' → space_ok s0 l pgdir → space_page (pa_ram s0) pgdir p → in_page p x → pa_ram s x = pa_ram s0 x.
Proof.
  intros Hw Hsp Hp Hx. eapply (original_same s0 l pgdir s); [done| |exact Hp|exact Hx]. intros y Hy. apply (ws_mem _ _ _ _ _ _ Hw).
  apply Hy. rewrite (ws_free _ _ _ _ _ _ Hw). apply list_elem_of_here.
Qed.

Lemma copied_from s0 l pgdir stack s l' s' d va : 0 ≤ va < KERNBASE →
  with_stack s0 l pgdir stack s l' → space_ok s0 l pgdir → copied_page s pgdir s' d va → copied_page s0 pgdir s' d va.
Proof.
  intros Hva Hw Hsp (f & f' & Hf & Hf' & Hfl & Hx).
  assert (Hpte : ∀ va, pte_of (pa_ram s) pgdir va = pte_of (pa_ram s0) pgdir va).
  { apply pte_same. intros p x Hp. apply (stack_keeps _ _ _ _ _ _ _ _ Hw Hsp). by left. }
  assert (Hf0 : frame (pa_ram s0) pgdir va = Some f) by (unfold frame in *; by rewrite <- Hpte).
  exists f, f'. split; [done|]. split; [done|]. split; [by rewrite <- Hpte|]. intros x Hlt. rewrite Hx by done.
  apply (stack_keeps _ _ _ _ _ _ f _ Hw Hsp); [right; by exists va|]. unfold in_page, PGSIZE in *. lia.
Qed.

Lemma full_from s0 l pgdir stack s l' sz :
  with_stack s0 l pgdir stack s l' → space_ok s0 l pgdir →
  (∀ va, 0 ≤ va < sz → frame (pa_ram s0) pgdir va ≠ None) → ∀ va, 0 ≤ va < sz → frame (pa_ram s) pgdir va ≠ None.
Proof.
  intros Hw Hsp H va Hva. unfold frame. rewrite (pte_same (pa_ram s0)); [by apply H|].
  intros p x Hp. apply (stack_keeps _ _ _ _ _ _ _ _ Hw Hsp). by left.
Qed.

(** Nothing outside the free pages is written. *)
Lemma mem_outside s0 l pgdir stack s l' s' :
  with_stack s0 l pgdir stack s l' → (∀ x, (∀ p, p ∈ l' → ¬ in_page p x) → pa_ram s' x = pa_ram s x) →
  ∀ x, (∀ p, p ∈ l → ¬ in_page p x) → pa_ram s' x = pa_ram s0 x.
Proof.
  intros Hw Hm x Hx. rewrite (ws_free _ _ _ _ _ _ Hw) in Hx. rewrite Hm by (intros p Hp; apply Hx; by right).
  apply (ws_mem _ _ _ _ _ _ Hw), Hx. apply list_elem_of_here.
Qed.

(** ** fork *)

(** Process [c] with entry [p] and directory [d] runs, the first free entry is [np] with
    the contents [q], and the pages [l] are free. *)
Record can_fork (k : K) (c np : nat) (p q : proc) (d : nat) (l : list Z) : Prop := {
  cf_addrs : data_ok data ∧ 0 ≤ trapret < two32 ∧ 0 ≤ forkret_addr < two32;
  cf_locks : ptable_lock (k_pt k) = false ∧ (LKftable ∉ k_locks k) ∧ Cli.cli_wf (k_cpu k);
  cf_parent : cpu_proc (k_pt k) = Some c ∧ procs (k_pt k) !! c = Some p ∧ state p ≠ UNUSED ∧ hasthread p ≠ 1;
  cf_entry : unused_scan 0 (procs (k_pt k)) = Some np ∧ procs (k_pt k) !! np = Some q;
  cf_pid : 0 ≤ nextpid (k_pt k) < 2147483647;
  cf_space : space_ok (k_mem k) l (pgdir p) ∧ 0 ≤ sz p ≤ KERNBASE ∧
    ∀ va, 0 ≤ va < sz p → frame (pa_ram (k_mem k)) (pgdir p) va ≠ None;
  cf_files : length (ofile p) = NOFILE ∧ length (ofile q) = NOFILE ∧
    ∀ fd f, ofile p !! fd = Some (Some f) → ∃ ff, k_ftable k !! f = Some ff ∧ 1 ≤ fref ff;
  cf_cwd : ProcTable.cwd p = Some d
}.

(** The entry of the child. *)
Definition child (n : Z) (c : nat) (p : proc) (d : nat) (stack pgd : Z) (q : proc) : proc :=
  (embryo n q) <| kstack := stack |> <| pgdir := pgd |> <| sz := sz p |> <| parent := Some c |>
    <| tf := (tf p) <| eax := 0 |> |> <| ofile := overlay (ofile p) (ofile q) |> <| ProcTable.cwd := Some d |>
    <| name := proc_name (name p) |> <| state := RUNNABLE |>.

Definition one_ref (ip : inode) : inode := ip <| ref := ref ip + 1 |>.

(** The child exists beside the parent. *)
Record forked (k : K) (c np : nat) (p : proc) (d : nat) (l : list Z) (stack pgd : Z) (k' : K) (l' : list Z) : Prop := {
  fk_table : k_pt k' = entry np (child (nextpid (k_pt k)) c p d stack pgd) (nextpid (k_pt k) + 1) (k_pt k);
  fk_space : space_ok (k_mem k') l' pgd;
  fk_copy : ∀ va, 0 ≤ va < sz p → copied_page (k_mem k) (pgdir p) (k_mem k') pgd va;
  fk_stack : stack_ready (pa_ram (k_mem k')) stack;
  fk_hand : in_hand (k_mem k') l' pgd stack;
  fk_pages : ∀ pg, pg ∈ l ↔ pg ∈ l' ∨ pg = stack ∨ space_page (pa_ram (k_mem k')) pgd pg;
  fk_parent : ∀ pg x, space_page (pa_ram (k_mem k)) (pgdir p) pg → in_page pg x → pa_ram (k_mem k') x = pa_ram (k_mem k) x;
  fk_files : k_ftable k' = shared (ofile p) (k_ftable k);
  fk_cwd : icache (k_fs k') = alter one_ref d (icache (k_fs k));
  fk_cpu : same_cpu (k_cpu k) (k_cpu k');
  fk_mem : ∀ x, (∀ pg, pg ∈ l → ¬ in_page pg x) → pa_ram (k_mem k') x = pa_ram (k_mem k) x;
  fk_fs : k_fs k' = (fs_view k) <| icache := icache (k_fs k') |>;
  fk_rest : k' = k <| k_pt := k_pt k' |> <| k_mem := k_mem k' |> <| k_ftable := k_ftable k' |> <| k_fs := k_fs k' |>
                   <| k_cpu := k_cpu k' |>
}.

(** The entry that was tried; it has an id, and no memory. *)
Definition unforked (n pg : Z) (q : proc) : proc :=
  (embryo n q) <| kstack := 0 |> <| pgdir := pg |> <| state := UNUSED |>.

Lemma unforked_freed n stack q :
  (embryo n q) <| kstack := stack |> <| pgdir := 0 |> <| kstack := 0 |> <| state := UNUSED |> = unforked n 0 q.
Proof. unfold unforked. generalize (embryo n q). by intros []. Qed.
Lemma unforked_same n q : (embryo n q) <| kstack := 0 |> <| state := UNUSED |> = unforked n (pgdir q) q.
Proof. unfold unforked. change (pgdir q) with (pgdir (embryo n q)). generalize (embryo n q). by intros []. Qed.

(** Nothing but the next id, the free entry and the contents of the free pages changed. *)
Record not_forked (k : K) (np : nat) (l : list Z) (k' : K) : Prop := {
  nf_table : ∃ q pg, procs (k_pt k) !! np = Some q ∧ (pg = pgdir q ∨ pg = 0) ∧
    k_pt k' = entry np (λ _, unforked (nextpid (k_pt k)) pg q) (nextpid (k_pt k) + 1) (k_pt k);
  nf_pages : ∃ l', pa_ok (k_mem k') l' ∧ l' ≡ₚ l;
  nf_mem : ∀ x, (∀ pg, pg ∈ l → ¬ in_page pg x) → pa_ram (k_mem k') x = pa_ram (k_mem k) x;
  nf_rest : k' = k <| k_pt := k_pt k' |> <| k_mem := k_mem k' |> <| k_cpu := k_cpu k' |> ∧ same_cpu (k_cpu k) (k_cpu k')
}.

Lemma dup_cwd_ok c np p d (k : K) (Q : unit → K → Prop) :
  procs (k_pt k) !! c = Some p → ProcTable.cwd p = Some d →
  (∀ s, icache s = alter one_ref d (icache (k_fs k)) → s = (fs_view k) <| icache := icache s |> →
     Q tt (k <| k_fs := s |> <| k_pt := setp np (λ q, q <| ProcTable.cwd := Some d |>) (k_pt k) |>)) →
  returns (dup_cwd c np) k Q.
Proof.
  intros Hp Hd HQ. unfold dup_cwd. apply returns_bind. eapply procn_ok; [exact Hp|]. rewrite Hd. apply returns_bind.
  unfold on_fs. apply returns_zoom. unfold idup, seti. mgo. apply setproc_ok. apply HQ; [|done]. cbn [icache set]. f_equal.
  unfold fs_view. by repeat case_match.
Qed.

Section Fork.
Context (k : K) (c np : nat) (p q : proc) (d : nat) (l : list Z) (Hk : can_fork k c np p q d l).
Local Abbreviation n := (nextpid (k_pt k)).

Lemma fork_distinct : np ≠ c.
Proof.
  destruct (cf_entry _ _ _ _ _ _ _ Hk) as [Hu _]. destruct (cf_parent _ _ _ _ _ _ _ Hk) as (_ & Hp & Hs & _).
  intros ->. destruct (unused_scan_some _ _ _ Hu) as (q' & _ & Hq & Hs'). rewrite Nat.sub_0_r in Hq. congruence.
Qed.

(** [fork] after [copyuvm] has returned 0. *)
Lemma fork_no_memory stack l1 s cpu s' (Q : Z → K → Prop) :
  with_stack (k_mem k) l (pgdir p) stack s l1 → same_cpu (k_cpu k) cpu → (∃ l', pa_ok s' l' ∧ l' ≡ₚ l1) →
  (∀ x, (∀ pg, pg ∈ l1 → ¬ in_page pg x) → pa_ram s' x = pa_ram s x) →
  (∀ k', not_forked k np l k' → Q (-1) k') →
  returns (m ← procn np;
           _ ← on_mem (pa_kfree (kstack m));
           _ ← setproc np (λ q, q <| kstack := 0 |> <| state := UNUSED |>);
           mret (-1))
    (k <| k_pt := entry np (λ q, (embryo n q) <| kstack := stack |> <| pgdir := 0 |>) (n + 1) (k_pt k) |> <| k_mem := s' |> <| k_cpu := cpu |>) Q.
Proof.
  intros Hw Hcpu (l' & Hok & Hl) Hmem HQ. destruct (cf_entry _ _ _ _ _ _ _ Hk) as [_ Hq]. pose proof (ws_hand _ _ _ _ _ _ Hw) as Hih.
  apply returns_bind. eapply procn_ok; [cbn [k_pt set]; by rewrite entry_eq, Hq|]. apply returns_bind, on_mem_ok. cbn [k_mem set kstack].
  eapply returns_mono; [apply (pa_kfree_ok s' l' stack); [done|apply Hih|rewrite Hl; apply Hih]|]. intros [] s2 [Hok2 Hm2].
  apply returns_bind, setproc_ok, returns_ret. apply HQ. split.
  - exists q, 0. split; [done|]. split; [by right|]. cbn [k_pt set]. rewrite entry_setp. unfold entry. f_equal. apply setp_ext. intros x Hx.
    assert (x = q) as -> by congruence. apply unforked_freed.
  - exists (stack :: l'). split; [done|]. by rewrite Hl, (ws_free _ _ _ _ _ _ Hw).
  - intros x Hx. cbn [k_mem set]. rewrite Hm2 by (apply Hx; rewrite (ws_free _ _ _ _ _ _ Hw); apply list_elem_of_here).
    by apply (mem_outside _ _ _ _ _ _ _ Hw Hmem).
  - done.
Qed.

(** [fork] once the memory has been copied. *)
Lemma fork_finish stack l1 s cpu pgd s' l' (Q : Z → K → Prop) :
  with_stack (k_mem k) l (pgdir p) stack s l1 → same_cpu (k_cpu k) cpu →
  (∀ x, (∀ pg, pg ∈ l1 → ¬ in_page pg x) → pa_ram s' x = pa_ram s x) →
  space_ok s' l' pgd → (∀ pg, pg ∈ l1 ↔ pg ∈ l' ∨ space_page (pa_ram s') pgd pg) →
  (∀ va, 0 ≤ va < sz p → copied_page s (pgdir p) s' pgd va) →
  (∀ k', forked k c np p d l stack pgd k' l' → Q n k') →
  returns (_ ← setproc np (λ q, q <| sz := sz p |> <| parent := Some c |> <| tf := (tf p) <| eax := 0 |> |>);
           _ ← dup_files c np;
           _ ← dup_cwd c np;
           _ ← setproc np (λ q, q <| name := proc_name (name p) |>);
           m ← procn np;
           _ ← acquire_pt;
           _ ← setproc np (λ q, q <| state := RUNNABLE |>);
           p ← procn c;
           r ← (if hasthread p =? 1 then fork_child c else mret 0);
           if r =? -1 then mret (-1) else _ ← release_pt; mret (pid m))
    (k <| k_pt := entry np (λ q, (embryo n q) <| kstack := stack |> <| pgdir := pgd |>) (n + 1) (k_pt k) |> <| k_mem := s' |> <| k_cpu := cpu |>) Q.
Proof.
  intros Hw Hcpu Hmem Hsp' Hpg Hcopy HQ. pose proof fork_distinct as Hne.
  destruct (cf_locks _ _ _ _ _ _ _ Hk) as (Hl & Hft & Hwf). destruct (cf_parent _ _ _ _ _ _ _ Hk) as (Hcp & Hp & _ & Hth).
  destruct (cf_entry _ _ _ _ _ _ _ Hk) as [_ Hq]. destruct (cf_files _ _ _ _ _ _ _ Hk) as (Hlp & Hlq & Hfs).
  destruct (cf_space _ _ _ _ _ _ _ Hk) as (Hsp & Hsz & _).
  apply returns_bind, setproc_ok. cbn [k_pt set]. rewrite entry_setp. apply returns_bind.
  eapply (dup_files_ok c np p _); [exact Hft|done|by cbn [k_pt set]; rewrite entry_ne|cbn [k_pt set]; by rewrite entry_eq, Hq|done|done|exact Hfs|apply Hcpu|].
  intros cpu2 Hcpu2. unfold dup_upto, dup_procs. cbn [k_pt set k_ftable]. rewrite entry_setp. apply returns_bind.
  eapply (dup_cwd_ok c np p d); [by cbn [k_pt set]; rewrite entry_ne|apply (cf_cwd _ _ _ _ _ _ _ Hk)|]. intros fs' Hfs' Hview. cbn [k_pt set k_fs] in *. rewrite entry_setp.
  apply returns_bind, setproc_ok. cbn [k_pt set]. rewrite entry_setp. apply returns_bind.
  eapply procn_ok; [cbn [k_pt set]; by rewrite entry_eq, Hq|]. apply returns_bind, acquire_pt_ok; [exact Hl|apply Hcpu2|]. intros cpu3 Hcpu3.
  apply returns_bind, setproc_ok, returns_bind. eapply procn_ok; [cbn [k_pt set]; rewrite setp_lookup_ne by done; cbn [procs set]; by rewrite entry_ne|].
  rewrite (proj2 (Z.eqb_neq _ _) Hth). apply returns_bind, returns_ret. change (0 =? -1) with false. cbv iota.
  apply returns_bind. eapply (release_pt_ok cpu2); [done|exact Hcpu3|]. intros cpu4 Hcpu4. apply returns_ret. apply HQ. split.
  - cbn [k_pt set]. rewrite entry_locked by done. reflexivity.
  - done.
  - intros va Hva. eapply copied_from; [lia|exact Hw|exact Hsp|]. by apply Hcopy.
  - eapply stack_ready_ext; [|exact (ws_ready _ _ _ _ _ _ Hw)]. intros a Ha. apply Hmem. intros pg Hin Hpa.
    apply (ih_free _ _ _ _ (ws_hand _ _ _ _ _ _ Hw)).
    destruct (pa_ok_pages _ _ (as_alloc _ _ _ (sp_as _ _ _ (ws_space _ _ _ _ _ _ Hw)))) as [Hpgs _]. rewrite Forall_forall in Hpgs.
    by rewrite (pages_apart stack pg a (ih_page _ _ _ _ (ws_hand _ _ _ _ _ _ Hw)) (Hpgs pg Hin) Ha Hpa).
  - pose proof (ws_hand _ _ _ _ _ _ Hw) as Hih. assert (Hn : ∀ pg, pg ∈ l' ∨ space_page (pa_ram s') pgd pg → pg ≠ stack).
    { intros pg Hor ->. apply (ih_free _ _ _ _ Hih), Hpg, Hor. }
    split; [apply Hih|intros H; by apply (Hn stack); [left|]|intros H; by apply (Hn stack); [right; left|]|].
    intros va Hva Hf. apply (Hn stack); [|done]. right. right. by exists va.
  - intros pg. rewrite (ws_free _ _ _ _ _ _ Hw), elem_of_cons, Hpg. cbn [k_mem set]. tauto.
  - intros pg x Hpg' Hx. cbn [k_mem set]. rewrite <- (stack_keeps _ _ _ _ _ _ pg x Hw Hsp Hpg' Hx).
    eapply original_same; [exact (ws_space _ _ _ _ _ _ Hw)|exact Hmem| |exact Hx].
    assert (Hm : ∀ pg x, owns (pa_ram (k_mem k)) (pgdir p) pg → in_page pg x → pa_ram s x = pa_ram (k_mem k) x)
      by (intros pg' x' Ho; apply (stack_keeps _ _ _ _ _ _ _ _ Hw Hsp); by left).
    apply (space_page_same _ _ _ (pte_same _ _ _ Hm) (owns_same _ _ _ Hm)). done.
  - done.
  - exact Hfs'.
  - eapply same_cpu_trans; [exact Hcpu|]. by eapply same_cpu_trans; [exact Hcpu2|].
  - apply (mem_outside _ _ _ _ _ _ _ Hw Hmem).
  - cbn [k_fs set]. rewrite Hview at 1. f_equal. unfold fs_view. cbn [k_pt set cpu_proc]. change (cpu_proc (entry ?a ?b ?c ?t)) with (cpu_proc t).
    rewrite Hcp. by rewrite entry_ne.
  - done.
Qed.

Lemma fork_ok :
  returns (fork data trapret forkret_addr) k (λ r k',
    (r = -1 ∧ not_forked k np l k') ∨ (r = n ∧ ∃ stack pgd l', forked k c np p d l stack pgd k' l')).
Proof.
  pose proof fork_distinct as Hne. destruct (cf_addrs _ _ _ _ _ _ _ Hk) as (Hdata & Htr & Hfr).
  destruct (cf_locks _ _ _ _ _ _ _ Hk) as (Hl & _ & Hwf). destruct (cf_parent _ _ _ _ _ _ _ Hk) as (Hc & Hp & _).
  destruct (cf_entry _ _ _ _ _ _ _ Hk) as [Hu Hq]. destruct (cf_space _ _ _ _ _ _ _ Hk) as (Hsp & Hsz & Hfull).
  unfold fork. apply returns_bind. eapply curproc_ok; [exact Hc|]. apply returns_bind.
  apply (allocproc_ok k np (pgdir p) l); [done..|apply (cf_pid _ _ _ _ _ _ _ Hk)|done| |].
  - intros -> cpu Hcpu. apply returns_ret. left. split; [done|]. split.
    + exists q, (pgdir q). split; [done|]. split; [by left|]. cbn [k_pt set]. unfold entry. f_equal. apply setp_ext. intros x Hx.
      assert (x = q) as -> by congruence. apply unforked_same.
    + exists []. split; [apply (as_alloc _ _ _ (sp_as _ _ _ Hsp))|done].
    + done.
    + done.
  - intros stack l1 s cpu Hcpu Hw. apply returns_bind. eapply procn_ok; [by cbn [k_pt set]; rewrite entry_ne|].
    apply returns_bind, on_mem_ok. cbn [k_mem set].
    eapply returns_mono; [apply (copyuvm_ok data s l1); [done|exact (ws_space _ _ _ _ _ _ Hw)|done|by eapply full_from]|].
    intros pgd s' [Hmem Hpost]. apply returns_bind, setproc_ok. cbn [k_pt set]. rewrite entry_setp.
    destruct Hpost as [[-> Hl']|(Hd & l' & Hsp' & Hpg & Hcopy & _)].
    + change (0 =? 0) with true. cbv iota. apply (fork_no_memory stack l1 s cpu s'); [done..|]. intros k' Hk'. by left.
    + rewrite (proj2 (Z.eqb_neq pgd 0)) by done. apply (fork_finish stack l1 s cpu pgd s' l'); [done..|].
      intros k' Hk'. right. split; [done|]. by exists stack, pgd, l'.
Qed.

End Fork.

(** [fork] where the table is full. *)
Lemma fork_full (k : K) c : cpu_proc (k_pt k) = Some c → ptable_lock (k_pt k) = false → Cli.cli_wf (k_cpu k) →
  unused_scan 0 (procs (k_pt k)) = None →
  returns (fork data trapret forkret_addr) k (λ r k', r = -1 ∧ ∃ cpu, k' = k <| k_cpu := cpu |> ∧ same_cpu (k_cpu k) cpu).
Proof.
  intros Hc Hl Hwf Hu. unfold fork. apply returns_bind. eapply curproc_ok; [exact Hc|]. apply returns_bind. unfold allocproc.
  apply returns_bind, acquire_pt_ok; [done..|]. intros c1 H1. apply returns_bind, returns_gets. cbn [k_pt procs set]. rewrite Hu.
  apply returns_bind. eapply (release_pt_ok (k_cpu k)); [done|exact H1|]. intros c2 H2. do 2 apply returns_ret. split; [done|].
  exists c2. split; [|done]. destruct k as [pt]. destruct pt as [ps pl]. cbn in Hl. by subst pl.
Qed.

(** A process [c] with entry [p] and directory [d] that runs and has created no threads;
    the pages [l] are free. *)
Record fork_ready (k : K) (c : nat) (p : proc) (d : nat) (l : list Z) : Prop := {
  fr_addrs : data_ok data ∧ 0 ≤ trapret < two32 ∧ 0 ≤ forkret_addr < two32;
  fr_locks : ptable_lock (k_pt k) = false ∧ (LKftable ∉ k_locks k) ∧ Cli.cli_wf (k_cpu k);
  fr_parent : cpu_proc (k_pt k) = Some c ∧ procs (k_pt k) !! c = Some p ∧ state p ≠ UNUSED ∧ hasthread p ≠ 1;
  fr_pid : 0 ≤ nextpid (k_pt k) < 2147483647;
  fr_space : space_ok (k_mem k) l (pgdir p) ∧ 0 ≤ sz p ≤ KERNBASE ∧
    ∀ va, 0 ≤ va < sz p → frame (pa_ram (k_mem k)) (pgdir p) va ≠ None;
  fr_files : (∀ i q, procs (k_pt k) !! i = Some q → length (ofile q) = NOFILE) ∧
    ∀ fd f, ofile p !! fd = Some (Some f) → ∃ ff, k_ftable k !! f = Some ff ∧ 1 ≤ fref ff;
  fr_cwd : ProcTable.cwd p = Some d
}.

Lemma ready_can_fork k c p d l np q :
  fork_ready k c p d l → unused_scan 0 (procs (k_pt k)) = Some np → procs (k_pt k) !! np = Some q → can_fork k c np p q d l.
Proof.
  intros H Hu Hq. pose proof (fr_parent _ _ _ _ _ H) as (Hc & Hp & Hs). pose proof (fr_files _ _ _ _ _ H) as (Hf & Hr).
  split; [apply H..|by split|apply H|apply H| |apply H]. split; [by eapply Hf|]. split; [by eapply Hf|done].
Qed.


(** ** wait *)

Lemma wait_scan_child c i hk l j : wait_scan c i hk l = inl j →
  ∃ p, (i ≤ j)%nat ∧ l !! (j - i)%nat = Some p ∧ parent p = Some c ∧ state p = ZOMBIE.
Proof.
  revert i hk. induction l as [|q l IH]; intros i hk; cbn; [done|].
  assert (Hrest : ∀ hk', wait_scan c (Datatypes.S i) hk' l = inl j →
    ∃ p, (i ≤ j)%nat ∧ (q :: l) !! (j - i)%nat = Some p ∧ parent p = Some c ∧ state p = ZOMBIE).
  { intros hk' H. destruct (IH _ _ H) as (p & ? & Hl & ?). exists p. split; [lia|].
    by replace (j - i)%nat with (Datatypes.S (j - Datatypes.S i)) by lia. }
  case_bool_decide as E1; cbn; [|apply Hrest]. case_bool_decide as E2; [|apply Hrest].
  intros [= <-]. exists q. rewrite Nat.sub_diag. auto with lia.
Qed.

Lemma wait_scan_none c i hk l b : wait_scan c i hk l = inr b →
  (∀ p, p ∈ l → parent p = Some c → state p ≠ ZOMBIE) ∧ (b = true ↔ hk = true ∨ ∃ p, p ∈ l ∧ parent p = Some c).
Proof.
  revert i hk. induction l as [|q l IH]; intros i hk; cbn.
  { intros [= ->]. split; [by intros p ?%elem_of_nil|]. split; [by left|]. intros [?|(p & ?%elem_of_nil & _)]; done. }
  case_bool_decide as E1; cbn; [case_bool_decide as E2; [done|]|]; intros H; destruct (IH _ _ H) as [H1 H2]; (split; [|rewrite H2]).
  - intros p [->|Hp]%elem_of_cons; [done|by apply H1].
  - split; [intros _; right; exists q; split; [left|done]|by left].
  - intros p [->|Hp]%elem_of_cons; [congruence|by apply H1].
  - split; (intros [?|(p & Hp & E)]; [by left|right; exists p]); split; [by right|done| |done].
    by apply elem_of_cons in Hp as [->|?].
Qed.

(** The kernel stack and the address space of process [p] beside the free pages [l]. *)
Definition reapable (s : S) (l : list Z) (p : proc) : Prop :=
  space_ok s l (pgdir p) ∧ in_hand s l (pgdir p) (kstack p).

Lemma reap_ok s l p (Q : unit → S → Prop) : reapable s l p →
  (∀ s' l', pa_ok s' l' → (∀ pg, pg ∈ l' ↔ pg ∈ l ∨ pg = kstack p ∨ space_page (pa_ram s) (pgdir p) pg) →
     (∀ x, ¬ in_page (kstack p) x → (∀ pg, space_page (pa_ram s) (pgdir p) pg → ¬ in_page pg x) → pa_ram s' x = pa_ram s x) → Q tt s') →
  returns (_ ← pa_kfree (kstack p); freevm (pgdir p)) s Q.
Proof.
  intros [Hsp Hih] HQ. apply returns_bind, (give_back s l (pgdir p)); [done..|]. intros s1 Hsp1 Hpte Hown Hm1.
  eapply returns_mono; [by apply freevm_ok|]. intros [] s2 (l' & Hok & Hl & Hm2).
  pose proof (space_page_same _ _ _ Hpte Hown) as Hsame. apply (HQ s2 l' Hok).
  - intros pg. rewrite Hl, elem_of_cons, Hsame. tauto.
  - intros x Hx Hxs. rewrite Hm2; [by apply Hm1|]. intros pg Hpg. apply Hxs. by apply Hsame.
Qed.

Lemma unlocked t : ptable_lock t = false → t <| ptable_lock := true |> <| ptable_lock := false |> = t.
Proof. destruct t as [ps pl]. cbn. by intros ->. Qed.

(** Process [c] with entry [me] calls [wait] with interrupts on. *)
Record waiter (k : K) (c : nat) (me : proc) : Prop := {
  wt_me : cpu_proc (k_pt k) = Some c ∧ procs (k_pt k) !! c = Some me ∧ state me = RUNNING;
  wt_locks : ptable_lock (k_pt k) = false ∧ Cli.cli_wf (k_cpu k) ∧ Cli.ncli (k_cpu k) = 0
}.

(** The child [i] with entry [p] is gone and its pages are free. *)
Definition reaped_post (k : K) (l : list Z) (i : nat) (p : proc) (r : Z) (k' : K) : Prop :=
  r = pid p ∧ k_pt k' = setp i (λ q, reaped (q <| kstack := 0 |>)) (k_pt k) ∧
  (∃ l', pa_ok (k_mem k') l' ∧ ∀ pg, pg ∈ l' ↔ pg ∈ l ∨ pg = kstack p ∨ space_page (pa_ram (k_mem k)) (pgdir p) pg) ∧
  (∀ x, ¬ in_page (kstack p) x → (∀ pg, space_page (pa_ram (k_mem k)) (pgdir p) pg → ¬ in_page pg x) →
     pa_ram (k_mem k') x = pa_ram (k_mem k) x) ∧
  k_ftable k' = k_ftable k ∧ k_fs k' = k_fs k ∧ same_cpu (k_cpu k) (k_cpu k').

Lemma wait_zombie (k : K) c me l i p : waiter k c me → wait_scan c 0 false (procs (k_pt k)) = inl i →
  procs (k_pt k) !! i = Some p → reapable (k_mem k) l p → returns wait k (reaped_post k l i p).
Proof.
  intros [(Hc & Hme & _) (Hl & Hwf & _)] Hscan Hp Hr. unfold wait. apply returns_bind, acquire_pt_ok; [done..|]. intros c1 H1.
  unfold wait_body. apply returns_bind. eapply curproc_ok; [exact Hc|]. apply returns_bind, returns_gets. cbn [k_pt procs set]. rewrite Hscan.
  apply returns_bind. eapply procn_ok; [exact Hp|]. pose proof (reap_ok (k_mem k) l p) as Hreap.
  apply returns_bind, on_mem_ok. cbn [k_mem set].
  destruct (returns_ok _ _ _ (Hreap (λ _ s', ∃ l', _) Hr (λ s' l' H1 H2 H3, ex_intro _ l' (conj H1 (conj H2 H3))))) as ([] & s' & Es & l' & Hok & Hpg & Hm).
  unfold mbind, M_bind in Es. unfold returns at 1. destruct (pa_kfree (kstack p) (k_mem k)) as [[] s1| | | |]; try done.
  apply returns_bind, setproc_ok, returns_bind, on_mem_ok. cbn [k_mem set]. unfold returns at 1. rewrite Es.
  apply returns_bind, setproc_ok. cbn [k_pt set]. rewrite setp_setp.
  apply returns_bind. eapply (release_pt_ok (k_cpu k)); [done|exact H1|]. intros c2 H2. apply returns_ret.
  split; [done|]. split; [|split; [by exists l'|done]]. cbn [k_pt set].
  rewrite <- (unlocked (k_pt k) Hl) at 2. done.
Qed.

Lemma wait_nothing (k : K) c me b : waiter k c me → wait_scan c 0 false (procs (k_pt k)) = inr b →
  negb b || negb (killed me =? 0) = true →
  returns wait k (λ r k', r = -1 ∧ k_pt k' = k_pt k ∧ k_mem k' = k_mem k ∧ same_cpu (k_cpu k) (k_cpu k')).
Proof.
  intros [(Hc & Hme & _) (Hl & Hwf & _)] Hscan Hb. unfold wait. apply returns_bind, acquire_pt_ok; [done..|]. intros c1 H1.
  unfold wait_body. apply returns_bind. eapply curproc_ok; [exact Hc|]. apply returns_bind, returns_gets. cbn [k_pt procs set]. rewrite Hscan.
  apply returns_bind. eapply procn_ok; [exact Hme|]. rewrite Hb. apply returns_bind.
  eapply (release_pt_ok (k_cpu k)); [done|exact H1|]. intros c2 H2. apply returns_ret. split; [done|]. split; [|done].
  cbn [k_pt set]. by apply unlocked.
Qed.

(** An operation that gives up the processor. *)
Definition sleeps {A} (m : M K A) (k : K) (Q : K → Prop) : Prop := match m k with Block k' => Q k' | _ => False end.

Lemma sleeps_bind {A B} (m : M K A) (f : A → M K B) k Q : returns m k (λ a k', sleeps (f a) k' Q) → sleeps (m ≫= f) k Q.
Proof. unfold returns, sleeps, mbind, M_bind. by destruct (m k). Qed.

Lemma sched_sleeps {A} (k : K) c q Q : cpu_proc (k_pt k) = Some c → procs (k_pt k) !! c = Some q → state q ≠ RUNNING →
  ptable_lock (k_pt k) = true → Cli.ncli (k_cpu k) = 1 → Cli.FL_IF (k_cpu k) = false → Q k → sleeps (sched (A := A)) k Q.
Proof.
  intros Hc Hq Hs Hl Hn Hf HQ. unfold sched. apply sleeps_bind. eapply curproc_ok; [exact Hc|].
  apply sleeps_bind, returns_gets. rewrite Hl. cbn [negb]. apply sleeps_bind, returns_gets. rewrite Hn. cbn [negb Z.eqb Pos.eqb].
  apply sleeps_bind. eapply procn_ok; [exact Hq|]. rewrite bool_decide_eq_false_2 by done. apply sleeps_bind, returns_gets. by rewrite Hf.
Qed.

Lemma wait_sleeps (k : K) c me : waiter k c me → wait_scan c 0 false (procs (k_pt k)) = inr true → killed me = 0 →
  sleeps wait k (λ k', k_mem k' = k_mem k ∧
    k_pt k' = setp c (λ q, q <| chan_ := Cproc c |> <| state := SLEEPING |>) ((k_pt k) <| ptable_lock := true |>)).
Proof.
  intros [(Hc & Hme & Hs) (Hl & Hwf & Hn)] Hscan Hb. unfold wait. apply sleeps_bind, acquire_pt_ok; [done..|].
  intros c1 (_ & Hn1 & Hf1 & _). unfold wait_body. apply sleeps_bind. eapply curproc_ok; [exact Hc|].
  apply sleeps_bind, returns_gets. cbn [k_pt procs set]. rewrite Hscan. apply sleeps_bind. eapply procn_ok; [exact Hme|]. rewrite Hb.
  cbn [negb orb Z.eqb]. unfold sleep. apply sleeps_bind. unfold on_pt. apply returns_zoom. unfold myproc. apply returns_gets.
  cbn [k_pt cpu_proc set]. rewrite Hc. apply sleeps_bind, returns_ret, sleeps_bind, setproc_ok.
  eapply sched_sleeps; [exact Hc|cbn [k_pt set]; rewrite setp_lookup_eq; cbn [procs set]; by rewrite Hme|done|done|cbn; lia|done|done].
Qed.

(** C14: [wait] takes the first child that has exited: it returns the child's process id,
    the entry of the child is unused again, and its kernel stack, its page
    tables and its memory are free, each page once; nothing else in memory changes.
    Without children, or when the caller was killed, it returns -1 and changes
    nothing.  Otherwise the caller sleeps until a child exits. *)
Theorem wait_reaps (k : K) c me l : waiter k c me →
  (∀ p, p ∈ procs (k_pt k) → parent p = Some c → state p = ZOMBIE → reapable (k_mem k) l p) →
  (∃ i p, procs (k_pt k) !! i = Some p ∧ parent p = Some c ∧ state p = ZOMBIE ∧ returns wait k (reaped_post k l i p)) ∨
  (∀ p, p ∈ procs (k_pt k) → parent p = Some c → state p ≠ ZOMBIE) ∧
    (((∀ p, p ∈ procs (k_pt k) → parent p ≠ Some c) ∨ killed me ≠ 0) ∧
       returns wait k (λ r k', r = -1 ∧ k_pt k' = k_pt k ∧ k_mem k' = k_mem k ∧ same_cpu (k_cpu k) (k_cpu k')) ∨
     (∃ p, p ∈ procs (k_pt k) ∧ parent p = Some c) ∧ killed me = 0 ∧
       sleeps wait k (λ k', k_mem k' = k_mem k ∧
         k_pt k' = setp c (λ q, q <| chan_ := Cproc c |> <| state := SLEEPING |>) ((k_pt k) <| ptable_lock := true |>))).
Proof.
  intros Hw Hr. destruct (wait_scan c 0 false (procs (k_pt k))) as [i|b] eqn:E.
  - left. destruct (wait_scan_child _ _ _ _ _ E) as (p & _ & Hp & Hpar & Hz). rewrite Nat.sub_0_r in Hp. exists i, p.
    split; [done|]. split; [done|]. split; [done|]. eapply wait_zombie; [done..|]. apply Hr; [|done..]. by eapply list_elem_of_lookup_2.
  - right. destruct (wait_scan_none _ _ _ _ _ E) as [Hz Hb]. split; [done|]. destruct (decide (killed me = 0)) as [Hk|Hk].
    + destruct b.
      * right. destruct (proj1 Hb eq_refl) as [?|Hex]; [done|]. split; [done|]. split; [done|]. by eapply wait_sleeps.
      * left. split; [|by eapply wait_nothing]. left. intros p Hp Hc. assert (false = true); [|done]. apply Hb. right. by exists p.
    + left. split; [by right|]. eapply wait_nothing; [done..|]. rewrite (proj2 (Z.eqb_neq _ _) Hk). apply orb_true_r.
Qed.
End Life.

(** ** A concrete kernel *)

#[local] Instance demo_life_pages : PageAlloc kmem := kalloc_pages KERNLINK kernlink_above.

(** A process with one page of memory and one open file; the other entries are unused. *)
Definition demo_proc : proc :=
  proc0 <| sz := 4096 |> <| pgdir := demo_pgdir |> <| state := RUNNING |> <| pid := 1 |>
        <| ofile := Some 0%nat :: replicate 15 None |> <| ProcTable.cwd := Some 0%nat |> <| name := "sh" |>
        <| tf := tf0 <| cs := 27 |> |>.

Definition demo_running : kernel kmem :=
  demo_boot <| k_mem := demo_parent |>
    <| k_pt := ptst0 <| procs := demo_proc :: replicate 63 proc0 |> <| cpu_proc := Some 0%nat |> <| nextpid := 2 |> |>
    <| k_cpu := Cli.mkcpu 0 false true |>
    <| k_ftable := (file0 <| fref := 1 |>) :: replicate 99 file0 |>.

Lemma demo_can_fork : can_fork (KERNLINK + 4096) 1 2 demo_running 0 1 demo_proc proc0 0 [demo_p1; demo_p2].
Proof.
  split.
  - by vm_compute.
  - split; [done|]. split; [apply not_elem_of_nil|]. split; done.
  - done.
  - done.
  - done.
  - split; [apply demo_parent_ok|]. split; [by vm_compute|]. intros va Hva.
    change (frame (pa_ram demo_parent) demo_pgdir va ≠ None). change (sz demo_proc) with 4096 in Hva.
    rewrite demo_parent_frame by (unfold KERNBASE; lia). by rewrite decide_True by (apply Z.div_small; plia).
  - split; [done|]. split; [done|]. intros [|fd] f Hfd; [injection Hfd as <-; by eexists|].
    change (replicate 15 (@None nat) !! fd = Some (Some f)) in Hfd. by apply lookup_replicate in Hfd as [? _].
  - done.
Qed.

Lemma demo_fork_ready : fork_ready (KERNLINK + 4096) 1 2 demo_running 0 demo_proc 0 [demo_p1; demo_p2].
Proof.
  pose proof demo_can_fork as H. split; [apply H..|split|apply H]; [|apply (cf_files _ _ _ _ _ _ _ _ _ _ H)].
  intros i q. change (procs (k_pt demo_running)) with (demo_proc :: replicate 63 proc0). destruct i as [|i]; [by intros [= <-]|].
  intros Hq. change (replicate 63 proc0 !! i = Some q) in Hq. by apply lookup_replicate in Hq as [-> _].
Qed.


(** The same process with a child that has exited. *)
Definition demo_stack : Z := 2149601280.
Definition demo_zombie : proc :=
  proc0 <| pgdir := demo_pgdir |> <| kstack := demo_stack |> <| state := ZOMBIE |> <| pid := 2 |> <| parent := Some 0%nat |>.
Definition demo_waiting : kernel kmem :=
  demo_running <| k_pt := (k_pt demo_running) <| procs := demo_proc :: demo_zombie :: replicate 62 proc0 |> |>.

Lemma demo_reapable : reapable demo_parent [demo_p1; demo_p2] demo_zombie.
Proof.
  split; [apply demo_parent_ok|]. split.
  - cbn [pa_page demo_life_pages kalloc_pages]. unfold page. by vm_compute.
  - rewrite !elem_of_cons, elem_of_nil. intros [?|[?|?]]; done.
  - by intros [?|?]%demo_parent_owns.
  - intros va Hva. change (frame (pa_ram demo_parent) demo_pgdir va ≠ Some demo_stack). rewrite demo_parent_frame by done. by case_decide.
Qed.

Lemma wait_reaps_witness : returns wait demo_waiting (λ r _, r = 2).
Proof.
  destruct (wait_reaps demo_waiting 0 demo_proc [demo_p1; demo_p2]) as [(i & p & Hp & Hpar & Hz & Hr)|[Hn _]].
  - split; [done|]. split; [done|]. split; done.
  - intros p. change (procs (k_pt demo_waiting)) with (demo_proc :: demo_zombie :: replicate 62 proc0).
    intros [->|[->|[-> _]%elem_of_replicate]%elem_of_cons]%elem_of_cons Hpar; [discriminate Hpar|intros _; exact demo_reapable|discriminate Hpar].
  - eapply returns_mono; [exact Hr|]. intros r k' [-> _].
    change (procs (k_pt demo_waiting)) with (demo_proc :: demo_zombie :: replicate 62 proc0) in Hp.
    destruct i as [|[|i]]; [injection Hp as <-; discriminate Hpar|injection Hp as <-; reflexivity|].
    change (replicate 62 proc0 !! i = Some p) in Hp. apply lookup_replicate in Hp as [-> _]. discriminate Hpar.
  - exfalso. apply (Hn demo_zombie); [|reflexivity..]. right. left.
Defined.
