(* ===== verification/Ulib.v ===== *)
(** The library of user programs: string search and number conversion (ulib.c)
    and formatted output (printf.c).

    A C string is the list of its characters before the terminator. *)

From S2P Require Import Prelude.
From Stdlib Require Import Ascii.

(** The characters of a string literal. *)
Definition chars (s : string) : list Z :=
  (λ a, Z.of_N (N_of_ascii a)) <$> String.list_ascii_of_string s.

(** [strchr(s, c)] as an index into [s]; a zero byte inside [s] ends the search as
    well. *)
Fixpoint strchr (s : list Z) (c : Z) : option nat :=
  match s with
  | [] => None
  | x :: s => if x =? 0 then None else if x =? c then Some O else S <$> strchr s c
  end.

(** The string that starts with the first byte of [b]. *)
Fixpoint cstr (b : list Z) : list Z :=
  match b with
  | [] => []
  | c :: b => if c =? 0 then [] else c :: cstr b
  end.

(** The truth value of [strchr(s, c)]. *)
Definition in_str (s : list Z) (c : Z) : bool := bool_decide (strchr s c ≠ None).

Lemma in_str_spec s c : 0 ∉ s → in_str s c = true ↔ c ∈ s.
Proof.
  unfold in_str. rewrite bool_decide_eq_true. induction s as [|x s IH]; cbn [strchr].
  { intros _. split; [done|by intros ?%not_elem_of_nil]. }
  intros [Hx Hs]%not_elem_of_cons. rewrite (proj2 (Z.eqb_neq x 0)) by done.
  rewrite elem_of_cons, <- IH by done. destruct (Z.eqb_spec x c) as [->|Hc].
  - naive_solver.
  - destruct (strchr s c); cbn; naive_solver.
Qed.

Lemma strchr_Some c b n : strchr b c = Some n → b = take n b ++ c :: drop (S n) b ∧ c ∉ take n b.
Proof.
  revert n. induction b as [|x b IH]; intros n; cbn [strchr]; [done|].
  destruct (x =? 0); [done|]. destruct (Z.eqb_spec x c) as [->|Hc].
  - intros [= <-]. split; [done|apply not_elem_of_nil].
  - destruct (strchr b c) as [m|]; cbn; [|done]. intros [= <-]. destruct (IH m eq_refl) as [Eb Hn].
    cbn. split; [by rewrite <- Eb|]. by apply not_elem_of_cons.
Qed.

Lemma strchr_None c b : strchr b c = None → 0 ∉ b → c ∉ b.
Proof.
  induction b as [|x b IH]; cbn [strchr]; [intros; apply not_elem_of_nil|].
  intros H [Hx Hb]%not_elem_of_cons. rewrite (proj2 (Z.eqb_neq x 0)) in H by done.
  destruct (Z.eqb_spec x c); [done|]. destruct (strchr b c); [done|].
  apply not_elem_of_cons. by split; [|apply IH].
Qed.

Lemma cstr_app s b : 0 ∉ s → cstr (s ++ 0 :: b) = s.
Proof.
  induction s as [|c s IH]; cbn; [done|]. intros [Hc Hs]%not_elem_of_cons.
  rewrite (proj2 (Z.eqb_neq c 0)) by done. by rewrite IH.
Qed.
