(* ===== verification/Printf.v ===== *)
(** Formatted output and number conversion of user programs (printf.c and atoi of
    ulib.c).  The state is what has been written to the descriptor. *)

From S2P Require Import Prelude Ulib.

Definition putc (c : Z) : M (list Z) unit := modify (λ out, out ++ [c]).

Definition digits : list Z := chars "0123456789ABCDEF".

(** [do buf[i++] = digits[x % base]; while((x /= base) != 0);] with [char buf[16]].
    (The kernel's [printint] has the same loop with another table [digits].) *)
Fixpoint digits_loop {S} (digits : list Z) (fuel : nat) (x base : Z) (buf : list Z) : M S (list Z) :=
  match fuel with
  | O => λ _, NoFuel
  | Datatypes.S fuel =>
      if 16 <=? Z.of_nat (length buf) then undef "buf[16]" else
      match digits !! Z.to_nat (x mod base) with
      | None => undef "digits"
      | Some d =>
          let buf := buf ++ [d] in
          let x := x / base in
          if x =? 0 then mret buf else digits_loop digits fuel x base buf
      end
  end.

(** [while(--i >= 0) putc(fd, buf[i]);] *)
Fixpoint put_all (s : list Z) : M (list Z) unit :=
  match s with [] => skip | c :: s => _ ← putc c; put_all s end.

Definition MINUS : Z := 45.

(** [xx] is an [int]; [-xx] must be one too. *)
Definition printint (xx base : Z) (sgn : bool) : M (list Z) unit :=
  let neg := sgn && (xx <? 0) in
  x ← (if neg then if xx =? -2147483648 then undef "signed overflow" else mret (-xx) else mret (u32 xx));
  buf ← digits_loop digits 33 x base [];
  if neg && (16 <=? Z.of_nat (length buf)) then undef "buf[16]" else
  let buf := if neg then buf ++ [MINUS] else buf in
  put_all (reverse buf).

(** The words of the variable arguments. *)
Inductive arg : Type :=
| Num (n : Z)
| Str (s : option (list Z)).

Definition PERCENT : Z := 37.

(** [printf(fd, fmt, ...)]; [percent] is [state == '%']. *)
Fixpoint printf_loop (fmt : list Z) (percent : bool) (ap : list arg) : M (list Z) unit :=
  match fmt with
  | [] => skip
  | c :: fmt =>
      if negb percent then
        if c =? PERCENT then printf_loop fmt true ap else _ ← putc c; printf_loop fmt false ap
      else if c =? 100 (* d *) then
        match ap with
        | Num n :: ap => _ ← printint (s32 n) 10 true; printf_loop fmt false ap
        | _ => undef "argument"
        end
      else if (c =? 120) || (c =? 112) (* x, p *) then
        match ap with
        | Num n :: ap => _ ← printint (s32 n) 16 false; printf_loop fmt false ap
        | _ => undef "argument"
        end
      else if c =? 115 (* s *) then
        match ap with
        | Str s :: ap => _ ← put_all (default (chars "(null)") s); printf_loop fmt false ap
        | _ => undef "argument"
        end
      else if c =? 99 (* c *) then
        match ap with
        | Num n :: ap => _ ← putc (n mod 256); printf_loop fmt false ap
        | _ => undef "argument"
        end
      else if c =? PERCENT then _ ← putc c; printf_loop fmt false ap
      else _ ← putc PERCENT; _ ← putc c; printf_loop fmt false ap
  end.

Definition printf (fmt : list Z) (ap : list arg) : M (list Z) unit := printf_loop fmt false ap.

(** [atoi(s)]; the arithmetic is on [int]. *)
Fixpoint atoi_loop {S} (s : list Z) (n : Z) : M S Z :=
  match s with
  | [] => mret n
  | c :: s =>
      if (48 <=? c) && (c <=? 57) then
        if 2147483648 <=? n * 10 + c then undef "signed overflow" else atoi_loop s (n * 10 + c - 48)
      else mret n
  end.
Definition atoi {S} (s : list Z) : M S Z := atoi_loop s 0.

(** ** Numerals *)

(** The number that digits stand for, most significant first. *)
Definition numeral (base : Z) (ds : list Z) : Z := foldl (λ n d, n * base + d) 0 ds.

(** The text of digits. *)
Definition digit (tab : list Z) (d : Z) : Z := default 0 (tab !! Z.to_nat d).

(** [ds] are the digits of [x]: no leading zero but that of 0 itself. *)
Definition digits_of (base x : Z) (ds : list Z) : Prop :=
  numeral base ds = x ∧ Forall (λ d, 0 ≤ d < base) ds ∧ ds ≠ [] ∧ (head ds = Some 0 → ds = [0]).

Lemma digit_lookup tab d : length tab = 16%nat → 0 ≤ d < 16 → tab !! Z.to_nat d = Some (digit tab d).
Proof.
  intros Ht Hd. unfold digit. destruct (lookup_lt_is_Some_2 tab (Z.to_nat d)) as [c ->]; [lia|done].
Qed.

Lemma numeral_snoc base ds d : numeral base (ds ++ [d]) = numeral base ds * base + d.
Proof. unfold numeral. by rewrite foldl_app. Qed.

(** The loop puts the digits into the buffer, the last one first. *)
Lemma digits_loop_ok {St} tab base k fuel x buf (out : St) : length tab = 16%nat → 2 ≤ base ≤ 16 → 0 ≤ x < base ^ Z.of_nat (S k) →
  (k < fuel)%nat → (length buf + k < 16)%nat →
  returns (digits_loop tab fuel x base buf) out (λ r out', out' = out ∧
    ∃ ds, r = buf ++ reverse (digit tab <$> ds) ∧ digits_of base x ds ∧ (length ds ≤ S k)%nat).
Proof.
  intros Ht Hb. revert k x buf. induction fuel as [|fuel IH]; intros k x buf Hx Hk Hl; [lia|]. cbn [digits_loop].
  rewrite (proj2 (Z.leb_gt 16 _)) by lia.
  pose proof (Z.mod_pos_bound x base ltac:(lia)) as Hm. rewrite digit_lookup by lia.
  pose proof (Z.div_mod x base ltac:(lia)) as Hdm. pose proof (Z.div_pos x base ltac:(lia) ltac:(lia)).
  destruct (Z.eqb_spec (x / base) 0) as [E|E].
  - apply returns_ret. split; [done|]. exists [x mod base]. split_and!; [done| |cbn; lia].
    rewrite E in Hdm. split_and!; [cbn; lia|by apply Forall_singleton|done|cbn; congruence].
  - destruct k as [|k]; [rewrite Z.pow_1_r in Hx; rewrite Z.div_small in E; lia|].
    eapply returns_mono.
    { apply (IH k); [|lia|rewrite length_app; cbn; lia]. split; [done|].
      apply Z.div_lt_upper_bound; [lia|]. rewrite Nat2Z.inj_succ, Z.pow_succ_r in Hx by lia. lia. }
    intros r out' [-> (ds & -> & (Hn & Hd & Hne & Hh) & Hlen)]. split; [done|].
    exists (ds ++ [x mod base]). rewrite fmap_app, reverse_app, app_assoc. split_and!; [done| |rewrite length_app; cbn; lia].
    split_and!; [rewrite numeral_snoc, Hn; lia|by apply Forall_app; split; [|apply Forall_singleton]|by destruct ds|].
    destruct ds as [|d ds]; [done|]. cbn. intros [= ->]. specialize (Hh eq_refl). by simplify_eq.
Qed.

Lemma put_all_ok s out : put_all s out = Ok tt (out ++ s).
Proof.
  revert out. induction s as [|c s IH]; intros out; cbn [put_all]; [by rewrite app_nil_r|].
  unfold mbind, M_bind, putc, modify. by rewrite IH, <- app_assoc.
Qed.

(** [printint] writes the numeral, with a sign if it is asked to. *)
Lemma printint_ok xx base sgn k out : 2 ≤ base ≤ 16 → -2147483648 < xx < 2147483648 →
  two32 ≤ base ^ Z.of_nat (S k) → (k < 15)%nat →
  returns (printint xx base sgn) out (λ _ out',
    ∃ ds, out' = out ++ (if sgn && (xx <? 0) then [MINUS] else []) ++ (digit digits <$> ds) ∧
          digits_of base (if sgn then Z.abs xx else u32 xx) ds ∧ (length ds ≤ S k)%nat).
Proof.
  intros Hb Hx Hp Hk. unfold printint. apply returns_bind.
  set (neg := sgn && (xx <? 0)). set (x := if sgn then Z.abs xx else u32 xx).
  assert (Ex : (if neg then if xx =? -2147483648 then undef "signed overflow" else mret (-xx) else mret (u32 xx) : M (list Z) Z) = mret x).
  { unfold neg, x. destruct sgn; cbn [andb]; [|done]. destruct (Z.ltb_spec xx 0).
    - rewrite (proj2 (Z.eqb_neq xx _)) by lia. f_equal. lia.
    - f_equal. rewrite u32_small by (unfold two32; lia). lia. }
  rewrite Ex. apply returns_ret. assert (0 ≤ x < two32).
  { unfold x. destruct sgn; [unfold two32; lia|apply u32_range]. }
  apply returns_bind. eapply returns_mono; [apply (digits_loop_ok _ base k); [done..|lia|lia|cbn; lia]|].
  intros buf out' [-> (ds & -> & Hds & Hlen)]. cbn [app]. rewrite length_reverse, length_fmap.
  rewrite (proj2 (Z.leb_gt 16 _)) by lia. rewrite andb_false_r. unfold returns. rewrite put_all_ok.
  exists ds. split; [|done]. f_equal. destruct neg; [|apply reverse_involutive].
  by rewrite reverse_app, reverse_involutive.
Qed.

(** Text without [%] is written as it is; [%s] writes the string, [%d] the numeral. *)
Lemma printf_text l fmt ap out : PERCENT ∉ l → printf_loop (l ++ fmt) false ap out = printf_loop fmt false ap (out ++ l).
Proof.
  revert out. induction l as [|c l IH]; intros out; [by rewrite app_nil_r|]. intros [Hc Hl]%not_elem_of_cons. cbn [app printf_loop negb].
  rewrite (proj2 (Z.eqb_neq c PERCENT)) by done. unfold mbind, M_bind, putc, modify. rewrite IH by done. by rewrite <- app_assoc.
Qed.

Lemma printf_str a fmt ap out : printf_loop (PERCENT :: 115 :: fmt) false (Str (Some a) :: ap) out = printf_loop fmt false ap (out ++ a).
Proof. cbn. unfold mbind, M_bind. by rewrite put_all_ok. Qed.

Lemma printf_num n fmt ap out (Q : unit → list Z → Prop) : 0 ≤ n < 2147483648 →
  (∀ ds, digits_of 10 n ds → returns (printf_loop fmt false ap) (out ++ (digit digits <$> ds)) Q) →
  returns (printf_loop (PERCENT :: 100 :: fmt) false (Num n :: ap)) out Q.
Proof.
  intros Hn HQ. change (returns (_ ← printint (s32 n) 10 true; printf_loop fmt false ap) out Q). rewrite s32_small by lia. apply returns_bind.
  eapply returns_mono; [apply (printint_ok n 10 true 9); [lia|lia|by vm_compute|lia]|]. intros [] out' (ds & -> & Hds & _).
  rewrite (proj2 (Z.ltb_ge n 0)) by lia. cbn [andb app]. apply HQ. by rewrite Z.abs_eq in Hds by lia.
Qed.

Lemma digit_dec d : 0 ≤ d < 10 → digit digits d = 48 + d.
Proof.
  intros Hd. assert (d = 0 ∨ d = 1 ∨ d = 2 ∨ d = 3 ∨ d = 4 ∨ d = 5 ∨ d = 6 ∨ d = 7 ∨ d = 8 ∨ d = 9)
    as H by lia. repeat destruct H as [->|H]; try done. by subst.
Qed.

Lemma numeral_from base ds n : foldl (λ n d, n * base + d) n ds = n * base ^ Z.of_nat (length ds) + numeral base ds.
Proof.
  unfold numeral. revert n. induction ds as [|d ds IH]; intros n; [cbn; lia|].
  cbn [foldl length]. rewrite (IH (n * base + d)), (IH (0 * base + d)), Nat2Z.inj_succ, Z.pow_succ_r by lia. lia.
Qed.

Lemma foldl_nonneg base ds n : 0 ≤ base → Forall (λ d, 0 ≤ d < base) ds → 0 ≤ n → 0 ≤ foldl (λ n d, n * base + d) n ds.
Proof. intros Hb Hds. revert n. induction Hds as [|d ds Hd _ IH]; intros n Hn; cbn; [done|]. apply IH. nia. Qed.

(** [atoi] reads a numeral back, up to the first other character. *)
Lemma atoi_loop_ok {S} ds rest n (s : S) : Forall (λ d, 0 ≤ d < 10) ds → 0 ≤ n →
  foldl (λ n d, n * 10 + d) n ds < 2147483600 →
  match rest with [] => True | c :: _ => ¬ 48 ≤ c ≤ 57 end →
  returns (atoi_loop ((digit digits <$> ds) ++ rest) n) s (λ r _, r = foldl (λ n d, n * 10 + d) n ds).
Proof.
  intros Hds Hn Hlt Hrest. revert n Hn Hlt. induction Hds as [|d ds Hd Hds IH]; intros n Hn Hlt.
  - cbn. destruct rest as [|c rest]; [done|]. cbn. destruct (Z.leb_spec 48 c), (Z.leb_spec c 57); cbn; try done. lia.
  - cbn [fmap list_fmap app atoi_loop foldl] in *. rewrite digit_dec by done.
    rewrite (proj2 (Z.leb_le 48 _)), (proj2 (Z.leb_le _ 57)) by lia. cbn [andb].
    rewrite numeral_from in Hlt. assert (0 ≤ numeral 10 ds).
    { by apply (foldl_nonneg 10). }
    assert (1 ≤ 10 ^ Z.of_nat (length ds)) by (apply Z.lt_pred_le, Z.pow_pos_nonneg; lia).
    rewrite (proj2 (Z.leb_gt 2147483648 _)) by nia. replace (n * 10 + (48 + d) - 48) with (n * 10 + d) by lia.
    apply IH; [lia|]. rewrite numeral_from. done.
Qed.

(** What [printint] writes for a number in base 10 is read back as that
    number by [atoi], whatever character that is not a digit comes after it.  (Above
    the bound [atoi] adds the code of a digit to a number that has no room for it.) *)
Theorem atoi_printint n rest : 0 ≤ n < 2147483600 →
  match rest with [] => True | c :: _ => ¬ 48 ≤ c ≤ 57 end →
  returns (_ ← printint n 10 true; out ← gets id; atoi (out ++ rest)) [] (λ r _, r = n).
Proof.
  intros Hn Hrest. apply returns_bind. eapply returns_mono; [apply (printint_ok n 10 true 9); [lia..|done|lia]|].
  cbn [andb]. intros [] out (ds & -> & (Hnum & Hds & _ & _) & _). rewrite (proj2 (Z.ltb_ge n 0)) in * by lia.
  rewrite Z.abs_eq in Hnum by lia. apply returns_bind, returns_gets. cbn [id app].
  eapply returns_mono; [apply atoi_loop_ok; [done|done| |done]|]; unfold numeral in Hnum; rewrite Hnum; [lia|done].
Qed.

Lemma atoi_printint_witness :
  returns (_ ← printint 40960 10 true; out ← gets id; atoi (out ++ [32; 49])) [] (λ r _, r = 40960).
Proof. apply (atoi_printint 40960 [32; 49]); lia. Defined.
