(* ===== verification/Umalloc.v ===== *)
(** The allocator of user programs (umalloc.c): a ring of free blocks in address
    order, in the byte memory of the process.

    A block starts with a header of eight bytes, [ptr] and [size]; its size counts
    headers.  [sbrk] is the system call: [grow brk n] says whether the kernel grants
    [n] more bytes at [brk]. *)

From S2P Require Import Prelude Layout CString.

Record heap := mkheap { umem : mem; freep : Z; brk : Z }.
#[export] Instance eta_heap : Eta heap := λ s, mkheap (umem s) (freep s) (brk s).

(** The fields of the header at [p]. *)
Definition get_ptr (p : Z) : M heap Z := gets (λ s, load32 (umem s) p).
Definition get_size (p : Z) : M heap Z := gets (λ s, load32 (umem s) (p + 4)).
Definition set_ptr (p v : Z) : M heap unit := modify (λ s, s <| umem := store32 (umem s) p v |>).
Definition set_size (p v : Z) : M heap unit := modify (λ s, s <| umem := store32 (umem s) (p + 4) v |>).

(** [p + n] on [Header *]. *)
Definition hdr_add (p n : Z) : Z := u32 (p + 8 * n).

Section Umalloc.
(** The address of the static header [base], and what the kernel grants. *)
Context (base : Z) (grow : Z → Z → bool).

(** [sbrk(n)] of a process; failure is the pointer with all bits set. *)
Definition sbrk (n : Z) : M heap Z :=
  b ← gets brk;
  if grow b n then _ ← modify (λ s, s <| brk := b + n |>); mret b else mret 4294967295.

(** The search for the block [p] after which [bp] belongs. *)
Fixpoint free_loop (fuel : nat) (bp p : Z) : M heap Z :=
  match fuel with
  | O => λ _, NoFuel
  | S fuel =>
      next ← get_ptr p;
      if (p <? bp) && (bp <? next) then mret p else
      if (next <=? p) && ((p <? bp) || (bp <? next)) then mret p else
      free_loop fuel bp next
  end.

(** Steps enough to go around the ring: a block has at least eight bytes. *)
Definition ring_fuel (s : heap) : nat := Z.to_nat (brk s / 8) + 2.

(** Joining [bp] to the block after it, or linking it before that block. *)
Definition join_upper (bp next : Z) : M heap unit :=
  bsize ← get_size bp;
  if hdr_add bp bsize =? next then
    nsize ← get_size next;
    _ ← set_size bp (u32 (bsize + nsize));
    nnext ← get_ptr next;
    set_ptr bp nnext
  else set_ptr bp next.

(** Joining [bp] to the block [p] before it, or linking it after that block. *)
Definition join_lower (p bp : Z) : M heap unit :=
  psize ← get_size p;
  if hdr_add p psize =? bp then
    bsize ← get_size bp;
    _ ← set_size p (u32 (psize + bsize));
    bnext ← get_ptr bp;
    set_ptr p bnext
  else set_ptr p bp.

Definition free (ap : Z) : M heap unit :=
  let bp := u32 (ap - 8) in
  n ← gets ring_fuel;
  f ← gets freep;
  p ← free_loop n bp f;
  next ← get_ptr p;
  _ ← join_upper bp next;
  _ ← join_lower p bp;
  modify (λ s, s <| freep := p |>).

Definition morecore (nu : Z) : M heap Z :=
  let nu := if nu <? 4096 then 4096 else nu in
  p ← sbrk (s32 (nu * 8));
  if p =? 4294967295 then mret 0 else
  _ ← set_size p nu;
  _ ← free (hdr_add p 1);
  gets freep.

(** The block [p] is large enough: it, or its end, leaves the ring. *)
Definition take_block (nunits prevp p psize : Z) : M heap Z :=
  q ← (if psize =? nunits then
         next ← get_ptr p;
         _ ← set_ptr prevp next;
         mret p
       else
         let psize := psize - nunits in
         _ ← set_size p psize;
         let q := hdr_add p psize in
         _ ← set_size q nunits;
         mret q);
  _ ← modify (λ s, s <| freep := prevp |>);
  mret (hdr_add q 1).

Fixpoint malloc_loop (fuel : nat) (nunits prevp p : Z) : M heap Z :=
  match fuel with
  | O => λ _, NoFuel
  | S fuel =>
      psize ← get_size p;
      if nunits <=? psize then take_block nunits prevp p psize else
      f ← gets freep;
      if p =? f then
        p ← morecore nunits;
        if p =? 0 then mret 0 else
        next ← get_ptr p;
        malloc_loop fuel nunits p next
      else
        next ← get_ptr p;
        malloc_loop fuel nunits p next
  end.

Definition malloc (nbytes : Z) : M heap Z :=
  let nunits := u32 (nbytes + 8 - 1) / 8 + 1 in
  f ← gets freep;
  prevp ← (if f =? 0 then
             _ ← set_ptr base base;
             _ ← modify (λ s, s <| freep := base |>);
             _ ← set_size base 0;
             mret base
           else mret f);
  p ← get_ptr prevp;
  n ← gets ring_fuel;
  malloc_loop (n + n) nunits prevp p.

(** ** The ring of free blocks *)

(** Blocks as address and size. *)
Implicit Types bs : list (Z * Z).

Definition head_addr bs (fin : Z) : Z := match bs with [] => fin | b :: _ => b.1 end.

(** Each block has its size and points to the next, the last one to [fin]. *)
Fixpoint chain (m : mem) (fin : Z) bs : Prop :=
  match bs with
  | [] => True
  | b :: bs => load32 m b.1 = head_addr bs fin ∧ load32 m (b.1 + 4) = b.2 ∧ chain m fin bs
  end.

Definition ring (m : mem) bs : Prop := chain m (head_addr bs 0) bs.

Lemma head_addr_app bs bs' fin : head_addr (bs ++ bs') fin = head_addr bs (head_addr bs' fin).
Proof. by destruct bs. Qed.

Lemma chain_app m fin bs bs' : chain m fin (bs ++ bs') ↔ chain m (head_addr bs' fin) bs ∧ chain m fin bs'.
Proof. induction bs as [|b bs IH]; cbn; [tauto|]. rewrite head_addr_app, IH. tauto. Qed.

Lemma ring_rot m bs bs' : ring m (bs ++ bs') → ring m (bs' ++ bs).
Proof.
  destruct bs as [|b bs]; [by rewrite app_nil_r|]. destruct bs' as [|b' bs']; [by rewrite app_nil_r|].
  unfold ring. rewrite !chain_app. cbn. tauto.
Qed.

(** Memory that agrees on the headers. *)
Lemma hdrs_ext m m' fin bs :
  (∀ b i, b ∈ bs → 0 ≤ i < 8 → m' (b.1 + i) = m (b.1 + i)) → chain m fin bs → chain m' fin bs.
Proof.
  induction bs as [|b bs IH]; cbn; [done|]. intros Hm (Hp & Hs & Hc). split_and!.
  - rewrite <- Hp. apply load32_ext. intros i Hi. apply Hm; [left|lia].
  - rewrite <- Hs. apply load32_ext. intros i Hi. rewrite <- Z.add_assoc. apply Hm; [left|lia].
  - apply IH; [|done]. intros b' i Hb'. apply Hm. by right.
Qed.

(** The last address of a list of blocks after [y]. *)
Fixpoint last_addr (y : Z) bs : Z := match bs with [] => y | b :: bs => last_addr b.1 bs end.

(** Going along blocks that are too small. *)
Lemma malloc_loop_skip s n C D fin k y : chain (umem s) fin (C ++ D) →
  Forall (λ b, b.2 < n ∧ b.1 ≠ freep s) C →
  malloc_loop (length C + k) n y (head_addr (C ++ D) fin) s =
  malloc_loop k n (last_addr y C) (head_addr D fin) s.
Proof.
  intros Hc HC. revert y Hc. induction HC as [|b C [Hb Hf] HC IH]; intros y Hc; [done|].
  cbn [app chain] in Hc. destruct Hc as (Hp & Hs & Hc). cbn [length Nat.add malloc_loop app head_addr last_addr].
  unfold mbind, M_bind, get_size, get_ptr, gets at 1 2. rewrite Hs.
  rewrite (proj2 (Z.leb_gt n _)) by done. rewrite (proj2 (Z.eqb_neq b.1 _)) by done.
  unfold gets. rewrite Hp. by apply IH.
Qed.

(** A block after which [bp] does not belong, given the next one. *)
Definition passes (bp p next : Z) : Prop := ¬ (p < bp < next) ∧ ¬ (next ≤ p ∧ (p < bp ∨ bp < next)).

Fixpoint pass_all (bp : Z) bs (fin : Z) : Prop :=
  match bs with [] => True | b :: bs => passes bp b.1 (head_addr bs fin) ∧ pass_all bp bs fin end.

Lemma free_loop_skip s bp C D fin k : chain (umem s) fin (C ++ D) → pass_all bp C (head_addr D fin) →
  free_loop (length C + k) bp (head_addr (C ++ D) fin) s = free_loop k bp (head_addr D fin) s.
Proof.
  induction C as [|b C IH]; [done|]. intros (Hp & Hs & Hc) [[H1 H2] HC].
  cbn [length Nat.add free_loop app head_addr]. unfold mbind, M_bind, get_ptr, gets. rewrite Hp.
  rewrite head_addr_app. rewrite <- head_addr_app in *.
  destruct ((b.1 <? bp) && (bp <? _)) eqn:E1; [bsimpl; rewrite head_addr_app in *; tauto|].
  destruct ((_ <=? b.1) && _) eqn:E2.
  - bsimpl. rewrite orb_true_iff, !Z.ltb_lt in H0. rewrite head_addr_app in *. tauto.
  - by apply IH.
Qed.

(** ** The heap as a sequence of blocks *)

Record blk := mkblk { b_addr : Z; b_size : Z; b_free : bool }.
Implicit Types l : list blk.

(** The blocks fill the memory from [a] to [e]. *)
Fixpoint tiles (a : Z) l (e : Z) : Prop :=
  match l with
  | [] => a = e
  | b :: l => b_addr b = a ∧ 1 ≤ b_size b ∧ tiles (a + 8 * b_size b) l e
  end.

Fixpoint frees l : list (Z * Z) :=
  match l with
  | [] => []
  | b :: l => if b_free b then (b_addr b, b_size b) :: frees l else frees l
  end.

Fixpoint useds l : list (Z * Z) :=
  match l with
  | [] => []
  | b :: l => if b_free b then useds l else (b_addr b, b_size b) :: useds l
  end.

Definition first_free l : bool := match l with [] => false | b :: _ => b_free b end.
Definition last_free l : bool := match last l with None => false | Some b => b_free b end.

(** No two free blocks are neighbours. *)
Fixpoint spaced l : Prop :=
  match l with [] => True | b :: l => (b_free b = true → first_free l = false) ∧ spaced l end.

Lemma tiles_app a l l' e : tiles a (l ++ l') e ↔ ∃ c, tiles a l c ∧ tiles c l' e.
Proof.
  revert a. induction l as [|b l IH]; intros a; cbn.
  - split; [eauto|]. by intros (c & -> & H).
  - rewrite IH. naive_solver.
Qed.

Lemma frees_app l l' : frees (l ++ l') = frees l ++ frees l'.
Proof. induction l as [|b l IH]; cbn; [done|]. case_match; cbn; congruence. Qed.

Lemma useds_app l l' : useds (l ++ l') = useds l ++ useds l'.
Proof. induction l as [|b l IH]; cbn; [done|]. case_match; cbn; congruence. Qed.

Lemma tiles_le a l e : tiles a l e → a + 8 * Z.of_nat (length l) ≤ e.
Proof. revert a. induction l as [|b l IH]; intros a; cbn; [lia|]. intros (_ & Hs & H%IH). lia. Qed.

Lemma tiles_in a l e b : tiles a l e → b ∈ l → a ≤ b_addr b ∧ b_addr b + 8 * b_size b ≤ e ∧ 1 ≤ b_size b.
Proof.
  revert a. induction l as [|c l IH]; intros a; [by intros _ ?%not_elem_of_nil|].
  cbn. intros (Ha & Hs & H) [->|Hb]%elem_of_cons.
  - apply tiles_le in H. lia.
  - destruct (IH _ H Hb). lia.
Qed.

Lemma frees_elem l b : b ∈ frees l → mkblk b.1 b.2 true ∈ l.
Proof.
  induction l as [|[a n f] l IH]; cbn; [by intros ?%not_elem_of_nil|]. destruct f; cbn.
  - intros [->|H]%elem_of_cons; [left|right; auto].
  - intros H. right. auto.
Qed.

Lemma useds_elem l b : b ∈ useds l ↔ mkblk b.1 b.2 false ∈ l.
Proof.
  induction l as [|[a n f] l IH]; cbn; [by split; intros ?%not_elem_of_nil|]. destruct f; cbn.
  - rewrite elem_of_cons, IH. naive_solver.
  - rewrite !elem_of_cons, IH. destruct b; cbn. naive_solver.
Qed.

Lemma frees_length l : (length (frees l) ≤ length l)%nat.
Proof. induction l as [|b l IH]; cbn; [done|]. case_match; cbn; lia. Qed.

Lemma spaced_app l l' : spaced (l ++ l') ↔ spaced l ∧ spaced l' ∧ (last_free l = true → first_free l' = false).
Proof.
  induction l as [|b l IH]; cbn; [unfold last_free; cbn; naive_solver|]. rewrite IH.
  destruct l as [|b' l]; cbn [first_free app]; unfold last_free.
  - cbn. naive_solver.
  - rewrite last_cons_cons. naive_solver.
Qed.

(** Different blocks do not overlap. *)
Lemma tiles_apart a l e b b' : tiles a l e → b ∈ l → b' ∈ l → b ≠ b' →
  b_addr b + 8 * b_size b ≤ b_addr b' ∨ b_addr b' + 8 * b_size b' ≤ b_addr b.
Proof.
  revert a. induction l as [|c l IH]; intros a; [by intros _ ?%not_elem_of_nil|].
  cbn. intros (Ha & Hs & H) [->|Hb]%elem_of_cons [->|Hb']%elem_of_cons Hne; [done|..].
  - destruct (tiles_in _ _ _ _ H Hb'). lia.
  - destruct (tiles_in _ _ _ _ H Hb). lia.
  - eauto.
Qed.

(** ** Joining blocks *)

Lemma chain_store m fin bs a w : (∀ b, b ∈ bs → b.1 + 8 ≤ a ∨ a + 4 ≤ b.1) → chain m fin bs → chain (store32 m a w) fin bs.
Proof.
  intros H. apply hdrs_ext. intros b i Hb Hi. apply store32_other. specialize (H b Hb). lia.
Qed.

Context (heap0 : Z) (Hbase : 0 < base) (Hheap0 : base + 8 ≤ heap0).

Lemma hdr_add_small p n : 0 ≤ p → 0 ≤ n → p + 8 * n ≤ KERNBASE → hdr_add p n = p + 8 * n.
Proof. intros. unfold hdr_add. apply u32_small. unfold KERNBASE, two32 in *. lia. Qed.

Lemma frees_in a l e b : tiles a l e → b ∈ frees l → a ≤ b.1 ∧ b.1 + 8 * b.2 ≤ e ∧ 1 ≤ b.2.
Proof. intros Ht Hb%frees_elem. by apply (tiles_in _ _ _ _ Ht) in Hb. Qed.

(** The first free block is the next one exactly when it is a neighbour. *)
Lemma head_addr_free a l e : tiles a l e → heap0 ≤ a →
  if first_free l then ∃ n l', l = mkblk a n true :: l' else head_addr (frees l) base ≠ a.
Proof.
  destruct l as [|[x n f] l]; cbn; [intros; lia|]. intros (-> & Hn & Ht) Ha. destruct f; cbn; [eauto|].
  destruct (frees l) as [|b bs] eqn:E; cbn; [lia|].
  destruct (frees_in _ _ _ b Ht) as [? _]; [rewrite E; left|]. lia.
Qed.

(** Addresses of free blocks are words, apart from what is before them. *)
Lemma head_addr_range a l e : tiles a l e → heap0 ≤ a → e ≤ KERNBASE → 0 ≤ head_addr (frees l) base < two32.
Proof.
  intros Ht Ha He. pose proof (tiles_le _ _ _ Ht). unfold KERNBASE, two32 in *.
  destruct (frees l) as [|b bs] eqn:E; cbn; [lia|].
  destruct (frees_in _ _ _ b Ht) as (? & ? & ?); [rewrite E; left|]. lia.
Qed.

(** Writing the pointer of a header puts it before a chain. *)
Lemma chain_cons_store m fin bs bp N : chain m fin bs → load32 m (bp + 4) = N → 0 ≤ head_addr bs fin < two32 →
  (∀ b, b ∈ bs → b.1 + 8 ≤ bp ∨ bp + 4 ≤ b.1) → chain (store32 m bp (head_addr bs fin)) fin ((bp, N) :: bs).
Proof.
  intros Hc Hs Hr Hbs. cbn. rewrite load32_store32, load32_apart by (done || lia).
  split_and!; [done|done|by apply chain_store].
Qed.

Lemma join_upper_ok s bp n l2 : heap0 ≤ bp → 1 ≤ n → tiles (bp + 8 * n) l2 (brk s) → brk s ≤ KERNBASE →
  spaced l2 → chain (umem s) base (frees l2) → load32 (umem s) (bp + 4) = n →
  returns (join_upper bp (head_addr (frees l2) base)) s (λ _ s', ∃ m' N l2',
    s' = s <| umem := m' |> ∧ (∀ x, ¬ bp ≤ x < bp + 8 → m' x = umem s x) ∧
    n ≤ N ∧ tiles (bp + 8 * N) l2' (brk s) ∧ useds l2' = useds l2 ∧ (length (frees l2') ≤ length (frees l2))%nat ∧
    spaced (mkblk bp N true :: l2') ∧ chain m' base ((bp, N) :: frees l2')).
Proof.
  intros Hbp Hn Ht Hb Hsp Hc Hs. unfold join_upper, get_size, get_ptr, set_size, set_ptr. mgo. rewrite Hs.
  pose proof (tiles_le _ _ _ Ht) as Hle. rewrite hdr_add_small by lia.
  pose proof (head_addr_free _ _ _ Ht ltac:(lia)) as Hf. destruct (first_free l2) eqn:Ef.
  - destruct Hf as (n2 & l2' & ->). cbn in Hc, Ht, Hsp. destruct Hc as (Hp2 & Hs2 & Hc). destruct Ht as (_ & Hn2 & Ht).
    cbn [frees b_free b_addr b_size head_addr fst]. rewrite Z.eqb_refl. mgo. cbn in Hs2. rewrite Hs2.
    pose proof (tiles_le _ _ _ Ht) as Hle'. rewrite u32_small by (unfold two32, KERNBASE in *; lia).
    eexists _, (n + n2), l2'. split; [done|]. cbn [umem set].
    rewrite load32_apart by lia. cbn in Hp2. rewrite Hp2.
    assert (Hap : ∀ b, b ∈ frees l2' → bp + 8 ≤ b.1) by (intros b Hbl; destruct (frees_in _ _ _ _ Ht Hbl); lia).
    split; [intros x Hx; rewrite !store32_other by lia; done|]. split; [lia|].
    split; [by replace (bp + 8 * (n + n2)) with (bp + 8 * n + 8 * n2) by lia|].
    split; [done|]. split; [cbn; lia|]. split; [done|]. apply chain_cons_store.
    + apply chain_store; [|done]. intros b Hbl. specialize (Hap b Hbl). lia.
    + apply load32_store32. unfold two32, KERNBASE in *. lia.
    + eapply head_addr_range; [done|lia|done].
    + intros b Hbl. specialize (Hap b Hbl). lia.
  - rewrite (proj2 (Z.eqb_neq _ _)) by done. mgo. eexists _, n, l2. split; [done|]. cbn [umem set].
    split; [intros x Hx; by apply store32_other; lia|]. do 4 (split; [done || lia|]). split; [by split|].
    assert (Hap : ∀ b, b ∈ frees l2 → bp + 8 ≤ b.1) by (intros b Hbl; destruct (frees_in _ _ _ _ Ht Hbl); lia).
    apply chain_cons_store; [done|done|eapply head_addr_range; [done|lia|done]|].
    intros b Hbl. specialize (Hap b Hbl). lia.
Qed.

(** A free block in the list of free blocks is one of the heap. *)
Lemma frees_split l G x H : frees l = G ++ x :: H →
  ∃ l1 l2, l = l1 ++ mkblk x.1 x.2 true :: l2 ∧ frees l1 = G ∧ frees l2 = H.
Proof.
  revert G. induction l as [|[a n f] l IH]; intros G E; cbn in E; [by destruct G|]. destruct f; cbn in E.
  - destruct G as [|g G]; simplify_eq/=.
    + by exists [], l.
    + destruct (IH _ H1) as (l1 & l2 & -> & <- & <-). by exists (mkblk a n true :: l1), l2.
  - destruct (IH _ E) as (l1 & l2 & -> & <- & <-). by exists (mkblk a n false :: l1), l2.
Qed.

(** The last block of the ring below [bp]. *)
Lemma pred_bounds l1 bp P p np : tiles heap0 l1 bp → (base, 0) :: frees l1 = P ++ [(p, np)] →
  (∀ b, b ∈ P → base ≤ b.1 ∧ b.1 + 8 ≤ p) ∧ base ≤ p ∧ p + 8 ≤ bp ∧ 0 ≤ np ∧ p + 8 * np ≤ bp.
Proof.
  intros Ht E. pose proof (tiles_le _ _ _ Ht). destruct P as [|b0 P]; simplify_eq/=.
  - split; [by intros b ?%not_elem_of_nil|]. lia.
  - apply frees_split in H1 as (la & lb & -> & <- & _). apply tiles_app in Ht as (c & Ha & Hb & Hn & Hle%tiles_le).
    cbn in Hb, Hn, Hle. subst c. apply tiles_le in Ha as Hle'. split; [|lia].
    intros b [->|(Hb1 & Hb2 & Hb3)%(frees_in _ _ _ _ Ha)]%elem_of_cons; cbn; lia.
Qed.

Lemma join_lower_ok s bp N l1 P p np next F : tiles heap0 l1 bp → spaced l1 → (base, 0) :: frees l1 = P ++ [(p, np)] →
  1 ≤ N → bp + 8 * N ≤ KERNBASE → chain (umem s) next (P ++ [(p, np)]) → chain (umem s) base ((bp, N) :: F) →
  (∀ b, b ∈ F → bp + 8 ≤ b.1) → 0 ≤ head_addr F base < two32 →
  returns (join_lower p bp) s (λ _ s', ∃ m' a M l1',
    s' = s <| umem := m' |> ∧ (∀ x, ¬ p ≤ x < p + 8 → m' x = umem s x) ∧
    tiles heap0 l1' a ∧ a + 8 * M = bp + 8 * N ∧ a ≤ bp ∧ useds l1' = useds l1 ∧
    (length (frees l1') ≤ length (frees l1))%nat ∧
    spaced (l1' ++ [mkblk a M true]) ∧ chain m' base ((base, 0) :: frees l1' ++ (a, M) :: F) ∧
    p ∈ base :: (fst <$> frees (l1' ++ [mkblk a M true]))).
Proof.
  intros Ht Hsp EP HN Hb HcP HcF HF Hr. destruct (pred_bounds _ _ _ _ _ Ht EP) as (HP & Hbp & Hp8 & Hnp & Hpe).
  apply chain_app in HcP as (HcP & Hpp & Hps & _). cbn in HcP, Hpp, Hps.
  unfold join_lower, get_size, get_ptr, set_size, set_ptr. mgo. rewrite Hps.
  rewrite hdr_add_small by lia. destruct (Z.eqb_spec (p + 8 * np) bp) as [E|E].
  - destruct P as [|b0 P]; [simplify_eq/=; lia|]. cbn in EP. injection EP as <- EP.
    destruct (frees_split _ _ _ _ EP) as (la & lb & -> & <- & Hlb). cbn [fst snd] in *.
    apply tiles_app in Ht as (c & Ha & Ec & Hn & Hlb'). cbn in Ec, Hn, Hlb'. subst c. apply tiles_le in Hlb' as Hlen.
    destruct lb as [|b lb]; [|cbn in Hlen; lia]. clear Hlb Hlb' Hlen.
    cbn [chain head_addr fst snd] in HcF. destruct HcF as (HFp & HFs & HcF). mgo. rewrite HFs.
    rewrite u32_small by (unfold two32, KERNBASE in *; lia). eexists _, p, (np + N), la. split; [done|]. cbn [umem set].
    rewrite load32_apart, HFp by lia. split; [intros x Hx; rewrite !store32_other by lia; done|].
    split; [done|]. split; [lia|]. split; [lia|]. split; [by rewrite useds_app, app_nil_r|].
    split; [rewrite frees_app, length_app; lia|]. split; [by apply spaced_app in Hsp as (? & ? & ?); apply spaced_app|]. split.
    + change ((base, 0) :: frees la ++ ?x) with (((base, 0) :: frees la) ++ x). apply chain_app. split.
      * do 2 (apply chain_store; [intros b Hbl; destruct (HP b Hbl); lia|]). done.
      * apply chain_cons_store; [|apply load32_store32; unfold two32, KERNBASE in *; lia|done|intros b Hbl; specialize (HF b Hbl); lia].
        apply chain_store; [|done]. intros b Hbl. specialize (HF b Hbl). lia.
    + right. rewrite frees_app, fmap_app, elem_of_app. right. left.
  - mgo. eexists _, bp, N, l1. split; [done|]. cbn [umem set]. split; [intros x Hx; apply store32_other; lia|].
    do 5 (split; [done || lia|]).
    assert (Hl : last_free l1 = false).
    { unfold last_free. destruct (last l1) as [[x n []]|] eqn:El; [|done..]. exfalso.
      apply last_Some in El as (l' & ->). rewrite frees_app in EP. cbn in EP.
      change ((base, 0) :: frees l' ++ [(x, n)]) with (((base, 0) :: frees l') ++ [(x, n)]) in EP.
      apply app_inj_tail in EP as [_ [= -> ->]]. apply tiles_app in Ht as (c & _ & Ec & _ & Ee). cbn in Ec, Ee. lia. }
    split; [apply spaced_app; by rewrite Hl|]. split.
    + rewrite app_comm_cons, EP, <- app_assoc. cbn [app]. apply chain_app. split.
      * apply chain_store; [|done]. intros b Hbl. destruct (HP b Hbl). lia.
      * apply (chain_cons_store _ base ((bp, N) :: F)); [done|done|cbn; unfold two32, KERNBASE in *; lia|].
        intros b [->|Hbl]%elem_of_cons; [cbn; lia|]. specialize (HF b Hbl). lia.
    + rewrite frees_app. destruct P as [|b0 P]; [simplify_eq/=; left|]. right. cbn in EP. injection EP as <- EP.
      rewrite EP, !fmap_app, !elem_of_app. left. right. left.
Qed.

(** ** The search in the ring *)

(** Addresses that increase up to [fin]. *)
Fixpoint asc bs (fin : Z) : Prop :=
  match bs with [] => True | b :: bs => b.1 < head_addr bs fin ∧ asc bs fin end.

Lemma asc_app bs bs' fin : asc (bs ++ bs') fin ↔ asc bs (head_addr bs' fin) ∧ asc bs' fin.
Proof. induction bs as [|b bs IH]; cbn; [tauto|]. rewrite head_addr_app, IH. tauto. Qed.

Lemma asc_head bs fin : asc bs fin → head_addr bs fin ≤ fin.
Proof. induction bs as [|b bs IH]; cbn; [lia|]. intros [Hb H%IH]. lia. Qed.

Lemma asc_frees a l e : tiles a l e → asc (frees l) e ∧ a ≤ head_addr (frees l) e.
Proof.
  revert a. induction l as [|[x n f] l IH]; intros a; cbn; [intros ->; split; [done|lia]|]. intros (-> & Hn & [H1 H2]%IH).
  destruct f; cbn; split_and?; done || lia.
Qed.

Lemma asc_ring l e : tiles heap0 l e → asc ((base, 0) :: frees l) e.
Proof. intros [H1 H2]%asc_frees. cbn. split; [lia|done]. Qed.

Lemma pass_low bp C p : asc C p → p < bp → pass_all bp C p.
Proof.
  intros HC Hp. induction C as [|b C IH]; cbn; [done|]. destruct HC as [Hb HC].
  pose proof (asc_head _ _ HC). split; [|by apply IH]. unfold passes. lia.
Qed.

Lemma pass_high bp C e : asc C e → (∀ b, b ∈ C → bp < b.1) → base < bp → pass_all bp C base.
Proof.
  intros HC Hlt Hbp. induction C as [|b C IH]; cbn; [done|]. destruct HC as [Hb HC].
  split; [|apply IH; [done|]; intros b' Hb'; apply Hlt; by right].
  specialize (Hlt b ltac:(left)). unfold passes. destruct C as [|b' C]; cbn in *; lia.
Qed.

Lemma free_loop_stop s k bp p np F : chain (umem s) base ((p, np) :: F) → base ≤ p → p < bp →
  (∀ b, b ∈ F → bp < b.1) → free_loop (S k) bp p s = Ok p s.
Proof.
  intros (Hn & _) Hb Hp HF. cbn in Hn. cbn [free_loop]. unfold mbind, M_bind, get_ptr, gets. rewrite Hn.
  rewrite (proj2 (Z.ltb_lt p bp)) by done. destruct F as [|b F]; cbn.
  - destruct (bp <? base); [done|]. by rewrite (proj2 (Z.leb_le base p)).
  - by rewrite (proj2 (Z.ltb_lt bp _)) by (apply HF; left).
Qed.

Lemma free_loop_low s k bp A C p np F : chain (umem s) base (A ++ C ++ (p, np) :: F) → asc C p → base ≤ p → p < bp →
  (∀ b, b ∈ F → bp < b.1) → (length C < k)%nat → free_loop k bp (head_addr C p) s = Ok p s.
Proof.
  intros [_ Hc]%chain_app HC Hb Hp HF Hk. replace k with (length C + S (k - length C - 1))%nat by lia.
  replace (head_addr C p) with (head_addr (C ++ (p, np) :: F) base) by (by rewrite head_addr_app).
  rewrite free_loop_skip; [|done|by apply pass_low]. apply chain_app in Hc as [_ Hc]. by eapply free_loop_stop.
Qed.

Lemma search_ok s k bp P p np F e : chain (umem s) base (P ++ (p, np) :: F) → head_addr (P ++ [(p, np)]) 0 = base →
  asc P p → asc F e → base ≤ p → p < bp → (∀ b, b ∈ F → bp < b.1) →
  freep s ∈ fst <$> (P ++ (p, np) :: F) → (length P + length F < k)%nat →
  free_loop k bp (freep s) s = Ok p s.
Proof.
  intros Hc Hh HP HF Hb Hp HFb Hf Hk. rewrite fmap_app, elem_of_app in Hf. destruct Hf as [Hf|Hf].
  - apply list_elem_of_fmap in Hf as (b & Ef & (A & C & ->)%list_elem_of_split). rewrite Ef.
    rewrite <- app_assoc in Hc. apply asc_app in HP as [_ HP]. rewrite length_app in Hk.
    eapply (free_loop_low s k bp A (b :: C)); try done. cbn [length] in *. lia.
  - cbn in Hf. apply elem_of_cons in Hf as [Ef|Hf].
    + rewrite Ef. eapply (free_loop_low s k bp P []); try done. cbn. lia.
    + apply list_elem_of_fmap in Hf as (b & Ef & (A & C & ->)%list_elem_of_split). rewrite Ef.
      apply asc_app in HF as [_ HF]. rewrite length_app in Hk. cbn [length] in Hk.
      replace k with (length (b :: C) + (k - length (b :: C)))%nat by (cbn; lia).
      replace b.1 with (head_addr ((b :: C) ++ []) base) by done.
      rewrite free_loop_skip; cycle 1.
      { rewrite app_nil_r. rewrite app_comm_cons, app_assoc in Hc. apply chain_app in Hc as [_ Hc]. done. }
      { eapply pass_high; [done| |lia]. intros b' Hb'. apply HFb. apply elem_of_app. by right. }
      rewrite head_addr_app in Hh. cbn in Hh |- *. rewrite <- Hh at 1.
      eapply (free_loop_low s _ bp [] P); try done. cbn [length]. lia.
Qed.

(** ** The invariant *)

Record inv (s : heap) l : Prop := {
  i_tiles : tiles heap0 l (brk s);
  i_spaced : spaced l;
  i_ring : chain (umem s) base ((base, 0) :: frees l);
  i_used : ∀ u, u ∈ useds l → load32 (umem s) (u.1 + 4) = u.2;
  i_freep : freep s ∈ base :: (fst <$> frees l);
  i_brk : brk s ≤ KERNBASE
}.

(** The bytes of blocks in use are the same. *)
Definition keeps_used (us : list (Z * Z)) (s s' : heap) : Prop :=
  ∀ u x, u ∈ us → u.1 ≤ x < u.1 + 8 * u.2 → umem s' x = umem s x.

Lemma keeps_used_trans us s1 s2 s3 : keeps_used us s1 s2 → keeps_used us s2 s3 → keeps_used us s1 s3.
Proof. intros H1 H2 u x Hu Hx. rewrite (H2 u x), (H1 u x); done. Qed.

Lemma used_header us s s' u : keeps_used us s s' → u ∈ us → 1 ≤ u.2 →
  load32 (umem s') (u.1 + 4) = load32 (umem s) (u.1 + 4).
Proof. intros H Hu Hn. apply load32_ext. intros i Hi. apply (H u); [done|lia]. Qed.

(** A block in use is apart from every header of the ring. *)
Lemma used_apart l e u b : tiles heap0 l e → u ∈ useds l → b ∈ (base, 0) :: frees l →
  1 ≤ u.2 ∧ (b.1 + 8 ≤ u.1 ∨ u.1 + 8 * u.2 ≤ b.1).
Proof.
  intros Ht Hu Hb. apply useds_elem in Hu. destruct (tiles_in _ _ _ _ Ht Hu) as (Hu1 & Hu2 & Hu3). cbn in *.
  split; [done|]. apply elem_of_cons in Hb as [->|Hb]; [left; cbn; lia|]. apply frees_elem in Hb.
  destruct (tiles_in _ _ _ _ Ht Hb) as (_ & _ & Hb3). cbn in Hb3.
  destruct (tiles_apart _ _ _ _ _ Ht Hu Hb) as [H|H]; [done|cbn in H; lia..].
Qed.

Lemma ring_fuel_enough s l : tiles heap0 l (brk s) → (length (frees l) + 2 ≤ ring_fuel s)%nat.
Proof.
  intros Ht%tiles_le. pose proof (frees_length l). unfold ring_fuel.
  assert (Z.of_nat (length l) ≤ brk s / 8) by (apply Z.div_le_lower_bound; lia). lia.
Qed.

(** The search of [free] finds the block before [bp]. *)
Lemma free_search s l1 bp n l2 : inv s (l1 ++ mkblk bp n false :: l2) →
  ∃ P p np, (base, 0) :: frees l1 = P ++ [(p, np)] ∧ free_loop (ring_fuel s) bp (freep s) s = Ok p s ∧
    chain (umem s) (head_addr (frees l2) base) (P ++ [(p, np)]) ∧ chain (umem s) base (frees l2).
Proof.
  intros [Ht Hsp Hc Hu Hf Hb]. pose proof Ht as (c & Ht1 & Ec & Hn & Ht2)%tiles_app. cbn in Ec, Hn, Ht2. subst c.
  assert (Efr : frees (l1 ++ mkblk bp n false :: l2) = frees l1 ++ frees l2) by by rewrite frees_app.
  assert (Hne : (base, 0) :: frees l1 ≠ []) by done. destruct (exists_last Hne) as (P & [p np] & EP).
  destruct (pred_bounds _ _ _ _ _ Ht1 EP) as (HP & Hbp & Hp8 & Hnp & Hpe).
  assert (ER : (base, 0) :: frees (l1 ++ mkblk bp n false :: l2) = P ++ (p, np) :: frees l2).
  { by rewrite Efr, app_comm_cons, EP, <- app_assoc. }
  exists P, p, np. split; [done|]. rewrite ER in Hc. split.
  - eapply (search_ok s (ring_fuel s) bp P p np (frees l2)); [done|by rewrite <- EP| | |done|lia| | |].
    + pose proof (asc_ring _ _ Ht1) as Ha. rewrite EP in Ha. apply asc_app in Ha as [Ha _]. exact Ha.
    + apply asc_frees in Ht2 as [Ha _]. exact Ha.
    + intros b Hbl. destruct (frees_in _ _ _ _ Ht2 Hbl). lia.
    + by rewrite <- ER.
    + pose proof (ring_fuel_enough _ _ Ht) as Hrf. apply (f_equal length) in ER. rewrite length_app in ER. cbn in ER. lia.
  - change (P ++ (p, np) :: frees l2) with (P ++ ([(p, np)] ++ frees l2)) in Hc. rewrite app_assoc in Hc.
    by apply chain_app.
Qed.

(** Stores to the headers of the ring and of a freed block leave the blocks in use alone. *)
Lemma keeps_used_outside l1 bp n l2 e p s s' : tiles heap0 (l1 ++ mkblk bp n false :: l2) e →
  p ∈ fst <$> ((base, 0) :: frees l1) → (∀ x, ¬ bp ≤ x < bp + 8 → ¬ p ≤ x < p + 8 → umem s' x = umem s x) →
  keeps_used (useds (l1 ++ l2)) s s'.
Proof.
  intros Ht (b & -> & Hb)%list_elem_of_fmap Hx u x Hu Hux. pose proof Hu as Hu'.
  assert (Hul : u ∈ useds (l1 ++ mkblk bp n false :: l2)).
  { rewrite useds_app in *. cbn. rewrite elem_of_app in *. rewrite elem_of_cons. tauto. }
  apply (used_apart _ _ _ b Ht) in Hul as [Hn Ha].
  2:{ rewrite frees_app, app_comm_cons, elem_of_app. by left. }
  apply Hx; [|lia]. apply tiles_app in Ht as (c & H1 & Ec & Hn1 & H2). cbn in Ec, Hn1, H2. subst c.
  rewrite useds_app, elem_of_app, !useds_elem in Hu. destruct Hu as [Hu|Hu].
  - apply (tiles_in _ _ _ _ H1) in Hu. cbn in Hu. lia.
  - apply (tiles_in _ _ _ _ H2) in Hu. cbn in Hu. lia.
Qed.

Lemma free_ok s l1 bp n l2 : inv s (l1 ++ mkblk bp n false :: l2) →
  returns (free (bp + 8)) s (λ _ s', ∃ l', inv s' l' ∧ useds l' = useds (l1 ++ l2) ∧ brk s' = brk s ∧
    (length (frees l') ≤ S (length (frees (l1 ++ l2))))%nat ∧
    keeps_used (useds (l1 ++ l2)) s s' ∧ ∃ b, b ∈ frees l' ∧ n ≤ b.2).
Proof.
  intros Hi. pose proof Hi as [Ht Hsp _ Hu _ Hb]. destruct (free_search _ _ _ _ _ Hi) as (P & p & np & EP & Es & HcP & HcF).
  pose proof Ht as (c & Ht1 & Ec & Hn & Ht2)%tiles_app. cbn in Ec, Hn, Ht2. subst c.
  pose proof (tiles_le _ _ _ Ht1) as Hle1. pose proof (tiles_le _ _ _ Ht2) as Hle2.
  destruct (pred_bounds _ _ _ _ _ Ht1 EP) as (HP & Hbp & Hp8 & Hnp & Hpe).
  apply spaced_app in Hsp as (Hsp1 & [_ Hsp2] & _).
  assert (Hpin : p ∈ fst <$> ((base, 0) :: frees l1)) by (rewrite EP, fmap_app, elem_of_app; right; left).
  unfold free. replace (bp + 8 - 8) with bp by lia. rewrite u32_small by (unfold two32, KERNBASE in *; lia). mgo.
  eapply ok_returns; [exact Es|]. unfold get_ptr. mgo.
  assert (Enext : load32 (umem s) p = head_addr (frees l2) base) by by apply chain_app in HcP as (_ & ? & _).
  rewrite Enext. eapply returns_mono.
  { apply (join_upper_ok s bp n); try done; [lia|]. apply (Hu (bp, n)). rewrite useds_app, elem_of_app. right. left. }
  intros [] s1 (m1 & N & l2' & -> & Hm1 & HN & Ht2' & Eu2 & Hl2 & Hsp2' & Hc1). mgo.
  pose proof (tiles_le _ _ _ Ht2') as Hle2'. eapply returns_mono.
  { apply (join_lower_ok _ bp N l1 P p np (head_addr (frees l2) base) (frees l2')); try done; [lia|lia| | |].
    - cbn. eapply hdrs_ext; [|exact HcP]. intros b i Hbl Hi'. apply Hm1.
      apply elem_of_app in Hbl as [Hbl|Hbl%list_elem_of_singleton]; [specialize (HP b Hbl)|subst b; cbn]; lia.
    - intros b Hbl. destruct (frees_in _ _ _ _ Ht2' Hbl). lia.
    - eapply head_addr_range; [exact Ht2'|lia|done]. }
  intros [] s2 (m2 & a & A & l1' & -> & Hm2 & Ht1' & Ea & Hab & Eu1 & Hl1 & Hsp' & Hc2 & Hpf). cbn in Hm2. mgo.
  set (s' := _ : heap). assert (Hk : keeps_used (useds (l1 ++ l2)) s s').
  { eapply keeps_used_outside; [exact Ht|exact Hpin|]. intros x Hx1 Hx2. cbn. rewrite Hm2, Hm1; done. }
  assert (Eu : useds (l1' ++ mkblk a A true :: l2') = useds (l1 ++ l2)) by (rewrite !useds_app; cbn; congruence).
  exists (l1' ++ mkblk a A true :: l2'). split_and!; [|done|done| |done|].
  - constructor.
    + apply tiles_app. exists a. split; [done|]. cbn. split_and!; [done|lia|]. by rewrite Ea.
    + apply spaced_app in Hsp' as (? & _ & Hl). apply spaced_app. split_and!; [done|apply Hsp2'..|done].
    + by rewrite frees_app.
    + rewrite Eu. intros u Hul. pose proof Hul as Hul'. rewrite useds_app, elem_of_app in Hul.
      assert (Hue : u ∈ useds (l1 ++ mkblk bp n false :: l2)).
      { rewrite useds_app, elem_of_app. cbn. rewrite elem_of_cons. tauto. }
      destruct (used_apart _ _ _ (base, 0) Ht Hue) as [Hu1 _]; [left|].
      etrans; [exact (used_header _ _ _ _ Hk Hul' Hu1)|by apply Hu].
    + cbn. rewrite frees_app, fmap_app in *. cbn in *. set_solver.
    + done.
  - rewrite !frees_app, !length_app. cbn. lia.
  - exists (a, A). split; [|cbn; lia]. rewrite frees_app, elem_of_app. right. left.
Qed.

(** ** Taking a block *)

(** The block that a block of the ring points to. *)
Lemma free_next m l y : chain m base ((base, 0) :: frees l) → y ∈ base :: (fst <$> frees l) → load32 m y ≠ base →
  ∃ la lb P ny nx, l = la ++ mkblk (load32 m y) nx true :: lb ∧ (base, 0) :: frees la = P ++ [(y, ny)] ∧
    load32 m (load32 m y + 4) = nx.
Proof.
  intros Hc Hy Hx. change (base :: (fst <$> frees l)) with (fst <$> ((base, 0) :: frees l)) in Hy.
  apply list_elem_of_fmap in Hy as ([y' ny] & -> & (P & H & ER)%list_elem_of_split). cbn [fst] in *. rewrite ER in Hc.
  apply chain_app in Hc as (_ & Hp & _ & Hc). cbn in Hp. destruct H as [|[x nx] H]; [done|]. cbn in Hp. rewrite Hp in *.
  destruct Hc as (_ & Hs & _). cbn in Hs.
  change (P ++ (y', ny) :: (x, nx) :: H) with (P ++ [(y', ny)] ++ (x, nx) :: H) in ER. rewrite app_assoc in ER.
  destruct (P ++ [(y', ny)]) as [|r G] eqn:EG; [by destruct P|]. cbn in ER. injection ER as <- ER.
  destruct (frees_split _ _ _ _ ER) as (la & lb & -> & <- & _). by exists la, lb, P, ny, nx.
Qed.

(** What the invariant says around a free block [x] and the block [y] before it. *)
Lemma inv_around s la x nx lb P y ny : inv s (la ++ mkblk x nx true :: lb) → (base, 0) :: frees la = P ++ [(y, ny)] →
  tiles heap0 la x ∧ 1 ≤ nx ∧ tiles (x + 8 * nx) lb (brk s) ∧ 0 ≤ x ∧ x + 8 * nx ≤ KERNBASE ∧
  (∀ b, b ∈ P → b.1 + 8 ≤ y) ∧ base ≤ y ∧ y + 8 ≤ x ∧
  chain (umem s) y P ∧ load32 (umem s) y = x ∧ load32 (umem s) (y + 4) = ny ∧
  load32 (umem s) x = head_addr (frees lb) base ∧ load32 (umem s) (x + 4) = nx ∧ chain (umem s) base (frees lb).
Proof.
  intros [Ht Hsp Hc Hu Hf Hb] EP. apply tiles_app in Ht as (c & Hta & Ec & Hnx & Htb). cbn in Ec, Hnx, Htb. subst c.
  pose proof (tiles_le _ _ _ Hta) as Hla. pose proof (tiles_le _ _ _ Htb) as Hlb.
  destruct (pred_bounds _ _ _ _ _ Hta EP) as (HP & Hyb & Hy8 & Hny & Hye).
  rewrite frees_app in Hc. cbn [frees b_free b_addr b_size] in Hc. rewrite app_comm_cons, EP, <- app_assoc in Hc. cbn [app] in Hc.
  apply chain_app in Hc as (HcP & Hyp & Hys & Hxp & Hxs & HcH). cbn in HcP, Hyp, Hys, Hxp, Hxs.
  split_and!; try done; try lia. intros b Hbl. by destruct (HP b Hbl).
Qed.

Lemma take_exact s la x n lb P y ny : inv s (la ++ mkblk x n true :: lb) → (base, 0) :: frees la = P ++ [(y, ny)] →
  let s' := s <| umem := store32 (umem s) y (load32 (umem s) x) |> <| freep := y |> in
  inv s' (la ++ mkblk x n false :: lb) ∧ keeps_used (useds (la ++ mkblk x n true :: lb)) s s'.
Proof.
  intros Hi EP s'. destruct (inv_around _ _ _ _ _ _ _ _ Hi EP) as
    (Hta & Hn & Htb & Hx0 & HxK & HP & Hyb & Hy8 & HcP & Hyp & Hys & Hxp & Hxs & HcH).
  destruct Hi as [Ht Hsp Hc Hu Hf Hb].
  assert (Hyin : (y, ny) ∈ (base, 0) :: frees (la ++ mkblk x n true :: lb)).
  { rewrite frees_app, app_comm_cons, EP, !elem_of_app. left. right. left. }
  assert (Hk : keeps_used (useds (la ++ mkblk x n true :: lb)) s s').
  { intros u a Hul Ha. destruct (used_apart _ _ _ _ Ht Hul Hyin) as [_ Hap]. cbn in Hap. cbn. apply store32_other. lia. }
  split; [|done]. apply spaced_app in Hsp as (Hspa & [Hsx Hspb] & Hsl). constructor.
  - apply tiles_app. exists x. by split; [|cbn].
  - apply spaced_app. by split_and!.
  - cbn [umem s' set]. rewrite frees_app. cbn [frees b_free]. rewrite app_comm_cons, EP, <- app_assoc. cbn [app].
    rewrite Hxp. assert (Hafter : ∀ b, b ∈ frees lb → y + 8 ≤ b.1).
    { intros b Hbl. destruct (frees_in _ _ _ _ Htb Hbl). lia. }
    apply chain_app. split.
    + apply chain_store; [|done]. intros b Hbl. specialize (HP b Hbl). lia.
    + apply chain_cons_store; [done|done|eapply head_addr_range; [exact Htb| |done]; apply tiles_le in Hta; lia|].
      intros b Hbl. specialize (Hafter b Hbl). lia.
  - intros u. rewrite useds_app. cbn. rewrite elem_of_app, elem_of_cons. intros Hul.
    assert (u = (x, n) ∨ u ∈ useds (la ++ mkblk x n true :: lb)) as [->|Hul'].
    { rewrite useds_app, elem_of_app. cbn. tauto. }
    + cbn. rewrite load32_apart by lia. done.
    + destruct (used_apart _ _ _ _ Ht Hul' Hyin) as [Hu1 _]. etrans; [exact (used_header _ _ _ _ Hk Hul' Hu1)|by apply Hu].
  - cbn. change (base :: (fst <$> ?z)) with (fst <$> ((base, 0) :: z)). rewrite frees_app, app_comm_cons, EP, !fmap_app, !elem_of_app.
    left. right. left.
  - done.
Qed.

Lemma take_split s la x nx n lb P y ny : inv s (la ++ mkblk x nx true :: lb) → (base, 0) :: frees la = P ++ [(y, ny)] →
  1 ≤ n < nx →
  let q := x + 8 * (nx - n) in
  let s' := s <| umem := store32 (store32 (umem s) (x + 4) (nx - n)) (q + 4) n |> <| freep := y |> in
  inv s' (la ++ mkblk x (nx - n) true :: mkblk q n false :: lb) ∧ keeps_used (useds (la ++ mkblk x nx true :: lb)) s s'.
Proof.
  intros Hi EP Hn q s'. destruct (inv_around _ _ _ _ _ _ _ _ Hi EP) as
    (Hta & Hnx & Htb & Hx0 & HxK & HP & Hyb & Hy8 & HcP & Hyp & Hys & Hxp & Hxs & HcH).
  destruct Hi as [Ht Hsp Hc Hu Hf Hb]. unfold KERNBASE in HxK.
  assert (Hk : keeps_used (useds (la ++ mkblk x nx true :: lb)) s s').
  { intros u a Hul Ha. apply useds_elem in Hul.
    destruct (tiles_apart _ _ _ _ (mkblk x nx true) Ht Hul) as [Hap|Hap]; [apply elem_of_app; right; left|done|cbn in Hap..];
      cbn; rewrite !store32_other by (unfold q; lia); done. }
  split; [|done]. apply spaced_app in Hsp as (Hspa & [Hsx Hspb] & Hsl). constructor.
  - apply tiles_app. exists x. split; [done|]. cbn. split_and!; [done|lia|unfold q; lia|lia|].
    by replace (x + 8 * (nx - n) + 8 * n) with (x + 8 * nx) by lia.
  - apply spaced_app. by split_and!.
  - cbn [umem s' set]. rewrite frees_app. cbn [frees b_free b_addr b_size]. rewrite app_comm_cons, EP, <- app_assoc. cbn [app].
    assert (Hafter : ∀ b, b ∈ frees lb → x + 8 * nx ≤ b.1).
    { intros b Hbl. by destruct (frees_in _ _ _ _ Htb Hbl). }
    apply chain_app. split; [|cbn; split_and!].
    + do 2 (apply chain_store; [intros b Hbl; specialize (HP b Hbl); unfold q; lia|]). done.
    + by rewrite !load32_apart by (unfold q; lia).
    + by rewrite !load32_apart by (unfold q; lia).
    + by rewrite !load32_apart by (unfold q; lia).
    + rewrite load32_apart by (unfold q; lia). apply load32_store32. unfold two32. lia.
    + do 2 (apply chain_store; [intros b Hbl; specialize (Hafter b Hbl); unfold q; lia|]). done.
  - intros u. rewrite useds_app. cbn. rewrite elem_of_app, elem_of_cons. intros Hul.
    assert (u = (q, n) ∨ u ∈ useds (la ++ mkblk x nx true :: lb)) as [->|Hul'].
    { rewrite useds_app, elem_of_app. cbn. tauto. }
    + cbn. apply load32_store32. unfold two32. lia.
    + destruct (used_apart _ _ _ (base, 0) Ht Hul') as [Hu1 _]; [left|].
      etrans; [exact (used_header _ _ _ _ Hk Hul' Hu1)|by apply Hu].
  - cbn. change (base :: (fst <$> ?z)) with (fst <$> ((base, 0) :: z)). rewrite frees_app, app_comm_cons, EP, !fmap_app, !elem_of_app.
    left. right. left.
  - done.
Qed.

Lemma take_block_ok s l n y : inv s l → y ∈ base :: (fst <$> frees l) → load32 (umem s) y ≠ base →
  1 ≤ n → n ≤ load32 (umem s) (load32 (umem s) y + 4) →
  returns (take_block n y (load32 (umem s) y) (load32 (umem s) (load32 (umem s) y + 4))) s (λ r s',
    ∃ q l', r = q + 8 ∧ inv s' l' ∧ useds l' ≡ₚ (q, n) :: useds l ∧ brk s' = brk s ∧ keeps_used (useds l) s s').
Proof.
  intros Hi Hy Hx Hn Hfit. destruct (free_next _ _ _ (i_ring _ _ Hi) Hy Hx) as (la & lb & P & ny & nx & El & EP & Es).
  rewrite Es in *. set (x := load32 (umem s) y) in *. subst l.
  destruct (inv_around _ _ _ _ _ _ _ _ Hi EP) as (_ & _ & _ & Hx0 & HxK & _).
  unfold take_block, get_ptr, set_ptr, set_size. destruct (Z.eqb_spec nx n) as [->|Hne]; mgo.
  - destruct (take_exact _ _ _ _ _ _ _ _ Hi EP) as [Hi' Hk]. rewrite hdr_add_small by lia.
    exists x, (la ++ mkblk x n false :: lb). split_and!; [lia|done| |done|done].
    rewrite !useds_app. cbn. symmetry. apply Permutation_middle.
  - destruct (take_split _ _ _ _ n _ _ _ _ Hi EP) as [Hi' Hk]; [lia|]. rewrite (hdr_add_small x) by lia.
    rewrite hdr_add_small by lia. exists (x + 8 * (nx - n)), (la ++ mkblk x (nx - n) true :: mkblk (x + 8 * (nx - n)) n false :: lb).
    split_and!; [lia|done| |done|done]. rewrite !useds_app. cbn. symmetry. apply Permutation_middle.
Qed.

(** ** The search for a block *)

(** The ring from the block after [freep] on. *)
Lemma ring_from_freep s l : inv s l → ∃ L nf, let R := L ++ [(freep s, nf)] in
  chain (umem s) (head_addr R 0) R ∧ load32 (umem s) (freep s) = head_addr R 0 ∧ R ≡ₚ (base, 0) :: frees l ∧
  freep s ∉ fst <$> L.
Proof.
  intros [Ht Hsp Hc Hu Hf Hb]. change (base :: (fst <$> frees l)) with (fst <$> ((base, 0) :: frees l)) in Hf.
  apply list_elem_of_fmap in Hf as ([f nf] & -> & (A & B & ER)%list_elem_of_split). cbn [fst].
  assert (Hasc := asc_ring _ _ Ht). rewrite ER in Hasc.
  assert (Hr : ring (umem s) (A ++ (f, nf) :: B)) by by rewrite <- ER.
  change (A ++ (f, nf) :: B) with (A ++ [(f, nf)] ++ B) in Hr. rewrite app_assoc in Hr. apply ring_rot in Hr.
  rewrite app_assoc in Hr. exists (B ++ A), nf. split; [done|]. split; [|split].
  - unfold ring in Hr. apply chain_app in Hr as (_ & Hr & _). exact Hr.
  - rewrite ER, <- app_assoc, Permutation_app_comm. by rewrite <- app_assoc.
  - intros Hin. rewrite fmap_app, elem_of_app in Hin.
    apply asc_app in Hasc as [HA [HB1 HB]]. cbn in HA, HB1. destruct Hin as [Hin|Hin]; apply list_elem_of_fmap in Hin as (b & Eb & Hbl).
    + assert (f < b.1); [|lia]. clear - HB1 HB Hbl. revert HB1 HB. revert f. induction B as [|c B IH]; intros f H1 H2; [by apply not_elem_of_nil in Hbl|].
      cbn in H1, H2. apply elem_of_cons in Hbl as [->|Hbl]; [done|]. assert (c.1 < b.1) by (apply IH; tauto). lia.
    + assert (b.1 < f); [|lia]. clear - HA Hbl. induction A as [|c A IH]; [by apply not_elem_of_nil in Hbl|].
      cbn in HA. destruct HA as [H1 H2]. apply elem_of_cons in Hbl as [->|Hbl]; [|by apply IH].
      pose proof (asc_head _ _ H2). lia.
Qed.

Lemma first_fit (n : Z) bs : (∃ b, b ∈ bs ∧ n ≤ b.2) → ∃ C x D, bs = C ++ x :: D ∧ Forall (λ b, b.2 < n) C ∧ n ≤ x.2.
Proof.
  induction bs as [|b bs IH]; [by intros (? & ?%not_elem_of_nil & _)|]. intros H.
  destruct (decide (n ≤ b.2)) as [Hb|Hb]; [by exists [], b, bs|].
  destruct IH as (C & x & D & -> & HC & Hx).
  { destruct H as (c & [->|Hc]%elem_of_cons & Hn); [done|eauto]. }
  exists (b :: C), x, D. split_and!; [done|constructor; [lia|done]|done].
Qed.

Lemma last_addr_elem y C : last_addr y C ∈ y :: (fst <$> C).
Proof. revert y. induction C as [|b C IH]; intros y; cbn; [left|]. right. apply IH. Qed.

Lemma last_addr_ptr m fin C D y : chain m fin (C ++ D) → load32 m y = head_addr (C ++ D) fin →
  load32 m (last_addr y C) = head_addr D fin.
Proof. revert y. induction C as [|b C IH]; intros y; cbn; [done|]. intros (Hp & _ & Hc) _. by apply IH. Qed.

(** What [malloc] promises: a new block of [n] units. *)
Definition gives (n : Z) l (s : heap) (r : Z) (s' : heap) : Prop :=
  ∃ q l', r = q + 8 ∧ inv s' l' ∧ useds l' ≡ₚ (q, n) :: useds l ∧ keeps_used (useds l) s s'.

Lemma malloc_loop_found s l n k : inv s l → 1 ≤ n → (∃ b, b ∈ frees l ∧ n ≤ b.2) → (length (frees l) < k)%nat →
  returns (malloc_loop k n (freep s) (load32 (umem s) (freep s))) s (gives n l s).
Proof.
  intros Hi Hn Hfit Hk. destruct (ring_from_freep s l Hi) as (L & nf & Hc & Ef & Hperm & Hnin).
  set (R := L ++ [(freep s, nf)]) in *. destruct (first_fit n R) as (C & x & D & ER & HC & Hx).
  { destruct Hfit as (b & Hb & Hbn). exists b. split; [|done]. rewrite Hperm. by right. }
  assert (HxR : x ∈ (base, 0) :: frees l) by (rewrite <- Hperm, ER, elem_of_app; right; left).
  assert (Hxb : x.1 ≠ base).
  { apply elem_of_cons in HxR as [->|HxR]; [cbn in Hx; lia|].
    destruct (frees_in _ _ _ _ (i_tiles _ _ Hi) HxR). lia. }
  assert (HCf : Forall (λ b, b.2 < n ∧ b.1 ≠ freep s) C).
  { rewrite Forall_forall in HC |- *. intros b Hb. split; [by apply HC|]. intros E. apply Hnin. rewrite <- E.
    apply list_elem_of_fmap. exists b. split; [done|]. unfold R in ER.
    destruct D as [|d D _] using rev_ind.
    - apply app_inj_tail in ER as [-> _]. done.
    - rewrite app_comm_cons, app_assoc in ER. apply app_inj_tail in ER as [-> _]. rewrite elem_of_app. by left. }
  pose proof (Permutation_length Hperm) as Hlen. rewrite ER, length_app in Hlen. cbn in Hlen.
  replace k with (length C + S (k - length C - 1))%nat by lia. rewrite ER in *. set (fin := head_addr (C ++ x :: D) 0) in *.
  assert (Efin : fin = head_addr (C ++ x :: D) fin) by by destruct C. rewrite Efin in Ef. rewrite Ef. unfold returns.
  rewrite malloc_loop_skip by done. set (y := last_addr (freep s) C).
  assert (Ey : load32 (umem s) y = x.1) by (eapply (last_addr_ptr _ _ C (x :: D)); done).
  assert (Exs : load32 (umem s) (x.1 + 4) = x.2) by by apply chain_app in Hc as (_ & _ & ? & _).
  assert (Hy : y ∈ base :: (fst <$> frees l)).
  { pose proof (last_addr_elem (freep s) C) as Hy. fold y in Hy. apply elem_of_cons in Hy as [->|Hy]; [apply Hi|].
    change (base :: (fst <$> frees l)) with (fst <$> ((base, 0) :: frees l)). rewrite <- Hperm, fmap_app, elem_of_app. by left. }
  cbn [malloc_loop head_addr]. unfold get_size. unfold mbind, M_bind, gets. rewrite Exs.
  rewrite (proj2 (Z.leb_le n _)) by done.
  pose proof (take_block_ok s l n y Hi Hy ltac:(by rewrite Ey) Hn ltac:(by rewrite Ey, Exs)) as Ht.
  rewrite Ey, Exs in Ht. unfold returns in Ht. destruct (take_block n y x.1 x.2 s) as [r s'| | | |]; try done.
  destruct Ht as (q & l' & -> & Hi' & Hu & _ & Hk'). by exists q, l'.
Qed.

Lemma malloc_loop_none s l n k : inv s l → 1 ≤ n → (∀ b, b ∈ frees l → b.2 < n) →
  malloc_loop (length (frees l) + S k) n (freep s) (load32 (umem s) (freep s)) s =
  (p ← morecore n; if p =? 0 then mret 0 else next ← get_ptr p; malloc_loop k n p next) s.
Proof.
  intros Hi Hn Hno. destruct (ring_from_freep s l Hi) as (L & nf & Hc & Ef & Hperm & Hnin).
  pose proof (Permutation_length Hperm) as Hlen. rewrite length_app in Hlen. cbn in Hlen.
  assert (Hsm : ∀ b, b ∈ L ++ [(freep s, nf)] → b.2 < n).
  { intros b. rewrite Hperm. intros [->|Hb]%elem_of_cons; [cbn; lia|by apply Hno]. }
  set (fin := head_addr (L ++ [(freep s, nf)]) 0) in *.
  assert (Efin : fin = head_addr (L ++ [(freep s, nf)]) fin) by by destruct L. rewrite Efin in Ef.
  replace (length (frees l)) with (length L) by lia. rewrite Ef, malloc_loop_skip; [|done|].
  - cbn [malloc_loop head_addr fst]. unfold get_size. unfold mbind at 1, M_bind at 1, gets.
    apply chain_app in Hc as (_ & _ & Es & _). cbn in Es. rewrite Es.
    rewrite (proj2 (Z.leb_gt n nf)) by (apply (Hsm (freep s, nf)); rewrite elem_of_app; right; left).
    unfold mbind at 1, M_bind at 1. by rewrite Z.eqb_refl.
  - apply Forall_forall. intros b Hb. split; [apply Hsm, elem_of_app; by left|]. intros E. apply Hnin. rewrite <- E.
    by apply list_elem_of_fmap_2.
Qed.

(** The kernel grants memory below itself only. *)
Context (Hgrow : ∀ b n, grow b n = true → b + n ≤ KERNBASE).

(** Memory fresh from the kernel is a block in use at the end of the heap. *)
Lemma inv_grow s l nu : inv s l → 1 ≤ nu → brk s + 8 * nu ≤ KERNBASE →
  let s' := s <| brk := brk s + 8 * nu |> <| umem := store32 (umem s) (brk s + 4) nu |> in
  inv s' (l ++ [mkblk (brk s) nu false]) ∧ keeps_used (useds l) s s'.
Proof.
  intros [Ht Hsp Hc Hu Hf Hb] Hn Hk s'. pose proof (tiles_le _ _ _ Ht) as Hle. unfold KERNBASE in *.
  assert (Hkp : keeps_used (useds l) s s').
  { intros u x Hul Hx. apply useds_elem in Hul. destruct (tiles_in _ _ _ _ Ht Hul) as (_ & He & _). cbn in He.
    cbn. apply store32_other. lia. }
  split; [|done]. constructor; rewrite ?frees_app, ?useds_app; cbn [frees useds b_free b_addr b_size]; rewrite ?app_nil_r.
  - apply tiles_app. exists (brk s). by cbn.
  - apply spaced_app. split_and!; done.
  - apply chain_store; [|done]. intros b Hbl. left. apply elem_of_cons in Hbl as [->|Hbl]; [cbn; lia|].
    destruct (frees_in _ _ _ _ Ht Hbl). lia.
  - intros u [Hul|Hul%list_elem_of_singleton]%elem_of_app; [|subst u].
    + destruct (used_apart _ _ _ (base, 0) Ht Hul) as [Hu1 _]; [left|].
      etrans; [exact (used_header _ _ _ _ Hkp Hul Hu1)|by apply Hu].
    + apply load32_store32. unfold two32. cbn. lia.
  - done.
  - done.
Qed.

(** The units that [morecore] asks for. *)
Definition core_units (nu : Z) : Z := if nu <? 4096 then 4096 else nu.

Lemma morecore_ok s l nu : inv s l → 1 ≤ nu → 8 * nu < 2147483648 →
  returns (morecore nu) s (λ r s',
    if grow (brk s) (8 * core_units nu) then
      r ≠ 0 ∧ r = freep s' ∧ ∃ l', inv s' l' ∧ useds l' = useds l ∧ keeps_used (useds l) s s' ∧
        (length (frees l') ≤ S (length (frees l)))%nat ∧ ∃ b, b ∈ frees l' ∧ nu ≤ b.2
    else r = 0 ∧ s' = s).
Proof.
  intros Hi Hn Hlt. unfold morecore, sbrk. fold (core_units nu). set (cu := core_units nu) in *.
  assert (Hcu : nu ≤ cu ∧ 1 ≤ cu ∧ 8 * cu < 2147483648) by (unfold cu, core_units; case_match; lia).
  replace (cu * 8) with (8 * cu) by lia. rewrite s32_small by lia. mgo.
  destruct (grow (brk s) (8 * cu)) eqn:Eg; mgo; [|done].
  pose proof (Hgrow _ _ Eg) as Hk. pose proof (tiles_le _ _ _ (i_tiles _ _ Hi)) as Hle.
  rewrite (proj2 (Z.eqb_neq (brk s) _)) by (unfold KERNBASE in Hk; lia). unfold set_size. mgo.
  rewrite hdr_add_small by lia. replace (brk s + 8 * 1) with (brk s + 8) by lia.
  destruct (inv_grow s l cu Hi ltac:(lia) Hk) as [Hi' Hkp]. eapply returns_mono; [apply (free_ok _ l (brk s) cu [] Hi')|].
  intros [] s' (l' & Hi2 & Eu & _ & Hlen & Hkp2 & b & Hb & Hbn). rewrite app_nil_r in *. mgo.
  split.
  { destruct Hi2 as [Ht2 _ _ _ Hf2 _]. apply elem_of_cons in Hf2 as [->|Hf2]; [lia|].
    apply list_elem_of_fmap in Hf2 as (c & -> & Hc). destruct (frees_in _ _ _ _ Ht2 Hc). lia. }
  split; [done|]. exists l'. split_and!; [done|done|by eapply keeps_used_trans|done|]. exists b. split; [done|lia].
Qed.

(** The units of a request. *)
Definition units (nbytes : Z) : Z := u32 (nbytes + 8 - 1) / 8 + 1.

Lemma units_range nbytes : 0 ≤ nbytes < 2147483600 →
  1 ≤ units nbytes ∧ 8 * units nbytes < 2147483648 ∧ nbytes ≤ 8 * units nbytes - 8.
Proof. intros. unfold units. rewrite u32_small by (unfold two32; lia). Z.to_euclidean_division_equations. lia. Qed.

Lemma malloc_loop_ok s l n k : inv s l → 1 ≤ n → 8 * n < 2147483648 → (2 * length (frees l) + 4 ≤ k)%nat →
  returns (malloc_loop k n (freep s) (load32 (umem s) (freep s))) s (λ r s',
    gives n l s r s' ∨ r = 0 ∧ s' = s ∧ grow (brk s) (8 * core_units n) = false).
Proof.
  intros Hi Hn Hlt Hk. destruct (decide (Exists (λ b, n ≤ b.2) (frees l))) as [Hex|Hno].
  - apply Exists_exists in Hex. eapply returns_mono; [apply (malloc_loop_found s l); [done|done|done|lia]|]. auto.
  - replace k with (length (frees l) + S (k - length (frees l) - 1))%nat by lia.
    unfold returns. rewrite (malloc_loop_none s l) by (try done; intros b Hb; apply Z.nle_gt; intros ?; apply Hno, Exists_exists; eauto).
    apply returns_bind. eapply returns_mono; [by apply (morecore_ok s l)|]. intros r s' Hr.
    destruct (grow (brk s) (8 * core_units n)) eqn:Eg.
    + destruct Hr as (Hr0 & -> & l' & Hi' & Eu & Hkp & Hlen & Hfit). rewrite (proj2 (Z.eqb_neq _ 0)) by done.
      unfold get_ptr. mgo. eapply returns_mono; [apply (malloc_loop_found s' l'); [done|done|done|lia]|].
      intros r s2 (q & l2 & -> & Hi2 & Hu2 & Hk2). left. exists q, l2. rewrite Eu in *.
      split_and!; [done..|by eapply keeps_used_trans].
    + destruct Hr as [-> ->]. cbn [Z.eqb]. mgo. auto.
Qed.

(** ** Clients *)

(** Requests that are alive, as pointer and number of bytes, and their blocks. *)
Implicit Types live : list (Z * Z).
Definition block_of (r : Z * Z) : Z * Z := (r.1 - 8, units r.2).

(** The heap before the first call, and with some requests alive. *)
Definition heap_ok (s : heap) live : Prop :=
  freep s = 0 ∧ live = [] ∧ brk s = heap0 ∧ heap0 ≤ KERNBASE ∨
  ∃ l, inv s l ∧ useds l ≡ₚ block_of <$> live.

(** The first call makes a ring of [base] alone. *)
Lemma heap_init s : brk s = heap0 → heap0 ≤ KERNBASE →
  inv (s <| umem := store32 (umem s) base base |> <| freep := base |> <| umem := store32 (store32 (umem s) base base) (base + 4) 0 |>) [].
Proof.
  intros Hb Hk. constructor; cbn; try done; [|by intros ? ?%not_elem_of_nil|left|lia].
  rewrite load32_apart, !load32_store32 by (unfold KERNBASE, two32 in *; lia). done.
Qed.

(** The bytes the client owns are the same. *)
Definition keeps_live live (s s' : heap) : Prop :=
  ∀ r x, r ∈ live → r.1 ≤ x < r.1 + r.2 → umem s' x = umem s x.

Definition sizes_ok live : Prop := Forall (λ r, 0 ≤ r.2 < 2147483600) live.

Lemma keeps_used_live us live s s' : us ≡ₚ block_of <$> live → sizes_ok live → keeps_used us s s' → keeps_live live s s'.
Proof.
  intros Hp Hs Hk r x Hr Hx. unfold sizes_ok in Hs. rewrite Forall_forall in Hs. destruct (units_range _ (Hs r Hr)) as (? & ? & ?).
  apply (Hk (block_of r)); [rewrite Hp; by apply list_elem_of_fmap_2|]. cbn. lia.
Qed.

(** [malloc] after it has made sure that there is a ring. *)
Lemma malloc_rest s s1 l live nb : inv s1 l → useds l ≡ₚ block_of <$> live → brk s1 = brk s → keeps_live live s s1 →
  sizes_ok live → 0 ≤ nb < 2147483600 →
  returns (malloc_loop (ring_fuel s1 + ring_fuel s1) (units nb) (freep s1) (load32 (umem s1) (freep s1))) s1
    (λ ap s', keeps_live live s s' ∧
      if ap =? 0 then heap_ok s' live ∧ grow (brk s) (8 * core_units (units nb)) = false
      else heap_ok s' ((ap, nb) :: live)).
Proof.
  intros Hi Hu Hb Hk Hsz Hnb. destruct (units_range nb Hnb) as (Hu1 & Hu2 & _).
  pose proof (ring_fuel_enough _ _ (i_tiles _ _ Hi)) as Hfuel.
  eapply returns_mono; [apply (malloc_loop_ok s1 l); [done|done|done|lia]|].
  intros ap s' [(q & l' & -> & Hi' & Hu' & Hk')|(-> & -> & Hg)].
  - split.
    + intros r x Hr Hx. rewrite <- (Hk r x) by done. by eapply keeps_used_live.
    + assert (Hq : (q, units nb) ∈ useds l') by (rewrite Hu'; left).
      apply useds_elem, (tiles_in _ _ _ _ (i_tiles _ _ Hi')) in Hq as (Hq & _). cbn in Hq.
      rewrite (proj2 (Z.eqb_neq _ 0)) by lia. right. exists l'. split; [done|]. rewrite Hu', Hu.
      unfold block_of at 2. cbn. by replace (q + 8 - 8) with q by lia.
  - rewrite <- Hb. split; [done|]. cbn. split; [right; by exists l|done].
Qed.

Lemma malloc_ok s live nb : heap_ok s live → sizes_ok live → 0 ≤ nb < 2147483600 →
  returns (malloc nb) s (λ ap s', keeps_live live s s' ∧
    if ap =? 0 then heap_ok s' live ∧ grow (brk s) (8 * core_units (units nb)) = false
    else heap_ok s' ((ap, nb) :: live)).
Proof.
  intros Hok Hsz Hnb. unfold malloc. fold (units nb). destruct Hok as [(Hf & -> & Hb & Hk)|(l & Hi & Hu)].
  - mgo. rewrite Hf. cbn [Z.eqb]. unfold set_ptr, set_size. mgo. unfold get_ptr. mgo.
    match goal with |- returns _ ?s1 _ => apply (malloc_rest s s1 []) end; try done; [by apply heap_init|].
    by intros r x ?%not_elem_of_nil.
  - assert (Hf : freep s ≠ 0).
    { destruct Hi as [Ht _ _ _ Hf _]. apply elem_of_cons in Hf as [->|Hf]; [lia|].
      apply list_elem_of_fmap in Hf as (b & -> & Hbl). destruct (frees_in _ _ _ _ Ht Hbl). lia. }
    mgo. rewrite (proj2 (Z.eqb_neq _ 0)) by done. mgo. unfold get_ptr. mgo. by apply (malloc_rest s s l).
Qed.

Lemma free_live s a ap nb b : heap_ok s (a ++ (ap, nb) :: b) → sizes_ok (a ++ b) →
  returns (free ap) s (λ _ s', keeps_live (a ++ b) s s' ∧ heap_ok s' (a ++ b)).
Proof.
  intros [(_ & E & _)|(l & Hi & Hu)] Hsz; [by destruct a|].
  assert (Hin : (ap - 8, units nb) ∈ useds l) by (rewrite Hu, fmap_app, elem_of_app; right; left).
  apply useds_elem, list_elem_of_split in Hin as (l1 & l2 & ->). cbn [fst snd] in *.
  replace ap with (ap - 8 + 8) at 1 by lia. eapply returns_mono; [apply (free_ok _ _ _ _ _ Hi)|].
  intros [] s' (l' & Hi' & Eu & _ & _ & Hk & _).
  assert (Hp : useds (l1 ++ l2) ≡ₚ block_of <$> (a ++ b)).
  { rewrite useds_app, fmap_app in *. cbn in Hu. rewrite <- !Permutation_middle in Hu. by apply Permutation_cons_inv in Hu. }
  split; [by eapply keeps_used_live|]. right. exists l'. by rewrite Eu.
Qed.

(** A client that frees what it was given and writes to it only. *)
Inductive client (s0 : heap) : heap → list (Z * Z) → Prop :=
| c_init : client s0 s0 []
| c_malloc s live nb ap s' :
    client s0 s live → 0 ≤ nb < 2147483600 → malloc nb s = Ok ap s' → ap ≠ 0 → client s0 s' ((ap, nb) :: live)
| c_full s live nb s' :
    client s0 s live → 0 ≤ nb < 2147483600 → malloc nb s = Ok 0 s' → client s0 s' live
| c_free s a ap nb b s' :
    client s0 s (a ++ (ap, nb) :: b) → free ap s = Ok tt s' → client s0 s' (a ++ b)
| c_write s live m :
    client s0 s live → (∀ x, (∀ r, r ∈ live → ¬ r.1 ≤ x < r.1 + r.2) → m x = umem s x) →
    client s0 (s <| umem := m |>) live.

(** Writing to live memory. *)
Lemma heap_ok_write s live m : heap_ok s live → sizes_ok live →
  (∀ x, (∀ r, r ∈ live → ¬ r.1 ≤ x < r.1 + r.2) → m x = umem s x) → heap_ok (s <| umem := m |>) live.
Proof.
  intros Hok Hsz Hm. destruct Hok as [(Hf & -> & Hb & Hk)|(l & [Ht Hsp Hc Hu Hf Hb] & Hp)]; [by left|].
  right. exists l. split; [|done].
  assert (Hhdr : ∀ x, (∀ u, u ∈ useds l → x < u.1 + 8 ∨ u.1 + 8 * u.2 ≤ x) → m x = umem s x).
  { intros x Hx. apply Hm. intros r Hr. unfold sizes_ok in Hsz. rewrite Forall_forall in Hsz.
    destruct (units_range _ (Hsz r Hr)) as (_ & _ & Hle). specialize (Hx (block_of r)). cbn in Hx.
    destruct Hx as [Hx|Hx]; [rewrite Hp; by apply list_elem_of_fmap_2|lia..]. }
  constructor; [done|done| | |done|done]; cbn [umem set].
  - eapply hdrs_ext; [|exact Hc]. intros b i Hbl Hi. apply Hhdr. intros u Hul.
    destruct (used_apart _ _ _ _ Ht Hul Hbl). lia.
  - intros u Hul. rewrite <- (Hu u Hul). apply load32_ext. intros i Hi. apply Hhdr. intros u' Hul'.
    destruct (decide (u' = u)) as [->|Hne]; [lia|]. apply useds_elem in Hul, Hul'.
    destruct (tiles_in _ _ _ _ Ht Hul) as (_ & _ & Hn1). destruct (tiles_in _ _ _ _ Ht Hul') as (_ & _ & Hn2). cbn in Hn1, Hn2.
    destruct (tiles_apart _ _ _ _ _ Ht Hul Hul') as [Ha|Ha]; [|cbn in Ha; lia..].
    intros [= E1 E2]. apply Hne. destruct u, u'. cbn in *. congruence.
Qed.

Lemma client_ok s0 s live : heap_ok s0 [] → client s0 s live → heap_ok s live ∧ sizes_ok live.
Proof.
  intros H0. induction 1 as [|s live nb ap s' _ [IH Hsz] Hnb E Hne|s live nb s' _ [IH Hsz] Hnb E|s a ap nb b s' _ [IH Hsz] E|s live m _ [IH Hsz] Hm].
  - split; [done|constructor].
  - pose proof (returns_eq _ _ _ _ _ (malloc_ok s live nb IH Hsz Hnb) E) as [_ H]. cbn beta in H.
    rewrite (proj2 (Z.eqb_neq ap 0)) in H by done. split; [done|]. by constructor.
  - by pose proof (returns_eq _ _ _ _ _ (malloc_ok s live nb IH Hsz Hnb) E) as (_ & H & _).
  - assert (Hsz' : sizes_ok (a ++ b)).
    { unfold sizes_ok in *. rewrite Forall_app, Forall_cons in Hsz. rewrite Forall_app. tauto. }
    split; [|done]. by pose proof (returns_eq _ _ _ _ _ (free_live s a ap nb b IH Hsz') E) as (_ & H).
  - split; [by apply heap_ok_write|done].
Qed.

Lemma useds_nodup a l e : tiles a l e → NoDup (useds l).
Proof.
  revert a. induction l as [|[x n f] l IH]; intros a; cbn; [intros; constructor|]. intros (-> & Hn & Ht).
  destruct f; cbn; [by eapply IH|]. constructor; [|by eapply IH]. intros Hin%useds_elem.
  apply (tiles_in _ _ _ _ Ht) in Hin. cbn in Hin. lia.
Qed.

(** Live requests do not overlap and lie in the heap. *)
Lemma heap_ok_disjoint s live : heap_ok s live → sizes_ok live →
  (∀ r, r ∈ live → heap0 ≤ r.1 ∧ r.1 + r.2 ≤ brk s) ∧
  ∀ i j r r', i ≠ j → live !! i = Some r → live !! j = Some r' → r.1 + r.2 ≤ r'.1 ∨ r'.1 + r'.2 ≤ r.1.
Proof.
  intros [(_ & -> & _)|(l & [Ht _ _ _ _ _] & Hp)] Hsz; [by split; [intros r ?%not_elem_of_nil|]|].
  assert (Hin : ∀ r, r ∈ live → mkblk (r.1 - 8) (units r.2) false ∈ l ∧ r.2 ≤ 8 * units r.2 - 8).
  { intros r Hr. unfold sizes_ok in Hsz. rewrite Forall_forall in Hsz. destruct (units_range _ (Hsz r Hr)) as (_ & _ & Hle).
    split; [|done]. apply (useds_elem l (block_of r)). rewrite Hp. by apply list_elem_of_fmap_2. }
  split.
  - intros r [Hr Hle]%Hin. apply (tiles_in _ _ _ _ Ht) in Hr. cbn in Hr. lia.
  - intros i j r r' Hij Hi Hj. pose proof (useds_nodup _ _ _ Ht) as Hnd. rewrite Hp in Hnd.
    destruct (Hin r) as [Hr Hle]; [by eapply list_elem_of_lookup_2|]. destruct (Hin r') as [Hr' Hle']; [by eapply list_elem_of_lookup_2|].
    destruct (tiles_apart _ _ _ _ _ Ht Hr Hr') as [Ha|Ha]; [|cbn in Ha; lia..]. intros [= E1 E2]. apply Hij.
    apply (NoDup_lookup _ i j (block_of r) Hnd); rewrite list_lookup_fmap; [by rewrite Hi|]. rewrite Hj. cbn.
    unfold block_of. by rewrite E1, E2.
Qed.

(** C25: The allocator gives every request of fewer than 2147483600 bytes memory of its
    own: whatever a client makes of such requests, frees and writes, its live requests lie in the heap and do not
    overlap; the next [malloc] of that size returns, with memory that is apart from every live
    request, or with 0 when the kernel refuses to grow the heap, and [free] of
    a live request returns; neither changes a byte of a live request. *)
Theorem malloc_free_sound (s0 s : heap) live :
  freep s0 = 0 → brk s0 = heap0 → heap0 ≤ KERNBASE → client s0 s live →
  (∀ i j r r', i ≠ j → live !! i = Some r → live !! j = Some r' → r.1 + r.2 ≤ r'.1 ∨ r'.1 + r'.2 ≤ r.1) ∧
  (∀ r, r ∈ live → heap0 ≤ r.1 ∧ r.1 + r.2 ≤ brk s) ∧
  (∀ nb, 0 ≤ nb < 2147483600 → returns (malloc nb) s (λ ap s', keeps_live live s s' ∧
     (ap = 0 ∧ grow (brk s) (8 * core_units (units nb)) = false ∨
      heap0 ≤ ap ∧ ap + nb ≤ brk s' ∧ ∀ r, r ∈ live → ap + nb ≤ r.1 ∨ r.1 + r.2 ≤ ap))) ∧
  (∀ a ap nb b, live = a ++ (ap, nb) :: b → returns (free ap) s (λ _ s', keeps_live (a ++ b) s s')).
Proof.
  intros Hf Hb Hk Hcl. destruct (client_ok s0 s live) as [Hok Hsz]; [by left|done|].
  destruct (heap_ok_disjoint _ _ Hok Hsz) as [Hin Hdis]. split_and!; [done|done| |].
  - intros nb Hnb. eapply returns_mono; [by apply (malloc_ok s live nb)|]. intros ap s' [Hkp Hap]. split; [done|].
    destruct (Z.eqb_spec ap 0) as [->|Hne]; [left; by destruct Hap|right].
    destruct (heap_ok_disjoint _ _ Hap) as [Hin' Hdis']; [by constructor|].
    destruct (Hin' (ap, nb)) as [H1 H2]; [left|]. split_and!; [done|done|].
    intros r (i & Hr)%list_elem_of_lookup. by apply (Hdis' 0%nat (S i) (ap, nb) r).
  - intros a ap nb b ->. eapply returns_mono; [apply (free_live s a ap nb b Hok)|naive_solver].
    unfold sizes_ok in *. rewrite Forall_app, Forall_cons in Hsz. rewrite Forall_app. tauto.
Qed.
End Umalloc.

(** A process with its data at 4096 and a heap from 8192 on. *)
Definition demo_grow (b n : Z) : bool := b + n <=? KERNBASE.
Definition demo_heap : heap := mkheap (λ _, 0) 0 8192.

Lemma malloc_free_sound_witness : ∃ ap s,
  malloc 4096 demo_grow 100 demo_heap = Ok ap s ∧ 8192 ≤ ap ∧ ap + 100 ≤ brk s ∧
  returns (free ap) s (λ _ s', keeps_live [] s s').
Proof.
  assert (Hg : ∀ b n, demo_grow b n = true → b + n ≤ KERNBASE) by (intros b n; apply Z.leb_le).
  assert (H0 : heap_ok 4096 8192 demo_heap []) by (left; split_and!; [reflexivity..|unfold KERNBASE; lia]).
  pose proof (malloc_ok 4096 demo_grow 8192 ltac:(lia) ltac:(lia) Hg demo_heap [] 100 H0 (Forall_nil_2 _) ltac:(lia)) as H.
  apply returns_ok in H as (ap & s & E & _ & Hap).
  assert (Hne : ap ≠ 0) by (clear -Hap; intros ->; destruct Hap as [_ Hap]; discriminate Hap).
  assert (Hc : client 4096 demo_grow demo_heap s [(ap, 100)]) by (eapply c_malloc; [constructor|lia|exact E|exact Hne]).
  destruct (malloc_free_sound 4096 demo_grow 8192 ltac:(lia) ltac:(lia) Hg demo_heap s [(ap, 100)]) as (_ & Hin & _ & Hfree);
    [reflexivity|reflexivity|unfold KERNBASE; lia|exact Hc|].
  destruct (Hin (ap, 100)) as [H1 H2]; [left|]. exists ap, s. split; [exact E|]. split; [exact H1|]. split; [exact H2|].
  exact (Hfree [] ap 100 [] eq_refl).
Defined.
