(* ===== verification/Grep.v ===== *)
(** grep (grep.c): the matcher for regular expressions with [^], [.], [*] and [$],
    and the loop that prints the matching lines of its input.

    A C string is the list of its characters before the terminator. *)

From S2P Require Import Prelude Ulib.

Definition CARET : Z := 94.
Definition STAR : Z := 42.
Definition DOLLAR : Z := 36.
Definition ANY : Z := 46.
Definition NL : Z := 10.

(** [matchstar(c, re, text)], where [here] is [matchhere(re, -)]. *)
Fixpoint matchstar (c : Z) (here : list Z → bool) (text : list Z) : bool :=
  here text ||
  match text with
  | [] => false
  | t :: text => ((t =? c) || (c =? ANY)) && matchstar c here text
  end.

Fixpoint matchhere (re text : list Z) : bool :=
  match re with
  | [] => true
  | c :: re1 =>
      match re1 with
      | [] =>
          if c =? DOLLAR then match text with [] => true | _ => false end
          else match text with [] => false | t :: _ => (c =? ANY) || (c =? t) end
      | d :: re2 =>
          if d =? STAR then matchstar c (matchhere re2) text
          else match text with
               | [] => false
               | t :: text => ((c =? ANY) || (c =? t)) && matchhere re1 text
               end
      end
  end.

(** The loop of [match]: at every suffix, the empty one included. *)
Fixpoint match_any (re text : list Z) : bool :=
  matchhere re text || match text with [] => false | _ :: text => match_any re text end.

Definition match_ (re text : list Z) : bool :=
  match re with
  | c :: re1 => if c =? CARET then matchhere re1 text else match_any re text
  | [] => match_any re text
  end.

(** The inner loop of [grep] on the buffer [b]: what it prints, and the bytes
    from [p] on. *)
Fixpoint grep_lines (fuel : nat) (pattern b : list Z) : list Z * list Z :=
  match fuel with
  | O => ([], b)
  | S fuel =>
      match strchr b NL with
      | None => ([], b)
      | Some n =>
          let l := take n b in
          let '(out, rest) := grep_lines fuel pattern (drop (S n) b) in
          ((if match_ pattern l then l ++ [NL] else []) ++ out, rest)
      end
  end.

(** [grep(pattern, fd)] on the bytes that the successive [read]s return, the loop
    ending with the first that returns none; [b] are the [m] bytes kept in the
    buffer. *)
Fixpoint grep (pattern b : list Z) (reads : list (list Z)) : list Z :=
  match reads with
  | [] | [] :: _ => []
  | r :: reads =>
      let b := b ++ r in
      let '(out, rest) := grep_lines (length b) pattern b in
      let b := if bool_decide (strchr b NL = None) then [] else rest in
      out ++ grep pattern b reads
  end.

(** ** What a pattern means *)

(** A pattern is a sequence of characters, repeated characters and [$] at its end. *)
Inductive elem := One (c : Z) | Many (c : Z) | End_.

Fixpoint parse (re : list Z) : list elem :=
  match re with
  | [] => []
  | c :: re1 =>
      match re1 with
      | [] => [if c =? DOLLAR then End_ else One c]
      | d :: re2 => if d =? STAR then Many c :: parse re2 else One c :: parse re1
      end
  end.

(** A character of the pattern stands for itself, [.] for any. *)
Definition stands_for (c t : Z) : Prop := c = ANY ∨ c = t.

(** The pattern describes [s], followed by [post]. *)
Inductive describes (post : list Z) : list elem → list Z → Prop :=
| d_nil : describes post [] []
| d_one c t es s : stands_for c t → describes post es s → describes post (One c :: es) (t :: s)
| d_many c r es s : Forall (stands_for c) r → describes post es s → describes post (Many c :: es) (r ++ s)
| d_end es s : s ++ post = [] → describes post es s → describes post (End_ :: es) s.

(** [text] begins with what the pattern describes. *)
Definition begins (es : list elem) (text : list Z) : Prop :=
  ∃ s post, text = s ++ post ∧ describes post es s.

Lemma stands_spec c t : ((c =? ANY) || (c =? t)) = true ↔ stands_for c t.
Proof. unfold stands_for. rewrite orb_true_iff, !Z.eqb_eq. done. Qed.

Lemma begins_one c es text :
  begins (One c :: es) text ↔ ∃ t text', text = t :: text' ∧ stands_for c t ∧ begins es text'.
Proof.
  split.
  - intros (s & post & -> & H). inversion H; subst. eexists _, _. split; [done|]. split; [done|]. by eexists _, _.
  - intros (t & text' & -> & Ht & s & post & -> & H). exists (t :: s), post. split; [done|]. by constructor.
Qed.

Lemma begins_many c es text :
  begins (Many c :: es) text ↔ ∃ r text', text = r ++ text' ∧ Forall (stands_for c) r ∧ begins es text'.
Proof.
  split.
  - intros (s & post & -> & H). inversion H; subst. eexists _, (_ ++ post). rewrite <-app_assoc. split; [done|].
    split; [done|]. by eexists _, _.
  - intros (r & text' & -> & Hr & s & post & -> & H). exists (r ++ s), post. rewrite app_assoc. split; [done|].
    by constructor.
Qed.

Lemma begins_end text : begins [End_] text ↔ text = [].
Proof.
  split.
  - intros (s & post & -> & H). by inversion H; subst.
  - intros ->. exists [], []. split; [done|]. constructor; [done|]. constructor.
Qed.

Lemma matchstar_spec c here es text :
  (∀ text, here text = true ↔ begins es text) →
  matchstar c here text = true ↔ begins (Many c :: es) text.
Proof.
  intros Hh. rewrite begins_many. induction text as [|t text IH]; cbn [matchstar].
  - rewrite orb_false_r, Hh. split.
    + intros H. exists [], []. split; [done|]. split; [constructor|done].
    + intros (r & text' & E & _ & H). symmetry in E. apply app_eq_nil in E as [_ ->]. done.
  - rewrite orb_true_iff, andb_true_iff, IH, Hh. split.
    + intros [H|[Hc (r & text' & -> & Hr & H)]].
      * exists [], (t :: text). split; [done|]. split; [constructor|done].
      * exists (t :: r), text'. split; [done|]. split; [|done]. constructor; [|done].
        unfold stands_for. rewrite orb_true_iff, !Z.eqb_eq in Hc. naive_solver.
    + intros (r & text' & E & Hr & H). destruct r as [|x r]; cbn in E; [left; by rewrite E|right].
      injection E as -> ->. apply Forall_cons in Hr as [Hx Hr]. split.
      * unfold stands_for in Hx. rewrite orb_true_iff, !Z.eqb_eq. naive_solver.
      * by exists r, text'.
Qed.

Lemma matchhere_spec re text : matchhere re text = true ↔ begins (parse re) text.
Proof.
  cut (∀ n re, (length re ≤ n)%nat → ∀ text, matchhere re text = true ↔ begins (parse re) text); [eauto|].
  clear. induction n as [|n IH]; intros [|c re1] Hl text; cbn in Hl; try lia.
  1,2: split; [intros _; exists [], text; split; [done|constructor]|done].
  destruct re1 as [|d re2].
  - cbn. destruct (Z.eqb_spec c DOLLAR).
    + rewrite begins_end. by destruct text.
    + rewrite begins_one. destruct text as [|t text]; [split; [done|]; by intros (? & ? & ? & _)|].
      rewrite stands_spec. split.
      * intros H. exists t, text. split; [done|]. split; [done|]. exists [], text. split; [done|constructor].
      * intros (t' & text' & E & H & _). by simplify_eq.
  - change (matchhere (c :: d :: re2) text) with
      (if d =? STAR then matchstar c (matchhere re2) text
       else match text with [] => false | t :: text => ((c =? ANY) || (c =? t)) && matchhere (d :: re2) text end).
    change (parse (c :: d :: re2)) with (if d =? STAR then Many c :: parse re2 else One c :: parse (d :: re2)).
    destruct (Z.eqb_spec d STAR).
    + apply matchstar_spec. intros text'. apply IH. cbn in Hl. lia.
    + rewrite begins_one. destruct text as [|t text]; [split; [done|]; by intros (? & ? & ? & _)|].
      rewrite andb_true_iff, stands_spec, IH by (cbn in *; lia). split.
      * intros [H1 H2]. by exists t, text.
      * intros (t' & text' & E & H1 & H2). by simplify_eq.
Qed.

Lemma match_any_spec re text :
  match_any re text = true ↔ ∃ pre text', text = pre ++ text' ∧ begins (parse re) text'.
Proof.
  induction text as [|t text IH]; cbn [match_any].
  - rewrite orb_false_r, matchhere_spec. split.
    + intros H. by exists [], [].
    + intros (pre & text' & E & H). symmetry in E. apply app_eq_nil in E as [_ ->]. done.
  - rewrite orb_true_iff, matchhere_spec, IH. split.
    + intros [H|(pre & text' & -> & H)]; [by exists [], (t :: text)|by exists (t :: pre), text'].
    + intros ([|x pre] & text' & E & H); cbn in E; [left; by rewrite E|right]. injection E as -> ->. by exists pre, text'.
Qed.

(** C29: the backtracking matcher decides the language of the pattern: [match]
    returns 1 exactly when some part of the text, for a pattern that begins with
    [^] a part at its beginning, is described by the pattern: a character matches
    itself, [.] every character, [c*] any number of characters that match [c],
    and [$] at the end of the pattern the end of the text. *)
Theorem match_correct re text :
  match_ re text = true ↔
  match re with
  | 94 :: re1 => ∃ s post, text = s ++ post ∧ describes post (parse re1) s
  | _ => ∃ pre s post, text = pre ++ s ++ post ∧ describes post (parse re) s
  end.
Proof.
  assert (H : match_any re text = true ↔ ∃ pre s post, text = pre ++ s ++ post ∧ describes post (parse re) s).
  { rewrite match_any_spec. unfold begins. naive_solver. }
  destruct re as [|c re1]; [done|]. unfold match_. destruct (Z.eqb_spec c CARET) as [->|Hc].
  - rewrite matchhere_spec. done.
  - unfold CARET in Hc. destruct c as [|c|c]; try done. do 7 (destruct c as [c|c|]; try done).
Qed.

(** ** Lines *)

(** The lines of the input, without their newlines, and what follows the last one. *)
Fixpoint split_lines (b : list Z) : list (list Z) * list Z :=
  match b with
  | [] => ([], [])
  | c :: b =>
      let '(ls, rest) := split_lines b in
      if c =? NL then ([] :: ls, rest)
      else match ls with [] => ([], c :: rest) | l :: ls => ((c :: l) :: ls, rest) end
  end.

Definition show (pattern : list Z) (ls : list (list Z)) : list Z :=
  concat ((λ l, if match_ pattern l then l ++ [NL] else []) <$> ls).

Lemma split_no_nl b : NL ∉ b → split_lines b = ([], b).
Proof.
  induction b as [|c b IH]; [done|]. intros [Hc Hb]%not_elem_of_cons. cbn. rewrite IH by done.
  by rewrite (proj2 (Z.eqb_neq c NL)).
Qed.

Lemma split_line l b : NL ∉ l → split_lines (l ++ NL :: b) = (l :: (split_lines b).1, (split_lines b).2).
Proof.
  induction l as [|c l IH]; cbn; [by destruct (split_lines b)|]. intros [Hc Hl]%not_elem_of_cons.
  rewrite IH by done. by rewrite (proj2 (Z.eqb_neq c NL)).
Qed.

Lemma split_app_rest b b' : split_lines (b ++ b') =
  ((split_lines b).1 ++ (split_lines ((split_lines b).2 ++ b')).1, (split_lines ((split_lines b).2 ++ b')).2).
Proof.
  induction b as [|c b IH]; cbn; [by destruct (split_lines b')|]. rewrite IH.
  destruct (split_lines b) as [[|l ls] rest]; cbn.
  - destruct (c =? NL) eqn:Ec; cbn; [done|]. rewrite Ec.
    by destruct (split_lines (rest ++ b')) as [[|l' ls'] rest'].
  - destruct (c =? NL); cbn; done.
Qed.

Lemma split_rest b : NL ∉ (split_lines b).2.
Proof.
  induction b as [|c b IH]; cbn; [apply not_elem_of_nil|]. destruct (split_lines b) as [[|l ls] rest]; cbn in *.
  - destruct (Z.eqb_spec c NL); cbn; [done|]. by apply not_elem_of_cons.
  - by destruct (c =? NL).
Qed.

Lemma grep_lines_spec fuel pattern b : (length b ≤ fuel)%nat → 0 ∉ b →
  grep_lines fuel pattern b = (show pattern (split_lines b).1, (split_lines b).2).
Proof.
  revert b. induction fuel as [|fuel IH]; intros b Hb H0.
  - destruct b; [done|cbn in Hb; lia].
  - cbn [grep_lines]. destruct (strchr b NL) as [n|] eqn:E.
    + apply strchr_Some in E as [Eb Hn].
      assert (El : length b = (length (take n b) + S (length (drop (S n) b)))%nat).
      { rewrite Eb at 1. rewrite length_app. done. }
      rewrite IH; [|lia|intros H; by apply H0, (subseteq_drop (S n))].
      assert (Es : split_lines b = (take n b :: (split_lines (drop (S n) b)).1, (split_lines (drop (S n) b)).2)).
      { rewrite Eb at 1. by apply split_line. }
      by rewrite Es.
    + rewrite split_no_nl; [done|by apply strchr_None].
Qed.

Lemma split_rest_sub b x : x ∈ (split_lines b).2 → x ∈ b.
Proof.
  induction b as [|c b IH]; cbn; [done|]. destruct (split_lines b) as [[|l ls] rest]; cbn in *.
  - destruct (c =? NL); cbn; rewrite ?elem_of_cons; naive_solver.
  - destruct (c =? NL); cbn; rewrite elem_of_cons; naive_solver.
Qed.

(** As long as every [read] returns at least one newline and no zero byte,
    [grep] prints exactly the lines of its whole input that match, in order,
    however the input is cut into reads.  (Without a newline the buffer is
    discarded.) *)
Theorem grep_filters pattern reads :
  Forall (λ r, NL ∈ r ∧ 0 ∉ r) reads →
  grep pattern [] reads = show pattern (split_lines (concat reads)).1.
Proof.
  intros Hr. change (concat reads) with ([] ++ concat reads).
  assert (Hb : NL ∉ @nil Z) by apply not_elem_of_nil. assert (H0 : 0 ∉ @nil Z) by apply not_elem_of_nil.
  revert Hb H0. generalize (@nil Z) as b.
  induction Hr as [|r reads [Hnl Hz] _ IH]; intros b Hb H0; cbn [concat].
  - cbn [grep]. rewrite app_nil_r, split_no_nl by done. done.
  - destruct r as [|x r]; [by apply not_elem_of_nil in Hnl|]. cbn [grep]. set (r' := x :: r) in *.
    assert (Hbr : 0 ∉ b ++ r') by (rewrite elem_of_app; naive_solver).
    rewrite grep_lines_spec by done. rewrite bool_decide_eq_false_2.
    + rewrite IH by (apply split_rest || (intros H; by apply Hbr, split_rest_sub)).
      rewrite app_assoc, (split_app_rest (b ++ r')). cbn [fst].
      unfold show. by rewrite fmap_app, concat_app.
    + intros H. apply (strchr_None _ _ H Hbr), elem_of_app. by right.
Qed.

Lemma grep_filters_witness :
  grep [98; STAR; 97] [] [[98; 98; NL; 99]; [97; NL]] = [99; 97; NL].
Proof. rewrite grep_filters; [done|]. repeat constructor; set_solver. Defined.
