(* ===== verification/Sh.v ===== *)
(** The shell (sh.c): the parser of command lines, on a line in memory.

    A pointer into the line is the rest of the line from there on, so [*s] is its
    first character, the terminator when it is empty, and [s < es] says that it is
    not empty.  A parser runs on the pointer [*ps] as its state. *)

From S2P Require Import Prelude Ulib.

Definition MAXARGS : Z := 10.

(** ** Commands

    [struct cmd] and its cases, over a type [P] of strings: a pair of pointers
    [(q, eq)] while parsing, the string itself when the command runs. *)
Inductive cmd (P : Type) : Type :=
| EXEC (argv : list P)
| REDIR (c : cmd P) (file : P) (mode fd : Z)
| PIPE (left right : cmd P)
| LIST (left right : cmd P)
| BACK (c : cmd P).
Arguments EXEC {P} argv.
Arguments REDIR {P} c file mode fd.
Arguments PIPE {P} left right.
Arguments LIST {P} left right.
Arguments BACK {P} c.

Fixpoint cmd_map {P Q} (f : P → Q) (c : cmd P) : cmd Q :=
  match c with
  | EXEC argv => EXEC (f <$> argv)
  | REDIR c file mode fd => REDIR (cmd_map f c) (f file) mode fd
  | PIPE l r => PIPE (cmd_map f l) (cmd_map f r)
  | LIST l r => LIST (cmd_map f l) (cmd_map f r)
  | BACK c => BACK (cmd_map f c)
  end.

(** All strings of a command. *)
Fixpoint strings {P} (c : cmd P) : list P :=
  match c with
  | EXEC argv => argv
  | REDIR c file _ _ => strings c ++ [file]
  | PIPE l r | LIST l r => strings l ++ strings r
  | BACK c => strings c
  end.

(** ** Tokens *)

Definition whitespace : list Z := [32; 9; 13; 10; 11].
Definition symbols : list Z := chars "<|>&;()".

Definition is_space (c : Z) : bool := in_str whitespace c.
Definition is_word (c : Z) : bool := negb (in_str whitespace c) && negb (in_str symbols c).

Abbreviation ptr := (list Z) (only parsing).

(** [while(s < es && strchr(whitespace, *s)) s++;] *)
Fixpoint skip_space (s : ptr) : ptr :=
  match s with
  | c :: s' => if is_space c then skip_space s' else s
  | [] => []
  end.

Fixpoint skip_word (s : ptr) : ptr :=
  match s with
  | c :: s' => if is_word c then skip_word s' else s
  | [] => []
  end.

Definition BAR : Z := 124.
Definition LPAR : Z := 40.
Definition RPAR : Z := 41.
Definition SEMI : Z := 59.
Definition AMP : Z := 38.
Definition LESS : Z := 60.
Definition GREATER : Z := 62.
Definition PLUS : Z := 43.
Definition WORD : Z := 97.

(** The token at [s], which is not a space: [ret], [*eq]. *)
Definition token (s : ptr) : Z * ptr :=
  match s with
  | [] => (0, s)
  | c :: r =>
      if (c =? BAR) || (c =? LPAR) || (c =? RPAR) || (c =? SEMI) || (c =? AMP) || (c =? LESS) then (c, r)
      else if c =? GREATER then
        match r with
        | d :: r' => if d =? GREATER then (PLUS, r') else (c, r)
        | [] => (c, r)
        end
      else (WORD, skip_word s)
  end.

(** [gettoken(ps, es, q, eq)]: the kind of token, [*q] and [*eq]. *)
Definition gettoken : M ptr (Z * ptr * ptr) := λ s,
  let q := skip_space s in
  let '(ret, eq) := token q in
  Ok (ret, q, eq) (skip_space eq).

Definition peek (toks : string) : M ptr bool := λ s,
  let s := skip_space s in
  Ok (match s with [] => false | c :: _ => in_str (chars toks) c end) s.

(** ** The parser

    Each loop stops because an iteration consumes a token; its fuel is the length
    of the line that is left. *)

Definition cmdp : Type := cmd (ptr * ptr).

(** [O_RDONLY] and [O_WRONLY|O_CREATE] of fcntl.h *)
Definition READ_MODE : Z := 0.
Definition WRITE_MODE : Z := Z.lor 1 512.

Definition redirect (tok : Z) (c : cmdp) (q eq : ptr) : cmdp :=
  if tok =? LESS then REDIR c (q, eq) READ_MODE 0 else REDIR c (q, eq) WRITE_MODE 1.

Fixpoint redirs_loop (fuel : nat) (c : cmdp) : M ptr cmdp :=
  match fuel with
  | O => λ _, NoFuel
  | S fuel =>
      b ← peek "<>";
      if negb b then mret c else
      '(tok, _, _) ← gettoken;
      '(w, q, eq) ← gettoken;
      if negb (w =? WORD) then panic "missing file for redirection" else
      redirs_loop fuel (redirect tok c q eq)
  end.

Definition parseredirs (c : cmdp) : M ptr cmdp :=
  n ← gets length; redirs_loop (S n) c.

(** [cmd->argv[argc] = q; cmd->eargv[argc] = eq], where [cmd] is the [EXEC] inside
    the redirections of [ret]. *)
Fixpoint add_arg (q eq : ptr) (ret : cmdp) : cmdp :=
  match ret with
  | EXEC argv => EXEC (argv ++ [(q, eq)])
  | REDIR c file mode fd => REDIR (add_arg q eq c) file mode fd
  | _ => ret
  end.

Fixpoint args_loop (fuel : nat) (argc : Z) (ret : cmdp) : M ptr cmdp :=
  match fuel with
  | O => λ _, NoFuel
  | S fuel =>
      b ← peek "|)&;";
      if b : bool then mret ret else
      '(tok, q, eq) ← gettoken;
      if tok =? 0 then mret ret else
      if negb (tok =? WORD) then panic "syntax" else
      let ret := add_arg q eq ret in
      if MAXARGS <=? argc + 1 then panic "too many args" else
      ret ← parseredirs ret;
      args_loop fuel (argc + 1) ret
  end.

Section Parse.
Context (parseline : M ptr cmdp).

Definition parseblock : M ptr cmdp :=
  b ← peek "(";
  if negb b then panic "parseblock" else
  _ ← gettoken;
  c ← parseline;
  b ← peek ")";
  if negb b then panic "syntax - missing )" else
  _ ← gettoken;
  parseredirs c.

Definition parseexec : M ptr cmdp :=
  b ← peek "(";
  if b : bool then parseblock else
  ret ← parseredirs (EXEC []);
  n ← gets length;
  args_loop (S n) 0 ret.

Fixpoint parsepipe (fuel : nat) : M ptr cmdp :=
  match fuel with
  | O => λ _, NoFuel
  | S fuel =>
      c ← parseexec;
      b ← peek "|";
      if negb b then mret c else
      _ ← gettoken;
      r ← parsepipe fuel;
      mret (PIPE c r)
  end.
End Parse.

(** [while(peek(ps, es, "&")) ... cmd = backcmd(cmd);] *)
Fixpoint back_loop (fuel : nat) (c : cmdp) : M ptr cmdp :=
  match fuel with
  | O => λ _, NoFuel
  | S fuel =>
      b ← peek "&";
      if negb b then mret c else
      _ ← gettoken;
      back_loop fuel (BACK c)
  end.

Definition parseback (parseline : M ptr cmdp) : M ptr cmdp :=
  n ← gets length;
  c ← parsepipe parseline (S n);
  n ← gets length;
  back_loop (S n) c.

Fixpoint parseline (fuel : nat) : M ptr cmdp :=
  match fuel with
  | O => λ _, NoFuel
  | S fuel =>
      c ← parseback (parseline fuel);
      b ← peek ";";
      if negb b then mret c else
      _ ← gettoken;
      r ← parseline fuel;
      mret (LIST c r)
  end.

(** ** The whole command line *)

(** The index of a pointer into a line of [n] characters, and the string there. *)
Definition offset (n : nat) (p : ptr) : nat := n - length p.
Definition string_at (n : nat) (buf : list Z) (p : ptr) : list Z := cstr (drop (offset n p) buf).

(** [*eq = 0] *)
Definition terminate (n : nat) (buf : list Z) (s : ptr * ptr) : list Z := <[offset n s.2 := 0]> buf.

Fixpoint nulterminate (n : nat) (c : cmdp) (buf : list Z) : list Z :=
  match c with
  | EXEC argv => foldl (terminate n) buf argv
  | REDIR c file _ _ => terminate n (nulterminate n c buf) file
  | PIPE l r => nulterminate n r (nulterminate n l buf)
  | LIST l r => nulterminate n r (nulterminate n l buf)
  | BACK c => nulterminate n c buf
  end.

(** [parsecmd(s)] on the memory [buf] at [s]: the command with its strings as they
    are in the memory afterwards. *)
Definition parsecmd : M (list Z) (cmd (list Z)) := λ buf,
  let s := cstr buf in
  let n := length s in
  match parseline (S n) s with
  | Ok c rest =>
      if bool_decide (skip_space rest ≠ []) then Panic "syntax" else
      let buf := nulterminate n c buf in
      Ok (cmd_map (λ p, string_at n buf p.1) c) buf
  | Panic msg => Panic msg
  | Block _ => Block buf
  | Undef why => Undef why
  | NoFuel => NoFuel
  end.

(** ** Every line is parsed or refused *)

(** [m] ends from [s] with a result that satisfies [Q] or with a message. *)
Definition parses {S A} (m : M S A) (s : S) (Q : A → S → Prop) : Prop :=
  match m s with Ok a s' => Q a s' | Panic _ => True | _ => False end.

Section ParsesRules.
Context {S : Type}.

Lemma parses_ret {A} (a : A) (s : S) (Q : A → S → Prop) : Q a s → parses (mret a) s Q.
Proof. done. Qed.

Lemma parses_panic {A} msg (s : S) (Q : A → S → Prop) : parses (panic msg) s Q.
Proof. done. Qed.

Lemma parses_gets {A} (f : S → A) (s : S) (Q : A → S → Prop) : Q (f s) s → parses (gets f) s Q.
Proof. done. Qed.

Lemma parses_bind {A B} (m : M S A) (k : A → M S B) s Q :
  parses m s (λ a s', parses (k a) s' Q) → parses (m ≫= k) s Q.
Proof. unfold parses, mbind, M_bind. destruct (m s); done. Qed.

Lemma parses_mono {A} (m : M S A) s (P Q : A → S → Prop) :
  parses m s P → (∀ a s', P a s' → Q a s') → parses m s Q.
Proof. unfold parses. destruct (m s); naive_solver. Qed.
End ParsesRules.

(** The first character is not part of a word. *)
Definition stops (s : ptr) : Prop := match s with [] => True | c :: _ => is_word c = false end.

(** [(q, eq)] are the ends of a whole word of the line. *)
Definition good (line : ptr) (p : ptr * ptr) : Prop :=
  ∃ pre w, line = pre ++ w ++ p.2 ∧ p.1 = w ++ p.2 ∧ w ≠ [] ∧ Forall (λ c, is_word c = true) w ∧ stops p.2.

(** Fewer than [MAXARGS] arguments everywhere. *)
Fixpoint args_fit {P} (c : cmd P) : Prop :=
  match c with
  | EXEC argv => Z.of_nat (length argv) < MAXARGS
  | REDIR c _ _ _ | BACK c => args_fit c
  | PIPE l r | LIST l r => args_fit l ∧ args_fit r
  end.

Definition wf_cmd (line : ptr) (c : cmdp) : Prop := Forall (good line) (strings c) ∧ args_fit c.

Lemma skip_space_suffix s : skip_space s `suffix_of` s.
Proof. induction s as [|c s IH]; cbn; [done|]. case_match; [by apply suffix_cons_r|done]. Qed.

Lemma skip_space_hd c s s' : skip_space s = c :: s' → is_space c = false.
Proof. induction s as [|d s IH]; cbn; [done|]. destruct (is_space d) eqn:E; [done|]. by intros [= -> _]. Qed.

Lemma skip_space_idemp s : skip_space (skip_space s) = skip_space s.
Proof.
  destruct (skip_space s) as [|c s'] eqn:E; [done|]. cbn. by rewrite (skip_space_hd _ _ _ E).
Qed.

Lemma skip_word_split s : ∃ w, s = w ++ skip_word s ∧ Forall (λ c, is_word c = true) w ∧ stops (skip_word s).
Proof.
  induction s as [|c s (w & Es & Hw & Hs)]; [by exists []|]. cbn. destruct (is_word c) eqn:E.
  - exists (c :: w). cbn. rewrite <- Es. split_and!; [done|by constructor|done].
  - exists []. by cbn.
Qed.

Lemma symbols_spec c : in_str symbols c = true ↔
  c = LESS ∨ c = BAR ∨ c = GREATER ∨ c = AMP ∨ c = SEMI ∨ c = LPAR ∨ c = RPAR.
Proof. rewrite in_str_spec by set_solver. unfold symbols. cbn. set_solver. Qed.

(** What [token] returns. *)
Lemma token_spec s ret eq : (∀ c s', s = c :: s' → is_space c = false) → token s = (ret, eq) →
  eq `suffix_of` s ∧ (ret = 0 ↔ s = []) ∧ (s ≠ [] → (length eq < length s)%nat) ∧
  (ret = WORD → ∃ w, s = w ++ eq ∧ w ≠ [] ∧ Forall (λ c, is_word c = true) w ∧ stops eq).
Proof.
  intros Hsp. destruct s as [|c r]; cbn [token]; [by intros [= <- <-]|]. specialize (Hsp c r eq_refl).
  assert (Hr : r `suffix_of` c :: r) by by apply suffix_cons_r.
  destruct (_ || _) eqn:E1.
  { intros [= <- <-]. rewrite !orb_true_iff, !Z.eqb_eq in E1. unfold BAR, LPAR, RPAR, SEMI, AMP, LESS, WORD in *.
    split_and!; [done|split; [lia|done]|cbn; lia|lia]. }
  destruct (Z.eqb_spec c GREATER) as [->|Hg].
  { destruct r as [|d r]; [|destruct (d =? GREATER)]; intros [= <- <-];
      (split_and!; [try done|done|cbn; lia|done]). by do 2 apply suffix_cons_r. }
  intros [= <- <-]. destruct (skip_word_split (c :: r)) as (w & Es & Hw & Hst).
  assert (Hc : is_word c = true).
  { unfold is_word. unfold is_space in Hsp. rewrite Hsp. cbn. apply negb_true_iff, not_true_iff_false.
    rewrite symbols_spec. rewrite !orb_false_iff, !Z.eqb_neq in E1. intuition. }
  assert (Hne : w ≠ []).
  { intros ->. rewrite app_nil_l in Es. cbn in Es. rewrite Hc in Es. destruct (skip_word_split r) as (w & Er & _).
    apply (f_equal length) in Er, Es. rewrite length_app in Er. cbn in Es. lia. }
  split_and!; [by exists w|done| |by exists w].
  intros _. rewrite Es at 2. rewrite length_app. destruct w; cbn; [done|lia].
Qed.

(** Chains of suffixes. *)
Ltac suf :=
  lazymatch goal with
  | |- ?a `suffix_of` ?b =>
      first [ reflexivity | assumption
            | match goal with H : a `suffix_of` ?c |- _ => apply (transitivity H); suf end
            | match a with skip_space ?c => apply (transitivity (skip_space_suffix c)); suf end ]
  end.

Section Safety.
Context (line : ptr).

(** The result of a parser that started at [s]. *)
Definition parsed (s : ptr) (c : cmdp) (s' : ptr) : Prop := s' `suffix_of` s ∧ wf_cmd line c.

Lemma suffix_shorter (s s' : ptr) : s' `suffix_of` s → (length s' ≤ length s)%nat.
Proof. intros [w ->]. rewrite length_app. lia. Qed.

Lemma parses_gettoken s (Q : _ → ptr → Prop) : s `suffix_of` line →
  (∀ ret q eq s', s' `suffix_of` s → (ret = 0 ↔ skip_space s = []) →
     (skip_space s ≠ [] → (length s' < length s)%nat) → (ret = WORD → good line (q, eq)) → Q (ret, q, eq) s') →
  parses gettoken s Q.
Proof.
  intros Hs HQ. unfold parses, gettoken. destruct (token (skip_space s)) as [ret eq] eqn:E.
  apply token_spec in E as (Hsuf & H0 & Hlt & Hw); [|intros c s'; apply skip_space_hd].
  pose proof (skip_space_suffix s) as Hsp. pose proof (skip_space_suffix eq) as Hsp'.
  apply HQ; [suf|done| |].
  - intros Hne%Hlt. pose proof (suffix_shorter _ _ Hsp). pose proof (suffix_shorter _ _ Hsp'). lia.
  - intros (w & Eq & Hne & Hw' & Hst)%Hw. destruct (transitivity Hsp Hs) as [pre Epre].
    exists pre, w. cbn. rewrite <- Eq. done.
Qed.

Lemma parses_peek toks s (Q : _ → ptr → Prop) :
  (∀ b, (b = true → skip_space s ≠ []) → Q b (skip_space s)) → parses (peek toks) s Q.
Proof. intros HQ. apply HQ. by destruct (skip_space s). Qed.

Lemma wf_redirect tok c q eq : wf_cmd line c → good line (q, eq) → wf_cmd line (redirect tok c q eq).
Proof.
  intros [Hs Ha] Hg. unfold redirect. case_match; (split; [|done]); cbn; apply Forall_app; auto.
Qed.

(** The arguments of the [EXEC] inside redirections. *)
Fixpoint inner {P} (c : cmd P) : option (list P) :=
  match c with EXEC argv => Some argv | REDIR c _ _ _ => inner c | _ => None end.

Lemma inner_redirect tok c q eq : inner (redirect tok c q eq) = inner c.
Proof. unfold redirect. by case_match. Qed.

Lemma inner_add q eq c argv : inner c = Some argv → inner (add_arg q eq c) = Some (argv ++ [(q, eq)]).
Proof. induction c; cbn; try done. naive_solver. Qed.

Lemma wf_add q eq c argv : wf_cmd line c → good line (q, eq) → inner c = Some argv →
  Z.of_nat (length argv) + 1 < MAXARGS → wf_cmd line (add_arg q eq c).
Proof.
  intros [Hs Ha] Hg. revert Hs Ha. induction c as [argv'|c IH file mode fd| | |]; cbn; try done.
  - intros Hs Ha [= <-] Hlt. split; cbn; [apply Forall_app; auto|]. rewrite length_app. cbn. lia.
  - intros [Hs Hf]%Forall_app Ha Hi Hlt. destruct (IH Hs Ha Hi Hlt) as [Hs' Ha'].
    split; [|done]. cbn. apply Forall_app. auto.
Qed.

Lemma wf_exec : wf_cmd line (EXEC []).
Proof. by split. Qed.

Lemma parses_redirs_loop fuel c s : (length s < fuel)%nat → s `suffix_of` line → wf_cmd line c →
  parses (redirs_loop fuel c) s (λ c' s', parsed s c' s' ∧ inner c' = inner c).
Proof.
  revert c s. induction fuel as [|fuel IH]; intros c s Hf Hs Hc; [lia|]. cbn [redirs_loop].
  pose proof (skip_space_suffix s) as Hsp.
  apply parses_bind, parses_peek. intros b Hb. destruct b; cbn [negb]; [|by apply parses_ret].
  apply parses_bind, parses_gettoken; [suf|]. intros tok q1 eq1 s1 Hs1 _ Hlt _.
  rewrite skip_space_idemp in Hlt. specialize (Hlt (Hb eq_refl)).
  pose proof (suffix_shorter _ _ Hsp). assert (s1 `suffix_of` line) by suf.
  apply parses_bind, parses_gettoken; [done|]. intros w q eq s2 Hs2 _ _ Hg.
  destruct (Z.eqb_spec w WORD); cbn [negb]; [|apply parses_panic].
  pose proof (suffix_shorter _ _ Hs2).
  eapply parses_mono; [apply IH; [lia|suf|apply wf_redirect; auto]|].
  intros c' s' [[Hs' Hc'] Hi]. rewrite inner_redirect in Hi. split; [|done]. split; [|done].
  suf.
Qed.

Lemma parses_redirs c s : s `suffix_of` line → wf_cmd line c →
  parses (parseredirs c) s (λ c' s', parsed s c' s' ∧ inner c' = inner c).
Proof. intros. apply parses_bind, parses_gets, parses_redirs_loop; [lia|done..]. Qed.

Lemma parses_args_loop fuel argc c argv s : (length s < fuel)%nat → s `suffix_of` line → wf_cmd line c →
  inner c = Some argv → Z.of_nat (length argv) = argc →
  parses (args_loop fuel argc c) s (parsed s).
Proof.
  revert argc c argv s. induction fuel as [|fuel IH]; intros argc c argv s Hf Hs Hc Hi Ha; [lia|].
  cbn [args_loop]. pose proof (skip_space_suffix s) as Hsp. pose proof (suffix_shorter _ _ Hsp).
  apply parses_bind, parses_peek. intros b _. destruct b; [by apply parses_ret|].
  apply parses_bind, parses_gettoken; [suf|]. intros tok q eq s1 Hs1 H0 Hlt Hg.
  destruct (Z.eqb_spec tok 0) as [->|Hne].
  { apply parses_ret. split; [suf|done]. }
  rewrite skip_space_idemp in *. assert (length s1 < length (skip_space s))%nat by (apply Hlt; naive_solver).
  destruct (Z.eqb_spec tok WORD) as [->|]; cbn [negb]; [|apply parses_panic].
  destruct (Z.leb_spec MAXARGS (argc + 1)); [apply parses_panic|].
  apply parses_bind. eapply parses_mono.
  { apply parses_redirs; [suf|]. eapply wf_add; eauto. lia. }
  intros c' s' [[Hs' Hc'] Hi']. erewrite inner_add in Hi' by done. pose proof (suffix_shorter _ _ Hs').
  eapply parses_mono; [eapply IH; [lia|suf|done|done|rewrite length_app; cbn; lia]|].
  intros c2 s2 [Hs2 Hc2]. split; [|done]. suf.
Qed.

(** What the recursive call promises on strictly shorter rests. *)
Definition sound_below (pl : M ptr cmdp) (n : nat) : Prop :=
  ∀ s, (length s < n)%nat → s `suffix_of` line → parses pl s (parsed s).

Lemma parses_exec pl s : sound_below pl (length s) → s `suffix_of` line → parses (parseexec pl) s (parsed s).
Proof.
  intros Hpl Hs. unfold parseexec. pose proof (skip_space_suffix s) as Hsp. pose proof (suffix_shorter _ _ Hsp).
  apply parses_bind, parses_peek. intros b Hb. destruct b.
  - unfold parseblock. apply parses_bind, parses_peek. intros b2 _. rewrite skip_space_idemp.
    destruct b2; cbn [negb]; [|apply parses_panic].
    apply parses_bind, parses_gettoken; [suf|]. intros tok q eq s1 Hs1 _ Hlt _.
    rewrite skip_space_idemp in Hlt. specialize (Hlt (Hb eq_refl)).
    apply parses_bind. eapply parses_mono; [apply Hpl; [lia|suf]|].
    intros c s2 [Hs2 Hc]. apply parses_bind, parses_peek. intros b3 _. destruct b3; cbn [negb]; [|apply parses_panic].
    assert (skip_space s2 `suffix_of` s) by (pose proof (skip_space_suffix s2); suf).
    apply parses_bind, parses_gettoken; [suf|]. intros tok' q' eq' s3 Hs3 _ _ _.
    assert (s3 `suffix_of` s) by suf.
    eapply parses_mono; [apply parses_redirs; [suf|done]|]. intros c' s' [[Hs' Hc'] _].
    split; [suf|done].
  - apply parses_bind. eapply parses_mono; [apply parses_redirs; [suf|apply wf_exec]|].
    intros c s1 [[Hs1 Hc] Hi]. apply parses_bind, parses_gets.
    eapply parses_mono; [eapply (parses_args_loop _ 0 _ []); [lia|suf|done|done|done]|].
    intros c' s' [Hs' Hc']. split; [suf|done].
Qed.

Lemma wf_pair (mk : cmdp → cmdp → cmdp) l r : (mk = PIPE ∨ mk = LIST) →
  wf_cmd line l → wf_cmd line r → wf_cmd line (mk l r).
Proof. intros [->| ->] [] []; (split; cbn; [by apply Forall_app|done]). Qed.

Lemma sound_below_le pl m n : sound_below pl n → (m ≤ n)%nat → sound_below pl m.
Proof. intros H Hm s Hs. apply H. lia. Qed.

Lemma parses_pipe pl fuel s : (length s < fuel)%nat → sound_below pl (length s) → s `suffix_of` line →
  parses (parsepipe pl fuel) s (parsed s).
Proof.
  revert s. induction fuel as [|fuel IH]; intros s Hf Hpl Hs; [lia|]. cbn [parsepipe].
  apply parses_bind. eapply parses_mono; [by apply parses_exec|]. intros c s1 [Hs1 Hc].
  pose proof (suffix_shorter _ _ Hs1). pose proof (suffix_shorter _ _ (skip_space_suffix s1)).
  apply parses_bind, parses_peek. intros b Hb. destruct b; cbn [negb]; [|apply parses_ret; split; [suf|done]].
  apply parses_bind, parses_gettoken; [suf|]. intros tok q eq s2 Hs2 _ Hlt _.
  rewrite skip_space_idemp in Hlt. specialize (Hlt (Hb eq_refl)).
  apply parses_bind. eapply parses_mono; [apply IH; [lia|eapply sound_below_le; [done|lia]|suf]|].
  intros r s3 [Hs3 Hr]. apply parses_ret. split; [suf|by apply wf_pair; [left|..]].
Qed.

Lemma parses_back_loop fuel c s : (length s < fuel)%nat → s `suffix_of` line → wf_cmd line c →
  parses (back_loop fuel c) s (parsed s).
Proof.
  revert c s. induction fuel as [|fuel IH]; intros c s Hf Hs Hc; [lia|]. cbn [back_loop].
  pose proof (suffix_shorter _ _ (skip_space_suffix s)).
  apply parses_bind, parses_peek. intros b Hb. destruct b; cbn [negb]; [|apply parses_ret; split; [suf|done]].
  apply parses_bind, parses_gettoken; [suf|]. intros tok q eq s2 Hs2 _ Hlt _.
  rewrite skip_space_idemp in Hlt. specialize (Hlt (Hb eq_refl)).
  eapply parses_mono; [apply IH; [lia|suf|done]|]. intros c' s' [Hs' Hc']. split; [suf|done].
Qed.

Lemma parses_line fuel : sound_below (parseline fuel) fuel.
Proof.
  induction fuel as [|fuel IH]; intros s Hf Hs; [lia|]. cbn [parseline].
  apply parses_bind. apply parses_bind, parses_gets, parses_bind. eapply parses_mono.
  { apply parses_pipe; [lia|eapply sound_below_le; [done|lia]|done]. }
  intros c s1 [Hs1 Hc]. apply parses_bind, parses_gets.
  eapply parses_mono; [apply parses_back_loop; [lia|suf|done]|]. intros c1 s2 [Hs2 Hc1].
  pose proof (suffix_shorter _ _ (skip_space_suffix s2)).
  pose proof (suffix_shorter _ _ Hs1). pose proof (suffix_shorter _ _ Hs2).
  apply parses_bind, parses_peek. intros b Hb. destruct b; cbn [negb]; [|apply parses_ret; split; [suf|done]].
  apply parses_bind, parses_gettoken; [suf|]. intros tok q eq s3 Hs3 _ Hlt _.
  rewrite skip_space_idemp in Hlt. specialize (Hlt (Hb eq_refl)).
  apply parses_bind. eapply parses_mono; [apply IH; [lia|suf]|]. intros r s4 [Hs4 Hr].
  apply parses_ret. split; [suf|by apply wf_pair; [right|..]].
Qed.
End Safety.

(** ** The strings of a parsed command *)

Lemma nulterminate_all n c buf : nulterminate n c buf = foldl (terminate n) buf (strings c).
Proof.
  revert buf. induction c as [argv|c IH file mode fd|l IHl r IHr|l IHl r IHr|c IH]; intros buf; cbn;
    rewrite ?foldl_app; cbn; congruence.
Qed.

Lemma cstr_lookup b w : 0 ∉ w → (∀ i x, w !! i = Some x → b !! i = Some x) → b !! length w = Some 0 → cstr b = w.
Proof.
  revert b. induction w as [|c w IH]; intros b Hz Hw Hend.
  - destruct b as [|x b]; [done|]. by simplify_eq/=.
  - apply not_elem_of_cons in Hz as [Hc Hz]. destruct b as [|x b]; [done|]. cbn in *.
    pose proof (Hw 0%nat c eq_refl). simplify_eq/=. rewrite (proj2 (Z.eqb_neq _ 0)) by done.
    f_equal. apply IH; [done| |done]. intros i y. apply (Hw (S i)).
Qed.

Section Strings.
Context (line junk : list Z).
#[local] Abbreviation n := (length line).

(** Only ends of words have been overwritten, with zeros. *)
Definition cut (buf : list Z) : Prop :=
  length buf = length (line ++ 0 :: junk) ∧
  ∀ i x, buf !! i = Some x → (line ++ 0 :: junk) !! i = Some x ∨ (x = 0 ∧ stops (drop i line)).

Lemma offset_good pre w eq : line = pre ++ w ++ eq → offset n eq = length (pre ++ w) ∧ offset n (w ++ eq) = length pre.
Proof. intros E. unfold offset. rewrite E, !length_app. lia. Qed.

Lemma cut_terminate buf p : cut buf → good line p → cut (terminate n buf p).
Proof.
  intros [Hl Hb] (pre & w & El & Eq & _ & _ & Hst). destruct (offset_good _ _ _ El) as [Ho _].
  split; [by unfold terminate; rewrite length_insert|]. intros i x. unfold terminate. rewrite Ho.
  intros [(<- & <- & _)|[_ Hi]]%list_lookup_insert_Some; [right|by apply Hb].
  split; [done|]. rewrite El at 1. by rewrite app_assoc, drop_app_length.
Qed.

Lemma zero_terminate buf p i : buf !! i = Some 0 → terminate n buf p !! i = Some 0.
Proof.
  intros Hi. unfold terminate. apply lookup_lt_Some in Hi as Hlt.
  destruct (decide (offset n p.2 = i)) as [->|]; [by apply list_lookup_insert_eq|by rewrite list_lookup_insert_ne].
Qed.

Lemma cut_all ps buf : Forall (good line) ps → cut buf →
  let buf' := foldl (terminate n) buf ps in
  cut buf' ∧ (∀ i, buf !! i = Some 0 → buf' !! i = Some 0) ∧ Forall (λ p, buf' !! offset n p.2 = Some 0) ps.
Proof.
  intros Hps. revert buf. induction Hps as [|p ps Hp Hps IH]; intros buf Hc; cbn; [done|].
  destruct (IH (terminate n buf p)) as (Hc' & Hz & Ha); [by apply cut_terminate|].
  split_and!; [done|intros i Hi; by apply Hz, zero_terminate|]. constructor; [|done].
  apply Hz. unfold terminate. apply list_lookup_insert_eq.
  destruct Hc as [Hl _]. rewrite Hl, length_app. cbn. unfold offset. lia.
Qed.

Lemma string_at_good buf p : 0 ∉ line → cut buf → good line p → buf !! offset n p.2 = Some 0 →
  ∃ w, p.1 = w ++ p.2 ∧ string_at n buf p.1 = w.
Proof.
  intros Hz [Hl Hb] (pre & w & El & Eq & Hne & Hw & _) He. exists w. split; [done|].
  destruct (offset_good _ _ _ El) as [Ho Ho']. unfold string_at. rewrite Eq, Ho'.
  apply cstr_lookup.
  - intros H. apply Hz. rewrite El, !elem_of_app. auto.
  - intros i x Hi. rewrite lookup_drop. pose proof (lookup_lt_Some _ _ _ Hi) as Hlt.
    assert (Hx : line !! (length pre + i)%nat = Some x).
    { rewrite El, lookup_app_r, lookup_app_l by lia. by replace (length pre + i - length pre)%nat with i by lia. }
    pose proof (lookup_lt_Some _ _ _ Hx) as Hlt'.
    destruct (lookup_lt_is_Some_2 buf (length pre + i)%nat) as [y Hy]; [rewrite Hl, length_app; lia|].
    rewrite Hy. destruct (Hb _ _ Hy) as [Hy'|[_ Hst]].
    + rewrite lookup_app_l in Hy' by done. congruence.
    + rewrite (drop_S _ x) in Hst by done. cbn in Hst. rewrite Forall_lookup in Hw. apply Hw in Hi. congruence.
  - rewrite lookup_drop. rewrite Ho, length_app in He. done.
Qed.
End Strings.

(** The word between two pointers. *)
Definition word (p : ptr * ptr) : list Z := take (length p.1 - length p.2) p.1.
Arguments word : simpl never.

Lemma word_app w eq : word (w ++ eq, eq) = w.
Proof. unfold word. cbn. rewrite length_app. replace (_ - _)%nat with (length w) by lia. apply take_app_length. Qed.

Lemma cmd_map_ext {P Q} (f g : P → Q) c : Forall (λ p, f p = g p) (strings c) → cmd_map f c = cmd_map g c.
Proof.
  induction c as [argv|c IH file mode fd|l IHl r IHr|l IHl r IHr|c IH]; cbn.
  - intros H. f_equal. by apply Forall_fmap_ext.
  - intros [Hc Hf]%Forall_app. rewrite Forall_singleton in Hf. by rewrite IH, Hf by done.
  - intros [Hl Hr]%Forall_app. by rewrite IHl, IHr.
  - intros [Hl Hr]%Forall_app. by rewrite IHl, IHr.
  - intros H. by rewrite IH.
Qed.

Lemma strings_map {P Q} (f : P → Q) c : strings (cmd_map f c) = f <$> strings c.
Proof. induction c; cbn; rewrite ?fmap_app; cbn; congruence. Qed.

Lemma args_fit_map {P Q} (f : P → Q) c : args_fit (cmd_map f c) ↔ args_fit c.
Proof. induction c; cbn; rewrite ?length_fmap; tauto. Qed.

(** The strings of the command are the words the parser found. *)
Lemma parsed_strings line junk c : 0 ∉ line → wf_cmd line c →
  let n := length line in let buf := nulterminate n c (line ++ 0 :: junk) in
  cmd_map (λ p, string_at n buf p.1) c = cmd_map word c.
Proof.
  intros Hz [Hg _] n buf. apply cmd_map_ext. unfold buf. rewrite nulterminate_all.
  destruct (cut_all line junk (strings c) (line ++ 0 :: junk)) as (Hc & _ & Ha); [done|by split; auto|].
  rewrite Forall_forall in Hg, Ha |- *. intros p Hp.
  destruct (string_at_good line junk _ p Hz Hc (Hg p Hp) (Ha p Hp)) as (w & Ep & Es).
  etrans; [exact Es|]. destruct p as [q eq]. cbn in Ep. subst q. by rewrite word_app.
Qed.

Lemma parsecmd_run line junk : 0 ∉ line →
  parsecmd (line ++ 0 :: junk) =
  match parseline (S (length line)) line with
  | Ok c rest =>
      if bool_decide (skip_space rest ≠ []) then Panic "syntax" else
      Ok (cmd_map word c) (nulterminate (length line) c (line ++ 0 :: junk))
  | Panic msg => Panic msg
  | Block _ => Block (line ++ 0 :: junk)
  | Undef why => Undef why
  | NoFuel => NoFuel
  end.
Proof.
  intros Hz. unfold parsecmd. rewrite cstr_app by done.
  pose proof (parses_line line (S (length line)) line ltac:(lia) ltac:(suf)) as H. unfold parses in H.
  destruct (parseline _ line) as [c rest| | | |]; try done. destruct H as [_ Hc].
  case_bool_decide; [done|]. by rewrite (parsed_strings line junk).
Qed.

(** Parsing ends in a command or a syntax error. *)
Lemma parsecmd_parsed line : 0 ∉ line →
  match parseline (S (length line)) line with Ok _ _ | Panic _ => True | _ => False end.
Proof.
  intros Hz. pose proof (parses_line line (S (length line)) line ltac:(lia) ltac:(suf)) as H. unfold parses in H.
  by destruct (parseline _ line).
Qed.

(** C27: [parsecmd] ends for every line, in a command or a syntax error.  Every
    string of the command is a whole word of the line, although [nulterminate]
    has written into the line, and no [argv] overflows. *)
Theorem parsecmd_total line junk : 0 ∉ line →
  match parsecmd (line ++ 0 :: junk) with
  | Ok c _ =>
      args_fit c ∧
      Forall (λ w, w ≠ [] ∧ Forall (λ x, is_word x = true) w ∧
                   ∃ pre post, line = pre ++ w ++ post ∧ stops post) (strings c)
  | Panic _ => True
  | _ => False
  end.
Proof.
  intros Hz. rewrite parsecmd_run by done.
  pose proof (parses_line line (S (length line)) line ltac:(lia) ltac:(suf)) as H. unfold parses in H.
  destruct (parseline _ line) as [c rest| | | |]; try done. destruct H as [_ [Hg Ha]].
  case_bool_decide; [done|]. rewrite args_fit_map, strings_map. split; [done|].
  apply Forall_fmap. eapply Forall_impl; [exact Hg|]. intros [q eq] (pre & w & El & Eq & Hne & Hw & Hst).
  cbn in El, Eq, Hst. subst q. unfold compose. rewrite word_app. naive_solver.
Qed.

Lemma parsecmd_total_witness :
  match parsecmd (chars "cat < x | (sort; wc) > y &" ++ [10] ++ 0 :: [7; 7]) with
  | Ok c _ => c = BACK (PIPE (REDIR (EXEC [chars "cat"]) (chars "x") READ_MODE 0)
                             (REDIR (LIST (EXEC [chars "sort"]) (EXEC [chars "wc"])) (chars "y") WRITE_MODE 1)) ∧ args_fit c
  | _ => False
  end.
Proof.
  pose proof (parsecmd_total (chars "cat < x | (sort; wc) > y &" ++ [10]) [7; 7]) as H.
  specialize (H ltac:(by apply (bool_decide_eq_true_1 _))). rewrite <- app_assoc in H.
  destruct (parsecmd _) as [c b| | | |] eqn:E in H |- *; try by vm_compute in E.
  split; [|apply H]. vm_compute in E. by inversion E.
Defined.

(** ** Printing commands

    [print 3] writes a command as a line, with parentheses where the grammar needs
    them: level 0 is an argument of [|], level 1 one of [&], level 2 one of [;]. *)

Definition word_text (w : list Z) : list Z := w ++ [32].
Definition redir_text (file : list Z) (fd : Z) : list Z :=
  (if fd =? 0 then LESS else GREATER) :: 32 :: word_text file.

Definition parens (b : bool) (s : list Z) : list Z :=
  if b then LPAR :: 32 :: s ++ [RPAR; 32] else s.

Fixpoint print (level : Z) (c : cmd (list Z)) : list Z :=
  match c with
  | EXEC argv => concat (word_text <$> argv)
  | REDIR c file _ fd => print 0 c ++ redir_text file fd
  | PIPE l r => parens (level <? 1) (print 0 l ++ BAR :: 32 :: print 1 r)
  | BACK c => parens (level <? 2) (print 2 c ++ [AMP; 32])
  | LIST l r => parens (level <? 3) (print 2 l ++ SEMI :: 32 :: print 3 r)
  end.

Definition word_ok (w : list Z) : Prop := w ≠ [] ∧ Forall (λ x, is_word x = true) w ∧ 0 ∉ w.

#[export] Instance word_ok_dec w : Decision (word_ok w) := ltac:(unfold word_ok; apply _).

(** The commands the shell can represent: at most nine arguments, words without
    spaces and symbols, and the two kinds of redirection. *)
Fixpoint redirs_ok {P} (c : cmd P) : Prop :=
  match c with
  | EXEC _ => True
  | REDIR c _ mode fd => (mode = READ_MODE ∧ fd = 0 ∨ mode = WRITE_MODE ∧ fd = 1) ∧ redirs_ok c
  | PIPE l r | LIST l r => redirs_ok l ∧ redirs_ok r
  | BACK c => redirs_ok c
  end.

Definition printable (c : cmd (list Z)) : Prop := Forall word_ok (strings c) ∧ args_fit c ∧ redirs_ok c.

(** [m] reads the command [c] from [s] up to [rest]. *)
Definition reads (m : M ptr cmdp) (s : ptr) (c : cmd (list Z)) (rest : ptr) : Prop :=
  ∃ c', m s = Ok c' (skip_space rest) ∧ cmd_map word c' = c.

(** What follows is the end or one of [toks]. *)
Definition next_in (toks : string) (s : ptr) : Prop :=
  match skip_space s with [] => True | c :: _ => in_str (chars toks) c = true end.

(** [m] runs to [Ok a s'] and then [k] from there. *)
Lemma bind_run {A B} (m : M ptr A) (k : A → M ptr B) s a s' : m s = Ok a s' → (m ≫= k) s = k a s'.
Proof. unfold mbind, M_bind. by intros ->. Qed.

Lemma peek_other toks T s : next_in T s → forallb (λ c, negb (in_str (chars toks) c)) (chars T) = true →
  0 ∉ chars T → peek toks s = Ok false (skip_space s).
Proof.
  intros Hs HT Hz. unfold peek, next_in in *. destruct (skip_space s) as [|c s']; [done|].
  apply in_str_spec in Hs; [|done]. rewrite forallb_forall in HT.
  apply list_elem_of_In, HT, negb_true_iff in Hs. by rewrite Hs.
Qed.

Lemma next_in_sub T T' s : next_in T s → Forall (λ c, in_str (chars T') c = true) (chars T) → 0 ∉ chars T → next_in T' s.
Proof.
  unfold next_in. destruct (skip_space s); [done|]. intros Hc HT Hz. apply in_str_spec in Hc; [|done].
  rewrite Forall_forall in HT. auto.
Qed.

Lemma word_char c : is_word c = true → is_space c = false ∧ in_str symbols c = false.
Proof. unfold is_word, is_space. rewrite andb_true_iff, !negb_true_iff. done. Qed.

Lemma word_hd w s : word_ok w → ∃ c w', w = c :: w' ∧ is_word c = true ∧ skip_space (w ++ s) = w ++ s.
Proof.
  intros (Hne & Hw & _). destruct w as [|c w]; [done|]. apply Forall_cons in Hw as [Hc Hw].
  exists c, w. cbn. by destruct (word_char c Hc) as [-> _].
Qed.

Lemma peek_word toks w s : word_ok w → forallb (in_str symbols) (chars toks) = true → 0 ∉ chars toks →
  peek toks (w ++ s) = Ok false (w ++ s).
Proof.
  intros Hw HT Hz. destruct (word_hd w s Hw) as (c & w' & -> & Hc & Hs). unfold peek. rewrite Hs. cbn [app].
  f_equal. apply not_true_iff_false. rewrite in_str_spec by done. intros Hin.
  rewrite forallb_forall in HT. apply list_elem_of_In, HT in Hin. destruct (word_char c Hc). congruence.
Qed.

Lemma skip_word_app w s : Forall (λ x, is_word x = true) w → skip_word (w ++ 32 :: s) = 32 :: s.
Proof. induction 1 as [|c w Hc _ IH]; cbn; [done|by rewrite Hc]. Qed.

Lemma gettoken_word w s : word_ok w →
  gettoken (word_text w ++ s) = Ok (WORD, w ++ 32 :: s, 32 :: s) (skip_space s).
Proof.
  intros Hw. unfold word_text. rewrite <- app_assoc. cbn [app].
  destruct (word_hd w (32 :: s) Hw) as (c & w' & Ew & Hc & Hs). unfold gettoken. rewrite Hs.
  assert (Et : token (w ++ 32 :: s) = (WORD, skip_word (w ++ 32 :: s))).
  { rewrite Ew. cbn [app token]. apply word_char in Hc as [_ Hc]. apply not_true_iff_false in Hc.
    rewrite symbols_spec in Hc. rewrite (proj2 (orb_false_iff _ _)), (proj2 (Z.eqb_neq c GREATER));
      [done|intuition|rewrite !orb_false_iff, !Z.eqb_neq; intuition]. }
  rewrite Et, skip_word_app by apply Hw. done.
Qed.

(** *** Reading back: redirections and arguments *)

(** A file, its mode and its descriptor. *)
Abbreviation redir := (list Z * Z * Z)%type (only parsing).
Definition wrap (c : cmd (list Z)) (r : redir) : cmd (list Z) := REDIR c r.1.1 r.1.2 r.2.
Definition redir_ok (r : redir) : Prop :=
  word_ok r.1.1 ∧ (r.1.2 = READ_MODE ∧ r.2 = 0 ∨ r.1.2 = WRITE_MODE ∧ r.2 = 1).
Definition redirs_text (rs : list redir) : list Z := concat ((λ r, redir_text r.1.1 r.2) <$> rs).

Lemma redirs_text_length rs : (length rs ≤ length (redirs_text rs))%nat.
Proof. unfold redirs_text. induction rs as [|r rs IH]; cbn; [lia|]. rewrite !length_app. lia. Qed.

Lemma words_text_length ws : (length ws ≤ length (concat (word_text <$> ws)))%nat.
Proof. unfold word_text. induction ws as [|w ws IH]; cbn; [done|]. rewrite !length_app in *. cbn. lia. Qed.

Lemma peek_yes toks c s : is_space c = false → in_str (chars toks) c = true → peek toks (c :: s) = Ok true (c :: s).
Proof. intros Hc Ht. unfold peek. cbn [skip_space]. by rewrite Hc, Ht. Qed.

Lemma gettoken_symbol c s : is_space c = false → token (c :: 32 :: s) = (c, 32 :: s) →
  gettoken (c :: 32 :: s) = Ok (c, c :: 32 :: s, 32 :: s) (skip_space s).
Proof. intros Hc Ht. unfold gettoken. cbn [skip_space]. rewrite Hc, Ht. done. Qed.

Lemma skip_word_text w s : word_ok w → skip_space (word_text w ++ s) = word_text w ++ s.
Proof. intros Hw. unfold word_text. rewrite <- app_assoc. by destruct (word_hd w ([32] ++ s) Hw) as (? & ? & ? & ? & ?). Qed.

(** Running [peek] and [gettoken] on a symbol. *)
Ltac peek_symbol := erewrite (bind_run (peek _)) by (apply peek_yes; reflexivity); cbn [negb].
Ltac get_symbol := erewrite (bind_run gettoken) by (apply gettoken_symbol; reflexivity).

(** One step of [parseredirs] on a printed redirection. *)
Lemma redirs_loop_step fuel c r s : redir_ok r →
  ∃ q eq, redirs_loop (S fuel) c (redir_text r.1.1 r.2 ++ s) =
          redirs_loop fuel (REDIR c (q, eq) r.1.2 r.2) (skip_space s) ∧ word (q, eq) = r.1.1.
Proof.
  destruct r as [[file mode] fd]. intros [Hw Hm]. cbn [fst snd] in *. exists (file ++ 32 :: s), (32 :: s).
  split; [|apply word_app]. unfold redir_text. destruct Hm as [[-> ->]|[-> ->]].
  all: cbn [Z.eqb app redirs_loop]; peek_symbol.
  all: get_symbol; rewrite skip_word_text by done.
  all: by rewrite (bind_run _ _ _ _ _ (gettoken_word _ _ Hw)).
Qed.

Lemma redirs_loop_skip fuel c s : redirs_loop fuel c (skip_space s) = redirs_loop fuel c s.
Proof.
  destruct fuel; [done|]. cbn [redirs_loop]. unfold mbind, M_bind at 1 3, peek. by rewrite skip_space_idemp.
Qed.

Lemma redirs_loop_reads rs fuel c rest : Forall redir_ok rs → (length rs < fuel)%nat →
  peek "<>" rest = Ok false (skip_space rest) →
  ∃ c', redirs_loop fuel c (redirs_text rs ++ rest) = Ok c' (skip_space rest) ∧
        cmd_map word c' = foldl wrap (cmd_map word c) rs ∧ inner c' = inner c.
Proof.
  intros Hrs Hf Hrest. revert c fuel Hf. induction Hrs as [|r rs Hr Hrs IH]; intros c [|fuel] Hf; cbn [length] in Hf; try lia.
  - exists c. split; [|done]. cbn [redirs_loop]. by rewrite (bind_run _ _ _ _ _ Hrest).
  - change (redirs_text (r :: rs)) with (redir_text r.1.1 r.2 ++ redirs_text rs). rewrite <- app_assoc.
    destruct (redirs_loop_step fuel c r (redirs_text rs ++ rest) Hr) as (q & eq & -> & Hw).
    rewrite redirs_loop_skip. destruct (IH (REDIR c (q, eq) r.1.2 r.2) fuel ltac:(lia)) as (c' & E & Hc' & Hi).
    exists c'. split_and!; [done| |done]. rewrite Hc'. cbn. by rewrite Hw.
Qed.

(** The end of a simple command. *)
Lemma args_end fuel argc ret s : next_in "|)&;" s → args_loop (S fuel) argc ret s = Ok ret (skip_space s).
Proof.
  intros Hs. cbn [args_loop]. unfold next_in in Hs. unfold mbind, M_bind at 1, peek.
  destruct (skip_space s) as [|c s'] eqn:E; [done|]. by rewrite Hs.
Qed.

Definition words_text (ws : list (list Z)) : list Z := concat (word_text <$> ws).

Lemma words_text_cons w ws s : words_text (w :: ws) ++ s = word_text w ++ words_text ws ++ s.
Proof. unfold words_text. cbn. by rewrite <- app_assoc. Qed.

(** The first character of what follows the arguments. *)
Lemma peek_redirs toks rs rest : Forall redir_ok rs → next_in "|)&;" rest →
  forallb (λ c, negb (in_str (chars toks) c)) (chars "|)&;<>") = true →
  peek toks (redirs_text rs ++ rest) = Ok false (skip_space (redirs_text rs ++ rest)).
Proof.
  intros Hrs Hrest HT. apply (peek_other toks "|)&;<>"); [|done|by apply (bool_decide_eq_true_1 _)].
  destruct Hrs as [|[[file mode] fd] rs [_ Hm] _].
  - cbn [redirs_text fmap list_fmap concat app]. eapply next_in_sub; [done|by repeat constructor|by apply (bool_decide_eq_true_1 _)].
  - cbn in Hm. destruct Hm as [[-> ->]|[-> ->]]; done.
Qed.

Lemma args_loop_step fuel argc ret w s : word_ok w → argc + 1 < MAXARGS →
  args_loop (S fuel) argc ret (word_text w ++ s) =
  (ret ← parseredirs (add_arg (w ++ 32 :: s) (32 :: s) ret); args_loop fuel (argc + 1) ret) (skip_space s).
Proof.
  intros Hw Ha. cbn [args_loop].
  assert (Ep : peek "|)&;" (word_text w ++ s) = Ok false (word_text w ++ s)).
  { unfold word_text. rewrite <- app_assoc. by apply peek_word; [done..|apply (bool_decide_eq_true_1 _)]. }
  rewrite (bind_run _ _ _ _ _ Ep), (bind_run _ _ _ _ _ (gettoken_word _ _ Hw)).
  cbn [Z.eqb WORD negb]. by rewrite (proj2 (Z.leb_gt MAXARGS _)).
Qed.

Lemma parseredirs_none c s : peek "<>" s = Ok false (skip_space s) → parseredirs c s = Ok c (skip_space s).
Proof. intros Hp. unfold parseredirs, mbind, M_bind, gets. cbn [redirs_loop]. by rewrite (bind_run _ _ _ _ _ Hp). Qed.

Lemma parseredirs_reads rs c rest : Forall redir_ok rs → peek "<>" rest = Ok false (skip_space rest) →
  ∃ c', parseredirs c (skip_space (redirs_text rs ++ rest)) = Ok c' (skip_space rest) ∧
        cmd_map word c' = foldl wrap (cmd_map word c) rs ∧ inner c' = inner c.
Proof.
  intros Hrs Hrest. unfold parseredirs, mbind, M_bind, gets. rewrite redirs_loop_skip.
  apply redirs_loop_reads; [done| |done]. destruct Hrs as [|[[file mode] fd] rs [_ Hm] _]; cbn [length]; [lia|].
  assert (E : skip_space (redirs_text ((file, mode, fd) :: rs) ++ rest) = redirs_text ((file, mode, fd) :: rs) ++ rest).
  { cbn in Hm. destruct Hm as [[-> ->]|[-> ->]]; done. }
  rewrite E, length_app. pose proof (redirs_text_length ((file, mode, fd) :: rs)) as Hl. cbn [length] in Hl. lia.
Qed.

Lemma args_loop_reads w ws fuel argc argv rs rest : Forall word_ok (w :: ws) → Forall redir_ok rs →
  (length (w :: ws) < fuel)%nat → argc = Z.of_nat (length argv) →
  Z.of_nat (length argv) + Z.of_nat (length (w :: ws)) < MAXARGS → next_in "|)&;" rest →
  reads (args_loop fuel argc (EXEC argv)) (words_text (w :: ws) ++ redirs_text rs ++ rest)
        (foldl wrap (EXEC ((word <$> argv) ++ w :: ws)) rs) rest.
Proof.
  intros Hws Hrs. revert w fuel argc argv Hws.
  induction ws as [|w' ws IH]; intros w [|fuel] argc argv [Hw Hws]%Forall_cons Hf -> Hn Hrest;
    cbn [length] in Hf, Hn; try lia.
  all: unfold reads; rewrite words_text_cons, args_loop_step by (done || lia); cbn [add_arg].
  - destruct fuel as [|fuel]; [lia|]. cbn [words_text fmap list_fmap concat app].
    assert (Hp : peek "<>" rest = Ok false (skip_space rest)).
    { by apply (peek_other _ "|)&;"); [done..|apply (bool_decide_eq_true_1 _)]. }
    destruct (parseredirs_reads rs (EXEC (argv ++ [(w ++ 32 :: redirs_text rs ++ rest, 32 :: redirs_text rs ++ rest)]))
      rest Hrs Hp) as (c' & E & Hc' & _).
    rewrite (bind_run _ _ _ _ _ E). exists c'. rewrite args_end by (unfold next_in; by rewrite skip_space_idemp).
    rewrite skip_space_idemp. split; [done|]. rewrite Hc'. cbn [cmd_map].
    rewrite fmap_app. cbn. by rewrite word_app.
  - set (s := words_text (w' :: ws) ++ redirs_text rs ++ rest).
    assert (Hs : skip_space s = s).
    { unfold s. rewrite words_text_cons. apply skip_word_text. by apply Forall_cons in Hws as [? _]. }
    assert (Hp : peek "<>" s = Ok false (skip_space s)).
    { rewrite Hs. unfold s. rewrite words_text_cons. unfold word_text. rewrite <- app_assoc.
      apply peek_word; [by apply Forall_cons in Hws as [? _]|done|by apply (bool_decide_eq_true_1 _)]. }
    rewrite Hs, (bind_run _ _ _ _ _ (parseredirs_none _ _ Hp)), Hs.
    replace ((word <$> argv) ++ w :: w' :: ws) with ((word <$> argv ++ [(w ++ 32 :: s, 32 :: s)]) ++ w' :: ws)
      by (rewrite fmap_app; cbn; by rewrite word_app, <- app_assoc).
    apply IH; [done|cbn [length]; lia| |rewrite length_app; cbn [length]; lia|done].
    rewrite length_app. cbn [length]. lia.
Qed.

(** *** Reading back: the levels of the grammar *)

(** Parsers look at what comes after spaces. *)
Definition same (s t : ptr) : Prop := skip_space s = skip_space t.

Lemma peek_same toks s t : same s t → peek toks s = peek toks t.
Proof. unfold same, peek. by intros ->. Qed.

Lemma next_in_skip T s : next_in T s → next_in T (skip_space s).
Proof. unfold next_in. by rewrite skip_space_idemp. Qed.

Lemma skip_space_length s : (length (skip_space s) ≤ length s)%nat.
Proof. apply suffix_shorter, skip_space_suffix. Qed.

Lemma exec_reads pl ws rs rest s : Forall word_ok ws → Z.of_nat (length ws) < MAXARGS → Forall redir_ok rs →
  next_in "|)&;" rest → same s (words_text ws ++ redirs_text rs ++ rest) →
  reads (parseexec pl) s (foldl wrap (EXEC ws) rs) rest.
Proof.
  intros Hws Hn Hrs Hrest Hs. unfold reads, parseexec.
  assert (Hr : peek "<>" rest = Ok false (skip_space rest))
    by by apply (peek_other _ "|)&;"); [done..|apply (bool_decide_eq_true_1 _)].
  destruct ws as [|w ws].
  - rewrite (bind_run _ _ _ false (skip_space s)).
    2:{ rewrite (peek_same _ _ _ Hs), Hs. by apply peek_redirs. }
    rewrite Hs. destruct (parseredirs_reads rs (EXEC []) rest Hrs Hr) as (c' & E & Hc' & _).
    cbn [words_text fmap list_fmap concat app]. rewrite (bind_run _ _ _ _ _ E). exists c'.
    unfold mbind, M_bind, gets. rewrite args_end by by apply next_in_skip.
    by rewrite skip_space_idemp.
  - apply Forall_cons in Hws as Hw. destruct Hw as [Hw _].
    set (t := words_text (w :: ws) ++ redirs_text rs ++ rest) in *.
    assert (Et : skip_space t = t) by (unfold t; rewrite words_text_cons; by apply skip_word_text).
    assert (Hp : ∀ toks, forallb (in_str symbols) (chars toks) = true → 0 ∉ chars toks → peek toks t = Ok false t).
    { intros toks H1 H2. unfold t. rewrite words_text_cons. unfold word_text. rewrite <- app_assoc. by apply peek_word. }
    rewrite (bind_run _ _ _ false t).
    2:{ rewrite (peek_same _ _ _ Hs). apply Hp; [done|by apply (bool_decide_eq_true_1 _)]. }
    cbn beta iota. rewrite (bind_run (parseredirs _) _ _ (EXEC []) t).
    2:{ rewrite parseredirs_none; rewrite Et; [done|]. apply Hp; [done|by apply (bool_decide_eq_true_1 _)]. }
    change (((n ← gets length; args_loop (S n) 0 (EXEC [])) : M ptr cmdp) t) with (args_loop (S (length t)) 0 (EXEC []) t).
    apply (args_loop_reads w ws _ 0 [] rs rest); try done.
    unfold t. rewrite length_app. pose proof (words_text_length (w :: ws)). unfold words_text. lia.
Qed.

Lemma block_reads pl c T rs rest s : Forall redir_ok rs → next_in "|)&;" rest →
  same s (LPAR :: 32 :: T ++ RPAR :: 32 :: redirs_text rs ++ rest) →
  (∀ s1 rest1, same s1 (T ++ rest1) → (length s1 < length s)%nat → next_in ")" rest1 → reads pl s1 c rest1) →
  reads (parseexec pl) s (foldl wrap c rs) rest.
Proof.
  intros Hrs Hrest Hs Hpl. unfold reads, parseexec, parseblock.
  set (r := redirs_text rs ++ rest) in *. set (t := LPAR :: 32 :: T ++ RPAR :: 32 :: r) in *.
  assert (Et : peek "(" t = Ok true t) by by apply peek_yes.
  rewrite (bind_run _ _ _ true t) by by rewrite (peek_same _ _ _ Hs).
  cbn beta iota. rewrite (bind_run _ _ _ _ _ Et). cbn [negb]. unfold t at 1. get_symbol.
  pose proof (skip_space_length s) as Hl. rewrite Hs in Hl. change (skip_space t) with t in Hl.
  destruct (Hpl (skip_space (T ++ RPAR :: 32 :: r)) (RPAR :: 32 :: r)) as (c1 & E1 & Hc1).
  { apply skip_space_idemp. }
  { pose proof (skip_space_length (T ++ RPAR :: 32 :: r)). unfold t in Hl. cbn [length] in Hl. lia. }
  { done. }
  rewrite (bind_run _ _ _ _ _ E1). change (skip_space (RPAR :: 32 :: r)) with (RPAR :: 32 :: r).
  peek_symbol. get_symbol. unfold r.
  destruct (parseredirs_reads rs c1 rest Hrs) as (c' & E & Hc' & _).
  { by apply (peek_other _ "|)&;"); [done..|apply (bool_decide_eq_true_1 _)]. }
  exists c'. split; [done|]. by rewrite Hc', Hc1.
Qed.

(** What reading back means at each level. *)
Definition L0 (c : cmd (list Z)) : Prop := ∀ fuel s rest, same s (print 0 c ++ rest) →
  (length s ≤ fuel)%nat → next_in "|)&;" rest → reads (parseexec (parseline fuel)) s c rest.
Definition L1 (c : cmd (list Z)) : Prop := ∀ fuel f s rest, same s (print 1 c ++ rest) →
  (length s ≤ fuel)%nat → (length s < f)%nat → next_in ")&;" rest → reads (parsepipe (parseline fuel) f) s c rest.
Definition L2 (c : cmd (list Z)) : Prop := ∀ fuel s rest, same s (print 2 c ++ rest) →
  (length s ≤ fuel)%nat → next_in ");" rest → reads (parseback (parseline fuel)) s c rest.
Definition L3 (c : cmd (list Z)) : Prop := ∀ fuel s rest, same s (print 3 c ++ rest) →
  (length s < fuel)%nat → next_in ")" rest → reads (parseline fuel) s c rest.

(** Side conditions on sets of characters. *)
Ltac closed := solve [ done | repeat constructor | by apply (bool_decide_eq_true_1 _) ].

(** One level up: nothing of the upper level follows. *)
Lemma L0_L1 c : print 1 c = print 0 c → L0 c → L1 c.
Proof.
  intros Ep H0 fuel [|f] s rest Hs Hl Hf Hr; [lia|]. rewrite Ep in Hs.
  destruct (H0 fuel s rest Hs Hl) as (c' & E & Hc'); [eapply next_in_sub; [done|closed..]|].
  exists c'. split; [|done]. cbn [parsepipe]. rewrite (bind_run _ _ _ _ _ E).
  rewrite (bind_run _ _ _ false (skip_space rest)); [done|].
  rewrite (peek_other _ ")&;"), ?skip_space_idemp; [done|by apply next_in_skip|closed..].
Qed.

(** [k] times in the background. *)
Fixpoint backs {P} (k : nat) (c : cmd P) : cmd P := match k with O => c | S k => BACK (backs k c) end.
Fixpoint amps (k : nat) : list Z := match k with O => [] | S k => AMP :: 32 :: amps k end.

Lemma backs_r {P} k (c : cmd P) : backs k (BACK c) = BACK (backs k c).
Proof. induction k; cbn; congruence. Qed.

Lemma amps_r k : amps k ++ [AMP; 32] = amps (S k).
Proof. induction k as [|k IH]; cbn in *; congruence. Qed.

Lemma amps_length k rest : (k ≤ length (skip_space (amps k ++ rest)))%nat.
Proof.
  destruct k as [|k]; [lia|]. change (skip_space (amps (S k) ++ rest)) with (amps (S k) ++ rest).
  rewrite length_app. apply Nat.le_trans with (length (amps (S k))); [|lia].
  generalize (S k). clear. intros k. induction k; cbn; lia.
Qed.

Lemma backs_map {P Q} (f : P → Q) k c : cmd_map f (backs k c) = backs k (cmd_map f c).
Proof. induction k; cbn; congruence. Qed.

Lemma back_loop_reads k fuel c s rest : same s (amps k ++ rest) → next_in ");" rest → (k < fuel)%nat →
  back_loop fuel c s = Ok (backs k c) (skip_space rest).
Proof.
  revert fuel c s. induction k as [|k IH]; intros [|fuel] c s Hs Hr Hf; try lia; cbn [back_loop].
  - rewrite (bind_run _ _ _ false (skip_space rest)); [done|].
    rewrite (peek_same _ _ _ Hs). cbn [amps app]. by apply (peek_other _ ");"); [done|closed..].
  - cbn [amps app] in Hs. rewrite (bind_run _ _ _ true (AMP :: 32 :: amps k ++ rest)).
    2:{ rewrite (peek_same _ _ _ Hs). by apply peek_yes. }
    cbn [negb]. get_symbol. cbn [backs]. rewrite <- backs_r. apply IH; [apply skip_space_idemp|done|lia].
Qed.

Lemma L1_L2 c k : print 2 c = print 1 c → L1 c → L2 (backs k c).
Proof.
  intros Ep H1 fuel s rest Hs Hl Hr.
  assert (Et : print 2 (backs k c) = print 1 c ++ amps k).
  { clear Hs. induction k as [|k IH]; [by cbn; rewrite app_nil_r|]. rewrite <- amps_r, app_assoc, <- IH. done. }
  rewrite Et, <- app_assoc in Hs. unfold reads, parseback.
  rewrite (bind_run (gets length) _ s _ s eq_refl).
  destruct (H1 fuel (S (length s)) s (amps k ++ rest) Hs Hl) as (c' & E & Hc'); [lia| |].
  { destruct k; [|done]. eapply next_in_sub; [done|closed..]. }
  rewrite (bind_run _ _ _ _ _ E), (bind_run (gets length) _ _ _ _ eq_refl).
  exists (backs k c'). rewrite backs_map, Hc'. split; [|done].
  apply back_loop_reads; [apply skip_space_idemp|done|]. pose proof (amps_length k rest). lia.
Qed.

Lemma L2_L3 c : print 3 c = print 2 c → L2 c → L3 c.
Proof.
  intros Ep H2 [|fuel] s rest Hs Hf Hr; [lia|]. rewrite Ep in Hs.
  destruct (H2 fuel s rest Hs) as (c' & E & Hc'); [lia|eapply next_in_sub; [done|closed..]|].
  exists c'. split; [|done]. cbn [parseline]. rewrite (bind_run _ _ _ _ _ E).
  rewrite (bind_run _ _ _ false (skip_space rest)); [done|].
  rewrite (peek_other _ ")"), ?skip_space_idemp; [done|by apply next_in_skip|closed..].
Qed.

(** A symbol in the text bounds what follows it. *)
Lemma same_shorter s A c t : same s (A ++ c :: 32 :: t) → is_space c = false → (length (skip_space t) < length s)%nat.
Proof.
  intros Hs Hc. pose proof (skip_space_length s) as H1. rewrite Hs in H1. pose proof (skip_space_length t).
  enough (length (c :: 32%Z :: t) ≤ length (skip_space (A ++ c :: 32%Z :: t)))%nat by (cbn [length] in *; lia).
  clear - Hc. induction A as [|a A IH]; cbn [app skip_space]; [by rewrite Hc|].
  destruct (is_space a); [done|]. cbn [length app]. rewrite length_app. cbn [length]. lia.
Qed.

(** The operators. *)
Lemma L1_pipe l r : L0 l → L1 r → L1 (PIPE l r).
Proof.
  intros Hl Hr fuel [|f] s rest Hs Hlen Hf Hrest; [lia|]. cbn in Hs. rewrite <- app_assoc in Hs. cbn [app] in Hs.
  destruct (Hl fuel s _ Hs Hlen) as (l' & El & Hl'); [done|]. apply same_shorter in Hs; [|done].
  destruct (Hr fuel f (skip_space (print 1 r ++ rest)) rest) as (r' & Er & Hr'); [apply skip_space_idemp|lia|lia|done|].
  exists (PIPE l' r'). split; [|cbn; congruence]. cbn [parsepipe]. rewrite (bind_run _ _ _ _ _ El).
  change (skip_space (BAR :: 32 :: ?x)) with (BAR :: 32 :: x). peek_symbol. get_symbol.
  by rewrite (bind_run _ _ _ _ _ Er).
Qed.

Lemma L3_list l r : L2 l → L3 r → L3 (LIST l r).
Proof.
  intros Hl Hr [|fuel] s rest Hs Hlen Hrest; [lia|]. cbn in Hs. rewrite <- app_assoc in Hs. cbn [app] in Hs.
  destruct (Hl fuel s _ Hs ltac:(lia)) as (l' & El & Hl'); [done|]. apply same_shorter in Hs; [|done].
  destruct (Hr fuel (skip_space (print 3 r ++ rest)) rest) as (r' & Er & Hr'); [apply skip_space_idemp|lia|done|].
  exists (LIST l' r'). split; [|cbn; congruence]. cbn [parseline]. rewrite (bind_run _ _ _ _ _ El).
  change (skip_space (SEMI :: 32 :: ?x)) with (SEMI :: 32 :: x). peek_symbol. get_symbol.
  by rewrite (bind_run _ _ _ _ _ Er).
Qed.

Lemma print_wraps c rs : print 0 (foldl wrap c rs) = print 0 c ++ redirs_text rs.
Proof.
  induction rs as [|[[file mode] fd] rs IH] using rev_ind; [by cbn; rewrite app_nil_r|].
  rewrite foldl_app. cbn [foldl wrap print]. rewrite IH. unfold redirs_text.
  rewrite fmap_app, concat_app. cbn [fmap list_fmap concat fst snd app]. by rewrite app_nil_r, app_assoc.
Qed.

(** A command in parentheses, with redirections after it. *)
Lemma L3_L0 c rs : L3 c → Forall redir_ok rs → print 0 c = parens true (print 3 c) → L0 (foldl wrap c rs).
Proof.
  intros H3 Hrs Ep fuel s rest Hs Hlen Hrest.
  assert (Et : print 0 (foldl wrap c rs) = LPAR :: 32 :: print 3 c ++ RPAR :: 32 :: redirs_text rs).
  { rewrite print_wraps, Ep. cbn. by rewrite <- app_assoc. }
  rewrite Et in Hs. cbn [app] in Hs. rewrite <- app_assoc in Hs. cbn [app] in Hs.
  eapply block_reads; [done|done|exact Hs|]. intros s1 rest1 Hs1 Hl1 Hr1. apply H3; [done|lia|done].
Qed.

Lemma L0_exec ws rs : Forall word_ok ws → Z.of_nat (length ws) < MAXARGS → Forall redir_ok rs →
  L0 (foldl wrap (EXEC ws) rs).
Proof.
  intros Hws Hn Hrs fuel s rest Hs Hlen Hrest. apply exec_reads; try done.
  by rewrite print_wraps, <- app_assoc in Hs.
Qed.

Fixpoint csize {P} (c : cmd P) : nat :=
  match c with
  | EXEC _ => 0
  | REDIR c _ _ _ | BACK c => S (csize c)
  | PIPE l r | LIST l r => S (csize l + csize r)
  end.

Lemma strip_redirs c : printable c → ∃ b rs, c = foldl wrap b rs ∧ (csize b ≤ csize c)%nat ∧
  printable b ∧ Forall redir_ok rs ∧ (∀ c' f m fd, b ≠ REDIR c' f m fd).
Proof.
  induction c as [| c IH file mode fd | | |]; intros Hp; try by (eexists _, []).
  destruct Hp as (Hs & Ha & Hm & Hr). cbn in Hs, Ha. apply Forall_app in Hs as [Hs Hf].
  rewrite Forall_singleton in Hf. destruct IH as (b & rs & -> & Hb & Hpb & Hrs & Hn); [done|].
  exists b, (rs ++ [(file, mode, fd)]). rewrite foldl_app. split_and!; [done|cbn [csize]; lia|done| |done].
  apply Forall_app. split; [done|]. by apply Forall_singleton.
Qed.

Lemma strip_backs {P} (c : cmd P) : ∃ b k, c = backs k b ∧ (csize b ≤ csize c)%nat ∧
  strings b = strings c ∧ (args_fit c → args_fit b) ∧ (redirs_ok c → redirs_ok b) ∧ (∀ c', b ≠ BACK c').
Proof.
  induction c as [| | | |c (b & k & -> & Hb & Hs & Ha & Hr & Hn)]; try by (eexists _, 0%nat).
  exists b, (S k). split_and!; try done. cbn [csize]. lia.
Qed.

Lemma levels_up c : print 1 c = print 0 c → print 2 c = print 1 c → print 3 c = print 2 c → L0 c →
  L0 c ∧ L1 c ∧ L2 c ∧ L3 c.
Proof.
  intros E1 E2 E3 H0. pose proof (L0_L1 c E1 H0) as H1. pose proof (L1_L2 c 0 E2 H1) as H2.
  eauto using L2_L3.
Qed.

Lemma levels c : printable c → L0 c ∧ L1 c ∧ L2 c ∧ L3 c.
Proof.
  remember (csize c) as n eqn:En. revert c En. induction n as [n IHn] using lt_wf_ind. intros c -> Hp.
  assert (IH : ∀ c', (csize c' < csize c)%nat → printable c' → L0 c' ∧ L1 c' ∧ L2 c' ∧ L3 c') by eauto.
  clear IHn. destruct c as [ws|c file mode fd|l r|l r|c].
  - destruct Hp as (Hs & Ha & _). apply levels_up; try done. by apply (L0_exec ws []).
  - apply levels_up; try done. destruct (strip_redirs _ Hp) as (b & rs & Ec & Hb & Hpb & Hrs & Hn).
    assert (Hlt : (csize b < csize (REDIR c file mode fd))%nat).
    { destruct rs as [|r rs _] using rev_ind; [by destruct (Hn c file mode fd)|].
      rewrite Ec, foldl_app. cbn [foldl wrap csize]. apply Nat.lt_succ_r. clear. induction rs using rev_ind; [done|].
      rewrite foldl_app. cbn. lia. }
    rewrite Ec. destruct (IH b Hlt Hpb) as (_ & _ & _ & H3). destruct b as [ws|? ? ? ?| | |]; [|by edestruct Hn|by apply L3_L0..].
    apply L0_exec; [apply Hpb..|done].
  - destruct Hp as (Hs & [Hal Har] & Hrl & Hrr). apply Forall_app in Hs as [Hsl Hsr]. cbn [csize] in IH.
    destruct (IH l) as (Hl & _); [lia|done|]. destruct (IH r) as (_ & Hr & _); [lia|done|].
    assert (H1 : L1 (PIPE l r)) by by apply L1_pipe. pose proof (L1_L2 (PIPE l r) 0 eq_refl H1) as H2.
    assert (H3 : L3 (PIPE l r)) by by apply L2_L3. split_and!; try done. by apply (L3_L0 _ []).
  - destruct Hp as (Hs & [Hal Har] & Hrl & Hrr). apply Forall_app in Hs as [Hsl Hsr]. cbn [csize] in IH.
    destruct (IH l) as (_ & _ & Hl & _); [lia|done|]. destruct (IH r) as (_ & _ & _ & Hr); [lia|done|].
    assert (H3 : L3 (LIST l r)) by by apply L3_list. assert (H0 : L0 (LIST l r)) by by apply (L3_L0 _ []).
    assert (H1 : L1 (LIST l r)) by by apply L0_L1. split_and!; try done. by apply (L1_L2 _ 0).
  - destruct (strip_backs c) as (b & k & -> & Hb & Hs & Ha & Hr & Hn). destruct Hp as (Hps & Hpa & Hpr). cbn [csize] in IH.
    destruct (IH b) as (_ & H1 & _); [lia|by split_and!; [rewrite Hs|apply Ha|apply Hr]|].
    assert (H2 : L2 (backs (S k) b)) by (apply L1_L2; [|done]; destruct b; try done; by edestruct Hn).
    assert (H3 : L3 (backs (S k) b)) by by apply L2_L3. assert (H0 : L0 (backs (S k) b)) by by apply (L3_L0 _ []).
    split_and!; try done. by apply L0_L1.
Qed.

(** A character that no word has and that is no symbol or space is not printed. *)
Lemma print_without x level c : (∀ w, word_ok w → x ∉ w) → x ∉ 32 :: symbols → printable c → x ∉ print level c.
Proof.
  intros Hx [H32 Hsy]%not_elem_of_cons. assert (Hw : ∀ ws, Forall word_ok ws → x ∉ words_text ws).
  { unfold words_text, word_text. induction 1 as [|w ws Hw Hws IH]; cbn; [apply not_elem_of_nil|].
    rewrite !elem_of_app, list_elem_of_singleton. specialize (Hx w Hw). naive_solver. }
  assert (Hs : x ≠ LESS ∧ x ≠ BAR ∧ x ≠ GREATER ∧ x ≠ AMP ∧ x ≠ SEMI ∧ x ≠ LPAR ∧ x ≠ RPAR).
  { split_and!; intros ->; apply Hsy; apply (bool_decide_eq_true_1 _); by vm_compute. }
  destruct Hs as (? & ? & ? & ? & ? & ? & ?).
  assert (Hpar : ∀ b s, x ∉ s → x ∉ parens b s).
  { intros [] s Hs; [|done]. cbn. rewrite !elem_of_cons, elem_of_app. set_solver. }
  revert level. induction c as [ws|c IH file mode fd|l IHl r IHr|l IHl r IHr|c IH]; intros level (Hs & Ha & Hr); cbn in Hs, Ha, Hr.
  - by apply Hw.
  - apply Forall_app in Hs as [Hs Hf]. destruct Hr as [_ Hr]. cbn. rewrite elem_of_app. intros [Hin|Hin]; [by apply (IH 0)|].
    specialize (Hw [file] Hf). unfold words_text in Hw. cbn in Hw. rewrite app_nil_r in Hw. unfold redir_text in Hin.
    rewrite !elem_of_cons in Hin. destruct Hin as [Hin|[?|?]]; [|done..]. by destruct (fd =? 0).
  - apply Forall_app in Hs as [Hl Hr']. cbn. apply Hpar. rewrite elem_of_app, !elem_of_cons. destruct Ha, Hr.
    intros [Hin|[?|[?|Hin]]]; [by apply (IHl 0)|done|done|by apply (IHr 1)].
  - apply Forall_app in Hs as [Hl Hr']. cbn. apply Hpar. rewrite elem_of_app, !elem_of_cons. destruct Ha, Hr.
    intros [Hin|[?|[?|Hin]]]; [by apply (IHl 2)|done|done|by apply (IHr 3)].
  - cbn. apply Hpar. rewrite elem_of_app. intros [Hin|Hin]; [by apply (IH 2)|set_solver].
Qed.

Lemma print_no_zero level c : printable c → 0 ∉ print level c.
Proof. apply print_without; [by intros w (_ & _ & Hw)|]. apply (bool_decide_eq_true_1 _). by vm_compute. Qed.

(** The text of a command is one line. *)
Lemma print_one_line x level c : is_space x = true → x ≠ 32 → printable c → x ∉ print level c.
Proof.
  intros Hsp H32. apply print_without.
  - intros w (_ & Hw & _) Hin. rewrite Forall_forall in Hw. specialize (Hw x Hin). unfold is_word in Hw. unfold is_space in Hsp. by rewrite Hsp in Hw.
  - intros [?|Hin]%elem_of_cons; [done|]. unfold is_space in Hsp. apply in_str_spec in Hsp; [|apply (bool_decide_eq_true_1 _); by vm_compute].
    unfold whitespace in Hsp. rewrite !elem_of_cons in Hsp.
    destruct Hsp as [?|[->|[->|[->|[->|Hn]]]]]; [done|..|by apply not_elem_of_nil in Hn]; by apply (bool_decide_eq_true_2 _) in Hin; vm_compute in Hin.
Qed.

(** Printing and parsing are inverse. *)
Lemma parse_print c junk : printable c → returns parsecmd (print 3 c ++ 10 :: 0 :: junk) (λ c' _, c' = c).
Proof.
  intros Hp. set (line := print 3 c ++ [10]).
  replace (print 3 c ++ 10 :: 0 :: junk) with (line ++ 0 :: junk) by (unfold line; by rewrite <- app_assoc).
  assert (Hz : 0 ∉ line).
  { unfold line. rewrite elem_of_app, list_elem_of_singleton. intros [H|?]; [by apply (print_no_zero 3 c)|done]. }
  destruct (levels c Hp) as (_ & _ & _ & H3).
  destruct (H3 (S (length line)) line [10]) as (c' & E & Hc'); [done|lia|done|].
  unfold returns. rewrite parsecmd_run, E by done. exact Hc'.
Qed.

(** Printing and parsing are inverse: the line [print 3 c] followed by a newline,
    which is what the shell reads, parses to exactly [c], whatever follows the
    line in the buffer. *)
Theorem parsecmd_print c junk : printable c →
  returns parsecmd (print 3 c ++ 10 :: 0 :: junk) (λ c' _, c' = c).
Proof. apply parse_print. Qed.

Lemma parsecmd_print_witness :
  returns parsecmd (chars "( a b & ) < f | c ; " ++ 10 :: 0 :: [])
    (λ c' _, c' = LIST (PIPE (REDIR (BACK (EXEC [chars "a"; chars "b"])) (chars "f") READ_MODE 0) (EXEC [chars "c"])) (EXEC [])).
Proof.
  apply (parsecmd_print (LIST (PIPE (REDIR (BACK (EXEC [chars "a"; chars "b"])) (chars "f") READ_MODE 0) (EXEC [chars "c"])) (EXEC [])) []).
  split; [by apply (bool_decide_eq_true_1 _)|]. split; [by repeat split|cbn; auto 10].
Defined.
