(* ===== verification/ShRun.v ===== *)
(** The shell running a command (sh.c): [runcmd] as the tree of system calls it
    makes, and the files that the programs it starts find on their descriptors. *)

From S2P Require Import Prelude Ulib Sh.

(** A program as the system calls it makes, each with what it does next; where a
    call returns a value the rest depends on it.  [Fork] has the program of the
    child and that of the parent; [Exec] goes on only when the call fails. *)
Inductive prog : Type :=
| Exit
| Exec (argv : list (list Z)) (k : prog)
| Printf (fd : Z) (text : list Z) (k : prog)
| Close (fd : Z) (k : prog)
| Open (file : list Z) (mode : Z) (k : Z → prog)
| Fork (k : Z → prog)
| Wait (k : prog)
| Pipe (k : Z → Z → Z → prog)
| Dup (fd : Z) (k : prog).

Definition NEWLINE : list Z := [10].

(** [panic] of sh.c. *)
Definition sh_panic (s : string) : prog := Printf 2 (chars s ++ NEWLINE) Exit.

(** [fork1()] *)
Definition fork1 (k : Z → prog) : prog :=
  Fork (λ pid, if pid =? -1 then sh_panic "fork" else k pid).

Fixpoint runcmd (c : cmd (list Z)) : prog :=
  match c with
  | EXEC [] => Exit
  | EXEC (arg0 :: args) =>
      Exec (arg0 :: args) (Printf 2 (chars "exec " ++ arg0 ++ chars " failed" ++ NEWLINE) Exit)
  | REDIR c file mode fd =>
      Close fd (Open file mode (λ r,
        if r <? 0 then Printf 2 (chars "open " ++ file ++ chars " failed" ++ NEWLINE) Exit
        else runcmd c))
  | LIST l r =>
      fork1 (λ pid, if pid =? 0 then runcmd l else Wait (runcmd r))
  | PIPE l r =>
      Pipe (λ res p0 p1,
        if res <? 0 then sh_panic "pipe" else
        fork1 (λ pid,
          if pid =? 0 then Close 1 (Dup p1 (Close p0 (Close p1 (runcmd l)))) else
          fork1 (λ pid,
            if pid =? 0 then Close 0 (Dup p0 (Close p0 (Close p1 (runcmd r)))) else
            Close p0 (Close p1 (Wait (Wait Exit))))))
  | BACK c => fork1 (λ pid, if pid =? 0 then runcmd c else Exit)
  end.

(** ** Descriptors

    The open files of a process: the ends of pipes, numbered in the order of their
    creation, files that were opened, and those the shell started with. *)
Inductive obj : Type :=
| Given (n : Z)
| Opened (file : list Z) (mode : Z)
| ReadEnd (pipe : Z)
| WriteEnd (pipe : Z).

#[export] Instance obj_dec : EqDecision obj.
Proof. solve_decision. Defined.

Abbreviation fds := (list (option obj)) (only parsing).

(** The lowest free descriptor (fdalloc in sysfile.c). *)
Fixpoint fd_lowest (ofile : fds) : option nat :=
  match ofile with
  | [] => None
  | None :: _ => Some O
  | Some _ :: ofile => S <$> fd_lowest ofile
  end.

Definition fd_new (o : obj) (ofile : fds) : Z * fds :=
  match fd_lowest ofile with
  | Some n => (Z.of_nat n, <[n := Some o]> ofile)
  | None => (-1, ofile)
  end.

Definition fd_close (fd : Z) (ofile : fds) : fds := <[Z.to_nat fd := None]> ofile.

(** A program that was started, with its arguments and open files. *)
Definition started : Type := list (list Z) * fds.

Section Run.
(** Which files can be opened. *)
Context (can_open : list Z → Z → bool).

(** The programs started by a process with open files [ofile] and its children, when
    [n] pipes exist and no call fails but those the arguments make fail; and the
    number of pipes afterwards. *)
Fixpoint run (p : prog) (ofile : fds) (n : Z) : list started * Z :=
  match p with
  | Exit => ([], n)
  | Exec argv _ => ([(argv, ofile)], n)
  | Printf _ _ k | Wait k => run k ofile n
  | Close fd k => run k (fd_close fd ofile) n
  | Open file mode k =>
      if can_open file mode then
        let '(fd, ofile) := fd_new (Opened file mode) ofile in run (k fd) ofile n
      else run (k (-1)) ofile n
  | Fork k =>
      let '(child, n) := run (k 0) ofile n in
      let '(parent, n) := run (k 1) ofile n in
      (child ++ parent, n)
  | Pipe k =>
      let '(p0, ofile0) := fd_new (ReadEnd n) ofile in
      let '(p1, ofile1) := fd_new (WriteEnd n) ofile0 in
      if (p0 <? 0) || (p1 <? 0) then run (k (-1) 0 0) ofile n
      else run (k 0 p0 p1) ofile1 (n + 1)
  | Dup fd k =>
      match ofile !! Z.to_nat fd with
      | Some (Some o) => run k (fd_new o ofile).2 n
      | _ => run k ofile n
      end
  end.

(** ** What a command line means *)

(** Standard input, output and error, and nothing else. *)
Definition std (i o e : obj) : fds := Some i :: Some o :: Some e :: replicate 13 None.

(** The programs a command stands for, with their standard input and output. *)
Fixpoint plan (c : cmd (list Z)) (i o e : obj) (n : Z) : list started * Z :=
  match c with
  | EXEC [] => ([], n)
  | EXEC argv => ([(argv, std i o e)], n)
  | REDIR c file mode fd =>
      if can_open file mode then
        if fd =? 0 then plan c (Opened file mode) o e n else plan c i (Opened file mode) e n
      else ([], n)
  | PIPE l r =>
      let '(a, n1) := plan l i (WriteEnd n) e (n + 1) in
      let '(b, n2) := plan r (ReadEnd n) o e n1 in
      (a ++ b, n2)
  | LIST l r =>
      let '(a, n1) := plan l i o e n in
      let '(b, n2) := plan r i o e n1 in
      (a ++ b, n2)
  | BACK c => plan c i o e n
  end.

(** C28: Starting from standard input, output and error, every program of the
    command runs with the files its redirections and pipes name: the two sides of
    [|] share one new pipe, the side that writes has its write end as standard
    output and the one that reads its read end as standard input, and no other
    descriptor is left open, so that the reader sees the end of the file. *)
Theorem runcmd_plan c i o e n : redirs_ok c →
  run (runcmd c) (std i o e) n = plan c i o e n.
Proof.
  revert i o n. induction c as [argv|c IH file mode fd|l IHl r IHr|l IHl r IHr|c IH]; intros i o n Hc; cbn in Hc.
  - by destruct argv.
  - destruct Hc as [Hm Hc]. cbn [runcmd run plan]. destruct (can_open file mode); [|done].
    destruct Hm as [[-> ->]|[-> ->]]; cbn; by apply IH.
  - destruct Hc as [Hl Hr].
    change (run (runcmd (PIPE l r)) (std i o e) n) with
      (let '(a, n1) := run (runcmd l) (std i (WriteEnd n) e) (n + 1) in
       let '(b, n2) := (let '(b, n2) := run (runcmd r) (std (ReadEnd n) o e) n1 in (b ++ [], n2)) in
       (a ++ b, n2)).
    rewrite IHl by done. cbn [plan]. destruct (plan l i (WriteEnd n) e (n + 1)) as [a n1].
    rewrite IHr by done. destruct (plan r (ReadEnd n) o e n1) as [b n2].
    by rewrite app_nil_r.
  - destruct Hc as [Hl Hr]. cbn. rewrite IHl by done. destruct (plan l i o e n) as [a n1].
    rewrite IHr by done. by destruct (plan r i o e n1).
  - cbn. rewrite IH by done. destruct (plan c i o e n). by rewrite app_nil_r.
Qed.
End Run.

Lemma runcmd_plan_witness :
  run (λ _ _, true) (runcmd (REDIR (PIPE (EXEC [chars "ls"]) (EXEC [chars "wc"])) (chars "f") WRITE_MODE 1))
    (std (Given 0) (Given 1) (Given 2)) 0 =
  ([([chars "ls"], std (Given 0) (WriteEnd 0) (Given 2));
    ([chars "wc"], std (ReadEnd 0) (Opened (chars "f") WRITE_MODE) (Given 2))], 1).
Proof. rewrite runcmd_plan; [done|]. cbn. auto. Defined.
