(* ===== verification/ShMain.v ===== *)
(** The shell's own loop (sh.c): reading a line with [gets] of ulib.c, changing the
    directory and handing every other line to a child, and what a session of
    commands makes of it. *)

From S2P Require Import Prelude Ulib Sh ShRun.

(** ** Reading a line

    What [gets(buf, max)] of ulib.c stores of the standard input, [room] being
    [max - 1], and what is left to read. *)
Fixpoint gets_loop (room : nat) (input : list Z) : list Z * list Z :=
  match room, input with
  | O, _ => ([], input)
  | S _, [] => ([], [])
  | S room, c :: input =>
      if (c =? 10) || (c =? 13) then ([c], input) else
      let '(line, input) := gets_loop room input in (c :: line, input)
  end.

(** The memory at [buf] afterwards; the caller has room for [max] characters. *)
Definition gets (buf : list Z) (max : Z) (input : list Z) : list Z * list Z :=
  let '(line, input) := gets_loop (Z.to_nat (max - 1)) input in
  (line ++ 0 :: drop (S (length line)) buf, input).

(** ** The shell

    What a shell does that others can see. *)
Inductive act : Type :=
| Print (text : list Z)
| Chdir (path : list Z)
| Started (p : prog)
| Waited
| Exited.

Record shell := Shell {
  input : list Z;   (* what descriptor 0 will give *)
  acts : list act;  (* the latest last *)
  forks : Z         (* the number of calls to fork so far *)
}.

#[export] Instance eta_shell : Eta shell := λ s, Shell (input s) (acts s) (forks s).

(** One more thing done. *)
Definition did (a : act) : M shell unit := modify (λ s, s <| acts := acts s ++ [a] |>).

(** The size of the buffer of [main]. *)
Definition NBUF : Z := 100.

(** [getcmd(buf, nbuf)] and the memory at [buf] afterwards. *)
Definition getcmd (nbuf : Z) : M shell (Z * list Z) :=
  _ ← did (Print (chars "$ "));
  s ← Prelude.gets input;
  let '(buf, rest) := gets (replicate (Z.to_nat nbuf) 0) nbuf s in
  _ ← modify (λ s, s <| input := rest |>);
  mret (if nth 0 buf 0 =? 0 then -1 else 0, buf).

(** What [parsecmd] does where it does not return: the text left over after a command
    is printed before the message. *)
Definition parse_failed (buf : list Z) (msg : string) : prog :=
  let s := cstr buf in
  match parseline (S (length s)) s with
  | Ok _ rest => Printf 2 (chars "leftovers: " ++ skip_space rest ++ NEWLINE) (sh_panic msg)
  | _ => sh_panic msg
  end.

Section Main.
(** Whether a directory can be entered, the results of [fork] in the parent, and what
    a child leaves of the standard input. *)
Context (chdir : list Z → Z) (fork : Z → Z) (leaves : prog → list Z → list Z).

(** The child of the shell: it parses the line, and prints a message and exits
    where that fails. *)
Definition sh_child (buf : list Z) : M shell prog :=
  match parsecmd buf with
  | Ok c _ => mret (runcmd c)
  | Panic msg => mret (parse_failed buf msg)
  | Block _ => block
  | Undef why => undef why
  | NoFuel => λ _, NoFuel
  end.

(** The lines that change the directory. *)
Definition is_cd (buf : list Z) : bool :=
  (nth 0 buf 0 =? 99) && (nth 1 buf 0 =? 100) && (nth 2 buf 0 =? 32).

Definition cd (buf : list Z) : M shell unit :=
  let buf := <[pred (length (cstr buf)) := 0]> buf in
  let path := cstr (drop 3 buf) in
  _ ← did (Chdir path);
  when (chdir path <? 0) (did (Print (chars "cannot cd " ++ path ++ NEWLINE))).

(** The rest of the body of the loop: [true] when the shell goes on. *)
Definition command (buf : list Z) : M shell bool :=
  pid ← Prelude.gets (λ s, fork (forks s));
  _ ← modify (λ s, s <| forks := forks s + 1 |>);
  if pid =? -1 then
    _ ← did (Print (chars "fork" ++ NEWLINE)); _ ← did Exited; mret false
  else
    p ← sh_child buf;
    _ ← did (Started p);
    _ ← modify (λ s, s <| input := leaves p (input s) |>);
    _ ← did Waited;
    mret true.

(** The loop of [main], with the exit of the shell. *)
Fixpoint sh_loop (fuel : nat) : M shell unit :=
  match fuel with
  | O => λ _, NoFuel
  | S fuel =>
      '(r, buf) ← getcmd NBUF;
      if r >=? 0 then
        if is_cd buf then _ ← cd buf; sh_loop fuel
        else go ← command buf; if go : bool then sh_loop fuel else skip
      else did Exited
  end.

End Main.

(** ** The descriptors of the shell *)

Definition console_file : obj := Opened (chars "console") 2.

(** The first loop of [main]: [open] with [O_RDWR], until it fails or gives a
    descriptor above the first three. *)
Fixpoint open_console (can_open : bool) (fuel : nat) (ofile : list (option obj)) : option (list (option obj)) :=
  match fuel with
  | O => None
  | S fuel =>
      let '(fd, ofile) := if can_open then fd_new console_file ofile else (-1, ofile) in
      if fd >=? 0 then
        if fd >=? 3 then Some (fd_close fd ofile) else open_console can_open fuel ofile
      else Some ofile
  end.

(** [main()]: the descriptors of the shell and its children, and the loop. *)
Definition sh_main (chdir : list Z → Z) (fork : Z → Z) (leaves : prog → list Z → list Z) (can_open : bool)
    (fuel : nat) (ofile : list (option obj)) : M shell (list (option obj)) :=
  match open_console can_open (S (length ofile)) ofile with
  | Some ofile => _ ← sh_loop chdir fork leaves fuel; mret ofile
  | None => λ _, NoFuel
  end.

Lemma fd_lowest_free ofile n : fd_lowest ofile = Some n → ofile !! n = Some None.
Proof.
  revert n. induction ofile as [|[o|] ofile IH]; intros n H; cbn in H; [done| |by simplify_eq].
  destruct (fd_lowest ofile) as [m|]; [|done]. injection H as <-. by apply IH.
Qed.

(** Opening a descriptor and closing it again changes nothing. *)
Lemma fd_new_close o a b c ofile n ofile' : fd_lowest ofile = Some n →
  fd_new o (Some a :: Some b :: Some c :: ofile) = (Z.of_nat (3 + n), ofile') →
  fd_close (Z.of_nat (3 + n)) ofile' = Some a :: Some b :: Some c :: ofile.
Proof.
  intros Hn. unfold fd_new. cbn [fd_lowest]. rewrite Hn. cbn [fmap option_fmap option_map]. intros [= <-].
  unfold fd_close. rewrite Nat2Z.id. change (Some a :: Some b :: Some c :: <[n := None]> (<[n := Some o]> ofile) = Some a :: Some b :: Some c :: ofile).
  rewrite list_insert_insert_eq, list_insert_id; [done|]. by apply fd_lowest_free.
Qed.

(** The shell has three open descriptors: those it was started with, and the console
    in place of the missing ones; no other descriptor changes. *)
Theorem console_opened i o e ofile fuel : (4 ≤ fuel)%nat →
  open_console true fuel (i :: o :: e :: ofile) =
  Some (Some (default console_file i) :: Some (default console_file o) :: Some (default console_file e) :: ofile).
Proof.
  intros Hf. assert (Hlast : ∀ fuel a b c, (1 ≤ fuel)%nat →
    open_console true fuel (Some a :: Some b :: Some c :: ofile) = Some (Some a :: Some b :: Some c :: ofile)).
  { intros [|fl] a b c ?; [lia|]. cbn [open_console]. destruct (fd_lowest ofile) as [n|] eqn:Hn.
    - destruct (fd_new console_file (Some a :: Some b :: Some c :: ofile)) as [fd ofile'] eqn:E.
      assert (fd = Z.of_nat (3 + n)) as -> by (unfold fd_new in E; cbn [fd_lowest] in E; rewrite Hn in E; cbn in E; by injection E).
      rewrite (proj2 (Z.geb_le _ _)) by lia. rewrite (proj2 (Z.geb_le _ 3)) by lia.
      f_equal. by apply (fd_new_close console_file a b c ofile n).
    - unfold fd_new. cbn [fd_lowest]. by rewrite Hn. }
  destruct fuel as [|[|[|[|fuel]]]]; [lia..|].
  destruct i, o, e;
    first [apply (Hlast (S (S (S (S fuel))))); lia | apply (Hlast (S (S (S fuel)))); lia
          |apply (Hlast (S (S fuel))); lia | apply (Hlast (S fuel)); lia].
Qed.

(** ** Sessions

    A session is a list of lines, typed one after the other: commands, each with the
    bytes that its child reads of the standard input before the shell reads on, and
    changes of the directory. *)
Inductive item : Type :=
| Run (l takes : list Z)
| Cd (path : list Z).

Definition text (it : item) : list Z :=
  match it with
  | Run l _ => l
  | Cd path => chars "cd " ++ path
  end.

Definition typed_one (it : item) : list Z :=
  text it ++ NEWLINE ++ match it with Run _ takes => takes | Cd _ => [] end.

Definition typed (its : list item) : list Z := concat (typed_one <$> its).

(** A line of text fits the buffer with its newline and the terminator. *)
Definition line_ok (l : list Z) : Prop := (length l ≤ 98)%nat ∧ (0 ∉ l) ∧ (10 ∉ l) ∧ (13 ∉ l).

Definition item_ok (it : item) : Prop :=
  line_ok (text it) ∧ match it with Run l _ => is_cd (l ++ NEWLINE) = false | Cd _ => True end.

(** The program of a line: that of the command it is parsed to, or the message of a syntax
    error. *)
Definition line_prog (l : list Z) : prog :=
  match parsecmd (l ++ NEWLINE ++ [0]) with
  | Ok c _ => runcmd c
  | Panic msg => parse_failed (l ++ NEWLINE ++ [0]) msg
  | _ => Exit
  end.

Section Session.
Context (chdir : list Z → Z) (fork : Z → Z) (leaves : prog → list Z → list Z).

(** The children read what the session says. *)
Fixpoint session_ok (its : list item) : Prop :=
  match its with
  | [] => True
  | it :: its =>
      item_ok it ∧ session_ok its ∧
      match it with Run l takes => leaves (line_prog l) (takes ++ typed its) = typed its | Cd _ => True end
  end.

(** What the shell should do after [f] calls of [fork]. *)
Fixpoint session (f : Z) (its : list item) : list act :=
  Print (chars "$ ") ::
  match its with
  | [] => [Exited]
  | Run l _ :: its =>
      if fork f =? -1 then [Print (chars "fork" ++ NEWLINE); Exited]
      else Started (line_prog l) :: Waited :: session (f + 1) its
  | Cd path :: its =>
      Chdir path :: (if chdir path <? 0 then [Print (chars "cannot cd " ++ path ++ NEWLINE)] else []) ++ session f its
  end.

Lemma gets_loop_line line room rest : (length line < room)%nat → 10 ∉ line → 13 ∉ line →
  gets_loop room (line ++ 10 :: rest) = (line ++ NEWLINE, rest).
Proof.
  revert room. induction line as [|c line IH]; intros [|room] Hl Hn Hr; cbn in Hl; try lia; [done|].
  apply not_elem_of_cons in Hn as [Hn Hn'], Hr as [Hr Hr'].
  cbn [gets_loop app]. rewrite (proj2 (Z.eqb_neq c 10)), (proj2 (Z.eqb_neq c 13)) by done. cbn [orb].
  by rewrite IH by (done || lia).
Qed.

Definition filled (line : list Z) : list Z := line ++ 10 :: 0 :: replicate (98 - length line) 0.

Lemma gets_line line rest : (length line ≤ 98)%nat → 10 ∉ line → 13 ∉ line →
  gets (replicate (Z.to_nat NBUF) 0) NBUF (line ++ 10 :: rest) = (filled line, rest).
Proof.
  intros Hl Hn Hr. unfold gets. change (Z.to_nat (NBUF - 1)) with 99%nat.
  rewrite gets_loop_line by (done || lia). f_equal. unfold filled, NEWLINE.
  rewrite drop_replicate, length_app, <- app_assoc. cbn [app length]. do 4 f_equal.
  change (Z.to_nat NBUF) with 100%nat. lia.
Qed.

Lemma getcmd_line line rest a f : (length line ≤ 98)%nat → 0 ∉ line → 10 ∉ line → 13 ∉ line →
  getcmd NBUF (Shell (line ++ 10 :: rest) a f) = Ok (0, filled line) (Shell rest (a ++ [Print (chars "$ ")]) f).
Proof.
  intros Hl Hz Hn Hr. unfold getcmd, did, Prelude.gets, modify, mbind, M_bind. cbn [input].
  change (input ((Shell (line ++ 10 :: rest) a f) <| acts := _ |>)) with (line ++ 10 :: rest).
  rewrite gets_line by done. cbn [mret M_ret]. unfold mret, M_ret. f_equal.
  destruct line as [|c line]; [done|]. cbn. apply not_elem_of_cons in Hz as [Hz _]. by rewrite (proj2 (Z.eqb_neq c 0)).
Qed.

(** Parsing does not look beyond the terminator of the line, and ends. *)
Lemma child_line l st : line_ok l → sh_child (filled l) st = Ok (line_prog l) st.
Proof.
  intros (_ & Hz & _ & _). assert (Hz' : 0 ∉ l ++ NEWLINE).
  { unfold NEWLINE. rewrite elem_of_app, list_elem_of_singleton. intros [?|?]; done. }
  pose proof (parsecmd_parsed (l ++ NEWLINE) Hz') as Hp. unfold sh_child, line_prog, parse_failed, filled.
  change (l ++ 10 :: 0 :: ?x) with (l ++ NEWLINE ++ 0 :: x). rewrite !app_assoc in *. rewrite !parsecmd_run, !cstr_app by done.
  destruct (parseline _ _) as [c rest|msg| | |]; try done. by case_bool_decide.
Qed.

Lemma cd_line path i a f : 0 ∉ path →
  cd chdir (filled (chars "cd " ++ path)) (Shell i a f) =
  Ok tt (Shell i (a ++ Chdir path :: (if chdir path <? 0 then [Print (chars "cannot cd " ++ path ++ NEWLINE)] else [])) f).
Proof.
  intros Hz. set (l := chars "cd " ++ path). assert (Hl : 0 ∉ l).
  { unfold l. rewrite elem_of_app. intros [H|?]; [|done]. revert H. apply (bool_decide_eq_true_1 _). by vm_compute. }
  assert (Hc : cstr (filled l) = l ++ NEWLINE).
  { unfold filled, NEWLINE. change (10 :: 0 :: ?x) with ([10] ++ 0 :: x). rewrite app_assoc. apply cstr_app.
    rewrite elem_of_app, list_elem_of_singleton. intros [?|?]; done. }
  assert (Hp : cstr (drop 3 (<[pred (length (cstr (filled l))) := 0]> (filled l))) = path).
  { rewrite Hc, length_app, Nat.add_1_r. cbn [pred]. unfold filled. rewrite insert_app_r_alt, Nat.sub_diag by done.
    unfold l. rewrite <- app_assoc. rewrite drop_app_length' by done. by apply cstr_app. }
  unfold cd. rewrite Hp. unfold did, modify, mbind, M_bind, when. destruct (chdir path <? 0); [|done].
  cbn. by rewrite <- app_assoc.
Qed.


Lemma item_step fuel it rest a f : item_ok it →
  sh_loop chdir fork leaves (S fuel) (Shell (text it ++ 10 :: rest) a f) =
  match it with
  | Run l _ =>
      if fork f =? -1 then Ok tt (Shell rest (a ++ [Print (chars "$ "); Print (chars "fork" ++ NEWLINE); Exited]) (f + 1))
      else sh_loop chdir fork leaves fuel
             (Shell (leaves (line_prog l) rest) (a ++ [Print (chars "$ "); Started (line_prog l); Waited]) (f + 1))
  | Cd path =>
      sh_loop chdir fork leaves fuel (Shell rest (a ++ Print (chars "$ ") :: Chdir path ::
        (if chdir path <? 0 then [Print (chars "cannot cd " ++ path ++ NEWLINE)] else [])) f)
  end.
Proof.
  intros [Hl Hok]. pose proof Hl as (Hlen & Hz & Hn & Hr).
  cbn [sh_loop]. unfold mbind at 1, M_bind at 1. rewrite getcmd_line by done. cbn [fst snd Z.geb].
  change (0 >=? 0) with true. cbv iota beta. destruct it as [l takes|path]; cbn [text] in *.
  - assert (is_cd (filled l) = false) as ->.
    { revert Hok. unfold filled, NEWLINE, is_cd. by destruct l as [|? [|? [|? ?]]]. }
    unfold command, Prelude.gets, modify, did, mbind, M_bind. cbn [forks].
    destruct (Z.eqb_spec (fork f) (-1)) as [Hf|Hf].
    + cbn. by rewrite <- !app_assoc.
    + rewrite child_line by done. unfold mret, M_ret. cbn. by rewrite <- !app_assoc.
  - change (is_cd (filled (chars "cd " ++ path))) with true. cbv iota. unfold mbind, M_bind.
    rewrite cd_line by (intros H; apply Hz, elem_of_app; by right). by rewrite <- app_assoc.
Qed.

Lemma typed_cons it its : typed (it :: its) = text it ++ 10 :: (match it with Run _ takes => takes | Cd _ => [] end) ++ typed its.
Proof. unfold typed. cbn [fmap list_fmap concat]. unfold typed_one, NEWLINE. by rewrite <- !app_assoc. Qed.

Lemma session_loop its a f : session_ok its →
  returns (sh_loop chdir fork leaves (S (length its))) (Shell (typed its) a f)
    (λ _ s, acts s = a ++ session f its ∧ ((∀ n, fork n ≠ -1) → input s = [])).
Proof.
  revert a f. induction its as [|it its IH]; intros a f Hok.
  - apply (ok_returns _ _ tt (Shell [] ((a ++ [Print (chars "$ ")]) ++ [Exited]) f)); [reflexivity|]. cbn [acts input session]. by rewrite <- app_assoc.
  - destruct Hok as (Hit & Hits & Ht). rewrite typed_cons. change (length (it :: its)) with (S (length its)). unfold returns.
    rewrite (item_step _ it) by done. cbn [session]. destruct it as [l takes|path].
    + destruct (Z.eqb_spec (fork f) (-1)) as [Hf|Hf]; [cbn [acts]; split; [done|by intros H; destruct (H f)]|].
      rewrite Ht. eapply returns_mono; [by apply IH|]. intros _ s [-> Hi]. by rewrite <- app_assoc.
    + eapply returns_mono; [by apply IH|]. intros _ s [-> Hi]. rewrite <- app_assoc. cbn [app]. split; [|done]. done.
Qed.

(** C26: A session of lines, each of at most 98 characters and a newline, in a shell some of
    whose standard descriptors may be missing.  The missing ones are the console.  For
    every line that is no change of the directory the shell starts, in the order they were
    typed, the program of the command that the line is parsed to, or the message of a
    syntax error, and waits for it; what the child reads of the input is not taken for a
    command.  Lines that start with [cd] change the directory, or report that it cannot be
    changed.  When [fork] fails the shell prints a message and exits; otherwise it exits at
    the end of the input.  The text of a command, printed, stands for that command. *)
Theorem shell_session its i o e ofile : session_ok its →
  returns (sh_main chdir fork leaves true (S (length its)) (i :: o :: e :: ofile)) (Shell (typed its) [] 0)
    (λ ofile' s,
      ofile' = Some (default console_file i) :: Some (default console_file o) :: Some (default console_file e) :: ofile ∧
      acts s = session 0 its ∧ ((∀ n, fork n ≠ -1) → input s = [])) ∧
  ∀ c, printable c → line_prog (print 3 c) = runcmd c.
Proof.
  intros Hok. split.
  - unfold sh_main. rewrite console_opened by (cbn; lia).
    apply returns_bind. eapply returns_mono; [by apply session_loop|]. intros _ s [Ha Hi]. by apply returns_ret.
  - intros c Hc. unfold line_prog. change (print 3 c ++ NEWLINE ++ [0]) with (print 3 c ++ 10 :: 0 :: []).
    destruct (returns_ok _ _ _ (parse_print c [] Hc)) as (c' & b & E & ->). by rewrite E.
Qed.
End Session.

(** The child of the first line reads the line after it. *)
Definition demo_session : list item :=
  [Run (chars "cat | wc") (chars "cd x" ++ NEWLINE); Cd (chars "/d"); Cd (chars "x"); Run (chars "a )") []].

Definition demo_leaves (p : prog) (i : list Z) : list Z := match p with Pipe _ => drop 5 i | _ => i end.

Lemma shell_session_witness :
  typed demo_session = chars "cat | wc" ++ 10 :: chars "cd x" ++ 10 :: chars "cd /d" ++ 10 :: chars "cd x" ++ 10 :: chars "a )" ++ [10] ∧
  returns (sh_main (λ p, if bool_decide (p = chars "/d") then 0 else -1) (λ _, 3) demo_leaves true 5
             [Some (Given 0); None; Some (Given 2); None])
    (Shell (typed demo_session) [] 0)
    (λ ofile' s,
      ofile' = [Some (Given 0); Some console_file; Some (Given 2); None] ∧
      input s = [] ∧
      acts s = [Print (chars "$ "); Started (runcmd (PIPE (EXEC [chars "cat"]) (EXEC [chars "wc"]))); Waited;
                Print (chars "$ "); Chdir (chars "/d");
                Print (chars "$ "); Chdir (chars "x"); Print (chars "cannot cd x" ++ NEWLINE);
                Print (chars "$ "); Started (Printf 2 (chars "leftovers: )" ++ 10 :: NEWLINE) (sh_panic "syntax")); Waited;
                Print (chars "$ "); Exited]).
Proof.
  split; [reflexivity|].
  destruct (shell_session (λ p, if bool_decide (p = chars "/d") then 0 else -1) (λ _, 3) demo_leaves
    demo_session (Some (Given 0)) None (Some (Given 2)) [None]) as [H _].
  - repeat split; cbn; try lia; try (apply (bool_decide_eq_true_1 _); by vm_compute); try (by vm_compute).
  - eapply returns_mono; [exact H|]. intros ofile' s (-> & Ha & Hi). split_and!; [done|by apply Hi|]. rewrite Ha. by vm_compute.
Defined.
