(* ===== verification/Console.v ===== *)
(** The console (console.c): the text screen, the serial line that copies it, the
    line editor fed by the keyboard and serial interrupts, and the device calls
    [consoleread] and [consolewrite]. *)

From S2P Require Import Prelude Ulib.

(** ** State *)

(** The CGA: its memory of character cells, and the controller with the register
    selected through port [CRTPORT]. *)
Record screen := mkscreen { crt : list Z; crt_sel : Z; crt_reg : Z → Z }.
#[export] Instance screen_eta : Eta screen := λ s, mkscreen (crt s) (crt_sel s) (crt_reg s).

(** [struct input] with [cons], the flag [panicked], the serial line (present or
    not, and the bytes sent), the lock of the inode passed to the device calls, and
    the calls of [wakeup(&input.r)] and [procdump()]. *)
Record console := mkconsole {
  buf : Z → Z;
  r : Z;
  w : Z;
  e : Z;
  cons_lock : bool;
  locking : bool;
  panicked : bool;
  uart : bool;
  serial : list Z;
  scr : screen;
  ip_lock : bool;
  wakeups : nat;
  dumps : nat
}.
#[export] Instance console_eta : Eta console := λ s,
  mkconsole (buf s) (r s) (w s) (e s) (cons_lock s) (locking s) (panicked s) (uart s) (serial s)
    (scr s) (ip_lock s) (wakeups s) (dumps s).

Definition INPUT_BUF : Z := 128.
Definition BACKSPACE : Z := 256.
Definition CRTSIZE : Z := 2000.  (* 25*80 *)

(** ** The screen *)

(** [outb(CRTPORT, k); inb(CRTPORT+1)] and [outb(CRTPORT, k); outb(CRTPORT+1, v)] *)
Definition crt_in (k : Z) : M screen Z :=
  _ ← modify (λ s, s <| crt_sel := k |>); gets (λ s, crt_reg s (crt_sel s)).
Definition crt_out (k v : Z) : M screen unit :=
  _ ← modify (λ s, s <| crt_sel := k |>);
  modify (λ s, s <| crt_reg := upd (crt_reg s) (crt_sel s) (v mod 256) |>).

(** [crt[pos] = v] *)
Definition crt_set (pos v : Z) : M screen unit :=
  c ← gets crt;
  if (0 <=? pos) && (pos <? Z.of_nat (length c))
  then modify (λ s, s <| crt := <[Z.to_nat pos := v]> c |>)
  else undef "outside the screen".

(** [memmove(crt, crt+80, ...23*80); memset(crt+pos, 0, ...(24*80 - pos))] *)
Definition crt_scroll : M screen unit :=
  modify (λ s, s <| crt := take (23 * 80) (drop 80 (crt s)) ++ drop (23 * 80) (crt s) |>).
Definition crt_clear (pos : Z) : M screen unit :=
  modify (λ s, s <| crt := take (Z.to_nat pos) (crt s) ++ replicate (Z.to_nat (24 * 80 - pos)) 0 ++
                           drop (24 * 80) (crt s) |>).

Definition cgaputc (c : Z) : M screen unit :=
  hi ← crt_in 14;
  lo ← crt_in 15;
  let pos := Z.lor (Z.shiftl hi 8) lo in
  pos ← (if c =? 10 then mret (pos + (80 - pos mod 80))
         else if c =? BACKSPACE then mret (if 0 <? pos then pos - 1 else pos)
         else _ ← crt_set pos (Z.lor (Z.land c 255) 1792); mret (pos + 1));
  if (pos <? 0) || (CRTSIZE <? pos) then panic "pos under/overflow" else
  pos ← (if 24 <=? pos / 80 then
           _ ← crt_scroll;
           let pos := pos - 80 in
           _ ← crt_clear pos;
           mret pos
         else mret pos);
  _ ← crt_out 14 (Z.shiftr pos 8);
  _ ← crt_out 15 pos;
  crt_set pos (Z.lor 32 1792).

(** ** Output *)

(** [uartputc(c)]: it waits for the line for a bounded time and sends the byte. *)
Definition uartputc (c : Z) : M console unit :=
  u ← gets uart;
  when u (modify (λ s, s <| serial := serial s ++ [c mod 256] |>)).

Definition on_screen {A} (m : M screen A) : M console A := zoom scr (λ v s, s <| scr := v |>) m.

(** After a panic, [consputc] stops the processor. *)
Definition consputc (c : Z) : M console unit :=
  p ← gets panicked;
  if (p : bool) then block else
  _ ← (if c =? BACKSPACE then _ ← uartputc 8; _ ← uartputc 32; uartputc 8 else uartputc c);
  on_screen (cgaputc c).

Definition acquire_cons : M console unit :=
  l ← gets cons_lock;
  if (l : bool) then block else modify (λ s, s <| cons_lock := true |>).
Definition release_cons : M console unit :=
  l ← gets cons_lock;
  if (l : bool) then modify (λ s, s <| cons_lock := false |>) else panic "release".

(** ** The line editor *)

Definition CTRL (c : Z) : Z := c - 64.

(** [case C('U')]: back to the beginning of the line. *)
Fixpoint kill_line (fuel : nat) : M console unit :=
  match fuel with
  | O => λ _, NoFuel
  | S fuel =>
      s ← gets id;
      if negb (e s =? w s) && negb (buf s (u32 (e s - 1) mod INPUT_BUF) =? 10) then
        _ ← modify (λ s, s <| e := u32 (e s - 1) |>);
        _ ← consputc BACKSPACE;
        kill_line fuel
      else skip
  end.

(** One character of the loop in [consoleintr]. *)
Definition cons_char (c : Z) : M console unit :=
  if c =? CTRL 85 then kill_line 129
  else if (c =? CTRL 72) || (c =? 127) then
    s ← gets id;
    when (negb (e s =? w s)) (_ ← modify (λ s, s <| e := u32 (e s - 1) |>); consputc BACKSPACE)
  else
    s ← gets id;
    when (negb (c =? 0) && (u32 (e s - r s) <? INPUT_BUF))
      (let c := if c =? 13 then 10 else c in
       _ ← modify (λ s, s <| buf := upd (buf s) (e s mod INPUT_BUF) c |> <| e := u32 (e s + 1) |>);
       _ ← consputc c;
       s ← gets id;
       when ((c =? 10) || (c =? CTRL 68) || (e s =? u32 (r s + INPUT_BUF)))
         (modify (λ s, s <| w := e s |> <| wakeups := S (wakeups s) |>))).

(** The loop over the characters that [getc] returns before -1; the result is
    [doprocdump]. *)
Fixpoint cons_chars (cs : list Z) (dump : bool) : M console bool :=
  match cs with
  | [] => mret dump
  | c :: cs => if c =? CTRL 80 then cons_chars cs true else _ ← cons_char c; cons_chars cs dump
  end.

Definition consoleintr (cs : list Z) : M console unit :=
  _ ← acquire_cons;
  dump ← cons_chars cs false;
  _ ← release_cons;
  when dump (modify (λ s, s <| dumps := S (dumps s) |>)).

(** ** The device calls *)

Definition iunlock : M console unit :=
  l ← gets ip_lock;
  if (l : bool) then modify (λ s, s <| ip_lock := false |>) else panic "iunlock".
Definition ilock : M console unit :=
  l ← gets ip_lock;
  if (l : bool) then block else modify (λ s, s <| ip_lock := true |>).

(** How a stretch of [consoleread] ends: with the bytes copied to [dst]; with -1;
    or asleep on [&input.r] with the bytes copied so far and [n] more wanted. *)
Inductive read_res := Rdone (l : list Z) | Rfail | Rsleep (l : list Z) (n : nat).

(** The loop, with [cons.lock] held; [l] has been copied already. *)
Fixpoint read_loop (killed : bool) (l : list Z) (n : nat) : M console read_res :=
  match n with
  | O => _ ← release_cons; _ ← ilock; mret (Rdone l)
  | S n' =>
      s ← gets id;
      if r s =? w s then
        if killed then _ ← release_cons; _ ← ilock; mret Rfail
        else _ ← release_cons; mret (Rsleep l n)
      else
        let c := buf s (r s mod INPUT_BUF) in
        _ ← modify (λ s, s <| r := u32 (r s + 1) |>);
        if c =? CTRL 68 then
          _ ← when (negb (bool_decide (l = []))) (modify (λ s, s <| r := u32 (r s - 1) |>));
          _ ← release_cons; _ ← ilock; mret (Rdone l)
        else if c =? 10 then _ ← release_cons; _ ← ilock; mret (Rdone (l ++ [c]))
        else read_loop killed (l ++ [c]) n'
  end.

Definition consoleread (killed : bool) (n : nat) : M console read_res :=
  _ ← iunlock;
  _ ← acquire_cons;
  read_loop killed [] n.

(** [sleep] returns with [cons.lock] held. *)
Definition consoleread_resumed (killed : bool) (l : list Z) (n : nat) : M console read_res :=
  _ ← acquire_cons;
  read_loop killed l n.

Fixpoint put_chars (l : list Z) : M console unit :=
  match l with [] => skip | c :: l => _ ← consputc (Z.land c 255); put_chars l end.

Definition consolewrite (l : list Z) : M console Z :=
  _ ← iunlock;
  _ ← acquire_cons;
  _ ← put_chars l;
  _ ← release_cons;
  _ ← ilock;
  mret (Z.of_nat (length l)).

(** ** The screen stays in bounds *)

Definition cursor (s : screen) : Z := Z.lor (Z.shiftl (crt_reg s 14) 8) (crt_reg s 15).

Record screen_ok (s : screen) : Prop := {
  so_crt : Z.of_nat (length (crt s)) = CRTSIZE;
  so_cursor : 0 ≤ cursor s < 24 * 80
}.

Lemma cursor_written s v : 0 ≤ v < 65536 →
  cursor (s <| crt_reg := upd (upd (crt_reg s) 14 (Z.shiftr v 8 mod 256)) 15 (v mod 256) |>) = v.
Proof.
  intros Hv. unfold cursor. cbn. rewrite upd_eq, upd_ne, upd_eq by done.
  rewrite Z.shiftr_div_pow2, Z.shiftl_mul_pow2 by lia. change (2 ^ 8) with 256.
  rewrite (Z.mod_small (v / 256)) by (split; [apply Z.div_pos; lia|apply Z.div_lt_upper_bound; lia]).
  change 256 with (2 ^ 8). rewrite <- Z.shiftl_mul_pow2 by lia. rewrite <- Z.lor_comm.
  apply Z.bits_inj'. intros n Hn. rewrite Z.lor_spec. destruct (Z.lt_ge_cases n 8).
  - rewrite Z.mod_pow2_bits_low, Z.shiftl_spec_low by lia. by rewrite orb_false_r.
  - rewrite Z.mod_pow2_bits_high, Z.shiftl_spec by lia. cbn. rewrite <- Z.shiftr_div_pow2, Z.shiftr_spec by lia.
    f_equal. lia.
Qed.

(** What the screen looks like after [c]: everything before the cursor has moved up by
    [d] cells, where [d] is 0 or, when the screen scrolls, one row. *)
Definition shown (c : Z) (s s' : screen) : Prop :=
  ∃ d : nat, (d = 0 ∨ d = 80)%nat ∧
    (∀ i, Z.of_nat (i + d) < cursor s - (if c =? BACKSPACE then 1 else 0) → crt s' !! i = crt s !! (i + d)%nat) ∧
    (c ≠ 10 → c ≠ BACKSPACE → crt s' !! Z.to_nat (cursor s' - 1) = Some (Z.lor (Z.land c 255) 1792)).

Lemma cga_finish s pos : Z.of_nat (length (crt s)) = CRTSIZE → 0 ≤ pos < 24 * 80 →
  returns (_ ← crt_out 14 (Z.shiftr pos 8); _ ← crt_out 15 pos; crt_set pos (Z.lor 32 1792)) s (λ _ s',
    cursor s' = pos ∧ crt s' = <[Z.to_nat pos := Z.lor 32 1792]> (crt s)).
Proof.
  intros Hl Hp. unfold CRTSIZE in Hl. unfold crt_out, crt_set. mgo. cbn [crt set].
  rewrite (proj2 (Z.leb_le 0 pos)), (proj2 (Z.ltb_lt pos _)) by lia. cbn [andb]. mgo. split; [|done].
  pose proof (cursor_written s pos ltac:(lia)) as Hc. exact Hc.
Qed.

Lemma cga_scrolled (l : list Z) : length l = 2000%nat →
  let l' := take (23 * 80) (drop 80 l) ++ drop (23 * 80) l in
  let l2 := take (Z.to_nat 1840) l' ++ replicate (Z.to_nat (24 * 80 - 1840)) 0 ++ drop (24 * 80) l' in
  length l2 = 2000%nat ∧ ∀ i, (i < 1840)%nat → l2 !! i = l !! (i + 80)%nat.
Proof.
  intros Hl l' l2. assert (Hl' : length l' = 2000%nat).
  { unfold l'. rewrite length_app, length_take, !length_drop. lia. }
  split.
  - unfold l2. rewrite !length_app, length_take, length_replicate, length_drop. lia.
  - intros i Hi. unfold l2. rewrite lookup_app_l by (rewrite length_take; lia). rewrite lookup_take_lt by lia.
    unfold l'. rewrite lookup_app_l by (rewrite length_take, length_drop; lia).
    rewrite lookup_take_lt by lia. rewrite lookup_drop. f_equal. lia.
Qed.

(** The cursor and the cells once the character is in place. *)
Lemma cga_place s pos : Z.of_nat (length (crt s)) = CRTSIZE → 0 ≤ pos ≤ 24 * 80 →
  returns (pos ← (if 24 <=? pos / 80 then
                    _ ← crt_scroll; let pos := pos - 80 in _ ← crt_clear pos; mret pos
                  else mret pos);
           _ ← crt_out 14 (Z.shiftr pos 8); _ ← crt_out 15 pos; crt_set pos (Z.lor 32 1792)) s
    (λ _ s', screen_ok s' ∧ ∃ d : nat, (d = 0%nat ∨ d = 80%nat ∧ pos = 24 * 80) ∧ cursor s' = pos - Z.of_nat d ∧
       ∀ i, Z.of_nat (i + d) < pos → crt s' !! i = crt s !! (i + d)%nat).
Proof.
  intros Hl Hp. pose proof Hl as Hl'. unfold CRTSIZE in Hl'. destruct (Z.leb_spec 24 (pos / 80)) as [Hs|Hs].
  - assert (pos = 1920) as -> by (apply Z.div_le_lower_bound in Hs || pose proof (Z.mul_div_le pos 80); lia).
    apply returns_bind, returns_bind, returns_modify, returns_bind, returns_modify, returns_ret.
    destruct (cga_scrolled (crt s)) as [Hlen Hi]; [lia|]. change (1920 - 80) with 1840.
    eapply returns_mono; [apply (cga_finish _ 1840); [exact (f_equal Z.of_nat Hlen)|lia]|].
    intros [] s' [Hc Hs']. split.
    + split; [|lia]. rewrite Hs', length_insert. exact (f_equal Z.of_nat Hlen).
    + exists 80%nat. split; [auto|]. split; [lia|]. intros i Hi'. rewrite Hs', list_lookup_insert_ne by lia. apply Hi. lia.
  - assert (pos < 1920) by (apply Z.div_lt_upper_bound in Hs || (pose proof (Z.mul_div_le pos 80); pose proof (Z.mod_pos_bound pos 80); pose proof (Z.div_mod pos 80); lia)).
    apply returns_bind, returns_ret. eapply returns_mono; [apply (cga_finish s pos); [done|lia]|]. intros [] s' [Hc Hs']. split.
    + split; [|lia]. by rewrite Hs', length_insert.
    + exists 0%nat. split; [auto|]. split; [lia|]. intros i Hi. rewrite Hs', list_lookup_insert_ne by lia. by rewrite Nat.add_0_r.
Qed.

Lemma cgaputc_ok c s : screen_ok s → returns (cgaputc c) s (λ _ s', screen_ok s' ∧ shown c s s').
Proof.
  intros [Hl Hc]. unfold cgaputc, crt_in. mgo. cbn [crt_sel crt_reg set]. fold (cursor s). set (s1 := _ <| crt_sel := 15 |>).
  assert (E1 : crt s1 = crt s) by done. unfold CRTSIZE in Hl.
  assert (Hplace : ∀ s2 pos, Z.of_nat (length (crt s2)) = CRTSIZE → 0 ≤ pos ≤ 24 * 80 →
    (∀ i, Z.of_nat i < Z.min pos (cursor s) → crt s2 !! i = crt s !! i) →
    (cursor s - (if c =? BACKSPACE then 1 else 0) ≤ pos) →
    (c ≠ 10 → c ≠ BACKSPACE → 1 ≤ pos ∧ crt s2 !! Z.to_nat (pos - 1) = Some (Z.lor (Z.land c 255) 1792)) →
    returns (if (pos <? 0) || (CRTSIZE <? pos) then panic "pos under/overflow" else
      pos ← (if 24 <=? pos / 80 then _ ← crt_scroll; let pos := pos - 80 in _ ← crt_clear pos; mret pos else mret pos);
      _ ← crt_out 14 (Z.shiftr pos 8); _ ← crt_out 15 pos; crt_set pos (Z.lor 32 1792)) s2
      (λ _ s', screen_ok s' ∧ shown c s s')).
  { intros s2 pos Hl2 Hp Hkeep Hle Hchar. unfold CRTSIZE at 1.
    rewrite (proj2 (Z.ltb_ge pos 0)), (proj2 (Z.ltb_ge _ pos)) by lia. cbn [orb].
    eapply returns_mono; [by apply cga_place|]. intros [] s' [Hok (d & Hd & Hcur & Hcells)]. split; [done|].
    exists d. split_and!; [naive_solver| |].
    - intros i Hi. rewrite Hcells by (destruct (c =? BACKSPACE); lia). apply Hkeep. destruct (c =? BACKSPACE); lia.
    - intros H1 H2. destruct (Hchar H1 H2) as [Hpos Hcell]. destruct Hok as [_ Hok]. rewrite Hcur in *.
      rewrite Hcells by lia. rewrite <- Hcell. f_equal. lia. }
  destruct (Z.eqb_spec c 10) as [->|Hn]; [|destruct (Z.eqb_spec c BACKSPACE) as [->|Hb]].
  - pose proof (Z.mod_pos_bound (cursor s) 80 ltac:(lia)). pose proof (Z.div_mod (cursor s) 80 ltac:(lia)).
    apply returns_ret. apply Hplace; rewrite ?E1; try done; change (10 =? BACKSPACE) with false; cbn iota; lia.
  - apply returns_ret. apply Hplace; rewrite ?E1; try done; rewrite ?Z.eqb_refl; case_match; lia.
  - apply returns_bind. unfold crt_set at 1. mgo. rewrite E1.
    rewrite (proj2 (Z.leb_le 0 _)), (proj2 (Z.ltb_lt _ _)) by lia. cbn [andb]. mgo. apply Hplace; cbn [crt set].
    + by rewrite length_insert.
    + lia.
    + intros i Hi. apply list_lookup_insert_ne. lia.
    + lia.
    + intros _ _. split; [lia|]. replace (cursor s + 1 - 1) with (cursor s) by lia. apply list_lookup_insert_eq. lia.
Qed.

(** [cgaputc] neither panics nor touches memory outside the screen; the cursor
    stays on the first 24 rows, the text before it is kept, moved up by one row when
    the screen scrolls, and an ordinary character is right before the new cursor. *)
Theorem cgaputc_on_screen c s : screen_ok s → returns (cgaputc c) s (λ _ s', screen_ok s' ∧ shown c s s').
Proof. apply cgaputc_ok. Qed.

Definition demo_screen : screen := mkscreen (replicate 2000 0) 0 (λ _, 0).

Lemma demo_screen_ok : screen_ok demo_screen.
Proof. split; [cbn [crt demo_screen]; by rewrite length_replicate|done]. Qed.

Lemma cgaputc_on_screen_witness : returns (cgaputc 65) demo_screen (λ _ s', screen_ok s' ∧ shown 65 demo_screen s').
Proof. apply (cgaputc_on_screen 65), demo_screen_ok. Defined.

(** ** The line editor as a queue of lines

    [ready] are the characters readers may take, [edit] the line being typed. *)

Definition slice (s : console) (a n : Z) : list Z :=
  (λ k : nat, buf s ((a + Z.of_nat k) mod INPUT_BUF)) <$> seq 0 (Z.to_nat n).

Definition ready (s : console) : list Z := slice s (r s) (u32 (w s - r s)).
Definition edit (s : console) : list Z := slice s (w s) (u32 (e s - w s)).

Record cons_ok (s : console) : Prop := {
  co_r : 0 ≤ r s < two32;
  co_w : 0 ≤ w s < two32;
  co_e : 0 ≤ e s < two32;
  co_len : u32 (w s - r s) + u32 (e s - w s) ≤ INPUT_BUF;
  co_edit : 10 ∉ edit s;
  co_live : panicked s = false;
  co_scr : screen_ok (scr s)
}.

(** What a character does to the lines. *)
Definition typed (c : Z) (l : list Z * list Z) : list Z * list Z :=
  let '(rd, ed) := l in
  if c =? CTRL 80 then (rd, ed)
  else if c =? CTRL 85 then (rd, [])
  else if (c =? CTRL 72) || (c =? 127) then (rd, removelast ed)
  else if (c =? 0) || (INPUT_BUF <=? Z.of_nat (length rd + length ed)) then (rd, ed)
  else
    let c := if c =? 13 then 10 else c in
    if (c =? 10) || (c =? CTRL 68) || (Z.of_nat (length rd + length ed) =? INPUT_BUF - 1)
    then (rd ++ ed ++ [c], []) else (rd, ed ++ [c]).

(** What a reader that has [l] already and wants [n] more takes from the ready
    characters: up to a newline, or up to an end of file, which is left for the next
    read unless it comes first. *)
Fixpoint take_line (killed : bool) (l : list Z) (n : nat) (rd : list Z) : read_res * list Z :=
  match n, rd with
  | O, _ => (Rdone l, rd)
  | _, [] => (if killed then Rfail else Rsleep l n, [])
  | S n, c :: rd' =>
      if c =? CTRL 68 then (Rdone l, if bool_decide (l = []) then rd' else rd)
      else if c =? 10 then (Rdone (l ++ [c]), rd')
      else take_line killed (l ++ [c]) n rd'
  end.

(** *** Counters and slices *)

Lemma u32_buf x : u32 x mod INPUT_BUF = x mod INPUT_BUF.
Proof.
  unfold u32, two32, INPUT_BUF. change 4294967296 with (128 * 33554432).
  rewrite Z.rem_mul_r by lia. rewrite Z.mul_comm, Z_mod_plus_full. by apply Z.mod_mod.
Qed.

Lemma slice_length s a n : length (slice s a n) = Z.to_nat n.
Proof. unfold slice. by rewrite length_fmap, length_seq. Qed.

Lemma slice_cong s a b n : a mod INPUT_BUF = b mod INPUT_BUF → slice s a n = slice s b n.
Proof.
  intros H. unfold slice. apply list_fmap_ext. intros i k _. f_equal.
  rewrite <- (Zplus_mod_idemp_l a), <- (Zplus_mod_idemp_l b). by rewrite H.
Qed.

Lemma slice_app s a n m : 0 ≤ n → 0 ≤ m → slice s a (n + m) = slice s a n ++ slice s (a + n) m.
Proof.
  intros Hn Hm. unfold slice. rewrite Z2Nat.inj_add, seq_app, fmap_app by lia. f_equal.
  rewrite Nat.add_0_l. apply list_eq. intros i. rewrite !list_lookup_fmap.
  destruct (decide (i < Z.to_nat m)%nat) as [Hi|Hi].
  - rewrite !lookup_seq_lt by lia. cbn. do 3 f_equal. lia.
  - rewrite !lookup_seq_ge by lia. done.
Qed.

Lemma slice_one s a : slice s a 1 = [buf s (a mod INPUT_BUF)].
Proof. unfold slice. change (seq 0 (Z.to_nat 1)) with [0%nat]. cbn [fmap list_fmap]. change (Z.of_nat 0) with 0. by rewrite Z.add_0_r. Qed.

(** Writing a slot behind a slice. *)
Lemma slice_upd s s' a n x c : buf s' = upd (buf s) ((a + x) mod INPUT_BUF) c → 0 ≤ n → n ≤ x < INPUT_BUF →
  slice s' a n = slice s a n.
Proof.
  intros E Hn Hx. unfold slice. apply list_fmap_ext. intros i k [-> Hk]%lookup_seq. rewrite E. apply upd_ne.
  intros Hm. assert (x = Z.of_nat i); [|lia].
  rewrite <- (Z.mod_small x INPUT_BUF), <- (Z.mod_small (Z.of_nat i) INPUT_BUF) by lia.
  apply (f_equal (λ z, (z - a) mod INPUT_BUF)) in Hm. rewrite !Zminus_mod_idemp_l in Hm.
  replace (a + Z.of_nat (0 + i) - a) with (Z.of_nat i) in Hm by lia. replace (a + x - a) with x in Hm by lia. done.
Qed.

(** Lengths of the parts, and counters in terms of them. *)
Definition nready (s : console) : Z := u32 (w s - r s).
Definition nedit (s : console) : Z := u32 (e s - w s).

Lemma u32_diff a b : 0 ≤ b < two32 → b = u32 (a + u32 (b - a)).
Proof. intros Hb. unfold u32. rewrite Zplus_mod_idemp_r. replace (a + (b - a)) with b by lia. symmetry. by apply Z.mod_small. Qed.

Lemma u32_eq_iff a b : 0 ≤ a < two32 → 0 ≤ b < two32 → u32 (b - a) = 0 ↔ b = a.
Proof.
  intros Ha Hb. split; [|intros ->; by rewrite Z.sub_diag]. intros E. rewrite (u32_diff a b Hb), E, Z.add_0_r. by apply u32_small.
Qed.

Lemma nparts s : 0 ≤ nready s ∧ 0 ≤ nedit s.
Proof. split; apply u32_range. Qed.

Lemma edit_empty s : cons_ok s → (e s =? w s) = (nedit s =? 0).
Proof.
  intros []. apply eq_iff_eq_true. rewrite !Z.eqb_eq. unfold nedit. by rewrite u32_eq_iff.
Qed.

Lemma ready_empty s : cons_ok s → (r s =? w s) = (nready s =? 0).
Proof.
  intros []. apply eq_iff_eq_true. rewrite !Z.eqb_eq. unfold nready. rewrite u32_eq_iff by done. naive_solver.
Qed.

Lemma total_len s : cons_ok s → u32 (e s - r s) = nready s + nedit s.
Proof.
  intros []. destruct (nparts s). unfold nready, nedit, INPUT_BUF in *.
  rewrite <- (u32_small (u32 (w s - r s) + u32 (e s - w s))) by (unfold two32; lia).
  unfold u32. rewrite <- Zplus_mod. f_equal. lia.
Qed.

(** *** Output leaves the lines alone *)

Definition same_lines (s s' : console) : Prop :=
  buf s' = buf s ∧ r s' = r s ∧ w s' = w s ∧ e s' = e s ∧ cons_lock s' = cons_lock s ∧ ip_lock s' = ip_lock s ∧
  panicked s' = panicked s ∧ screen_ok (scr s').

Lemma consputc_ok c s : panicked s = false → screen_ok (scr s) → returns (consputc c) s (λ _ s', same_lines s s').
Proof.
  intros Hp Hs. unfold consputc. mgo. rewrite Hp.
  assert (Hu : ∀ c s1, same_lines s s1 → returns (uartputc c) s1 (λ _ s2, same_lines s s2)).
  { intros c1 s1 H. unfold uartputc. mgo. unfold when. destruct (uart s1); mgo; done. }
  assert (H0 : same_lines s s) by by repeat split; try apply Hs.
  apply returns_bind. eapply returns_mono with (P := λ _ s1, same_lines s s1).
  - case_match; [|by apply Hu]. apply returns_bind. eapply returns_mono; [by apply Hu|]. intros [] s1 H1.
    apply returns_bind. eapply returns_mono; [by apply Hu|]. intros [] s2 H2. by apply Hu.
  - intros [] s1 (E1 & E2 & E3 & E4 & E5 & E6 & E7 & Hs1). unfold on_screen, zoom, returns.
    pose proof (cgaputc_ok c (scr s1) Hs1) as Hc. unfold returns in Hc. destruct (cgaputc c (scr s1)); try done.
    by repeat split; try apply Hc.
Qed.

Lemma slice_same s s' a n : buf s' = buf s → slice s' a n = slice s a n.
Proof. intros E. unfold slice. by rewrite E. Qed.

(** The two parts, and the locks with them. *)
Definition lines (s : console) : list Z * list Z := (ready s, edit s).
Definition locks (s : console) : bool * bool := (cons_lock s, ip_lock s).

Lemma same_lines_ok s s' : cons_ok s → same_lines s s' → cons_ok s' ∧ lines s' = lines s ∧ locks s' = locks s.
Proof.
  intros [Hr Hw He Hl Hed Hp Hs] (E1 & E2 & E3 & E4 & E5 & E6 & E7 & Hs').
  assert (Er : ready s' = ready s) by (unfold ready; rewrite E2, E3; by apply slice_same).
  assert (Ee : edit s' = edit s) by (unfold edit; rewrite E3, E4; by apply slice_same).
  unfold lines, locks. rewrite Er, Ee, E5, E6. split; [|done].
  constructor; rewrite ?E2, ?E3, ?E4, ?E7, ?Ee; done.
Qed.

Lemma edit_last s : cons_ok s → 0 < nedit s →
  edit s = slice s (w s) (nedit s - 1) ++ [buf s (u32 (e s - 1) mod INPUT_BUF)].
Proof.
  intros [Hr Hw He Hl _ _ _] Hn. unfold edit. fold (nedit s). replace (nedit s) with (nedit s - 1 + 1) at 1 by lia.
  rewrite slice_app by lia. f_equal. rewrite slice_one, u32_buf. do 2 f_equal.
  rewrite (u32_diff (w s) (e s) He). fold (nedit s). rewrite <- (Zminus_mod_idemp_l (u32 _)), u32_buf, Zminus_mod_idemp_l. f_equal. lia.
Qed.

Lemma u32_pred a b : 0 ≤ b < two32 → 0 < u32 (b - a) → u32 (u32 (b - 1) - a) = u32 (b - a) - 1.
Proof.
  intros Hb Hp. rewrite <- (u32_small (u32 (b - a) - 1)) by (pose proof (u32_range (b - a)); lia).
  unfold u32. rewrite !Zminus_mod_idemp_l. f_equal. lia.
Qed.

Lemma u32_succ a b : 0 ≤ b < two32 → u32 (b - a) + 1 < two32 → u32 (u32 (b + 1) - a) = u32 (b - a) + 1.
Proof.
  intros Hb Hp. rewrite <- (u32_small (u32 (b - a) + 1)) by (pose proof (u32_range (b - a)); lia).
  unfold u32. rewrite Zminus_mod_idemp_l, Zplus_mod_idemp_l. f_equal. lia.
Qed.

(** Taking back the last character. *)
Lemma erase_ok s : cons_ok s → 0 < nedit s →
  let s' := s <| e := u32 (e s - 1) |> in
  cons_ok s' ∧ lines s' = (ready s, removelast (edit s)) ∧ nedit s' = nedit s - 1 ∧
  buf s (u32 (e s - 1) mod INPUT_BUF) ≠ 10.
Proof.
  intros Hok Hn s'. pose proof (edit_last s Hok Hn) as El. destruct Hok as [Hr Hw He Hl Hed Hp Hs].
  assert (En : nedit s' = nedit s - 1) by (by apply u32_pred).
  assert (Ee : edit s' = slice s (w s) (nedit s - 1)).
  { unfold edit. fold (nedit s'). rewrite En. by apply slice_same. }
  rewrite El in Hed |- *. rewrite removelast_last. split_and!; [|unfold lines; by rewrite Ee|done|].
  - constructor; try done; [apply u32_range| |rewrite Ee].
    + fold (nready s') (nedit s'). rewrite En. change (nready s') with (nready s). unfold nready, nedit in *. lia.
    + intros H. apply Hed, elem_of_app. by left.
  - intros E. apply Hed, elem_of_app. right. rewrite E. left.
Qed.

Lemma kill_line_ok fuel s : cons_ok s → nedit s < Z.of_nat fuel →
  returns (kill_line fuel) s (λ _ s', cons_ok s' ∧ lines s' = (ready s, []) ∧ locks s' = locks s).
Proof.
  revert s. induction fuel as [|fuel IH]; intros s Hok Hf; [destruct (nparts s); lia|]. cbn [kill_line]. mgo. cbn [id].
  rewrite edit_empty by done. destruct (nparts s) as [_ Hn]. destruct (Z.eqb_spec (nedit s) 0) as [E|E].
  - cbn [negb andb]. mgo. split_and!; [done| |done]. unfold lines, edit. fold (nedit s). by rewrite E.
  - destruct (erase_ok s Hok ltac:(lia)) as (Hok' & El & En & Hne). rewrite (proj2 (Z.eqb_neq _ 10)) by done. cbn [negb andb].
    mgo. eapply returns_mono; [apply consputc_ok; apply Hok'|]. intros [] s2 Hs2.
    destruct (same_lines_ok _ _ Hok' Hs2) as (Hok2 & El2 & Ek2).
    assert (En2 : nedit s2 = nedit s - 1) by (unfold nedit; destruct Hs2 as (_ & _ & -> & -> & _); exact En).
    eapply returns_mono; [apply IH; [done|lia]|]. intros [] s3 (Hok3 & El3 & Ek3).
    split_and!; [done| |by rewrite Ek3, Ek2]. rewrite El3. unfold lines in *. congruence.
Qed.

(** Putting a character behind the line. *)
Lemma e_index s : cons_ok s → e s mod INPUT_BUF = (r s + (nready s + nedit s)) mod INPUT_BUF ∧
  e s mod INPUT_BUF = (w s + nedit s) mod INPUT_BUF.
Proof.
  intros Hok. pose proof (total_len s Hok) as Ht. destruct Hok as [Hr Hw He _ _ _ _]. split.
  - rewrite <- Ht, (u32_diff (r s) (e s) He) at 1. apply u32_buf.
  - rewrite (u32_diff (w s) (e s) He) at 1. apply u32_buf.
Qed.

Lemma append_ok s c : cons_ok s → nready s + nedit s < INPUT_BUF →
  let s' := s <| buf := upd (buf s) (e s mod INPUT_BUF) c |> <| e := u32 (e s + 1) |> in
  lines s' = (ready s, edit s ++ [c]) ∧ nready s' = nready s ∧ nedit s' = nedit s + 1 ∧
  (e s' =? u32 (r s' + INPUT_BUF)) = (nready s + nedit s + 1 =? INPUT_BUF).
Proof.
  intros Hok Hlt s'. destruct (e_index s Hok) as [E1 E2]. destruct (nparts s). pose proof (total_len s Hok) as Ht.
  pose proof Hok as [Hr Hw He _ _ _ _]. unfold INPUT_BUF in Hlt.
  assert (En : nedit s' = nedit s + 1) by (apply (u32_succ (w s) (e s)); [done|fold (nedit s); unfold two32; lia]).
  assert (Et : u32 (e s' - r s') = nready s + nedit s + 1).
  { rewrite <- Ht. apply (u32_succ (r s) (e s)); [done|]. rewrite Ht. unfold two32. lia. }
  split_and!; [|done|done|].
  - unfold lines. f_equal.
    + unfold ready. change (u32 (w s' - r s')) with (nready s). fold (nready s).
      apply (slice_upd s s' (r s) (nready s) (nready s + nedit s) c); [by rewrite <- E1|lia|unfold INPUT_BUF; lia].
    + unfold edit. fold (nedit s') (nedit s). rewrite En, slice_app by lia. f_equal.
      * apply (slice_upd s s' (w s) (nedit s) (nedit s) c); [by rewrite <- E2|lia|unfold INPUT_BUF; lia].
      * rewrite slice_one. change (w s') with (w s). rewrite <- E2. cbn [buf s' set]. by rewrite upd_eq.
  - apply eq_iff_eq_true. rewrite !Z.eqb_eq. rewrite <- Et. unfold INPUT_BUF. split.
    + intros E. rewrite E. unfold u32. rewrite Zminus_mod_idemp_l. replace (r s' + 128 - r s') with 128 by lia. done.
    + intros E. rewrite (u32_diff (r s') (e s')) by apply u32_range. by rewrite E.
Qed.

Lemma commit_line_ok s0 s : cons_ok s0 → nready s = nready s0 → nedit s = nedit s0 + 1 → nready s + nedit s ≤ INPUT_BUF →
  0 ≤ r s < two32 → 0 ≤ w s < two32 → 0 ≤ e s < two32 → panicked s = false → screen_ok (scr s) →
  let s' := s <| w := e s |> <| wakeups := S (wakeups s) |> in
  cons_ok s' ∧ lines s' = (ready s ++ edit s, []).
Proof.
  intros Hok0 Er Ee Hle Hr Hw He Hp Hs s'. destruct (nparts s).
  assert (En : nedit s' = 0) by (unfold nedit; cbn; by rewrite Z.sub_diag).
  assert (Et : nready s' = nready s + nedit s).
  { unfold nready at 1. cbn. unfold INPUT_BUF in Hle.
    rewrite <- (u32_small (nready s + nedit s)) by (unfold two32; lia). unfold nready, nedit, u32. rewrite <- Zplus_mod. f_equal. lia. }
  assert (Ed : edit s' = []) by (unfold edit; fold (nedit s'); by rewrite En).
  split.
  - constructor; try done; [fold (nready s') (nedit s'); lia|]. rewrite Ed. apply not_elem_of_nil.
  - unfold lines. rewrite Ed. f_equal. unfold ready. fold (nready s') (nready s). rewrite Et, slice_app by lia.
    f_equal. unfold edit. fold (nedit s).
    rewrite (slice_same s s') by done. apply slice_cong. rewrite (u32_diff (r s) (w s) Hw). fold (nready s). symmetry. apply u32_buf.
Qed.

Lemma lines_length s : Z.of_nat (length (ready s) + length (edit s)) = nready s + nedit s.
Proof. unfold ready, edit. rewrite !slice_length. fold (nready s) (nedit s). destruct (nparts s). lia. Qed.

(** An ordinary character. *)
Lemma cons_insert_ok c s : cons_ok s → nready s + nedit s < INPUT_BUF →
  returns (_ ← modify (λ s, s <| buf := upd (buf s) (e s mod INPUT_BUF) c |> <| e := u32 (e s + 1) |>);
           _ ← consputc c;
           s ← gets id;
           when ((c =? 10) || (c =? CTRL 68) || (e s =? u32 (r s + INPUT_BUF)))
             (modify (λ s, s <| w := e s |> <| wakeups := S (wakeups s) |>))) s
    (λ _ s', cons_ok s' ∧ locks s' = locks s ∧
       lines s' = if (c =? 10) || (c =? CTRL 68) || (nready s + nedit s =? INPUT_BUF - 1)
                  then (ready s ++ edit s ++ [c], []) else (ready s, edit s ++ [c])).
Proof.
  intros Hok Hlt. mgo. set (s1 := s <| buf := _ |> <| e := _ |>).
  destruct (append_ok s c Hok Hlt) as (El & Er & Ee & Efull). fold s1 in El, Er, Ee, Efull.
  pose proof Hok as [Hr Hw He Hl Hed Hp Hs]. destruct (nparts s).
  eapply returns_mono; [by apply (consputc_ok c s1)|]. intros [] s2 (E1 & E2 & E3 & E4 & E5 & E6 & E7 & Hs2). mgo. cbn [id].
  rewrite E4, E2, Efull. replace (nready s + nedit s + 1 =? INPUT_BUF) with (nready s + nedit s =? INPUT_BUF - 1)
    by (apply eq_iff_eq_true; rewrite !Z.eqb_eq; lia).
  assert (Er2 : ready s2 = ready s) by (unfold ready; rewrite (slice_same s1) by done; rewrite E2, E3; by injection El).
  assert (Ee2 : edit s2 = edit s ++ [c]) by (unfold edit; rewrite (slice_same s1) by done; rewrite E3, E4; by injection El).
  assert (Hn2 : nready s2 = nready s ∧ nedit s2 = nedit s + 1) by (unfold nready, nedit; rewrite E2, E3, E4; done).
  destruct Hn2 as [Hn2 Hm2]. destruct (_ || _) eqn:Ec; cbn [when]; mgo.
  - destruct (commit_line_ok s s2) as [Hok' El']; try done; [lia|rewrite E2; done|rewrite E3; done|rewrite E4; apply u32_range|by rewrite E7|].
    split_and!; [done|unfold locks; cbn; by rewrite E5, E6|]. rewrite El', Er2, Ee2. done.
  - split_and!; [|unfold locks; by rewrite E5, E6|unfold lines; by rewrite Er2, Ee2].
    rewrite !orb_false_iff in Ec. destruct Ec as [[Ec _] Ef]. apply Z.eqb_neq in Ec, Ef. constructor; try done.
    + by rewrite E2.
    + by rewrite E3.
    + rewrite E4. apply u32_range.
    + fold (nready s2) (nedit s2). lia.
    + rewrite Ee2, elem_of_app, list_elem_of_singleton. naive_solver.
    + by rewrite E7.
Qed.

Lemma cons_char_ok c s : cons_ok s → c ≠ CTRL 80 →
  returns (cons_char c) s (λ _ s', cons_ok s' ∧ lines s' = typed c (lines s) ∧ locks s' = locks s).
Proof.
  intros Hok Hc. destruct (nparts s) as [Hn Hm]. unfold cons_char, typed, lines. rewrite (proj2 (Z.eqb_neq c (CTRL 80))) by done.
  destruct (c =? CTRL 85).
  { apply kill_line_ok; [done|]. pose proof (co_len s Hok) as Hl. unfold INPUT_BUF in Hl. fold (nready s) (nedit s) in Hl. lia. }
  destruct ((c =? CTRL 72) || (c =? 127)).
  - mgo. cbn [id]. rewrite edit_empty by done. destruct (Z.eqb_spec (nedit s) 0) as [E|E]; cbn [negb]; mgo.
    + assert (Ed : edit s = []) by (unfold edit; fold (nedit s); by rewrite E). by rewrite Ed.
    + destruct (erase_ok s Hok ltac:(lia)) as (Hok' & El & _ & _).
      eapply returns_mono; [apply consputc_ok; apply Hok'|]. intros [] s2 Hs2.
      destruct (same_lines_ok _ _ Hok' Hs2) as (Hok2 & El2 & Ek2). split_and!; [done| |done]. unfold lines in *. congruence.
  - mgo. cbn [id]. rewrite total_len by done. rewrite (lines_length s).
    destruct (Z.eqb_spec c 0) as [->|Hc0]; cbn [negb andb orb]; [by mgo|].
    destruct (Z.ltb_spec (nready s + nedit s) INPUT_BUF) as [Hlt|Hge]; cbn [when].
    + rewrite (proj2 (Z.leb_gt INPUT_BUF _)) by done. cbv zeta. eapply returns_mono; [by apply cons_insert_ok|].
      intros [] s' (Hok' & Hk & El). done.
    + rewrite (proj2 (Z.leb_le INPUT_BUF _)) by done. by mgo.
Qed.

Lemma cons_chars_ok cs s dump : cons_ok s →
  returns (cons_chars cs dump) s (λ d s', cons_ok s' ∧ lines s' = foldl (flip typed) (lines s) cs ∧ locks s' = locks s ∧
    d = dump || bool_decide (CTRL 80 ∈ cs)).
Proof.
  revert s dump. induction cs as [|c cs IH]; intros s dump Hok; cbn [cons_chars foldl].
  - mgo. split_and!; [done..|]. rewrite bool_decide_eq_false_2 by apply not_elem_of_nil. by rewrite orb_false_r.
  - destruct (Z.eqb_spec c (CTRL 80)) as [->|Hc].
    + eapply returns_mono; [by apply IH|]. intros d s' (Hok' & El & Hk & ->). split_and!; [done| |done|].
      * rewrite El. by destruct (lines s).
      * rewrite (bool_decide_eq_true_2 (_ ∈ _ :: cs)) by left. by rewrite orb_true_r.
    + mgo. eapply returns_mono; [by apply cons_char_ok|]. intros [] s1 (Hok1 & El1 & Hk1).
      eapply returns_mono; [by apply IH|]. intros d s' (Hok' & El & Hk & ->). split_and!; [done| |congruence|].
      * by rewrite El, El1.
      * f_equal. apply bool_decide_ext. rewrite elem_of_cons. naive_solver.
Qed.

(** *** Reading *)

Lemma advance_ok s : cons_ok s → 0 < nready s →
  let s' := s <| r := u32 (r s + 1) |> in
  cons_ok s' ∧ edit s' = edit s ∧ ready s = buf s (r s mod INPUT_BUF) :: ready s'.
Proof.
  intros [Hr Hw He Hl Hed Hp Hs] Hn s'. destruct (nparts s).
  assert (En : nready s' = nready s - 1).
  { unfold nready. cbn. rewrite <- (u32_small (u32 (w s - r s) - 1)) by (pose proof (u32_range (w s - r s)); fold (nready s) in *; lia).
    unfold u32. rewrite Zminus_mod_idemp_r, Zminus_mod_idemp_l. f_equal. lia. }
  split_and!; [|done|].
  - constructor; try done; [apply u32_range|]. fold (nready s') (nedit s'). rewrite En. change (nedit s') with (nedit s).
    fold (nready s) (nedit s) in Hl. lia.
  - unfold ready. fold (nready s') (nready s). replace (nready s) with (1 + nready s') by lia.
    rewrite slice_app by lia. rewrite slice_one. cbn [app]. f_equal.
    rewrite (slice_same s s') by done. apply slice_cong. symmetry. apply u32_buf.
Qed.

Lemma u32_back x : 0 ≤ x < two32 → u32 (u32 (x + 1) - 1) = x.
Proof. intros Hx. unfold u32. rewrite Zminus_mod_idemp_l. replace (x + 1 - 1) with x by lia. by apply Z.mod_small. Qed.

(** The state in which a call ends. *)
Definition ends (res : read_res) (s : console) : Prop :=
  locks s = (false, match res with Rsleep _ _ => false | _ => true end).

Lemma leave_ok s res : cons_ok s → locks s = (true, false) → (∀ l n, res ≠ Rsleep l n) →
  returns (_ ← release_cons; _ ← ilock; mret res) s (λ res' s', res' = res ∧ cons_ok s' ∧ lines s' = lines s ∧ ends res s').
Proof.
  intros Hok [= E1 E2] Hres. unfold release_cons, ilock. mgo. rewrite E1. mgo. cbn [ip_lock set]. rewrite E2. mgo.
  split_and!; [done|by destruct Hok|done|]. unfold ends, locks. cbn. destruct res; [done..|by edestruct Hres].
Qed.

Lemma read_loop_ok killed n l s : cons_ok s → locks s = (true, false) →
  returns (read_loop killed l n) s (λ res s', cons_ok s' ∧ ends res s' ∧ edit s' = edit s ∧
    (res, ready s') = take_line killed l n (ready s)).
Proof.
  assert (Hleave : ∀ s0 s1 res l2, cons_ok s1 → locks s1 = (true, false) → (∀ l n, res ≠ Rsleep l n) →
    edit s1 = edit s0 → ready s1 = l2 →
    returns (_ ← release_cons; _ ← ilock; mret res) s1 (λ res' s', cons_ok s' ∧ ends res' s' ∧ edit s' = edit s0 ∧
      (res', ready s') = (res, l2))).
  { intros s0 s1 res l2 Hok Hk Hres He Hrd. eapply returns_mono; [by apply leave_ok|].
    intros res' s' (-> & Hok' & [= El1 El2] & Hends). split_and!; [done|done|congruence|congruence]. }
  revert l s. induction n as [|n IH]; intros l s Hok Hk; cbn [read_loop].
  { assert (E : take_line killed l 0 (ready s) = (Rdone l, ready s)) by by destruct (ready s). rewrite E. by apply Hleave. }
  mgo. cbn [id]. rewrite ready_empty by done. destruct (nparts s). destruct (Z.eqb_spec (nready s) 0) as [En|En].
  - assert (Er : ready s = []) by (unfold ready; fold (nready s); by rewrite En). rewrite Er. cbn [take_line].
    destruct killed; [by apply Hleave|]. unfold release_cons. mgo. pose proof Hk as [= E1 E2]. rewrite E1. mgo.
    split_and!; [by destruct Hok|unfold ends, locks; cbn; by rewrite E2|done|]. by rewrite <- Er.
  - destruct (advance_ok s Hok ltac:(lia)) as (Hok1 & Ee1 & Er1). rewrite Er1. set (c := buf s _) in *. cbn [take_line].
    set (s1 := s <| r := _ |>) in *. mgo. fold s1. destruct (c =? CTRL 68) eqn:Ec; [|destruct (c =? 10) eqn:Ec2].
    + case_bool_decide as El; cbn [negb when]; apply returns_bind; [apply returns_ret; by apply Hleave|apply returns_modify].
      assert (Es : s1 <| r := u32 (r s1 - 1) |> = s).
      { unfold s1. destruct s. cbn. by rewrite u32_back by apply Hok. }
      rewrite Es. by apply Hleave.
    + by apply Hleave.
    + eapply returns_mono; [by apply IH|]. intros res s' (H1 & H2 & H3 & H4). split_and!; [done|done|congruence|done].
Qed.

Lemma put_chars_ok l s : cons_ok s → returns (put_chars l) s (λ _ s', cons_ok s' ∧ lines s' = lines s ∧ locks s' = locks s).
Proof.
  revert s. induction l as [|c l IH]; intros s Hok; cbn [put_chars]; [by mgo|]. mgo.
  eapply returns_mono; [apply consputc_ok; apply Hok|]. intros [] s1 Hs1. destruct (same_lines_ok _ _ Hok Hs1) as (Hok1 & El & Hk).
  eapply returns_mono; [by apply IH|]. intros [] s2 (H1 & H2 & H3). split_and!; [done|congruence..].
Qed.

(** ** Sessions *)

(** An interrupt with the characters it delivers; a read; a sleeping read that
    has been woken; a write.  The callers of the device calls hold the inode lock. *)
Inductive cop :=
| Typed (cs : list Z)
| Read (killed : bool) (n : nat)
| Resume (killed : bool) (l : list Z) (n : nat)
| Write (l : list Z).

Inductive cres := Nothing | Got (res : read_res) | Wrote (n : Z).

Definition run_op (o : cop) : M console cres :=
  match o with
  | Typed cs => _ ← consoleintr cs; mret Nothing
  | Read killed n =>
      _ ← modify (λ s, s <| ip_lock := true |>);
      res ← consoleread killed n; mret (Got res)
  | Resume killed l n =>
      _ ← modify (λ s, s <| ip_lock := false |>);
      res ← consoleread_resumed killed l n; mret (Got res)
  | Write l =>
      _ ← modify (λ s, s <| ip_lock := true |>);
      n ← consolewrite l; mret (Wrote n)
  end.

Fixpoint run_ops (os : list cop) : M console (list cres) :=
  match os with [] => mret [] | o :: os => x ← run_op o; xs ← run_ops os; mret (x :: xs) end.

(** The same on the lines. *)
Definition line_op (o : cop) (l : list Z * list Z) : cres * (list Z * list Z) :=
  match o with
  | Typed cs => (Nothing, foldl (flip typed) l cs)
  | Read killed n => let '(res, rd) := take_line killed [] n l.1 in (Got res, (rd, l.2))
  | Resume killed got n => let '(res, rd) := take_line killed got n l.1 in (Got res, (rd, l.2))
  | Write bs => (Wrote (Z.of_nat (length bs)), l)
  end.

Fixpoint line_ops (os : list cop) (l : list Z * list Z) : list cres * (list Z * list Z) :=
  match os with
  | [] => ([], l)
  | o :: os => let '(x, l) := line_op o l in let '(xs, l) := line_ops os l in (x :: xs, l)
  end.

Lemma with_ip s b : cons_ok s → cons_ok (s <| ip_lock := b |>).
Proof. by intros []. Qed.

Lemma with_lock s b : cons_ok s → cons_ok (s <| cons_lock := b |>).
Proof. by intros []. Qed.

Lemma read_lines_ok killed l n s s0 : cons_ok s → locks s = (true, false) → lines s = lines s0 →
  returns (read_loop killed l n) s (λ res s', cons_ok s' ∧ cons_lock s' = false ∧
    (Got res, lines s') = let '(res, rd) := take_line killed l n (lines s0).1 in (Got res, (rd, (lines s0).2))).
Proof.
  intros Hok Hk <-. eapply returns_mono; [by apply read_loop_ok|]. intros res s' (Hok' & [= E1 E2] & Ee & Et).
  split_and!; [done|done|]. cbn [lines fst snd]. rewrite <- Et. unfold lines. by rewrite Ee.
Qed.

Lemma run_op_ok o s : cons_ok s → cons_lock s = false →
  returns (run_op o) s (λ x s', cons_ok s' ∧ cons_lock s' = false ∧ (x, lines s') = line_op o (lines s)).
Proof.
  intros Hok Hk. destruct o as [cs|killed n|killed l n|l]; cbn [run_op line_op].
  - unfold consoleintr, acquire_cons. mgo. rewrite Hk. mgo.
    eapply returns_mono; [apply cons_chars_ok; by apply with_lock|]. intros d s1 (Hok1 & El1 & [= E1 E2] & _).
    unfold release_cons. mgo. rewrite E1. cbn. mgo. unfold when. destruct d; mgo; (split_and!; [by destruct Hok1|done|by f_equal]).
  - unfold consoleread, iunlock, acquire_cons. mgo. cbn [ip_lock set]. mgo. cbn [cons_lock set]. rewrite Hk. mgo.
    eapply returns_mono; [apply (read_lines_ok _ _ _ _ s); by try destruct Hok|]. intros res s' ?. by mgo.
  - unfold consoleread_resumed, acquire_cons. mgo. cbn [cons_lock set]. rewrite Hk. mgo.
    eapply returns_mono; [apply (read_lines_ok _ _ _ _ s); by try destruct Hok|]. intros res s' ?. by mgo.
  - unfold consolewrite, iunlock, acquire_cons. mgo. cbn [ip_lock set]. mgo. cbn [cons_lock set]. rewrite Hk. mgo.
    eapply returns_mono; [apply put_chars_ok; by destruct Hok|]. intros [] s1 (Hok1 & El1 & [= E1 E2]).
    unfold release_cons, ilock. mgo. rewrite E1. cbn. mgo. cbn [ip_lock set]. rewrite E2. cbn. mgo.
    split_and!; [by destruct Hok1|done|by f_equal].
Qed.

(** C11: Through every session of interrupts, reads and writes, the ring buffer with
    its wrapping counters behaves as the plain lines of characters: each read returns
    what [take_line] takes from the lines that are ready, and each typed character edits
    the line as [typed] says.  No call panics or gets stuck. *)
Theorem console_refines_lines os s : cons_ok s → cons_lock s = false →
  returns (run_ops os) s (λ xs s', cons_ok s' ∧ (xs, lines s') = line_ops os (lines s)).
Proof.
  revert s. induction os as [|o os IH]; intros s Hok Hk; cbn [run_ops line_ops]; [by mgo|]. mgo.
  eapply returns_mono; [by apply run_op_ok|]. intros x s1 (Hok1 & Hk1 & <-). mgo.
  eapply returns_mono; [by apply IH|]. intros xs s2 (Hok2 & E2). mgo. rewrite <- E2. done.
Qed.

(** A console with counters about to wrap. *)
Definition demo_console : console :=
  mkconsole (λ _, 0) 4294967294 4294967294 4294967294 false true false true [] demo_screen true 0 0.

Lemma demo_console_ok : cons_ok demo_console.
Proof. split; [done..|apply not_elem_of_nil|done|apply demo_screen_ok]. Qed.

Lemma console_refines_lines_witness :
  returns (run_ops [Typed (chars "lx" ++ [8] ++ chars "s" ++ [13]); Read false 20; Read false 20]) demo_console
    (λ xs _, xs = [Nothing; Got (Rdone (chars "ls" ++ [10])); Got (Rsleep [] 20)]).
Proof.
  eapply returns_mono; [apply console_refines_lines; [apply demo_console_ok|reflexivity]|].
  intros xs s' [_ E]. apply (f_equal fst) in E. exact E.
Defined.
