(* ===== verification/Cprintf.v ===== *)
(** Kernel messages (printint, cprintf and panic of console.c): they go to the screen
    and the serial line under the console lock, except those of a panic. *)

From S2P Require Import Prelude Layout Ulib Printf Console.

Definition kdigits : list Z := chars "0123456789abcdef".

(** The loops that print [buf] backwards and the string of a conversion [%s]; a [char]
    is signed. *)
Definition schar (c : Z) : Z := if c <? 128 then c else c - 256.
Fixpoint cput_all (s : list Z) : M console unit :=
  match s with [] => skip | c :: s => _ ← consputc (schar c); cput_all s end.

Definition kprintint (xx base : Z) (sgn : bool) : M console unit :=
  let neg := sgn && (xx <? 0) in
  x ← (if neg then if xx =? -2147483648 then undef "signed overflow" else mret (-xx) else mret (u32 xx));
  buf ← digits_loop kdigits 33 x base [];
  if neg && (16 <=? Z.of_nat (length buf)) then undef "buf[16]" else
  let buf := if neg then buf ++ [MINUS] else buf in
  cput_all (reverse buf).

Fixpoint cprintf_loop (fmt : list Z) (argp : list arg) : M console unit :=
  match fmt with
  | [] => skip
  | c :: fmt =>
      if negb (c =? PERCENT) then _ ← consputc c; cprintf_loop fmt argp else
      match fmt with
      | [] => skip
      | c :: fmt =>
          if c =? 100 (* d *) then
            match argp with
            | Num n :: argp => _ ← kprintint (s32 n) 10 true; cprintf_loop fmt argp
            | _ => undef "argument"
            end
          else if (c =? 120) || (c =? 112) (* x, p *) then
            match argp with
            | Num n :: argp => _ ← kprintint (s32 n) 16 false; cprintf_loop fmt argp
            | _ => undef "argument"
            end
          else if c =? 115 (* s *) then
            match argp with
            | Str s :: argp => _ ← cput_all (default (chars "(null)") s); cprintf_loop fmt argp
            | _ => undef "argument"
            end
          else if c =? PERCENT then _ ← consputc PERCENT; cprintf_loop fmt argp
          else _ ← consputc PERCENT; _ ← consputc c; cprintf_loop fmt argp
      end
  end.

(** The format is never null here. *)
Definition cprintf (fmt : list Z) (argp : list arg) : M console unit :=
  l ← gets locking;
  _ ← when l acquire_cons;
  _ ← cprintf_loop fmt argp;
  when l release_cons.

(** [getcallerpcs] (spinlock.c): the saved instruction pointers of the frames that
    start at [ebp], in a memory of words; [v] is the address of the caller's first
    argument. *)
Fixpoint walk_frames (word : Z → Z) (n : nat) (ebp : Z) : list Z :=
  match n with
  | O => []
  | S n =>
      if (ebp =? 0) || (ebp <? KERNBASE) || (ebp =? 4294967295) then replicate (S n) 0
      else word (u32 (ebp + 4)) :: walk_frames word n (word ebp)
  end.
Definition getcallerpcs (word : Z → Z) (v : Z) : list Z := walk_frames word 10 (u32 (v - 8)).

Fixpoint put_pcs (pcs : list Z) : M console unit :=
  match pcs with [] => skip | pc :: pcs => _ ← cprintf (chars " %p") [Num pc]; put_pcs pcs end.

(** [panic(s)] up to its last loop [for(;;)]; [lapicid] is the number of this
    processor, [word] the memory and [v] the address of the argument [s]. *)
Definition kpanic (lapicid : Z) (s : list Z) (word : Z → Z) (v : Z) : M console unit :=
  _ ← modify (λ st, st <| locking := false |>);
  _ ← cprintf (chars "lapicid %d: panic: ") [Num lapicid];
  _ ← cprintf s [];
  _ ← cprintf [10] [];
  _ ← put_pcs (getcallerpcs word v);
  modify (λ st, st <| panicked := true |>).

(** ** What is printed *)

(** The text that a format gives. *)
Inductive text : list Z → list arg → list Z → Prop :=
| text_nil ap : text [] ap []
| text_char c fmt ap out : c ≠ PERCENT → text fmt ap out → text (c :: fmt) ap (c :: out)
| text_end ap : text [PERCENT] ap []
| text_d n ds fmt ap out : digits_of 10 (Z.abs (s32 n)) ds → text fmt ap out →
    text (PERCENT :: 100 :: fmt) (Num n :: ap)
      ((if s32 n <? 0 then [MINUS] else []) ++ (digit kdigits <$> ds) ++ out)
| text_x c n ds fmt ap out : c = 120 ∨ c = 112 → digits_of 16 (u32 n) ds → text fmt ap out →
    text (PERCENT :: c :: fmt) (Num n :: ap) ((digit kdigits <$> ds) ++ out)
| text_s s fmt ap out : text fmt ap out →
    text (PERCENT :: 115 :: fmt) (Str s :: ap) (default (chars "(null)") s ++ out)
| text_percent fmt ap out : text fmt ap out → text (PERCENT :: PERCENT :: fmt) ap (PERCENT :: out)
| text_other c fmt ap out : c ∉ [100; 120; 112; 115; PERCENT] → text fmt ap out →
    text (PERCENT :: c :: fmt) ap (PERCENT :: c :: out).

Definition byte (c : Z) : Prop := 0 ≤ c < 256.

(** The arguments are those the format asks for. *)
Fixpoint fits (fmt : list Z) (ap : list arg) : Prop :=
  match fmt with
  | [] => True
  | c :: fmt =>
      byte c ∧
      if negb (c =? PERCENT) then fits fmt ap else
      match fmt with
      | [] => True
      | c :: fmt =>
          byte c ∧
          if c =? 100 then
            match ap with Num n :: ap => s32 n ≠ -2147483648 ∧ fits fmt ap | _ => False end
          else if (c =? 120) || (c =? 112) then match ap with Num n :: ap => fits fmt ap | _ => False end
          else if c =? 115 then
            match ap with Str s :: ap => Forall byte (default [] s) ∧ fits fmt ap | _ => False end
          else fits fmt ap
      end
  end.

(** The console can print; a state after [out] has been printed. *)
Definition live (s : console) : Prop := panicked s = false ∧ uart s = true ∧ screen_ok (scr s).

Definition printed (out : list Z) (s s' : console) : Prop :=
  live s' ∧ serial s' = serial s ++ out ∧ lines s' = lines s ∧ locks s' = locks s ∧ locking s' = locking s.

Lemma consputc_printed c s : live s → c ≠ BACKSPACE → returns (consputc c) s (λ _ s', printed [c mod 256] s s').
Proof.
  intros (Hp & Hu & Hs) Hc. unfold consputc. mgo. rewrite Hp. rewrite (proj2 (Z.eqb_neq c _)) by done.
  unfold uartputc. mgo. rewrite Hu. cbn [when]. mgo. unfold on_screen, zoom, returns. cbn [scr set].
  pose proof (cgaputc_ok c (scr s) Hs) as Hok. unfold returns in Hok. destruct (cgaputc c (scr s)); try done.
  by repeat split; try apply Hok.
Qed.

Lemma printed_nil s : live s → printed [] s s.
Proof. intros. repeat split; try apply H. by rewrite app_nil_r. Qed.

Lemma printed_trans o1 o2 s1 s2 s3 : printed o1 s1 s2 → printed o2 s2 s3 → printed (o1 ++ o2) s1 s3.
Proof.
  intros (_ & E1 & E2 & E3 & E4) (H & F1 & F2 & F3 & F4).
  split_and!; [apply H..|by rewrite F1, E1, app_assoc|congruence|congruence|congruence].
Qed.

(** Printing one text after another. *)
Lemma printed_bind {B} o1 (m1 : M console unit) (k : unit → M console B) s s0 o0 (Q : B → console → Prop) :
  returns m1 s (λ _ s', printed o1 s s') → printed o0 s0 s →
  (∀ s', printed (o0 ++ o1) s0 s' → returns (k tt) s' Q) → returns (m1 ≫= k) s Q.
Proof.
  intros H1 H0 Hk. apply returns_bind. eapply returns_mono; [done|]. intros [] s' H'. apply Hk. by eapply printed_trans.
Qed.

Lemma cput_all_printed l s : live s → Forall byte l → returns (cput_all l) s (λ _ s', printed l s s').
Proof.
  intros Hs Hl. revert s Hs. induction Hl as [|c l Hc _ IH]; intros s Hs; cbn [cput_all].
  { by apply returns_ret, printed_nil. }
  unfold byte, schar, BACKSPACE in *. eapply printed_bind; [apply consputc_printed; [done|]|by apply printed_nil|].
  { unfold BACKSPACE. case_match; lia. }
  intros s1 H1. eapply returns_mono; [apply IH, H1|]. intros [] s2 H2. eapply printed_trans in H2; [|done].
  replace (c :: l) with (([] ++ [(if c <? 128 then c else c - 256) mod 256]) ++ l); [done|]. cbn. f_equal.
  case_match; [by apply Z.mod_small|]. replace (c - 256) with (c + (-1) * 256) by lia. rewrite Z.mod_add by lia. by apply Z.mod_small.
Qed.

Lemma digit_byte d : byte (digit kdigits d).
Proof.
  unfold digit. destruct (kdigits !! Z.to_nat d) eqn:E; [|done]. apply list_elem_of_lookup_2 in E. cbn.
  revert E. generalize z. apply Forall_forall. unfold byte. repeat constructor; done.
Qed.

Lemma kprintint_printed xx base sgn k s : live s → 2 ≤ base ≤ 16 → -2147483648 ≤ xx < 2147483648 →
  (sgn = true → xx ≠ -2147483648) → two32 ≤ base ^ Z.of_nat (S k) → (k < 15)%nat →
  returns (kprintint xx base sgn) s (λ _ s', ∃ ds, digits_of base (if sgn then Z.abs xx else u32 xx) ds ∧
    printed ((if sgn && (xx <? 0) then [MINUS] else []) ++ (digit kdigits <$> ds)) s s').
Proof.
  intros Hs Hb Hx Hmin Hp Hk. unfold kprintint. apply returns_bind.
  set (neg := sgn && (xx <? 0)). set (x := if sgn then Z.abs xx else u32 xx).
  assert (Ex : (if neg then if xx =? -2147483648 then undef "signed overflow" else mret (-xx) else mret (u32 xx) : M console Z) = mret x).
  { unfold neg, x. destruct sgn; cbn [andb]; [|done]. specialize (Hmin eq_refl). destruct (Z.ltb_spec xx 0).
    - rewrite (proj2 (Z.eqb_neq xx _)) by lia. f_equal. lia.
    - f_equal. rewrite u32_small by (unfold two32; lia). lia. }
  rewrite Ex. apply returns_ret. assert (0 ≤ x < two32).
  { unfold x. destruct sgn; [unfold two32; lia|apply u32_range]. }
  apply returns_bind. eapply returns_mono; [apply (digits_loop_ok _ base k); [done..|lia|lia|cbn; lia]|].
  intros buf out' [-> (ds & -> & Hds & Hlen)]. cbn [app]. rewrite length_reverse, length_fmap.
  rewrite (proj2 (Z.leb_gt 16 _)) by lia. rewrite andb_false_r.
  assert (Forall byte (digit kdigits <$> ds)) by (apply Forall_fmap, Forall_true; apply digit_byte).
  assert (E : reverse (if neg then reverse (digit kdigits <$> ds) ++ [MINUS] else reverse (digit kdigits <$> ds)) =
              (if neg then [MINUS] else []) ++ (digit kdigits <$> ds)).
  { destruct neg; [by rewrite reverse_app, reverse_involutive|apply reverse_involutive]. }
  rewrite E. eapply returns_mono; [apply cput_all_printed; [done|]|by eauto].
  apply Forall_app. split; [|done]. destruct neg; [|done]. apply Forall_singleton. done.
Qed.

Lemma s32_range x : -2147483648 ≤ s32 x < 2147483648.
Proof. unfold s32. pose proof (u32_range x). unfold two32 in *. destruct (Z.ltb_spec (u32 x) 2147483648); lia. Qed.

Lemma u32_s32 x : u32 (s32 x) = u32 x.
Proof.
  unfold s32. case_match; unfold u32; [by rewrite Zmod_mod|]. rewrite Zminus_mod, Z_mod_same_full, Z.sub_0_r by done.
  by rewrite !Zmod_mod.
Qed.

Lemma byte_printed c s : live s → byte c → returns (consputc c) s (λ _ s', printed [c] s s').
Proof.
  intros Hs Hc. eapply returns_mono; [apply consputc_printed; [done|unfold byte, BACKSPACE in *; lia]|].
  intros []. by rewrite Z.mod_small.
Qed.

(** The texts of [T] follow [o]. *)
Lemma then_printed (m k : M console unit) (T T' : list Z → Prop) o s :
  returns m s (λ _ s', printed o s s') →
  (∀ s', live s' → returns k s' (λ _ s'', ∃ out, T out ∧ printed out s' s'')) →
  (∀ out, T out → T' (o ++ out)) →
  returns (m ≫= λ _, k) s (λ _ s'', ∃ out, T' out ∧ printed out s s'').
Proof.
  intros Hm Hk HT. apply returns_bind. eapply returns_mono; [done|]. intros [] s1 H1.
  eapply returns_mono; [apply Hk, H1|]. intros [] s2 (out & Hout & H2). eexists. split; [by apply HT|].
  by eapply printed_trans.
Qed.

Lemma num_printed m k (P : list Z → Prop) (T T' : list Z → Prop) f s :
  returns m s (λ _ s', ∃ ds, P ds ∧ printed (f ds) s s') →
  (∀ s', live s' → returns k s' (λ _ s'', ∃ out, T out ∧ printed out s' s'')) →
  (∀ ds out, P ds → T out → T' (f ds ++ out)) →
  returns (m ≫= λ _ : unit, k : M console unit) s (λ _ s'', ∃ out, T' out ∧ printed out s s'').
Proof.
  intros Hm Hk HT. apply returns_bind. eapply returns_mono; [done|]. intros [] s1 (ds & Hds & H1).
  eapply returns_mono; [apply Hk, H1|]. intros [] s2 (out & Hout & H2). eexists. split; [by apply HT|].
  by eapply printed_trans.
Qed.

Lemma cprintf_loop_printed n fmt ap s : (length fmt ≤ n)%nat → live s → fits fmt ap →
  returns (cprintf_loop fmt ap) s (λ _ s', ∃ out, text fmt ap out ∧ printed out s s').
Proof.
  revert fmt ap s. induction n as [|n IH]; intros [|c fmt] ap s Hn Hs Hf; cbn in Hn; try lia.
  1,2: cbn [cprintf_loop]; apply returns_ret; exists []; split; [constructor|by apply printed_nil].
  cbn [fits cprintf_loop] in *. destruct Hf as [Hc Hf]. destruct (Z.eqb_spec c PERCENT) as [->|Ec]; cbn [negb] in *.
  - destruct fmt as [|c fmt]; [apply returns_ret; exists []; split; [constructor|by apply printed_nil]|].
    cbn in Hn. destruct Hf as [Hc' Hf].
    assert (Hrest : ∀ ap, fits fmt ap → ∀ s', live s' →
      returns (cprintf_loop fmt ap) s' (λ _ s'', ∃ out, text fmt ap out ∧ printed out s' s'')) by (intros; apply IH; [lia|done..]).
    destruct (Z.eqb_spec c 100) as [->|E1]; [|destruct (Z.eqb_spec c 120) as [->|E2];
      [|destruct (Z.eqb_spec c 112) as [->|E3]; [|destruct (Z.eqb_spec c 115) as [->|E4];
      [|destruct (Z.eqb_spec c PERCENT) as [->|E5]]]]]; cbn [orb] in *.
    1-3: destruct ap as [|[m|] ap]; try done.
    + destruct Hf as [Hm Hf]. eapply num_printed; [apply (kprintint_printed _ 10 true 9); try done; try lia; apply s32_range| |].
      * by apply Hrest.
      * intros ds out Hds Hout. cbn [andb]. rewrite <- app_assoc. by constructor.
    + eapply num_printed; [apply (kprintint_printed _ 16 false 7); try done; try lia; apply s32_range|by apply Hrest|].
      intros ds out Hds Hout. cbn [andb app]. rewrite u32_s32 in Hds. by constructor; [left|..].
    + eapply num_printed; [apply (kprintint_printed _ 16 false 7); try done; try lia; apply s32_range|by apply Hrest|].
      intros ds out Hds Hout. cbn [andb app]. rewrite u32_s32 in Hds. by constructor; [right|..].
    + destruct ap as [|[|str] ap]; try done. destruct Hf as [Hb Hf].
      eapply then_printed; [apply cput_all_printed; [done|]|by apply Hrest|by constructor].
      destruct str; [done|]. unfold byte. by repeat constructor.
    + eapply then_printed; [by apply byte_printed|by apply Hrest|by constructor].
    + eapply then_printed; [by apply byte_printed| |intros out Hout; exact Hout].
      intros s1 Hs1. eapply (then_printed _ _ (text fmt ap) (λ out, text (PERCENT :: c :: fmt) ap (PERCENT :: out)));
        [by apply byte_printed|by apply Hrest|]. intros out Hout. cbn. constructor; [|done]. set_solver.
  - eapply then_printed; [by apply byte_printed|intros s1 Hs1; apply IH; [lia|done..]|by constructor].
Qed.

(** With the arguments that its format asks for, [cprintf] returns, has sent the
    text of the format and nothing else, and has left the lock of the console as it was. *)
Theorem cprintf_prints fmt ap s : live s → fits fmt ap → cons_lock s = false →
  returns (cprintf fmt ap) s (λ _ s', ∃ out, text fmt ap out ∧ printed out s s').
Proof.
  intros Hs Hf Hk. unfold cprintf. mgo. destruct (locking s) eqn:El; cbn [when].
  - unfold acquire_cons. mgo. rewrite Hk. mgo.
    eapply returns_mono; [apply (cprintf_loop_printed (length fmt)); by try apply Hs|].
    intros [] s' (out & Ht & Hl & E1 & E2 & [= E3 E4] & E5). unfold release_cons. mgo. rewrite E3. cbn. mgo.
    exists out. split; [done|]. split; [apply Hl|]. split; [done|]. split; [done|]. split; [|done].
    unfold locks. cbn. by rewrite E4, Hk.
  - mgo. eapply returns_mono; [by apply (cprintf_loop_printed (length fmt))|]. intros [] s' H. by mgo.
Qed.

Lemma demo_console_live : live demo_console.
Proof. split; [done|]. split; [done|]. apply demo_screen_ok. Qed.

Lemma cprintf_prints_witness :
  returns (cprintf (chars "%d: %s%%") [Num (-7); Str (Some (chars "ab"))]) demo_console (λ _ s', ∃ out,
    text (chars "%d: %s%%") [Num (-7); Str (Some (chars "ab"))] out ∧ printed out demo_console s').
Proof.
  apply cprintf_prints; [apply demo_console_live| |reflexivity]. vm_compute. repeat (split || constructor || discriminate).
Defined.

(** ** Panics *)

Lemma text_app l fmt ap out : text (l ++ fmt) ap out → PERCENT ∉ l → ∃ out', out = l ++ out' ∧ text fmt ap out'.
Proof.
  revert out. induction l as [|c l IH]; intros out Ht Hl; [by exists out|]. apply not_elem_of_cons in Hl as [Hc Hl].
  cbn in Ht. inversion Ht; simplify_eq. destruct (IH _ ltac:(done) Hl) as (out' & -> & ?). by exists out'.
Qed.

Lemma text_lit l ap out : text l ap out → PERCENT ∉ l → out = l.
Proof.
  intros Ht Hl. rewrite <- (app_nil_r l) in Ht. apply text_app in Ht as (out' & -> & Ht); [|done].
  inversion Ht; simplify_eq. by rewrite app_nil_r.
Qed.

Lemma fits_app l fmt ap : Forall byte l → PERCENT ∉ l → fits fmt ap → fits (l ++ fmt) ap.
Proof.
  intros Hb Hl Hf. induction Hb as [|c l Hc _ IH]; [done|]. apply not_elem_of_cons in Hl as [Hc' Hl]. cbn.
  rewrite (proj2 (Z.eqb_neq c _)) by done. by split; [|apply IH].
Qed.

Lemma fits_lit l ap : Forall byte l → PERCENT ∉ l → fits l ap.
Proof. intros. rewrite <- (app_nil_r l). by apply fits_app. Qed.

(** With [cons.locking] off the lock plays no part. *)
Lemma cprintf_unlocked fmt ap s : live s → fits fmt ap → locking s = false →
  returns (cprintf fmt ap) s (λ _ s', ∃ out, text fmt ap out ∧ printed out s s').
Proof.
  intros Hs Hf Hk. unfold cprintf. mgo. rewrite Hk. cbn [when]. mgo.
  eapply returns_mono; [by apply (cprintf_loop_printed (length fmt))|]. intros [] s' H. by mgo.
Qed.

(** A return address as it is printed. *)
Definition pc_text (ds : list Z) : list Z := 32 :: (digit kdigits <$> ds).

Lemma put_pcs_printed pcs s : live s → locking s = false →
  returns (put_pcs pcs) s (λ _ s', ∃ dss, Forall2 (digits_of 16) (u32 <$> pcs) dss ∧
    printed (concat (pc_text <$> dss)) s s').
Proof.
  revert s. induction pcs as [|pc pcs IH]; intros s Hs Hl; cbn [put_pcs].
  { apply returns_ret. exists []. split; [constructor|by apply printed_nil]. }
  apply returns_bind. eapply returns_mono; [apply cprintf_unlocked; [done| |done]|].
  { vm_compute. repeat (split || discriminate). }
  intros [] s1 (out & Ht & H1). eapply returns_mono; [apply IH; [apply H1|destruct H1 as (_ & _ & _ & _ & ->); done]|].
  intros [] s2 (dss & Hd & H2). change (chars " %p") with ([32] ++ [PERCENT; 112]) in Ht.
  apply text_app in Ht as (out' & -> & Ht); [|by apply (bool_decide_eq_true_1 _)]. inversion Ht as [| | | |? ? ds ? ? o ? Hds Hn| | |]; simplify_eq.
  2: { exfalso. match goal with H : 112 ∉ _ |- _ => apply H end. by apply (bool_decide_eq_true_1 _). }
  inversion Hn; subst. exists (ds :: dss). split; [by constructor|]. cbn [fmap list_fmap concat pc_text].
  rewrite app_nil_r in H1. by eapply printed_trans.
Qed.

(** A number between two constant texts. *)
Lemma banner_printed l1 l2 n s : live s → locking s = false → Forall byte l1 → Forall byte l2 →
  PERCENT ∉ l1 → PERCENT ∉ l2 → 0 ≤ n < 2147483648 →
  returns (cprintf (l1 ++ [PERCENT; 100] ++ l2) [Num n]) s (λ _ s', ∃ ids, digits_of 10 n ids ∧
    printed (l1 ++ (digit kdigits <$> ids) ++ l2) s s').
Proof.
  intros Hs Hl B1 B2 P1 P2 Hn. assert (E32 : s32 n = n) by (apply s32_small; lia).
  eapply returns_mono; [apply cprintf_unlocked; [done| |done]|].
  { apply fits_app; [done..|]. cbn. rewrite E32. split; [done|]. split; [done|]. split; [lia|]. by apply fits_lit. }
  intros [] s1 (o1 & T1 & H1). apply text_app in T1 as (o1' & -> & T1); [|done].
  inversion T1; simplify_eq; [|naive_solver|by exfalso; match goal with H : 100 ∉ _ |- _ => apply H, (bool_decide_eq_true_1 _) end].
  match goal with T : text l2 _ _, Hd : digits_of _ _ _ |- _ => rename T into T2; rename Hd into Hids end.
  apply text_lit in T2 as ->; [|done]. rewrite E32 in *. rewrite (proj2 (Z.ltb_ge n 0)) in * by lia.
  rewrite Z.abs_eq in Hids by lia. by eexists.
Qed.

Lemma lit_printed l s : live s → locking s = false → Forall byte l → PERCENT ∉ l →
  returns (cprintf l []) s (λ _ s', printed l s s').
Proof.
  intros. eapply returns_mono; [apply cprintf_unlocked; [done|by apply fits_lit|done]|].
  intros [] s1 (o & T & H'). by apply text_lit in T as ->.
Qed.

(** The return addresses of the calls whose frames start at [ebp]: each frame has the
    address of the next one and then its return address. *)
Inductive calls (word : Z → Z) : Z → list Z → Prop :=
| calls_end ebp : ebp < KERNBASE ∨ ebp = 4294967295 → calls word ebp []
| calls_frame ebp rets : KERNBASE ≤ ebp < 4294967292 → calls word (word ebp) rets → calls word ebp (word (ebp + 4) :: rets).

Lemma walk_frames_calls word n ebp rets : calls word ebp rets → walk_frames word n ebp = take n (rets ++ replicate n 0).
Proof.
  revert ebp rets. induction n as [|n IH]; intros ebp rets Hc; [done|]. cbn [walk_frames].
  destruct Hc as [ebp He|ebp rets He Hc].
  - assert ((ebp =? 0) || (ebp <? KERNBASE) || (ebp =? 4294967295) = true) as -> by lia. cbn [app].
    by rewrite take_ge by (by rewrite length_replicate).
  - assert ((ebp =? 0) || (ebp <? KERNBASE) || (ebp =? 4294967295) = false) as -> by (unfold KERNBASE in *; lia).
    rewrite u32_small by (unfold KERNBASE, two32 in *; lia). cbn [app take]. f_equal. rewrite (IH _ _ Hc), replicate_S_end, app_assoc.
    rewrite (take_app_le _ [0]) by (rewrite length_app, length_replicate; lia). done.
Qed.

(** [panic] reports its message, the processor and the return addresses of the first
    ten callers, whatever the state of the console lock, which it neither waits for
    nor changes; and from then on every processor that prints a character stops. *)
Theorem panic_reports lapicid msg word v rets s :
  live s → Forall byte msg → PERCENT ∉ msg → 0 ≤ lapicid < 2147483648 → calls word (u32 (v - 8)) rets →
  returns (kpanic lapicid msg word v) s (λ _ s', ∃ ids dss, digits_of 10 lapicid ids ∧
    Forall2 (digits_of 16) (u32 <$> take 10 (rets ++ replicate 10 0)) dss ∧
    serial s' = serial s ++ chars "lapicid " ++ (digit kdigits <$> ids) ++ chars ": panic: " ++ msg ++ [10] ++
                concat (pc_text <$> dss) ∧
    locks s' = locks s ∧ ∀ c, consputc c s' = Block s').
Proof.
  intros Hs Hm Hp Hid Hw. unfold kpanic, getcallerpcs. rewrite (walk_frames_calls _ _ _ _ Hw).
  apply returns_bind, returns_modify. set (s0 := s <| locking := false |>).
  change (chars "lapicid %d: panic: ") with (chars "lapicid " ++ [PERCENT; 100] ++ chars ": panic: ").
  apply returns_bind. eapply returns_mono; [apply banner_printed; try done|].
  1,2: unfold byte; by repeat constructor.
  1,2: by apply (bool_decide_eq_true_1 _).
  intros [] s1 (ids & Hids & H1).
  eapply printed_bind; [apply lit_printed; [apply H1|apply H1|done..]|exact H1|]. intros s2 H2.
  eapply printed_bind; [apply lit_printed; [apply H2|apply H2|unfold byte; by repeat constructor|by apply (bool_decide_eq_true_1 _)]|exact H2|].
  intros s3 H3. apply returns_bind. eapply returns_mono; [apply put_pcs_printed; apply H3|].
  intros [] s4 (dss & Hdss & H4). apply returns_modify. exists ids, dss.
  pose proof (printed_trans _ _ _ _ _ H3 H4) as (H5 & E5 & _ & E6 & _).
  split_and!; [done|done| |done|done]. cbn [serial set]. by rewrite E5, <- !app_assoc.
Qed.

(** A console whose lock is held. *)
Definition demo_held : console := demo_console <| cons_lock := true |>.

Lemma demo_held_live : live demo_held.
Proof. split; [done|]. split; [done|]. apply demo_screen_ok. Qed.

Lemma panic_reports_witness :
  returns (kpanic 1 (chars "acquire") (λ a, if a =? 2148532228 then 2148532000 else 0) 2148532232) demo_held (λ _ s', locks s' = (true, true) ∧ ∀ c, consputc c s' = Block s').
Proof.
  eapply returns_mono; [apply (panic_reports 1 (chars "acquire") (λ a, if a =? 2148532228 then 2148532000 else 0) 2148532232 [2148532000])|].
  - apply demo_held_live.
  - unfold byte. by repeat constructor.
  - by apply (bool_decide_eq_true_1 _).
  - lia.
  - refine (calls_frame (λ a, if a =? 2148532228 then 2148532000 else 0) 2148532224 [] _ _); [unfold KERNBASE; lia|]. by constructor; left.
  - intros [] s' (ids & dss & _ & _ & _ & E & Hb). split; [exact E|exact Hb].
Defined.
