(* ===== verification/Kbd.v ===== *)
(** Where the characters of the console come from: the keyboard (kbd.c, kbd.h) and
    the serial line (uart.c).  The keyboard sends the codes of keys pressed and released;
    [kbdgetc] keeps the state of the modifier keys in the bits of [shift]. *)

From S2P Require Import Prelude Keeps Ulib Console.

(** ** Tables of kbd.h *)

Definition NO : Z := 0.
Definition SHIFT : Z := 1.
Definition CTL : Z := 2.
Definition ALT : Z := 4.
Definition CAPSLOCK : Z := 8.
Definition NUMLOCK : Z := 16.
Definition SCROLLLOCK : Z := 32.
Definition E0ESC : Z := 64.

Definition KEY_HOME : Z := 224.
Definition KEY_END : Z := 225.
Definition KEY_UP : Z := 226.
Definition KEY_DN : Z := 227.
Definition KEY_LF : Z := 228.
Definition KEY_RT : Z := 229.
Definition KEY_PGUP : Z := 230.
Definition KEY_PGDN : Z := 231.
Definition KEY_INS : Z := 232.
Definition KEY_DEL : Z := 233.

(** A [uchar] table of 256 entries: the first ones, and the ones given by index. *)
Fixpoint given (more : list (Z * Z)) (i : Z) : Z :=
  match more with [] => NO | (j, c) :: more => if i =? j then c else given more i end.

Definition table (first : list Z) (more : list (Z * Z)) (i : Z) : option Z :=
  if (0 <=? i) && (i <? 256) then
    match first !! Z.to_nat i with Some c => Some c | None => Some (given more i) end
  else None.

Definition shiftcode : Z → option Z :=
  table [] [(29, CTL); (42, SHIFT); (54, SHIFT); (56, ALT); (157, CTL); (184, ALT)].

Definition togglecode : Z → option Z :=
  table [] [(58, CAPSLOCK); (69, NUMLOCK); (70, SCROLLLOCK)].

(** The keys after an E0 escape. *)
Definition extended (enter div : Z) : list (Z * Z) :=
  [(156, enter); (181, div); (200, KEY_UP); (208, KEY_DN); (201, KEY_PGUP); (209, KEY_PGDN);
   (203, KEY_LF); (205, KEY_RT); (151, KEY_HOME); (207, KEY_END); (210, KEY_INS); (211, KEY_DEL)].

Definition normalmap : Z → option Z :=
  table ([NO; 27] ++ chars "1234567890-=" ++ [8; 9] ++ chars "qwertyuiop[]" ++ [10; NO] ++
         chars "asdfghjkl;'`" ++ [NO] ++ chars "\zxcvbnm,./" ++ [NO] ++ chars "*" ++ [NO; 32] ++
         replicate 13 NO ++ chars "789-456+1230." ++ replicate 4 NO)
    (extended 10 47).

Definition shiftmap : Z → option Z :=
  table ([NO; 27] ++ chars "!@#$%^&*()_+" ++ [8; 9] ++ chars "QWERTYUIOP{}" ++ [10; NO] ++
         chars "ASDFGHJKL:" ++ [34] ++ chars "~" ++ [NO] ++ chars "|ZXCVBNM<>?" ++ [NO] ++ chars "*" ++ [NO; 32] ++
         replicate 13 NO ++ chars "789-456+1230." ++ replicate 4 NO)
    (extended 10 47).

(** [C(x)] is a [uchar] *)
Definition C (x : Z) : Z := (x - 64) mod 256.

Definition ctlmap : Z → option Z :=
  table (replicate 16 NO ++ (C <$> chars "QWERTYUIOP") ++ [NO; NO; 13; NO] ++ (C <$> chars "ASDFGHJKL") ++
         replicate 4 NO ++ (C <$> chars "\ZXCVBNM") ++ [NO; NO; C 47; NO; NO])
    (extended 13 (C 47)).

(** ** The keyboard *)

(** The static [shift], and the bytes that the controller holds for us. *)
Record kbd := mkkbd { shift : Z; sent : list Z }.
#[export] Instance kbd_eta : Eta kbd := λ k, mkkbd (shift k) (sent k).

(** Indexing a table. *)
Definition at_ {S} (t : Z → option Z) (i : Z) : M S Z :=
  match t i with Some c => mret c | None => undef "table" end.

Definition charcode (i : Z) : option (Z → option Z) := [normalmap; shiftmap; ctlmap; ctlmap] !! Z.to_nat i.

Definition kbdgetc : M kbd Z :=
  k ← gets id;
  match sent k with
  | [] => mret (-1)
  | data :: rest =>
      _ ← modify (λ k, k <| sent := rest |>);
      let sh := shift k in
      if data =? 224 then
        _ ← modify (λ k, k <| shift := Z.lor sh E0ESC |>); mret 0
      else if negb (Z.land data 128 =? 0) then
        let data := if negb (Z.land sh E0ESC =? 0) then data else Z.land data 127 in
        sc ← at_ shiftcode data;
        _ ← modify (λ k, k <| shift := Z.ldiff sh (Z.lor sc E0ESC) |>); mret 0
      else
        let '(data, sh) := if negb (Z.land sh E0ESC =? 0) then (Z.lor data 128, Z.ldiff sh E0ESC) else (data, sh) in
        sc ← at_ shiftcode data;
        let sh := Z.lor sh sc in
        tc ← at_ togglecode data;
        let sh := Z.lxor sh tc in
        _ ← modify (λ k, k <| shift := sh |>);
        match charcode (Z.land sh (Z.lor CTL SHIFT)) with
        | None => undef "charcode"
        | Some map =>
            c ← at_ map data;
            mret (if negb (Z.land sh CAPSLOCK =? 0) then
                    if (97 <=? c) && (c <=? 122) then c + (65 - 97)
                    else if (65 <=? c) && (c <=? 90) then c + (97 - 65)
                    else c
                  else c)
        end
  end.

(** ** Both sources *)

(** The console with its sources: the keyboard, and the bytes that the serial line
    has received. *)
Record board := mkboard { con : console; kb : kbd; rx : list Z }.
#[export] Instance board_eta : Eta board := λ b, mkboard (con b) (kb b) (rx b).

Definition on_con {A} (m : M console A) : M board A := zoom con (λ c b, b <| con := c |>) m.
Definition on_kbd {A} (m : M kbd A) : M board A := zoom kb (λ k b, b <| kb := k |>) m.

Definition uartgetc : M board Z :=
  b ← gets id;
  if negb (uart (con b)) then mret (-1) else
  match rx b with
  | [] => mret (-1)
  | c :: rest => _ ← modify (λ b, b <| rx := rest |>); mret c
  end.

(** The loop of [consoleintr] with its argument [getc]. *)
Fixpoint intr_loop (getc : M board Z) (fuel : nat) (dump : bool) : M board bool :=
  match fuel with
  | O => λ _, NoFuel
  | S fuel =>
      c ← getc;
      if c <? 0 then mret dump
      else if c =? CTRL 80 then intr_loop getc fuel true
      else _ ← on_con (cons_char c); intr_loop getc fuel dump
  end.

Definition consoleintr_from (getc : M board Z) (fuel : nat) : M board unit :=
  _ ← on_con acquire_cons;
  dump ← intr_loop getc fuel false;
  _ ← on_con release_cons;
  when dump (on_con (modify (λ s, s <| dumps := S (dumps s) |>))).

(** Each call of [getc] takes a byte that has arrived. *)
Definition kbdintr : M board unit :=
  b ← gets id; consoleintr_from (on_kbd kbdgetc) (S (length (sent (kb b)))).
Definition uartintr : M board unit :=
  b ← gets id; consoleintr_from uartgetc (S (length (rx b))).

(** ** The keyboard as modifier keys *)

(** The modifiers that are held, the locks that are on, and whether an E0 escape
    has just come. *)
Record mods := mkmods {
  m_shift : bool;
  m_ctl : bool;
  m_alt : bool;
  m_caps : bool;
  m_num : bool;
  m_scroll : bool;
  m_esc : bool
}.

#[export] Instance mods_dec : EqDecision mods.
Proof. solve_decision. Defined.

Definition bits (m : mods) : Z :=
  (if m_shift m then SHIFT else 0) + (if m_ctl m then CTL else 0) + (if m_alt m then ALT else 0) +
  (if m_caps m then CAPSLOCK else 0) + (if m_num m then NUMLOCK else 0) +
  (if m_scroll m then SCROLLLOCK else 0) + (if m_esc m then E0ESC else 0).

(** A modifier key goes down or up. *)
Definition hold (code : Z) (down : bool) (m : mods) : mods :=
  let 'mkmods sh ct al ca nu sc es := m in
  mkmods (if (code =? 42) || (code =? 54) then down else sh) (if (code =? 29) || (code =? 157) then down else ct)
    (if (code =? 56) || (code =? 184) then down else al) ca nu sc false.

Definition toggle (code : Z) (m : mods) : mods :=
  let 'mkmods sh ct al ca nu sc es := m in
  mkmods sh ct al (xorb ca (code =? 58)) (xorb nu (code =? 69)) (xorb sc (code =? 70)) es.

Definition swapcase (c : Z) : Z :=
  if (97 <=? c) && (c <=? 122) then c - 32 else if (65 <=? c) && (c <=? 90) then c + 32 else c.

Definition key_char (m : mods) (code : Z) : Z :=
  let c := default 0 ((if m_ctl m then ctlmap else if m_shift m then shiftmap else normalmap) code) in
  if m_caps m then swapcase c else c.

(** A byte from the keyboard: an escape, a key released or a key pressed.  The code
    of a key has its high bit set when it came after an escape. *)
Definition key (m : mods) (data : Z) : Z * mods :=
  if data =? 224 then (0, mkmods (m_shift m) (m_ctl m) (m_alt m) (m_caps m) (m_num m) (m_scroll m) true) else
  let code := if m_esc m then Z.lor data 128 else Z.land data 127 in
  if 128 <=? data then (0, hold code false m)
  else let m := toggle code (hold code true m) in (key_char m code, m).

Fixpoint keys (m : mods) (bs : list Z) : list Z * mods :=
  match bs with
  | [] => ([], m)
  | b :: bs => let '(c, m) := key m b in let '(cs, m) := keys m bs in (c :: cs, m)
  end.

(** One byte, for each of the 128 states and 256 bytes. *)
Definition bool_list : list bool := [false; true].
Definition all_mods : list mods :=
  sh ← bool_list; ct ← bool_list; al ← bool_list; ca ← bool_list; nu ← bool_list; sc ← bool_list; es ← bool_list;
  [mkmods sh ct al ca nu sc es].

Definition getc_agrees (m : mods) (data : Z) : bool :=
  match kbdgetc (mkkbd (bits m) [data]) with
  | Ok c (mkkbd sh []) => let '(c', m') := key m data in (c =? c') && (sh =? bits m') && (0 <=? c)
  | _ => false
  end.

Lemma getc_agrees_all : forallb (λ m, forallb (getc_agrees m) (Z.of_nat <$> seq 0 256)) all_mods = true.
Proof. vm_compute. reflexivity. Qed.

Lemma all_mods_all m : m ∈ all_mods.
Proof. destruct m as [[] [] [] [] [] [] []]; apply (bool_decide_eq_true_1 _); vm_compute; reflexivity. Qed.

Lemma kbdgetc_frame sh d rest : kbdgetc (mkkbd sh (d :: rest)) =
  match kbdgetc (mkkbd sh [d]) with
  | Ok c k => Ok c (k <| sent := rest |>)
  | Panic msg => Panic msg
  | Block k => Block (k <| sent := rest |>)
  | Undef msg => Undef msg
  | NoFuel => NoFuel
  end.
Proof.
  unfold kbdgetc, gets, modify, mbind, M_bind, mret, M_ret, id. cbn -[shiftcode togglecode charcode].
  unfold at_. destruct (d =? 224); [done|]. destruct (negb (Z.land d 128 =? 0)).
  - by destruct (shiftcode _).
  - destruct (if negb (Z.land sh E0ESC =? 0) then _ else _) as [d' sh']. destruct (shiftcode d') as [sc|]; [|done].
    cbn -[togglecode charcode]. destruct (togglecode d') as [tc|]; [|done]. cbn -[charcode].
    destruct (charcode _) as [map|]; [|done]. by destruct (map d').
Qed.

Lemma kbdgetc_key m d rest : 0 ≤ d < 256 →
  returns kbdgetc (mkkbd (bits m) (d :: rest)) (λ c k, c = (key m d).1 ∧ k = mkkbd (bits (key m d).2) rest ∧ 0 ≤ c).
Proof.
  intros Hd. pose proof getc_agrees_all as H. rewrite forallb_forall in H.
  specialize (H m ltac:(apply list_elem_of_In, all_mods_all)). rewrite forallb_forall in H.
  specialize (H d ltac:(apply list_elem_of_In, list_elem_of_fmap; exists (Z.to_nat d); split; [lia|apply elem_of_seq; lia])).
  unfold getc_agrees in H. unfold returns. rewrite kbdgetc_frame.
  destruct (kbdgetc (mkkbd (bits m) [d])) as [c [sh [|]]| | | |]; try done. destruct (key m d) as [c' m'].
  apply andb_true_iff in H as [[E1%Z.eqb_eq E2%Z.eqb_eq]%andb_true_iff E3%Z.leb_le]. cbn. by rewrite E1, E2 in *.
Qed.

(** ** From the keys to the lines *)

Lemma on_con_ok {A} (m : M console A) b (Q : A → console → Prop) :
  returns m (con b) Q → returns (on_con m) b (λ a b', ∃ s, b' = b <| con := s |> ∧ Q a s).
Proof. intros H. unfold on_con, zoom, returns in *. destruct (m (con b)); try done. by eexists. Qed.

(** A source of characters: [getc] delivers the characters [cs] and then [-1],
    whatever the console does meanwhile, and leaves [end_] true. *)
Fixpoint delivers (getc : M board Z) (end_ : board → Prop) (cs : list Z) (b : board) : Prop :=
  match cs with
  | [] => returns getc b (λ c b', c = -1 ∧ b' = b ∧ end_ b)
  | c0 :: cs => returns getc b (λ c b', c = c0 ∧ 0 ≤ c0 ∧ con b' = con b ∧
      ∀ s, uart s = uart (con b) → delivers getc end_ cs (b' <| con := s |>))
  end.

(** Nothing that the console does turns the serial line on or off, only [^P] asks for
    a listing, and readers are woken when there is something new to read. *)
Definition signalled (s s' : console) : Prop :=
  uart s' = uart s ∧ dumps s' = dumps s ∧ (wakeups s ≤ wakeups s')%nat ∧ (w s' = w s ∨ (wakeups s < wakeups s')%nat).

Lemma signalled_refl s : signalled s s.
Proof. repeat split; by left. Qed.
Lemma signalled_trans s1 s2 s3 : signalled s1 s2 → signalled s2 s3 → signalled s1 s3.
Proof. intros (U1 & D1 & L1 & W1) (U2 & D2 & L2 & W2). split; [congruence|]. split; [congruence|]. split; [lia|]. destruct W1, W2; [left; congruence|right; lia..]. Qed.

Lemma consputc_signals s0 c : keeps (signalled s0) (consputc c).
Proof.
  unfold consputc. kgo; unfold uartputc; kgo; try (by apply keeps_modify).
  all: by apply keeps_zoom_other.
Qed.

Lemma kill_line_signals s0 fuel : keeps (signalled s0) (kill_line fuel).
Proof.
  induction fuel as [|fuel IH]; cbn [kill_line]; [by kgo|]. apply keeps_bind; [by kgo|intros s].
  case_match; [|by kgo]. apply keeps_bind; [by apply keeps_modify|intros _]. by apply keeps_bind; [apply consputc_signals|].
Qed.

Lemma cons_char_signals s0 c : keeps (signalled s0) (cons_char c).
Proof.
  unfold cons_char. case_match; [apply kill_line_signals|]. case_match; (apply keeps_bind; [by kgo|intros s]).
  - unfold when. case_match; [|by kgo]. apply keeps_bind; [by apply keeps_modify|]. intros _. apply consputc_signals.
  - unfold when. case_match; [|by kgo]. cbv zeta. apply keeps_bind; [by apply keeps_modify|intros _].
    apply keeps_bind; [apply consputc_signals|intros _]. apply keeps_bind; [by kgo|intros s1]. case_match; [|by kgo].
    apply keeps_modify. intros t (U & D & L & W). split; [done|]. split; [done|]. cbn. split; [lia|right; lia].
Qed.

Lemma intr_loop_ok getc end_ cs fuel dump b : (length cs < fuel)%nat → delivers getc end_ cs b → cons_ok (con b) →
  returns (intr_loop getc fuel dump) b (λ d b', cons_ok (con b') ∧ lines (con b') = foldl (flip typed) (lines (con b)) cs ∧
    locks (con b') = locks (con b) ∧ end_ b' ∧ signalled (con b) (con b') ∧ d = dump || bool_decide (CTRL 80 ∈ cs)).
Proof.
  revert fuel dump b. induction cs as [|c cs IH]; intros [|fuel] dump b Hf Hd Hok; cbn [length] in Hf; try lia;
    cbn [intr_loop delivers foldl] in *; apply returns_bind.
  - eapply returns_mono; [done|]. intros c b' (-> & -> & He). apply returns_ret.
    split_and!; [done..|apply signalled_refl|by rewrite orb_false_r].
  - eapply returns_mono; [done|]. intros c' [s' k' x'] (-> & Hc & Es & Hk). cbn in Es. subst s'.
    rewrite (proj2 (Z.ltb_ge c 0)) by done. destruct (Z.eqb_spec c (CTRL 80)) as [->|Hp].
    + eapply returns_mono; [apply IH; [lia|by apply (Hk (con b))|done]|]. intros d b2 (H1 & H2 & H3 & H4 & H5 & ->). cbn [con] in *.
      replace (flip typed (lines (con b)) (CTRL 80)) with (lines (con b)) by (unfold flip, typed; by destruct (lines (con b))).
      split_and!; [done..|]. rewrite (bool_decide_eq_true_2 (CTRL 80 ∈ CTRL 80 :: cs)) by left. by rewrite orb_true_r.
    + apply returns_bind. eapply returns_mono.
      { apply (on_con_ok _ (mkboard (con b) k' x') (λ _ s', (cons_ok s' ∧ lines s' = typed c (lines (con b)) ∧
          locks s' = locks (con b)) ∧ signalled (con b) s')). cbn [con].
        apply returns_keeps; [by apply cons_char_ok|apply cons_char_signals|apply signalled_refl]. }
      intros [] ? (s1 & -> & (Hok1 & El1 & Hl1) & Hsig).
      eapply returns_mono; [apply IH; [lia|by apply (Hk s1), Hsig|done]|]. intros d b2 (H1 & H2 & H3 & H4 & H5 & ->). cbn [con] in *.
      split_and!; [done| |etrans; [exact H3|exact Hl1]|done|by eapply signalled_trans|].
      * rewrite H2. f_equal. exact El1.
      * f_equal. apply bool_decide_ext. rewrite elem_of_cons. naive_solver.
Qed.

Lemma intr_from_ok getc end_ cs fuel b : (length cs < fuel)%nat → cons_ok (con b) → cons_lock (con b) = false →
  (∀ s, uart s = uart (con b) → delivers getc end_ cs (b <| con := s |>)) → (∀ b s, end_ b → end_ (b <| con := s |>)) →
  returns (consoleintr_from getc fuel) b (λ _ b', cons_ok (con b') ∧
    lines (con b') = foldl (flip typed) (lines (con b)) cs ∧ locks (con b') = locks (con b) ∧ end_ b' ∧
    (wakeups (con b) ≤ wakeups (con b'))%nat ∧ (w (con b') = w (con b) ∨ (wakeups (con b) < wakeups (con b'))%nat) ∧
    dumps (con b') = if bool_decide (CTRL 80 ∈ cs) then S (dumps (con b)) else dumps (con b)).
Proof.
  intros Hf Hok Hk Hd Hend. unfold consoleintr_from. apply returns_bind. eapply returns_mono.
  { apply (on_con_ok _ b (λ _ s, s = (con b) <| cons_lock := true |>)). unfold acquire_cons. mgo. by rewrite Hk. }
  intros [] ? (? & -> & ->). apply returns_bind. eapply returns_mono.
  { apply intr_loop_ok; [done|by apply Hd|by apply with_lock]. }
  intros d b2 (Hok2 & El2 & [= Hk2 Hi2] & He2 & (_ & D2 & L2 & W2) & ->). cbn [con set] in D2, L2, W2. apply returns_bind. eapply returns_mono.
  { apply (on_con_ok _ b2 (λ _ s, s = (con b2) <| cons_lock := false |>)). unfold release_cons. mgo. by rewrite Hk2. }
  intros [] ? (? & -> & ->).
  assert (H3 : cons_ok ((con b2) <| cons_lock := false |>)) by by apply with_lock.
  assert (L3 : locks ((con b2) <| cons_lock := false |>) = locks (con b)) by (unfold locks; cbn; by rewrite Hk, Hi2).
  rewrite orb_false_l. unfold when. case_bool_decide.
  - eapply returns_mono; [by apply (on_con_ok _ _ (λ _ s, s = (con b2) <| cons_lock := false |> <| dumps := S (dumps (con b2)) |>))|].
    intros [] ? (? & -> & ->). split_and!; [by destruct H3|exact El2|exact L3|by apply Hend, Hend|done|done|by cbn; rewrite D2].
  - apply returns_ret. split_and!; [done|exact El2|exact L3|by apply Hend|done|done|done].
Qed.

Lemma kbd_delivers bs m b : Forall (λ d, 0 ≤ d < 256) bs → kb b = mkkbd (bits m) bs →
  delivers (on_kbd kbdgetc) (λ b', kb b' = mkkbd (bits (keys m bs).2) []) (keys m bs).1 b.
Proof.
  intros Hbs. revert m b. induction Hbs as [|d bs Hd _ IH]; intros m b Hb.
  - cbn. unfold on_kbd, zoom, returns. rewrite Hb. cbn. split_and!; [done| |done]. destruct b. cbn in *. by subst.
  - cbn [keys]. destruct (key m d) as [c m'] eqn:Ek. destruct (keys m' bs) as [cs m''] eqn:Es. cbn [delivers fst snd].
    pose proof (kbdgetc_key m d bs Hd) as H. unfold on_kbd, zoom, returns in *. rewrite Hb.
    destruct (kbdgetc _) as [c' k'| | | |]; try done. rewrite Ek in H. destruct H as (-> & -> & Hc).
    split_and!; [done|done|done|]. intros s _. specialize (IH m'). rewrite Es in IH. by apply IH.
Qed.

Lemma uart_delivers cs b : Forall (λ c, 0 ≤ c) cs → rx b = cs → uart (con b) = true →
  delivers uartgetc (λ b', rx b' = []) cs b.
Proof.
  intros Hcs. revert b. induction Hcs as [|c cs Hc _ IH]; intros b Hb Hu; cbn [delivers];
    unfold uartgetc, returns, mbind, M_bind, gets; cbn; rewrite Hu; cbn; rewrite Hb; cbn; [done|].
  split_and!; [done|done|done|]. intros s Hs. apply IH; [done|]. cbn. congruence.
Qed.

Lemma keys_length m bs : length (keys m bs).1 = length bs.
Proof.
  revert m. induction bs as [|b bs IH]; intros m; [done|]. cbn [keys]. destruct (key m b) as [c m'].
  specialize (IH m'). destruct (keys m' bs). cbn in *. lia.
Qed.

(** What the interrupt leaves in the console: the lines, and the calls of [wakeup] and
    [procdump] it makes. *)
Definition edited (cs : list Z) (s s' : console) : Prop :=
  cons_ok s' ∧ lines s' = foldl (flip typed) (lines s) cs ∧ locks s' = locks s ∧
  (wakeups s ≤ wakeups s')%nat ∧ (w s' = w s ∨ (wakeups s < wakeups s')%nat) ∧
  dumps s' = if bool_decide (CTRL 80 ∈ cs) then S (dumps s) else dumps s.

Lemma kbdintr_ok m bs b : kb b = mkkbd (bits m) bs → Forall (λ d, 0 ≤ d < 256) bs →
  cons_ok (con b) → cons_lock (con b) = false →
  returns kbdintr b (λ _ b', kb b' = mkkbd (bits (keys m bs).2) [] ∧ edited (keys m bs).1 (con b) (con b')).
Proof.
  intros Hb Hbs Hok Hk. unfold kbdintr. apply returns_bind, returns_gets. cbn [id]. rewrite Hb. cbn [sent].
  eapply returns_mono; [apply (intr_from_ok _ (λ b', kb b' = mkkbd (bits (keys m bs).2) []) (keys m bs).1); try done|].
  - rewrite keys_length. lia.
  - intros s _. by apply kbd_delivers.
  - intros [] b' (H1 & H2 & H3 & H4 & H5). done.
Qed.

(** C12: A keyboard interrupt takes all the bytes that the keyboard has sent, keeps the
    modifier keys in the bits of [shift], and edits the line with the characters of
    the keys that were pressed. *)
Theorem kbdintr_edits_line m bs b : kb b = mkkbd (bits m) bs → Forall (λ d, 0 ≤ d < 256) bs →
  cons_ok (con b) → cons_lock (con b) = false →
  returns kbdintr b (λ _ b', kb b' = mkkbd (bits (keys m bs).2) [] ∧
    lines (con b') = foldl (flip typed) (lines (con b)) (keys m bs).1 ∧ cons_ok (con b') ∧ locks (con b') = locks (con b)).
Proof.
  intros Hb Hbs Hok Hk. eapply returns_mono; [by apply (kbdintr_ok m bs)|]. intros [] b' (H1 & H2 & H3 & H4 & _). done.
Qed.

(** The keyboard with the bytes of the keys l, s (with the shift key) and Enter. *)
Definition demo_board : board :=
  mkboard demo_console (mkkbd (bits (mkmods false false false false false false false)) [38; 166; 42; 31; 159; 170; 28; 156]) [].

Lemma kbdintr_edits_line_witness :
  returns kbdintr demo_board (λ _ b', lines (con b') = (chars "lS" ++ [10], [])).
Proof.
  eapply returns_mono; [apply (kbdintr_edits_line (mkmods false false false false false false false)
    [38; 166; 42; 31; 159; 170; 28; 156]); [reflexivity|by repeat constructor|apply demo_console_ok|reflexivity]|].
  intros [] b' (_ & E & _). exact E.
Defined.

(** The same for the bytes received on the serial line. *)
Lemma uartintr_ok b : Forall (λ c, 0 ≤ c) (rx b) → uart (con b) = true →
  cons_ok (con b) → cons_lock (con b) = false →
  returns uartintr b (λ _ b', rx b' = [] ∧ edited (rx b) (con b) (con b')).
Proof.
  intros Hrx Hu Hok Hk. unfold uartintr. apply returns_bind, returns_gets. cbn [id].
  eapply returns_mono; [apply (intr_from_ok _ (λ b', rx b' = []) (rx b)); try done; [lia|]|].
  - intros s Hs. apply uart_delivers; [done..|]. cbn. congruence.
  - intros [] b' (H1 & H2 & H3 & H4 & H5). done.
Qed.

(** With the keys of letters, Control gives the control characters, and otherwise the
    letter is a capital when exactly one of Shift and Caps Lock is on. *)
Definition letter_ok (sh ct ca : bool) (code : Z) : bool :=
  match normalmap code with
  | Some c =>
      if (97 <=? c) && (c <=? 122) then
        key_char (mkmods sh ct false ca false false false) code =?
          (if ct then c - 96 else if xorb sh ca then c - 32 else c)
      else true
  | None => false
  end.

Lemma letter_keys sh ct ca code : 0 ≤ code < 256 → letter_ok sh ct ca code = true.
Proof.
  intros Hc. assert (H : forallb (letter_ok sh ct ca) (Z.of_nat <$> seq 0 256) = true)
    by (destruct sh, ct, ca; vm_compute; reflexivity).
  rewrite forallb_forall in H. apply H, list_elem_of_In, list_elem_of_fmap. exists (Z.to_nat code).
  split; [lia|apply elem_of_seq; lia].
Qed.
