(* ===== verification/Ide.v ===== *)
(** The disk driver (ide.c): requests wait in a linked queue, the drive works on the
    first, and each interrupt ends a request and starts the next. *)

From S2P Require Import Prelude CString Bytes.

(** ** The drive *)

Inductive ata_cmd :=
| ReadSector (drv lba : Z)
| WriteSector (drv lba : Z) (d : blk).

(** The sector that the task file registers 0x1f3..0x1f6 select. *)
Definition lba28 (r3 r4 r5 r6 : Z) : Z := r3 + r4 * 256 + r5 * 65536 + Z.land r6 15 * 16777216.
Definition drive_of (r6 : Z) : Z := Z.land (Z.shiftr r6 4) 1.

(** An ATA disk as the driver relies on it.  [finish err] is the drive ending its
    command, with or without an error; [contents] are its sectors. *)
Class Ata (D : Type) := {
  outb : Z → Z → D → D;
  outsl : blk → D → D;
  insl : D → blk * D;
  status : D → Z;
  finish : bool → D → D;
  contents : D → Z → Z → blk;
  executing : D → option ata_cmd;

  ata_ready d : executing d = None → Z.land (status d) 192 = 64;
  ata_read d r3 r4 r5 r6 : executing d = None →
    let d' := outb 503 32 (outb 502 r6 (outb 501 r5 (outb 500 r4 (outb 499 r3 (outb 498 1 (outb 1014 0 d)))))) in
    executing d' = Some (ReadSector (drive_of r6) (lba28 r3 r4 r5 r6)) ∧ contents d' = contents d;
  ata_write d r3 r4 r5 r6 data : executing d = None →
    let d' := outsl data
      (outb 503 48 (outb 502 r6 (outb 501 r5 (outb 500 r4 (outb 499 r3 (outb 498 1 (outb 1014 0 d))))))) in
    executing d' = Some (WriteSector (drive_of r6) (lba28 r3 r4 r5 r6) data) ∧ contents d' = contents d;
  ata_finish err d : executing (finish err d) = None;
  ata_read_done err d drv lba : executing d = Some (ReadSector drv lba) →
    let d' := finish err d in
    contents d' = contents d ∧ (Z.land (status d') 33 = 0 ↔ err = false) ∧
    (err = false → (insl d').1 = contents d drv lba);
  ata_write_done d drv lba data : executing d = Some (WriteSector drv lba data) →
    contents (finish false d) = upd (contents d) drv (upd (contents d drv) lba data);
  ata_insl d : executing (insl d).2 = executing d ∧ contents (insl d).2 = contents d
}.

(** ** State *)

(** [struct buf], with the sleep lock as held by the caller or not. *)
Record ibuf := mkibuf {
  flags : Z; dev : Z; blockno : Z; held : bool; qnext : option nat; data : blk
}.
#[export] Instance ibuf_eta : Eta ibuf := λ b,
  mkibuf (flags b) (dev b) (blockno b) (held b) (qnext b) (data b).

(** [woken] records the calls of [wakeup(b)]. *)
Record ide (D : Type) := mkide {
  idequeue : option nat;
  bufs : nat → ibuf;
  havedisk1 : bool;
  idelock : bool;
  drive : D;
  woken : list nat
}.
Arguments mkide {D}.
Arguments idequeue {D}.
Arguments bufs {D}.
Arguments havedisk1 {D}.
Arguments idelock {D}.
Arguments drive {D}.
Arguments woken {D}.
#[export] Instance ide_eta {D} : Eta (ide D) := λ s,
  mkide (idequeue s) (bufs s) (havedisk1 s) (idelock s) (drive s) (woken s).

Definition SECTOR_SIZE : Z := 512.
Definition BSIZE : Z := 512.
Definition FSSIZE : Z := 40000.
Definition IDE_BSY : Z := 128.
Definition IDE_DRDY : Z := 64.
Definition IDE_DF : Z := 32.
Definition IDE_ERR : Z := 1.
Definition IDE_CMD_READ : Z := 32.
Definition IDE_CMD_WRITE : Z := 48.
Definition IDE_CMD_RDMUL : Z := 196.
Definition IDE_CMD_WRMUL : Z := 197.
Definition B_VALID : Z := 2.
Definition B_DIRTY : Z := 4.

Section Driver.
Context {D : Type} `{Ata D}.

(** ** Operations *)

Definition out (port v : Z) : M (ide D) unit := modify (λ s, s <| drive := outb port v (drive s) |>).
Definition setb (b : nat) (f : ibuf → ibuf) : M (ide D) unit :=
  modify (λ s, s <| bufs := upd (bufs s) b (f (bufs s b)) |>).

Definition acquire_ide : M (ide D) unit :=
  l ← gets idelock;
  if (l : bool) then block else modify (λ s, s <| idelock := true |>).
Definition release_ide : M (ide D) unit :=
  l ← gets idelock;
  if (l : bool) then modify (λ s, s <| idelock := false |>) else panic "release".

(** It spins until the drive is ready. *)
Definition idewait (checkerr : bool) : M (ide D) Z :=
  r ← gets (λ s, status (drive s));
  if negb (Z.land r (Z.lor IDE_BSY IDE_DRDY) =? IDE_DRDY) then block
  else if checkerr && negb (Z.land r (Z.lor IDE_DF IDE_ERR) =? 0) then mret (-1)
  else mret 0.

(** [ideinit]: the second drive is there if its status is ever not 0. *)
Fixpoint probe (n : nat) : M (ide D) unit :=
  match n with
  | O => skip
  | S n =>
      r ← gets (λ s, status (drive s));
      if negb (r =? 0) then modify (λ s, s <| havedisk1 := true |>) else probe n
  end.

Definition ideinit : M (ide D) unit :=
  _ ← modify (λ s, s <| idelock := false |>);
  _ ← idewait false;
  _ ← out 502 (Z.lor 224 (Z.shiftl 1 4));
  _ ← probe 1000;
  out 502 (Z.lor 224 (Z.shiftl 0 4)).

Definition idestart (p : option nat) : M (ide D) unit :=
  match p with
  | None => panic "idestart"
  | Some i =>
      b ← gets (λ s, bufs s i);
      if FSSIZE <=? blockno b then panic "incorrect blockno" else
      let sector_per_block := BSIZE / SECTOR_SIZE in
      let sector := blockno b * sector_per_block in
      let read_cmd := if sector_per_block =? 1 then IDE_CMD_READ else IDE_CMD_RDMUL in
      let write_cmd := if sector_per_block =? 1 then IDE_CMD_WRITE else IDE_CMD_WRMUL in
      if 7 <? sector_per_block then panic "idestart" else
      _ ← idewait false;
      _ ← out 1014 0;
      _ ← out 498 sector_per_block;
      _ ← out 499 (Z.land sector 255);
      _ ← out 500 (Z.land (Z.shiftr sector 8) 255);
      _ ← out 501 (Z.land (Z.shiftr sector 16) 255);
      _ ← out 502 (Z.lor (Z.lor 224 (Z.shiftl (Z.land (dev b) 1) 4)) (Z.land (Z.shiftr sector 24) 15));
      if negb (Z.land (flags b) B_DIRTY =? 0) then
        _ ← out 503 write_cmd;
        modify (λ s, s <| drive := outsl (data b) (drive s) |>)
      else out 503 read_cmd
  end.

Definition ideintr : M (ide D) unit :=
  _ ← acquire_ide;
  q ← gets idequeue;
  match q with
  | None => release_ide
  | Some i =>
      b ← gets (λ s, bufs s i);
      _ ← modify (λ s, s <| idequeue := qnext b |>);
      _ ← when (Z.land (flags b) B_DIRTY =? 0)
            (r ← idewait true;
             when (0 <=? r)
               (x ← gets (λ s, insl (drive s));
                _ ← modify (λ s, s <| drive := x.2 |>);
                setb i (λ b, b <| data := x.1 |>)));
      _ ← setb i (λ b, b <| flags := Z.lor (flags b) B_VALID |>);
      _ ← setb i (λ b, b <| flags := Z.ldiff (flags b) B_DIRTY |>);
      _ ← modify (λ s, s <| woken := woken s ++ [i] |>);
      q ← gets idequeue;
      _ ← when (bool_decide (q ≠ None)) (idestart q);
      release_ide
  end.

(** The loop that looks for the end of the queue; [pp] points to [idequeue] or to
    the [qnext] of a buffer. *)
Fixpoint last_link (fuel : nat) (pp : option nat) : M (ide D) (option nat) :=
  match fuel with
  | O => λ _, NoFuel
  | S fuel =>
      p ← gets (λ s, match pp with None => idequeue s | Some i => qnext (bufs s i) end);
      match p with None => mret pp | Some i => last_link fuel (Some i) end
  end.

(** The last loop of [iderw]: whether the request is done; if it is not, the
    process sleeps, which releases [idelock]. *)
Definition wait_done (i : nat) : M (ide D) bool :=
  b ← gets (λ s, bufs s i);
  if negb (Z.land (flags b) (Z.lor B_VALID B_DIRTY) =? B_VALID) then _ ← release_ide; mret false
  else _ ← release_ide; mret true.

(** [iderw(b)], up to its first sleep; [fuel] bounds the length of the queue. *)
Definition iderw (fuel : nat) (i : nat) : M (ide D) bool :=
  b ← gets (λ s, bufs s i);
  if negb (held b) then panic "iderw: buf not locked" else
  if Z.land (flags b) (Z.lor B_VALID B_DIRTY) =? B_VALID then panic "iderw: nothing to do" else
  h1 ← gets havedisk1;
  if negb (dev b =? 0) && negb h1 then panic "iderw: ide disk 1 not present" else
  _ ← acquire_ide;
  _ ← setb i (λ b, b <| qnext := None |>);
  pp ← last_link fuel None;
  _ ← match pp with
      | None => modify (λ s, s <| idequeue := Some i |>)
      | Some j => setb j (λ b, b <| qnext := Some i |>)
      end;
  q ← gets idequeue;
  _ ← when (bool_decide (q = Some i)) (idestart (Some i));
  wait_done i.

(** After [wakeup(b)]. *)
Definition iderw_woken (i : nat) : M (ide D) bool := _ ← acquire_ide; wait_done i.
End Driver.

(** ** Specification *)

(** The requests in order, the buffers (with no use of [qnext]), the sectors of the
    drives, whether there is a second drive, and the requests served so far. *)
Record adisk := mkad {
  pend : list nat;
  abuf : nat → ibuf;
  asect : Z → Z → blk;
  adisk1 : bool;
  served : list nat
}.
#[export] Instance adisk_eta : Eta adisk := λ a, mkad (pend a) (abuf a) (asect a) (adisk1 a) (served a).

Definition drv (b : ibuf) : Z := Z.land (dev b) 1.
Definition dirty (b : ibuf) : bool := negb (Z.land (flags b) B_DIRTY =? 0).
Definition is_done (b : ibuf) : bool := Z.land (flags b) (Z.lor B_VALID B_DIRTY) =? B_VALID.
Definition request_ok (b : ibuf) : Prop := is_done b = false ∧ 0 ≤ blockno b < FSSIZE.

(** The buffer and the sectors after the request: the comment before [iderw]. *)
Definition transfer (err : bool) (b : ibuf) (d : Z → Z → blk) : ibuf * (Z → Z → blk) :=
  let b' := b <| flags := Z.ldiff (Z.lor (flags b) B_VALID) B_DIRTY |> in
  if dirty b then (b', upd d (drv b) (upd (d (drv b)) (blockno b) (data b)))
  else ((if err then b' else (b' <| data := d (drv b) (blockno b) |>)), d).

(** A process asks for a buffer to be read or written; the drive is done; an
    interrupt comes with nothing to do; a process that was woken goes on; a process
    that holds a buffer changes it. *)
Inductive event :=
| Submit (i : nat)
| Done (err : bool)
| Spurious
| Woken (i : nat)
| Touch (i : nat) (fl dv bn : Z) (h : bool) (d : blk).

Definition touch (fl dv bn : Z) (h : bool) (d : blk) (b : ibuf) : ibuf := mkibuf fl dv bn h (qnext b) d.

Definition astep (e : event) (a : adisk) : option bool * adisk :=
  match e with
  | Submit i => (Some false, a <| pend := pend a ++ [i] |>)
  | Done err =>
      match pend a with
      | [] => (None, a)
      | i :: l =>
          let '(b, d) := transfer err (abuf a i) (asect a) in
          (None, a <| pend := l |> <| abuf := upd (abuf a) i b |> <| asect := d |> <| served := served a ++ [i] |>)
      end
  | Spurious => (None, a)
  | Woken i => (Some (is_done (abuf a i)), a)
  | Touch i fl dv bn h d => (None, a <| abuf := upd (abuf a) i (touch fl dv bn h d (abuf a i)) |>)
  end.

Definition NBUF : nat := 30.

(** What the rest of the kernel sees to: a request is for a buffer that its process
    has locked and that needs work, and nobody changes a buffer in the queue. *)
Definition allowed (e : event) (a : adisk) : Prop :=
  match e with
  | Submit i => (i < NBUF)%nat ∧ (i ∉ pend a) ∧ held (abuf a i) = true ∧ request_ok (abuf a i) ∧
                (dev (abuf a i) = 0 ∨ adisk1 a = true)
  | Done err => ∃ i, head (pend a) = Some i ∧ (err = true → dirty (abuf a i) = false)
  | Spurious => pend a = []
  | Woken i => True
  | Touch i _ _ _ _ _ => i ∉ pend a
  end.

Fixpoint asteps (es : list event) (a : adisk) : list (option bool) * adisk :=
  match es with
  | [] => ([], a)
  | e :: es => let '(r, a) := astep e a in let '(rs, a) := asteps es a in (r :: rs, a)
  end.

Fixpoint all_allowed (es : list event) (a : adisk) : Prop :=
  match es with [] => True | e :: es => allowed e a ∧ all_allowed es (astep e a).2 end.

Section Refinement.
Context {D : Type} `{Ata D}.
Implicit Types s : ide D.

Definition run_event (e : event) : M (ide D) (option bool) :=
  match e with
  | Submit i => r ← iderw (S NBUF) i; mret (Some r)
  | Done err => _ ← modify (λ s, s <| drive := finish err (drive s) |>); _ ← ideintr; mret None
  | Spurious => _ ← ideintr; mret None
  | Woken i => r ← iderw_woken i; mret (Some r)
  | Touch i fl dv bn h d => _ ← setb i (touch fl dv bn h d); mret None
  end.

Fixpoint run_events (es : list event) : M (ide D) (list (option bool)) :=
  match es with [] => mret [] | e :: es => r ← run_event e; rs ← run_events es; mret (r :: rs) end.

(** The linked queue. *)
Fixpoint chain (f : nat → ibuf) (q : option nat) (l : list nat) : Prop :=
  match l with [] => q = None | i :: l => q = Some i ∧ chain f (qnext (f i)) l end.

Definition same_buf (b b' : ibuf) : Prop := b <| qnext := None |> = b' <| qnext := None |>.

Definition cmd_of (b : ibuf) : ata_cmd :=
  if dirty b then WriteSector (drv b) (blockno b) (data b) else ReadSector (drv b) (blockno b).

Record queue_ok (a : adisk) s : Prop := {
  qo_chain : chain (bufs s) (idequeue s) (pend a);
  qo_nodup : NoDup (pend a);
  qo_nbuf i : i ∈ pend a → (i < NBUF)%nat;
  qo_bufs i : same_buf (bufs s i) (abuf a i);
  qo_sect v l : contents (drive s) v l = asect a v l;
  qo_reqs i : i ∈ pend a → request_ok (abuf a i);
  qo_disk1 : havedisk1 s = adisk1 a;
  qo_woken : woken s = served a
}.

(** Between two operations the drive executes the first request of the queue. *)
Record ide_ok (a : adisk) s : Prop := {
  io_queue : queue_ok a s;
  io_exec : executing (drive s) = (λ i, cmd_of (abuf a i)) <$> head (pend a);
  io_lock : idelock s = false
}.

(** ** Proof *)

(** The registers select the block. *)
Lemma lba_block x dv : 0 ≤ x < FSSIZE →
  let r6 := Z.lor (Z.lor 224 (Z.shiftl (Z.land dv 1) 4)) (Z.land (Z.shiftr x 24) 15) in
  lba28 (Z.land x 255) (Z.land (Z.shiftr x 8) 255) (Z.land (Z.shiftr x 16) 255) r6 = x ∧ drive_of r6 = Z.land dv 1.
Proof.
  unfold FSSIZE. intros Hx. cbv zeta.
  assert (E24 : Z.shiftr x 24 = 0) by (rewrite Z.shiftr_div_pow2 by lia; apply Z.div_small; lia).
  assert (E16 : Z.shiftr x 16 = 0) by (rewrite Z.shiftr_div_pow2 by lia; apply Z.div_small; lia).
  assert (E8 : Z.land (Z.shiftr x 8) 255 = x / 256).
  { rewrite Z.shiftr_div_pow2 by lia. change 255 with (Z.ones 8). rewrite Z.land_ones by lia.
    change (2 ^ 8) with 256. apply Z.mod_small. split; [apply Z.div_pos; lia|apply Z.div_lt_upper_bound; lia]. }
  assert (E0 : Z.land x 255 = x mod 256) by (change 255 with (Z.ones 8); by rewrite Z.land_ones by lia).
  rewrite E24, E16, E8, E0. assert (Hd : Z.land dv 1 = 0 ∨ Z.land dv 1 = 1).
  { pose proof (Z.land_ones dv 1 ltac:(lia)) as E. change (Z.ones 1) with 1 in E. change (2 ^ 1) with 2 in E.
    pose proof (Z.mod_pos_bound dv 2 ltac:(lia)). lia. }
  pose proof (Z.div_mod x 256 ltac:(lia)). unfold lba28, drive_of. change (Z.land 0 255) with 0.
  destruct Hd as [-> | ->]; (split; [|done]); match goal with |- context [Z.land ?r 15 * _] => change (Z.land r 15) with 0 end; lia.
Qed.

Lemma idewait_ready s : executing (drive s) = None → returns (idewait false) s (λ r s', r = 0 ∧ s' = s).
Proof. intros Hx. unfold idewait. mgo. change (Z.lor IDE_BSY IDE_DRDY) with 192. rewrite (ata_ready _ Hx). by mgo. Qed.

Lemma idestart_ok i s : executing (drive s) = None → 0 ≤ blockno (bufs s i) < FSSIZE →
  returns (idestart (Some i)) s (λ _ s', ∃ d, s' = s <| drive := d |> ∧
    executing d = Some (cmd_of (bufs s i)) ∧ contents d = contents (drive s)).
Proof.
  intros Hx Hb. unfold idestart. apply returns_bind, returns_gets. set (b := bufs s i) in *.
  rewrite (proj2 (Z.leb_gt FSSIZE _)) by lia. change (BSIZE / SECTOR_SIZE) with 1. rewrite Z.mul_1_r. cbn -[idewait out Z.land Z.lor Z.shiftl Z.shiftr].
  apply returns_bind. eapply returns_mono; [by apply idewait_ready|]. intros _ _ [_ ->].
  set (r3 := Z.land (blockno b) 255). set (r4 := Z.land (Z.shiftr (blockno b) 8) 255).
  set (r5 := Z.land (Z.shiftr (blockno b) 16) 255). set (r6 := Z.lor (Z.lor 224 _) _).
  do 6 (apply returns_bind, returns_modify). destruct (lba_block (blockno b) (dev b) Hb) as [El Ed].
  fold r3 r4 r5 r6 in El, Ed. unfold cmd_of, dirty, drv.
  destruct (negb (Z.land (flags b) B_DIRTY =? 0)).
  - do 2 (apply returns_bind, returns_modify || apply returns_modify). eexists. split; [reflexivity|].
    pose proof (ata_write (drive s) r3 r4 r5 r6 (data b) Hx) as W. cbv zeta in W. rewrite Ed, El in W. exact W.
  - apply returns_modify. eexists. split; [reflexivity|].
    pose proof (ata_read (drive s) r3 r4 r5 r6 Hx) as W. cbv zeta in W. rewrite Ed, El in W. exact W.
Qed.

(** Buffers that agree but for [qnext]. *)
Lemma same_buf_fields b b' : same_buf b b' →
  flags b = flags b' ∧ dev b = dev b' ∧ blockno b = blockno b' ∧ held b = held b' ∧ data b = data b'.
Proof. destruct b, b'. unfold same_buf. cbn. by intros [= -> -> -> -> ->]. Qed.

Lemma same_buf_views b b' : same_buf b b' → cmd_of b = cmd_of b' ∧ is_done b = is_done b' ∧ dirty b = dirty b'.
Proof. intros (E1 & E2 & E3 & E4 & E5)%same_buf_fields. unfold cmd_of, is_done, dirty, drv. by rewrite E1, E2, E3, E5. Qed.

Lemma same_buf_upd (f g : nat → ibuf) i b b' : (∀ j, same_buf (f j) (g j)) → same_buf b b' →
  ∀ j, same_buf (upd f i b j) (upd g i b' j).
Proof. intros Hfg Hb j. unfold upd. by case_decide. Qed.

Lemma same_buf_trans b1 b2 b3 : same_buf b1 b2 → same_buf b2 b3 → same_buf b1 b3.
Proof. unfold same_buf. congruence. Qed.

(** *** The queue *)

Lemma qchain_ext f g q l : (∀ j, j ∈ l → qnext (f j) = qnext (g j)) → chain f q l → chain g q l.
Proof.
  revert q. induction l as [|i l IH]; intros q Hfg Hc; [done|]. destruct Hc as [-> Hc]. split; [done|].
  rewrite <- (Hfg i) by left. apply IH; [|done]. intros j Hj. apply Hfg. by right.
Qed.

Lemma chain_snoc f q l j i : NoDup (l ++ [j]) → i ∉ l ++ [j] → qnext (f i) = None → chain f q (l ++ [j]) →
  chain (upd f j ((f j) <| qnext := Some i |>)) q (l ++ [j; i]).
Proof.
  revert q. induction l as [|k l IH]; intros q Hnd Hi Hn Hc; cbn [app chain] in *.
  - destruct Hc as [-> _]. rewrite upd_eq. cbn. rewrite upd_ne; [done|]. set_solver.
  - destruct Hc as [-> Hc]. apply NoDup_cons in Hnd as [Hk Hnd]. split; [done|].
    rewrite upd_ne by set_solver. apply IH; [done|set_solver|done|done].
Qed.

Lemma last_link_ok f q l fuel pp s : (length l < fuel)%nat →
  (∀ i, f i = bufs s i) → match pp with None => idequeue s = q | Some i => qnext (bufs s i) = q end →
  chain f q l → returns (last_link fuel pp) s (λ r s', s' = s ∧ r = match last l with Some j => Some j | None => pp end).
Proof.
  intros Hlt Hf. revert q pp fuel Hlt. induction l as [|i l IH]; intros q pp [|fuel] Hlt Hq Hc; cbn [length] in Hlt; try lia;
    cbn [last_link chain] in *; apply returns_bind, returns_gets.
  - destruct pp; rewrite Hq, Hc; by apply returns_ret.
  - destruct Hc as [-> Hc]. destruct pp; rewrite Hq.
    all: eapply returns_mono; [apply (IH (qnext (f i)) (Some i)); [lia|by rewrite Hf|done]|]; intros r s' [-> ->]; split; [done|];
      destruct l as [|k l]; [done|]; rewrite last_cons_cons; destruct (last (k :: l)) eqn:E; [done|];
      by apply last_None in E.
Qed.

Lemma bounded_length (l : list nat) n : NoDup l → (∀ i, i ∈ l → (i < n)%nat) → (length l ≤ n)%nat.
Proof.
  intros Hnd Hl. rewrite <- (length_seq n 0). apply submseteq_length, NoDup_submseteq; [done|].
  intros i Hi. apply elem_of_seq. specialize (Hl i Hi). lia.
Qed.

(** *** The end of a request *)

Lemma transfer_data_ok err i fl s0 s : fl = flags (bufs s i) → drive s = finish err (drive s0) → bufs s = bufs s0 →
  executing (drive s0) = Some (cmd_of (bufs s i)) → (err = true → dirty (bufs s i) = false) →
  returns (when (Z.land fl B_DIRTY =? 0)
    (r ← idewait true;
     when (0 <=? r)
       (x ← gets (λ s, insl (drive s));
        _ ← modify (λ s, s <| drive := x.2 |>);
        setb i (λ b, b <| data := x.1 |>)))) s (λ _ s',
    idequeue s' = idequeue s ∧ havedisk1 s' = havedisk1 s ∧ idelock s' = idelock s ∧ woken s' = woken s ∧
    let '(b, c) := transfer err (bufs s i) (contents (drive s0)) in
    (∀ j, bufs s' j = upd (bufs s) i ((bufs s i) <| data := data b |>) j) ∧
    executing (drive s') = None ∧ contents (drive s') = c).
Proof.
  intros -> Hd Hb Hx Herr. unfold transfer, cmd_of, dirty in *. set (b := bufs s i) in *.
  assert (Hsame : ∀ j, bufs s j = upd (bufs s) i (b <| data := data b |>) j).
  { intros j. unfold upd. case_decide; [subst; by destruct (bufs s i)|done]. }
  destruct (Z.land (flags b) B_DIRTY =? 0); cbn [negb when] in *.
  - destruct (ata_read_done err _ _ _ Hx) as (Hc & Hst & Hin). unfold idewait. mgo. rewrite Hd.
    change (Z.lor IDE_BSY IDE_DRDY) with 192. rewrite ata_ready by apply ata_finish. cbn [negb Z.eqb andb].
    change (64 =? IDE_DRDY) with true. cbn [negb].
    change (Z.lor IDE_DF IDE_ERR) with 33. destruct (Z.eqb_spec (Z.land (status (finish err (drive s0))) 33) 0) as [E|E]; cbn [negb].
    + apply Hst in E as ->. mgo. destruct (ata_insl (finish false (drive s0))) as [E1 E2]. cbn [when Z.leb Z.compare]. mgo. unfold setb. apply returns_modify. cbn. rewrite Hd.
      split_and!; [done..| |by rewrite E1; apply ata_finish|congruence].
      intros j. unfold upd. case_decide; [|done]. by rewrite Hin.
    + destruct err; [|exfalso; tauto]. cbn. mgo. split_and!; [done..|rewrite Hd; apply ata_finish|congruence].
  - destruct err; [by discriminate Herr|]. mgo. rewrite Hd.
    split_and!; [done..|apply ata_finish|by apply ata_write_done].
Qed.

Lemma done_flags b : is_done (b <| flags := Z.ldiff (Z.lor (flags b) B_VALID) B_DIRTY |>) = true.
Proof.
  unfold is_done. cbn. apply Z.eqb_eq. apply Z.bits_inj'. intros n Hn.
  rewrite Z.land_spec, Z.ldiff_spec, Z.lor_spec. change (Z.lor B_VALID B_DIRTY) with 6.
  destruct (decide (n = 1)) as [->|H1]; [by rewrite orb_true_r|]. destruct (decide (n = 2)) as [->|H2]; [by rewrite !andb_false_r|].
  assert (E6 : Z.testbit 6 n = false).
  { assert (n = 0 ∨ 3 ≤ n) as [->|H3] by lia; [done|]. by apply Z.bits_above_log2; [|change (Z.log2 6) with 2; lia]. }
  assert (E2 : Z.testbit B_VALID n = false).
  { assert (n = 0 ∨ 3 ≤ n) as [->|H3] by lia; [done|]. by apply Z.bits_above_log2; [|change (Z.log2 B_VALID) with 1; lia]. }
  by rewrite E6, E2, andb_false_r.
Qed.

Lemma locked_release s : idelock s = true → returns release_ide s (λ _ s', s' = s <| idelock := false |>).
Proof. intros Hl. unfold release_ide. mgo. rewrite Hl. by mgo. Qed.

Lemma acquire_free s : idelock s = false → returns acquire_ide s (λ _ s', s' = s <| idelock := true |>).
Proof. intros Hl. unfold acquire_ide. mgo. rewrite Hl. by mgo. Qed.

(** With the drive idle, the first request of the queue is started. *)
Lemma start_next_ok a s : queue_ok a s → executing (drive s) = None → idelock s = true →
  returns (q ← gets idequeue; _ ← when (bool_decide (q ≠ None)) (idestart q); release_ide) s (λ _ s', ide_ok a s').
Proof.
  intros Hq Hx Hl. apply returns_bind, returns_gets. pose proof (qo_chain _ _ Hq) as Hch.
  destruct (pend a) as [|i l] eqn:Ep; cbn [chain] in Hch.
  - rewrite Hch. cbn. mgo. eapply returns_mono; [by apply locked_release|]. intros [] s' ->.
    constructor; [by destruct Hq|by rewrite Ep|done].
  - destruct Hch as [-> Hch]. cbn. destruct (qo_reqs _ _ Hq i) as [Hnr Hbk]; [rewrite Ep; left|].
    pose proof (qo_bufs _ _ Hq i) as Hb. destruct (same_buf_fields _ _ Hb) as (_ & _ & E3 & _ & _).
    mgo. eapply returns_mono; [apply idestart_ok; [done|by rewrite E3]|]. intros [] s1 (d & -> & Hx1 & Hc1).
    eapply returns_mono; [by apply locked_release|]. intros [] s' ->.
    destruct (same_buf_views _ _ Hb) as (Ecmd & _). constructor; [|rewrite Ep; cbn; by rewrite Hx1, Ecmd|done].
    destruct Hq. constructor; try done. intros v l'. change (contents d v l' = asect a v l'). by rewrite Hc1.
Qed.

Lemma transfer_same err b b' c : same_buf b b' → same_buf (transfer err b c).1 (transfer err b' c).1 ∧
  (transfer err b c).2 = (transfer err b' c).2.
Proof.
  destruct b, b'. intros (E1 & E2 & E3 & E4 & E5)%same_buf_fields. cbn in *. subst.
  unfold transfer, dirty, drv, same_buf. cbn. by destruct (negb _), err.
Qed.

Lemma transfer_flags err b c : flags (transfer err b c).1 = Z.ldiff (Z.lor (flags b) B_VALID) B_DIRTY.
Proof. unfold transfer. by destruct (dirty b), err. Qed.

Lemma transfer_buf err b c : (transfer err b c).1 =
  b <| data := data (transfer err b c).1 |> <| flags := Z.ldiff (Z.lor (flags b) B_VALID) B_DIRTY |>.
Proof. unfold transfer. destruct b. by destruct (dirty _), err. Qed.

Lemma transfer_ext err b c c' : (∀ v l, c v l = c' v l) →
  (transfer err b c).1 = (transfer err b c').1 ∧ ∀ v l, (transfer err b c).2 v l = (transfer err b c').2 v l.
Proof.
  intros Hc. unfold transfer. destruct (dirty b); cbn; (split; [|try done]).
  - done.
  - intros v l. unfold upd. case_decide; [|done]. by case_decide.
  - by rewrite Hc.
Qed.

(** The queue after its first request has been served. *)
Lemma served_ok err a s s' i l : queue_ok a s → pend a = i :: l →
  idequeue s' = qnext (bufs s i) → havedisk1 s' = havedisk1 s → woken s' = woken s ++ [i] →
  let '(b, c) := transfer err (bufs s i) (contents (drive s)) in
  (∀ j, bufs s' j = upd (bufs s) i b j) → contents (drive s') = c → queue_ok (astep (Done err) a).2 s'.
Proof.
  intros [Hch Hnd Hnb Hb Hs Hr H1 Hw] Ep Hq' H1' Hw'. pose proof (Hb i) as Hbi.
  destruct (transfer_same err _ _ (contents (drive s)) Hbi) as [Hsame Hsect].
  destruct (transfer_ext err (abuf a i) _ _ Hs) as [Ebuf Esect]. rewrite Ebuf in Hsame. 
  pose proof (transfer_buf err (bufs s i) (contents (drive s))) as Etb.
  destruct (transfer err (bufs s i) (contents (drive s))) as [b c]. cbn [fst snd] in *. subst c. intros Hbufs Hc.
  rewrite Ep in *. destruct Hch as [_ Hch]. apply NoDup_cons in Hnd as [Hi Hnd]. cbn [astep]. rewrite Ep.
  destruct (transfer err (abuf a i) (asect a)) as [b' c']. cbn [fst snd] in *. constructor; cbn.
  - rewrite Hq'. eapply qchain_ext; [|done]. intros j Hj. rewrite Hbufs, upd_ne by set_solver. done.
  - done.
  - intros j Hj. apply Hnb. by right.
  - intros j. rewrite Hbufs. by apply same_buf_upd.
  - intros v x. rewrite Hc. apply Esect.
  - intros j Hj. rewrite upd_ne by set_solver. apply Hr. by right.
  - congruence.
  - congruence.
Qed.

(** An interrupt ends the first request. *)
Lemma done_ok err a s : ide_ok a s → allowed (Done err) a →
  returns (run_event (Done err)) s (λ r s', r = (astep (Done err) a).1 ∧ ide_ok (astep (Done err) a).2 s').
Proof.
  intros [Hq Hx Hl] (i & Hi & Herr). cbn [run_event astep]. destruct (pend a) as [|i' l] eqn:Ep; [done|].
  cbn in Hi, Hx. simplify_eq. pose proof (qo_bufs _ _ Hq i) as Hb. destruct (same_buf_views _ _ Hb) as (Ecmd & _ & Edirty).
  pose proof (qo_chain _ _ Hq) as Hch. rewrite Ep in Hch. destruct Hch as [Hqi Hch].
  apply returns_bind, returns_modify. apply returns_bind. unfold ideintr. apply returns_bind.
  eapply returns_mono; [by apply acquire_free|]. intros [] s1 ->. apply returns_bind, returns_gets. cbn [idequeue set].
  rewrite Hqi. apply returns_bind, returns_gets. apply returns_bind, returns_modify. apply returns_bind.
  eapply returns_mono; [apply (transfer_data_ok err i _ s); [done|done|done|by cbn; rewrite Hx, Ecmd|by cbn; rewrite Edirty]|].
  intros [] s2 (Q2 & D2 & L2 & W2 & H2). cbn in Q2, D2, L2, W2. cbn [bufs set] in H2.
  destruct (transfer err (bufs s i) (contents (drive s))) as [b c] eqn:Et. destruct H2 as (B2 & X2 & C2).
  unfold setb. do 3 apply returns_bind, returns_modify. eapply returns_mono; [apply (start_next_ok (astep (Done err) a).2)|].
  - pose proof (transfer_buf err (bufs s i) (contents (drive s))) as Etb. rewrite Et in Etb.
    match goal with |- queue_ok _ ?s3 => pose proof (served_ok err a s s3 i l Hq Ep Q2 D2) as Hs3 end.
    rewrite Et in Hs3. apply Hs3; [cbn; by rewrite W2| |done].
    intros j. cbn. unfold upd. repeat case_decide; simplify_eq; rewrite ?B2; unfold upd; rewrite ?decide_True, ?decide_False by done; try done.
  - done.
  - done.
  - intros [] s' Hs'. apply returns_ret. cbn [astep] in *. rewrite Ep in *. by destruct (transfer err (abuf a i) (asect a)).
Qed.

(** A request is put at the end of the queue, and started when it is alone there. *)
Lemma appended_ok a s i : queue_ok a s → allowed (Submit i) a → qnext (bufs s i) = None →
  queue_ok (astep (Submit i) a).2 match last (pend a) with
    | None => s <| idequeue := Some i |>
    | Some j => s <| bufs := upd (bufs s) j ((bufs s j) <| qnext := Some i |>) |>
    end.
Proof.
  intros [Hch Hnd Hnb Hb Hs Hr H1 Hw] (Hi & Hni & _ & Hreq & _) Hqi.
  assert (Hin : ∀ j, j ∈ pend a ++ [i] → j ∈ pend a ∨ j = i) by (intros j; rewrite elem_of_app, list_elem_of_singleton; tauto).
  destruct (last (pend a)) as [j|] eqn:El.
  - apply last_Some in El as [l El]. constructor; cbn; try done.
    + rewrite El, <- app_assoc. rewrite El in *. by apply chain_snoc.
    + apply NoDup_app. split_and!; [done|set_solver|apply NoDup_singleton].
    + intros k [?| ->]%Hin; auto.
    + intros k. unfold upd. case_decide; [subst|done]. eapply same_buf_trans; [|apply Hb]. by destruct (bufs s j).
    + intros k [?| ->]%Hin; auto.
  - apply last_None in El. rewrite El in *. constructor; cbn; rewrite ?El; try done; [apply NoDup_singleton|..]; intros k ->%list_elem_of_singleton; done.
Qed.

(** The rest of [iderw] once the request is in the queue. *)
Lemma submit_rest i a s : queue_ok (astep (Submit i) a).2 s → allowed (Submit i) a → idelock s = true →
  executing (drive s) = (λ i, cmd_of (abuf a i)) <$> head (pend a) →
  returns (q ← gets idequeue; _ ← when (bool_decide (q = Some i)) (idestart (Some i)); wait_done i) s
    (λ r s', r = false ∧ ide_ok (astep (Submit i) a).2 s').
Proof.
  intros Hq (_ & Hni & _ & [Hnd Hbk] & _) Hl Hx. pose proof (qo_bufs _ _ Hq i) as Hb. cbn in Hb.
  destruct (same_buf_fields _ _ Hb) as (_ & _ & E3 & _ & _). destruct (same_buf_views _ _ Hb) as (Ecmd & Edone & _).
  pose proof (qo_chain _ _ Hq) as Hch. cbn in Hch.
  apply returns_bind, returns_gets. apply returns_bind.
  eapply returns_mono with (P := λ _ s', ∃ d, s' = s <| drive := d |> ∧ contents d = contents (drive s) ∧
    executing d = (λ i, cmd_of (abuf a i)) <$> head (pend a ++ [i])).
  { destruct (pend a) as [|h l].
    - destruct Hch as [-> _]. rewrite bool_decide_eq_true_2 by done. cbn [when].
      eapply returns_mono; [apply idestart_ok; [done|by rewrite E3]|]. intros [] s' (d & -> & Hx' & Hc').
      exists d. split_and!; [done..|]. by rewrite Hx', Ecmd.
    - destruct Hch as [-> _]. rewrite bool_decide_eq_false_2 by set_solver. cbn [when]. apply returns_ret.
      exists (drive s). split_and!; [by destruct s|done|done]. }
  intros [] s' (d & -> & Hc & Hx'). unfold wait_done. apply returns_bind, returns_gets. cbn [bufs set].
  change (returns (if negb (is_done (bufs s i)) then _ ← release_ide; mret false else _ ← release_ide; mret true)
    (s <| drive := d |>) (λ r s', r = false ∧ ide_ok (astep (Submit i) a).2 s')).
  rewrite Edone, Hnd. cbn [negb]. apply returns_bind. eapply returns_mono; [by apply locked_release|]. intros [] s' ->.
  apply returns_ret. split; [done|]. constructor; [|done|done]. destruct Hq. constructor; try done.
  intros v l. change (contents d v l = asect (astep (Submit i) a).2 v l). by rewrite Hc.
Qed.

Lemma submit_ok i a s : ide_ok a s → allowed (Submit i) a →
  returns (run_event (Submit i)) s (λ r s', r = (astep (Submit i) a).1 ∧ ide_ok (astep (Submit i) a).2 s').
Proof.
  intros [Hq Hx Hl] Hal. pose proof Hal as (Hi & Hni & Hh & [Hnd Hbk] & Hdev).
  pose proof (qo_bufs _ _ Hq i) as Hb. destruct (same_buf_fields _ _ Hb) as (E1 & E2 & E3 & E4 & E5).
  destruct (same_buf_views _ _ Hb) as (Ecmd & Edone & _). cbn [run_event]. unfold iderw.
  apply returns_bind, returns_bind, returns_gets. rewrite E4, Hh. cbn [negb]. fold (is_done (bufs s i)). rewrite Edone, Hnd.
  apply returns_bind, returns_gets. rewrite E2, (qo_disk1 _ _ Hq).
  assert (Ed : negb (dev (abuf a i) =? 0) && negb (adisk1 a) = false) by (destruct Hdev as [-> | ->]; [done|by rewrite andb_false_r]).
  rewrite Ed. apply returns_bind. eapply returns_mono; [by apply acquire_free|]. intros [] s1 ->.
  apply returns_bind. unfold setb at 1. apply returns_modify. set (s2 := set bufs _ _).
  assert (Hq2 : queue_ok a s2).
  { destruct Hq. constructor; try done.
    - eapply qchain_ext; [|done]. intros j Hj. cbn. rewrite upd_ne; [done|]. set_solver.
    - intros j. cbn. unfold upd. case_decide; [subst|done]. eapply same_buf_trans; [|done]. by destruct (bufs s i). }
  assert (Hn2 : qnext (bufs s2 i) = None) by (cbn; by rewrite upd_eq).
  assert (Hx2 : executing (drive s2) = (λ i, cmd_of (abuf a i)) <$> head (pend a)) by exact Hx.
  assert (Hl2 : idelock s2 = true) by done. clearbody s2. clear dependent s.
  apply returns_bind. eapply returns_mono; [apply (last_link_ok (bufs s2) (idequeue s2) (pend a)); [|done|done|apply Hq2]|].
  { pose proof (bounded_length _ _ (qo_nodup _ _ Hq2) (qo_nbuf _ _ Hq2)). lia. }
  intros pp ? [-> ->]. pose proof (appended_ok a s2 i Hq2 Hal Hn2) as Hq3. apply returns_bind.
  eapply returns_mono with (P := λ _ s3, queue_ok (astep (Submit i) a).2 s3 ∧ idelock s3 = true ∧ drive s3 = drive s2).
  { by destruct (last (pend a)) as [j|]; unfold setb; apply returns_modify; (split_and!; [done..|]). }
  clear Hq3. intros [] s3 (Hq3 & Hl3 & Hd3). eapply returns_mono; [apply (submit_rest i a); by rewrite ?Hd3|].
  intros r s' [-> Hs']. by apply returns_ret.
Qed.

Lemma event_ok e a s : ide_ok a s → allowed e a →
  returns (run_event e) s (λ r s', r = (astep e a).1 ∧ ide_ok (astep e a).2 s').
Proof.
  destruct e as [i|err| |i|i fl dv bn h d]; [apply submit_ok|apply done_ok|..]; intros [Hq Hx Hl] Hal; cbn [run_event].
  - cbn in Hal. unfold ideintr. apply returns_bind, returns_bind. eapply returns_mono; [by apply acquire_free|].
    intros [] s1 ->. apply returns_bind, returns_gets. pose proof (qo_chain _ _ Hq) as Hch. rewrite Hal in Hch. cbn in Hch.
    cbn [idequeue set]. rewrite Hch. eapply returns_mono; [by apply locked_release|]. intros [] s' ->. apply returns_ret.
    split; [done|]. constructor; [by destruct Hq|done|done].
  - unfold iderw_woken. apply returns_bind, returns_bind. eapply returns_mono; [by apply acquire_free|]. intros [] s1 ->.
    unfold wait_done. apply returns_bind, returns_gets. destruct (same_buf_views _ _ (qo_bufs _ _ Hq i)) as (_ & Ed & _).
    change (returns (if negb (is_done (bufs s i)) then _ ← release_ide; mret false else _ ← release_ide; mret true)
      (s <| idelock := true |>) (λ r s', returns (mret (Some r)) s' (λ r s', r = Some (is_done (abuf a i)) ∧ ide_ok a s'))).
    rewrite Ed. destruct (is_done (abuf a i)); cbn [negb]; apply returns_bind;
      (eapply returns_mono; [by apply locked_release|]); intros [] s' ->; do 2 apply returns_ret;
      (split; [done|]); constructor; [by destruct Hq|done|done|by destruct Hq|done|done].
  - cbn in Hal. unfold setb. apply returns_bind, returns_modify, returns_ret. split; [done|]. destruct Hq.
    assert (Hne : ∀ j, j ∈ pend a → j ≠ i) by set_solver. constructor; cbn; [|rewrite Hx|done].
    + constructor; cbn; try done.
      * eapply qchain_ext; [|done]. intros j Hj. by rewrite upd_ne by auto.
      * apply same_buf_upd; [done|]. done.
      * intros j Hj. rewrite upd_ne by auto. auto.
    + destruct (pend a) as [|j l]; [done|]. cbn. f_equal. rewrite upd_ne; [done|]. apply Hne. left.
Qed.

Fixpoint submitted (es : list event) : list nat :=
  match es with [] => [] | Submit i :: es => i :: submitted es | _ :: es => submitted es end.

Lemma astep_fifo e a : served (astep e a).2 ++ pend (astep e a).2 = served a ++ pend a ++ submitted [e].
Proof.
  destruct e as [i|err| |i|i fl dv bn h d]; cbn; rewrite ?app_nil_r; try done.
  destruct (pend a) as [|j l] eqn:Ep; [cbn; by rewrite ?Ep|]. destruct (transfer err (abuf a j) (asect a)). cbn. by rewrite <- app_assoc.
Qed.

Lemma asteps_fifo es a : served (asteps es a).2 ++ pend (asteps es a).2 = served a ++ pend a ++ submitted es.
Proof.
  revert a. induction es as [|e es IH]; intros a; [cbn; by rewrite app_nil_r|]. cbn [asteps].
  pose proof (astep_fifo e a) as He. destruct (astep e a) as [r a1]. specialize (IH a1). destruct (asteps es a1) as [rs a2]. cbn [snd] in *.
  rewrite IH, app_assoc, He. cbn. destruct e; cbn; by rewrite <- ?app_assoc.
Qed.

Lemma run_events_ok es a s : ide_ok a s → all_allowed es a →
  returns (run_events es) s (λ rs s', rs = (asteps es a).1 ∧ ide_ok (asteps es a).2 s').
Proof.
  revert a s. induction es as [|e es IH]; intros a s Hok Hal; cbn [run_events asteps]; [by apply returns_ret|].
  destruct Hal as [He Hal]. apply returns_bind. eapply returns_mono; [by apply event_ok|]. intros r s1 [-> H1].
  apply returns_bind. destruct (astep e a) as [r a1]. cbn [fst snd] in *. eapply returns_mono; [by apply IH|].
  intros rs s2 [-> H2]. apply returns_ret. by destruct (asteps es a1).
Qed.

(** C10: Through every interleaving of requests, disk interrupts and changes to the buffers
    that are not queued, the driver serves the requests in the order they were made,
    one at a time, each with the effect of reading or writing its block at once; no
    call panics or gets stuck, and the drive never gets a command while it executes one. *)
Theorem ide_refines es a s : ide_ok a s → all_allowed es a →
  returns (run_events es) s (λ rs s', rs = (asteps es a).1 ∧ ide_ok (asteps es a).2 s' ∧
    woken s' ++ pend (asteps es a).2 = woken s ++ pend a ++ submitted es).
Proof.
  intros Hok Hal. eapply returns_mono; [by apply run_events_ok|]. intros rs s' [-> Hs']. split_and!; [done..|].
  rewrite (qo_woken _ _ (io_queue _ _ Hs')), (qo_woken _ _ (io_queue _ _ Hok)). apply asteps_fifo.
Qed.

(** A read that the drive reports as failed still marks its buffer as valid, with the
    data that was there before. *)
Theorem read_error_marks_valid a s i l : ide_ok a s → pend a = i :: l → dirty (abuf a i) = false →
  returns (run_event (Done true)) s (λ _ s', is_done (bufs s' i) = true ∧ data (bufs s' i) = data (bufs s i)).
Proof.
  intros Hok Ep Hd. eapply returns_mono; [apply (event_ok _ a); [done|exists i; by rewrite Ep]|].
  intros r s' [_ Hs']. pose proof (qo_bufs _ _ (io_queue _ _ Hs') i) as Hb. cbn [astep] in Hb. rewrite Ep in Hb.
  unfold transfer in Hb. rewrite Hd in Hb. cbn in Hb. rewrite upd_eq in Hb.
  destruct (same_buf_views _ _ Hb) as (_ & Edone & _). destruct (same_buf_fields _ _ Hb) as (_ & _ & _ & _ & Edata).
  rewrite Edone, Edata. split; [apply done_flags|]. cbn. symmetry.
  apply (same_buf_fields _ _ (qo_bufs _ _ (io_queue _ _ Hok) i)).
Qed.
End Refinement.

(** ** A drive *)

(** A simple drive that obeys the protocol. *)
Record simd := mksimd {
  sregs : Z → Z;
  ssect : Z → Z → blk;
  sexec : option ata_cmd;
  sfifo : blk;
  serr : bool
}.
#[export] Instance simd_eta : Eta simd := λ d, mksimd (sregs d) (ssect d) (sexec d) (sfifo d) (serr d).

Definition sim_outb (port v : Z) (d : simd) : simd :=
  if port =? 503 then
    let dr := drive_of (sregs d 502) in
    let l := lba28 (sregs d 499) (sregs d 500) (sregs d 501) (sregs d 502) in
    d <| sexec := Some (if v =? 32 then ReadSector dr l else WriteSector dr l []) |>
  else d <| sregs := upd (sregs d) port v |>.

Definition sim_outsl (x : blk) (d : simd) : simd :=
  match sexec d with Some (WriteSector dr l _) => d <| sexec := Some (WriteSector dr l x) |> | _ => d end.

Definition sim_finish (err : bool) (d : simd) : simd :=
  let d' := d <| sexec := None |> <| serr := err |> in
  match sexec d with
  | Some (ReadSector dr l) => if err then d' else (d' <| sfifo := ssect d dr l |>)
  | Some (WriteSector dr l x) => if err then d' else (d' <| ssect := upd (ssect d) dr (upd (ssect d dr) l x) |>)
  | None => d'
  end.

Definition sim_status (d : simd) : Z := match sexec d with None => if serr d then 65 else 64 | Some _ => 128 end.

#[export] Instance sim_ata : Ata simd.
Proof.
  refine (Build_Ata _ sim_outb sim_outsl (λ d, (sfifo d, d)) sim_status sim_finish ssect sexec _ _ _ _ _ _ _).
  - intros d Hd. unfold sim_status. rewrite Hd. by destruct (serr d).
  - intros d r3 r4 r5 r6 Hd. cbn. by rewrite !upd_eq, !upd_ne, !upd_eq by done.
  - intros d r3 r4 r5 r6 x Hd. cbn. by rewrite !upd_eq, !upd_ne, !upd_eq by done.
  - intros err d. unfold sim_finish. by destruct (sexec d) as [[]|], err.
  - intros err d dr l Hd. unfold sim_finish, sim_status. rewrite Hd. by destruct err.
  - intros d dr l x Hd. unfold sim_finish. by rewrite Hd.
  - done.
Defined.

(** A process writes block 5 while another waits to read it. *)
Definition demo_bufs (i : nat) : ibuf :=
  if decide (i = 0%nat) then mkibuf 4 1 5 true None [7] else mkibuf 0 1 5 true None [0].

Definition demo_ide : ide simd := mkide None demo_bufs true false (mksimd (λ _, 0) (λ _ _, [1]) None [] false) [].
Definition demo_adisk : adisk := mkad [] demo_bufs (λ _ _, [1]) true [].

Lemma demo_ide_ok : ide_ok demo_adisk demo_ide.
Proof. constructor; [|done|done]. constructor; try done; [apply NoDup_nil_2|..]; intros i Hi; by apply not_elem_of_nil in Hi. Qed.

Lemma ide_refines_witness :
  returns (run_events [Submit 0; Submit 1; Done false; Woken 0; Woken 1; Done false; Woken 1]) demo_ide (λ rs s',
    rs = [Some false; Some false; None; Some true; Some false; None; Some true] ∧ woken s' = [0; 1]%nat ∧
    data (bufs s' 1) = [7]).
Proof.
  eapply returns_mono; [apply (ide_refines _ demo_adisk)|].
  - apply demo_ide_ok.
  - unfold all_allowed, allowed, request_ok, FSSIZE, NBUF. cbn.
    repeat split; try lia; try reflexivity; try (by right); try (by apply (bool_decide_eq_true_1 _)); by eexists.
  - intros rs s' (-> & Hs' & Hw). split; [reflexivity|]. split; [exact (qo_woken _ _ (io_queue _ _ Hs'))|].
    destruct (same_buf_fields _ _ (qo_bufs _ _ (io_queue _ _ Hs') 1%nat)) as (_ & _ & _ & _ & E). exact E.
Defined.

(** The read after the write, in a state where the drive executes it. *)
Definition demo_reading : ide simd :=
  mkide (Some 1%nat) demo_bufs true false (mksimd (λ _, 0) (λ _ _, [1]) (Some (ReadSector 1 5)) [] false) [].

Lemma demo_reading_ok : ide_ok (demo_adisk <| pend := [1%nat] |>) demo_reading.
Proof.
  constructor; [|done|done]. constructor; try done; [apply NoDup_singleton|..]; intros i ->%list_elem_of_singleton.
  - unfold NBUF. lia.
  - split; [done|]. split; [done|]. by vm_compute.
Qed.

Lemma read_error_marks_valid_witness :
  returns (run_event (Done true)) demo_reading (λ _ s', is_done (bufs s' 1) = true ∧ data (bufs s' 1) = [0]).
Proof. exact (read_error_marks_valid _ demo_reading 1%nat [] demo_reading_ok eq_refl eq_refl). Defined.
