(* ===== verification/Trap.v ===== *)
(** Traps (trap.c): system calls, interrupts and faults on a machine that has the
    kernel, the console with its keyboard and serial line, and the disk.

    The drivers record the calls of [wakeup] and [procdump] they make; here these
    calls reach the process table. *)

From S2P Require Import Prelude Keeps Layout ProcTable Sched Spinlock Kalloc Bytes Fs PageAlloc Vm VmUser VmCopy Kernel File Proc Syscall Sysfile Exec KernelInv Ulib Printf Console Cprintf Kbd Ide ProcLife.

Definition T_SYSCALL : Z := 64.
Definition T_IRQ0 : Z := 32.
Definition IRQ_TIMER : Z := 0.
Definition IRQ_KBD : Z := 1.
Definition IRQ_COM1 : Z := 4.
Definition IRQ_IDE : Z := 14.
Definition IRQ_SPURIOUS : Z := 31.
Definition DPL_USER : Z := 3.

(** [m_eoi] is the number of interrupts acknowledged to the local APIC. *)
Record machine (S D : Type) := mkmachine {
  m_k : kernel S; m_board : board; m_ide : ide D; m_eoi : nat
}.
Arguments mkmachine {S D}.
Arguments m_k {S D}.
Arguments m_board {S D}.
Arguments m_ide {S D}.
Arguments m_eoi {S D}.
#[export] Instance machine_eta {S D} : Eta (machine S D) := λ m, mkmachine (m_k m) (m_board m) (m_ide m) (m_eoi m).

Section Trap.
Context {S : Type} `{PA : PageAlloc S} {D : Type} `{Ata D}.
#[local] Abbreviation K := (kernel S).
#[local] Abbreviation Ma := (machine S D).
Variable dev_read : Z → option (nat → Z → M fsys (Z * list Z)).
Variable dev_write : Z → option (nat → list Z → M fsys Z).
Variable data trapret forkret_addr : Z.

(** This processor's number, the addresses of the buffers and of [input.r], the words of
    memory, and the [ebp] saved in the context of a process that does not run. *)
Variable cpuid : Z.
Variable buf_addr : nat → Z.
Variable input_r : Z.
Variable word : Z → Z.
Variable context_ebp : proc → Z.

Definition on_k {A} : M K A → M Ma A := zoom m_k (λ k m, m <| m_k := k |>).
Definition on_board {A} : M board A → M Ma A := zoom m_board (λ b m, m <| m_board := b |>).
Definition on_ide {A} : M (ide D) A → M Ma A := zoom m_ide (λ d m, m <| m_ide := d |>).
Definition printk (fmt : list Z) (args : list arg) : M Ma unit := on_board (on_con (cprintf fmt args)).

Definition lapiceoi : M Ma unit := modify (λ m, m <| m_eoi := Datatypes.S (m_eoi m) |>).

(** ** procdump *)

Definition state_name (s : procstate) : string :=
  match s with
  | UNUSED => "unused" | EMBRYO => "embryo" | SLEEPING => "sleep "
  | RUNNABLE => "runble" | RUNNING => "run   " | ZOMBIE => "zombie"
  end.

(** The loop over the array [pc], which ends at a zero. *)
Fixpoint dump_pcs (pcs : list Z) : M Ma unit :=
  match pcs with
  | [] => skip
  | pc :: pcs => if pc =? 0 then skip else _ ← printk (chars " %p") [Num pc]; dump_pcs pcs
  end.

Fixpoint dump_procs (l : list proc) : M Ma unit :=
  match l with
  | [] => skip
  | p :: l =>
      if bool_decide (state p = UNUSED) then dump_procs l else
      _ ← printk (chars "%d %s %s") [Num (pid p); Str (Some (chars (state_name (state p)))); Str (Some (chars (name p)))];
      _ ← when (bool_decide (state p = SLEEPING)) (dump_pcs (getcallerpcs word (u32 (context_ebp p + 8))));
      _ ← printk [10] [];
      dump_procs l
  end.

Definition procdump : M Ma unit := l ← gets (λ m, procs (k_pt (m_k m))); dump_procs l.

(** ** Interrupts *)

Fixpoint wake_all (cs : list chan) : M Ma unit :=
  match cs with [] => skip | c :: cs => _ ← on_k (wakeup c); wake_all cs end.

Fixpoint repeat_ (n : nat) (m : M Ma unit) : M Ma unit :=
  match n with O => skip | Datatypes.S n => _ ← m; repeat_ n m end.

(** [ideintr], with its calls of [wakeup(b)]. *)
Definition disk_intr : M Ma unit :=
  n ← gets (λ m, length (woken (m_ide m)));
  _ ← on_ide ideintr;
  bs ← gets (λ m, drop n (woken (m_ide m)));
  wake_all ((λ b, Caddr (buf_addr b)) <$> bs).

(** [kbdintr] or [uartintr], with its calls of [wakeup(&input.r)] and [procdump()]. *)
Definition console_intr (intr : M board unit) : M Ma unit :=
  c0 ← gets (λ m, con (m_board m));
  _ ← on_board intr;
  c1 ← gets (λ m, con (m_board m));
  _ ← repeat_ (wakeups c1 - wakeups c0) (on_k (wakeup (Caddr input_r)));
  repeat_ (dumps c1 - dumps c0) procdump.

Definition from_user (frame : trapframe) : bool := Z.land (cs frame) 3 =? DPL_USER.

(** [default:]; [cr2] is the faulting address. *)
Definition trap_fault (frame : trapframe) (cr2 : Z) : M Ma unit :=
  q ← on_k (on_pt myproc);
  if match q with None => true | Some _ => Z.land (cs frame) 3 =? 0 end then
    _ ← printk (chars "unexpected trap %d from cpu %d eip %x (cr2=0x%x)" ++ [10])
          [Num (trapno frame); Num cpuid; Num (eip frame); Num cr2];
    panic "trap"
  else
    c ← on_k curproc; p ← on_k (procn c);
    _ ← printk (chars "pid %d %s: trap %d err %d on cpu %d eip 0x%x addr 0x%x--kill proc" ++ [10])
          [Num (pid p); Str (Some (chars (name p))); Num (trapno frame); Num (err frame); Num cpuid; Num (eip frame); Num cr2];
    c ← on_k curproc;
    on_k (setproc c (λ q, q <| killed := 1 |>)).

(** The switch on [tf->trapno]. *)
Definition trap_body (frame : trapframe) (cr2 : Z) : M Ma unit :=
  let n := trapno frame in
  if n =? T_IRQ0 + IRQ_TIMER then _ ← when (cpuid =? 0) (on_k trap_tick); lapiceoi
  else if n =? T_IRQ0 + IRQ_IDE then _ ← disk_intr; lapiceoi
  else if n =? T_IRQ0 + IRQ_IDE + 1 then skip
  else if n =? T_IRQ0 + IRQ_KBD then _ ← console_intr kbdintr; lapiceoi
  else if n =? T_IRQ0 + IRQ_COM1 then _ ← console_intr uartintr; lapiceoi
  else if (n =? T_IRQ0 + 7) || (n =? T_IRQ0 + IRQ_SPURIOUS) then
    _ ← printk (chars "cpu%d: spurious interrupt at %x:%x" ++ [10]) [Num cpuid; Num (cs frame); Num (eip frame)];
    lapiceoi
  else trap_fault frame cr2.

Definition trap (frame : trapframe) (cr2 : Z) : M Ma unit :=
  if trapno frame =? T_SYSCALL then on_k (trap_syscall dev_read dev_write data trapret forkret_addr frame) else
  _ ← trap_body frame cr2;
  on_k (trap_end (from_user frame) (trapno frame =? T_IRQ0 + IRQ_TIMER)).

(** ** Leaving the kernel *)

(** An operation that does not return. *)
Definition never {T A} (m : M T A) (t : T) : Prop := match m t with Ok _ _ => False | _ => True end.

Lemma never_bind {T A B} (m : M T A) (f : A → M T B) t : (∀ a t', m t = Ok a t' → never (f a) t') → never (m ≫= f) t.
Proof. intros Hf. unfold never, mbind, M_bind. destruct (m t) eqn:E; try done. by apply Hf. Qed.

Lemma never_zoom {T U A} (get : U → T) (put : T → U → U) (m : M T A) u : never m (get u) → never (zoom get put m) u.
Proof. unfold never, zoom. by destruct (m (get u)). Qed.

Lemma exit_never (k : K) : never exit k.
Proof.
  unfold exit. apply never_bind. intros c k1 _. apply never_bind. intros i k2 _. case_bool_decide; [done|].
  repeat (apply never_bind; intros). done.
Qed.

(** The current process of [k], if there is one, has not been killed. *)
Definition not_killed (k : K) : Prop :=
  ∀ c p, cpu_proc (k_pt k) = Some c → procs (k_pt k) !! c = Some p → killed p = 0.

Lemma zoom_ok {T U A} (get : U → T) (put : T → U → U) (m : M T A) u a u' :
  zoom get put m u = Ok a u' → ∃ t, m (get u) = Ok a t ∧ u' = put t u.
Proof. unfold zoom. destruct (m (get u)); try done. intros [= <- <-]. by eexists. Qed.

Lemma k_same (k : K) : k <| k_pt := k_pt k |> = k.
Proof. by destruct k. Qed.

Lemma procn_inv (k k' : K) c p : procn c k = Ok p k' → k' = k ∧ procs (k_pt k) !! c = Some p.
Proof.
  unfold procn, on_pt. intros (t & E & ->)%zoom_ok. unfold getp in E. destruct (procs (k_pt k) !! c); [|done].
  injection E as <- <-. by rewrite k_same.
Qed.

Lemma curproc_inv (k k' : K) c : curproc k = Ok c k' → k' = k ∧ cpu_proc (k_pt k) = Some c.
Proof.
  unfold curproc, on_pt. intros (t & E & ->)%zoom_ok. unfold cur, myproc, gets, mbind, M_bind in E.
  destruct (cpu_proc (k_pt k)) as [c'|]; cbn in E; [|done]. injection E as <- <-. by rewrite k_same.
Qed.

(** Where a killed process would have exited, it has not been killed. *)
Lemma exit_unless (k k' : K) c p b : when (negb (killed p =? 0) && b) exit k = Ok tt k' → b = true →
  procs (k_pt k) !! c = Some p → k' = k ∧ killed p = 0.
Proof.
  intros E -> Hp. destruct (Z.eqb_spec (killed p) 0) as [Hz|Hz]; cbn in E; [by injection E as <-|].
  pose proof (exit_never k) as He. unfold never in He. by rewrite E in He.
Qed.

Lemma killed_exit_ok (k k' : K) user : killed_exit user k = Ok tt k' → user = true → k' = k ∧ not_killed k.
Proof.
  unfold killed_exit. intros (q & k1 & Eq & E)%bind_ok Hu. unfold on_pt in Eq. apply zoom_ok in Eq as (t & Et & ->).
  unfold myproc, gets in Et. injection Et as <- <-. rewrite k_same in E. destruct (cpu_proc (k_pt k)) as [c|] eqn:Hc.
  - apply bind_ok in E as (p & k2 & Ep & E). apply procn_inv in Ep as [-> Hp].
    destruct (exit_unless _ _ c _ _ E Hu Hp) as [-> Hz]. split; [done|]. intros c' p' Hc' Hp'. congruence.
  - injection E as <-. split; [done|]. intros c p Hc'. congruence.
Qed.

(** The traps that are not faults. *)
Definition handled (n : Z) : bool :=
  bool_decide (n ∈ [T_SYSCALL; T_IRQ0 + IRQ_TIMER; T_IRQ0 + IRQ_IDE; T_IRQ0 + IRQ_IDE + 1; T_IRQ0 + IRQ_KBD;
                    T_IRQ0 + IRQ_COM1; T_IRQ0 + 7; T_IRQ0 + IRQ_SPURIOUS]).

Lemma fault_marks frame cr2 (m m' : Ma) : trap_fault frame cr2 m = Ok tt m' →
  ∃ c p, cpu_proc (k_pt (m_k m')) = Some c ∧ procs (k_pt (m_k m')) !! c = Some p ∧ killed p = 1.
Proof.
  unfold trap_fault. intros (q & m1 & _ & E)%bind_ok. case_match; [by apply bind_ok in E as (? & ? & _ & E)|].
  apply bind_ok in E as (c & m2 & Ec & E). apply bind_ok in E as (p & m3 & Ep & E). apply bind_ok in E as ([] & m4 & Em & E).
  apply bind_ok in E as (c' & m5 & Ec' & E). unfold on_k in Ec, Ep, Ec', E. unfold printk, on_board in Em.
  apply zoom_ok in Ec as (k2 & Ec & ->), Ep as (k3 & Ep & ->), Em as (b & _ & ->), Ec' as (k5 & Ec' & ->), E as (k6 & E & ->).
  apply curproc_inv in Ec as [-> Hc]. apply procn_inv in Ep as [-> Hp]. apply curproc_inv in Ec' as [-> Hc'].
  unfold setproc, on_pt in E. apply zoom_ok in E as (t & E & ->). unfold updp, modify in E. injection E as <-.
  cbn [m_k k_pt set] in *. simplify_eq. exists c. eexists. split; [exact Hc|]. split; [by rewrite setp_lookup_eq, Hp|done].
Qed.

Lemma body_fault frame cr2 (m m' : Ma) : handled (trapno frame) = false → trap_body frame cr2 m = Ok tt m' →
  ∃ c p, cpu_proc (k_pt (m_k m')) = Some c ∧ procs (k_pt (m_k m')) !! c = Some p ∧ killed p = 1.
Proof.
  unfold handled. rewrite bool_decide_eq_false, !not_elem_of_cons. intros Hn. unfold trap_body.
  rewrite !(proj2 (Z.eqb_neq _ _)) by tauto. apply fault_marks.
Qed.

Lemma syscall_end_ok (k k' : K) : trap_syscall_end k = Ok tt k' → k' = k ∧ not_killed k.
Proof.
  unfold trap_syscall_end. intros (c & k1 & Ec & E)%bind_ok. apply bind_ok in E as (p & k2 & Ep & E).
  apply curproc_inv in Ec as [-> Hc]. apply procn_inv in Ep as [-> Hp]. rewrite <- (andb_true_r (negb _)) in E.
  destruct (exit_unless _ _ _ _ _ E eq_refl Hp) as [-> Hz]. split; [done|]. intros c' p' Hc' Hp'. congruence.
Qed.

(** C16: A killed process does not get back to user space, and neither does one that
    faulted: when [trap] returns to user mode without having given up the processor, it
    was for a system call or an interrupt, and the current process has not been killed.
    Where the process gave up the processor, in [yield] at the end of a trap or inside a
    system call, the rest of [trap] that it runs when it is resumed returns to user mode
    only if it has not been killed in the meantime. *)
Theorem killed_not_resumed frame cr2 :
  (∀ m m' : Ma, trap frame cr2 m = Ok tt m' → trapno frame = T_SYSCALL ∨ from_user frame = true →
     handled (trapno frame) = true ∧ not_killed (m_k m')) ∧
  (∀ k k' : K, trap_resumed (from_user frame) k = Ok tt k' → from_user frame = true → not_killed k') ∧
  (∀ (k k' : K) c r, trap_syscall_resumed c r k = Ok tt k' → not_killed k').
Proof.
  split_and!.
  - intros m m' E Hu. unfold trap in E. destruct (Z.eqb_spec (trapno frame) T_SYSCALL) as [Hs|Hs].
    + split; [by rewrite Hs|]. unfold on_k in E. apply zoom_ok in E as (k' & E & ->). change (not_killed k'). unfold trap_syscall in E.
      apply bind_ok in E as (c1 & k1 & _ & E). apply bind_ok in E as (p1 & k2 & _ & E). apply bind_ok in E as ([] & k3 & _ & E).
      apply bind_ok in E as (c2 & k4 & _ & E). apply bind_ok in E as ([] & k5 & _ & E). apply bind_ok in E as ([] & k6 & _ & E).
      by apply syscall_end_ok in E as [-> ?].
    + destruct Hu as [?|Hu]; [done|]. apply bind_ok in E as ([] & m1 & Eb & E). unfold on_k in E. apply zoom_ok in E as (k' & E & ->).
      change (handled (trapno frame) = true ∧ not_killed k'). unfold trap_end in E. apply bind_ok in E as ([] & k1 & E1 & E).
      apply bind_ok in E as (q & k2 & _ & E). apply bind_ok in E as ([] & k3 & _ & E).
      destruct (killed_exit_ok _ _ _ E1 Hu) as [-> Hnk]. destruct (killed_exit_ok _ _ _ E Hu) as [-> Hnk'].
      split; [|done]. destruct (handled (trapno frame)) eqn:Eh; [done|].
      destruct (body_fault _ _ _ _ Eh Eb) as (c & p & Hc & Hp & Hk). specialize (Hnk c p Hc Hp). lia.
  - intros k k' E Hu. unfold trap_resumed in E. apply bind_ok in E as (z & k1 & _ & E).
    by destruct (killed_exit_ok _ _ _ E Hu) as [-> Hnk].
  - intros k k' c r E. unfold trap_syscall_resumed in E. apply bind_ok in E as ([] & k1 & _ & E).
    by apply syscall_end_ok in E as [-> ?].
Qed.

(** ** Waking up *)

Lemma wakeup_ok c (k : K) (Q : unit → K → Prop) : ptable_lock (k_pt k) = false → Cli.cli_wf (k_cpu k) →
  (∀ cpu, same_cpu (k_cpu k) cpu →
     Q tt (k <| k_pt := (k_pt k) <| procs := each (λ _, wake c) (procs (k_pt k)) |> |> <| k_cpu := cpu |>)) →
  returns (wakeup c) k Q.
Proof.
  intros Hl Hc HQ. unfold wakeup. apply returns_bind, acquire_pt_ok; [done..|]. intros c1 H1. unfold wakeup1.
  apply returns_bind. unfold on_pt. apply returns_zoom, returns_modify. eapply (release_pt_ok (k_cpu k)); [done|exact H1|].
  intros c2 H2. specialize (HQ c2 H2). destruct (k_pt k) as [ps pl] eqn:Et. cbn in Hl. subst pl. exact HQ.
Qed.

(** No process sleeps on [c]. *)
Definition awake (c : chan) (k : K) : Prop := ∀ p, p ∈ procs (k_pt k) → state p = SLEEPING → chan_ p ≠ c.

Lemma each_awake c l p : p ∈ each (λ _, wake c) l → state p = SLEEPING → chan_ p ≠ c.
Proof.
  intros (i & Hi)%list_elem_of_lookup. rewrite each_lookup in Hi. destruct (l !! i) as [q|]; [|done]. cbn in Hi. injection Hi as <-.
  unfold wake. repeat case_bool_decide; cbn; done.
Qed.

(** The kernel with only its process table changed, by waking. *)
Record woke (k k' : K) : Prop := {
  wk_rest : k_mem k' = k_mem k ∧ k_fs k' = k_fs k ∧ k_ftable k' = k_ftable k ∧ ptable_lock (k_pt k') = ptable_lock (k_pt k) ∧
            cpu_proc (k_pt k') = cpu_proc (k_pt k);
  wk_cpu : same_cpu (k_cpu k) (k_cpu k');
  wk_awake : ∀ c, awake c k → awake c k';
  wk_table : ∀ i p, procs (k_pt k) !! i = Some p → ∃ p', procs (k_pt k') !! i = Some p' ∧
    (p' = p ∨ state p = SLEEPING ∧ p' = p <| state := RUNNABLE |>)
}.

Lemma wakeup_woke c (k : K) : ptable_lock (k_pt k) = false → Cli.cli_wf (k_cpu k) →
  returns (wakeup c) k (λ _ k', woke k k' ∧ awake c k').
Proof.
  intros Hl Hc. apply wakeup_ok; [done..|]. intros cpu Hcpu. split; [|intros p; apply each_awake]. split; [done|done| |].
  - intros c' Ha p (i & Hi)%list_elem_of_lookup. cbn [k_pt procs set] in Hi. rewrite each_lookup in Hi.
    destruct (procs (k_pt k) !! i) as [q|] eqn:Eq; [|done]. cbn in Hi. injection Hi as <-.
    unfold wake. repeat case_bool_decide; cbn; try done; intros Hs; apply Ha; try done; by eapply list_elem_of_lookup_2.
  - intros i p Hp. cbn [k_pt procs set]. rewrite each_lookup, Hp. cbn. eexists. split; [done|]. unfold wake.
    repeat case_bool_decide; cbn; [by right|by left..].
Qed.

Lemma woke_refl (k : K) : Cli.cli_wf (k_cpu k) → woke k k.
Proof. intros Hc. split; [done|by apply same_cpu_refl|done|]. intros i p Hp. exists p. split; [done|by left]. Qed.

Lemma woke_trans (k1 k2 k3 : K) : woke k1 k2 → woke k2 k3 → woke k1 k3.
Proof.
  intros [(A1 & A2 & A3 & A4 & A5) C1 W1 T1] [(B1 & B2 & B3 & B4 & B5) C2 W2 T2]. split.
  - split_and!; congruence.
  - by eapply same_cpu_trans.
  - auto.
  - intros i p Hp. destruct (T1 i p Hp) as (p2 & Hp2 & H2). destruct (T2 i p2 Hp2) as (p3 & Hp3 & H3). exists p3. split; [done|].
    destruct H2 as [->|[Hs ->]]; [done|]. right. split; [done|]. by destruct H3 as [->|[Hs3 ->]].
Qed.

Lemma repeat_wakeup n c (m : Ma) : ptable_lock (k_pt (m_k m)) = false → Cli.cli_wf (k_cpu (m_k m)) →
  returns (repeat_ n (on_k (wakeup c))) m (λ _ m', (∃ k', m' = m <| m_k := k' |>) ∧ woke (m_k m) (m_k m') ∧ ((0 < n)%nat → awake c (m_k m'))).
Proof.
  revert m. induction n as [|n IH]; intros m Hl Hc; cbn [repeat_].
  - apply returns_ret. split; [exists (m_k m); by destruct m|]. split; [by apply woke_refl|lia].
  - apply returns_bind. unfold on_k. apply returns_zoom. eapply returns_mono; [by apply wakeup_woke|]. intros [] k1 [H1 Ha].
    eapply returns_mono; [apply IH|].
    + cbn [m_k set]. destruct (wk_rest _ _ H1) as (_ & _ & _ & -> & _). done.
    + cbn [m_k set]. apply (wk_cpu _ _ H1).
    + intros [] m' ((k' & ->) & H2 & _). cbn [m_k set] in *. split; [by exists k'|]. split; [by eapply woke_trans|].
      intros _. by apply (wk_awake _ _ H2).
Qed.

Lemma wake_all_ok cs (m : Ma) : ptable_lock (k_pt (m_k m)) = false → Cli.cli_wf (k_cpu (m_k m)) →
  returns (wake_all cs) m (λ _ m', (∃ k', m' = m <| m_k := k' |>) ∧ woke (m_k m) (m_k m') ∧ ∀ c, c ∈ cs → awake c (m_k m')).
Proof.
  revert m. induction cs as [|c cs IH]; intros m Hl Hc; cbn [wake_all].
  - apply returns_ret. split; [exists (m_k m); by destruct m|]. split; [by apply woke_refl|by intros c ?%elem_of_nil].
  - apply returns_bind. unfold on_k. apply returns_zoom. eapply returns_mono; [by apply wakeup_woke|]. intros [] k1 [H1 Ha].
    eapply returns_mono; [apply IH|].
    + cbn [m_k set]. destruct (wk_rest _ _ H1) as (_ & _ & _ & -> & _). done.
    + cbn [m_k set]. apply (wk_cpu _ _ H1).
    + intros [] m' ((k' & ->) & H2 & H3). cbn [m_k set] in *. split; [by exists k'|]. split; [by eapply woke_trans|].
      intros c' [->|Hin]%elem_of_cons; [by apply (wk_awake _ _ H2)|by apply H3].
Qed.

(** The console's interrupt on the machine. *)
Lemma console_intr_ok intr cs (end_ : board → Prop) (m : Ma) :
  ptable_lock (k_pt (m_k m)) = false → Cli.cli_wf (k_cpu (m_k m)) → CTRL 80 ∉ cs →
  returns intr (m_board m) (λ _ b', end_ b' ∧ edited cs (con (m_board m)) (con b')) →
  returns (console_intr intr) m (λ _ m', end_ (m_board m') ∧ edited cs (con (m_board m)) (con (m_board m')) ∧
    m_ide m' = m_ide m ∧ m_eoi m' = m_eoi m ∧ woke (m_k m) (m_k m') ∧
    (w (con (m_board m')) = w (con (m_board m)) ∨ awake (Caddr input_r) (m_k m'))).
Proof.
  intros Hl Hc Hcs Hi. unfold console_intr. apply returns_bind, returns_gets, returns_bind. unfold on_board. apply returns_zoom.
  eapply returns_mono; [exact Hi|]. intros [] b' (He & Hed). pose proof Hed as (_ & _ & _ & Hw & Hww & Hd).
  rewrite bool_decide_eq_false_2 in Hd by done.
  apply returns_bind, returns_gets, returns_bind. cbn [m_board set].
  eapply returns_mono; [by apply repeat_wakeup|]. intros [] m' ((k' & ->) & H2 & H3). cbn [m_board m_k set] in *.
  rewrite Hd, Nat.sub_diag. apply returns_ret. cbn [m_board m_k m_ide m_eoi set]. split_and!; [done..|].
  destruct Hww as [?|?]; [by left|right]. apply H3. lia.
Qed.

(** A keyboard interrupt edits the console's line with the keys that were pressed,
    is acknowledged once, changes no process but by waking it, and, when there
    is something new to read, leaves no process asleep that waits for input. *)
Theorem keyboard_wakes_readers frame cr2 mods bs (m : Ma) :
  trapno frame = T_IRQ0 + IRQ_KBD → ptable_lock (k_pt (m_k m)) = false → Cli.cli_wf (k_cpu (m_k m)) →
  kb (m_board m) = mkkbd (bits mods) bs → Forall (λ d, 0 ≤ d < 256) bs → CTRL 80 ∉ (keys mods bs).1 →
  cons_ok (con (m_board m)) → cons_lock (con (m_board m)) = false →
  returns (trap_body frame cr2) m (λ _ m',
    lines (con (m_board m')) = foldl (flip typed) (lines (con (m_board m))) (keys mods bs).1 ∧
    m_eoi m' = Datatypes.S (m_eoi m) ∧ m_ide m' = m_ide m ∧ woke (m_k m) (m_k m') ∧
    (w (con (m_board m')) = w (con (m_board m)) ∨ awake (Caddr input_r) (m_k m'))).
Proof.
  intros Hn Hl Hc Hkb Hbs Hcs Hok Hlk. unfold trap_body. rewrite Hn.
  change (T_IRQ0 + IRQ_KBD =? T_IRQ0 + IRQ_KBD) with true. cbn [Z.eqb T_IRQ0 IRQ_KBD IRQ_TIMER IRQ_IDE Z.add Pos.add Pos.succ Pos.eqb].
  apply returns_bind. eapply returns_mono;
    [apply (console_intr_ok kbdintr (keys mods bs).1 (λ b, kb b = mkkbd (bits (keys mods bs).2) [])); [done..|by apply kbdintr_ok]|].
  intros [] m1 (_ & (_ & El & _) & Hi & He & Hw & Ha). unfold lapiceoi. apply returns_modify. cbn [m_board m_eoi m_ide m_k set].
  by rewrite He.
Qed.

(** A disk interrupt ends the first request of the queue, is acknowledged once,
    changes no process but by waking it, and leaves no process asleep that waits for
    the buffer of that request. *)
Theorem disk_wakes_waiters frame cr2 err a s i l (m : Ma) :
  trapno frame = T_IRQ0 + IRQ_IDE → ptable_lock (k_pt (m_k m)) = false → Cli.cli_wf (k_cpu (m_k m)) →
  ide_ok a s → pend a = i :: l → (err = true → dirty (abuf a i) = false) → m_ide m = s <| drive := finish err (drive s) |> →
  returns (trap_body frame cr2) m (λ _ m',
    ide_ok (astep (Done err) a).2 (m_ide m') ∧ m_eoi m' = Datatypes.S (m_eoi m) ∧ m_board m' = m_board m ∧
    woke (m_k m) (m_k m') ∧ awake (Caddr (buf_addr i)) (m_k m')).
Proof.
  intros Hn Hl Hc Hok Ep Herr Hm. unfold trap_body. rewrite Hn.
  change (T_IRQ0 + IRQ_IDE =? T_IRQ0 + IRQ_TIMER) with false. change (T_IRQ0 + IRQ_IDE =? T_IRQ0 + IRQ_IDE) with true. cbv iota zeta.
  apply returns_bind. unfold disk_intr. apply returns_bind, returns_gets, returns_bind. unfold on_ide. apply returns_zoom. rewrite Hm.
  assert (Hd : returns (run_event (Done err)) s (λ r s', r = (astep (Done err) a).1 ∧ ide_ok (astep (Done err) a).2 s')).
  { apply done_ok; [done|]. exists i. by rewrite Ep. }
  cbn [run_event] in Hd. apply returns_bind_inv in Hd. apply returns_bind_inv in Hd.
  eapply returns_mono; [exact Hd|]. intros [] s' [_ Hs']. apply returns_bind, returns_gets. cbn [m_ide set woken].
  assert (Ew : drop (length (woken s)) (woken s') = [i]).
  { rewrite (qo_woken _ _ (io_queue _ _ Hs')), (qo_woken _ _ (io_queue _ _ Hok)). cbn [astep]. rewrite Ep.
    destruct (transfer err (abuf a i) (asect a)). cbn [served set snd]. by rewrite drop_app_length. }
  rewrite Ew. eapply returns_mono; [by apply wake_all_ok|]. intros [] m' ((k' & ->) & H1 & H2). unfold lapiceoi. apply returns_modify.
  cbn [m_board m_eoi m_ide m_k set] in *. split_and!; [done..|]. apply H2. cbn. left.
Qed.
End Trap.

(** ** A concrete machine *)

Definition demo_asleep (c : Z) : proc := proc0 <| state := SLEEPING |> <| pid := 2 |> <| chan_ := Caddr c |>.
Definition demo_machine : machine kmem simd :=
  mkmachine (demo_running <| k_pt := (k_pt demo_running) <| procs := demo_proc :: demo_asleep 4096 :: demo_asleep 1 :: replicate 61 proc0 |> |>)
    demo_board (demo_reading <| drive := finish false (drive demo_reading) |>) 0.
Definition demo_frame (n : Z) : trapframe := tf0 <| trapno := n |> <| cs := 27 |>.

#[local] Instance demo_trap_pages : PageAlloc kmem := kalloc_pages KERNLINK kernlink_above.

(** A timer interrupt of the running process, which yields and is chosen again. *)
Definition demo_timed : kernel kmem :=
  demo_running <| k_pt := setp 0 (λ q, q <| kstack := demo_p1 |>) (k_pt demo_running) |>.
Definition demo_yielded : kernel kmem := after (dispatch 0) (after (trap_end true true) demo_timed).

Lemma demo_yields : result (trap_end true true) demo_timed = Some None ∧
  result (dispatch 0) (after (trap_end true true) demo_timed) = Some (Some tt).
Proof. split; vm_compute; reflexivity. Qed.

Lemma demo_resumes : trap_resumed true demo_yielded = Ok tt (after (trap_resumed true) demo_yielded).
Proof. apply (after_ok (trap_resumed true) demo_yielded tt). vm_compute. reflexivity. Qed.

Lemma demo_returns : trap_syscall_resumed 0 7 demo_running = Ok tt (after (trap_syscall_resumed 0 7) demo_running).
Proof. apply (after_ok (trap_syscall_resumed 0 7) demo_running tt). vm_compute. reflexivity. Qed.

Lemma killed_not_resumed_witness :
  (handled (T_IRQ0 + IRQ_IDE + 1) = true ∧ not_killed (m_k demo_machine)) ∧
  not_killed (after (trap_resumed true) demo_yielded) ∧ not_killed (after (trap_syscall_resumed 0 7) demo_running).
Proof.
  destruct (killed_not_resumed no_read no_write 0 1 2 0 Z.of_nat 4096 (λ _, 0) (λ _, 0) (demo_frame 47) 0) as (H1 & H2 & H3).
  split; [apply (H1 demo_machine); [reflexivity|right; reflexivity]|].
  split; [exact (H2 _ _ demo_resumes eq_refl)|exact (H3 _ _ _ _ demo_returns)].
Defined.

Lemma keyboard_wakes_readers_witness :
  returns (trap_body 0 Z.of_nat 4096 (λ _, 0) (λ _, 0) (demo_frame 33) 0) demo_machine (λ _ m',
    lines (con (m_board m')) = (chars "lS" ++ [10], []) ∧ (w (con (m_board m')) = w (con demo_board) ∨ awake (Caddr 4096) (m_k m'))).
Proof.
  eapply returns_mono; [apply (keyboard_wakes_readers 0 Z.of_nat 4096 (λ _, 0) (λ _, 0) (demo_frame 33) 0
    (mkmods false false false false false false false) [38; 166; 42; 31; 159; 170; 28; 156] demo_machine);
    [reflexivity|reflexivity|done|reflexivity|by repeat constructor| |apply demo_console_ok|reflexivity]|].
  - by apply (bool_decide_eq_true_1 _).
  - intros [] m' (E & _ & _ & _ & Hw). split; [exact E|exact Hw].
Defined.

Lemma disk_wakes_waiters_witness :
  returns (trap_body 0 Z.of_nat 4096 (λ _, 0) (λ _, 0) (demo_frame 46) 0) demo_machine (λ _ m',
    m_eoi m' = 1%nat ∧ awake (Caddr 1) (m_k m') ∧ data (bufs (m_ide m') 1) = [1]).
Proof.
  eapply returns_mono; [apply (disk_wakes_waiters 0 Z.of_nat 4096 (λ _, 0) (λ _, 0) (demo_frame 46) 0 false
    (demo_adisk <| pend := [1%nat] |>) demo_reading 1%nat [] demo_machine);
    [reflexivity|reflexivity|done|exact demo_reading_ok|reflexivity|discriminate|reflexivity]|].
  intros [] m' (Hok & E & _ & _ & Ha). split; [exact E|]. split; [exact Ha|].
  destruct (same_buf_fields _ _ (qo_bufs _ _ (io_queue _ _ Hok) 1%nat)) as (_ & _ & _ & _ & Ed). exact Ed.
Defined.
