(* ===== verification/Mkfs.v ===== *)
(** The program that makes the initial file system (mkfs.c).  It writes the image with
    the same layout as the kernel, but allocates blocks and inodes by counting up, and
    writes the bitmap at the end. *)

From S2P Require Import Prelude CString Bytes Fs.

(** ** Layout *)

Definition FSSIZE : Z := 40000.
Definition LOGSIZE : Z := 30.
Definition NINODES : Z := 200.

Definition nbitmap : Z := FSSIZE / (BSIZE * 8) + 1.
Definition ninodeblocks : Z := NINODES / IPB + 1.
Definition nlog : Z := LOGSIZE.
Definition nmeta : Z := 2 + nlog + ninodeblocks + nbitmap.
Definition nblocks : Z := FSSIZE - nmeta.

Definition sblock : superblock :=
  mksb FSSIZE nblocks NINODES nlog 2 (2 + nlog) (2 + nlog + ninodeblocks).

(** ** State *)

(** The image file, by sectors. *)
Record mkst := mkmk { img : Z → blk; freeinode : Z; freeblock : Z }.
#[export] Instance mkst_eta : Eta mkst := λ s, mkmk (img s) (freeinode s) (freeblock s).

Definition assert (b : bool) : M mkst unit := if b then skip else panic "assert".

Definition wsect (sec : Z) (buf : blk) : M mkst unit := modify (λ s, s <| img := upd (img s) sec buf |>).
Definition rsect (sec : Z) : M mkst blk := gets (λ s, img s sec).

(** ** Inodes *)

(** A [struct dinode] is the part of a [struct inode] that is kept on disk; the rest
    of the record is not used here. *)
Definition blank (inum : Z) : inode := mkinode 1 inum 1 None true 0 0 0 0 0 (replicate 13 0).

Definition winode (inum : Z) (ip : inode) : M mkst unit :=
  let bn := IBLOCK inum sblock in
  buf ← rsect bn;
  wsect bn (put_dinode buf (dinode_off inum) ip).

Definition rinode (inum : Z) : M mkst inode :=
  let bn := IBLOCK inum sblock in
  buf ← rsect bn;
  mret (get_dinode buf (dinode_off inum) (blank inum)).

Definition ialloc (ty : Z) : M mkst Z :=
  inum ← gets freeinode;
  _ ← modify (λ s, s <| freeinode := u32 (freeinode s + 1) |>);
  _ ← winode inum ((blank inum) <| type := ty |> <| nlink := 1 |> <| size := 0 |>);
  mret inum.

(** [freeblock++] *)
Definition next_block : M mkst Z :=
  b ← gets freeblock;
  _ ← modify (λ s, s <| freeblock := u32 (freeblock s + 1) |>);
  mret b.

(** ** The bitmap *)

(** [for(i = 0; i < used; i++) buf[i/8] = buf[i/8] | (0x1 << (i%8));], from [i] on. *)
Fixpoint mark (n : nat) (i : Z) (buf : blk) : blk :=
  match n with
  | O => buf
  | S n => mark n (i + 1) (<[Z.to_nat (i / 8) := Z.lor (byte buf (Z.to_nat (i / 8))) (Z.shiftl 1 (i mod 8))]> buf)
  end.

Definition balloc (used : Z) : M mkst unit :=
  _ ← assert (used <? BSIZE * 8);
  wsect (sb_bmapstart sblock) (mark (Z.to_nat used) 0 zeros).

(** ** Appending to a file *)

(** [if(xint(din.addrs[k]) == 0) din.addrs[k] = xint(freeblock++);], and the address. *)
Definition din_slot (din : inode) (k : nat) : M mkst (Z * inode) :=
  match addrs din !! k with
  | None => undef "addrs"
  | Some a =>
      if a =? 0 then b ← next_block; mret (b, din <| addrs := <[k := b]> (addrs din) |>)
      else mret (a, din)
  end.

(** The block [x] of the file, as in the two branches of the loop. *)
Definition file_block (din : inode) (fbn : Z) : M mkst (Z * inode) :=
  if fbn <? NDIRECT then din_slot din (Z.to_nat fbn)
  else
    '(p, din) ← din_slot din (Z.to_nat NDIRECT);
    indirect ← rsect p;
    if NINDIRECT <=? fbn - NDIRECT then undef "indirect" else
    let k := Z.to_nat (4 * (fbn - NDIRECT)) in
    if get32 indirect k =? 0 then
      b ← next_block;
      _ ← wsect p (put32 indirect k b);
      mret (b, din)
    else mret (get32 indirect k, din).

(** The loop [while(n > 0)]; [p] is what is left to append, and the result is
    [din] and [off]. *)
Fixpoint iappend_loop (fuel : nat) (din : inode) (off : Z) (p : list Z) : M mkst (inode * Z) :=
  match p, fuel with
  | [], _ => mret (din, off)
  | _, O => λ _, NoFuel
  | _, S fuel =>
      let n := Z.of_nat (length p) in
      let fbn := off / BSIZE in
      _ ← assert (fbn <? MAXFILE);
      '(x, din) ← file_block din fbn;
      let n1 := Z.min n ((fbn + 1) * BSIZE - off) in
      buf ← rsect x;
      _ ← wsect x (splice buf (Z.to_nat (off - fbn * BSIZE)) (take (Z.to_nat n1) p));
      iappend_loop fuel din (off + n1) (drop (Z.to_nat n1) p)
  end.

Definition iappend (inum : Z) (p : list Z) : M mkst unit :=
  din ← rinode inum;
  let off := size din in
  '(din, off) ← iappend_loop (length p) din off p;
  winode inum (din <| size := off |>).

(** ** The program *)

(** The superblock in its sector. *)
Definition put_sb (d : blk) (sb : superblock) : blk :=
  put32 (put32 (put32 (put32 (put32 (put32 (put32 d 0 (sb_size sb)) 4 (sb_nblocks sb)) 8 (sb_ninodes sb))
    12 (sb_nlog sb)) 16 (sb_logstart sb)) 20 (sb_inodestart sb)) 24 (sb_bmapstart sb).

Definition UNDERSCORE : Z := 95.

(** [while((cc = read(fd, buf, sizeof(buf))) > 0) iappend(inum, buf, cc);]: the
    pieces that [read] returns. *)
Fixpoint append_all (inum : Z) (pieces : list (list Z)) : M mkst unit :=
  match pieces with [] => skip | p :: pieces => _ ← iappend inum p; append_all inum pieces end.

(** One file of the command line: its name and its contents. *)
Definition add_file (rootino : Z) (f : list Z * list (list Z)) : M mkst unit :=
  let '(name, pieces) := f in
  _ ← assert (bool_decide (SLASH ∉ name));
  let name := match name with c :: rest => if c =? UNDERSCORE then rest else name | [] => name end in
  inum ← ialloc T_FILE;
  _ ← iappend rootino (mk_dirent name inum);
  append_all inum pieces.

Fixpoint add_files (rootino : Z) (fs : list (list Z * list (list Z))) : M mkst unit :=
  match fs with [] => skip | f :: fs => _ ← add_file rootino f; add_files rootino fs end.

Definition DOT : list Z := [46].
Definition DOTDOT : list Z := [46; 46].

Definition main (fs : list (list Z * list (list Z))) : M mkst unit :=
  _ ← modify (λ s, s <| freeblock := nmeta |>);
  _ ← for_ (Z.to_nat FSSIZE) 0 (λ i, wsect i zeros);
  _ ← wsect 1 (put_sb zeros sblock);
  rootino ← ialloc T_DIR;
  _ ← assert (rootino =? ROOTINO);
  _ ← iappend rootino (mk_dirent DOT rootino);
  _ ← iappend rootino (mk_dirent DOTDOT rootino);
  _ ← add_files rootino fs;
  din ← rinode rootino;
  let off := (size din / BSIZE + 1) * BSIZE in
  _ ← winode rootino (din <| size := off |>);
  used ← gets freeblock;
  balloc used.
