(* ===== verification/MkfsImage.v ===== *)
(** The image that mkfs writes is a file system of the kernel: the state of mkfs is
    followed by a state [v] of the kernel's file system with the same blocks, in which
    the bitmap is up to date. *)

From S2P Require Import Prelude Keeps CString Bytes Fs FsBlocks FsInode FsFile FsRw FsDir Mkfs.

(** ** Simulation *)

(** The blocks that mkfs keeps up to date as it goes: all but the bitmap. *)
Definition plain (b : Z) : Prop := 0 ≤ b < FSSIZE ∧ ¬ sb_bmapstart sblock ≤ b < nmeta.

Record sim (s : mkst) (v : fsys) : Prop := {
  sm_sb : sb v = sblock;
  sm_held : bheld v = ∅;
  sm_disk : disksize v = FSSIZE;
  sm_wf : fs_wf v;
  sm_img b : plain b → img s b = blocks v b;
  sm_bit b : 0 ≤ b < FSSIZE → bit v b = (b <? freeblock s);
  sm_zero b : freeblock s ≤ b < FSSIZE → img s b = zeros;
  sm_bmap b : sb_bmapstart sblock ≤ b < nmeta → img s b = zeros;
  sm_super : img s 1 = put_sb zeros sblock;
  sm_free : nmeta ≤ freeblock s ≤ FSSIZE
}.

Lemma layout : sb_bmapstart sblock = 58 ∧ nmeta = 68 ∧ FSSIZE = 40000 ∧ datastart sblock = 68 ∧ sb_inodestart sblock = 32.
Proof. by vm_compute. Qed.

Ltac lay := destruct layout as (Ebm & Enm & Efs & Eds & Ein).

Lemma sim_data s v b : sim s v → is_data v b ↔ nmeta ≤ b < FSSIZE.
Proof. intros Hs. unfold is_data. rewrite (sm_sb _ _ Hs). lay. rewrite Eds, Enm. done. Qed.

Lemma data_plain b : nmeta ≤ b < FSSIZE → plain b.
Proof. unfold plain. lay. lia. Qed.

(** A block of data is written. *)
Lemma sim_store s v b d : sim s v → nmeta ≤ b < freeblock s → is_block d →
  sim (s <| img := upd (img s) b d |>) (put_block b d v).
Proof.
  intros Hs Hb Hd. pose proof (sm_free _ _ Hs). assert (Hda : is_data v b) by (rewrite sim_data by done; lia). lay.
  destruct Hs as [Esb ? ? Hwf Hi Hbit Hz Hm Hsu Hf]. constructor; try done.
  - by apply wf_put_data.
  - intros x Hx. cbn. unfold upd. case_decide; auto.
  - intros x Hx. rewrite bit_other; [by apply Hbit| |done]. rewrite Esb. exact Hx.
  - intros x Hx. cbn in *. rewrite upd_ne by lia. auto.
  - intros x Hx. cbn. rewrite upd_ne by lia. auto.
  - cbn. by rewrite upd_ne by lia.
Qed.

(** The next block is taken. *)
Lemma next_block_ok s v : sim s v → freeblock s < FSSIZE →
  returns next_block s (λ b s', ∃ v', b = freeblock s ∧ s' = s <| freeblock := b + 1 |> ∧ sim s' v' ∧ allocated v b v').
Proof.
  intros Hs Hlt. pose proof (sm_free _ _ Hs). lay. set (b := freeblock s) in *.
  assert (Hb : 0 ≤ b < sb_size (sb v)) by (rewrite (sm_sb _ _ Hs); cbn; lia).
  assert (Hbit : bit v b = false) by (rewrite (sm_bit _ _ Hs) by lia; apply Z.ltb_ge; lia).
  destruct (alloc_puts v b (sm_wf _ _ Hs) Hb Hbit) as [Hal _]. set (v' := put_block b zeros _) in Hal. clearbody v'.
  unfold next_block. mgo. exists v'. fold b. rewrite u32_small by (unfold two32; lia).
  split_and!; [done|done| |done]. destruct (al_frame _ _ _ Hal) as (_ & Eh & Ed & Esb & _).
  constructor; cbn.
  - rewrite Esb. apply Hs.
  - rewrite Eh. apply Hs.
  - rewrite Ed. apply Hs.
  - apply Hal.
  - intros x Hx. rewrite (sm_img _ _ Hs x Hx). destruct (decide (x = b)) as [->|Hne].
    + rewrite (al_zero _ _ _ Hal), <- (sm_img _ _ Hs) by done. by apply Hs.
    + symmetry. destruct Hx as [Hx1 Hx2]. destruct (decide (x < sb_bmapstart sblock)) as [Hlow|Hhi].
      * apply (al_low _ _ _ Hal). by rewrite (sm_sb _ _ Hs).
      * apply (al_other _ _ _ Hal); [|done]. rewrite sim_data by done. lia.
  - intros x Hx. rewrite (al_bit _ _ _ Hal) by (by rewrite (sm_sb _ _ Hs); cbn; lia). rewrite (sm_bit _ _ Hs) by done.
    fold b. destruct (Z.eqb_spec x b), (Z.ltb_spec x b), (Z.ltb_spec x (b + 1)); done || lia.
  - intros x Hx. apply (sm_zero _ _ Hs). lia.
  - apply Hs.
  - apply Hs.
  - lia.
Qed.

Lemma sim_icache s v l : sim s v → sim s (v <| icache := l |>).
Proof. intros []. constructor; try done. by apply wf_icache. Qed.

(** ** The blocks of a file *)

(** The place [τ] of the tree holds [b] already, or [b] is put there. *)
Definition filled_or (i : nat) (τ : list nat) (b : Z) (v v' : fsys) : Prop :=
  (node v i τ ≠ 0 ∧ v' = v ∧ b = node v i τ) ∨ (node v i τ = 0 ∧ filled i τ b v v').

Definition cost (v : fsys) (i : nat) (τ : list nat) : Z := if decide (node v i τ = 0) then 1 else 0.

Lemma filled_or_slot i τ b v v' : fs_wf v → file_ok v i → vpath τ → filled_or i τ b v v' →
  slot_post i τ v b v' ∧ ∀ π, vpath π → node v' i π = if decide (π = τ) then b else node v i π.
Proof.
  intros Hwf Hok Hτ [(Hn & -> & ->)|[H0 Hf]].
  - split; [by apply slot_hit|]. intros π _. by case_decide; subst.
  - split; [|intros π; by apply filled_node]. destruct (filled_extends _ _ _ _ _ Hwf Hok Hτ H0 Hf) as [Hex Hb].
    pose proof (filled_pos _ _ _ _ _ Hwf Hf). split; [done|]. split; [done|]. split; [lia|]. done.
Qed.

Lemma din_slot_ok s v i din k : sim s v → file_ok v i → icache v !! i = Some din → (k < 13)%nat →
  freeblock s + cost v i [k] ≤ FSSIZE →
  returns (din_slot din k) s (λ r s', ∃ v', sim s' v' ∧ filled_or i [k] r.1 v v' ∧
    icache v' !! i = Some r.2 ∧ freeblock s' = freeblock s + cost v i [k]).
Proof.
  intros Hs Hok Hi Hk Hc. unfold cost in *. assert (Ha : faddrs v i = addrs din) by (unfold faddrs; by rewrite Hi).
  pose proof (fo_len v i Hok) as Hlen. rewrite Ha in Hlen.
  destruct (addrs din !! k) as [a|] eqn:Hka; [|apply lookup_ge_None in Hka; lia].
  assert (Hn : node v i [k] = a) by (unfold node; simpl; rewrite Ha; by apply nth_lookup_some).
  unfold din_slot. rewrite Hka. rewrite Hn in *. destruct (Z.eqb_spec a 0) as [->|Hz].
  - rewrite decide_True in * by done. apply returns_bind. eapply returns_mono; [apply next_block_ok; [done|lia]|].
    intros b s' (v' & -> & -> & Hs' & Hal). apply returns_ret. destruct (al_frame _ _ _ Hal) as (_ & _ & _ & _ & Hic & _).
    eexists. split; [by apply sim_icache|]. split; [right; split; [done|apply filled_root; [done|apply Hs|done..]]|].
    split; [|done]. cbn. by rewrite list_lookup_alter_eq, Hic, Hi.
  - rewrite decide_False in * by done. apply returns_ret. exists v. split; [done|]. split; [left; by rewrite Hn|]. split; [done|lia].
Qed.

(** Allocation does not mind a locked buffer. *)
Lemma allocated_hold v b v' p : fs_wf v → allocated v b v' → is_data v p → bit v p = true →
  allocated (v <| bheld := {[p]} ∪ bheld v |>) b (v' <| bheld := {[p]} ∪ bheld v' |>).
Proof.
  intros Hwf Hal Hp Hb. destruct (al_frame _ _ _ Hal) as (? & Eh & ? & Esb & ? & ? & ? & ?).
  destruct (data_range v p Hwf Hp) as (_ & Hlt & Hpos). constructor; try apply Hal.
  - apply wf_hold; [apply Hal|unfold is_data; by rewrite Esb|]. rewrite (al_bit _ _ _ Hal), Hb by lia. apply orb_true_r.
  - repeat split; try done. cbn. by rewrite Eh.
Qed.

Lemma release_id v (p : Z) : p ∉ bheld v → v <| bheld := {[p]} ∪ bheld v |> <| bheld := ({[p]} ∪ bheld v) ∖ {[p]} |> = v.
Proof. intros Hp. destruct v. cbn in *. unfold set. cbn. by rewrite hold_release. Qed.

(** A fresh block stored in entry [j] of an indirect block. *)
Lemma filled_entry i π j b p v v' : fs_wf v → bheld v = ∅ → file_ok v i → π ≠ [] → vpath (π ++ [j]) → node v i π = p → p ≠ 0 →
  allocated v b v' → filled i (π ++ [j]) b v (put_block p (put32 (blocks v' p) (4 * j) b) v').
Proof.
  intros Hwf Hh Hok Hne Hv Hp Hz Hal. destruct (vpath_snoc _ _ Hv Hne) as [Hvp _].
  destruct (fo_node v i Hok π Hvp) as (Hda & Hb & _); [congruence|]. rewrite Hp in *.
  pose proof (allocated_hold v b v' p Hwf Hal Hda Hb) as Hal'.
  pose proof (filled_indirect i π j b p v _ Hwf Hok Hne Hv Hp Hz Hal') as Hf.
  destruct (al_frame _ _ _ Hal) as (_ & Eh & _). cbn in Hf.
  replace (put_block p (put32 (blocks v' p) (4 * j) b) v') with
    ((put_block p (put32 (blocks v' p) (4 * j) b) (v' <| bheld := {[p]} ∪ bheld v' |>)) <| bheld := ({[p]} ∪ bheld v') ∖ {[p]} |>);
    [done|]. apply (release_id (put_block p (put32 (blocks v' p) (4 * j) b) v')). cbn. rewrite Eh, Hh. set_solver.
Qed.

(** Where [file_block] looks. *)
Definition block_cost (v : fsys) (i : nat) (fbn : Z) : Z :=
  (if decide (10 ≤ fbn) then cost v i [10%nat] else 0) + cost v i (fpath fbn).

(** [v'] is [v] with a block for [fbn]. *)
Record block_post (i : nat) (fbn b : Z) (v v' : fsys) : Prop := {
  bp_extends : ∃ k, extends k i v v';
  bp_node : node v' i (fpath fbn) = b;
  bp_nz : b ≠ 0;
  bp_blocks n : 0 ≤ n < 138 → node v' i (fpath n) ≠ 0 ↔ n = fbn ∨ node v i (fpath n) ≠ 0;
  bp_ind : node v' i [10%nat] ≠ 0 ↔ 10 ≤ fbn ∨ node v i [10%nat] ≠ 0;
  bp_same : node v i (fpath fbn) ≠ 0 → v' = v
}.

Lemma fpath_low n : 0 ≤ n < 138 → fpath n = if decide (n < 10) then [Z.to_nat n] else [10%nat; Z.to_nat (n - 10)].
Proof.
  intros Hn. unfold fpath. case_decide; destruct (Z.ltb_spec n 10); try lia; [done|].
  by rewrite (proj2 (Z.ltb_lt n 138)) by lia.
Qed.

Lemma low_path n : 0 ≤ n < 138 → 0 ≤ n < NDOUBLE.
Proof. unfold NDOUBLE. lia. Qed.

Lemma ind_path_ne n : 0 ≤ n < 138 → [10%nat] ≠ fpath n.
Proof. intros Hn. rewrite fpath_low by done. case_decide; [|done]. intros E. simplify_eq. lia. Qed.

Lemma vpath10 : vpath [10%nat].
Proof. repeat split; [lia|cbn; lia|constructor]. Qed.

(** Putting one block at [fpath fbn]. *)
Lemma slot_block_post i fbn b v v1 v' k : fs_wf v1 → file_ok v1 i → 0 ≤ fbn < 138 → extends k i v v1 →
  (∀ n, 0 ≤ n < 138 → node v1 i (fpath n) = node v i (fpath n)) →
  (node v1 i [10%nat] ≠ 0 ↔ 10 ≤ fbn ∨ node v i [10%nat] ≠ 0) →
  (node v i (fpath fbn) ≠ 0 → v1 = v) →
  filled_or i (fpath fbn) b v1 v' → block_post i fbn b v v'.
Proof.
  intros Hwf Hok Hn Hex Hb Hi Hid Hf. pose proof (fpath_valid _ (low_path _ Hn)) as Hv.
  destruct (filled_or_slot _ _ _ _ _ Hwf Hok Hv Hf) as [(Hex2 & Hn2 & Hz & _) Hnodes]. constructor; try done.
  - exists (k + 1)%nat. by eapply extends_trans.
  - intros n Hn'. rewrite Hnodes by (by apply fpath_valid, low_path). rewrite <- Hb by done. case_decide as E.
    + apply fpath_inj in E; [|by apply low_path..]. tauto.
    + split; [tauto|]. intros [->|?]; [done|done].
  - rewrite Hnodes, decide_False; [done|by apply ind_path_ne|apply vpath10].
  - intros Hnz. specialize (Hid Hnz). subst v1. destruct Hf as [(_ & -> & _)|[? _]]; done.
Qed.

(** The second part of [file_block]: the entry of the indirect block. *)
Lemma file_block_ind s s1 v v1 i din1 fbn k p m : fpath fbn = [10%nat; k] → 0 ≤ fbn < 138 →
  sim s1 v1 → file_ok v1 i → icache v1 !! i = Some din1 → extends m i v v1 →
  node v1 i [10%nat] = p → p ≠ 0 → nmeta ≤ p < FSSIZE → bit v1 p = true →
  node v1 i [10%nat; k] = node v i [10%nat; k] →
  (∀ n, 0 ≤ n < 138 → node v1 i (fpath n) = node v i (fpath n)) →
  (node v1 i [10%nat] ≠ 0 ↔ 10 ≤ fbn ∨ node v i [10%nat] ≠ 0) →
  (node v i [10%nat; k] ≠ 0 → v1 = v) →
  freeblock s1 = freeblock s + cost v i [10%nat] →
  freeblock s + (cost v i [10%nat] + cost v i [10%nat; k]) ≤ FSSIZE →
  returns (if node v1 i [10%nat; k] =? 0 then
             b ← next_block; _ ← wsect p (put32 (blocks v1 p) (4 * k) b); mret (b, din1)
           else mret (node v1 i [10%nat; k], din1)) s1 (λ r s', ∃ v', sim s' v' ∧ block_post i fbn r.1 v v' ∧
    icache v' !! i = Some r.2 ∧ freeblock s' = freeblock s + (cost v i [10%nat] + cost v i [10%nat; k])).
Proof.
  intros Ep Hn Hs1 Hok1 Hi1 Hex1 Hn1 Hz1 Hda Hbit Hsame Hblocks Hind Hid Hfree1 Hc. lay. pose proof (sm_wf _ _ Hs1) as Hwf1.
  assert (Hv : vpath [10%nat; k]) by (rewrite <- Ep; by apply fpath_valid, low_path).
  assert (Ec : cost v i [10%nat; k] = if node v1 i [10%nat; k] =? 0 then 1 else 0).
  { unfold cost. rewrite <- Hsame. destruct (Z.eqb_spec (node v1 i [10%nat; k]) 0); by case_decide. }
  rewrite Ec in *. destruct (Z.eqb_spec (node v1 i [10%nat; k]) 0) as [H0|H0].
  - apply returns_bind. eapply returns_mono; [apply next_block_ok; [done|lia]|].
    intros b s2 (v2 & -> & -> & Hs2 & Hal). set (b := freeblock s1) in *. unfold wsect. apply returns_bind, returns_modify, returns_ret. cbn [fst snd].
    assert (Hpb : p ≠ b). { intros ->. pose proof (al_free _ _ _ Hal). congruence. }
    assert (Hlt : p < b). { rewrite (sm_bit _ _ Hs1) in Hbit by lia. by apply Z.ltb_lt in Hbit. }
    assert (E2 : blocks v2 p = blocks v1 p) by (apply (al_other _ _ _ Hal); [by rewrite sim_data|done]).
    pose proof (filled_entry i [10%nat] k b p v1 v2 Hwf1 (sm_held _ _ Hs1) Hok1 ltac:(done) Hv Hn1 Hz1 Hal) as Hf.
    rewrite E2 in Hf. eexists. split; [apply sim_store; [exact Hs2|cbn; lia|apply is_block_put32, Hwf1]|].
    split; [|split].
    + apply (slot_block_post i fbn b v v1 _ m); try done; [by rewrite Ep|]. right. by rewrite Ep.
    + destruct (al_frame _ _ _ Hal) as (_ & _ & _ & _ & Hic & _). cbn. by rewrite Hic.
    + cbn. lia.
  - apply returns_ret. exists v1. split; [done|]. split; [|split; [done|lia]].
    apply (slot_block_post i fbn _ v v1 _ m); try done; [by rewrite Ep|]. left. by rewrite Ep.
Qed.

Lemma file_block_ok s v i din fbn : sim s v → file_ok v i → icache v !! i = Some din → 0 ≤ fbn < 138 →
  freeblock s + block_cost v i fbn ≤ FSSIZE →
  returns (file_block din fbn) s (λ r s', ∃ v', sim s' v' ∧ block_post i fbn r.1 v v' ∧
    icache v' !! i = Some r.2 ∧ freeblock s' = freeblock s + block_cost v i fbn).
Proof.
  intros Hs Hok Hi Hn Hc. pose proof (sm_wf _ _ Hs) as Hwf. unfold file_block, NDIRECT, NINDIRECT.
  assert (Hcost : ∀ w τ, 0 ≤ cost w i τ) by (intros; unfold cost; case_decide; lia).
  pose proof (fpath_low fbn Hn) as Ep. destruct (Z.ltb_spec fbn 10) as [Hlt|Hge].
  - rewrite decide_True in Ep by lia. assert (Hbc : block_cost v i fbn = cost v i [Z.to_nat fbn])
      by (unfold block_cost; rewrite decide_False by lia; by rewrite Ep).
    rewrite Hbc in *. eapply returns_mono; [apply (din_slot_ok _ v i); [done..|lia|lia]|].
    intros r s' (v' & Hs' & Hf & Hi' & Hfree). exists v'. split; [done|]. split; [|split; [done|lia]].
    apply (slot_block_post i fbn r.1 v v v' 0); try done; [by apply extends_refl| |by rewrite Ep].
    split; [tauto|intros [?|?]; [lia|done]].
  - rewrite decide_False in Ep by lia. set (k := Z.to_nat (fbn - 10)) in *.
    assert (Hbc : block_cost v i fbn = cost v i [10%nat] + cost v i [10%nat; k])
      by (unfold block_cost; rewrite decide_True by lia; by rewrite Ep).
    rewrite Hbc in *. pose proof (Hcost v [10%nat; k]).
    change (Z.to_nat 10) with 10%nat. apply returns_bind. eapply returns_mono; [apply (din_slot_ok _ v i); [done..|lia|lia]|].
    intros [p din1] s1 (v1 & Hs1 & Hf1 & Hi1 & Hfree1). cbn [fst snd] in *.
    destruct (filled_or_slot _ _ _ _ _ Hwf Hok vpath10 Hf1) as [(Hex1 & Hn1 & Hz1 & Hid1) Hnodes1].
    pose proof (ex_touches _ _ _ _ Hex1) as Ht1. pose proof (to_ok _ _ _ Ht1) as Hok1. pose proof (sm_wf _ _ Hs1) as Hwf1.
    destruct (fo_node v1 i Hok1 [10%nat] vpath10) as (Hda & Hbit & _); [congruence|]. rewrite Hn1 in *.
    rewrite (sim_data s1 v1) in Hda by done. apply returns_bind, returns_gets.
    rewrite (proj2 (Z.leb_gt 128 _)) by lia. rewrite (sm_img _ _ Hs1 p) by by apply data_plain.
    replace (Z.to_nat (4 * (fbn - 10))) with (4 * k)%nat by lia. cbv zeta.
    assert (Hv : vpath [10%nat; k]) by (rewrite <- Ep; by apply fpath_valid, low_path).
    assert (Hch : node v1 i [10%nat; k] = get32 (blocks v1 p) (4 * k)).
    { change [10%nat; k] with ([10%nat] ++ [k]). rewrite node_snoc, Hn1 by done. unfold child. by rewrite (proj2 (Z.eqb_neq p 0)). }
    assert (Hsame : node v1 i [10%nat; k] = node v i [10%nat; k]) by by rewrite Hnodes1, decide_False.
    rewrite <- Hch.
    assert (Hblocks : ∀ n, 0 ≤ n < 138 → node v1 i (fpath n) = node v i (fpath n)).
    { intros n Hn'. rewrite Hnodes1 by (by apply fpath_valid, low_path). rewrite decide_False; [done|].
      intros E. by apply (ind_path_ne n Hn'). }
    assert (Hind : node v1 i [10%nat] ≠ 0 ↔ 10 ≤ fbn ∨ node v i [10%nat] ≠ 0) by (rewrite Hn1; split; [lia|done]).
    apply (file_block_ind s s1 v v1 i din1 fbn k p 1); try done. intros Hnz. apply Hid1. by apply (node_parent v i [10%nat] k).
Qed.

(** ** Appending *)

(** The number of blocks with contents, and with the indirect block. *)
Definition nb (sz : Z) : Z := (sz + 511) / 512.
Definition need (sz : Z) : Z := nb sz + (if 10 <? nb sz then 1 else 0).

(** A file has the blocks of its size and no others. *)
Definition tidy (v : fsys) (i : nat) (sz : Z) : Prop :=
  (∀ n, 0 ≤ n < 138 → node v i (fpath n) ≠ 0 ↔ n < nb sz) ∧ (node v i [10%nat] ≠ 0 ↔ 10 < nb sz).

Definition MAXAPPEND : Z := 138 * 512.

Lemma nb_chunk off c : 0 ≤ off → 0 < c ≤ 512 - off mod 512 →
  nb (off + c) = off / 512 + 1 ∧ nb off = if decide (off mod 512 = 0) then off / 512 else off / 512 + 1.
Proof.
  intros Ho Hc. pose proof (Z.div_mod off 512 ltac:(lia)). pose proof (Z.mod_pos_bound off 512 ltac:(lia)). unfold nb. split.
  - symmetry. apply (Z.div_unique _ _ _ (off mod 512 + c - 1)); lia.
  - symmetry. case_decide; [apply (Z.div_unique _ _ _ 511); lia|apply (Z.div_unique _ _ _ (off mod 512 - 1)); lia].
Qed.

Lemma tidy_cost v i off c : tidy v i off → 0 ≤ off → 0 < c ≤ 512 - off mod 512 → off / 512 < 138 →
  block_cost v i (off / 512) = need (off + c) - need off.
Proof.
  intros [Hb Hi] Ho Hc Hlt. assert (0 ≤ off / 512) by (apply Z.div_pos; lia). specialize (Hb (off / 512) ltac:(lia)).
  destruct (nb_chunk off c Ho Hc) as [E1 E2]. unfold block_cost, cost, need. rewrite E1. rewrite E2 in *.
  destruct (decide (off mod 512 = 0)).
  - rewrite (decide_True (P := node v i (fpath _) = 0)) by lia.
    destruct (Z.ltb_spec 10 (off / 512 + 1)), (Z.ltb_spec 10 (off / 512)); repeat case_decide; lia.
  - rewrite (decide_False (P := node v i (fpath _) = 0)) by lia.
    destruct (Z.ltb_spec 10 (off / 512 + 1)); repeat case_decide; lia.
Qed.

Lemma tidy_block v v' i off c b : tidy v i off → 0 ≤ off → 0 < c ≤ 512 - off mod 512 → off / 512 < 138 →
  block_post i (off / 512) b v v' → tidy v' i (off + c).
Proof.
  intros [Hb Hi] Ho Hc Hlt Hp. destruct (nb_chunk off c Ho Hc) as [E1 E2]. unfold tidy. rewrite E1. rewrite E2 in *. split.
  - intros n Hn. rewrite (bp_blocks _ _ _ _ _ Hp), Hb by done. case_decide; lia.
  - rewrite (bp_ind _ _ _ _ _ Hp), Hi. case_decide; lia.
Qed.

(** The bytes of a chunk stored in their block. *)
Lemma store_wrote i off len l b v v1 : fs_wf v → 0 ≤ off → 0 < len → off + len ≤ MAXAPPEND →
  Z.of_nat (length l) = chunk off len → Forall (λ x, 0 ≤ x < 256) l → block_post i (off / BSIZE) b v v1 →
  wrote i off l v (put_block b (splice (blocks v1 b) (Z.to_nat (off mod BSIZE)) l) v1).
Proof.
  intros Hwf Ho Hl Hmax Hll Hlb [[k Hex] Hb Hz _ _ Hid].
  assert (HN : MAXAPPEND ≤ NBYTES) by (unfold MAXAPPEND, NBYTES, NDOUBLE, BSIZE; lia).
  assert (Hn : 0 ≤ off / BSIZE < NDOUBLE) by (apply block_of; lia).
  destruct (chunk_bounds off len Ho Hl) as (Hc & Hcb & Hm).
  pose proof (ex_touches _ _ _ _ Hex) as Ht1. pose proof (to_wf _ _ _ Ht1) as Hwf1. pose proof (to_ok _ _ _ Ht1) as Hok1.
  set (d' := splice _ _ _).
  assert (Hd' : is_block d') by (apply is_block_splice; [apply Hwf1|done|unfold BSIZE in *; lia]).
  assert (Hz1 : node v1 i (fpath (off / BSIZE)) ≠ 0) by congruence.
  pose proof (store_touches v1 i _ d' Hwf1 Hok1 Hn Hd' Hz1) as Ht2. rewrite Hb in Ht2.
  split.
  - by eapply touches_trans.
  - rewrite Hll. apply (splice_fbyte v _ i off len l); try done; [lia|by apply fblock_is_block|].
    intros m Hm'. rewrite <- Hb, store_block by done. rewrite <- !(ex_block _ _ _ _ Hex) by done.
    case_decide; [|done]. subst d'. by rewrite <- node_fblock, Hb.
  - intros x Hx. rewrite Hll in Hx. destruct (chunk_index off len x Ho Hl Hx) as [-> _].
    rewrite (to_node _ _ _ Ht2); [done|by apply fpath_valid|done].
  - intros Hall. simpl. rewrite Hid; [done|]. apply Hall. lia.
Qed.

Lemma node_data s v i π : sim s v → file_ok v i → vpath π → node v i π ≠ 0 → nmeta ≤ node v i π < freeblock s.
Proof.
  intros Hs Hok Hv Hz. destruct (fo_node v i Hok π Hv Hz) as (Hda & Hb & _). rewrite (sim_data s) in Hda by done.
  rewrite (sm_bit _ _ Hs) in Hb by (lay; lia). apply Z.ltb_lt in Hb. lia.
Qed.

(** One round of the loop. *)
Lemma append_round s v i din off len l (k : inode → M mkst (inode * Z)) Q :
  sim s v → file_ok v i → icache v !! i = Some din → tidy v i off → 0 ≤ off → 0 < len → off + len ≤ MAXAPPEND →
  Z.of_nat (length l) = chunk off len → Forall (λ x, 0 ≤ x < 256) l →
  freeblock s + need (off + chunk off len) - need off ≤ FSSIZE →
  (∀ s' v' din', sim s' v' → wrote i off l v v' → icache v' !! i = Some din' → tidy v' i (off + chunk off len) →
     freeblock s' = freeblock s + need (off + chunk off len) - need off → returns (k din') s' Q) →
  returns (_ ← assert (off / BSIZE <? MAXFILE);
           '(x, din) ← file_block din (off / BSIZE);
           buf ← rsect x;
           _ ← wsect x (splice buf (Z.to_nat (off - off / BSIZE * BSIZE)) l);
           k din) s Q.
Proof.
  intros Hs Hok Hi Ht Ho Hl Hmax Hll Hlb Hfree HQ. destruct (chunk_bounds off len Ho Hl) as (Hc & Hcb & Hm).
  assert (Hc' : 0 < chunk off len ≤ 512 - off mod 512) by (unfold BSIZE in *; lia).
  assert (Hn : 0 ≤ off / BSIZE < 138).
  { unfold MAXAPPEND, BSIZE in *. split; [apply Z.div_pos; lia|apply Z.div_lt_upper_bound; lia]. }
  assert (Hcost : block_cost v i (off / BSIZE) = need (off + chunk off len) - need off) by (apply tidy_cost; [done..|apply Hn]).
  unfold assert. rewrite (proj2 (Z.ltb_lt _ MAXFILE)) by (unfold MAXFILE, NDIRECT, NINDIRECT; lia). mgo.
  eapply returns_mono; [apply (file_block_ok s v i); [done..|lia]|].
  intros [x din'] s1 (v1 & Hs1 & Hp & Hi1 & Hfree1). cbn [fst snd] in *. unfold rsect, wsect. mgo.
  replace (off - off / BSIZE * BSIZE) with (off mod BSIZE) by (rewrite Z.mod_eq by done; lia).
  destruct (bp_extends _ _ _ _ _ Hp) as [m Hex]. pose proof (to_ok _ _ _ (ex_touches _ _ _ _ Hex)) as Hok1.
  pose proof (node_data s1 v1 i (fpath (off / BSIZE)) Hs1 Hok1 ltac:(by apply fpath_valid, low_path)) as Hx.
  rewrite (bp_node _ _ _ _ _ Hp) in Hx. specialize (Hx (bp_nz _ _ _ _ _ Hp)). pose proof (sm_free _ _ Hs1).
  rewrite (sm_img _ _ Hs1 x) by (apply data_plain; lia).
  apply (HQ _ (put_block x (splice (blocks v1 x) (Z.to_nat (off mod BSIZE)) l) v1)).
  - apply sim_store; [done..|]. apply is_block_splice; [apply Hs1|done|unfold BSIZE in *; lia].
  - apply (store_wrote i off len); try done. apply Hs.
  - done.
  - assert (Ht1 : tidy v1 i (off + chunk off len)) by (eapply tidy_block; [done..|apply Hn|done]).
    assert (Hz : node v1 i (fpath (off / BSIZE)) ≠ 0) by (rewrite (bp_node _ _ _ _ _ Hp); apply Hp).
    rewrite <- (bp_node _ _ _ _ _ Hp). destruct Ht1 as [Hb1 Hi1']. split.
    + intros n Hn'. rewrite store_node; [by apply Hb1|done|by apply low_path|by apply fpath_valid, low_path].
    + rewrite store_node; [done|done|by apply low_path|apply vpath10].
  - cbn. lia.
Qed.

Lemma need_mono a b : a ≤ b → need a ≤ need b.
Proof.
  intros Hab. unfold need. assert (nb a ≤ nb b) by (unfold nb; apply Z.div_le_mono; lia).
  destruct (Z.ltb_spec 10 (nb a)), (Z.ltb_spec 10 (nb b)); lia.
Qed.

Lemma append_nil i off s v din : sim s v → file_ok v i → icache v !! i = Some din → tidy v i off →
  ∃ v', sim s v' ∧ wrote i off [] v v' ∧ icache v' !! i = Some (din, off).1 ∧
    (din, off).2 = off + Z.of_nat (length (A := Z) []) ∧ tidy v' i (off + Z.of_nat (length (A := Z) [])) ∧
    freeblock s = freeblock s + need (off + Z.of_nat (length (A := Z) [])) - need off.
Proof.
  intros Hs Hok Hi Ht. exists v. cbn. rewrite Z.add_0_r. split; [done|]. split; [apply wrote_nil; [apply Hs|done]|].
  split; [done|]. split; [done|]. split; [done|lia].
Qed.

Lemma iappend_loop_ok fuel i : ∀ off p s v din,
  sim s v → file_ok v i → icache v !! i = Some din → tidy v i off → 0 ≤ off →
  off + Z.of_nat (length p) ≤ MAXAPPEND → Forall (λ x, 0 ≤ x < 256) p → (length p ≤ fuel)%nat →
  freeblock s + need (off + Z.of_nat (length p)) - need off ≤ FSSIZE →
  returns (iappend_loop fuel din off p) s (λ r s', ∃ v', sim s' v' ∧ wrote i off p v v' ∧ icache v' !! i = Some r.1 ∧
    r.2 = off + Z.of_nat (length p) ∧ tidy v' i (off + Z.of_nat (length p)) ∧
    freeblock s' = freeblock s + need (off + Z.of_nat (length p)) - need off).
Proof.
  induction fuel as [|fuel IH]; intros off p s v din Hs Hok Hi Ht Ho Hmax Hp Hfu Hfree.
  { destruct p; [|cbn in Hfu; lia]. cbn [iappend_loop]. apply returns_ret. by apply append_nil. }
  destruct p as [|x0 p]; [cbn [iappend_loop]; apply returns_ret; by apply append_nil|].
  cbn [iappend_loop]. set (l := x0 :: p) in *. set (len := Z.of_nat (length l)) in *.
  assert (Hlen : 0 < len) by (unfold len, l; simpl; lia). cbv zeta.
  assert (En1 : Z.min len ((off / BSIZE + 1) * BSIZE - off) = chunk off len).
  { unfold chunk. pose proof (Z.div_mod off BSIZE ltac:(done)). f_equal. lia. }
  rewrite En1. destruct (chunk_bounds off len Ho Hlen) as (Hc & Hcb & Hm).
  assert (Htl : Z.of_nat (length (take (Z.to_nat (chunk off len)) l)) = chunk off len) by (rewrite length_take; lia).
  assert (Hdl : Z.of_nat (length (drop (Z.to_nat (chunk off len)) l)) = len - chunk off len) by (rewrite length_drop; lia).
  pose proof (need_mono (off + chunk off len) (off + len) ltac:(lia)).
  eapply (append_round s v i din off len _ (λ din, iappend_loop fuel din _ _)); try done; [by apply Forall_take|lia|].
  intros s1 v1 din1 Hs1 Hw Hi1 Ht1 Hf1. pose proof (wr_touches _ _ _ _ _ Hw) as Hto.
  eapply returns_mono; [apply (IH _ _ s1 v1); try done; [apply Hto|lia|lia|by apply Forall_drop|lia|rewrite Hdl]|].
  { replace (off + chunk off len + (len - chunk off len)) with (off + len) by lia. lia. }
  intros r s2 (v2 & Hs2 & Hw2 & Hi2 & Hr2 & Ht2 & Hf2). exists v2. rewrite Hdl in *.
  replace (off + chunk off len + (len - chunk off len)) with (off + len) in * by lia.
  split; [done|]. split; [|split; [done|split; [done|split; [done|lia]]]]. rewrite <- (take_drop (Z.to_nat (chunk off len)) l).
  assert (HN : MAXAPPEND ≤ NBYTES) by (unfold MAXAPPEND, NBYTES, NDOUBLE, BSIZE; lia).
  eapply wrote_app; [done| |done|by rewrite Htl]. rewrite take_drop. lia.
Qed.

(** ** Inodes *)

Lemma sim_updated s v ip : sim s v → ino_ok v (inum ip) →
  let b := IBLOCK (inum ip) sblock in
  sim (s <| img := upd (img s) b (put_dinode (img s b) (dinode_off (inum ip)) ip) |>) (updated ip v).
Proof.
  intros Hs Hn b. pose proof (iblock_range v _ Hn) as Hb. destruct Hn as (Hn0 & _ & Hlow). rewrite (sm_sb _ _ Hs) in *. fold b in Hb, Hlow.
  lay. pose proof (sm_free _ _ Hs). assert (Eb : img s b = blocks v b) by (apply (sm_img _ _ Hs); unfold plain; lia).
  assert (Eu : updated ip v = put_block b (put_dinode (blocks v b) (dinode_off (inum ip)) ip) v)
    by (unfold updated; by rewrite (sm_sb _ _ Hs)). rewrite Eu, Eb.
  assert (b ≠ 1) by (unfold b, IBLOCK, IPB; pose proof (Z.div_pos (inum ip) 8); lia).
  destruct Hs as [Esb ? ? Hwf Hi Hbit Hz Hm Hsu Hf]. constructor; try done.
  - apply wf_put_low; [done|by rewrite Esb|]. apply is_block_put_dinode, Hwf.
  - intros x Hx. cbn. unfold upd. case_decide; auto.
  - intros x Hx. rewrite bit_low; [by apply Hbit|lia|by rewrite Esb].
  - intros x Hx. cbn in *. rewrite upd_ne by lia. auto.
  - intros x Hx. cbn. rewrite upd_ne by lia. auto.
  - cbn. by rewrite upd_ne by lia.
Qed.

Lemma winode_ok s v ip : sim s v → ino_ok v (inum ip) →
  returns (winode (inum ip) ip) s (λ _ s', sim s' (updated ip v) ∧ freeblock s' = freeblock s ∧ freeinode s' = freeinode s).
Proof.
  intros Hs Hn. unfold winode, rsect, wsect. mgo. split; [|done]. by apply sim_updated.
Qed.

Lemma rinode_ok s v n : sim s v → ino_ok v n → returns (rinode n) s (λ ip s', s' = s ∧ ip = dinode_at v n (blank n)).
Proof.
  intros Hs Hn. unfold rinode, rsect. mgo. split; [done|]. unfold dinode_at. rewrite (sm_sb _ _ Hs).
  rewrite (sm_img _ _ Hs); [done|]. pose proof (iblock_range v _ Hn). destruct Hn as (_ & _ & ?). rewrite (sm_sb _ _ Hs) in *.
  lay. unfold plain. lia.
Qed.

(** [iappend] leaves the counter of inodes alone. *)
Lemma iappend_loop_freeinode c fuel : ∀ din off p, keeps (λ s, freeinode s = c) (iappend_loop fuel din off p).
Proof.
  assert (Hnb : keeps (λ s, freeinode s = c) next_block) by (unfold next_block; kgo; by apply keeps_modify).
  assert (Hds : ∀ din k, keeps (λ s, freeinode s = c) (din_slot din k)).
  { intros din k. unfold din_slot. destruct (addrs din !! k); [|by kgo]. case_match; [|by kgo].
    apply keeps_bind; [done|]. intros b. by kgo. }
  assert (Hfb : ∀ din n, keeps (λ s, freeinode s = c) (file_block din n)).
  { intros din n. unfold file_block, rsect, wsect. case_match; [done|]. apply keeps_bind; [done|]. intros [b din'].
    apply keeps_bind; [by kgo|]. intros ind. case_match; [by kgo|]. cbv zeta. case_match; [|by kgo].
    apply keeps_bind; [done|]. intros b'. apply keeps_bind; [by apply keeps_modify|]. intros _. by kgo. }
  induction fuel as [|fuel IH]; intros din off p; cbn [iappend_loop]; (destruct p; [by kgo|]); [by kgo|].
  apply keeps_bind; [unfold assert; by kgo|]. intros _. apply keeps_bind; [done|]. intros [x din'].
  apply keeps_bind; [unfold rsect; by kgo|]. intros buf. apply keeps_bind; [by apply keeps_modify|]. intros _. apply IH.
Qed.

(** What an append does. *)
Record appended (i : nat) (ip : inode) (p : list Z) (s : mkst) (v : fsys) (s' : mkst) (v' : fsys) : Prop := {
  ap_sim : sim s' v';
  ap_post : write_post i ip (size ip) p v v';
  ap_tidy : tidy v' i (size ip + Z.of_nat (length p));
  ap_new π : vpath π → node v' i π ≠ 0 → node v' i π = node v i π ∨ bit v (node v' i π) = false;
  ap_free : freeblock s' = freeblock s + need (size ip + Z.of_nat (length p)) - need (size ip);
  ap_ino : freeinode s' = freeinode s;
  ap_len : length (icache v') = length (icache v)
}.

Lemma iappend_ok i ip p s v : sim s v → file_inv v i ip → dinode_at v (inum ip) (blank (inum ip)) = ip →
  tidy v i (size ip) → p ≠ [] → size ip + Z.of_nat (length p) ≤ MAXAPPEND → Forall (λ x, 0 ≤ x < 256) p →
  freeblock s + need (size ip + Z.of_nat (length p)) - need (size ip) ≤ FSSIZE →
  returns (iappend (inum ip) p) s (λ _ s', ∃ v', appended i ip p s v s' v').
Proof.
  intros Hs Hinv Hload Ht Hp Hmax Hb Hfree. assert (Hlen : 0 < Z.of_nat (length p)) by (destruct p; [done|cbn; lia]).
  pose proof (iw_size _ (fv_inode _ _ _ Hinv)) as Hsz. pose proof (fv_ino _ _ _ Hinv) as Hino.
  unfold iappend. apply returns_bind. eapply returns_mono; [by apply (rinode_ok s v)|]. intros din s0 [-> ->]. rewrite Hload. cbv zeta.
  apply returns_bind. eapply returns_mono.
  { apply (returns_keeps (λ s', freeinode s' = freeinode s));
      [apply (iappend_loop_ok _ i); try done; try apply Hinv; lia|apply iappend_loop_freeinode|done]. }
  intros [din off] s1 [(v1 & Hs1 & Hw & Hi1 & Hoff & Ht1 & Hf1) Hfi]. cbn [fst snd] in *.
  pose proof (wrote_slot _ _ _ _ _ _ Hw (fv_slot _ _ _ Hinv)) as Hslot. rewrite Hi1 in Hslot. injection Hslot as Hdin.
  pose proof (wr_touches _ _ _ _ _ Hw) as Hto. destruct (to_frame _ _ _ Hto) as (_ & _ & _ & Hsb & _).
  assert (Hino1 : ino_ok v1 (inum ip)) by (unfold ino_ok; by rewrite Hsb).
  set (ip' := ip <| addrs := faddrs v1 i |> <| size := off |>). set (v2 := v1 <| icache := alter (λ ip, ip <| size := off |>) i (icache v1) |>).
  replace (din <| size := off |>) with ip' by by rewrite Hdin.
  eapply returns_mono; [apply (winode_ok s1 v2 ip'); [by apply sim_icache|done]|].
  intros [] s2 (Hs2 & Hf2 & Hi2). exists (updated ip' v2).
  assert (HN : MAXAPPEND ≤ NBYTES) by (unfold MAXAPPEND, NBYTES, NDOUBLE, BSIZE; lia).
  pose proof (grow_ok i ip (size ip) p v v1 Hinv Hw ltac:(lia) ltac:(lia)) as Hpost. cbv zeta in Hpost. rewrite <- Hoff in Hpost.
  pose proof (grow_meta v1 i (ip <| addrs := faddrs v1 i |>) off (to_wf _ _ _ Hto) ltac:(by rewrite Hi1, Hdin) Hino1) as Hm.
  pose proof (to_ok _ _ _ Hto) as Hok1.
  assert (Hnode : ∀ π, vpath π → node (updated ip' v2) i π = node v1 i π) by (intros π Hv; by apply (meta_node v1)).
  constructor; [done|exact Hpost| | |lia|congruence|].
  - destruct Ht1 as [Hb1 Hi1']. split.
    + intros n Hn. rewrite Hnode by (by apply fpath_valid, low_path). by apply Hb1.
    + rewrite Hnode by apply vpath10. done.
  - intros π Hv. rewrite Hnode by done. by apply (to_new _ _ _ Hto).
  - cbn. rewrite length_alter, (to_icache _ _ _ Hto), length_alter. done.
Qed.

(** ** The files of the image *)

(** Slot [k] of the inode cache of [v] holds inode [k + 1], a file of type [ty] with the
    contents [c]. *)
Record slot_ok (v : fsys) (k : nat) (ty : Z) (c : list Z) (ip : inode) : Prop := {
  so_inv : file_inv v k ip;
  so_load : dinode_at v (inum ip) (blank (inum ip)) = ip;
  so_inum : inum ip = Z.of_nat k + 1;
  so_type : type ip = ty;
  so_nlink : nlink ip = 1;
  so_size : size ip = Z.of_nat (length c);
  so_tidy : tidy v k (size ip);
  so_bytes x : 0 ≤ x < NBYTES → fbyte v k x = byte c (Z.to_nat x)
}.

Abbreviation mfile := (Z * list Z)%type.

Record built (fl : list mfile) (s : mkst) (v : fsys) : Prop := {
  bu_sim : sim s v;
  bu_ino : freeinode s = 1 + Z.of_nat (length fl);
  bu_max : (length fl ≤ 199)%nat;
  bu_len : length (icache v) = length fl;
  bu_file k ty c : fl !! k = Some (ty, c) → ∃ ip, slot_ok v k ty c ip;
  bu_disj j k π ρ : vpath π → vpath ρ → node v j π ≠ 0 → node v j π = node v k ρ → j = k;
  bu_free : freeblock s = nmeta + psum (λ f : mfile, need (Z.of_nat (length f.2))) fl
}.

(** Other files do not notice a change to file [k]. *)
Section Other.
Context (k j : nat) (ip jp : inode) (p : list Z) (s s' : mkst) (v v' : fsys).
Context (Hs : sim s v) (Hap : appended k ip p s v s' v') (Hj : file_inv v j jp) (Hne : inum jp ≠ inum ip) (Hjk : j ≠ k).
Context (Hdisj : ∀ π ρ, vpath π → vpath ρ → node v j π ≠ 0 → node v k ρ ≠ node v j π).
Context (Hip : 0 ≤ size ip).

Lemma other_block π : vpath π → node v j π ≠ 0 → blocks v' (node v j π) = blocks v (node v j π).
Proof.
  intros Hv Hz. destruct (fo_node v j (fv_ok _ _ _ Hj) π Hv Hz) as (Hda & Hb & _).
  apply (wp_other _ _ _ _ _ _ (ap_post _ _ _ _ _ _ _ Hap)); [done..|]. intros ρ Hρ. by apply Hdisj.
Qed.

Lemma other_faddrs : faddrs v' j = faddrs v j.
Proof. unfold faddrs. by rewrite (wp_slots _ _ _ _ _ _ (ap_post _ _ _ _ _ _ _ Hap) j Hjk). Qed.

Lemma other_node π : vpath π → node v' j π = node v j π.
Proof.
  induction π as [|m π IH] using rev_ind; [done|]. intros Hv.
  destruct (decide (π = [])) as [->|Hn]; [simpl; by rewrite other_faddrs|].
  destruct (vpath_snoc _ _ Hv Hn) as [Hvp _]. rewrite !node_snoc, IH by done.
  destruct (decide (node v j π = 0)) as [->|Hz]; [done|]. unfold child. by rewrite other_block.
Qed.

Lemma other_fblock n : 0 ≤ n < NDOUBLE → fblock v' j n = fblock v j n.
Proof.
  intros Hn. pose proof (fpath_valid n Hn). unfold fblock. rewrite other_node by done.
  destruct (Z.eqb_spec (node v j (fpath n)) 0); [done|]. by apply other_block.
Qed.

Lemma need_grows : freeblock s ≤ freeblock s'.
Proof. rewrite (ap_free _ _ _ _ _ _ _ Hap). pose proof (need_mono (size ip) (size ip + Z.of_nat (length p)) ltac:(lia)). lia. Qed.

Lemma other_inv : file_inv v' j jp.
Proof.
  pose proof (ap_sim _ _ _ _ _ _ _ Hap) as Hs'. pose proof (ap_post _ _ _ _ _ _ _ Hap) as Hpost. pose proof need_grows.
  assert (Esb : sb v' = sb v) by (rewrite (sm_sb _ _ Hs'), (sm_sb _ _ Hs); done).
  pose proof (fv_ok _ _ _ Hj) as Hok. pose proof (fv_ino _ _ _ Hj) as Hino.
  assert (HN : ∀ x, 0 ≤ x < size jp → vpath (fpath (x / BSIZE))).
  { intros x Hx. apply fpath_valid, block_of. pose proof (fv_size _ _ _ Hj). lia. }
  constructor; try apply Hj.
  - apply Hs'.
  - constructor.
    + rewrite other_faddrs. apply Hok.
    + intros π Hv. rewrite other_node by done. intros Hz. pose proof (node_data s v j π Hs Hok Hv Hz) as Hr.
      pose proof (sm_free _ _ Hs'). lay. rewrite (sim_data s' v'), (sm_bit _ _ Hs') by (done || lia).
      split; [lia|]. split; [apply Z.ltb_lt; lia|]. rewrite (sm_held _ _ Hs'). set_solver.
    + intros π1 π2 Hv1 Hv2. rewrite !other_node by done. by apply (fo_inj v j Hok).
  - rewrite (wp_slots _ _ _ _ _ _ Hpost j Hjk). apply Hj.
  - unfold ino_ok. rewrite Esb. apply Hino.
  - intros x Hx. rewrite other_node by by apply HN. by apply Hj.
  - unfold synced. rewrite (wp_inodes _ _ _ _ _ _ Hpost); [apply Hj|apply Hino|done|done].
Qed.

Lemma other_slot ty c : slot_ok v j ty c jp → slot_ok v' j ty c jp.
Proof.
  intros Hso. pose proof (fv_ino _ _ _ Hj) as Hino. pose proof (ap_post _ _ _ _ _ _ _ Hap) as Hpost.
  constructor; try apply Hso.
  - apply other_inv.
  - rewrite (wp_inodes _ _ _ _ _ _ Hpost); [apply Hso|apply Hino|done|done].
  - destruct (so_tidy _ _ _ _ _ Hso) as [Hb Hi]. split.
    + intros n Hn. rewrite other_node by (by apply fpath_valid, low_path). by apply Hb.
    + rewrite other_node by apply vpath10. done.
  - intros x Hx. rewrite <- (so_bytes _ _ _ _ _ Hso x Hx). unfold fbyte. rewrite other_fblock; [done|]. by apply block_of.
Qed.
End Other.

Lemma get_dinode_mem d o jp jp' : dev jp = dev jp' → inum jp = inum jp' → ref jp = ref jp' → ilck jp = ilck jp' →
  valid jp = valid jp' → get_dinode d o jp = get_dinode d o jp'.
Proof. destruct jp, jp'. cbn. intros -> -> -> -> ->. done. Qed.

(** Only the slots of files have blocks. *)
Lemma node_slot v j π : node v j π ≠ 0 → (j < length (icache v))%nat.
Proof.
  intros Hz. destruct (decide (j < length (icache v))%nat) as [|Hge]; [done|]. destruct Hz.
  destruct π as [|m π]; [done|]. unfold node, faddrs. rewrite lookup_ge_None_2 by lia.
  assert (E : nth m ([] : list Z) 0 = 0) by by destruct m. rewrite E. clear E. by induction π.
Qed.

Lemma built_slot fl s v j : built fl s v → (j < length (icache v))%nat → ∃ ty c ip, fl !! j = Some (ty, c) ∧ slot_ok v j ty c ip.
Proof.
  intros Hb Hj. rewrite (bu_len _ _ _ Hb) in Hj. destruct (lookup_lt_is_Some_2 _ _ Hj) as [[ty c] E].
  destruct (bu_file _ _ _ Hb _ _ _ E) as [ip Hip]. by exists ty, c, ip.
Qed.

Section Append.
Context (fl : list mfile) (s s' : mkst) (v v' : fsys) (k : nat) (ty : Z) (c p : list Z) (ip : inode).
Context (Hb : built fl s v) (Hk : fl !! k = Some (ty, c)) (Hso : slot_ok v k ty c ip) (Hap : appended k ip p s v s' v').

Local Abbreviation ip' := (grown v' k (size ip) (Z.of_nat (length p)) ip).

Lemma append_size : 0 ≤ size ip ∧ size ip' = size ip + Z.of_nat (length p).
Proof. rewrite (so_size _ _ _ _ _ Hso). cbn. rewrite (so_size _ _ _ _ _ Hso). lia. Qed.

Lemma append_slot : slot_ok v' k ty (c ++ p) ip'.
Proof.
  destruct append_size as [Hsz Esz]. pose proof (ap_post _ _ _ _ _ _ _ Hap) as Hpost. pose proof (wp_inv _ _ _ _ _ _ Hpost) as Hinv.
  pose proof (so_load _ _ _ _ _ Hso) as Hload.
  constructor; try apply Hso; [done| | | |].
  - etrans; [|exact (fv_synced _ _ _ Hinv)]. apply get_dinode_mem; try done; cbn; by rewrite <- Hload.
  - rewrite Esz, length_app, (so_size _ _ _ _ _ Hso). lia.
  - rewrite Esz. apply Hap.
  - intros x Hx. rewrite (wp_bytes _ _ _ _ _ _ Hpost), (so_bytes _ _ _ _ _ Hso) by done.
    pose proof (so_size _ _ _ _ _ Hso). unfold byte. case_decide.
    + rewrite lookup_app_r by lia. do 2 f_equal. lia.
    + destruct (decide (x < size ip)); [by rewrite lookup_app_l by lia|]. by rewrite !lookup_ge_None_2 by (rewrite ?length_app; lia).
Qed.

Lemma append_others j tj cj jp : j ≠ k → slot_ok v j tj cj jp →
  slot_ok v' j tj cj jp ∧ ∀ π, vpath π → node v' j π = node v j π.
Proof.
  intros Hjk Hj. destruct append_size as [Hsz _].
  assert (Hne : inum jp ≠ inum ip) by (rewrite (so_inum _ _ _ _ _ Hj), (so_inum _ _ _ _ _ Hso); lia).
  assert (Hd : ∀ π ρ, vpath π → vpath ρ → node v j π ≠ 0 → node v k ρ ≠ node v j π).
  { intros π ρ Hπ Hρ Hz E. apply Hjk. by apply (bu_disj _ _ _ Hb j k π ρ). }
  split; [eapply other_slot; try done; [apply Hb|apply Hj]|]. intros π Hπ.
  eapply other_node; try done. apply Hj.
Qed.

Lemma append_disj j m π ρ : vpath π → vpath ρ → node v' j π ≠ 0 → node v' j π = node v' m ρ → j = m.
Proof.
  assert (Hold : ∀ j π, vpath π → node v' j π ≠ 0 → j ≠ k → node v' j π = node v j π ∧ bit v (node v j π) = true).
  { intros j1 π1 Hv Hz Hjk. pose proof (node_slot _ _ _ Hz) as Hlt. rewrite (ap_len _ _ _ _ _ _ _ Hap) in Hlt.
    destruct (built_slot _ _ _ _ Hb Hlt) as (tj & cj & jp & _ & Hj). destruct (append_others _ _ _ _ Hjk Hj) as [_ Hn].
    rewrite Hn in * by done. split; [done|]. by apply (fo_node v j1 (fv_ok _ _ _ (so_inv _ _ _ _ _ Hj))). }
  intros Hπ Hρ Hz E. assert (Hz2 : node v' m ρ ≠ 0) by congruence.
  destruct (decide (j = k)) as [->|Hj], (decide (m = k)) as [->|Hm]; [done|..].
  - destruct (Hold m ρ Hρ Hz2 Hm) as [Em Hbit]. destruct (ap_new _ _ _ _ _ _ _ Hap π Hπ Hz) as [Ek|Hf]; [|congruence].
    apply (bu_disj _ _ _ Hb k m π ρ); congruence.
  - destruct (Hold j π Hπ Hz Hj) as [Ej Hbit]. destruct (ap_new _ _ _ _ _ _ _ Hap ρ Hρ Hz2) as [Ek|Hf]; [|congruence].
    apply (bu_disj _ _ _ Hb j k π ρ); congruence.
  - destruct (Hold j π Hπ Hz Hj) as [Ej _], (Hold m ρ Hρ Hz2 Hm) as [Em _]. apply (bu_disj _ _ _ Hb j m π ρ); congruence.
Qed.

Lemma built_append : built (<[k := (ty, c ++ p)]> fl) s' v'.
Proof.
  constructor.
  - apply Hap.
  - rewrite length_insert, (ap_ino _ _ _ _ _ _ _ Hap). apply Hb.
  - rewrite length_insert. apply Hb.
  - rewrite length_insert, (ap_len _ _ _ _ _ _ _ Hap). apply Hb.
  - intros j tj cj. destruct (decide (j = k)) as [->|Hj].
    + rewrite list_lookup_insert_eq by (by eapply lookup_lt_Some). intros [= <- <-]. eexists. apply append_slot.
    + rewrite list_lookup_insert_ne by done. intros E. destruct (bu_file _ _ _ Hb _ _ _ E) as [jp Hjp].
      exists jp. by apply append_others.
  - apply append_disj.
  - rewrite (ap_free _ _ _ _ _ _ _ Hap), (bu_free _ _ _ Hb), (so_size _ _ _ _ _ Hso).
    rewrite (psum_insert _ _ _ _ _ Hk). cbn. rewrite length_app, Nat2Z.inj_add. lia.
Qed.
End Append.

Lemma ino_ok_small s v n : sim s v → 0 ≤ n ≤ 200 → ino_ok v n.
Proof.
  intros Hs Hn. unfold ino_ok, IBLOCK, IPB. rewrite (sm_sb _ _ Hs). lay. rewrite Ebm, Ein.
  split_and!; [lia|lia|]. assert (n / 8 < 26) by (apply Z.div_lt_upper_bound; lia). lia.
Qed.

Section Ialloc.
Context (fl : list mfile) (s : mkst) (v : fsys) (ty : Z).
Context (Hb : built fl s v) (Hlt : (length fl < 199)%nat) (Hty : ty = T_DIR ∨ ty = T_FILE).

Local Abbreviation n := (1 + Z.of_nat (length fl)).
Definition fresh_inode : inode := (blank n) <| type := ty |> <| nlink := 1 |> <| size := 0 |>.
Definition with_fresh : fsys := v <| icache := icache v ++ [fresh_inode] |>.
Local Abbreviation ip := fresh_inode.
Local Abbreviation v' := (updated fresh_inode with_fresh).

Lemma fresh_wf : inode_wf ip.
Proof.
  constructor; cbn; try lia; try done.
  - destruct Hty as [-> | ->]; unfold T_DIR, T_FILE; lia.
  - repeat constructor; done.
Qed.

Lemma fresh_ino s1 v1 : sim s1 v1 → ino_ok v1 n.
Proof. intros. apply (ino_ok_small s1); [done|lia]. Qed.

Lemma fresh_dinode m jp : 0 ≤ m → dinode_at v' m jp = if decide (m = n) then copy_dinode ip jp else dinode_at v m jp.
Proof.
  intros Hm. etrans; [apply dinode_at_updated; [apply wf_icache, Hb|apply fresh_wf|done|cbn; lia]|done].
Qed.

Lemma fresh_slot_old j : (j < length fl)%nat → icache v' !! j = icache v !! j.
Proof. intros Hj. cbn. rewrite lookup_app_l; [done|]. by rewrite (bu_len _ _ _ Hb). Qed.

Lemma fresh_meta j : (j < length fl)%nat → meta_change j v v'.
Proof.
  intros Hj. destruct (fresh_ino s v (bu_sim _ _ _ Hb)) as (? & ? & Hlow). constructor; try done.
  - unfold faddrs. by rewrite fresh_slot_old.
  - intros x Hx. cbn. rewrite upd_ne; [done|]. pose proof (data_above v x (sm_wf _ _ (bu_sim _ _ _ Hb)) Hx). lia.
  - intros x Hx. unfold updated. etrans; [apply bit_low; [lia|done]|done].
Qed.

Lemma fresh_old j tj cj jp : (j < length fl)%nat → slot_ok v j tj cj jp → slot_ok v' j tj cj jp ∧ ∀ π, vpath π → node v' j π = node v j π.
Proof.
  intros Hj Hso. pose proof (so_inv _ _ _ _ _ Hso) as Hinv. pose proof (fresh_meta j Hj) as Hm. pose proof (sm_wf _ _ (bu_sim _ _ _ Hb)) as Hwf.
  pose proof (so_inum _ _ _ _ _ Hso) as Hin. pose proof (fv_ok _ _ _ Hinv) as Hok.
  assert (Hn : ∀ π, vpath π → node v' j π = node v j π) by (intros π; by apply (meta_node v v' j Hok Hm)).
  assert (Hd : ∀ kp, dinode_at v' (inum jp) kp = dinode_at v (inum jp) kp) by (intros kp; rewrite fresh_dinode by lia; by rewrite decide_False by lia).
  split; [|done]. constructor; try apply Hso.
  - constructor; try apply Hinv.
    + apply wf_put_low; [by apply wf_icache|apply (fresh_ino s v), Hb|]. apply is_block_put_dinode, Hwf.
    + by apply (meta_file_ok v v' j Hok Hm).
    + rewrite fresh_slot_old by done. apply Hinv.
    + intros x Hx. rewrite Hn; [by apply Hinv|]. apply fpath_valid, block_of. pose proof (fv_size _ _ _ Hinv). lia.
    + unfold synced. rewrite Hd. apply Hinv.
  - rewrite Hd. apply Hso.
  - destruct (so_tidy _ _ _ _ _ Hso) as [Ht1 Ht2]. split.
    + intros m Hm'. rewrite Hn by (by apply fpath_valid, low_path). by apply Ht1.
    + rewrite Hn by apply vpath10. done.
  - intros x Hx. rewrite (meta_fbyte v v' j Hok Hm); [by apply Hso|done].
Qed.

Lemma fresh_lookup : icache v' !! length fl = Some ip.
Proof. cbn. rewrite lookup_app_r by by rewrite (bu_len _ _ _ Hb). by rewrite (bu_len _ _ _ Hb), Nat.sub_diag. Qed.

Lemma fresh_faddrs : faddrs v' (length fl) = replicate 13 0.
Proof. unfold faddrs. by rewrite fresh_lookup. Qed.

Lemma fresh_new : slot_ok v' (length fl) ty [] ip.
Proof.
  pose proof (sm_wf _ _ (bu_sim _ _ _ Hb)) as Hwf. constructor; try done.
  - constructor; try done.
    + apply wf_put_low; [by apply wf_icache|apply (fresh_ino s v), Hb|]. apply is_block_put_dinode, Hwf.
    + apply file_ok_empty, fresh_faddrs.
    + apply fresh_lookup.
    + cbn. destruct Hty as [-> | ->]; done.
    + apply fresh_wf.
    + apply (fresh_ino s v), Hb.
    + intros x Hx. cbn in Hx. lia.
    + unfold synced. rewrite fresh_dinode by (cbn; lia). by rewrite decide_True.
  - rewrite fresh_dinode by (cbn; lia). by rewrite decide_True.
  - cbn. lia.
  - split; [intros m Hm|]; rewrite empty_node by apply fresh_faddrs; (split; [done|]); change (nb (size ip)) with 0; lia.
  - intros x Hx. unfold fbyte, fblock. rewrite empty_node by apply fresh_faddrs. change (0 =? 0) with true. cbv iota.
    unfold byte, zeros. destruct (_ !! _) eqn:E; [|done]. by apply lookup_replicate in E as [-> _].
Qed.

Lemma ialloc_ok : returns (ialloc ty) s (λ m s', m = n ∧ ∃ v', built (fl ++ [(ty, [])]) s' v').
Proof.
  unfold ialloc. mgo. rewrite (bu_ino _ _ _ Hb). rewrite u32_small by (unfold two32; lia).
  set (s1 := s <| freeinode := _ |>). change ((blank n) <| type := ty |> <| nlink := 1 |> <| size := 0 |>) with fresh_inode.
  assert (Hs1 : sim s1 with_fresh) by (apply sim_icache; by destruct (bu_sim _ _ _ Hb)).
  eapply returns_mono; [apply (winode_ok s1 with_fresh fresh_inode); [done|by apply (fresh_ino s1)]|].
  intros [] s2 (Hs2 & Hf2 & Hi2). mgo. split; [done|]. exists v'.
  assert (Hold : ∀ j π, vpath π → node v' j π ≠ 0 → node v' j π = node v j π).
  { intros j π Hv Hz. pose proof (node_slot _ _ _ Hz) as Hj. cbn in Hj. rewrite length_app, (bu_len _ _ _ Hb) in Hj. cbn in Hj.
    destruct (decide (j = length fl)) as [->|]; [by rewrite empty_node in Hz by apply fresh_faddrs|].
    destruct (built_slot _ _ _ j Hb) as (tj & cj & jp & _ & Hso); [rewrite (bu_len _ _ _ Hb); lia|].
    apply (fresh_old j tj cj jp); [lia|done|done]. }
  constructor.
  - done.
  - rewrite Hi2, length_app. cbn. lia.
  - rewrite length_app. cbn. lia.
  - cbn. rewrite !length_app, (bu_len _ _ _ Hb). done.
  - intros j tj cj [[Hj E]|[-> [= <- <-]]]%lookup_snoc_Some; [|eexists; apply fresh_new].
    destruct (bu_file _ _ _ Hb _ _ _ E) as [jp Hjp]. exists jp. by apply fresh_old.
  - intros j k π ρ Hπ Hρ Hz E. assert (Hz2 : node v' k ρ ≠ 0) by congruence.
    apply (bu_disj _ _ _ Hb j k π ρ); [done..| |]; rewrite <- !Hold by done; congruence.
  - rewrite Hf2, psum_app. change (freeblock s1) with (freeblock s). rewrite (bu_free _ _ _ Hb). change (psum _ [(ty, [])]) with 0. lia.
Qed.
End Ialloc.

(** ** The program *)

Lemma append_built fl s v k ty c p : built fl s v → fl !! k = Some (ty, c) → p ≠ [] → Forall (λ x, 0 ≤ x < 256) p →
  Z.of_nat (length c) + Z.of_nat (length p) ≤ MAXAPPEND →
  freeblock s + need (Z.of_nat (length c) + Z.of_nat (length p)) - need (Z.of_nat (length c)) ≤ FSSIZE →
  returns (iappend (Z.of_nat k + 1) p) s (λ _ s', ∃ v', built (<[k := (ty, c ++ p)]> fl) s' v').
Proof.
  intros Hb Hk Hp Hbytes Hmax Hfree. destruct (bu_file _ _ _ Hb _ _ _ Hk) as [ip Hso].
  rewrite <- (so_inum _ _ _ _ _ Hso). rewrite <- (so_size _ _ _ _ _ Hso) in Hmax, Hfree.
  eapply returns_mono; [apply (iappend_ok k ip p s v); try done; try apply Hso; apply Hb|].
  intros [] s' (v' & Hap). exists v'. by eapply built_append.
Qed.

Definition blocks_of (fl : list mfile) : Z := nmeta + psum (λ f : mfile, need (Z.of_nat (length f.2))) fl.

(** All the pieces of a file, which is the last one of the image. *)
Lemma append_all_ok pieces : ∀ fl c s v, built (fl ++ [(T_FILE, c)]) s v →
  Forall (λ p, p ≠ [] ∧ Forall (λ x, 0 ≤ x < 256) p) pieces → Z.of_nat (length (c ++ concat pieces)) ≤ MAXAPPEND →
  blocks_of (fl ++ [(T_FILE, c ++ concat pieces)]) ≤ FSSIZE →
  returns (append_all (Z.of_nat (length fl) + 1) pieces) s (λ _ s', ∃ v', built (fl ++ [(T_FILE, c ++ concat pieces)]) s' v').
Proof.
  unfold blocks_of. induction pieces as [|p pieces IH]; intros fl c s v Hb Hp Hmax Hfree; cbn [append_all concat] in *.
  { apply returns_ret. exists v. by rewrite app_nil_r. }
  apply Forall_cons in Hp as [[Hne Hby] Hp]. rewrite psum_app in Hfree. cbn in Hfree. rewrite !length_app in Hfree, Hmax.
  assert (Hm : need (Z.of_nat (length c) + Z.of_nat (length p)) ≤ need (Z.of_nat (length c + (length p + length (concat pieces)))))
    by (apply need_mono; lia).
  apply returns_bind. eapply returns_mono.
  - apply (append_built _ s v (length fl) T_FILE c p Hb); [by rewrite list_lookup_middle|done|done|lia|].
    rewrite (bu_free _ _ _ Hb), psum_app. cbn. lia.
  - intros [] s1 (v1 & Hb1). rewrite insert_app_r_alt, Nat.sub_diag in Hb1 by lia. cbn in Hb1.
    eapply returns_mono; [apply (IH fl (c ++ p) s1 v1 Hb1 Hp)|].
    + rewrite <- app_assoc, !length_app. lia.
    + rewrite psum_app. cbn. rewrite <- app_assoc, !length_app. lia.
    + intros [] s2 (v2 & Hb2). exists v2. by rewrite <- app_assoc in Hb2.
Qed.

Definition strip (name : list Z) : list Z :=
  match name with c :: rest => if c =? UNDERSCORE then rest else name | [] => name end.

(** A file on the command line that mkfs can copy. *)
Definition input_ok (f : list Z * list (list Z)) : Prop :=
  (SLASH ∉ f.1) ∧ Forall (λ x, 0 ≤ x < 256) f.1 ∧
  Forall (λ p, p ≠ [] ∧ Forall (λ x, 0 ≤ x < 256) p) f.2 ∧ Z.of_nat (length (concat f.2)) ≤ MAXAPPEND.

Lemma strip_byte name : Forall (λ x, 0 ≤ x < 256) name → Forall (λ x, 0 ≤ x < 256) (strip name).
Proof. intros Hn. destruct Hn as [|c name Hc Hn]; [done|]. cbn. case_match; [done|by constructor]. Qed.

(** The image: the root directory, and then the files in order. *)
Fixpoint root_entries (n : Z) (fs : list (list Z * list (list Z))) : list Z :=
  match fs with [] => [] | f :: fs => mk_dirent (strip f.1) n ++ root_entries (n + 1) fs end.

Definition copies (fs : list (list Z * list (list Z))) : list mfile := (λ f, (T_FILE, concat f.2)) <$> fs.

Definition image (r : list Z) (l : list mfile) : list mfile := (T_DIR, r) :: l.

Lemma root_entries_length n fs : length (root_entries n fs) = (16 * length fs)%nat.
Proof. revert n. induction fs as [|f fs IH]; intros n; cbn [root_entries length]; [done|]. rewrite length_app, length_mk_dirent, IH. lia. Qed.

Lemma blocks_of_image r l : blocks_of (image r l) = nmeta + need (Z.of_nat (length r)) + psum (λ f : mfile, need (Z.of_nat (length f.2))) l.
Proof. unfold blocks_of. cbn. lia. Qed.

Lemma blocks_of_snoc r l f : blocks_of (image r l ++ [f]) =
  nmeta + need (Z.of_nat (length r)) + psum (λ f : mfile, need (Z.of_nat (length f.2))) l + need (Z.of_nat (length f.2)).
Proof. change (image r l ++ [f]) with (image r (l ++ [f])). rewrite blocks_of_image, psum_app. cbn [psum]. lia. Qed.

Lemma need_nonneg z : 0 ≤ z → 0 ≤ need z.
Proof. intros Hz. unfold need. assert (0 ≤ nb z) by (apply Z.div_pos; lia). case_match; lia. Qed.

Lemma add_file_ok r l f s v : built (image r l) s v → input_ok f → (length l < 198)%nat →
  Z.of_nat (length r) + 16 ≤ MAXAPPEND →
  nmeta + need (Z.of_nat (length r) + 16) + psum (λ f : mfile, need (Z.of_nat (length f.2))) l +
    need (Z.of_nat (length (concat f.2))) ≤ FSSIZE →
  returns (add_file 1 f) s (λ _ s', ∃ v',
    built (image (r ++ mk_dirent (strip f.1) (Z.of_nat (length l) + 2)) (l ++ [(T_FILE, concat f.2)])) s' v').
Proof.
  destruct f as [name pieces]. cbn [fst snd]. intros Hb (Hsl & Hn & Hp & Hmax) Hlen Hr Hfree. unfold add_file, assert.
  rewrite bool_decide_eq_true_2 by done. fold (strip name). mgo.
  eapply returns_mono; [apply (ialloc_ok _ s v T_FILE Hb); [cbn; lia|by right]|]. intros m s1 (-> & v1 & Hb1). mgo.
  replace (1 + Z.of_nat (length (image r l))) with (Z.of_nat (length l) + 2) by (cbn; lia).
  pose proof (mk_dirent_bytes (strip name) (Z.of_nat (length l) + 2) (strip_byte _ Hn)) as Hd.
  pose proof (length_mk_dirent (strip name) (Z.of_nat (length l) + 2)) as Hdl. set (de := mk_dirent _ _) in *. clearbody de.
  pose proof (need_nonneg (Z.of_nat (length (concat pieces))) ltac:(lia)).
  eapply returns_mono.
  { apply (append_built _ s1 v1 0 T_DIR r de Hb1 eq_refl); [by intros E; rewrite E in Hdl|done|lia|].
    rewrite (bu_free _ _ _ Hb1). fold (blocks_of (image r l ++ [(T_FILE, [])])). rewrite blocks_of_snoc, Hdl.
    change (need (Z.of_nat (length (T_FILE, []).2))) with 0. change (Z.of_nat 16) with 16. lia. }
  intros [] s2 (v2 & Hb2). cbn [insert list_insert image app] in Hb2.
  replace (Z.of_nat (length l) + 2) with (Z.of_nat (length (image (r ++ de) l)) + 1) by (cbn; lia).
  eapply returns_mono; [apply (append_all_ok pieces (image (r ++ de) l) [] s2 v2 Hb2 Hp Hmax)|by eauto].
  rewrite app_nil_l, blocks_of_snoc, length_app, Nat2Z.inj_add, Hdl. cbn [snd]. change (Z.of_nat 16) with 16. lia.
Qed.

Lemma add_files_ok fs : ∀ r l s v, built (image r l) s v → Forall input_ok fs → (length l + length fs ≤ 198)%nat →
  Z.of_nat (length r) + 16 * Z.of_nat (length fs) ≤ MAXAPPEND →
  blocks_of (image (r ++ root_entries (Z.of_nat (length l) + 2) fs) (l ++ copies fs)) ≤ FSSIZE →
  returns (add_files 1 fs) s (λ _ s', ∃ v',
    built (image (r ++ root_entries (Z.of_nat (length l) + 2) fs) (l ++ copies fs)) s' v').
Proof.
  induction fs as [|f fs IH]; intros r l s v Hb Hin Hlen Hr Hfree; cbn [add_files root_entries copies fmap list_fmap length] in *.
  { apply returns_ret. exists v. by rewrite !app_nil_r. }
  apply Forall_cons in Hin as [Hf Hin]. rewrite blocks_of_image, !length_app, length_mk_dirent, root_entries_length, psum_app in Hfree.
  cbn [psum snd] in Hfree. fold (copies fs) in *.
  assert (Hrest : 0 ≤ psum (λ f : mfile, need (Z.of_nat (length f.2))) (copies fs)).
  { apply psum_nonneg. intros i x _. apply need_nonneg. lia. }
  pose proof (need_mono (Z.of_nat (length r) + 16) (Z.of_nat (length r + (16 + 16 * length fs))) ltac:(lia)).
  apply returns_bind. eapply returns_mono; [apply (add_file_ok r l f s v Hb Hf); [lia|lia|lia]|].
  intros [] s1 (v1 & Hb1). set (de := mk_dirent _ _) in *.
  assert (El : Z.of_nat (length (l ++ [(T_FILE, concat f.2)])) + 2 = Z.of_nat (length l) + 2 + 1) by (rewrite length_app; cbn; lia).
  assert (Ed : length de = 16%nat) by apply length_mk_dirent.
  eapply returns_mono; [apply (IH (r ++ de) (l ++ [(T_FILE, concat f.2)]) s1 v1 Hb1 Hin)|].
  - rewrite length_app. cbn. lia.
  - rewrite length_app. lia.
  - rewrite El, blocks_of_image, !length_app, root_entries_length, <- app_assoc, psum_app, Ed. cbn [psum snd app].
    rewrite <- Nat.add_assoc. lia.
  - intros [] s2 (v2 & Hb2). exists v2. rewrite El, <- !app_assoc in Hb2. exact Hb2.
Qed.

(** ** The bitmap *)

Lemma bm_byte_small x : 0 ≤ x < 4096 → (bm_byte x < 512)%nat.
Proof. intros Hx. unfold bm_byte. assert (x / 8 < 512) by (apply Z.div_lt_upper_bound; lia). pose proof (Z.div_pos x 8). lia. Qed.

Lemma bm_index x y : 0 ≤ x → 0 ≤ y → bm_byte x = bm_byte y → x mod 8 = y mod 8 → x = y.
Proof.
  unfold bm_byte. intros Hx Hy Hb Hm. pose proof (Z.div_mod x 8). pose proof (Z.div_mod y 8).
  apply Z2Nat.inj in Hb; [lia|apply Z.div_pos; lia..].
Qed.

Lemma mark_ok n : ∀ i buf, is_block buf → 0 ≤ i → i + Z.of_nat n ≤ 4096 → is_block (mark n i buf) ∧
  ∀ x, 0 ≤ x < 4096 → Z.testbit (byte (mark n i buf) (bm_byte x)) (x mod 8) =
    ((i <=? x) && (x <? i + Z.of_nat n)) || Z.testbit (byte buf (bm_byte x)) (x mod 8).
Proof.
  induction n as [|n IH]; intros i buf Hblk Hi Hn; cbn [mark].
  { split; [done|]. intros x Hx. destruct (Z.leb_spec i x), (Z.ltb_spec x (i + Z.of_nat 0)); done || lia. }
  fold (bm_byte i). fold (bm_mask i). set (buf' := <[bm_byte i := Z.lor (byte buf (bm_byte i)) (bm_mask i)]> buf).
  assert (Hblk' : is_block buf') by (apply is_block_insert; [done|apply lor_byte; [by apply byte_range|done]]).
  destruct (IH (i + 1) buf' Hblk') as [IH1 IH2]; [lia|lia|]. split; [done|]. intros x Hx. rewrite IH2 by done.
  replace (i + 1 + Z.of_nat n) with (i + Z.of_nat (S n)) by lia.
  assert (Hb : Z.testbit (byte buf' (bm_byte x)) (x mod 8) = (x =? i) || Z.testbit (byte buf (bm_byte x)) (x mod 8)).
  { unfold buf'. destruct (decide (bm_byte i = bm_byte x)) as [E|E].
    - rewrite <- E, byte_insert_eq, set_bits by (done || by destruct Hblk as [-> _]; apply bm_byte_small; lia).
      destruct (Z.eqb_spec (x mod 8) (i mod 8)) as [Em|Em], (Z.eqb_spec x i) as [Ex|Ex]; try done; [|by subst].
      destruct Ex. apply bm_index; [lia|done|done|done].
    - rewrite byte_insert_ne by done. destruct (Z.eqb_spec x i); [by subst|done]. }
  rewrite Hb. destruct (Z.eqb_spec x i), (Z.leb_spec (i + 1) x), (Z.leb_spec i x), (Z.ltb_spec x (i + Z.of_nat (S n))); try lia; done.
Qed.

Lemma byte_zeros k : byte zeros k = 0.
Proof. unfold byte, zeros. destruct (_ !! _) eqn:E; [|done]. by apply lookup_replicate in E as [-> _]. Qed.

Definition bitmap (used : Z) : blk := mark (Z.to_nat used) 0 zeros.

(** The bits of a file system whose first bitmap block is [bitmap used] and whose other
    ones are empty. *)
Lemma bitmap_bit v used b : sb v = sblock → 0 ≤ used < 4096 → 0 ≤ b < FSSIZE →
  blocks v (sb_bmapstart sblock) = bitmap used → (∀ x, sb_bmapstart sblock < x < nmeta → blocks v x = zeros) →
  bit v b = (b <? used).
Proof.
  intros Hsb Hu Hb H0 Hz. lay. unfold bit, BBLOCK. rewrite Hsb. unfold BPB. pose proof (Z.div_mod b 4096).
  destruct (decide (b < 4096)) as [Hlt|Hge].
  - rewrite Z.div_small, Z.mod_small by lia. rewrite Z.add_0_l, H0. unfold bitmap.
    destruct (mark_ok (Z.to_nat used) 0 zeros is_block_zeros) as [_ Hm]; [lia|lia|]. rewrite Hm by lia.
    rewrite byte_zeros, Z.bits_0, orb_false_r. rewrite Z2Nat.id, Z.add_0_l by lia. rewrite (proj2 (Z.leb_le 0 b)) by lia. done.
  - assert (0 < b / 4096 < 10). { split; [apply Z.div_str_pos; lia|apply Z.div_lt_upper_bound; lia]. }
    rewrite Hz by lia. rewrite byte_zeros, Z.bits_0. symmetry. apply Z.ltb_ge. lia.
Qed.

(** ** The empty image *)

Definition fresh_fs : fsys :=
  let bl := λ b, if decide (b = sb_bmapstart sblock) then bitmap nmeta else if decide (b = 1) then put_sb zeros sblock else zeros in
  Fs.mkfs bl bl ∅ ∅ FSSIZE sblock [] 0 0.

Lemma is_block_put_sb d sb : is_block d → is_block (put_sb d sb).
Proof. intros Hd. unfold put_sb. by repeat apply is_block_put32. Qed.

Lemma is_block_bitmap used : 0 ≤ used ≤ 4096 → is_block (bitmap used).
Proof. intros Hu. apply mark_ok; [apply is_block_zeros|lia|lia]. Qed.

Lemma fresh_bit b : 0 ≤ b < FSSIZE → bit fresh_fs b = (b <? nmeta).
Proof.
  intros Hb. lay. apply bitmap_bit; [done|lia|done| |].
  - cbn. by rewrite decide_True.
  - intros x Hx. cbn [blocks fresh_fs]. by rewrite !decide_False by lia.
Qed.

Lemma fresh_fs_wf : fs_wf fresh_fs.
Proof.
  lay. constructor.
  - intros b. cbn [blocks fresh_fs]. case_decide; [apply is_block_bitmap; lia|]. case_decide; [apply is_block_put_sb|]; apply is_block_zeros.
  - cbn [sb fresh_fs]. lia.
  - change (0 ≤ FSSIZE ≤ FSSIZE ∧ FSSIZE < 2147483648). lia.
  - change (datastart sblock ≤ FSSIZE). lia.
  - intros b Hb. change (0 ≤ b < datastart sblock) in Hb. rewrite fresh_bit by lia. apply Z.ltb_lt. lia.
  - intros b Hb. cbn in Hb. set_solver.
  - intros b _. by right.
Qed.

Lemma start_ok s : (∀ b, 0 ≤ b < FSSIZE → img s b = zeros) → freeinode s = 1 → freeblock s = nmeta →
  built [] (s <| img := upd (img s) 1 (put_sb zeros sblock) |>) fresh_fs.
Proof.
  intros Hz Hi Hf. lay. constructor; try done; [|cbn; lia|intros j k π ρ _ _ Hn; apply node_slot in Hn; cbn in Hn; lia].
  constructor; try done.
  - apply fresh_fs_wf.
  - intros b [Hb Hnb]. cbn [img set blocks fresh_fs]. unfold upd. destruct (decide (b = 1)) as [->|]; [by rewrite decide_False by lia|].
    rewrite decide_False by lia. by apply Hz.
  - intros b Hb. rewrite fresh_bit by done. cbn. by rewrite Hf.
  - intros b Hb. cbn in *. rewrite upd_ne by lia. apply Hz. lia.
  - intros b Hb. cbn. rewrite upd_ne by lia. apply Hz. lia.
  - cbn. lia.
Qed.

(** ** The finished image *)

(** The image as the kernel finds it: its blocks, its superblock, and the first [n] inodes
    as [ilock] reads them. *)
Definition mount (n : nat) (s : mkst) : fsys :=
  let bl := λ b, if decide (0 ≤ b < FSSIZE) then img s b else zeros in
  let sb := get_sb (bl 1) in
  Fs.mkfs bl bl ∅ ∅ FSSIZE sb
    ((λ i, get_dinode (bl (IBLOCK i sb)) (dinode_off i) (blank i)) <$> seqZ 1 (Z.of_nat n)) 0 0.

Lemma get_put_sb : get_sb (put_sb zeros sblock) = sblock.
Proof. vm_compute. reflexivity. Qed.

Section Final.
Context (fl : list mfile) (s s1 : mkst) (v : fsys) (c0 : list Z) (ip0 : inode) (off : Z).
Context (Hb : built fl s v) (H0 : slot_ok v 0 T_DIR c0 ip0) (Hlen : (0 < length fl)%nat) (Hoff : 0 ≤ off < two32).
Local Abbreviation ip0' := (ip0 <| size := off |>).
Context (Hs1 : sim s1 (updated ip0' v)) (Hf1 : freeblock s1 = freeblock s) (Hused : freeblock s < 4096).

Definition final_state : mkst := s1 <| img := upd (img s1) (sb_bmapstart sblock) (bitmap (freeblock s1)) |>.
Local Abbreviation V := (mount (length fl) final_state).

Lemma final_super : img final_state 1 = put_sb zeros sblock.
Proof. lay. cbn [img set final_state]. rewrite upd_ne by lia. apply Hs1. Qed.

Lemma final_sb : sb V = sblock.
Proof. lay. cbn [sb mount]. rewrite decide_True by lia. rewrite final_super. apply get_put_sb. Qed.

Lemma final_plain b : plain b → blocks V b = blocks (updated ip0' v) b.
Proof.
  intros [Hr Hn]. lay. cbn [blocks mount]. rewrite decide_True by done. cbn [img set final_state]. rewrite upd_ne by lia.
  by apply (sm_img _ _ Hs1).
Qed.

Lemma final_bit b : 0 ≤ b < FSSIZE → bit V b = (b <? freeblock s).
Proof.
  intros Hr. lay. pose proof (sm_free _ _ Hs1). rewrite <- Hf1. apply bitmap_bit; [apply final_sb|lia|done| |].
  - cbn [blocks mount]. rewrite decide_True by lia. cbn [img set final_state]. by rewrite upd_eq.
  - intros x Hx. cbn [blocks mount]. rewrite decide_True by lia. cbn [img set final_state]. rewrite upd_ne by lia.
    apply (sm_bmap _ _ Hs1). lia.
Qed.

Lemma final_block b : is_block (blocks V b).
Proof.
  lay. pose proof (sm_free _ _ Hs1). destruct (decide (plain b)) as [Hp|Hp]; [rewrite final_plain by done; apply Hs1|].
  cbn [blocks mount]. case_decide as Hr; [|apply is_block_zeros]. cbn [img set final_state]. unfold upd.
  case_decide; [apply is_block_bitmap; lia|]. rewrite (sm_bmap _ _ Hs1); [apply is_block_zeros|]. unfold plain in Hp. lia.
Qed.

Lemma final_wf : fs_wf V.
Proof.
  lay. constructor; try done; rewrite ?final_sb.
  - apply final_block.
  - lia.
  - change (0 ≤ FSSIZE ≤ FSSIZE ∧ FSSIZE < 2147483648). lia.
  - change (datastart sblock ≤ FSSIZE). lia.
  - intros b Hr. rewrite final_bit by lia. apply Z.ltb_lt. pose proof (sm_free _ _ (bu_sim _ _ _ Hb)). lia.
  - intros b _. by right.
Qed.

Lemma final_inode_wf : inode_wf ip0'.
Proof. destruct (fv_inode _ _ _ (so_inv _ _ _ _ _ H0)). by constructor. Qed.

Lemma final_inum0 : inum ip0 = 1.
Proof. by rewrite (so_inum _ _ _ _ _ H0). Qed.

Lemma final_dinode m jp : 0 ≤ m ≤ 200 → dinode_at V m jp = if decide (m = 1) then copy_dinode ip0' jp else dinode_at v m jp.
Proof.
  intros Hm. pose proof (ino_ok_small s v m (bu_sim _ _ _ Hb) Hm) as Hino. pose proof (iblock_range v m Hino) as Hpos.
  destruct Hino as (_ & _ & Hlow). rewrite (sm_sb _ _ (bu_sim _ _ _ Hb)) in *.
  pose proof (dinode_at_updated ip0' v m jp ltac:(apply Hb) final_inode_wf ltac:(lia)) as Hu.
  change (inum ip0') with (inum ip0) in Hu. rewrite final_inum0 in Hu. rewrite <- Hu by lia.
  unfold dinode_at at 1. rewrite final_sb, final_plain by (unfold plain; lay; lia). unfold dinode_at.
  by rewrite (sm_sb _ _ Hs1).
Qed.

(** Slot [k] of the mounted image. *)
Lemma final_slot k : (k < length fl)%nat → icache V !! k = Some (dinode_at V (Z.of_nat k + 1) (blank (Z.of_nat k + 1))).
Proof.
  intros Hk. cbn [icache mount]. rewrite list_lookup_fmap, lookup_seqZ_lt by lia. cbn [fmap option_fmap option_map].
  by replace (1 + Z.of_nat k) with (Z.of_nat k + 1) by lia.
Qed.

Lemma final_data x : is_data v x → blocks V x = blocks v x.
Proof.
  intros Hx. pose proof (data_above v x (sm_wf _ _ (bu_sim _ _ _ Hb)) Hx) as Hab. rewrite (sim_data s v) in Hx by apply Hb.
  rewrite final_plain by by apply data_plain. pose proof (ino_ok_small s v 1 (bu_sim _ _ _ Hb) ltac:(lia)) as (_ & _ & Hlow).
  unfold updated. cbn [blocks put_block set]. change (inum ip0') with (inum ip0). rewrite final_inum0, upd_ne; [done|]. lia.
Qed.

Lemma final_load k ty c ip : fl !! k = Some (ty, c) → slot_ok v k ty c ip → (0 < k)%nat →
  ∀ jp, dinode_at V (inum ip) jp = dinode_at v (inum ip) jp.
Proof.
  intros Hk Hso Hpos jp. pose proof (bu_max _ _ _ Hb). apply lookup_lt_Some in Hk. rewrite (so_inum _ _ _ _ _ Hso).
  rewrite final_dinode by lia. by rewrite decide_False by lia.
Qed.

Lemma final_meta k ty c ip : fl !! k = Some (ty, c) → slot_ok v k ty c ip → meta_change k v V.
Proof.
  intros Hk Hso. pose proof (lookup_lt_Some _ _ _ Hk) as Hlt. constructor.
  - unfold faddrs. rewrite final_slot, (fv_slot _ _ _ (so_inv _ _ _ _ _ Hso)) by done.
    destruct (decide (k = 0%nat)) as [->|Hne].
    + rewrite final_dinode, decide_True by (done || lia). cbn. pose proof (fv_slot _ _ _ (so_inv _ _ _ _ _ Hso)) as E1.
      rewrite (fv_slot _ _ _ (so_inv _ _ _ _ _ H0)) in E1. by injection E1 as ->.
    + rewrite <- (so_inum _ _ _ _ _ Hso). rewrite (final_load k ty c ip) by (done || lia). by rewrite (so_load _ _ _ _ _ Hso).
  - apply final_data.
  - intros x Hx. rewrite (sm_sb _ _ (bu_sim _ _ _ Hb)) in Hx. rewrite final_bit, (sm_bit _ _ (bu_sim _ _ _ Hb)) by done. done.
  - by rewrite (sm_held _ _ (bu_sim _ _ _ Hb)).
  - by rewrite final_sb, (sm_sb _ _ (bu_sim _ _ _ Hb)).
Qed.

Lemma final_node k ty c ip π : fl !! k = Some (ty, c) → slot_ok v k ty c ip → vpath π → node V k π = node v k π.
Proof. intros Hk Hso. apply meta_node; [apply Hso|by eapply final_meta]. Qed.

(** Every file but the root directory is there. *)
Lemma final_file k ty c : fl !! k = Some (ty, c) → (0 < k)%nat → ∃ ip, slot_ok V k ty c ip.
Proof.
  intros Hk Hpos. destruct (bu_file _ _ _ Hb _ _ _ Hk) as [ip Hso]. exists ip. pose proof (final_meta _ _ _ _ Hk Hso) as Hm.
  pose proof (so_inv _ _ _ _ _ Hso) as Hinv. pose proof (fv_ok _ _ _ Hinv) as Hok. pose proof (lookup_lt_Some _ _ _ Hk) as Hlt.
  assert (Hn : ∀ π, vpath π → node V k π = node v k π) by (intros π; by eapply final_node).
  pose proof (final_load k ty c ip Hk Hso Hpos) as Hd. constructor; try apply Hso.
  - constructor; try apply Hinv.
    + apply final_wf.
    + apply (meta_file_ok v V k Hok Hm). apply Hinv.
    + rewrite final_slot, <- (so_inum _ _ _ _ _ Hso), Hd by done. by rewrite (so_load _ _ _ _ _ Hso).
    + unfold ino_ok. rewrite (mc_sb _ _ _ Hm). apply Hinv.
    + intros x Hx. rewrite Hn; [by apply Hinv|]. apply fpath_valid, block_of. pose proof (fv_size _ _ _ Hinv). lia.
    + unfold synced. rewrite Hd. apply Hinv.
  - rewrite Hd. apply Hso.
  - destruct (so_tidy _ _ _ _ _ Hso) as [Ht1 Ht2]. split.
    + intros m Hm'. rewrite Hn by (by apply fpath_valid, low_path). by apply Ht1.
    + rewrite Hn by apply vpath10. done.
  - intros x Hx. rewrite (meta_fbyte v V k Hok Hm); [by apply Hso|done].
Qed.

Lemma final_disj j k π ρ : vpath π → vpath ρ → node V j π ≠ 0 → node V j π = node V k ρ → j = k.
Proof.
  assert (Hold : ∀ j π, vpath π → node V j π ≠ 0 → node V j π = node v j π).
  { intros j1 π1 Hv Hz. pose proof (node_slot _ _ _ Hz) as Hj. cbn [icache mount] in Hj. rewrite length_fmap, length_seqZ, Nat2Z.id in Hj.
    rewrite <- (bu_len _ _ _ Hb) in Hj. destruct (built_slot _ _ _ j1 Hb Hj) as (tj & cj & jp & E & Hso). by eapply final_node. }
  intros Hπ Hρ Hz E. assert (Hz2 : node V k ρ ≠ 0) by congruence.
  apply (bu_disj _ _ _ Hb j k π ρ); [done..| |]; rewrite <- !Hold by done; congruence.
Qed.

(** The root directory, with its size rounded up. *)
Lemma final_root : fl !! 0%nat = Some (T_DIR, c0) → Z.of_nat (length c0) + 512 ≤ MAXAPPEND → Z.of_nat (length c0) mod 512 ≠ 0 →
  off = (Z.of_nat (length c0) / 512 + 1) * 512 →
  dir_inv V 0 ip0' ∧ ∀ x, 0 ≤ x < NBYTES → fbyte V 0 x = byte c0 (Z.to_nat x).
Proof.
  intros Hk Hmax Hmod Eo. pose proof (final_meta _ _ _ _ Hk H0) as Hm. pose proof (so_inv _ _ _ _ _ H0) as Hinv.
  pose proof (fv_ok _ _ _ Hinv) as Hok. assert (HN : MAXAPPEND ≤ NBYTES) by (unfold MAXAPPEND, NBYTES, NDOUBLE, BSIZE; lia).
  pose proof (Z.div_mod (Z.of_nat (length c0)) 512). pose proof (Z.mod_pos_bound (Z.of_nat (length c0)) 512).
  split; [|intros x Hx; rewrite (meta_fbyte v V 0 Hok Hm); [by apply H0|done]]. split.
  - constructor; try apply Hinv.
    + apply final_wf.
    + apply (meta_file_ok v V 0 Hok Hm). apply Hinv.
    + rewrite final_slot, final_dinode, decide_True by (done || lia). f_equal. rewrite <- (so_load _ _ _ _ _ H0), final_inum0. done.
    + apply final_inode_wf.
    + unfold ino_ok. rewrite (mc_sb _ _ _ Hm). apply Hinv.
    + cbn. lia.
    + intros x Hx. cbn in Hx. assert (Hx' : 0 ≤ x / BSIZE < 138).
      { unfold MAXAPPEND, BSIZE in *. split; [apply Z.div_pos; lia|apply Z.div_lt_upper_bound; lia]. }
      rewrite (final_node _ _ _ _ _ Hk H0) by by apply fpath_valid, low_path. apply (proj1 (so_tidy _ _ _ _ _ H0)); [done|].
      rewrite (so_size _ _ _ _ _ H0). destruct (nb_chunk (Z.of_nat (length c0)) 1 ltac:(lia) ltac:(lia)) as [_ ->].
      rewrite decide_False by done. unfold BSIZE. apply Z.div_lt_upper_bound; lia.
    + unfold synced. change (inum ip0') with (inum ip0). rewrite final_inum0, final_dinode, decide_True by (done || lia).
      unfold copy_dinode. by destruct ip0.
  - apply H0.
  - cbn. rewrite Eo. replace ((Z.of_nat (length c0) / 512 + 1) * 512) with ((Z.of_nat (length c0) / 512 + 1) * 32 * 16) by lia.
    apply Z.mod_mul. lia.
Qed.
End Final.

(** ** The whole program *)

Definition root_bytes (fs : list (list Z * list (list Z))) : list Z :=
  (mk_dirent DOT 1 ++ mk_dirent DOTDOT 1) ++ root_entries 2 fs.
Definition image_of (fs : list (list Z * list (list Z))) : list mfile := image (root_bytes fs) (copies fs).
Definition root_size (fs : list (list Z * list (list Z))) : Z := (Z.of_nat (length (root_bytes fs)) / 512 + 1) * 512.

(** What mkfs is given: files that it can copy, not too many for the inodes, and small
    enough together for one block of bitmap. *)
Record inputs_ok (fs : list (list Z * list (list Z))) : Prop := {
  in_each : Forall input_ok fs;
  in_count : (length fs ≤ 198)%nat;
  in_blocks : blocks_of (image_of fs) < 4096
}.

Lemma root_bytes_length fs : length (root_bytes fs) = (32 + 16 * length fs)%nat.
Proof. unfold root_bytes. rewrite !length_app, !length_mk_dirent, root_entries_length. lia. Qed.

Lemma copies_length fs : length (copies fs) = length fs.
Proof. apply length_fmap. Qed.

Lemma zero_ok s : freeinode s = 1 → freeblock s = nmeta → returns (for_ (Z.to_nat FSSIZE) 0 (λ i, wsect i zeros)) s
  (λ _ s', (∀ b, 0 ≤ b < FSSIZE → img s' b = zeros) ∧ freeinode s' = 1 ∧ freeblock s' = nmeta).
Proof.
  intros Hi Hf. lay.
  eapply returns_mono; [apply (returns_for _ _ (λ i s', (∀ b, 0 ≤ b < i → img s' b = zeros) ∧ freeinode s' = 1 ∧ freeblock s' = nmeta))|].
  - split; [lia|done].
  - intros i s' Hr (Hz & H1 & H2). unfold wsect. apply returns_modify. split; [|done]. intros b Hb. cbn. unfold upd.
    case_decide; [done|]. apply Hz. lia.
  - intros [] s' (Hz & H1 & H2). split; [|done]. intros b Hb. apply Hz. lia.
Qed.

Lemma dots_bytes : Forall (λ x, 0 ≤ x < 256) (mk_dirent DOT 1) ∧ Forall (λ x, 0 ≤ x < 256) (mk_dirent DOTDOT 1).
Proof. split; apply mk_dirent_bytes; by repeat constructor. Qed.

Lemma dot_ok s v : built [(T_DIR, [])] s v →
  returns (iappend 1 (mk_dirent DOT 1)) s (λ _ s', ∃ v', built [(T_DIR, mk_dirent DOT 1)] s' v').
Proof.
  intros Hb. destruct dots_bytes as [B1 _]. apply (append_built _ s v 0 T_DIR [] (mk_dirent DOT 1) Hb eq_refl); [done|done|done|].
  rewrite (bu_free _ _ _ Hb). vm_compute. discriminate.
Qed.

Lemma dotdot_ok s v : built [(T_DIR, mk_dirent DOT 1)] s v →
  returns (iappend 1 (mk_dirent DOTDOT 1)) s (λ _ s', ∃ v', built (image (mk_dirent DOT 1 ++ mk_dirent DOTDOT 1) []) s' v').
Proof.
  intros Hb. destruct dots_bytes as [_ B2].
  apply (append_built _ s v 0 T_DIR (mk_dirent DOT 1) (mk_dirent DOTDOT 1) Hb eq_refl); [done|done|done|].
  rewrite (bu_free _ _ _ Hb). vm_compute. discriminate.
Qed.

Lemma main_ok fs s0 : freeinode s0 = 1 → inputs_ok fs →
  returns (main fs) s0 (λ _ s', ∃ s s1 v ip0, built (image_of fs) s v ∧ slot_ok v 0 T_DIR (root_bytes fs) ip0 ∧
    sim s1 (updated (ip0 <| size := root_size fs |>) v) ∧ freeblock s1 = freeblock s ∧ freeblock s < 4096 ∧ s' = final_state s1).
Proof.
  intros Hi [Hin Hcount Hblocks]. unfold main. lay. pose proof (root_bytes_length fs) as Hrl.
  apply returns_bind, returns_modify. apply returns_bind. eapply returns_mono; [by apply zero_ok|]. intros [] s1 (Hz & H1 & H2).
  apply returns_bind. unfold wsect at 1. apply returns_modify. apply returns_bind.
  eapply returns_mono; [apply (ialloc_ok [] _ fresh_fs T_DIR); [by apply start_ok|cbn; lia|by left]|].
  intros n s2 (-> & v2 & Hb2). change (1 + Z.of_nat (length [])) with 1. unfold assert. change (1 =? ROOTINO) with true. cbv iota.
  apply returns_bind, returns_ret. apply returns_bind. eapply returns_mono; [by eapply dot_ok|]. intros [] s3 (v3 & Hb3).
  apply returns_bind. eapply returns_mono; [by eapply dotdot_ok|]. intros [] s4 (v4 & Hb4).
  apply returns_bind. eapply returns_mono.
  { apply (add_files_ok fs _ [] s4 v4 Hb4 Hin); [cbn; lia|unfold MAXAPPEND; rewrite length_app, !length_mk_dirent; lia|].
    change (blocks_of (image_of fs) ≤ FSSIZE). lia. }
  intros [] s5 (v5 & Hb5). change (built (image_of fs) s5 v5) in Hb5. destruct (bu_file _ _ _ Hb5 0 _ _ eq_refl) as [ip0 H0].
  pose proof (so_inum _ _ _ _ _ H0) as Hin0. change (Z.of_nat 0 + 1) with 1 in Hin0.
  apply returns_bind. eapply returns_mono; [apply (rinode_ok s5 v5); [apply Hb5|rewrite <- Hin0; apply H0]|].
  intros din s6 [-> ->]. replace (dinode_at v5 1 (blank 1)) with ip0 by (rewrite <- Hin0; symmetry; apply H0). cbv zeta.
  replace ((size ip0 / BSIZE + 1) * BSIZE) with (root_size fs) by (rewrite (so_size _ _ _ _ _ H0); done).
  pose proof (winode_ok s5 v5 (ip0 <| size := root_size fs |>) ltac:(apply Hb5) ltac:(apply H0)) as Hw.
  change (inum (ip0 <| size := root_size fs |>)) with (inum ip0) in Hw. rewrite Hin0 in Hw.
  apply returns_bind. eapply returns_mono; [exact Hw|].
  intros [] s6 (Hs6 & Hf6 & _). apply returns_bind, returns_gets.
  assert (Hu : freeblock s5 < 4096) by (rewrite (bu_free _ _ _ Hb5); exact Hblocks).
  unfold balloc, assert. rewrite (proj2 (Z.ltb_lt _ (BSIZE * 8))) by (unfold BSIZE; lia). apply returns_bind, returns_ret.
  unfold wsect. apply returns_modify. by exists s5, s6, v5, ip0.
Qed.

(** The entries of the root directory. *)
Fixpoint file_entries (n : Z) (fs : list (list Z * list (list Z))) : list (list Z) :=
  match fs with [] => [] | f :: fs => mk_dirent (strip f.1) n :: file_entries (n + 1) fs end.
Definition root_list (fs : list (list Z * list (list Z))) : list (list Z) :=
  mk_dirent DOT 1 :: mk_dirent DOTDOT 1 :: file_entries 2 fs.

Lemma root_bytes_entries fs : root_bytes fs = concat (root_list fs).
Proof.
  unfold root_bytes, root_list. cbn [concat]. rewrite <- app_assoc. do 2 f_equal. generalize 2.
  induction fs as [|f fs IH]; intros n; cbn; [done|]. by rewrite IH.
Qed.

Lemma root_list_16 fs : Forall (λ e, length e = 16%nat) (root_list fs).
Proof.
  constructor; [apply length_mk_dirent|]. constructor; [apply length_mk_dirent|]. generalize 2.
  induction fs as [|f fs IH]; intros n; constructor; [apply length_mk_dirent|apply IH].
Qed.

Lemma root_list_length fs : length (root_list fs) = (2 + length fs)%nat.
Proof. unfold root_list. cbn. do 2 f_equal. generalize 2. induction fs as [|f fs IH]; intros n; cbn; [done|]. by rewrite IH. Qed.

Definition no_entry : list Z := replicate 16 0.

Lemma byte_concat es k j : Forall (λ e, length e = 16%nat) es → (j < 16)%nat →
  byte (concat es) (16 * k + j) = byte (default no_entry (es !! k)) j.
Proof.
  intros Hes Hj. revert k. induction Hes as [|e es He _ IH]; intros k.
  - cbn [concat]. unfold byte. rewrite !lookup_nil. change (default no_entry None) with (replicate 16 0). by rewrite lookup_replicate_2.
  - destruct k as [|k]; cbn [concat lookup list_lookup].
    + unfold byte. by rewrite lookup_app_l by lia.
    + rewrite <- IH. unfold byte. rewrite lookup_app_r by lia. do 2 f_equal. lia.
Qed.

Lemma dirents_concat v es m : (∀ x, 0 ≤ x < 16 * Z.of_nat m → fbyte v 0 x = byte (concat es) (Z.to_nat x)) →
  Forall (λ e, length e = 16%nat) es → (length es ≤ m)%nat →
  dirents v 0 (16 * Z.of_nat m) = es ++ replicate (m - length es) no_entry.
Proof.
  intros Hb Hes Hm. unfold dirents. replace (Z.to_nat (16 * Z.of_nat m / 16)) with m
    by (rewrite (Z.mul_comm 16), Z.div_mul by lia; lia).
  apply list_eq_same_length with (n := m).
  - rewrite length_app, length_replicate. lia.
  - by rewrite length_fmap, length_seq.
  - intros k e e' Hk He He'. rewrite list_lookup_fmap, lookup_seq_lt in He by lia. cbn in He. injection He as <-.
    assert (E' : e' = default no_entry (es !! k)).
    { destruct (decide (k < length es)%nat).
      - rewrite lookup_app_l in He' by done. by rewrite He'.
      - rewrite lookup_app_r in He' by lia. apply lookup_replicate in He' as [-> _]. by rewrite lookup_ge_None_2 by lia. }
    assert (Hl : length e' = 16%nat).
    { rewrite E'. destruct (es !! k) eqn:E; [|done]. by eapply Forall_lookup_1 in Hes. }
    unfold dirent_at. apply list_eq_same_length with (n := 16%nat); [done|by rewrite length_fmap, length_seqZ|].
    intros j x y Hj Hx Hy. rewrite list_lookup_fmap, lookup_seqZ_lt in Hx by lia. cbn in Hx. injection Hx as <-.
    rewrite Hb by lia. replace (Z.to_nat (16 * Z.of_nat k + Z.of_nat j)) with (16 * k + j)%nat by lia.
    rewrite byte_concat by done. rewrite <- E'. unfold byte. by rewrite Hy.
Qed.

Lemma image_lookup fs k f : fs !! k = Some f → image_of fs !! S k = Some (T_FILE, concat f.2).
Proof. intros E. change (copies fs !! k = Some (T_FILE, concat f.2)). unfold copies. by rewrite list_lookup_fmap, E. Qed.

Lemma image_length fs : length (image_of fs) = S (length fs).
Proof. cbn. by rewrite copies_length. Qed.

(** What the kernel reads from a file of the image. *)
Lemma read_back dev_read v k ty c ip : slot_ok v k ty c ip → Forall (λ x, 0 ≤ x < 256) c →
  readi dev_read k 0 (Z.of_nat (length c)) v = Ok (Z.of_nat (length c), c) v.
Proof.
  intros Hso Hc. pose proof (so_size _ _ _ _ _ Hso) as Hsz. pose proof (so_inv _ _ _ _ _ Hso) as Hinv.
  pose proof (fv_size _ _ _ Hinv) as Hle. assert (HB : NBYTES < two32) by done.
  assert (H : returns (readi dev_read k 0 (Z.of_nat (length c))) v (λ r v', r = (Z.of_nat (length c), c) ∧ v' = v)).
  { eapply readi_ok; [done|lia|lia|lia|]. rewrite Hsz, Z.sub_0_r, Z.min_id. split; [|done]. f_equal.
    apply list_eq_same_length with (n := length c); [done|by rewrite length_fmap, length_seqZ, Nat2Z.id|].
    intros j x y Hj Hx Hy. rewrite list_lookup_fmap, lookup_seqZ_lt in Hx by lia. cbn in Hx. injection Hx as <-.
    rewrite (so_bytes _ _ _ _ _ Hso) by lia. unfold byte. replace (Z.to_nat (0 + Z.of_nat j)) with j by lia. by rewrite Hy. }
  unfold returns in H. destruct (readi dev_read k 0 (Z.of_nat (length c)) v); try done. by destruct H as [-> ->].
Qed.

Lemma concat_bytes pieces : Forall (λ p, p ≠ [] ∧ Forall (λ x, 0 ≤ x < 256) p) pieces → Forall (λ x, 0 ≤ x < 256) (concat pieces).
Proof. induction 1 as [|p pieces [_ Hp] _ IH]; cbn; [constructor|]. by apply Forall_app. Qed.

(** C9: given at most 198 files of at most 138 blocks each, with names without a slash, that
    need fewer than 4096 blocks together with the metadata, mkfs ends, and the image it
    leaves is a file system of the kernel.  The bitmap marks
    exactly the blocks in use, no block belongs to two files or to two places of a file,
    and reading file [k] of the command line with the kernel's [readi] gives back its
    contents.  The root directory lists the files in order, under their names
    without the leading underscore, unless its entries, two more than the files, fill
    their blocks exactly, which [mkfs_root_hole] shows to be a case where it does not. *)
Theorem mkfs_kernel_reads dev_read fs s0 : freeinode s0 = 1 → inputs_ok fs →
  returns (main fs) s0 (λ _ s', let v := mount (S (length fs)) s' in
    fs_wf v ∧ (∀ b, 0 ≤ b < FSSIZE → bit v b = (b <? blocks_of (image_of fs))) ∧
    (∀ j k π ρ, vpath π → vpath ρ → node v j π ≠ 0 → node v j π = node v k ρ → j = k) ∧
    (∀ k f, fs !! k = Some f → file_ok v (S k) ∧
       readi dev_read (S k) 0 (Z.of_nat (length (concat f.2))) v = Ok (Z.of_nat (length (concat f.2)), concat f.2) v) ∧
    (((2 + length fs) mod 32 ≠ 0)%nat → ∃ ip m, dir_inv v 0 ip ∧ inum ip = 1 ∧
       dirents v 0 (size ip) = root_list fs ++ replicate m no_entry)).
Proof.
  intros Hi Hin. eapply returns_mono; [by apply main_ok|]. intros [] s' (s & s1 & v & ip0 & Hb & H0 & Hs1 & Hf1 & Hu & ->).
  pose proof (root_bytes_length fs) as Hrl. pose proof (in_count _ Hin) as Hn. pose proof (image_length fs) as Hil.
  assert (Hoff : 0 ≤ root_size fs < two32).
  { unfold root_size, two32. pose proof (Z.div_pos (Z.of_nat (length (root_bytes fs))) 512).
    assert (Z.of_nat (length (root_bytes fs)) / 512 < 100) by (apply Z.div_lt_upper_bound; lia). lia. }
  assert (Hpos : (0 < length (image_of fs))%nat) by lia. rewrite <- Hil. cbv zeta.
  split; [by eapply final_wf|]. split; [intros b Hr; rewrite <- (bu_free _ _ _ Hb : freeblock s = blocks_of (image_of fs)); by eapply final_bit|].
  split; [exact (final_disj _ _ _ _ _ _ _ Hb H0 Hpos Hoff Hs1 Hf1 Hu)|]. split.
  - intros k f Hk. destruct (final_file _ _ _ _ _ _ _ Hb H0 Hpos Hoff Hs1 Hf1 Hu (S k) T_FILE (concat f.2)) as [ip Hso]; [by apply image_lookup|lia|].
    split; [apply Hso|]. eapply read_back; [done|]. eapply Forall_lookup_1 in Hk; [|apply Hin]. by apply concat_bytes, Hk.
  - intros Hmod. assert (Hm' : Z.of_nat (length (root_bytes fs)) mod 512 ≠ 0).
    { rewrite Hrl. intros E. apply Hmod. apply Nat2Z.inj. rewrite Nat2Z.inj_mod.
      replace (Z.of_nat (32 + 16 * length fs)) with (16 * Z.of_nat (2 + length fs)) in E by lia.
      change 512 with (16 * 32) in E. rewrite Z.mul_mod_distr_l in E by lia. change (Z.of_nat 32) with 32. lia. }
    destruct (final_root _ _ _ _ _ _ _ Hb H0 Hpos Hoff Hs1 Hf1 Hu eq_refl) as [Hdir Hbytes];
      [unfold MAXAPPEND; lia|done|done|].
    set (m := Z.to_nat (root_size fs / 16)). exists (ip0 <| size := root_size fs |>), (m - length (root_list fs))%nat.
    assert (Em : root_size fs = 16 * Z.of_nat m).
    { unfold m. pose proof (dv_size _ _ _ Hdir) as Hd. cbn in Hd. pose proof (Z.div_mod (root_size fs) 16 ltac:(lia)).
      pose proof (Z.div_pos (root_size fs) 16). lia. }
    split; [done|]. split; [apply (so_inum _ _ _ _ _ H0)|]. cbn [size set]. rewrite Em. apply dirents_concat.
    + intros x Hx. rewrite <- root_bytes_entries. apply Hbytes. pose proof (fv_size _ _ _ (dv_file _ _ _ Hdir)) as Hle. cbn in Hle. lia.
    + apply root_list_16.
    + rewrite root_list_length. unfold root_size in Em. rewrite Hrl in Em.
      pose proof (Z.mod_pos_bound (Z.of_nat (32 + 16 * length fs)) 512). pose proof (Z.div_mod (Z.of_nat (32 + 16 * length fs)) 512). lia.
Qed.

(** The state at the start, and one file, _ls. *)
Definition start : mkst := mkmk (λ _, []) 1 0.
Definition demo_files : list (list Z * list (list Z)) := [([95; 108; 115], [[72; 105]; [33]])].

Lemma demo_files_ok : inputs_ok demo_files.
Proof.
  constructor; [|cbn; lia|by vm_compute]. constructor; [|constructor]. split; [by apply (bool_decide_eq_true_1 _)|].
  split; [by repeat constructor|]. split; [|done]. repeat constructor; done.
Qed.

Lemma mkfs_kernel_reads_witness :
  returns (main demo_files) start (λ _ s', let v := mount 2 s' in
    fs_wf v ∧ readi (λ _, None) 1 0 3 v = Ok (3, [72; 105; 33]) v ∧
    ∃ ip m, dir_inv v 0 ip ∧ dirents v 0 (size ip) = [mk_dirent DOT 1; mk_dirent DOTDOT 1; mk_dirent [108; 115] 2] ++ replicate m no_entry).
Proof.
  eapply returns_mono; [apply (mkfs_kernel_reads (λ _, None) demo_files start); [reflexivity|apply demo_files_ok]|].
  intros [] s' (Hwf & _ & _ & Hr & Hd). split; [exact Hwf|]. split; [exact (proj2 (Hr 0%nat _ eq_refl))|].
  destruct Hd as (ip & m & Hdir & _ & E); [by vm_compute|]. exists ip, m. split; [exact Hdir|exact E].
Defined.

(** When the entries of the root directory fill their blocks exactly, mkfs gives the
    directory a size that includes one more block, which it does not have. *)
Theorem mkfs_root_hole fs s0 : freeinode s0 = 1 → inputs_ok fs → ((2 + length fs) mod 32 = 0)%nat →
  returns (main fs) s0 (λ _ s', let v := mount (S (length fs)) s' in
    ∃ ip, icache v !! 0%nat = Some ip ∧ inum ip = 1 ∧ size ip = 16 * (2 + Z.of_nat (length fs)) + 512 ∧
      node v 0 (fpath ((size ip - 1) / 512)) = 0).
Proof.
  intros Hi Hin Hmod. eapply returns_mono; [by apply main_ok|]. intros [] s' (s & s1 & v & ip0 & Hb & H0 & Hs1 & Hf1 & Hu & ->).
  pose proof (root_bytes_length fs) as Hrl. pose proof (in_count _ Hin) as Hn. pose proof (image_length fs) as Hil.
  apply (f_equal Z.of_nat) in Hmod. rewrite Nat2Z.inj_mod in Hmod. change (Z.of_nat 32) with 32 in Hmod. change (Z.of_nat 0) with 0 in Hmod.
  set (L := Z.of_nat (length (root_bytes fs))) in *. assert (EL : L = 16 * (2 + Z.of_nat (length fs))) by lia.
  set (q := Z.of_nat (2 + length fs) / 32). assert (Eq : L = 512 * q).
  { unfold q. pose proof (Z.div_mod (Z.of_nat (2 + length fs)) 32). lia. }
  assert (Hq : L / 512 = q) by (rewrite Eq, Z.mul_comm; by apply Z.div_mul).
  assert (Es : root_size fs = L + 512) by (unfold root_size; fold L; rewrite Hq; lia).
  assert (Hoff : 0 ≤ root_size fs < two32) by (unfold two32; lia).
  assert (Hpos : (0 < length (image_of fs))%nat) by lia. rewrite <- Hil. cbv zeta.
  set (ip := ip0 <| size := root_size fs |>). exists ip.
  assert (Hi0 : inum ip0 = 1) by apply (so_inum _ _ _ _ _ H0).
  split_and!; [|exact Hi0|change (root_size fs = 16 * (2 + Z.of_nat (length fs)) + 512); lia|].
  - rewrite (final_slot (image_of fs) s1 Hpos 0) by lia. f_equal.
    rewrite (final_dinode _ _ _ _ _ _ _ Hb H0 Hpos Hoff Hs1) by lia. rewrite decide_True by done.
    unfold ip. rewrite <- (so_load _ _ _ _ _ H0), Hi0. done.
  - change (size ip) with (root_size fs). rewrite Es. replace ((L + 512 - 1) / 512) with q
      by (apply (Z.div_unique _ _ _ 511); lia).
    rewrite (final_node _ _ _ _ _ _ _ Hb H0 Hpos Hoff Hs1 Hf1 Hu 0 T_DIR (root_bytes fs) ip0 _ eq_refl H0)
      by (apply fpath_valid, low_path; lia).
    destruct (so_tidy _ _ _ _ _ H0) as [Ht _]. specialize (Ht q ltac:(lia)). rewrite (so_size _ _ _ _ _ H0) in Ht. fold L in Ht.
    assert (En : nb L = q) by (unfold nb; symmetry; apply (Z.div_unique _ _ _ 511); lia). rewrite En in Ht. lia.
Qed.

Definition thirty : list (list Z * list (list Z)) := replicate 30 ([97], []).

Lemma mkfs_root_hole_witness :
  returns (main thirty) start (λ _ s', ∃ ip, icache (mount 31 s') !! 0%nat = Some ip ∧ size ip = 1024 ∧ node (mount 31 s') 0 (fpath 1) = 0).
Proof.
  eapply returns_mono; [apply (mkfs_root_hole thirty start); [reflexivity| |reflexivity]|].
  - constructor; [|cbn; lia|by vm_compute]. apply Forall_replicate. split; [by apply (bool_decide_eq_true_1 _)|].
    split; [by repeat constructor|]. split; [constructor|done].
  - intros [] s' (ip & E1 & E2 & E3 & E4). exists ip. split; [exact E1|]. rewrite E3 in E4. split; [exact E3|exact E4].
Defined.

(** The check that a file is not too large allows the sizes of the kernel, but mkfs
    only has an array of one indirect block: for a file of more than 138 blocks
    it goes past the end of the array. *)
Theorem mkfs_large_file_overflows fuel din off p s : p ≠ [] → length (addrs din) = 13%nat →
  138 * BSIZE ≤ off < MAXFILE * BSIZE → iappend_loop (S fuel) din off p s = Undef "indirect".
Proof.
  intros Hp Hl Hoff. destruct p as [|x p]; [done|]. cbn [iappend_loop].
  assert (Hn : 138 ≤ off / BSIZE < MAXFILE).
  { unfold BSIZE in *. split; [apply Z.div_le_lower_bound; lia|apply Z.div_lt_upper_bound; lia]. }
  unfold assert. rewrite (proj2 (Z.ltb_lt _ MAXFILE)) by lia. unfold file_block, NDIRECT, NINDIRECT.
  rewrite (proj2 (Z.ltb_ge (off / BSIZE) 10)) by lia. unfold din_slot.
  destruct (addrs din !! Z.to_nat 10) as [a|] eqn:Ea; [|apply lookup_ge_None in Ea; lia].
  destruct (a =? 0); cbv [mbind M_bind next_block gets modify mret M_ret rsect skip]; by rewrite (proj2 (Z.leb_le 128 _)) by lia.
Qed.

Lemma mkfs_large_file_overflows_witness : iappend_loop 1 (blank 2) (138 * 512) [0] start = Undef "indirect".
Proof. apply (mkfs_large_file_overflows 0 (blank 2) (138 * 512) [0] start); [discriminate|reflexivity|unfold BSIZE; vm_compute; split; [discriminate|reflexivity]]. Defined.
