(* ===== verification/UserMem.v ===== *)
(** User memory as system calls see it: stores and loads through the page table of
    the running process, and what a successful argument check guarantees. *)

From S2P Require Import Prelude Layout CString Kalloc ProcTable Sched Xem Spinlock Pipe Bytes Fs PageAlloc Vm VmMap VmUser Kernel File Proc Syscall.

Section UserMem.
Context {S : Type} `{PA : PageAlloc S}.
#[local] Abbreviation K := (kernel S).

(** The running process has [n] bytes of memory: every page below is mapped,
    writable, to a page of its own. *)
Record user_ok (k : K) (l : list Z) (n : Z) : Prop := {
  us_space : space_ok (k_mem k) l (cur_pgdir k);
  us_size : 0 ≤ n ≤ KERNBASE;
  us_mapped : ∀ va, 0 ≤ va < n → ∃ f, frame (pa_ram (k_mem k)) (cur_pgdir k) va = Some f ∧
    Z.land (pte_of (pa_ram (k_mem k)) (cur_pgdir k) va) PTE_W ≠ 0;
  us_bytes : ∀ x, 0 ≤ pa_ram (k_mem k) x < 256
}.

(** The physical byte behind [va], and its value. *)
Definition phys (k : K) (va : Z) : Z :=
  P2V (PTE_ADDR (pte_of (pa_ram (k_mem k)) (cur_pgdir k) va)) + va mod PGSIZE.
Definition ubyte (k : K) (va : Z) : Z := pa_ram (k_mem k) (phys k va).
Definition uword (k : K) (va : Z) : Z :=
  ubyte k va + 256 * ubyte k (va + 1) + 65536 * ubyte k (va + 2) + 16777216 * ubyte k (va + 3).

Lemma translate_ok k l n va w :
  user_ok k l n → 0 ≤ va < n → translate (pa_ram (k_mem k)) (cur_pgdir k) va w = Some (phys k va).
Proof.
  intros Hu Hva. destruct (us_mapped _ _ _ Hu va Hva) as (f & Hf & Hw). unfold translate, frame in *.
  destruct (present _); [|done]. rewrite (proj2 (Z.eqb_neq _ _) Hw). by rewrite orb_true_r.
Qed.

Lemma phys_page k l n va :
  user_ok k l n → 0 ≤ va < n →
  ∃ f, frame (pa_ram (k_mem k)) (cur_pgdir k) va = Some f ∧ pa_page f ∧ (f ∉ l) ∧
    ¬ owns (pa_ram (k_mem k)) (cur_pgdir k) f ∧ phys k va = f + va mod PGSIZE ∧ in_page f (phys k va).
Proof.
  intros Hu Hva. destruct (us_mapped _ _ _ Hu va Hva) as (f & Hf & _). exists f. split; [done|].
  pose proof (us_size _ _ _ Hu). destruct (sp_frame _ _ _ (us_space _ _ _ Hu) va f ltac:(lia) Hf) as (Hp & Hl & Ho).
  split; [done|]. split; [done|]. split; [done|]. destruct (frame_addr _ _ _ _ Hf Hp) as (_ & E & _).
  unfold phys. rewrite E. split; [done|]. unfold in_page. pose proof (Z.mod_pos_bound va PGSIZE ltac:(done)). lia.
Qed.

(** Different addresses are different bytes. *)
Lemma phys_inj k l n va va' :
  user_ok k l n → 0 ≤ va < n → 0 ≤ va' < n → phys k va = phys k va' → va = va'.
Proof.
  intros Hu Hva Hva' E. pose proof (us_size _ _ _ Hu).
  destruct (phys_page k l n va Hu Hva) as (f & Hf & Hp & _ & _ & Ef & Hin).
  destruct (phys_page k l n va' Hu Hva') as (g & Hg & Hq & _ & _ & Eg & Hin').
  rewrite <-E in Hin'. pose proof (pages_apart f g _ Hp Hq Hin Hin') as ->.
  pose proof (sp_inj _ _ _ (us_space _ _ _ Hu) va va' g ltac:(lia) ltac:(lia) Hf Hg) as Ed.
  rewrite (Z.div_mod va PGSIZE), (Z.div_mod va' PGSIZE) by done. rewrite Ed. lia.
Qed.

(** The memory after a store. *)
Definition stored (k : K) (va b : Z) : K :=
  k <| k_mem := pa_write (upd (pa_ram (k_mem k)) (phys k va) (u8 b)) (k_mem k) |>.

Lemma stored_pte k l n va b :
  user_ok k l n → 0 ≤ va < n →
  (∀ va', pte_of (pa_ram (k_mem (stored k va b))) (cur_pgdir k) va' = pte_of (pa_ram (k_mem k)) (cur_pgdir k) va') ∧
  user_ok (stored k va b) l n.
Proof.
  intros Hu Hva. pose proof (us_space _ _ _ Hu) as Hsp. pose proof (sp_as _ _ _ Hsp) as Has.
  destruct (phys_page k l n va Hu Hva) as (f & Hf & Hp & Hl & Ho & _ & Hin).
  destruct (pa_ok_pages _ _ (as_alloc _ _ _ Has)) as [Hpg _]. rewrite Forall_forall in Hpg.
  assert (Hm : ∀ q x, q ≠ f → pa_page q → in_page q x → upd (pa_ram (k_mem k)) (phys k va) (u8 b) x = pa_ram (k_mem k) x).
  { intros q x Hq Hqp Hx. apply upd_ne. intros ->. apply Hq. by apply (pages_apart q f (phys k va)). }
  assert (Hm' : ∀ q x, owns (pa_ram (k_mem k)) (cur_pgdir k) q → in_page q x →
    upd (pa_ram (k_mem k)) (phys k va) (u8 b) x = pa_ram (k_mem k) x).
  { intros q x Hq. apply Hm; [by intros ->|]. by eapply owns_page; [apply (as_table _ _ _ Has)|]. }
  assert (Hpte : ∀ va', pte_of (pa_ram (k_mem (stored k va b))) (cur_pgdir k) va' = pte_of (pa_ram (k_mem k)) (cur_pgdir k) va').
  { intros va'. unfold stored. cbn. rewrite pa_ram_write. by apply pte_same. }
  split; [done|]. split; [|apply Hu| |].
  - change (cur_pgdir (stored k va b)) with (cur_pgdir k). eapply (space_same (k_mem k) l); [|done| |done|done].
    + split; unfold stored; cbn.
      * apply pa_ok_write; [apply Has|]. intros q x Hq Hx. apply (Hm q); [by intros ->|by apply Hpg|done].
      * rewrite pa_ram_write. eapply pt_ok_same; [exact Hm'|apply Has].
      * intros q. rewrite pa_ram_write, (owns_same _ _ _ Hm'). apply Has.
    + intros q. unfold stored. cbn. rewrite pa_ram_write, (owns_same _ _ _ Hm'). by left.
  - intros va' Hva'. destruct (us_mapped _ _ _ Hu va' Hva') as (g & Hg & Hw). exists g.
    change (cur_pgdir (stored k va b)) with (cur_pgdir k). unfold frame. by rewrite Hpte.
  - intros x. unfold stored. cbn. rewrite pa_ram_write. unfold upd. case_decide; [apply u8_range|apply Hu].
Qed.

Lemma stored_byte k l n va b va' :
  user_ok k l n → 0 ≤ va < n → 0 ≤ va' < n →
  ubyte (stored k va b) va' = if decide (va' = va) then u8 b else ubyte k va'.
Proof.
  intros Hu Hva Hva'. destruct (stored_pte k l n va b Hu Hva) as [Hpte _].
  assert (Hph : phys (stored k va b) va' = phys k va') by (unfold phys; change (cur_pgdir (stored k va b)) with (cur_pgdir k); by rewrite Hpte).
  unfold ubyte at 1. rewrite Hph. unfold stored. cbn. rewrite pa_ram_write. case_decide as E.
  - by rewrite E, upd_eq.
  - rewrite upd_ne; [done|]. intros Ep. apply E. by eapply phys_inj.
Qed.

(** Nothing changes but the bytes of physical memory behind the [n] addresses from [va]
    on. *)
Definition stores_only (va n : Z) (k k' : K) : Prop :=
  k' = k <| k_mem := k_mem k' |> ∧
  ∀ x, (∀ a, va ≤ a < va + n → x ≠ phys k a) → pa_ram (k_mem k') x = pa_ram (k_mem k) x.

Lemma stores_only_step va n k b k' :
  (∀ a, phys (stored k va b) a = phys k a) → 0 ≤ n →
  stores_only (va + 1) n (stored k va b) k' → stores_only va (n + 1) k k'.
Proof.
  intros Hph Hn [E Hx]. split; [rewrite E; done|]. intros x Hne. rewrite Hx.
  - unfold stored. cbn. rewrite pa_ram_write. apply upd_ne. apply (Hne va). lia.
  - intros a Ha. rewrite Hph. apply Hne. lia.
Qed.

Lemma ustore_bytes_ok k l n : ∀ buf va (Q : unit → K → Prop),
  user_ok k l n → 0 ≤ va → va + Z.of_nat (length buf) ≤ n →
  (∀ k', user_ok k' l n → stores_only va (Z.of_nat (length buf)) k k' →
     (∀ va', 0 ≤ va' < n → ubyte k' va' =
        if decide (va ≤ va' < va + Z.of_nat (length buf)) then u8 (nth (Z.to_nat (va' - va)) buf 0) else ubyte k va') →
     Q tt k') →
  returns (ustore_bytes va buf) k Q.
Proof.
  intros buf. revert k. induction buf as [|b buf IH]; intros k va Q Hu Hva Hn HQ; cbn [ustore_bytes].
  - apply returns_ret, HQ; [done|by split; [destruct k|]|]. intros va' _. rewrite decide_False; [done|cbn; lia].
  - cbn [length] in Hn. apply returns_bind. unfold returns at 1, ustore.
    rewrite (translate_ok k l n) by (done || lia). fold (stored k va b).
    destruct (stored_pte k l n va b Hu ltac:(lia)) as [Hpte Hu1].
    apply IH; [done|lia|lia|]. intros k' Hu' Hmo Hb. apply HQ; [done| |].
    { cbn [length]. rewrite Nat2Z.inj_succ. apply (stores_only_step va _ k b); [|lia|done].
      intros a. unfold phys. change (cur_pgdir (stored k va b)) with (cur_pgdir k). by rewrite Hpte. }
    intros va' Hva'. rewrite Hb, (stored_byte k l n) by (done || lia). cbn [length].
    destruct (decide (va' = va)) as [->|Hne].
    + rewrite decide_False, decide_True by lia. by rewrite Z.sub_diag.
    + repeat case_decide; try lia.
      by replace (Z.to_nat (va' - va)) with (Datatypes.S (Z.to_nat (va' - (va + 1)))) by lia.
Qed.

Lemma returns_curproc (k : K) c (Q : nat → K → Prop) : cpu_proc (k_pt k) = Some c → Q c k → returns curproc k Q.
Proof.
  intros Hc HQ. unfold returns, curproc, on_pt, zoom, cur, myproc, gets, mbind, M_bind. rewrite Hc. cbn.
  by replace (k <| k_pt := k_pt k |>) with k by (by destruct k).
Qed.

Lemma returns_procn (k : K) i p (Q : proc → K → Prop) :
  procs (k_pt k) !! i = Some p → Q p k → returns (procn i) k Q.
Proof.
  intros Hp HQ. unfold returns, procn, on_pt, zoom, getp. rewrite Hp.
  by replace (k <| k_pt := k_pt k |>) with k by (by destruct k).
Qed.

Lemma uload_ok k l n va (Q : Z → K → Prop) :
  user_ok k l n → 0 ≤ va < n → Q (ubyte k va) k → returns (uload va) k Q.
Proof. intros Hu Hva HQ. unfold returns, uload. by rewrite (translate_ok k l n). Qed.

Lemma uload_bytes_ok k l n : ∀ m va (Q : list Z → K → Prop),
  user_ok k l n → 0 ≤ va → va + Z.of_nat m ≤ n →
  Q ((λ i, ubyte k (va + Z.of_nat i)) <$> seq 0 m) k → returns (uload_bytes va m) k Q.
Proof.
  intros m. induction m as [|m IH]; intros va Q Hu Hva Hn HQ; cbn [uload_bytes]; [by apply returns_ret|].
  apply returns_bind, (uload_ok k l n); [done|lia|]. apply returns_bind, IH; [done|lia|lia|].
  apply returns_ret. cbn [seq fmap list_fmap] in HQ. rewrite Z.add_0_r in HQ.
  assert (((λ i, ubyte k (va + 1 + Z.of_nat i)) <$> seq 0 m) = ((λ i, ubyte k (va + Z.of_nat i)) <$> seq 1 m)) as ->; [|done].
  rewrite <-fmap_S_seq, <-list_fmap_compose. apply list_fmap_ext. intros i x _. cbn. f_equal. lia.
Qed.

Lemma fetchint_ok k l c p addr (Q : option Z → K → Prop) :
  cpu_proc (k_pt k) = Some c → procs (k_pt k) !! c = Some p → user_ok k l (sz p) → 0 ≤ addr < two32 →
  Q (if decide (addr + 4 ≤ sz p) then Some (s32 (uword k addr)) else None) k → returns (fetchint addr) k Q.
Proof.
  intros Hc Hp Hu Ha HQ. unfold fetchint. apply returns_bind, (returns_curproc _ c); [done|].
  apply returns_bind, (returns_procn _ _ p); [done|]. pose proof (us_size _ _ _ Hu) as Hs.
  destruct (sz p <=? addr) eqn:E1; bsimpl; cbn [orb].
  { apply returns_ret. by rewrite decide_False in HQ by lia. }
  rewrite u32_small by (unfold KERNBASE, two32 in *; lia).
  destruct (sz p <? addr + 4) eqn:E2; bsimpl; [apply returns_ret; by rewrite decide_False in HQ by lia|].
  rewrite decide_True in HQ by lia. apply returns_bind. unfold uload32.
  do 4 (apply returns_bind, (uload_ok k l (sz p)); [done|lia|]). by mgo.
Qed.

(** The word of the [n]th argument. *)
Definition arg_at (p : proc) (n : Z) : Z := u32 (esp (tf p) + 4 + 4 * n).

(** An argument that is refused. *)
Ltac refused := apply returns_ret; split; [done|]; split; [by right|]; split; [split; [done|lia]|done].

(** C24: in a process all of whose pages below its size are mapped and writable, a
    pointer argument that [argptr] accepts lies inside the process: it is the
    [n]th word on the user stack, and it and the [size] bytes from it on are below
    the size of the process, with no wrap-around; every other argument is
    refused.  Loading up to [size] bytes there gives the bytes behind these addresses.
    Storing them succeeds without a trap, changes no other byte of physical memory and
    nothing outside the memory, and loading them gives back what was stored. *)
Theorem argptr_bounds k l c p n size :
  cpu_proc (k_pt k) = Some c → procs (k_pt k) !! c = Some p → user_ok k l (sz p) → size < 2147483648 →
  returns (argptr n size) k (λ r k', k' = k ∧
    let w := uword k (arg_at p n) in
    (r = Some w ∨ r = None) ∧
    (r = Some w ↔ arg_at p n + 4 ≤ sz p ∧ 0 ≤ size ∧ w < sz p ∧ w + size ≤ sz p) ∧
    (r = Some w → ∀ buf, Z.of_nat (length buf) ≤ size →
       returns (uload_bytes w (length buf)) k (λ old k2, k2 = k ∧ old = (λ i, ubyte k (w + Z.of_nat i)) <$> seq 0 (length buf)) ∧
       returns (ustore_bytes w buf) k (λ _ k2, stores_only w (Z.of_nat (length buf)) k k2 ∧
         returns (uload_bytes w (length buf)) k2 (λ buf' k3, k3 = k2 ∧ buf' = u8 <$> buf)))).
Proof.
  intros Hc Hp Hu Hsize. pose proof (us_size _ _ _ Hu) as Hs. unfold argptr.
  apply returns_bind, (returns_curproc _ c); [done|]. apply returns_bind, (returns_procn _ _ p); [done|].
  apply returns_bind. unfold argint. apply returns_bind, (returns_curproc _ c); [done|].
  apply returns_bind, (returns_procn _ _ p); [done|]. fold (arg_at p n).
  apply (fetchint_ok k l c p); [done|done|done|apply u32_range|]. case_decide as Ha.
  2: refused.
  set (w := uword k (arg_at p n)).
  assert (Hw : 0 ≤ w < two32).
  { unfold w, uword, ubyte, two32. pose proof (us_bytes _ _ _ Hu) as Hb.
    pose proof (Hb (phys k (arg_at p n))). pose proof (Hb (phys k (arg_at p n + 1))).
    pose proof (Hb (phys k (arg_at p n + 2))). pose proof (Hb (phys k (arg_at p n + 3))). lia. }
  assert (u32 (s32 w) = w) as ->.
  { unfold s32. rewrite (u32_small w) by done. case_if; [by apply u32_small|].
    unfold u32. rewrite <-(Z.mod_add _ 1) by done. replace (w - two32 + 1 * two32) with w by lia. by apply Z.mod_small. }
  destruct (size <? 0) eqn:E1; bsimpl; cbn [orb];
    [refused|].
  destruct (sz p <=? w) eqn:E2; bsimpl; cbn [orb];
    [refused|].
  rewrite u32_small by (unfold KERNBASE, two32 in *; lia).
  destruct (sz p <? w + size) eqn:E3; bsimpl;
    [refused|].
  apply returns_ret. split; [done|]. split; [by left|]. split; [split; [lia|done]|].
  intros _ buf Hbuf. split; [apply (uload_bytes_ok k l (sz p)); [done|lia|lia|done]|]. apply (ustore_bytes_ok k l (sz p)); [done|lia|lia|]. intros k2 Hu2 Hmo Hb. split; [done|].
  apply (uload_bytes_ok k2 l (sz p)); [done|lia|lia|]. split; [done|].
  apply list_eq. intros i. rewrite !list_lookup_fmap. destruct (decide (i < length buf)%nat) as [Hi|Hi].
  - rewrite lookup_seq_lt by done. cbn. rewrite Hb by lia. rewrite decide_True by lia.
    replace (Z.to_nat (w + Z.of_nat i - w)) with i by lia.
    destruct (lookup_lt_is_Some_2 buf i Hi) as [b Eb]. rewrite Eb. cbn. by rewrite (nth_lookup_Some _ _ _ _ Eb).
  - rewrite lookup_seq_ge, lookup_ge_None_2 by lia. done.
Qed.
End UserMem.

(** ** A process with one page *)

Lemma demo_end : KERNBASE < KERNLINK.
Proof. done. Qed.

#[local] Instance demo_pages1 : PageAlloc kmem := kalloc_pages KERNLINK demo_end.

(** The directory at [demo_p3], its first table at [demo_p1], the page at [demo_p2]. *)
Definition demo_p3 : Z := 2149588992.
Definition demo_mem : mem :=
  store32 (store32 (λ _, 0) demo_p3 (V2P demo_p1 + 7)) demo_p1 (V2P demo_p2 + 7).
Definition demo_user : kernel kmem :=
  mkk (mkpt [proc0 <| sz := 4096 |> <| tf := tf0 <| esp := 96 |> |>] false (Some 0%nat) (V2P demo_p3) 0 0 None 1 0 0 0 0 0)
    (Spinlock.Cli.mkcpu 0 false false) (mkkmem demo_mem false true 0)
    (mkfs (λ _, []) (λ _, []) ∅ ∅ 0 (mksb 0 0 0 0 0 0 0) [] 0 0) [] ∅ [] 0 0 false [].

Lemma demo_tab d : 0 ≤ d < 1024 → tab demo_mem demo_p3 d = if decide (d = 0) then Some demo_p1 else None.
Proof.
  intros Hd. unfold tab. case_decide as E.
  - subst. by vm_compute.
  - rewrite (load32_ext (λ _, 0)); [done|]. intros i Hi. unfold demo_mem.
    rewrite !store32_other; [done|unfold demo_p1, demo_p3; lia..].
Qed.

Lemma demo_pte va : 0 ≤ va < two32 →
  pte_of demo_mem demo_p3 va = if decide (va / PGSIZE = 0) then V2P demo_p2 + 7 else 0.
Proof.
  intros Hva. unfold pte_of. rewrite demo_tab by apply PDX_range.
  rewrite PDX_div, PTX_div by done. change 4194304 with (PGSIZE * 1024).
  destruct (decide (va / PGSIZE = 0)) as [E|E].
  - rewrite <-Z.div_div, E by done. cbn. by vm_compute.
  - case_decide as E2; [|done]. rewrite (load32_ext (λ _, 0)); [done|]. intros i Hi. unfold demo_mem.
    rewrite <-Z.div_div in E2 by done. apply Z.div_small_iff in E2; [|done].
    assert (0 < va / PGSIZE) by (pose proof (Z.div_pos va PGSIZE); lia).
    rewrite (Z.mod_small (va / PGSIZE)) by lia.
    rewrite !store32_other; [done|unfold demo_p1, demo_p3; lia..].
Qed.

Lemma demo_frame va : 0 ≤ va < two32 →
  frame demo_mem demo_p3 va = if decide (va / PGSIZE = 0) then Some demo_p2 else None.
Proof. intros Hva. unfold frame. rewrite demo_pte by done. by case_decide. Qed.

Lemma demo_user_ok : user_ok demo_user [] 4096.
Proof.
  assert (Hk : ∀ va, 0 ≤ va < KERNBASE → 0 ≤ va < two32) by (unfold KERNBASE, two32; lia).
  assert (Hown : ∀ q, owns demo_mem demo_p3 q → q = demo_p3 ∨ q = demo_p1).
  { intros q [->|(d & Hd & Ht)]; [by left|]. rewrite demo_tab in Ht by done. case_decide; simplify_eq. by right. }
  change (cur_pgdir demo_user) with demo_p3. split.
  - change (cur_pgdir demo_user) with demo_p3. change (pa_ram (k_mem demo_user)) with demo_mem. split; [split| |].
    + split; [done|apply NoDup_nil_2|constructor|done].
    + change (pa_ram (k_mem demo_user)) with demo_mem. split.
      * unfold pa_page, demo_pages1, kalloc_pages, page. by vm_compute.
      * intros d t Hd. rewrite demo_tab by done. case_decide; [|done]. intros [= <-].
        split; [unfold pa_page, demo_pages1, kalloc_pages, page; by vm_compute|done].
      * intros d d' t Hd Hd'. rewrite !demo_tab by done. repeat case_decide; naive_solver.
    + intros q _. apply not_elem_of_nil.
    + intros va f Hva Hf. rewrite demo_frame in Hf by auto. case_decide; [|done]. injection Hf as <-.
      split; [unfold pa_page, demo_pages1, kalloc_pages, page; by vm_compute|]. split; [apply not_elem_of_nil|].
      intros [?|?]%Hown; done.
    + intros va va' f Hva Hva' H H'. change (pa_ram (k_mem demo_user)) with demo_mem in *.
      rewrite demo_frame in H, H' by auto. destruct (decide (va / PGSIZE = 0)), (decide (va' / PGSIZE = 0)); simplify_eq; congruence.
  - done.
  - intros va Hva. change (cur_pgdir demo_user) with demo_p3. change (pa_ram (k_mem demo_user)) with demo_mem.
    assert (va / PGSIZE = 0) by (apply Z.div_small; done). exists demo_p2.
    rewrite demo_frame, demo_pte by (unfold two32; lia). rewrite !decide_True by done. split; [done|by vm_compute].
  - intros x. change (pa_ram (k_mem demo_user)) with demo_mem. unfold demo_mem, store32, upd.
    repeat (case_decide; [apply u8_range|]). lia.
Qed.

Lemma argptr_bounds_witness :
  returns (argptr 0 100) demo_user (λ r k', k' = demo_user ∧
    (r = Some 0 ↔ 100 + 4 ≤ 4096 ∧ 0 ≤ 100 ∧ 0 < 4096 ∧ 0 + 100 ≤ 4096) ∧
    (r = Some 0 → returns (ustore_bytes 0 [7; 8]) demo_user (λ _ k2, stores_only 0 2 demo_user k2))).
Proof.
  eapply returns_mono; [apply (argptr_bounds demo_user [] 0%nat _ 0 100 eq_refl eq_refl demo_user_ok); done|].
  intros r k' (Hk & _ & Hr & Hs). split; [exact Hk|]. split; [exact Hr|]. intros E.
  destruct (Hs E [7; 8] ltac:(done)) as [_ Hst]. eapply returns_mono; [exact Hst|]. intros [] k2 [H _]. exact H.
Defined.
