(* ===== verification/Guard.v ===== *)
(** Files shared by threads (thread_safe_guard.c): reads and writes of a file inside a
    readers-writer lock, by threads that interleave.

    The kernel reads under the lock of the inode, so a [pread] is one step; [filepwrite]
    gives that lock up after each chunk, so a [pwrite] is a step per chunk, and threads
    that did not use the guard could see a write half done. *)

From S2P Require Import Prelude Layout CString Xem Umalloc.

(** ** The file *)

Section Guard.
(** The largest size of a file and of a chunk. *)
Context (maxfile maxchunk : Z).

Abbreviation len l := (Z.of_nat (length l)).

(** [readi] and [writei] on the contents of the file. *)
Definition file_read (f : list Z) (n off : Z) : Z * list Z :=
  if len f <? off then (-1, []) else
  let m := if len f <? off + n then len f - off else n in (m, take (Z.to_nat m) (drop (Z.to_nat off) f)).

Definition file_write (f : list Z) (off : Z) (src : list Z) : option (list Z) :=
  if (len f <? off) || (maxfile <? off + len src) then None
  else Some (take (Z.to_nat off) f ++ src ++ drop (Z.to_nat off + length src) f).

(** One round of the loop of [filepwrite]: the file and what is left to write, or the
    value returned. *)
Definition pwrite_round (f : list Z) (rest : list Z) (pos n : Z) : (list Z * list Z * Z) + Z :=
  match rest with
  | [] => inr n
  | _ =>
      let n1 := Z.min (len rest) maxchunk in
      match file_write f pos (take (Z.to_nat n1) rest) with
      | None => inr (-1)
      | Some f' => inl (f', drop (Z.to_nat n1) rest, pos + n1)
      end
  end.

(** The whole loop. *)
Inductive pwrites : list Z → list Z → Z → Z → list Z → Z → Prop :=
| pwrites_end f rest pos n r : pwrite_round f rest pos n = inr r → pwrites f rest pos n f r
| pwrites_round f rest pos n f1 rest1 pos1 f' r :
    pwrite_round f rest pos n = inl (f1, rest1, pos1) → pwrites f1 rest1 pos1 n f' r → pwrites f rest pos n f' r.

(** ** Threads *)

(** What a thread does: nothing, [thread_safe_pread] before its [pread],
    [thread_safe_pwrite] with the bytes still to write, or one of the two after the call
    has returned [p]. *)
Inductive task :=
| Tnone
| Tread (n off : Z)
| Twrite (src : list Z) (off : Z) (rest : list Z) (pos : Z)
| Tback (p : Z).

(** The calls that have taken effect. *)
Inductive event :=
| Eread (i : nat) (n off : Z) (r : Z * list Z)
| Ewrite (i : nat) (src : list Z) (off : Z) (r : Z).

Record tsys := mkts { t_rw : rwlock; t_pc : list pc; t_task : list task; t_file : list Z; t_hist : list event }.

(** The steps of [thread_safe_pread]: lock, [pread], unlock and return. *)
Inductive thread_safe_pread : tsys → tsys → Prop :=
| pread_call rw l t f h i n off :
    l !! i = Some Idle → t !! i = Some Tnone → 0 ≤ off → 0 ≤ n →
    thread_safe_pread (mkts rw l t f h) (mkts rw (<[i := AR_lock]> l) (<[i := Tread n off]> t) f h)
| pread_read rw l t f h i n off :
    l !! i = Some Reading → t !! i = Some (Tread n off) →
    thread_safe_pread (mkts rw l t f h)
      (mkts rw l (<[i := Tback (file_read f n off).1]> t) f (h ++ [Eread i n off (file_read f n off)]))
| pread_release rw l t f h i p :
    l !! i = Some Reading → t !! i = Some (Tback p) →
    thread_safe_pread (mkts rw l t f h) (mkts rw (<[i := RR_lock]> l) (<[i := Tnone]> t) f h).

Inductive thread_safe_pwrite : tsys → tsys → Prop :=
| pwrite_call rw l t f h i src off :
    l !! i = Some Idle → t !! i = Some Tnone → 0 ≤ off →
    thread_safe_pwrite (mkts rw l t f h) (mkts rw (<[i := AW_write]> l) (<[i := Twrite src off src off]> t) f h)
| pwrite_chunk rw l t f h i src off rest pos f' rest' pos' :
    l !! i = Some Writing → t !! i = Some (Twrite src off rest pos) →
    pwrite_round f rest pos (len src) = inl (f', rest', pos') →
    thread_safe_pwrite (mkts rw l t f h) (mkts rw l (<[i := Twrite src off rest' pos']> t) f' h)
| pwrite_return rw l t f h i src off rest pos p :
    l !! i = Some Writing → t !! i = Some (Twrite src off rest pos) →
    pwrite_round f rest pos (len src) = inr p →
    thread_safe_pwrite (mkts rw l t f h) (mkts rw l (<[i := Tback p]> t) f (h ++ [Ewrite i src off p]))
| pwrite_release rw l t f h i p :
    l !! i = Some Writing → t !! i = Some (Tback p) →
    thread_safe_pwrite (mkts rw l t f h) (mkts rw (<[i := RW_write]> l) (<[i := Tnone]> t) f h).

(** A step of a thread: in one of the two functions or inside an operation of the lock. *)
Inductive ts_step : tsys → tsys → Prop :=
| ts_read s s' : thread_safe_pread s s' → ts_step s s'
| ts_write s s' : thread_safe_pwrite s s' → ts_step s s'
| ts_lock rw l t f h i p p' rw' :
    l !! i = Some p → exec p rw = (p', rw') → ts_step (mkts rw l t f h) (mkts rw' (<[i := p']> l) t f h).

Inductive ts_reach (n : nat) (f0 : list Z) : tsys → Prop :=
| ts_start : ts_reach n f0 (mkts rwlock_init (replicate n Idle) (replicate n Tnone) f0 [])
| ts_next s s' : ts_reach n f0 s → ts_step s s' → ts_reach n f0 s'.

(** ** One call at a time *)

(** The events in sequence, each at once, turn the file [f] into [f']. *)
Inductive atomic : list Z → list event → list Z → Prop :=
| atomic_nil f : atomic f [] f
| atomic_read f i n off h f' : atomic f h f' → atomic f (h ++ [Eread i n off (file_read f' n off)]) f'
| atomic_write f i src off r h f1 f' :
    atomic f h f1 → pwrites f1 src off (len src) f' r → atomic f (h ++ [Ewrite i src off r]) f'.

(** A write in chunks is a write of all the bytes. *)
Lemma pwrites_whole f src off n : 0 < maxchunk → 0 ≤ off ≤ len f → off + len src ≤ maxfile →
  pwrites f src off n (take (Z.to_nat off) f ++ src ++ drop (Z.to_nat off + length src) f) n.
Proof.
  intros Hc. remember (length src) as k eqn:Ek. revert f src off Ek. induction k as [k IH] using lt_wf_ind. intros f src off -> Ho Hm.
  destruct src as [|x src]; [cbn [app length]; rewrite Nat.add_0_r, take_drop; by constructor|]. set (l := x :: src) in *.
  set (n1 := Z.min (len l) maxchunk). assert (Hn1 : 0 < n1 ≤ len l) by (unfold n1, l; cbn [length]; lia).
  set (c := take (Z.to_nat n1) l). assert (Hl : length c = Z.to_nat n1) by (unfold c; rewrite length_take; lia).
  set (f1 := take (Z.to_nat off) f ++ c ++ drop (Z.to_nat off + length c) f).
  assert (Hf1 : len f ≤ len f1 ∧ off + n1 ≤ len f1) by (unfold f1; rewrite !length_app, length_take, length_drop; lia).
  apply (pwrites_round _ _ _ _ f1 (drop (Z.to_nat n1) l) (off + n1)).
  - unfold pwrite_round, file_write. fold n1 c. rewrite (proj2 (Z.ltb_ge _ _)), (proj2 (Z.ltb_ge _ _)) by lia. done.
  - assert (E : take (Z.to_nat off) f ++ l ++ drop (Z.to_nat off + length l) f =
      take (Z.to_nat (off + n1)) f1 ++ drop (Z.to_nat n1) l ++ drop (Z.to_nat (off + n1) + length (drop (Z.to_nat n1) l)) f1).
    { assert (E1 : take (Z.to_nat (off + n1)) f1 = take (Z.to_nat off) f ++ c).
      { unfold f1. rewrite app_assoc, take_app_length'; [done|]. rewrite length_app, length_take. lia. }
      rewrite E1, <- app_assoc. f_equal. rewrite app_assoc. unfold c. rewrite take_drop. f_equal.
      unfold f1. rewrite app_assoc, drop_app, (drop_ge (take _ _ ++ c)) by (rewrite length_app, length_take, length_drop; lia). cbn [app].
      rewrite drop_drop. f_equal. rewrite length_app, length_take, length_drop. lia. }
    rewrite E. apply (IH (length (drop (Z.to_nat n1) l))); rewrite ?length_drop; [unfold l; cbn [length]; lia|done|lia|lia].
Qed.

(** ** The invariant *)

(** A thread with bytes to write waits for the lock or has it; the rest of its write leads
    from the file of the sequence [f1] to where the whole write leads. *)
Record ts_inv (n : nat) (f0 : list Z) (s : tsys) (f1 : list Z) : Prop := {
  ti_lock : reachable n (t_rw s, t_pc s);
  ti_hist : atomic f0 (t_hist s) f1;
  ti_write : ∀ i src off rest pos, t_task s !! i = Some (Twrite src off rest pos) →
    (t_pc s !! i = Some AW_write ∧ rest = src ∧ pos = off) ∨
    (t_pc s !! i = Some Writing ∧ ∀ f' r, pwrites (t_file s) rest pos (len src) f' r → pwrites f1 src off (len src) f' r);
  ti_file : (∀ i src off rest pos, t_task s !! i = Some (Twrite src off rest pos) → t_pc s !! i ≠ Some Writing) → t_file s = f1
}.

(** Nobody else writes while a thread is inside. *)
Lemma inside_alone n f0 s f1 i p : ts_inv n f0 s f1 → t_pc s !! i = Some p → inside p →
  ∀ j, j ≠ i → t_pc s !! j ≠ Some Writing.
Proof. intros Hi Hp Hin j Hne Hj. by apply (writer_alone n (t_rw s, t_pc s) j i p (ti_lock _ _ _ _ Hi)). Qed.

Lemma no_writer_file n f0 s f1 : ts_inv n f0 s f1 → (∀ i, t_pc s !! i ≠ Some Writing) → t_file s = f1.
Proof. intros Hi Hw. apply (ti_file _ _ _ _ Hi). intros i src off rest pos _. apply Hw. Qed.

(** A thread that is not in the middle of a write changes its task. *)
Lemma ts_move n f0 rw l t f h f1 i rw' l' T h' :
  ts_inv n f0 (mkts rw l t f h) f1 → (∀ src off rest pos, T ≠ Twrite src off rest pos) →
  (∀ src off rest pos, t !! i = Some (Twrite src off rest pos) → l !! i ≠ Some Writing) →
  reachable n (rw', l') → (∀ j, j ≠ i → l' !! j = l !! j) → atomic f0 h' f1 → ts_inv n f0 (mkts rw' l' (<[i := T]> t) f h') f1.
Proof.
  intros [I1 I2 I3 I4] HT Hold Hr Hl Hh. cbn in *. constructor; cbn; [done|done| |].
  - intros j src o rest pos Hj. destruct (decide (j = i)) as [->|Hne].
    + assert (Hin : (i < length t)%nat) by (apply lookup_lt_Some in Hj; by rewrite length_insert in Hj).
      rewrite list_lookup_insert_eq in Hj by done. injection Hj as Hj. by destruct (HT _ _ _ _ Hj).
    + rewrite list_lookup_insert_ne in Hj by done. rewrite Hl by done. by apply I3.
  - intros Hw. apply I4. intros j src o rest pos Hj. destruct (decide (j = i)) as [->|Hne]; [by apply (Hold src o rest pos)|].
    rewrite <- (Hl j Hne). eapply (Hw j). by rewrite list_lookup_insert_ne.
Qed.

Lemma pread_inv n f0 s s' f1 : ts_inv n f0 s f1 → thread_safe_pread s s' → ts_inv n f0 s' f1.
Proof.
  intros Hi Hs. destruct Hs as [rw l t f h i m off Hl Ht Ho Hm|rw l t f h i m off Hl Ht|rw l t f h i p Hl Ht].
  - eapply ts_move; [exact Hi|done|congruence| |intros j Hj; by rewrite list_lookup_insert_ne|apply Hi].
    eapply reach_step; [apply Hi|]. by apply step_read.
  - assert (Ef : f = f1).
    { apply (no_writer_file _ _ _ _ Hi). intros j Hj. destruct (decide (j = i)) as [->|Hne]; [cbn in *; congruence|].
      by eapply (inside_alone _ _ _ _ i _ Hi Hl (or_introl eq_refl) j Hne). }
    eapply ts_move; [exact Hi|done|congruence|apply Hi|done|]. rewrite Ef. constructor. apply Hi.
  - eapply ts_move; [exact Hi|done|congruence| |intros j Hj; by rewrite list_lookup_insert_ne|apply Hi].
    eapply reach_step; [apply Hi|]. by apply step_read_end.
Qed.

(** A call, a chunk and the return of [pwrite]. *)
Lemma pwrite_inv n f0 s s' f1 : ts_inv n f0 s f1 → thread_safe_pwrite s s' → ∃ f2, ts_inv n f0 s' f2.
Proof.
  intros Hi Hs. destruct Hs as [rw l t f h i src off Hl Ht Ho|rw l t f h i src off rest pos f' rest' pos' Hl Ht Hr
    |rw l t f h i src off rest pos p Hl Ht Hr|rw l t f h i p Hl Ht].
  - exists f1. destruct Hi as [I1 I2 I3 I4]. cbn in *. constructor; cbn; [|done| |].
    + eapply reach_step; [exact I1|]. by apply step_write.
    + intros j src' o rest pos Hj. destruct (decide (j = i)) as [->|Hne].
      * rewrite list_lookup_insert_eq in Hj by eauto using lookup_lt_Some. rewrite list_lookup_insert_eq by eauto using lookup_lt_Some.
        left. by injection Hj as <- <- <- <-.
      * rewrite list_lookup_insert_ne in Hj by done. rewrite list_lookup_insert_ne by done. by apply I3.
    + intros Hw. apply I4. intros j src' o rest pos Hj. destruct (decide (j = i)) as [->|Hne]; [congruence|].
      rewrite <- (list_lookup_insert_ne l i j AW_write) by done. eapply (Hw j). by rewrite list_lookup_insert_ne.
  - exists f1. pose proof (inside_alone _ _ _ _ i _ Hi Hl (or_intror eq_refl)) as Halone. destruct Hi as [I1 I2 I3 I4]. cbn in *.
    assert (Hin : (i < length t)%nat) by eauto using lookup_lt_Some. constructor; cbn; [done|done| |].
    + intros j src' o rest1 pos1 Hj. destruct (decide (j = i)) as [->|Hne].
      * rewrite list_lookup_insert_eq in Hj by done. injection Hj as <- <- <- <-. right. split; [done|]. intros f2 r Hp.
        destruct (I3 _ _ _ _ _ Ht) as [[? _]|[_ Hc]]; [congruence|]. apply Hc. by eapply pwrites_round.
      * rewrite list_lookup_insert_ne in Hj by done. destruct (I3 _ _ _ _ _ Hj) as [?|[Hw _]]; [by left|]. by destruct (Halone j Hne).
    + intros Hw. exfalso. eapply (Hw i); [by rewrite list_lookup_insert_eq|exact Hl].
  - exists f. pose proof (inside_alone _ _ _ _ i _ Hi Hl (or_intror eq_refl)) as Halone. destruct Hi as [I1 I2 I3 I4]. cbn in *.
    destruct (I3 _ _ _ _ _ Ht) as [[? _]|[_ Hc]]; [congruence|]. constructor; cbn; [done| | |done].
    + eapply atomic_write; [exact I2|]. apply Hc. by constructor.
    + intros j src' o rest1 pos1 Hj. destruct (decide (j = i)) as [->|Hne].
      * rewrite list_lookup_insert_eq in Hj by eauto using lookup_lt_Some. done.
      * rewrite list_lookup_insert_ne in Hj by done. destruct (I3 _ _ _ _ _ Hj) as [?|[Hw _]]; [by left|]. by destruct (Halone j Hne).
  - exists f1. eapply ts_move; [exact Hi|done|congruence| |intros j Hj; by rewrite list_lookup_insert_ne|apply Hi].
    eapply reach_step; [apply Hi|]. by apply step_write_end.
Qed.

(** A step inside an operation of the lock: a writer that gets in finds the file of the
    sequence. *)
Lemma lock_inv n f0 rw l t f h f1 i p p' rw' :
  ts_inv n f0 (mkts rw l t f h) f1 → l !! i = Some p → exec p rw = (p', rw') → ts_inv n f0 (mkts rw' (<[i := p']> l) t f h) f1.
Proof.
  intros [I1 I2 I3 I4] Hl He. cbn in *. assert (Hr : reachable n (rw', <[i := p']> l)) by (eapply reach_step; [exact I1|]; by eapply step_exec).
  assert (Hin : (i < length l)%nat) by eauto using lookup_lt_Some. constructor; cbn; [done|done| |].
  - intros j src o rest pos Hj. destruct (decide (j = i)) as [->|Hne]; [|rewrite list_lookup_insert_ne by done; by apply I3].
    rewrite list_lookup_insert_eq by done. destruct (I3 _ _ _ _ _ Hj) as [(Hp & -> & ->)|[Hp Hc]].
    + assert (p = AW_write) as -> by congruence. cbn in He. injection He as <- <-. destruct (writelock rw =? 1); [|left; by split_and!].
      right. split; [done|]. assert (f = f1) as ->; [|done]. apply I4. intros k src' o' rest' pos' Hk Hkw.
      assert (Hki : k ≠ i) by (intros ->; congruence). apply (writer_alone n _ k i Writing Hr); cbn; [by rewrite list_lookup_insert_ne|done| |by right].
      by rewrite list_lookup_insert_eq.
    + assert (p = Writing) as -> by congruence. cbn in He. injection He as <- <-. by right.
  - intros Hw. apply I4. intros j src o rest pos Hj Hjw. destruct (decide (j = i)) as [->|Hne].
    + assert (p = Writing) as -> by congruence. cbn in He. injection He as <- <-. eapply Hw; [exact Hj|]. by rewrite list_lookup_insert_eq.
    + eapply Hw; [exact Hj|]. by rewrite list_lookup_insert_ne.
Qed.

(** C8: reads and writes through the guard are atomic: however the threads interleave,
    the calls that have taken effect, each at a point inside the call, are those of
    a sequence of whole writes and reads one after the other, and the file is what the
    sequence gives whenever no thread writes. *)
Theorem guard_atomic n f0 s : ts_reach n f0 s →
  ∃ f1, atomic f0 (t_hist s) f1 ∧ ((∀ i, t_pc s !! i ≠ Some Writing) → t_file s = f1).
Proof.
  intros Hr. assert (H : ∃ f1, ts_inv n f0 s f1).
  { induction Hr as [|s s' _ [f1 IH] Hs].
    - exists f0. constructor; cbn; [constructor|constructor| |done]. intros i src o rest pos [? _]%lookup_replicate. done.
    - destruct Hs as [s s' Hs|s s' Hs|rw l t f h i p p' rw' Hl He].
      + exists f1. by eapply pread_inv.
      + by eapply pwrite_inv.
      + exists f1. by eapply lock_inv. }
  destruct H as [f1 Hi]. exists f1. split; [apply Hi|]. apply (no_writer_file n f0 s f1 Hi).
Qed.
End Guard.

(** ** The guard in the memory of the process *)

Section Alloc.
Context (base : Z) (grow : Z → Z → bool) (heap0 : Z).
Context (Hbase : 0 < base) (Hheap0 : base + 8 ≤ heap0) (Hgrow : ∀ b n, grow b n = true → b + n ≤ KERNBASE).

(** [sizeof(thread_safe_guard)]: the three words of the lock, and [fd]. *)
Definition SIZE_GUARD : Z := 16.

Definition put_word (a v : Z) : M heap unit := modify (λ s, s <| umem := store32 (umem s) a (u32 v) |>).

(** What the system call [rwlock_init] stores. *)
Definition put_rwlock (a : Z) (rw : rwlock) : M heap unit :=
  _ ← put_word (a + 8) (readers rw); _ ← put_word a (lock rw); put_word (a + 4) (writelock rw).

Definition thread_safe_guard_init (fd : Z) : M heap Z :=
  safe_guard ← malloc base grow SIZE_GUARD;
  _ ← put_word (safe_guard + 12) fd;
  _ ← put_rwlock safe_guard rwlock_init;
  mret safe_guard.

Definition thread_safe_guard_destroy (file_guard : Z) : M heap unit := free file_guard.

Definition guard_words (m : mem) (p : Z) : list Z := [load32 m p; load32 m (p + 4); load32 m (p + 8); load32 m (p + 12)].

Definition guard_mem (m : mem) (p fd : Z) : mem :=
  store32 (store32 (store32 (store32 m (p + 12) (u32 fd)) (p + 8) 0) p 1) (p + 4) 1.

Lemma guard_mem_words m p fd : guard_words (guard_mem m p fd) p = [1; 1; 0; u32 fd].
Proof.
  unfold guard_words, guard_mem. pose proof (u32_range fd) as Hfd.
  rewrite (load32_apart _ (p + 4) 1 p), (load32_store32 _ p), (load32_store32 _ (p + 4)) by (done || lia).
  rewrite !(load32_apart _ _ _ (p + 8)), (load32_store32 _ (p + 8)), !(load32_apart _ _ _ (p + 12)), load32_store32 by (done || lia). done.
Qed.

Lemma guard_mem_other m p fd x : ¬ (p ≤ x < p + 16) → guard_mem m p fd x = m x.
Proof. intros Hx. unfold guard_mem. rewrite !store32_other by lia. done. Qed.

(** A guard that was allocated is open with no reader or writer, belongs to its caller
    alone, and can be given back; the other requests of the process keep their bytes. *)
Lemma guard_lifecycle s live fd :
  heap_ok base heap0 s live → sizes_ok live →
  returns (thread_safe_guard_init fd) s (λ p s',
    (p = 0 ∧ grow (brk s) (8 * core_units (units SIZE_GUARD)) = false) ∨
    keeps_live live s s' ∧ guard_words (umem s') p = [1; 1; 0; u32 fd] ∧
    returns (thread_safe_guard_destroy p) s' (λ _ s'', keeps_live live s s'' ∧ heap_ok base heap0 s'' live)).
Proof.
  intros Hok Hsz. unfold thread_safe_guard_init. apply returns_bind.
  eapply returns_mono; [apply (malloc_ok base grow heap0 Hbase Hheap0 Hgrow s live SIZE_GUARD Hok Hsz); unfold SIZE_GUARD; lia|].
  intros p s1 [Hk Hp]. unfold put_rwlock, put_word. repeat (apply returns_bind, returns_modify). apply returns_ret.
  destruct (Z.eqb_spec p 0) as [->|Hne]; [left; split; [done|apply Hp]|right]. cbn [umem set].
  change (u32 (readers rwlock_init)) with 0. change (u32 (lock rwlock_init)) with 1. change (u32 (writelock rwlock_init)) with 1.
  fold (guard_mem (umem s1) p fd). assert (Hsz' : sizes_ok ((p, SIZE_GUARD) :: live)) by (constructor; [cbn; unfold SIZE_GUARD; lia|done]).
  destruct (heap_ok_disjoint base grow heap0 s1 _ Hp Hsz') as [_ Hdis].
  assert (Hkeep : ∀ r x, r ∈ live → r.1 ≤ x < r.1 + r.2 → guard_mem (umem s1) p fd x = umem s x).
  { intros r x Hr Hx. rewrite guard_mem_other; [by eapply Hk|]. apply list_elem_of_lookup in Hr as (i & Hr).
    destruct (Hdis 0%nat (S i) (p, SIZE_GUARD) r) as [H|H]; [done|done|done|cbn in H; unfold SIZE_GUARD in *; lia..]. }
  split_and!; [exact Hkeep|apply guard_mem_words|]. eapply returns_mono.
  { apply (free_live base grow heap0 Hbase Hheap0 _ [] p SIZE_GUARD live); [|done].
    apply (heap_ok_write base grow heap0 Hheap0 s1 _ (guard_mem (umem s1) p fd) Hp Hsz').
    intros x Hx. apply guard_mem_other. specialize (Hx (p, SIZE_GUARD) (list_elem_of_here _ _)). cbn in Hx. unfold SIZE_GUARD in Hx. lia. }
  intros [] s2 [Hk2 Hok2]. split; [|done]. intros r x Hr Hx. rewrite (Hk2 r x Hr Hx). by eapply Hkeep.
Qed.
End Alloc.

(** ** A write in two chunks and a read *)

Lemma ts_reach_lock mf mc n f0 rw l t f h i p rw' l' :
  ts_reach mf mc n f0 (mkts rw l t f h) → l !! i = Some p → rw' = (exec p rw).2 → l' = <[i := (exec p rw).1]> l →
  ts_reach mf mc n f0 (mkts rw' l' t f h).
Proof. intros Hr Hl -> ->. eapply ts_next; [exact Hr|]. eapply ts_lock; [exact Hl|]. by destruct (exec p rw). Qed.

Definition demo_ts : tsys :=
  mkts (mkrw 1 0 1) [Idle; Reading] [Tnone; Tback 1] [7; 8] [Ewrite 0 [7; 8] 0 2; Eread 1 5 1 (1, [8])].

Lemma demo_ts_reach : ts_reach 100 1 2 [] demo_ts.
Proof.
  assert (H : ts_reach 100 1 2 [] (mkts rwlock_init [AW_write; Idle] [Twrite [7; 8] 0 [7; 8] 0; Tnone] [] [])).
  { eapply ts_next; [constructor|]. apply ts_write. by apply (pwrite_call 100 1 rwlock_init [Idle; Idle] [Tnone; Tnone] [] [] 0 [7; 8] 0). }
  eapply (ts_reach_lock _ _ _ _ _ _ _ _ _ 0 _ (mkrw 1 0 0) [Writing; Idle]) in H; [|reflexivity..].
  assert (H1 : ts_reach 100 1 2 [] (mkts (mkrw 1 0 0) [Writing; Idle] [Twrite [7; 8] 0 [8] 1; Tnone] [7] [])).
  { eapply ts_next; [exact H|]. apply ts_write. by apply (pwrite_chunk 100 1 _ _ [Twrite [7; 8] 0 [7; 8] 0; Tnone] [] [] 0 [7; 8] 0 [7; 8] 0). }
  assert (H2 : ts_reach 100 1 2 [] (mkts (mkrw 1 0 0) [Writing; Idle] [Twrite [7; 8] 0 [] 2; Tnone] [7; 8] [])).
  { eapply ts_next; [exact H1|]. apply ts_write. by apply (pwrite_chunk 100 1 _ _ [Twrite [7; 8] 0 [8] 1; Tnone] [7] [] 0 [7; 8] 0 [8] 1). }
  assert (H3 : ts_reach 100 1 2 [] (mkts (mkrw 1 0 0) [Writing; Idle] [Tback 2; Tnone] [7; 8] [Ewrite 0 [7; 8] 0 2])).
  { eapply ts_next; [exact H2|]. apply ts_write. by apply (pwrite_return 100 1 _ _ [Twrite [7; 8] 0 [] 2; Tnone] _ [] 0 [7; 8] 0 [] 2). }
  assert (H4 : ts_reach 100 1 2 [] (mkts (mkrw 1 0 0) [RW_write; Idle] [Tnone; Tnone] [7; 8] [Ewrite 0 [7; 8] 0 2])).
  { eapply ts_next; [exact H3|]. apply ts_write. by apply (pwrite_release 100 1 _ [Writing; Idle] [Tback 2; Tnone] _ _ 0 2). }
  eapply (ts_reach_lock _ _ _ _ _ _ _ _ _ 0 _ (mkrw 1 1 0) [Idle; Idle]) in H4; [|reflexivity..].
  assert (H5 : ts_reach 100 1 2 [] (mkts (mkrw 1 1 0) [Idle; AR_lock] [Tnone; Tread 5 1] [7; 8] [Ewrite 0 [7; 8] 0 2])).
  { eapply ts_next; [exact H4|]. apply ts_read. by apply (pread_call _ [Idle; Idle] [Tnone; Tnone] _ _ 1 5 1). }
  eapply (ts_reach_lock _ _ _ _ _ _ _ _ _ 1 _ (mkrw 0 1 0) [Idle; AR_load]) in H5; [|reflexivity..].
  eapply (ts_reach_lock _ _ _ _ _ _ _ _ _ 1 _ (mkrw 0 1 0) [Idle; AR_store 0]) in H5; [|reflexivity..].
  eapply (ts_reach_lock _ _ _ _ _ _ _ _ _ 1 _ (mkrw 0 1 1) [Idle; AR_test]) in H5; [|reflexivity..].
  eapply (ts_reach_lock _ _ _ _ _ _ _ _ _ 1 _ (mkrw 0 1 1) [Idle; AR_write]) in H5; [|reflexivity..].
  eapply (ts_reach_lock _ _ _ _ _ _ _ _ _ 1 _ (mkrw 0 0 1) [Idle; AR_unlock]) in H5; [|reflexivity..].
  eapply (ts_reach_lock _ _ _ _ _ _ _ _ _ 1 _ (mkrw 1 0 1) [Idle; Reading]) in H5; [|reflexivity..].
  eapply ts_next; [exact H5|]. apply ts_read. by apply (pread_read (mkrw 1 0 1) [Idle; Reading] [Tnone; Tread 5 1] [7; 8] [Ewrite 0 [7; 8] 0 2] 1 5 1).
Qed.

Lemma guard_atomic_witness :
  ∃ f1, atomic 100 1 [] [Ewrite 0 [7; 8] 0 2; Eread 1 5 1 (1, [8])] f1 ∧ ((∀ i, [Idle; Reading] !! i ≠ Some Writing) → [7; 8] = f1).
Proof. exact (guard_atomic 100 1 2 [] demo_ts demo_ts_reach). Defined.
