(* ===== verification/UserIo.v ===== *)
(** User programs that copy and count their input (cat.c, wc.c, echo.c).

    The kernel is seen through the calls these programs make: what the successive reads
    of a descriptor return, what [open] finds, and which writes succeed.
    The counters of wc do not overflow here. *)

From S2P Require Import Prelude Ulib Printf.

(** ** Descriptors *)

(** What is still to be read from a descriptor: the pieces that arrive, where [None] is
    an error of the device. *)
Abbreviation stream := (list (option (list Z))) (only parsing).

Record world := mkworld { w_fds : list (option stream); w_out : list (Z * list Z) }.
#[export] Instance world_eta : Eta world := λ w, mkworld (w_fds w) (w_out w).

(** The first free descriptor. *)
Fixpoint lowest (fds : list (option stream)) : option nat :=
  match fds with [] => None | None :: _ => Some O | Some _ :: fds => S <$> lowest fds end.

Section Programs.
(** The files that can be opened, and which writes succeed after those made so far. *)
Context (files : list Z → option stream) (writes : list (Z * list Z) → Z → list Z → bool).

(** [read(fd, buf, n)]: the result and the bytes. *)
Definition read (fd n : Z) : M world (Z * list Z) := λ w,
  match w_fds w !! Z.to_nat fd with
  | Some (Some (Some (x :: l) :: st)) =>
      let b := take (Z.to_nat n) (x :: l) in
      let st' := if decide (length (x :: l) ≤ Z.to_nat n)%nat then st else Some (drop (Z.to_nat n) (x :: l)) :: st in
      Ok (Z.of_nat (length b), b) (w <| w_fds := <[Z.to_nat fd := Some st']> (w_fds w) |>)
  | Some (Some []) | Some (Some (Some [] :: _)) => Ok (0, []) w
  | _ => Ok (-1, []) w
  end.

Definition write (fd : Z) (b : list Z) : M world Z := λ w,
  if writes (w_out w) fd b then Ok (Z.of_nat (length b)) (w <| w_out := w_out w ++ [(fd, b)] |>) else Ok (-1) w.

Definition open (path : list Z) : M world Z := λ w,
  match files path, lowest (w_fds w) with
  | Some st, Some n => Ok (Z.of_nat n) (w <| w_fds := <[n := Some st]> (w_fds w) |>)
  | _, _ => Ok (-1) w
  end.

Definition close (fd : Z) : M world unit := modify (λ w, w <| w_fds := <[Z.to_nat fd := None]> (w_fds w) |>).

(** [printf(fd, fmt, ...)] writes one character at a time and does not look at the
    results. *)
Fixpoint emit_chars (fd : Z) (s : list Z) : M world unit :=
  match s with [] => skip | c :: s => _ ← write fd [c]; emit_chars fd s end.
Definition fprintf (fd : Z) (fmt : list Z) (ap : list arg) : M world unit :=
  match printf fmt ap [] with
  | Ok _ out => emit_chars fd out
  | Undef why => undef why
  | _ => λ _, NoFuel
  end.

Definition NL : list Z := [10].

(** ** cat.c

    A function returns [false] when it called [exit]. *)

Fixpoint cat_loop (fuel : nat) (fd : Z) : M world bool :=
  match fuel with
  | O => λ _, NoFuel
  | S fuel =>
      r ← read fd 512;
      if 0 <? r.1 then
        n ← write 1 r.2;
        if negb (n =? r.1) then _ ← fprintf 1 (chars "cat: write error" ++ NL) []; mret false
        else cat_loop fuel fd
      else if r.1 <? 0 then _ ← fprintf 1 (chars "cat: read error" ++ NL) []; mret false
      else mret true
  end.

(** Reads enough to reach the end: each takes a byte at least. *)
Definition reads_left (fd : Z) (w : world) : nat :=
  match w_fds w !! Z.to_nat fd with
  | Some (Some st) => S (sum_list (length ∘ default [] <$> st))
  | _ => 1
  end.
Definition cat (fd : Z) : M world bool := λ w, cat_loop (reads_left fd w) fd w.

Fixpoint cat_files (argv : list (list Z)) : M world unit :=
  match argv with
  | [] => skip
  | a :: argv =>
      fd ← open a;
      if fd <? 0 then fprintf 1 (chars "cat: cannot open %s" ++ NL) [Str (Some a)] else
      b ← cat fd;
      if b : bool then _ ← close fd; cat_files argv else skip
  end.

(** [main] of cat.c; [argv] without the name of the program. *)
Definition cat_main (argv : list (list Z)) : M world unit :=
  match argv with [] => _ ← cat 0; skip | _ => cat_files argv end.

(** ** wc.c *)

Record counts := mkcounts { c_l : Z; c_w : Z; c_c : Z; inword : bool }.

Definition SPACES : list Z := chars " " ++ [13; 9; 10; 11].

(** The body of the inner loop. *)
Definition wc_char (n : counts) (x : Z) : counts :=
  let l := if x =? 10 then c_l n + 1 else c_l n in
  if in_str SPACES x then mkcounts l (c_w n) (c_c n + 1) false
  else if negb (inword n) then mkcounts l (c_w n + 1) (c_c n + 1) true
  else mkcounts l (c_w n) (c_c n + 1) (inword n).

Fixpoint wc_loop (fuel : nat) (fd : Z) (n : counts) : M world (option counts) :=
  match fuel with
  | O => λ _, NoFuel
  | S fuel =>
      r ← read fd 512;
      if 0 <? r.1 then wc_loop fuel fd (foldl wc_char n r.2)
      else if r.1 <? 0 then _ ← fprintf 1 (chars "wc: read error" ++ NL) []; mret None
      else mret (Some n)
  end.

Definition wc (fd : Z) (name : list Z) : M world bool := λ w,
  (r ← wc_loop (reads_left fd w) fd (mkcounts 0 0 0 false);
   match r with
   | None => mret false
   | Some n => _ ← fprintf 1 (chars "%d %d %d %s" ++ NL) [Num (c_l n); Num (c_w n); Num (c_c n); Str (Some name)]; mret true
   end) w.

Fixpoint wc_files (argv : list (list Z)) : M world unit :=
  match argv with
  | [] => skip
  | a :: argv =>
      fd ← open a;
      if fd <? 0 then fprintf 1 (chars "wc: cannot open %s" ++ NL) [Str (Some a)] else
      b ← wc fd a;
      if b : bool then _ ← close fd; wc_files argv else skip
  end.

Definition wc_main (argv : list (list Z)) : M world unit :=
  match argv with [] => _ ← wc 0 []; skip | _ => wc_files argv end.

(** ** echo.c *)

Fixpoint echo_main (argv : list (list Z)) : M world unit :=
  match argv with
  | [] => skip
  | a :: argv =>
      _ ← fprintf 1 (chars "%s%s") [Str (Some a); Str (Some (match argv with [] => NL | _ => chars " " end))];
      echo_main argv
  end.

(** ** What the programs write *)

(** The bytes written to a descriptor. *)
Definition bytes_to (fd : Z) (out : list (Z * list Z)) : list Z := concat (filter (λ o, o.1 = fd) out).*2.

Lemma bytes_to_app fd o1 o2 : bytes_to fd (o1 ++ o2) = bytes_to fd o1 ++ bytes_to fd o2.
Proof. unfold bytes_to. by rewrite filter_app, fmap_app, concat_app. Qed.

(** A descriptor with the pieces [ps] to read. *)
Definition has (fd : Z) (ps : list (list Z)) (w : world) : Prop :=
  w_fds w !! Z.to_nat fd = Some (Some (Some <$> ps)) ∧ Forall (λ p, p ≠ []) ps.

Lemma read_end fd w (Q : Z * list Z → world → Prop) : has fd [] w → Q (0, []) w → returns (read fd 512) w Q.
Proof. intros [E _] HQ. unfold returns, read. by rewrite E. Qed.

Lemma read_some fd p ps w (Q : Z * list Z → world → Prop) : has fd (p :: ps) w →
  (∀ b ps' fds, b ≠ [] → p ++ concat ps = b ++ concat ps' → has fd ps' (w <| w_fds := fds |>) →
     fds = <[Z.to_nat fd := Some (Some <$> ps')]> (w_fds w) → Q (Z.of_nat (length b), b) (w <| w_fds := fds |>)) →
  returns (read fd 512) w Q.
Proof.
  intros [E Hne] HQ. apply Forall_cons in Hne as [Hp Hps]. destruct p as [|x l]; [done|]. unfold returns, read. rewrite E. cbn [fmap list_fmap].
  assert (Hl : (Z.to_nat fd < length (w_fds w))%nat) by eauto using lookup_lt_Some. case_decide as Hd.
  - rewrite take_ge by done. apply (HQ (x :: l) ps); [done|done| |done]. split; [cbn; by rewrite list_lookup_insert_eq|done].
  - change (Some (drop (Z.to_nat 512) (x :: l)) :: (Some <$> ps)) with (Some <$> (drop (Z.to_nat 512) (x :: l) :: ps)).
    apply (HQ _ (drop (Z.to_nat 512) (x :: l) :: ps)); [done|cbn [concat]; by rewrite app_assoc, take_drop| |done].
    split; [cbn [w_fds set]; by rewrite list_lookup_insert_eq|]. constructor; [|done]. intros E0%(f_equal length).
    rewrite length_drop in E0. cbn [length] in *. lia.
Qed.

Hypothesis writes_ok : ∀ h fd b, writes h fd b = true.

Lemma emit_chars_ok fd s w : returns (emit_chars fd s) w (λ _ w', w_fds w' = w_fds w ∧ bytes_to fd (w_out w') = bytes_to fd (w_out w) ++ s).
Proof.
  revert w. induction s as [|c s IH]; intros w; cbn [emit_chars]; [apply returns_ret; by rewrite app_nil_r|]. apply returns_bind.
  unfold write, returns at 1. rewrite writes_ok. eapply returns_mono; [apply IH|]. intros [] w' [E1 E2]. split; [exact E1|]. cbn [w_out set] in E2.
  rewrite E2, bytes_to_app, <- app_assoc. f_equal. unfold bytes_to. rewrite filter_cons_True by done. done.
Qed.

Lemma fprintf_ok fd fmt ap t w : printf fmt ap [] = Ok tt t →
  returns (fprintf fd fmt ap) w (λ _ w', w_fds w' = w_fds w ∧ bytes_to fd (w_out w') = bytes_to fd (w_out w) ++ t).
Proof. intros E. unfold fprintf. rewrite E. apply emit_chars_ok. Qed.

(** ** cat *)

Lemma cat_loop_ok fuel fd ps w : has fd ps w → (length (concat ps) < fuel)%nat →
  returns (cat_loop fuel fd) w (λ b w', b = true ∧ w_fds w' = <[Z.to_nat fd := Some []]> (w_fds w) ∧
    bytes_to 1 (w_out w') = bytes_to 1 (w_out w) ++ concat ps).
Proof.
  revert ps w. induction fuel as [|fuel IH]; intros ps w Hh Hf; [lia|]. cbn [cat_loop]. apply returns_bind. destruct ps as [|p ps].
  - apply (read_end fd w _ Hh). cbn. apply returns_ret. destruct Hh as [E _]. split_and!; [done| |by rewrite app_nil_r].
    symmetry. by apply list_insert_id.
  - apply (read_some fd p ps w _ Hh). intros b ps' fds Hb Ec Hh' ->. destruct b as [|x b]; [done|]. cbn [fst snd].
    rewrite (proj2 (Z.ltb_lt 0 _)) by (cbn [length]; lia). apply returns_bind. unfold write, returns at 1. rewrite writes_ok.
    rewrite Z.eqb_refl. cbn [negb]. cbn [concat] in Hf. rewrite Ec in Hf. eapply returns_mono; [apply (IH ps')|].
    + exact Hh'.
    + rewrite length_app in Hf. cbn [length] in Hf. lia.
    + intros r w' (-> & E1 & E2). cbn [w_out w_fds set] in E1, E2. split_and!; [done|by rewrite E1, list_insert_insert_eq|].
      rewrite E2, bytes_to_app, <- app_assoc. f_equal. cbn [concat]. rewrite Ec. f_equal. unfold bytes_to. rewrite filter_cons_True by done.
      cbn. by rewrite app_nil_r.
Qed.

Lemma reads_left_has fd ps w : has fd ps w → reads_left fd w = S (length (concat ps)).
Proof.
  intros [E _]. unfold reads_left. rewrite E. f_equal. clear E. induction ps as [|p ps IH]; [done|]. cbn. rewrite length_app. f_equal. exact IH.
Qed.

(** What [cat] prints of its files: it stops at the first that cannot be opened. *)
Fixpoint cat_text (argv : list (list Z)) : list Z :=
  match argv with
  | [] => []
  | a :: argv =>
      match files a with
      | None => chars "cat: cannot open " ++ a ++ NL
      | Some st => concat (default [] <$> st) ++ cat_text argv
      end
  end.

(** The files have no read errors. *)
Hypothesis files_ok : ∀ a st, files a = Some st → ∃ ps, st = Some <$> ps ∧ Forall (λ p, p ≠ []) ps.

Lemma lowest_spec fds n : lowest fds = Some n → fds !! n = Some None.
Proof.
  revert n. induction fds as [|[st|] fds IH]; intros n; cbn [lowest]; [done| |by intros [= <-]].
  destruct (lowest fds) as [k|]; [|done]. intros [= <-]. cbn. by apply IH.
Qed.

(** Opening a file that exists. *)
Lemma open_ok a ps w n : files a = Some (Some <$> ps) → Forall (λ p, p ≠ []) ps → lowest (w_fds w) = Some n →
  open a w = Ok (Z.of_nat n) (w <| w_fds := <[n := Some (Some <$> ps)]> (w_fds w) |>) ∧
  has (Z.of_nat n) ps (w <| w_fds := <[n := Some (Some <$> ps)]> (w_fds w) |>) ∧
  <[n := None]> (<[n := Some []]> (<[n := Some (Some <$> ps)]> (w_fds w))) = w_fds w.
Proof.
  intros Ea Hp Hl. pose proof (lowest_spec _ _ Hl) as E. assert (Hlt : (n < length (w_fds w))%nat) by eauto using lookup_lt_Some.
  unfold open. rewrite Ea, Hl. split_and!; [done| |].
  - split; [|done]. rewrite Nat2Z.id. cbn. by rewrite list_lookup_insert_eq.
  - rewrite !list_insert_insert_eq. by apply list_insert_id.
Qed.

Lemma open_fails a w : files a = None → open a w = Ok (-1) w.
Proof. intros E. unfold open. by rewrite E. Qed.

(** A literal text has no [%]. *)
Ltac plain := apply (bool_decide_eq_true_1 _); by vm_compute.

Lemma cat_open_message a : printf (chars "cat: cannot open %s" ++ NL) [Str (Some a)] [] = Ok tt (chars "cat: cannot open " ++ a ++ NL).
Proof.
  change (chars "cat: cannot open %s" ++ NL) with (chars "cat: cannot open " ++ PERCENT :: 115 :: NL ++ []). unfold printf.
  rewrite printf_text, printf_str, printf_text by plain. cbn [app]. by rewrite <- !app_assoc.
Qed.

Lemma cat_ok fd ps w : has fd ps w →
  returns (cat fd) w (λ b w', b = true ∧ w_fds w' = <[Z.to_nat fd := Some []]> (w_fds w) ∧
    bytes_to 1 (w_out w') = bytes_to 1 (w_out w) ++ concat ps).
Proof. intros Hh. unfold returns, cat. rewrite (reads_left_has fd ps w Hh). apply (cat_loop_ok _ fd ps w Hh). lia. Qed.

Lemma default_pieces (ps : list (list Z)) : default [] <$> (Some <$> ps) = ps.
Proof. rewrite <- list_fmap_compose. apply list_fmap_id. Qed.

Lemma cat_files_ok argv n w : lowest (w_fds w) = Some n →
  returns (cat_files argv) w (λ _ w', bytes_to 1 (w_out w') = bytes_to 1 (w_out w) ++ cat_text argv).
Proof.
  revert w. induction argv as [|a argv IH]; intros w Hn; cbn [cat_files cat_text]; [apply returns_ret; by rewrite app_nil_r|].
  apply returns_bind. destruct (files a) as [st|] eqn:Ea.
  - destruct (files_ok a st Ea) as (ps & -> & Hps). destruct (open_ok a ps w n Ea Hps Hn) as (Eo & Hh & Eback).
    eapply ok_returns; [exact Eo|]. rewrite (proj2 (Z.ltb_ge (Z.of_nat n) 0)) by lia. apply returns_bind.
    eapply returns_mono; [apply (cat_ok _ ps _ Hh)|]. intros r w1 (-> & E1 & E2). apply returns_bind, returns_modify.
    eapply returns_mono; [apply IH; cbn [w_fds set] in *; by rewrite E1, Nat2Z.id, Eback|]. intros [] w2 E3. cbn [w_out set] in *.
    rewrite E3, E2, default_pieces. by rewrite app_assoc.
  - eapply ok_returns; [by apply open_fails|]. cbn. eapply returns_mono; [apply fprintf_ok, cat_open_message|]. by intros [] w' [_ ->].
Qed.

(** [cat] writes the contents of its files one after the other, in whatever pieces
    they are read, and stops with a message at the first file that cannot be opened. *)
Theorem cat_concatenates argv w : argv ≠ [] → is_Some (lowest (w_fds w)) →
  returns (cat_main argv) w (λ _ w', bytes_to 1 (w_out w') = bytes_to 1 (w_out w) ++ cat_text argv).
Proof. intros Hne [n Hn]. destruct argv as [|a argv]; [done|]. by apply (cat_files_ok (a :: argv) n). Qed.

(** ** wc *)

(** A word starts where a character that is no space follows a space or the start. *)
Definition words_of (s : list Z) : Z :=
  Z.of_nat (length (filter (λ p, in_str SPACES p.1 = true ∧ in_str SPACES p.2 = false) (zip (32 :: s) s))).
Definition lines_of (s : list Z) : Z := Z.of_nat (length (filter (λ c, c = 10) s)).

Lemma wc_chars s : ∀ prev n, inword n = negb (in_str SPACES prev) →
  let n' := foldl wc_char n s in
  c_l n' = c_l n + lines_of s ∧
  c_w n' = c_w n + Z.of_nat (length (filter (λ p, in_str SPACES p.1 = true ∧ in_str SPACES p.2 = false) (zip (prev :: s) s))) ∧
  c_c n' = c_c n + Z.of_nat (length s).
Proof.
  induction s as [|x s IH]; intros prev n Hin; [split_and!; cbn; symmetry; apply Z.add_0_r|]. cbn [foldl]. cbv zeta.
  destruct (IH x (wc_char n x)) as (H1 & H2 & H3).
  { unfold wc_char. destruct (in_str SPACES x); [done|]. destruct (inword n) eqn:E; by cbn. }
  rewrite H1, H2, H3. unfold lines_of. cbn [zip zip_with]. rewrite !filter_cons. cbn [fst snd].
  unfold wc_char. rewrite Hin. destruct (Z.eqb_spec x 10) as [->|Hx].
  - rewrite decide_True by done. destruct (in_str SPACES prev), (in_str SPACES 10) eqn:E; cbn [negb c_l c_w c_c];
      case_decide as Hd; try (exfalso; destruct Hd; done); cbn [length]; lia.
  - rewrite decide_False by done. destruct (in_str SPACES prev), (in_str SPACES x) eqn:E; cbn [negb c_l c_w c_c];
      case_decide as Hd; try (exfalso; destruct Hd; done); cbn [length]; lia.
Qed.

Lemma wc_loop_ok fuel fd ps n w : has fd ps w → (length (concat ps) < fuel)%nat →
  returns (wc_loop fuel fd n) w (λ r w', r = Some (foldl wc_char n (concat ps)) ∧ w_fds w' = <[Z.to_nat fd := Some []]> (w_fds w) ∧ w_out w' = w_out w).
Proof.
  revert ps n w. induction fuel as [|fuel IH]; intros ps n w Hh Hf; [lia|]. cbn [wc_loop]. apply returns_bind. destruct ps as [|p ps].
  - apply (read_end fd w _ Hh). cbn. apply returns_ret. destruct Hh as [E _]. split_and!; [done| |done]. symmetry. by apply list_insert_id.
  - apply (read_some fd p ps w _ Hh). intros b ps' fds Hb Ec Hh' ->. destruct b as [|x b]; [done|]. cbn [fst snd].
    rewrite (proj2 (Z.ltb_lt 0 _)) by (cbn [length]; lia). cbn [concat] in Hf. rewrite Ec in Hf.
    eapply returns_mono; [apply (IH ps' _ _ Hh'); rewrite length_app in Hf; cbn [length] in Hf; lia|].
    intros r w' (-> & E1 & E2). cbn [w_fds w_out set] in *. cbn [concat]. rewrite Ec, foldl_app. split_and!; [done|by rewrite E1, list_insert_insert_eq|done].
Qed.

(** [wc] prints how many lines, words and bytes the file has, in whatever pieces it is
    read: the newlines, the places where a word starts, and the bytes. *)
Theorem wc_counts fd ps name w : has fd ps w → Z.of_nat (length (concat ps)) < 2147483648 →
  returns (wc fd name) w (λ b w', b = true ∧ ∃ l n c, digits_of 10 (lines_of (concat ps)) l ∧ digits_of 10 (words_of (concat ps)) n ∧
    digits_of 10 (Z.of_nat (length (concat ps))) c ∧
    bytes_to 1 (w_out w') = bytes_to 1 (w_out w) ++ (digit digits <$> l) ++ [32] ++ (digit digits <$> n) ++ [32] ++ (digit digits <$> c) ++ [32] ++ name ++ NL).
Proof.
  intros Hh Hlen. unfold returns, wc. rewrite (reads_left_has fd ps w Hh). set (s := concat ps) in *.
  change (returns (r ← wc_loop (S (length s)) fd (mkcounts 0 0 0 false);
    match r with
    | None => mret false
    | Some n => _ ← fprintf 1 (chars "%d %d %d %s" ++ NL) [Num (c_l n); Num (c_w n); Num (c_c n); Str (Some name)]; mret true
    end) w (λ b w', b = true ∧ ∃ l n c, digits_of 10 (lines_of s) l ∧ digits_of 10 (words_of s) n ∧ digits_of 10 (Z.of_nat (length s)) c ∧
    bytes_to 1 (w_out w') = bytes_to 1 (w_out w) ++ (digit digits <$> l) ++ [32] ++ (digit digits <$> n) ++ [32] ++ (digit digits <$> c) ++ [32] ++ name ++ NL)).
  apply returns_bind. eapply returns_mono; [apply (wc_loop_ok _ fd ps _ w Hh); apply Nat.lt_succ_diag_r|]. intros r w1 (-> & _ & Eo).
  destruct (wc_chars s 32 (mkcounts 0 0 0 false) eq_refl) as (H1 & H2 & H3). fold s. cbn [c_l c_w c_c] in *. rewrite H1, H2, H3. fold (words_of s).
  assert (Hl : 0 ≤ lines_of s ≤ Z.of_nat (length s)) by (unfold lines_of; pose proof (length_filter (λ c, c = 10) s); lia).
  assert (Hw : 0 ≤ words_of s ≤ Z.of_nat (length s)).
  { unfold words_of. pose proof (length_filter (λ p : Z * Z, in_str SPACES p.1 = true ∧ in_str SPACES p.2 = false) (zip (32 :: s) s)) as Hf.
    rewrite length_zip in Hf. cbn [length] in Hf. lia. }
  assert (Hp : returns (printf (chars "%d %d %d %s" ++ NL) [Num (0 + lines_of s); Num (0 + words_of s); Num (0 + Z.of_nat (length s)); Str (Some name)]) [] (λ _ t,
    ∃ l n c, digits_of 10 (lines_of s) l ∧ digits_of 10 (words_of s) n ∧ digits_of 10 (Z.of_nat (length s)) c ∧
      t = (digit digits <$> l) ++ [32] ++ (digit digits <$> n) ++ [32] ++ (digit digits <$> c) ++ [32] ++ name ++ NL)).
  { unfold printf. change (chars "%d %d %d %s" ++ NL) with (PERCENT :: 100 :: [32] ++ PERCENT :: 100 :: [32] ++ PERCENT :: 100 :: [32] ++ PERCENT :: 115 :: NL ++ []).
    apply printf_num; [lia|]. intros l Dl. unfold returns. rewrite printf_text by plain.
    apply printf_num; [lia|]. intros n Dn. unfold returns. rewrite printf_text by plain.
    apply printf_num; [lia|]. intros c Dc. unfold returns. rewrite printf_text, printf_str, printf_text by plain.
    exists l, n, c. cbn [app]. rewrite <- !app_assoc. done. }
  apply returns_ok in Hp as ([] & t & Ep & l & n & c & Dl & Dn & Dc & ->).
  apply returns_bind. eapply returns_mono; [apply (fprintf_ok 1 _ _ _ w1 Ep)|]. intros [] w2 [_ E2]. apply returns_ret.
  split; [done|]. exists l, n, c. rewrite E2, Eo. done.
Qed.

(** ** echo *)

Fixpoint echo_text (argv : list (list Z)) : list Z :=
  match argv with [] => [] | [a] => a ++ NL | a :: argv => a ++ chars " " ++ echo_text argv end.

(** [echo] prints its arguments with a space in between and a newline at the end. *)
Lemma echo_joins argv w : returns (echo_main argv) w (λ _ w', bytes_to 1 (w_out w') = bytes_to 1 (w_out w) ++ echo_text argv).
Proof.
  revert w. induction argv as [|a argv IH]; intros w; cbn [echo_main]; [apply returns_ret; by rewrite app_nil_r|]. apply returns_bind.
  set (t := match argv with [] => NL | _ => chars " " end).
  assert (Ep : printf (chars "%s%s") [Str (Some a); Str (Some t)] [] = Ok tt (a ++ t)).
  { unfold printf. change (chars "%s%s") with (PERCENT :: 115 :: PERCENT :: 115 :: []). by rewrite !printf_str. }
  eapply returns_mono; [apply (fprintf_ok 1 _ _ _ w Ep)|]. intros [] w1 [_ E1]. eapply returns_mono; [apply IH|]. intros [] w2 E2.
  rewrite E2, E1, <- !app_assoc. f_equal. f_equal. unfold t. destruct argv; [by rewrite app_nil_r|done].
Qed.
End Programs.

(** The file of three pieces that cut its words. *)
Definition demo_files (path : list Z) : option (list (option (list Z))) :=
  if bool_decide (path = chars "f") then Some [Some (chars "on"); Some (chars "e two"); Some [10]] else None.
Definition demo_world : world := mkworld (Some [] :: Some [] :: Some [] :: replicate 13 None) [].

Lemma demo_wc :
  match wc_main demo_files (λ _ _ _, true) [chars "f"; chars "g"] demo_world with
  | Ok _ w => bytes_to 1 (w_out w) = chars "1 2 8 f" ++ [10] ++ chars "wc: cannot open g" ++ [10]
  | _ => False
  end.
Proof. by vm_compute. Qed.

Lemma cat_concatenates_witness :
  returns (cat_main demo_files (λ _ _ _, true) [chars "f"; chars "f"]) demo_world
    (λ _ w', bytes_to 1 (w_out w') = chars "one two" ++ [10] ++ chars "one two" ++ [10]).
Proof.
  eapply returns_mono; [apply (cat_concatenates demo_files (λ _ _ _, true) (λ _ _ _, eq_refl))|].
  - intros a st. unfold demo_files. case_bool_decide; [|done]. intros [= <-]. exists [chars "on"; chars "e two"; [10]]. split; [done|].
    repeat constructor; done.
  - done.
  - by eexists.
  - intros [] w' E. rewrite E. by vm_compute.
Defined.

Lemma wc_counts_witness :
  has 3 [chars "on"; chars "e two"; [10]] (demo_world <| w_fds := <[3%nat := demo_files (chars "f")]> (w_fds demo_world) |>) ∧
  returns (wc (λ _ _ _, true) 3 (chars "f")) (demo_world <| w_fds := <[3%nat := demo_files (chars "f")]> (w_fds demo_world) |>) (λ b _, b = true).
Proof.
  assert (H : has 3 [chars "on"; chars "e two"; [10]] (demo_world <| w_fds := <[3%nat := demo_files (chars "f")]> (w_fds demo_world) |>)).
  { split; [by vm_compute|repeat constructor; done]. }
  split; [exact H|]. eapply returns_mono; [apply (wc_counts (λ _ _ _, true) (λ _ _ _, eq_refl) 3 _ (chars "f") _ H); by vm_compute|].
  intros b w' [Hb _]. exact Hb.
Defined.
