(* ===== verification/GrepMain.v ===== *)
(** grep on its files (grep.c): the buffer of 1024 bytes filled by successive reads,
    and what the program prints of regular files. *)

From S2P Require Import Prelude Ulib Printf Grep UserIo.

Section GrepMain.
Context (files : list Z → option (list (option (list Z)))) (writes : list (Z * list Z) → Z → list Z → bool).

(** The inner loop of [grep] on the [m] bytes [b] of the buffer, one write per
    matching line; what is left from [p] on. *)
Fixpoint print_lines (fuel : nat) (pattern b : list Z) : M world (list Z) :=
  match fuel with
  | O => mret b
  | S fuel =>
      match strchr b 10 with
      | None => mret b
      | Some n =>
          _ ← when (match_ pattern (take n b)) (_ ← write writes 1 (take n b ++ [10]); skip);
          print_lines fuel pattern (drop (S n) b)
      end
  end.

(** [grep(pattern, fd)] with the [m] bytes [b] kept in the buffer. *)
Fixpoint grep_reads (fuel : nat) (pattern : list Z) (fd : Z) (b : list Z) : M world unit :=
  match fuel with
  | O => λ _, NoFuel
  | S fuel =>
      r ← read fd (1024 - Z.of_nat (length b) - 1);
      if 0 <? r.1 then
        let b := b ++ r.2 in
        rest ← print_lines (length b) pattern b;
        grep_reads fuel pattern fd (if bool_decide (length rest = length b) then [] else rest)
      else skip
  end.

Definition grep_fd (pattern : list Z) (fd : Z) : M world unit := λ w,
  grep_reads (reads_left fd w) pattern fd [] w.

Fixpoint grep_files (pattern : list Z) (argv : list (list Z)) : M world unit :=
  match argv with
  | [] => skip
  | a :: argv =>
      fd ← open files a;
      if fd <? 0 then fprintf writes 1 (chars "grep: cannot open %s" ++ NL) [Str (Some a)] else
      _ ← grep_fd pattern fd;
      _ ← close fd;
      grep_files pattern argv
  end.

(** [main] of grep.c; [argv] without the name of the program. *)
Definition grep_main (argv : list (list Z)) : M world unit :=
  match argv with
  | [] => fprintf writes 2 (chars "usage: grep pattern [file ...]" ++ NL) []
  | [pattern] => grep_fd pattern 0
  | pattern :: argv => grep_files pattern argv
  end.

(** ** What is printed *)

Hypothesis writes_ok : ∀ h fd b, writes h fd b = true.

Lemma print_lines_ok fuel pattern b w : (length b ≤ fuel)%nat → 0 ∉ b →
  returns (print_lines fuel pattern b) w (λ rest w', rest = (split_lines b).2 ∧ w_fds w' = w_fds w ∧
    bytes_to 1 (w_out w') = bytes_to 1 (w_out w) ++ show pattern (split_lines b).1).
Proof.
  revert b w. induction fuel as [|fuel IH]; intros b w Hb H0; cbn [print_lines].
  - destruct b; [|cbn in Hb; lia]. apply returns_ret. by rewrite app_nil_r.
  - destruct (strchr b 10) as [n|] eqn:E.
    + apply strchr_Some in E as [Eb Hn]. assert (El : length b = (length (take n b) + S (length (drop (S n) b)))%nat).
      { rewrite Eb at 1. by rewrite length_app. }
      assert (Es : split_lines b = (take n b :: (split_lines (drop (S n) b)).1, (split_lines (drop (S n) b)).2)).
      { rewrite Eb at 1. by apply split_line. }
      rewrite Es. apply returns_bind. assert (Hr : 0 ∉ drop (S n) b) by (intros H; by apply H0, (subseteq_drop (S n))).
      unfold show. cbn [fst snd fmap list_fmap concat]. fold (show pattern (split_lines (drop (S n) b)).1).
      destruct (match_ pattern (take n b)); cbn [when].
      * apply returns_bind. unfold write, returns at 1. rewrite writes_ok. apply returns_ret.
        eapply returns_mono; [apply IH; [lia|done]|]. intros r w' (-> & E1 & E2). split_and!; [done|exact E1|]. cbn [w_out set] in E2.
        rewrite E2, bytes_to_app, <- app_assoc. f_equal. unfold bytes_to. rewrite filter_cons_True by done. cbn. by rewrite app_nil_r.
      * apply returns_ret. eapply returns_mono; [apply IH; [lia|done]|]. by intros r w' (-> & E1 & E2).
    + apply returns_ret. rewrite split_no_nl by (by apply strchr_None). by rewrite app_nil_r.
Qed.

(** A regular file with the bytes [t] from the offset on. *)
Definition piece (t : list Z) : list (option (list Z)) := match t with [] => [] | _ => [Some t] end.

Lemma read_piece fd n t w : w_fds w !! Z.to_nat fd = Some (Some (piece t)) → 0 < n →
  read fd n w = Ok (Z.of_nat (length (take (Z.to_nat n) t)), take (Z.to_nat n) t)
    (w <| w_fds := <[Z.to_nat fd := Some (piece (drop (Z.to_nat n) t))]> (w_fds w) |>).
Proof.
  intros E Hn. unfold read. rewrite E. destruct t as [|x t]; cbn [piece].
  - rewrite take_nil, drop_nil. cbn [piece length]. f_equal. rewrite list_insert_id by done. by destruct w.
  - case_decide as Hd; [by rewrite (drop_ge (x :: t)) by done|]. do 4 f_equal.
    destruct (drop (Z.to_nat n) (x :: t)) as [|y u] eqn:Ed; [|done]. apply (f_equal length) in Ed. rewrite length_drop in Ed. cbn [length] in *. lia.
Qed.

(** Every line fits the buffer with its newline. *)
Definition lines_fit (t : list Z) : Prop := Forall (λ l, (length l ≤ 1022)%nat) (split_lines t).1.

Lemma first_line_long b t : lines_fit (b ++ t) → 10 ∉ b → (1023 ≤ length b)%nat → 10 ∉ t.
Proof.
  intros Hf Hb Hl (l & r & -> & Hn)%list_elem_of_split_l. unfold lines_fit in Hf. change (10 :: r) with (Grep.NL :: r) in Hf.
  rewrite app_assoc, split_line in Hf by (rewrite elem_of_app; naive_solver).
  apply Forall_cons in Hf as [Hf _]. rewrite length_app in Hf. lia.
Qed.

Lemma split_rest_len b : (length (split_lines b).2 ≤ length b)%nat.
Proof.
  induction b as [|c b IH]; [done|]. cbn [split_lines]. destruct (split_lines b) as [[|l ls] rest]; cbn in *; destruct (c =? Grep.NL); cbn; lia.
Qed.

Lemma split_rest_short b : 10 ∈ b → (length (split_lines b).2 < length b)%nat.
Proof.
  intros (l & r & -> & Hn)%list_elem_of_split_l. change (10 :: r) with (Grep.NL :: r). rewrite split_line by done. cbn [snd].
  pose proof (split_rest_len r). rewrite length_app. cbn. lia.
Qed.

(** What is left to print when the buffer has been filled to [b] and its lines have been
    printed: without a newline in a full buffer none comes any more. *)
Lemma after_lines pattern b t : lines_fit (b ++ t) → (t ≠ [] → length b = 1023%nat) →
  let k := if bool_decide (length (split_lines b).2 = length b) then [] else (split_lines b).2 in
  lines_fit (k ++ t) ∧ (10 ∉ k) ∧ ((length b ≤ 1023)%nat → (length k ≤ 1022)%nat) ∧ (∀ x, x ∈ k → x ∈ b) ∧
  show pattern (split_lines (b ++ t)).1 = show pattern (split_lines b).1 ++ show pattern (split_lines (k ++ t)).1.
Proof.
  intros Hf Ht k. destruct (decide (10 ∈ b)) as [Hin|Hin].
  - pose proof (split_rest_short b Hin) as Hs. assert (k = (split_lines b).2) as -> by (unfold k; by rewrite bool_decide_eq_false_2 by lia).
    unfold lines_fit in *. rewrite split_app_rest in Hf. cbn [fst] in Hf. apply Forall_app in Hf as [_ Hf].
    split_and!; [done|apply split_rest|lia|apply split_rest_sub|]. rewrite (split_app_rest b). unfold show. cbn [fst]. by rewrite fmap_app, concat_app.
  - assert (k = []) as -> by (unfold k; rewrite split_no_nl by done; by rewrite bool_decide_eq_true_2).
    assert (Hn : 10 ∉ t). { destruct t as [|x t]; [apply not_elem_of_nil|]. apply (first_line_long b); [done|done|]. rewrite Ht by done. lia. }
    unfold lines_fit. cbn [app]. rewrite (split_no_nl t), (split_no_nl b), (split_no_nl (b ++ t)) by (rewrite ?elem_of_app; naive_solver).
    split_and!; [constructor|apply not_elem_of_nil|cbn; lia|by intros x ?%not_elem_of_nil|done].
Qed.

Lemma grep_reads_ok fuel pattern fd t b w : w_fds w !! Z.to_nat fd = Some (Some (piece t)) → 0 ∉ b ++ t → 10 ∉ b →
  (length b ≤ 1022)%nat → lines_fit (b ++ t) → (length t < fuel)%nat →
  returns (grep_reads fuel pattern fd b) w (λ _ w', w_fds w' = <[Z.to_nat fd := Some []]> (w_fds w) ∧
    bytes_to 1 (w_out w') = bytes_to 1 (w_out w) ++ show pattern (split_lines (b ++ t)).1).
Proof.
  revert t b w. induction fuel as [|fuel IH]; intros t b w E H0 Hb Hl Hf Ht; [lia|]. cbn [grep_reads]. apply returns_bind.
  set (n := 1024 - Z.of_nat (length b) - 1). eapply ok_returns; [apply (read_piece fd n t w E); unfold n; lia|].
  assert (Hlt : (Z.to_nat fd < length (w_fds w))%nat) by eauto using lookup_lt_Some.
  destruct t as [|x t].
  - rewrite take_nil, drop_nil. cbn. split; [done|]. rewrite app_nil_r, (split_no_nl b) by done. by rewrite app_nil_r.
  - set (u := x :: t) in *. assert (Hu : u ≠ []) by done. clearbody u. cbn [fst snd].
    assert (Hc : (0 < length (take (Z.to_nat n) u))%nat). { rewrite length_take. destruct u; [done|]. cbn. unfold n. lia. }
    rewrite (proj2 (Z.ltb_lt 0 _)) by lia. rewrite <- (take_drop (Z.to_nat n) u), length_app in Ht.
    set (b' := b ++ take (Z.to_nat n) u) in *. set (u' := drop (Z.to_nat n) u) in *.
    assert (Eu : b ++ u = b' ++ u') by (unfold b', u'; by rewrite <- app_assoc, take_drop). rewrite Eu in H0, Hf. rewrite Eu.
    assert (Hb0 : 0 ∉ b') by (intros ?; apply H0, elem_of_app; by left).
    assert (Hb' : (length b' ≤ 1023)%nat) by (unfold b'; rewrite length_app, length_take; unfold n; lia).
    apply returns_bind. eapply returns_mono; [apply (print_lines_ok _ pattern b'); [done|done]|]. intros rest w1 (-> & E1 & E2).
    destruct (after_lines pattern b' u' Hf) as (Hf' & Hk & Hkl & Hks & Hsh).
    { intros Hne. unfold b', u' in *. rewrite length_app, length_take. assert (Z.to_nat n < length u)%nat; [|unfold n in *; lia].
      destruct (decide (Z.to_nat n < length u)%nat); [done|]. rewrite drop_ge in Hne by lia. done. }
    eapply returns_mono; [apply (IH u')|].
    + rewrite E1. cbn [w_fds set]. by rewrite list_lookup_insert_eq.
    + intros [?%Hks|?]%elem_of_app; [done|]. apply H0, elem_of_app. by right.
    + done.
    + by apply Hkl.
    + done.
    + lia.
    + intros [] w2 [E3 E4]. split; [rewrite E3, E1; cbn [w_fds set]; by rewrite list_insert_insert_eq|].
      rewrite E4, E2, Hsh. cbn [w_out set]. by rewrite app_assoc.
Qed.

Lemma grep_fd_ok pattern fd t w : w_fds w !! Z.to_nat fd = Some (Some (piece t)) → 0 ∉ t → lines_fit t →
  returns (grep_fd pattern fd) w (λ _ w', w_fds w' = <[Z.to_nat fd := Some []]> (w_fds w) ∧
    bytes_to 1 (w_out w') = bytes_to 1 (w_out w) ++ show pattern (split_lines t).1).
Proof.
  intros E H0 Hf. unfold returns, grep_fd. apply (grep_reads_ok _ pattern fd t []); [done|done|apply not_elem_of_nil|cbn; lia|done|].
  unfold reads_left. rewrite E. destruct t; cbn; lia.
Qed.

(** The lines of the files that match; the program stops at the first file that cannot
    be opened. *)
Fixpoint grep_text (pattern : list Z) (argv : list (list Z)) : list Z :=
  match argv with
  | [] => []
  | a :: argv =>
      match files a with
      | None => chars "grep: cannot open " ++ a ++ NL
      | Some st => show pattern (split_lines (concat (default [] <$> st))).1 ++ grep_text pattern argv
      end
  end.

(** Regular text files. *)
Hypothesis files_text : ∀ a st, files a = Some st → ∃ t, st = piece t ∧ (0 ∉ t) ∧ lines_fit t.

Lemma grep_open_message a : printf (chars "grep: cannot open %s" ++ NL) [Str (Some a)] [] = Ok tt (chars "grep: cannot open " ++ a ++ NL).
Proof.
  change (chars "grep: cannot open %s" ++ NL) with (chars "grep: cannot open " ++ PERCENT :: 115 :: NL ++ []). unfold printf.
  rewrite printf_text, printf_str, printf_text by (apply (bool_decide_eq_true_1 _); by vm_compute). cbn [app]. by rewrite <- !app_assoc.
Qed.

Lemma piece_some t : piece t = Some <$> (match t with [] => [] | _ => [t] end).
Proof. by destruct t. Qed.

Lemma grep_files_ok pattern argv n w : lowest (w_fds w) = Some n →
  returns (grep_files pattern argv) w (λ _ w', bytes_to 1 (w_out w') = bytes_to 1 (w_out w) ++ grep_text pattern argv).
Proof.
  revert w. induction argv as [|a argv IH]; intros w Hn; cbn [grep_files grep_text]; [apply returns_ret; by rewrite app_nil_r|].
  apply returns_bind. destruct (files a) as [st|] eqn:Ea.
  - destruct (files_text a st Ea) as (t & -> & H0 & Hf). rewrite piece_some in Ea.
    destruct (open_ok files a _ w n Ea) as (Eo & [Hh _] & Eback); [by destruct t; repeat constructor|done|]. rewrite <- piece_some in *.
    eapply ok_returns; [exact Eo|]. rewrite (proj2 (Z.ltb_ge (Z.of_nat n) 0)) by lia. apply returns_bind.
    eapply returns_mono; [apply (grep_fd_ok pattern _ t _ Hh H0 Hf)|]. intros [] w1 (E1 & E2). apply returns_bind, returns_modify.
    eapply returns_mono; [apply IH; cbn [w_fds set] in *; by rewrite E1, Nat2Z.id, Eback|]. intros [] w2 E3. cbn [w_out set] in *.
    rewrite E3, E2. rewrite <- app_assoc. do 2 f_equal. assert (concat (default [] <$> piece t) = t) as ->; [|done].
    destruct t; [done|]. cbn. by rewrite app_nil_r.
  - eapply ok_returns; [by apply open_fails|]. cbn. eapply returns_mono; [apply fprintf_ok, grep_open_message; done|]. by intros [] w' [_ ->].
Qed.

(** On text files whose lines fit its buffer, grep prints exactly the lines that match,
    in the order of the files and of the lines, although a line may be cut by the reads;
    it stops with a message at the first file that cannot be opened. *)
Theorem grep_main_prints pattern argv w : argv ≠ [] → is_Some (lowest (w_fds w)) →
  returns (grep_main (pattern :: argv)) w (λ _ w', bytes_to 1 (w_out w') = bytes_to 1 (w_out w) ++ grep_text pattern argv).
Proof. intros Hne [n Hn]. destruct argv as [|a argv]; [done|]. by apply (grep_files_ok pattern (a :: argv) n). Qed.
End GrepMain.

Definition demo_texts (path : list Z) : option (list (option (list Z))) :=
  if bool_decide (path = chars "f") then Some (piece (chars "ab" ++ 10 :: chars "b" ++ [10])) else None.

Lemma grep_main_prints_witness :
  returns (grep_main demo_texts (λ _ _ _, true) [chars "^b"; chars "f"; chars "g"]) demo_world
    (λ _ w', bytes_to 1 (w_out w') = chars "b" ++ 10 :: chars "grep: cannot open g" ++ [10]).
Proof.
  eapply returns_mono; [apply (grep_main_prints demo_texts (λ _ _ _, true) (λ _ _ _, eq_refl))|].
  - intros a st. unfold demo_texts. case_bool_decide; [|done]. intros [= <-]. exists (chars "ab" ++ 10 :: chars "b" ++ [10]). split; [reflexivity|].
    split; [apply (bool_decide_eq_true_1 _); by vm_compute|]. unfold lines_fit. repeat constructor; cbn; lia.
  - done.
  - by eexists.
  - intros [] w' E. rewrite E. by vm_compute.
Defined.
