(* ===== verification/UlibMem.v ===== *)
(** The routines of ulib.c on the memory of a user program, and the name that ls.c
    prints for a file.

    [fuel] bounds the search for the terminator of a string; the length of the string
    and one more is enough. *)

From S2P Require Import Prelude CString.

(** ** ulib.c *)

Fixpoint strcpy (fuel : nat) (s t : Z) (m : mem) : option mem :=
  match fuel with
  | O => None
  | S fuel =>
      let m := upd m s (m t) in
      if m s =? 0 then Some m else strcpy fuel (s + 1) (t + 1) m
  end.

Fixpoint strcmp (fuel : nat) (p q : Z) (m : mem) : option Z :=
  match fuel with
  | O => None
  | S fuel =>
      if negb (m p =? 0) && (m p =? m q) then strcmp fuel (p + 1) (q + 1) m
      else Some (u8 (m p) - u8 (m q))
  end.

(** [memset] and [memmove] of ulib.c: the latter always copies upwards. *)
Definition umemset (dst c n : Z) (m : mem) : mem := stosb dst c (Z.to_nat n) m.
Definition umemmove (dst src n : Z) (m : mem) : mem := move_up dst src (Z.to_nat n) m.

(** ** ls.c *)

(** The loop of [fmtname], with [n] characters before [p]; [p] afterwards. *)
Fixpoint last_slash (n : nat) (p : Z) (m : mem) : Z :=
  if m p =? 47 then p else
  match n with O => p - 1 | S n => last_slash n (p - 1) m end.

(** [fmtname(path)], [buf] being the address of its buffer: the string returned and
    the memory. *)
Definition fmtname (fuel : nat) (buf path : Z) (m : mem) : option (Z * mem) :=
  n ← strlen fuel path 0 m;
  let p := last_slash (Z.to_nat n) (path + n) m + 1 in
  k ← strlen fuel p 0 m;
  if k >=? 14 then Some (p, m) else
  let m := umemmove buf p k m in
  k ← strlen fuel p 0 m;
  Some (buf, umemset (buf + k) 32 (14 - k) m).

(** ** What they do *)

(** The string [l] is at [p]. *)
Definition string_in (m : mem) (p : Z) (l : list Z) : Prop :=
  (0 ∉ l) ∧ (∀ i x, l !! i = Some x → m (p + Z.of_nat i) = x) ∧ m (p + Z.of_nat (length l)) = 0.

Lemma string_in_cons m p x l : string_in m p (x :: l) → m p = x ∧ x ≠ 0 ∧ string_in m (p + 1) l.
Proof.
  intros (Hz & Hi & He). apply not_elem_of_cons in Hz as [Hx Hl]. split_and!; [|done|split_and!; [done| |]].
  - specialize (Hi O x eq_refl). by rewrite Z.add_0_r in Hi.
  - intros i y Hy. specialize (Hi (S i) y Hy). by replace (p + 1 + Z.of_nat i) with (p + Z.of_nat (S i)) by lia.
  - cbn [length] in He. by replace (p + 1 + Z.of_nat (length l)) with (p + Z.of_nat (S (length l))) by lia.
Qed.

Lemma string_in_nil m p : string_in m p [] → m p = 0.
Proof. intros (_ & _ & H). by rewrite Z.add_0_r in H. Qed.

Lemma string_in_ext m m' p l :
  (∀ i, 0 ≤ i ≤ Z.of_nat (length l) → m' (p + i) = m (p + i)) → string_in m p l → string_in m' p l.
Proof.
  intros H (Hz & Hi & He). split_and!; [done| |by rewrite H by lia].
  intros i x Hx. rewrite H; [by apply Hi|]. apply lookup_lt_Some in Hx. lia.
Qed.

Lemma string_in_strlen m p l fuel : string_in m p l → (length l < fuel)%nat → strlen fuel p 0 m = Some (Z.of_nat (length l)).
Proof.
  intros (Hz & Hi & He) Hf. apply strlen_spec; [lia|done| |lia].
  intros i Hr. destruct (lookup_lt_is_Some_2 l (Z.to_nat i)) as [x Hx]; [lia|].
  pose proof (Hi _ _ Hx) as E. rewrite Z2Nat.id in E by lia. rewrite E. intros ->. apply Hz. by eapply list_elem_of_lookup_2.
Qed.

(** The order of a dictionary. *)
Fixpoint lex (a b : list Z) : comparison :=
  match a, b with
  | [], [] => Eq
  | [], _ :: _ => Lt
  | _ :: _, [] => Gt
  | x :: a, y :: b => match x ?= y with Eq => lex a b | c => c end
  end.

Lemma lex_eq a b : lex a b = Eq ↔ a = b.
Proof.
  revert b. induction a as [|x a IH]; intros [|y b]; cbn; try done.
  destruct (Z.compare_spec x y) as [->|?|?]; [rewrite IH|split; [done|intros [=]; lia]..].
  split; [by intros ->|by intros [=]].
Qed.

(** [strcmp] returns, and the sign of its result is the order of the strings. *)
Theorem strcmp_spec m a b p q fuel : string_in m p a → string_in m q b →
  Forall (λ x, 0 ≤ x < 256) (a ++ b) → (length a < fuel)%nat →
  ∃ r, strcmp fuel p q m = Some r ∧ (r ?= 0) = lex a b.
Proof.
  revert b p q fuel. induction a as [|x a IH]; intros b p q [|fuel] Ha Hb Hr Hf; cbn in Hf; try lia; cbn [strcmp].
  - apply string_in_nil in Ha. rewrite Ha. eexists. split; [done|].
    destruct b as [|y b]; [apply string_in_nil in Hb; by rewrite Hb|].
    apply string_in_cons in Hb as (-> & Hy & _). apply Forall_cons in Hr as [Hr _]. cbn [lex].
    unfold u8. rewrite !Z.mod_small by lia. apply Z.compare_lt_iff. lia.
  - apply string_in_cons in Ha as (-> & Hx & Ha). cbn [app] in Hr. apply Forall_cons in Hr as [Hrx Hr].
    rewrite (proj2 (Z.eqb_neq x 0)) by done. cbn [negb andb]. destruct b as [|y b].
    + apply string_in_nil in Hb. rewrite Hb, (proj2 (Z.eqb_neq x 0)) by done. eexists. split; [done|]. cbn [lex].
      unfold u8. rewrite !Z.mod_small by lia. apply Z.compare_gt_iff. lia.
    + apply string_in_cons in Hb as (-> & Hy & Hb). apply Forall_app in Hr as [Hra [Hry Hrb]%Forall_cons].
      cbn [lex]. destruct (Z.eqb_spec x y) as [->|Hne].
      * rewrite Z.compare_refl. apply IH; [done|done|by apply Forall_app|lia].
      * eexists. split; [done|]. unfold u8. rewrite !Z.mod_small by lia.
        destruct (Z.compare_spec x y); [done|apply Z.compare_lt_iff; lia|apply Z.compare_gt_iff; lia].
Qed.

(** [strcpy] returns, copies the string with its terminator and changes nothing else. *)
Theorem strcpy_spec l m s t fuel : string_in m t l → (length l < fuel)%nat →
  (s + Z.of_nat (length l) < t ∨ t + Z.of_nat (length l) < s) →
  ∃ m', strcpy fuel s t m = Some m' ∧ string_in m' s l ∧
    ∀ a, in_range s (Z.of_nat (length l) + 1) a = false → m' a = m a.
Proof.
  revert m s t fuel. induction l as [|x l IH]; intros m s t [|fuel] Hl Hf Hd; cbn [length] in *; try lia; cbn [strcpy]; rewrite upd_eq.
  - apply string_in_nil in Hl. rewrite Hl. eexists. split_and!; [done| |].
    + split_and!; [apply not_elem_of_nil|done|]. by rewrite Z.add_0_r, upd_eq.
    + intros a Ha. apply upd_ne. intros ->. revert Ha. addr_cases.
  - apply string_in_cons in Hl as (-> & Hx & Hl). rewrite (proj2 (Z.eqb_neq x 0)) by done.
    destruct (IH (upd m s x) (s + 1) (t + 1) fuel) as (m' & -> & (Hz & Hi & He) & Ho).
    2: lia. 2: lia.
    { eapply string_in_ext; [|exact Hl]. intros i Hi. apply upd_ne. lia. }
    exists m'. split_and!; [done|split_and!|].
    + apply not_elem_of_cons. by split.
    + intros [|i] y Hy; cbn in Hy.
      * injection Hy as <-. rewrite Z.add_0_r, Ho by addr_cases. apply upd_eq.
      * replace (s + Z.of_nat (S i)) with (s + 1 + Z.of_nat i) by lia. by apply Hi.
    + cbn [length]. by replace (s + Z.of_nat (S (length l))) with (s + 1 + Z.of_nat (length l)) by lia.
    + intros a Ha. rewrite Ho; [apply upd_ne; intros ->|]; revert Ha; addr_cases.
Qed.

(** [memmove] of ulib.c moves a range downwards or to a place apart from it; moved
    upwards into itself, the first bytes are repeated instead. *)
Lemma umemmove_down dst src n m a : 0 ≤ n → dst ≤ src ∨ src + n ≤ dst →
  umemmove dst src n m a = if in_range dst n a then m (a - dst + src) else m a.
Proof. intros Hn Hd. unfold umemmove. rewrite move_up_spec by lia. by rewrite Z2Nat.id. Qed.

Theorem umemmove_repeats src n m a : 0 ≤ n →
  umemmove (src + 1) src n m a = if in_range src (n + 1) a then m src else m a.
Proof.
  intros Hn. unfold umemmove. rewrite <- (Z2Nat.id n) at 2 by done. generalize (Z.to_nat n) as k. clear n Hn.
  intros k. revert src m. induction k as [|k IH]; intros src m; cbn [move_up]; [addr_cases; f_equal; lia|].
  rewrite IH. addr_cases; f_equal; lia.
Qed.

(** The name of a path is what follows its last slash. *)
Lemma last_slash_spec m (name : list Z) : ∀ n p, (∀ i, 0 ≤ i ≤ Z.of_nat (length name) → m (p - i) ≠ 47) →
  (length name ≤ n)%nat → (n = length name ∨ m (p - Z.of_nat (length name) - 1) = 47) →
  last_slash n p m + 1 = p - Z.of_nat (length name).
Proof.
  induction name as [|x name IH]; intros n p Hm Hl He; cbn [length] in *.
  - pose proof (Hm 0 ltac:(lia)) as H0. rewrite Z.sub_0_r in *. destruct n as [|n]; cbn [last_slash];
      rewrite (proj2 (Z.eqb_neq _ _)) by done; [lia|].
    destruct He as [?|He]; [lia|]. change (Z.of_nat 0) with 0 in He. rewrite ?Z.sub_0_r in He. destruct n; cbn [last_slash]; rewrite He; cbn; lia.
  - pose proof (Hm 0 ltac:(lia)) as H0. rewrite Z.sub_0_r in H0. destruct n as [|n]; [lia|]. cbn [last_slash].
    rewrite (proj2 (Z.eqb_neq _ _)) by done. rewrite IH; [lia| |lia|].
    + intros i Hi. replace (p - 1 - i) with (p - (i + 1)) by lia. apply Hm. lia.
    + destruct He as [?|He]; [left; lia|right].
      by replace (p - 1 - Z.of_nat (length name) - 1) with (p - Z.of_nat (S (length name)) - 1) by lia.
Qed.

(** The blanks after a name. *)
Definition padded (name : list Z) : list Z := name ++ replicate (14 - length name) 32.

(** The name after the directories of a path. *)
Lemma string_in_drop m p a b : string_in m p (a ++ b) → string_in m (p + Z.of_nat (length a)) b.
Proof.
  revert p. induction a as [|x a IH]; intros p H; cbn [length app] in *; [by rewrite Z.add_0_r|].
  apply string_in_cons in H as (_ & _ & H). specialize (IH _ H).
  by replace (p + Z.of_nat (S (length a))) with (p + 1 + Z.of_nat (length a)) by lia.
Qed.

Lemma string_in_last m p a b x : string_in m p (a ++ b) → last a = Some x → m (p + Z.of_nat (length a) - 1) = x.
Proof.
  intros (_ & Hi & _) Hl. rewrite last_lookup in Hl. assert (a ≠ []) by (intros ->; done).
  destruct a as [|y a]; [done|]. cbn [length pred] in *. specialize (Hi (length a) x).
  rewrite lookup_app_l in Hi by (cbn; lia). rewrite <- (Hi Hl). f_equal. lia.
Qed.

Lemma fmtname_start fuel path dir name m :
  string_in m path (dir ++ name) → (length (dir ++ name) < fuel)%nat →
  47 ∉ name → (dir = [] ∨ last dir = Some 47) →
  strlen fuel path 0 m = Some (Z.of_nat (length (dir ++ name))) ∧
  last_slash (length (dir ++ name)) (path + Z.of_nat (length (dir ++ name))) m + 1 = path + Z.of_nat (length dir).
Proof.
  intros Hs Hf Hn Hd. split; [by apply string_in_strlen|]. pose proof (string_in_drop _ _ _ _ Hs) as Hq.
  rewrite length_app, (last_slash_spec m name); [lia| |lia|].
  - intros i Hi. destruct Hq as (_ & Hi' & He). destruct (decide (i = 0)) as [->|].
    + rewrite Z.sub_0_r. replace (path + Z.of_nat (length dir + length name)) with (path + Z.of_nat (length dir) + Z.of_nat (length name)) by lia. by rewrite He.
    + destruct (lookup_lt_is_Some_2 name (length name - Z.to_nat i)%nat) as [x Hx]; [lia|].
      pose proof (Hi' _ _ Hx) as E. replace (path + Z.of_nat (length dir + length name) - i) with (path + Z.of_nat (length dir) + Z.of_nat (length name - Z.to_nat i)) by lia.
      rewrite E. intros ->. apply Hn. by eapply list_elem_of_lookup_2.
  - destruct Hd as [->|Hd]; [by left|right]. rewrite <- (string_in_last _ _ _ _ _ Hs Hd). f_equal. lia.
Qed.

(** [fmtname] returns the last component of the path, followed by blanks up to the 14
    characters of a name, and writes to its buffer only. *)
Theorem fmtname_pads fuel buf path dir name m :
  string_in m path (dir ++ name) → (length (dir ++ name) < fuel)%nat →
  47 ∉ name → (dir = [] ∨ last dir = Some 47) →
  (buf + 14 < path ∨ path + Z.of_nat (length (dir ++ name)) < buf) → m (buf + 14) = 0 →
  ∃ p m', fmtname fuel buf path m = Some (p, m') ∧ string_in m' p (padded name) ∧
    ∀ a, in_range buf 14 a = false → m' a = m a.
Proof.
  intros Hs Hf Hn Hd Hb H0. destruct (fmtname_start _ _ _ _ _ Hs Hf Hn Hd) as [El Ep].
  pose proof (string_in_drop _ _ _ _ Hs) as Hq. unfold fmtname. rewrite El. cbn [mbind option_bind].
  rewrite Nat2Z.id, Ep. rewrite length_app in Hf, Hb. set (q := path + Z.of_nat (length dir)) in *. set (k := length name) in *.
  rewrite (string_in_strlen m q name) by (done || lia). cbn [mbind option_bind]. fold k. unfold padded. fold k.
  destruct (Z.geb_spec (Z.of_nat k) 14) as [Hk|Hk].
  - exists q, m. split_and!; [done| |done]. replace (14 - k)%nat with O by lia. by rewrite app_nil_r.
  - assert (Hm : ∀ a, in_range buf (Z.of_nat k) a = false → umemmove buf q (Z.of_nat k) m a = m a).
    { intros a Ha. by rewrite umemmove_down, Ha by lia. }
    rewrite (string_in_strlen _ q name fuel); [|eapply string_in_ext; [|exact Hq]|lia].
    2:{ intros i Hi. apply Hm. fold k in Hi. addr_cases. }
    cbn [mbind option_bind]. fold k. eexists _, _. split; [done|].
    assert (Hw : ∀ a, umemset (buf + Z.of_nat k) 32 (14 - Z.of_nat k) (umemmove buf q (Z.of_nat k) m) a =
      if in_range (buf + Z.of_nat k) (14 - Z.of_nat k) a then 32 else if in_range buf (Z.of_nat k) a then m (a - buf + q) else m a).
    { intros a. unfold umemset. rewrite stosb_spec, Z2Nat.id, umemmove_down by lia. done. }
    destruct Hq as (Hz & Hi & He). split; [unfold string_in; split_and!|].
    + rewrite elem_of_app, elem_of_replicate. by intros [?|[? _]].
    + intros i x Hx. rewrite Hw. apply lookup_app_Some in Hx as [Hx|[Hl Hx]].
      * pose proof (lookup_lt_Some _ _ _ Hx) as Hlt. fold k in Hlt. rewrite <- (Hi _ _ Hx). addr_cases; f_equal; lia.
      * apply lookup_replicate in Hx as [-> Hx]. fold k in Hl, Hx. addr_cases.
    + rewrite Hw, length_app, length_replicate, <- H0. fold k. addr_cases; f_equal; lia.
    + intros a Ha. rewrite Hw. revert Ha. addr_cases.
Qed.

Lemma fmtname_pads_witness :
  ∃ p m', fmtname 10 50 0 (of_bytes [97; 47; 98; 99]) = Some (p, m') ∧ string_in m' p (padded [98; 99]) ∧
    ∀ a, in_range 50 14 a = false → m' a = of_bytes [97; 47; 98; 99] a.
Proof.
  apply (fmtname_pads 10 50 0 [97; 47] [98; 99]); cbn; try lia; auto; [|set_solver].
  split_and!; [set_solver| |done]. by intros [|[|[|[|]]]] x; intros [= <-].
Defined.
