(* ===== verification/Context.v ===== *)
(** Entering, leaving and switching kernel stacks (swtch.S, trapasm.S, vectors.pl, and
    the stack that [allocproc] prepares): the registers and the stack memory of one
    processor, with the instructions these routines use. *)

From S2P Require Import Prelude Layout CString ProcTable Fs PageAlloc Kalloc Vm VmUser VmCopy Kernel File Proc KernelInv ProcLife.

(** ** The processor *)

Inductive reg : Type :=
  | EAX | ECX | EDX | EBX | ESP | EBP | ESI | EDI | EIP | EFLAGS | CS | SS | DS | ES | FS | GS.

#[export] Instance reg_eq_dec : EqDecision reg.
Proof. solve_decision. Defined.

Record regs := mkregs {
  r_eax : Z; r_ecx : Z; r_edx : Z; r_ebx : Z; r_esp : Z; r_ebp : Z; r_esi : Z; r_edi : Z;
  r_eip : Z; r_eflags : Z; r_cs : Z; r_ss : Z; r_ds : Z; r_es : Z; r_fs : Z; r_gs : Z
}.
#[export] Instance regs_eta : Eta regs := λ r,
  mkregs (r_eax r) (r_ecx r) (r_edx r) (r_ebx r) (r_esp r) (r_ebp r) (r_esi r) (r_edi r)
         (r_eip r) (r_eflags r) (r_cs r) (r_ss r) (r_ds r) (r_es r) (r_fs r) (r_gs r).

Definition rd (x : reg) (r : regs) : Z :=
  match x with
  | EAX => r_eax r
  | ECX => r_ecx r
  | EDX => r_edx r
  | EBX => r_ebx r
  | ESP => r_esp r
  | EBP => r_ebp r
  | ESI => r_esi r
  | EDI => r_edi r
  | EIP => r_eip r
  | EFLAGS => r_eflags r
  | CS => r_cs r
  | SS => r_ss r
  | DS => r_ds r
  | ES => r_es r
  | FS => r_fs r
  | GS => r_gs r
  end.

Definition wr (x : reg) (v : Z) (r : regs) : regs :=
  match x with
  | EAX => r <| r_eax := v |>
  | ECX => r <| r_ecx := v |>
  | EDX => r <| r_edx := v |>
  | EBX => r <| r_ebx := v |>
  | ESP => r <| r_esp := v |>
  | EBP => r <| r_ebp := v |>
  | ESI => r <| r_esi := v |>
  | EDI => r <| r_edi := v |>
  | EIP => r <| r_eip := v |>
  | EFLAGS => r <| r_eflags := v |>
  | CS => r <| r_cs := v |>
  | SS => r <| r_ss := v |>
  | DS => r <| r_ds := v |>
  | ES => r <| r_es := v |>
  | FS => r <| r_fs := v |>
  | GS => r <| r_gs := v |>
  end.

Record x86 := mkx86 { rf : regs; xmem : mem }.
#[export] Instance x86_eta : Eta x86 := λ s, mkx86 (rf s) (xmem s).

Definition getr (x : reg) : M x86 Z := gets (λ s, rd x (rf s)).
Definition setr (x : reg) (v : Z) : M x86 unit := modify (λ s, s <| rf := wr x v (rf s) |>).

(** Segment registers have 16 bits. *)
Definition u16 (v : Z) : Z := v mod 65536.

Definition push (v : Z) : M x86 unit :=
  sp ← getr ESP;
  let sp := u32 (sp - 4) in
  _ ← setr ESP sp;
  modify (λ s, s <| xmem := store32 (xmem s) sp v |>).

Definition pop : M x86 Z :=
  sp ← getr ESP;
  v ← gets (λ s, load32 (xmem s) sp);
  _ ← setr ESP (u32 (sp + 4));
  mret v.

Definition pushl (r : reg) : M x86 unit := v ← getr r; push v.
Definition popl (r : reg) : M x86 unit := v ← pop; setr r v.
Definition pop_seg (r : reg) : M x86 unit := v ← pop; setr r (u16 v).
Definition ret : M x86 unit := popl EIP.

(** [pushal] pushes the value [%esp] has before it, and [popal] skips it. *)
Definition pushal : M x86 unit :=
  sp ← getr ESP;
  _ ← pushl EAX; _ ← pushl ECX; _ ← pushl EDX; _ ← pushl EBX;
  _ ← push sp; _ ← pushl EBP; _ ← pushl ESI; pushl EDI.

Definition popal : M x86 unit :=
  _ ← popl EDI; _ ← popl ESI; _ ← popl EBP; _ ← pop;
  _ ← popl EBX; _ ← popl EDX; _ ← popl ECX; popl EAX.

(** [iret] takes a stack from the frame only when it leaves the kernel. *)
Definition iret : M x86 unit :=
  cpl ← getr CS;
  _ ← popl EIP; _ ← pop_seg CS; _ ← popl EFLAGS;
  c ← getr CS;
  if Z.land cpl 3 <? Z.land c 3 then
    sp ← pop; ss ← pop; _ ← setr ESP sp; setr SS (u16 ss)
  else skip.

(** ** The routines *)

(** [void swtch(struct context **old, struct context *new)] *)
Definition swtch : M x86 unit :=
  sp ← getr ESP;
  a ← gets (λ s, load32 (xmem s) (u32 (sp + 4)));
  _ ← setr EAX a;
  d ← gets (λ s, load32 (xmem s) (u32 (sp + 8)));
  _ ← setr EDX d;
  _ ← pushl EBP; _ ← pushl EBX; _ ← pushl ESI; _ ← pushl EDI;
  old ← getr EAX; sp ← getr ESP;
  _ ← modify (λ s, s <| xmem := store32 (xmem s) old sp |>);
  new ← getr EDX;
  _ ← setr ESP new;
  _ ← popl EDI; _ ← popl ESI; _ ← popl EBX; _ ← popl EBP;
  ret.

Definition SEG_KCODE : Z := 1.
Definition SEG_KDATA : Z := 2.

Definition trapret : M x86 unit :=
  _ ← popal;
  _ ← pop_seg GS; _ ← pop_seg FS; _ ← pop_seg ES; _ ← pop_seg DS;
  sp ← getr ESP;
  _ ← setr ESP (u32 (sp + 8));
  iret.

(** [alltraps] up to the frame that [%esp] then points to. *)
Definition build_frame : M x86 unit :=
  _ ← pushl DS; _ ← pushl ES; _ ← pushl FS; _ ← pushl GS;
  _ ← pushal;
  a ← getr EAX;
  _ ← setr EAX (a - u16 a + Z.shiftl SEG_KDATA 3);
  a ← getr EAX;
  _ ← setr DS (u16 a); setr ES (u16 a).

(** [trap] is the C function, from its first instruction to its [ret]; [here] is the
    address after the call. *)
Definition alltraps (here : Z) (trap : M x86 unit) : M x86 unit :=
  _ ← build_frame;
  _ ← pushl ESP;
  _ ← push here;
  _ ← trap;
  sp ← getr ESP;
  _ ← setr ESP (u32 (sp + 4));
  trapret.

(** The vectors for which the processor itself pushes an error code. *)
Definition has_error (i : Z) : bool := (i =? 8) || ((10 <=? i) && (i <=? 14)) || (i =? 17).

Definition vector (i : Z) : M x86 unit :=
  _ ← when (negb (has_error i)) (push 0);
  push i.

(** ** What the processor does on a trap *)

(** The frame that [tf] points to in a C function. *)
Definition get_tf (m : mem) (a : Z) : trapframe :=
  mktf (load32 m a) (load32 m (a + 4)) (load32 m (a + 8)) (load32 m (a + 12))
       (load32 m (a + 16)) (load32 m (a + 20)) (load32 m (a + 24)) (load32 m (a + 28))
       (u16 (load32 m (a + 32))) (u16 (load32 m (a + 36))) (u16 (load32 m (a + 40))) (u16 (load32 m (a + 44)))
       (load32 m (a + 48)) (load32 m (a + 52)) (load32 m (a + 56)) (u16 (load32 m (a + 60)))
       (load32 m (a + 64)) (load32 m (a + 68)) (u16 (load32 m (a + 72))).

Definition hw_push (i ec addr : Z) (kflags : Z → Z) (r : regs) : M x86 unit :=
  _ ← push (r_eflags r); _ ← push (r_cs r); _ ← push (r_eip r);
  _ ← when (has_error i) (push ec);
  _ ← setr EFLAGS (kflags (r_eflags r));
  _ ← setr CS (Z.shiftl SEG_KCODE 3);
  setr EIP addr.

(** The processor pushes the interrupted state, on the stack [esp0] of the task state
    when it comes from user mode, and goes to the vector at [addr]; [ec] is the error
    code and [kflags] gives the flags it goes on with. *)
Definition hw_trap (i ec esp0 addr : Z) (kflags : Z → Z) : M x86 unit :=
  r ← gets rf;
  _ ← when (negb (Z.land (r_cs r) 3 =? 0))
        (_ ← setr ESP esp0; _ ← setr SS (Z.shiftl SEG_KDATA 3); _ ← push (r_ss r); push (r_esp r));
  hw_push i ec addr kflags r.

Definition take_trap (i ec esp0 addr : Z) (kflags : Z → Z) (here : Z) (trap : M x86 unit) : M x86 unit :=
  _ ← hw_trap i ec esp0 addr kflags;
  _ ← vector i;
  alltraps here trap.

(** ** The stack *)

(** The words [ws] are in memory from [a] on. *)
Fixpoint stk (m : mem) (a : Z) (ws : list Z) : Prop :=
  match ws with [] => True | w :: ws => load32 m a = w ∧ stk m (a + 4) ws end.

(** Memory from [a] on is the same. *)
Definition above (a : Z) (m m' : mem) : Prop := ∀ x, a ≤ x → m' x = m x.

(** Only the [n] bytes from [a] on changed. *)
Definition only (a n : Z) (m m' : mem) : Prop := ∀ x, ¬ (a ≤ x < a + n) → m' x = m x.

Lemma above_trans a b m1 m2 m3 : above a m1 m2 → above b m2 m3 → b ≤ a → above a m1 m3.
Proof. intros H1 H2 Hb x Hx. rewrite H2 by lia. by apply H1. Qed.

Lemma stk_ext m m' a ws : (∀ x, a ≤ x < a + 4 * Z.of_nat (length ws) → m' x = m x) → stk m a ws → stk m' a ws.
Proof.
  revert a. induction ws as [|w ws IH]; intros a Hm; [done|]. cbn [stk length] in *. intros [Hw Hs]. split.
  - rewrite (load32_ext m); [done|]. intros i Hi. apply Hm. lia.
  - apply IH; [|done]. intros x Hx. apply Hm. lia.
Qed.

Lemma stk_above m m' a ws : above a m m' → stk m a ws → stk m' a ws.
Proof. intros H. apply stk_ext. intros x Hx. apply H. lia. Qed.

Lemma stk_store m a v ws : 0 ≤ v < two32 → stk m (a + 4) ws → stk (store32 m a v) a (v :: ws).
Proof.
  intros Hv Hs. split; [by apply load32_store32|]. apply (stk_above m); [|done].
  intros x Hx. apply store32_other. lia.
Qed.

Lemma push_bind {B} v (k : unit → M x86 B) r m ws Q : stk m (r_esp r) ws → 4 ≤ r_esp r < two32 → 0 ≤ v < two32 →
  (∀ m', stk m' (r_esp r - 4) (v :: ws) → only (r_esp r - 4) 4 m m' → returns (k tt) (mkx86 (r <| r_esp := r_esp r - 4 |>) m') Q) →
  returns (push v ≫= k) (mkx86 r m) Q.
Proof.
  intros Hs Hr Hv HQ. apply returns_bind. unfold push, getr, setr. apply returns_bind, returns_gets, returns_bind, returns_modify, returns_modify.
  cbn [rd wr rf xmem set]. rewrite u32_small by lia. apply HQ.
  - apply stk_store; [done|]. by replace (r_esp r - 4 + 4) with (r_esp r) by lia.
  - intros x Hx. apply store32_other. lia.
Qed.

Lemma pushl_bind {B} x (k : unit → M x86 B) r m ws Q : stk m (r_esp r) ws → 4 ≤ r_esp r < two32 → 0 ≤ rd x r < two32 →
  (∀ m', stk m' (r_esp r - 4) (rd x r :: ws) → only (r_esp r - 4) 4 m m' → returns (k tt) (mkx86 (r <| r_esp := r_esp r - 4 |>) m') Q) →
  returns (pushl x ≫= k) (mkx86 r m) Q.
Proof.
  intros Hs Hr Hv HQ. unfold pushl. apply returns_bind, returns_bind. unfold getr at 1. apply returns_gets. apply returns_bind_inv.
  cbn [rf]. by apply (push_bind _ k r m ws).
Qed.

Lemma pop_bind {B} (k : Z → M x86 B) r m w ws Q : stk m (r_esp r) (w :: ws) → 0 ≤ r_esp r < two32 - 4 →
  (stk m (r_esp r + 4) ws → returns (k w) (mkx86 (r <| r_esp := r_esp r + 4 |>) m) Q) →
  returns (pop ≫= k) (mkx86 r m) Q.
Proof.
  intros [Hw Hs] Hr HQ. apply returns_bind. unfold pop, getr, setr.
  apply returns_bind, returns_gets, returns_bind, returns_gets, returns_bind, returns_modify, returns_ret.
  cbn [rd wr rf xmem set]. rewrite u32_small by lia. rewrite Hw. by apply HQ.
Qed.

Lemma popl_bind {B} x (k : unit → M x86 B) r m w ws Q : stk m (r_esp r) (w :: ws) → 0 ≤ r_esp r < two32 - 4 →
  (stk m (r_esp r + 4) ws → returns (k tt) (mkx86 (wr x w (r <| r_esp := r_esp r + 4 |>)) m) Q) →
  returns (popl x ≫= k) (mkx86 r m) Q.
Proof.
  intros Hs Hr HQ. unfold popl. apply returns_bind. eapply pop_bind; [done..|]. intros Hs'. unfold setr. apply returns_modify.
  cbn [rf set]. by apply HQ.
Qed.

Lemma pop_seg_bind {B} x (k : unit → M x86 B) r m w ws Q : stk m (r_esp r) (w :: ws) → 0 ≤ r_esp r < two32 - 4 →
  (stk m (r_esp r + 4) ws → returns (k tt) (mkx86 (wr x (u16 w) (r <| r_esp := r_esp r + 4 |>)) m) Q) →
  returns (pop_seg x ≫= k) (mkx86 r m) Q.
Proof.
  intros Hs Hr HQ. unfold pop_seg. apply returns_bind. eapply pop_bind; [done..|]. intros Hs'. unfold setr. apply returns_modify.
  cbn [rf set]. by apply HQ.
Qed.

Lemma getr_bind {B} x (k : Z → M x86 B) r m Q : returns (k (rd x r)) (mkx86 r m) Q → returns (getr x ≫= k) (mkx86 r m) Q.
Proof. intros H. apply returns_bind. unfold getr. by apply returns_gets. Qed.

Lemma setr_bind {B} x v (k : unit → M x86 B) r m Q : returns (k tt) (mkx86 (wr x v r) m) Q → returns (setr x v ≫= k) (mkx86 r m) Q.
Proof. intros H. apply returns_bind. unfold setr. by apply returns_modify. Qed.

Lemma returns_last {S A} (m : M S A) s Q : returns (a ← m; mret a) s Q → returns m s Q.
Proof. intros H. apply returns_bind_inv in H. eapply returns_mono; [exact H|]. by intros a s' ?. Qed.

(** ** Leaving the kernel *)

(** The registers of user mode in a frame. *)
Definition user_regs (f : trapframe) : regs :=
  mkregs (eax f) (ecx f) (edx f) (ebx f) (esp f) (ebp f) (esi f) (edi f)
         (eip f) (eflags f) (cs f) (ss f) (ds f) (es f) (fs f) (gs f).

Fixpoint words (m : mem) (a : Z) (n : nat) : list Z :=
  match n with O => [] | Datatypes.S n => load32 m a :: words m (a + 4) n end.

Lemma stk_words m a n : stk m a (words m a n).
Proof. revert a. induction n as [|n IH]; intros a; [done|]. split; [done|apply IH]. Qed.

#[local] Ltac reduce := cbn [rd wr set r_eax r_ecx r_edx r_ebx r_esp r_ebp r_esi r_edi r_eip r_eflags r_cs r_ss r_ds r_es r_fs r_gs] in *.
#[local] Ltac popped := eapply popl_bind; [eassumption|reduce; lia|]; intros ?; reduce.
#[local] Ltac popped_seg := eapply pop_seg_bind; [eassumption|reduce; lia|]; intros ?; reduce.
#[local] Ltac popped_word := eapply pop_bind; [eassumption|reduce; lia|]; intros ?; reduce.

(** The general registers, then the segments, then what [iret] takes. *)
Lemma pop_regs m r (Q : unit → x86 → Prop) : 0 ≤ r_esp r < two32 - 80 →
  (let f := get_tf m (r_esp r) in
   returns iret (mkx86 (mkregs (eax f) (ecx f) (edx f) (ebx f) (r_esp r + 56) (ebp f) (esi f) (edi f)
     (r_eip r) (r_eflags r) (r_cs r) (r_ss r) (ds f) (es f) (fs f) (gs f)) m) Q) →
  returns trapret (mkx86 r m) Q.
Proof.
  intros Ha HQ. pose proof (stk_words m (r_esp r) 14) as Hs. destruct r as [ax cx dx bx sp bp si di ip fl c s d e f g].
  reduce. cbn [words] in Hs. unfold trapret. apply returns_bind. unfold popal.
  popped. popped. popped. popped_word. popped. popped. popped. apply returns_last. popped. apply returns_ret.
  popped_seg. popped_seg. popped_seg. popped_seg. apply getr_bind, setr_bind. reduce.
  rewrite u32_small by lia. cbv zeta in HQ. cbn [get_tf eax ecx edx ebx ebp esi edi ds es fs gs] in HQ.
  rewrite <- !Z.add_assoc. exact HQ.
Qed.

Lemma trapret_user m r : 0 ≤ r_esp r < two32 - 80 → Z.land (r_cs r) 3 = 0 → Z.land (cs (get_tf m (r_esp r))) 3 = 3 →
  returns trapret (mkx86 r m) (λ _ s', s' = mkx86 (user_regs (get_tf m (r_esp r))) m).
Proof.
  intros Ha Hc Hu. apply pop_regs; [done|]. cbv zeta. set (f := get_tf m (r_esp r)) in *. unfold iret. apply getr_bind. reduce.
  pose proof (stk_words m (r_esp r + 56) 5) as Hs. cbn [words] in Hs. popped. popped_seg. popped. apply getr_bind. reduce.
  rewrite Hc. assert (E : u16 (load32 m (r_esp r + 56 + 4)) = cs f) by (unfold f; cbn [get_tf cs]; do 2 f_equal; lia).
  rewrite E, Hu. change (0 <? 3) with true. cbv iota. popped_word. popped_word. apply setr_bind, returns_last, setr_bind, returns_ret.
  reduce. unfold user_regs, f. cbn [get_tf eax ecx edx ebx esp ebp esi edi eip eflags cs ss ds es fs gs].
  by rewrite <- !Z.add_assoc.
Qed.

(** Inside the kernel the frame has neither [esp] nor [ss]. *)
Lemma trapret_kernel m r : 0 ≤ r_esp r < two32 - 80 → Z.land (r_cs r) 3 = 0 → Z.land (cs (get_tf m (r_esp r))) 3 = 0 →
  returns trapret (mkx86 r m) (λ _ s',
    s' = mkx86 ((user_regs (get_tf m (r_esp r))) <| r_esp := r_esp r + 68 |> <| r_ss := r_ss r |>) m).
Proof.
  intros Ha Hc Hu. apply pop_regs; [done|]. cbv zeta. set (f := get_tf m (r_esp r)) in *. unfold iret. apply getr_bind. reduce.
  pose proof (stk_words m (r_esp r + 56) 3) as Hs. cbn [words] in Hs. popped. popped_seg. popped. apply getr_bind. reduce.
  rewrite Hc. assert (E : u16 (load32 m (r_esp r + 56 + 4)) = cs f) by (unfold f; cbn [get_tf cs]; do 2 f_equal; lia).
  rewrite E, Hu. change (0 <? 0) with false. cbv iota. apply returns_ret.
  reduce. unfold user_regs, f. cbn [get_tf eax ecx edx ebx esp ebp esi edi eip eflags cs ss ds es fs gs set].
  by rewrite <- !Z.add_assoc.
Qed.

(** ** Entering the kernel *)

Record regs_ok (r : regs) : Prop := {
  ro_words : Forall (λ x, 0 ≤ rd x r < two32) [EAX; ECX; EDX; EBX; ESP; EBP; ESI; EDI; EIP; EFLAGS];
  ro_segs : Forall (λ x, 0 ≤ rd x r < 65536) [CS; SS; DS; ES; FS; GS]
}.

Lemma u16_small v : 0 ≤ v < 65536 → u16 v = v.
Proof. apply Z.mod_small. Qed.

Lemma ro_ss r : regs_ok r → 0 ≤ r_ss r < 65536.
Proof. intros [_ Hs]. rewrite !Forall_cons in Hs. apply Hs. Qed.

Lemma regs_ok_word r x : regs_ok r → 0 ≤ rd x r < two32.
Proof.
  intros [Hw Hs]. rewrite !Forall_cons in Hw. rewrite !Forall_cons in Hs. cbn [rd] in Hw, Hs. unfold two32 in *.
  destruct x; cbn [rd]; lia.
Qed.

(** The words of a frame from the first to [eflags]. *)
Definition frame_words (i ec b : Z) (r : regs) : list Z :=
  [r_edi r; r_esi r; r_ebp r; b - 36; r_ebx r; r_edx r; r_ecx r; r_eax r; r_gs r; r_fs r; r_es r; r_ds r;
   i; if has_error i then ec else 0; r_eip r; r_cs r; r_eflags r].

#[local] Ltac pushed := eapply pushl_bind; [eassumption|reduce; unfold two32 in *; lia|reduce; unfold two32 in *; lia|]; intros ? ? ?; reduce.
#[local] Ltac pushed_word := eapply push_bind; [eassumption|reduce; unfold two32 in *; lia|reduce; unfold two32 in *; lia|]; intros ? ? ?; reduce.

#[local] Ltac same_mem :=
  repeat match goal with
  | H : above _ _ ?m' |- ?m' ?x = _ => rewrite (H x) by lia
  | H : only _ _ _ ?m' |- ?m' ?x = _ => rewrite (H x) by lia
  end; done.
#[local] Ltac same_above := intros ? ?; same_mem.

(** The processor and the vector push five words. *)
Lemma vector_pushed i ec addr kflags r ss' b m tail : regs_ok r → 0 ≤ i < 256 → 0 ≤ ec < two32 → 20 ≤ b < two32 → stk m b tail →
  returns (_ ← hw_push i ec addr kflags r; vector i) (mkx86 (r <| r_esp := b |> <| r_ss := ss' |>) m) (λ _ s',
    rf s' = r <| r_esp := b - 20 |> <| r_ss := ss' |> <| r_eflags := kflags (r_eflags r) |> <| r_cs := 8 |> <| r_eip := addr |> ∧
    stk (xmem s') (b - 20) ([i; if has_error i then ec else 0; r_eip r; r_cs r; r_eflags r] ++ tail) ∧ above b m (xmem s')).
Proof.
  intros [Hw Hg] Hi Hec Hb Hs. rewrite !Forall_cons in Hw. rewrite !Forall_cons in Hg.
  destruct r as [ax cx dx bx sp bp si di ip fl c s d e f g]. reduce. apply returns_bind. unfold hw_push, vector. reduce.
  pushed_word. pushed_word. pushed_word. destruct (has_error i) eqn:E; cbn [negb when].
  - pushed_word. apply setr_bind, setr_bind. apply returns_last, setr_bind, returns_ret. apply returns_bind, returns_ret.
    apply returns_last. pushed_word. apply returns_ret. cbn [rf xmem]. replace (b - 20) with (b - 4 - 4 - 4 - 4 - 4) by lia.
    split; [done|]. split; [done|same_above].
  - apply returns_bind, returns_ret, setr_bind, setr_bind. apply returns_last, setr_bind, returns_ret. reduce.
    pushed_word. apply returns_last. pushed_word. apply returns_ret. cbn [rf xmem]. replace (b - 20) with (b - 4 - 4 - 4 - 4 - 4) by lia.
    split; [done|]. split; [done|same_above].
Qed.

(** [alltraps] pushes twelve more. *)
Lemma build_frame_ok r m tail :
  Forall (λ x, 0 ≤ rd x r < two32) [EAX; ECX; EDX; EBX; EBP; ESI; EDI; DS; ES; FS; GS] → 48 ≤ r_esp r < two32 → stk m (r_esp r) tail →
  returns build_frame (mkx86 r m) (λ _ s',
    stk (xmem s') (r_esp r - 48) ([r_edi r; r_esi r; r_ebp r; r_esp r - 16; r_ebx r; r_edx r; r_ecx r; r_eax r;
                                   r_gs r; r_fs r; r_es r; r_ds r] ++ tail) ∧
    r_esp (rf s') = r_esp r - 48 ∧ r_cs (rf s') = r_cs r ∧ r_ss (rf s') = r_ss r ∧ above (r_esp r) m (xmem s')).
Proof.
  intros Hw Hb Hs. rewrite !Forall_cons in Hw.
  destruct r as [ax cx dx bx sp bp si di ip fl c s d e f g]. reduce. unfold build_frame.
  pushed. pushed. pushed. pushed. apply returns_bind. unfold pushal. apply getr_bind. reduce.
  pushed. pushed. pushed. pushed. pushed_word. pushed. pushed. apply returns_last. pushed. apply returns_ret.
  apply getr_bind, setr_bind, getr_bind, setr_bind, returns_last, setr_bind, returns_ret. cbn [rf xmem]. reduce.
  replace (sp - 48) with (sp - 4 - 4 - 4 - 4 - 4 - 4 - 4 - 4 - 4 - 4 - 4 - 4) by lia. replace (sp - 16) with (sp - 4 - 4 - 4 - 4) by lia.
  split; [done|]. split; [done|]. split; [done|]. split; [done|same_above].
Qed.

Lemma frame_built i ec addr kflags r ss' b m tail : regs_ok r → 0 ≤ i < 256 → 0 ≤ ec < two32 → 100 ≤ b < two32 → stk m b tail →
  returns (_ ← hw_push i ec addr kflags r; _ ← vector i; build_frame) (mkx86 (r <| r_esp := b |> <| r_ss := ss' |>) m) (λ _ s',
    stk (xmem s') (b - 68) (frame_words i ec b r ++ tail) ∧ r_esp (rf s') = b - 68 ∧ r_cs (rf s') = 8 ∧ r_ss (rf s') = ss' ∧
    above b m (xmem s')).
Proof.
  intros Hr Hi Hec Hb Hs. pose proof (vector_pushed i ec addr kflags r ss' b m tail Hr Hi Hec ltac:(lia) Hs) as Hv.
  apply returns_bind_inv in Hv. apply returns_bind. eapply returns_mono; [exact Hv|]. clear Hv. intros [] s1 Hv.
  apply returns_bind. eapply returns_mono; [exact Hv|]. clear Hv. intros [] [r2 m2] (E & Hs2 & Ha). cbn [rf xmem] in *.
  assert (Hw : ∀ x, 0 ≤ rd x r < two32) by (intros x; by apply regs_ok_word). rewrite E.
  eapply returns_mono; [eapply (build_frame_ok _ m2)|].
  - repeat apply Forall_cons_2; try apply Forall_nil_2.
    all: match goal with |- context [rd ?x _] => exact (Hw x) end.
  - reduce. lia.
  - exact Hs2.
  - intros [] [r3 m3]. reduce. cbn [rf xmem]. intros (Hs3 & E1 & E2 & E3 & Ha3). replace (b - 20 - 48) with (b - 68) in * by lia.
    replace (b - 20 - 16) with (b - 36) in Hs3 by lia. split; [exact Hs3|]. split; [done|]. split; [done|]. split; [done|].
    eapply above_trans; [exact Ha|exact Ha3|lia].
Qed.

(** The frame of an interrupted user program. *)
Definition user_frame (i ec esp0 : Z) (r : regs) : trapframe :=
  mktf (r_edi r) (r_esi r) (r_ebp r) (esp0 - 44) (r_ebx r) (r_edx r) (r_ecx r) (r_eax r)
       (r_gs r) (r_fs r) (r_es r) (r_ds r) i (if has_error i then ec else 0) (r_eip r) (r_cs r) (r_eflags r) (r_esp r) (r_ss r).

Lemma stk_lookup m a ws n w : stk m a ws → ws !! n = Some w → load32 m (a + 4 * Z.of_nat n) = w.
Proof.
  revert a n. induction ws as [|x ws IH]; intros a n Hs Hn; [done|]. destruct Hs as [Hx Hs]. destruct n as [|n].
  - injection Hn as <-. by rewrite Z.add_0_r.
  - replace (a + 4 * Z.of_nat (Datatypes.S n)) with (a + 4 + 4 * Z.of_nat n) by lia. by apply IH.
Qed.

(** Rewrites a load of a frame with the words that [L] lists. *)
#[local] Ltac word_of L :=
  match goal with |- context [load32 ?m (?a + Zpos ?k)] =>
    let n := eval vm_compute in (Z.to_nat (Zpos k / 4)) in
    rewrite (L n _ eq_refl : load32 m (a + Zpos k) = _) end.

Lemma get_tf_words m i ec b r e s : regs_ok r → stk m (b - 68) (frame_words i ec b r ++ [e; s]) →
  get_tf m (b - 68) = (user_frame i ec (b + 8) r) <| esp := e |> <| ss := u16 s |>.
Proof.
  intros [_ Hg] Hs. rewrite !Forall_cons in Hg. cbn [rd] in Hg. unfold frame_words in Hs. cbn [app] in Hs.
  pose proof (λ n w, stk_lookup m (b - 68) _ n w Hs) as L. clear Hs. unfold get_tf, user_frame.
  pose proof (L 0%nat _ eq_refl) as L0. rewrite Z.add_0_r in L0. rewrite L0.
  do 18 word_of L. cbn [set]. rewrite !(u16_small (_ r)) by lia. by replace (b + 8 - 44) with (b - 36) by lia.
Qed.

Lemma stk_eq m a ws : stk m a ws → words m a (length ws) = ws.
Proof. revert a. induction ws as [|w ws IH]; intros a; [done|]. intros [Hw Hs]. cbn [length words]. by rewrite Hw, IH. Qed.

Lemma stk_nil m a : stk m a [].
Proof. done. Qed.

(** The call of [trap] and the way out. *)
Lemma call_trap here (trap : M x86 unit) r m Q : 100 ≤ r_esp r < two32 - 80 → 0 ≤ here < two32 →
  (∀ s1, r_esp (rf s1) = r_esp r - 8 → r_cs (rf s1) = r_cs r → r_ss (rf s1) = r_ss r →
     stk (xmem s1) (r_esp r - 8) [here; r_esp r] → above (r_esp r) m (xmem s1) →
     returns trap s1 (λ _ s2, r_esp (rf s2) = r_esp r - 4 ∧ returns trapret (mkx86 ((rf s2) <| r_esp := r_esp r |>) (xmem s2)) Q)) →
  returns (_ ← pushl ESP; _ ← push here; _ ← trap; sp ← getr ESP; _ ← setr ESP (u32 (sp + 4)); trapret) (mkx86 r m) Q.
Proof.
  intros Ha Hh Ht. eapply pushl_bind; [apply stk_nil|lia|cbn [rd]; lia|]. intros m1 Hs1 H1. cbn [rd] in Hs1.
  eapply push_bind; [exact Hs1|reduce; lia|done|]. intros m2 Hs2 H2. reduce. apply returns_bind.
  eapply returns_mono; [apply Ht|].
  - cbn [rf]. reduce. lia.
  - done.
  - done.
  - by replace (r_esp r - 8) with (r_esp r - 4 - 4) by lia.
  - cbn [xmem]. same_above.
  - intros [] [r3 m3] (E & Hr). cbn [rf xmem] in *. apply getr_bind, setr_bind. reduce. rewrite E.
    replace (r_esp r - 4 + 4) with (r_esp r) by lia. rewrite u32_small by lia. exact Hr.
Qed.

(** The stack that the processor takes from the task state for a user program. *)
Lemma user_stack r esp0 m Q : regs_ok r → Z.land (r_cs r) 3 = 3 → 8 ≤ esp0 < two32 →
  (∀ m', stk m' (esp0 - 8) [r_esp r; r_ss r] → above esp0 m m' → Q tt (mkx86 (r <| r_esp := esp0 - 8 |> <| r_ss := 16 |>) m')) →
  returns (when (negb (Z.land (r_cs r) 3 =? 0))
        (_ ← setr ESP esp0; _ ← setr SS (Z.shiftl SEG_KDATA 3); _ ← push (r_ss r); push (r_esp r))) (mkx86 r m) Q.
Proof.
  intros Hr Hu He HQ. rewrite Hu. change (negb (3 =? 0)) with true. cbn [when]. apply setr_bind, setr_bind. reduce.
  pose proof (regs_ok_word r SS Hr) as H1. pose proof (regs_ok_word r ESP Hr) as H2. cbn [rd] in H1, H2.
  eapply push_bind; [apply stk_nil|reduce; lia|done|]. intros m1 Hs1 Ha1. reduce. apply returns_last.
  eapply push_bind; [exact Hs1|reduce; lia|done|]. intros m2 Hs2 Ha2. reduce. apply returns_ret.
  replace (esp0 - 4 - 4) with (esp0 - 8) in * by lia. specialize (HQ m2 Hs2 ltac:(same_above)). by destruct r.
Qed.

(** C18: A trap from user mode shows [trap] the interrupted registers in the frame, and
    when [trap] returns, the program goes on with the registers of the frame as
    [trap] left it, every one of them. *)
Theorem trap_frame_roundtrip i ec esp0 addr kflags here (trap : M x86 unit) (R : trapframe → Prop) r m :
  regs_ok r → Z.land (r_cs r) 3 = 3 → 0 ≤ i < 256 → 0 ≤ ec < two32 → 0 ≤ here < two32 → 200 ≤ esp0 < two32 - 8 →
  (∀ s1, r_esp (rf s1) = esp0 - 84 → r_cs (rf s1) = 8 → stk (xmem s1) (esp0 - 84) [here; esp0 - 76] →
     get_tf (xmem s1) (esp0 - 76) = user_frame i ec esp0 r → above esp0 m (xmem s1) →
     returns trap s1 (λ _ s2, r_esp (rf s2) = esp0 - 80 ∧ Z.land (r_cs (rf s2)) 3 = 0 ∧
       Z.land (cs (get_tf (xmem s2) (esp0 - 76))) 3 = 3 ∧ R (get_tf (xmem s2) (esp0 - 76)))) →
  returns (take_trap i ec esp0 addr kflags here trap) (mkx86 r m) (λ _ s', ∃ f, R f ∧ rf s' = user_regs f).
Proof.
  intros Hr Hu Hi Hec Hh He Ht. unfold take_trap, hw_trap. apply returns_bind, returns_bind, returns_gets, returns_bind. cbn [rf].
  apply user_stack; [done..|lia|]. intros m1 Hs1 Ha1.
  pose proof (frame_built i ec addr kflags r 16 (esp0 - 8) m1 _ Hr Hi Hec ltac:(lia) Hs1) as Hf.
  apply returns_bind_inv in Hf. eapply returns_mono; [exact Hf|]. clear Hf. intros [] s2 Hf.
  apply returns_bind_inv in Hf. apply returns_bind. eapply returns_mono; [exact Hf|]. clear Hf. intros [] s3 Hf.
  unfold alltraps. apply returns_bind. eapply returns_mono; [exact Hf|]. intros [] [r4 m4] (Hs4 & E & Ecs & _ & Ha4).
  cbn [rf xmem] in *. replace (esp0 - 8 - 68) with (esp0 - 76) in * by lia. apply call_trap; [lia|done|].
  intros s5 E5 Ec5 _ Hs5 Ha5. rewrite E in *. replace (esp0 - 76 - 8) with (esp0 - 84) in * by lia.
  eapply returns_mono; [apply Ht; [done|by rewrite Ec5|done| |]|].
  - apply (stk_above _ _ _ _ Ha5) in Hs4. replace (esp0 - 76) with (esp0 - 8 - 68) in * by lia.
    pose proof (get_tf_words _ _ _ _ r _ _ Hr Hs4) as ->. rewrite (u16_small (r_ss r)) by (by apply ro_ss). replace (esp0 - 8 + 8) with esp0 by lia. reflexivity.
  - same_above.
  - intros [] s6 (E6 & Hc6 & Hu6 & HR). split; [lia|]. eapply returns_mono; [apply trapret_user; reduce; [lia|done|done]|].
    intros [] s7 ->. exists (get_tf (xmem s6) (esp0 - 76)). split; [exact HR|reflexivity].
Qed.

(** A trap taken inside the kernel goes unnoticed by the code it interrupts: when
    [trap] leaves the frame and what is above it alone, all registers are restored and
    the stack of the interrupted code is as before. *)
Theorem kernel_trap_transparent i ec esp0 addr kflags here (trap : M x86 unit) r m :
  regs_ok r → Z.land (r_cs r) 3 = 0 → 0 ≤ i < 256 → 0 ≤ ec < two32 → 0 ≤ here < two32 → 200 ≤ r_esp r < two32 - 80 →
  (∀ s1, r_esp (rf s1) = r_esp r - 76 → r_cs (rf s1) = 8 → stk (xmem s1) (r_esp r - 76) [here; r_esp r - 68] →
     trapno (get_tf (xmem s1) (r_esp r - 68)) = i → above (r_esp r) m (xmem s1) →
     returns trap s1 (λ _ s2, r_esp (rf s2) = r_esp r - 72 ∧ Z.land (r_cs (rf s2)) 3 = 0 ∧ r_ss (rf s2) = r_ss (rf s1) ∧
       above (r_esp r - 68) (xmem s1) (xmem s2))) →
  returns (take_trap i ec esp0 addr kflags here trap) (mkx86 r m) (λ _ s', rf s' = r ∧ above (r_esp r) m (xmem s')).
Proof.
  intros Hr Hu Hi Hec Hh He Ht. unfold take_trap, hw_trap. apply returns_bind, returns_bind, returns_gets, returns_bind. cbn [rf].
  rewrite Hu. change (negb (0 =? 0)) with false. cbn [when]. apply returns_ret.
  pose proof (frame_built i ec addr kflags r (r_ss r) (r_esp r) m _ Hr Hi Hec ltac:(lia) (stk_words m (r_esp r) 2)) as Hf.
  assert (Er : r <| r_esp := r_esp r |> <| r_ss := r_ss r |> = r) by (by destruct r). rewrite Er in Hf.
  apply returns_bind_inv in Hf. eapply returns_mono; [exact Hf|]. clear Hf. intros [] s2 Hf.
  apply returns_bind_inv in Hf. apply returns_bind. eapply returns_mono; [exact Hf|]. clear Hf. intros [] s3 Hf.
  unfold alltraps. apply returns_bind. eapply returns_mono; [exact Hf|]. intros [] [r4 m4] (Hs4 & E & Ecs & Ess & Ha4).
  cbn [rf xmem] in *. apply call_trap; [lia|done|].
  intros s5 E5 Ec5 E5s Hs5 Ha5. rewrite E in *. replace (r_esp r - 68 - 8) with (r_esp r - 76) in * by lia.
  apply (stk_above _ _ _ _ Ha5) in Hs4. cbn [words] in Hs4.
  eapply returns_mono; [apply Ht; [done|by rewrite Ec5|done| |same_above]|].
  - by rewrite (get_tf_words _ _ _ _ r _ _ Hr Hs4).
  - intros [] s6 (E6 & Hc6 & Es6 & Ha6). split; [lia|]. apply (stk_above _ _ _ _ Ha6) in Hs4.
    eapply returns_mono; [apply trapret_kernel; reduce; [lia|done|]|].
    + by rewrite (get_tf_words _ _ _ _ r _ _ Hr Hs4).
    + intros [] s7 ->. reduce. cbn [rf xmem]. rewrite (get_tf_words _ _ _ _ r _ _ Hr Hs4). split; [|same_above].
      rewrite Es6, E5s, Ess. replace (r_esp r - 68 + 68) with (r_esp r) by lia. by destruct r.
Qed.

(** ** Switching stacks *)

(** [a] and [b] start words or records of [n] and [k] bytes that do not overlap. *)
Definition apart (a n b k : Z) : Prop := a + n ≤ b ∨ b + k ≤ a.

(** A call of [swtch(old, new)] on a stack with room for a context. *)
Record calls_swtch (s : x86) (old new : Z) : Prop := {
  cs_regs : regs_ok (rf s);
  cs_room : 16 ≤ r_esp (rf s) < two32 - 16 ∧ 0 ≤ new < two32 - 20;
  cs_args : load32 (xmem s) (r_esp (rf s) + 4) = old ∧ load32 (xmem s) (r_esp (rf s) + 8) = new;
  cs_old : apart old 4 (r_esp (rf s) - 16) 20;
  cs_new : apart new 20 (r_esp (rf s) - 16) 16 ∧ apart new 20 old 4
}.

(** The callee-saved registers, the stack and the place of execution. *)
Definition kept (r : regs) : list Z := [r_edi r; r_esi r; r_ebx r; r_ebp r; r_eip r; r_esp r].

Lemma swtch_ok s old new : calls_swtch s old new →
  returns swtch s (λ _ s',
    kept (rf s') = words (xmem s) new 5 ++ [new + 20] ∧ r_cs (rf s') = r_cs (rf s) ∧
    load32 (xmem s') old = r_esp (rf s) - 16 ∧
    words (xmem s') (r_esp (rf s) - 16) 5 =
      [r_edi (rf s); r_esi (rf s); r_ebx (rf s); r_ebp (rf s); load32 (xmem s) (r_esp (rf s))] ∧
    ∀ x, ¬ (r_esp (rf s) - 16 ≤ x < r_esp (rf s)) → ¬ (old ≤ x < old + 4) → xmem s' x = xmem s x).
Proof.
  intros [[Hw _] [Hsp Hn] [E1 E2] Ho [Hn1 Hn2]]. rewrite !Forall_cons in Hw. unfold apart in *.
  destruct s as [[ax cx dx bx sp bp si di ip fl c s d e f g] m]. cbn [rf xmem] in *. reduce.
  unfold swtch. apply getr_bind. reduce. rewrite !u32_small by lia.
  apply returns_bind, returns_gets, setr_bind, returns_bind, returns_gets, setr_bind. cbn [xmem]. rewrite E1, E2. reduce.
  pose proof (stk_words m sp 1) as Hs. cbn [words] in Hs.
  pushed. pushed. pushed. pushed. apply getr_bind, getr_bind, returns_bind, returns_modify. reduce. cbn [set xmem].
  apply getr_bind, setr_bind. cbn [rf]. reduce. replace (sp - 4 - 4 - 4 - 4) with (sp - 16) in * by lia.
  match goal with H : stk ?m1 (sp - 16) _ |- _ => rename H into Hctx; set (m4 := store32 m1 old (sp - 16)) in *;
    assert (Hm1 : only (sp - 16) 16 m m1) end.
  { intros x Hx. same_mem. }
  assert (Hm4 : ∀ x, ¬ (sp - 16 ≤ x < sp) → ¬ (old ≤ x < old + 4) → m4 x = m x).
  { intros x Hx Hox. unfold m4. rewrite store32_other by done. apply Hm1. lia. }
  pose proof (stk_words m new 5) as Hnew. apply (stk_ext m m4) in Hnew; [|intros x Hx; apply Hm4; cbn [length words] in Hx; lia].
  cbn [words] in Hnew. popped. popped. popped. popped. unfold ret. apply returns_last. popped. apply returns_ret.
  cbn [rf xmem]. unfold kept. reduce. split; [|split; [done|split; [by apply load32_store32; lia|split; [|exact Hm4]]]].
  - cbn [words app]. by replace (new + 4 + 4 + 4 + 4 + 4) with (new + 20) by lia.
  - apply (stk_eq m4 (sp - 16) [di; si; bx; bp; load32 m sp]). apply (stk_ext _ m4) in Hctx; [done|].
    intros x Hx. cbn [length] in Hx. apply store32_other. lia.
Qed.

(** [swtch] saves the caller so that a later [swtch] to the context it stored resumes
    it: its callee-saved registers, its stack and the return from its call are back,
    whatever ran in between, as long as the five words of the context are kept. *)
Theorem swtch_resumes s old new : calls_swtch s old new →
  returns swtch s (λ _ s1,
    kept (rf s1) = words (xmem s) new 5 ++ [new + 20] ∧
    ∀ s2 old2, calls_swtch s2 old2 (load32 (xmem s1) old) →
      words (xmem s2) (load32 (xmem s1) old) 5 = words (xmem s1) (load32 (xmem s1) old) 5 →
      returns swtch s2 (λ _ s3,
        kept (rf s3) = [r_edi (rf s); r_esi (rf s); r_ebx (rf s); r_ebp (rf s);
                        load32 (xmem s) (r_esp (rf s)); r_esp (rf s) + 4])).
Proof.
  intros Hs. eapply returns_mono; [by apply swtch_ok|]. intros [] s1 (E1 & _ & Eo & Ec & _). split; [done|].
  rewrite Eo. intros s2 old2 H2 E2. eapply returns_mono; [by apply swtch_ok|]. intros [] s3 (E3 & _).
  rewrite E3, E2, Ec. cbn [app]. by replace (r_esp (rf s) - 16 + 20) with (r_esp (rf s) + 4) by lia.
Qed.

(** ** The first run of a process *)

Definition tf_words (f : trapframe) : list Z :=
  [edi f; esi f; ebp f; oesp f; ebx f; edx f; ecx f; eax f; gs f; fs f; es f; ds f; trapno f;
   err f; eip f; cs f; eflags f; esp f; ss f].

Fixpoint put_words (m : mem) (a : Z) (ws : list Z) : mem :=
  match ws with [] => m | w :: ws => store32 (put_words m (a + 4) ws) a w end.

Record tf_ok (f : trapframe) : Prop := {
  to_words : Forall (λ w, 0 ≤ w < two32) (tf_words f);
  to_segs : Forall (λ w, 0 ≤ w < 65536) [gs f; fs f; es f; ds f; cs f; ss f]
}.

Lemma tf_ok_eax f v : tf_ok f → 0 ≤ v < two32 → tf_ok (f <| eax := v |>).
Proof.
  intros [Hw Hs] Hv. destruct f as [a1 a2 a3 a4 a5 a6 a7 a8 a9 a10 a11 a12 a13 a14 a15 a16 a17 a18 a19]. split; [|exact Hs].
  unfold tf_words in *. cbn [set edi esi ebp oesp ebx edx ecx eax gs fs es ds trapno err eip cs eflags esp ss] in *.
  rewrite !Forall_cons in Hw. rewrite !Forall_cons. tauto.
Qed.

Lemma put_words_stk m a ws : Forall (λ w, 0 ≤ w < two32) ws → stk (put_words m a ws) a ws.
Proof. intros Hw. revert a. induction Hw as [|w ws Hw _ IH]; intros a; [done|]. apply stk_store; [done|apply IH]. Qed.

Lemma put_words_only m a ws : only a (4 * Z.of_nat (length ws)) m (put_words m a ws).
Proof.
  revert a. induction ws as [|w ws IH]; intros a x Hx; [done|]. cbn [put_words length] in *.
  rewrite store32_other by lia. apply IH. lia.
Qed.

Lemma get_tf_put m m' a f : tf_ok f → (∀ x, a ≤ x < a + 76 → m' x = put_words m a (tf_words f) x) → get_tf m' a = f.
Proof.
  intros [Hw Hs] Hm. rewrite !Forall_cons in Hs. pose proof (put_words_stk m a _ Hw) as Hstk.
  apply (stk_ext _ m') in Hstk; [|exact Hm]. pose proof (λ n w, stk_lookup m' a _ n w Hstk) as L. unfold tf_words in L.
  unfold get_tf. pose proof (L 0%nat _ eq_refl) as L0. rewrite Z.add_0_r in L0. rewrite L0. do 18 word_of L.
  rewrite !(u16_small (_ f)) by lia. by destruct f.
Qed.

(** A C function without arguments, up to its [ret]: it keeps the stack above it. *)
Definition c_returns (f : M x86 unit) (s : x86) : Prop :=
  returns f s (λ _ s', r_eip (rf s') = load32 (xmem s) (r_esp (rf s)) ∧ r_esp (rf s') = r_esp (rf s) + 4 ∧
    r_cs (rf s') = r_cs (rf s) ∧ above (r_esp (rf s) + 4) (xmem s) (xmem s')).

(** The switch to a process that has not run yet: it goes where the stack says. *)
Definition first_run (forkret_addr trapret_addr : Z) (forkret : M x86 unit) : M x86 unit :=
  _ ← swtch;
  pc ← getr EIP;
  if negb (pc =? forkret_addr) then undef "jump" else
  _ ← forkret;
  pc ← getr EIP;
  if negb (pc =? trapret_addr) then undef "jump" else trapret.

(** The scheduler switches to the context on [stack], a kernel stack that neither the
    scheduler's own stack nor [old] is on, and that holds the frame [f] above [m0]. *)
Record switches_to (s : x86) (old stack : Z) (m0 : mem) (f : trapframe) : Prop := {
  sw_call : calls_swtch s old (stack + 3996);
  sw_kernel : Z.land (r_cs (rf s)) 3 = 0;
  sw_apart : apart stack 4096 (r_esp (rf s) - 16) 16 ∧ apart stack 4096 old 4;
  sw_mem : ∀ x, in_page stack x → xmem s x = put_words m0 (stack + 4020) (tf_words f) x
}.

Lemma first_run_ok s old stack m0 f forkret_addr trapret_addr forkret :
  0 ≤ stack < two32 - 5000 → switches_to s old stack m0 f → stack_ready trapret_addr forkret_addr m0 stack → tf_ok f → Z.land (cs f) 3 = 3 →
  (∀ s1, r_esp (rf s1) = stack + 4016 → c_returns forkret s1) →
  returns (first_run forkret_addr trapret_addr forkret) s (λ _ s', rf s' = user_regs f).
Proof.
  intros Hst [Hcall Hk [Ha1 Ha2] Hm] (Er & Ef & Ez) Hf Hu Hfr. unfold apart, in_page, PGSIZE in *.
  assert (Hlow : ∀ j, 0 ≤ j < 6 → load32 (xmem s) (stack + 3996 + 4 * j) = load32 m0 (stack + 3996 + 4 * j)).
  { intros j Hj. apply load32_ext. intros i Hi. rewrite Hm by lia. apply put_words_only. lia. }
  unfold first_run. apply returns_bind. eapply returns_mono; [by apply swtch_ok|].
  intros [] [r1 m1] (E1 & Ecs & _ & _ & Hm1). cbn [rf xmem] in *. unfold kept in E1. cbn [words app] in E1.
  injection E1 as _ _ _ _ Eip Esp. apply getr_bind. cbn [rd]. rewrite Eip.
  replace (stack + 3996 + 4 + 4 + 4 + 4) with (stack + 3996 + 4 * 4) by lia. rewrite Hlow by lia.
  replace (stack + 3996 + 4 * 4) with (stack + 4012) by lia. rewrite Ef, Z.eqb_refl. cbn [negb].
  apply returns_bind. eapply returns_mono; [apply Hfr; cbn [rf]; lia|].
  intros [] [r2 m2] (Eip2 & Esp2 & Ecs2 & Hab). cbn [rf xmem] in *.
  apply getr_bind. cbn [rd]. rewrite Eip2, Esp. replace (stack + 3996 + 20) with (stack + 3996 + 4 * 5) in * by lia.
  assert (E5 : load32 m1 (stack + 3996 + 4 * 5) = trapret_addr).
  { rewrite (load32_ext (xmem s)) by (intros i Hi; apply Hm1; lia). rewrite Hlow by lia.
    by replace (stack + 3996 + 4 * 5) with (stack + 4016) by lia. }
  rewrite E5, Z.eqb_refl. cbn [negb]. assert (Etf : get_tf m2 (r_esp r2) = f).
  { rewrite Esp2, Esp. replace (stack + 3996 + 4 * 5 + 4) with (stack + 4020) by lia. apply (get_tf_put m0); [done|]. intros x Hx.
    rewrite (Hab x) by lia. rewrite (Hm1 x) by lia. apply Hm. lia. }
  eapply returns_mono; [apply trapret_user; [lia|congruence|by rewrite Etf]|]. intros [] s3 ->. cbn [rf]. by rewrite Etf.
Qed.

Section child.
Context {S : Type} `{PA : PageAlloc S}.

End child.

(** ** Concrete processors *)

Definition demo_regs : regs := mkregs 1 2 3 4 5000 6 7 8 9 514 27 35 35 35 0 0.

Definition demo_kregs : regs := mkregs 1 2 3 4 1000 6 7 8 9 2 8 16 16 16 0 0.

Lemma demo_regs_ok : regs_ok demo_regs ∧ regs_ok demo_kregs.
Proof. split; split; apply (bool_decide_eq_true_1 _); by vm_compute. Qed.

(** A [trap] that stores 7 in the frame's [eax], as a system call that returns 7. *)
Definition demo_trap : M x86 unit :=
  sp ← getr ESP;
  tf ← gets (λ s, load32 (xmem s) (sp + 4));
  _ ← modify (λ s, s <| xmem := store32 (xmem s) (tf + 28) 7 |>);
  ret.

Lemma get_tf_eax m a v : 0 ≤ v < two32 → get_tf (store32 m (a + 28) v) a = (get_tf m a) <| eax := v |>.
Proof. intros Hv. unfold get_tf. rewrite load32_store32 by done. by rewrite !load32_apart by lia. Qed.

Lemma trap_frame_roundtrip_witness :
  returns (take_trap 64 0 4096 100 (λ x, x) 50 demo_trap) (mkx86 demo_regs (λ _, 0)) (λ _ s', rf s' = demo_regs <| r_eax := 7 |>).
Proof.
  eapply returns_mono; [apply (trap_frame_roundtrip 64 0 4096 100 (λ x, x) 50 demo_trap
    (λ f, f = (user_frame 64 0 4096 demo_regs) <| eax := 7 |>) demo_regs (λ _, 0));
    [exact (proj1 demo_regs_ok)|reflexivity|unfold two32; lia..|]|].
  - intros [r m] E Ec (H1 & H2 & _) Ef _. cbn [rf xmem] in *. unfold demo_trap. apply getr_bind. cbn [rd]. rewrite E in *.
    apply returns_bind, returns_gets, returns_bind, returns_modify. cbn [xmem set]. rewrite H2. unfold ret. apply returns_last.
    eapply popl_bind; [apply stk_words with (n := 1%nat)|cbn [rf]; rewrite E; unfold two32; lia|]. intros _. apply returns_ret.
    cbn [rf xmem wr]. rewrite get_tf_eax by (unfold two32; lia). rewrite Ef. reduce. rewrite E, Ec. split_and!; reflexivity.
  - intros [] s' (f & -> & E). exact E.
Defined.

(** A kernel thread that calls [swtch(old, new)] and would return to 77. *)
Definition demo_caller (m : mem) (old new : Z) : x86 := mkx86 demo_kregs (put_words m 1000 [77; old; new]).

Lemma demo_calls m old new : 2000 ≤ old < two32 → 2000 ≤ new < two32 - 20 → apart new 20 old 4 →
  calls_swtch (demo_caller m old new) old new.
Proof.
  intros Ho Hn Ha. destruct (put_words_stk m 1000 [77; old; new]) as (_ & E1 & E2 & _).
  { repeat apply Forall_cons_2; try apply Forall_nil_2; unfold two32 in *; lia. }
  unfold demo_caller. split; cbn [rf xmem demo_kregs r_esp]; unfold apart, two32 in *; [exact (proj2 demo_regs_ok)|lia|done|lia|lia].
Qed.

Lemma swtch_resumes_witness :
  returns swtch (demo_caller (put_words (λ _, 0) 3000 [1; 2; 3; 4; 5]) 2000 3000) (λ _ s1, kept (rf s1) = [1; 2; 3; 4; 5; 3020]).
Proof.
  eapply returns_mono; [apply swtch_resumes, demo_calls; unfold apart, two32; lia|]. intros [] s1 [E _]. rewrite E. reflexivity.
Defined.

(** The scheduler of a processor that switches to a kernel stack. *)
Lemma demo_switches m0 stack f : KERNBASE ≤ stack < two32 - 5000 →
  switches_to (demo_caller (put_words m0 (stack + 4020) (tf_words f)) 2000 (stack + 3996)) 2000 stack m0 f.
Proof.
  unfold KERNBASE. intros Hst. split.
  - apply demo_calls; unfold apart, two32 in *; lia.
  - reflexivity.
  - unfold demo_caller, apart. cbn [rf demo_kregs r_esp]. lia.
  - intros x Hx. unfold in_page in Hx. cbn [demo_caller xmem]. apply put_words_only. cbn [length]. lia.
Qed.

Lemma ret_returns s : 0 ≤ r_esp (rf s) < two32 - 4 → c_returns ret s.
Proof.
  intros Hs. destruct s as [r m]. unfold c_returns, ret. apply returns_last.
  eapply popl_bind; [apply stk_words with (n := 1%nat)|done|]. intros _. by apply returns_ret.
Qed.

#[local] Instance demo_context_pages : PageAlloc kmem := kalloc_pages KERNLINK kernlink_above.

