(* ===== verification/Gates.v ===== *)
(** Segments, gates and the task state (mmu.h, vm.c [seginit] and [switchuvm], trap.c
    [tvinit], x86.h [lgdt] and [lidt]): the descriptors as C writes them, bit-field by
    bit-field, and as the processor reads them. *)

From S2P Require Import Prelude Layout ProcTable Sched Trap Context.

(** ** Bit-fields *)

(** Fields of [w] bits in the order of the declaration, from bit 0 up. *)
Fixpoint pack (fs : list (Z * Z)) : Z :=
  match fs with [] => 0 | (w, v) :: fs => v mod 2 ^ w + 2 ^ w * pack fs end.

(** [n] bits of a word from bit [k] on. *)
Definition slice (k n x : Z) : Z := Z.land (Z.shiftr x k) (Z.ones n).

(** ** Descriptors *)

Definition SEG_UCODE : Z := 3.
Definition SEG_UDATA : Z := 4.
Definition SEG_TSS : Z := 5.
Definition NSEGS : Z := 6.
Definition STA_X : Z := 8.
Definition STA_W : Z := 2.
Definition STA_R : Z := 2.
Definition STS_T32A : Z := 9.
Definition STS_IG32 : Z := 14.
Definition STS_TG32 : Z := 15.

Module Seg.
Record segdesc := mk {
  lim_15_0 : Z; base_15_0 : Z; base_23_16 : Z; type : Z; s : Z; dpl : Z; p : Z;
  lim_19_16 : Z; avl : Z; rsv1 : Z; db : Z; g : Z; base_31_24 : Z
}.
#[export] Instance segdesc_eta : Eta segdesc := λ d,
  mk (lim_15_0 d) (base_15_0 d) (base_23_16 d) (type d) (s d) (dpl d) (p d)
     (lim_19_16 d) (avl d) (rsv1 d) (db d) (g d) (base_31_24 d).

Definition seg_fields (d : segdesc) : list (Z * Z) :=
  [(16, lim_15_0 d); (16, base_15_0 d); (8, base_23_16 d); (4, type d); (1, s d); (2, dpl d); (1, p d);
   (4, lim_19_16 d); (1, avl d); (1, rsv1 d); (1, db d); (1, g d); (8, base_31_24 d)].

Definition SEG (type base lim dpl : Z) : segdesc :=
  mk (Z.land (Z.shiftr lim 12) 65535) (Z.land (u32 base) 65535) (Z.land (Z.shiftr (u32 base) 16) 255) type 1 dpl 1
     (Z.shiftr (u32 lim) 28) 0 0 1 1 (Z.shiftr (u32 base) 24).

Definition SEG16 (type base lim dpl : Z) : segdesc :=
  mk (Z.land lim 65535) (Z.land (u32 base) 65535) (Z.land (Z.shiftr (u32 base) 16) 255) type 1 dpl 1
     (Z.shiftr (u32 lim) 16) 0 0 1 0 (Z.shiftr (u32 base) 24).

Definition none : segdesc := mk 0 0 0 0 0 0 0 0 0 0 0 0 0.
End Seg.
#[export] Existing Instance Seg.segdesc_eta.

Module Gate.
Record gatedesc := mk {
  off_15_0 : Z; cs : Z; args : Z; rsv1 : Z; type : Z; s : Z; dpl : Z; p : Z; off_31_16 : Z
}.

Definition gate_fields (d : gatedesc) : list (Z * Z) :=
  [(16, off_15_0 d); (16, cs d); (5, args d); (3, rsv1 d); (4, type d); (1, s d); (2, dpl d); (1, p d); (16, off_31_16 d)].

(** The macro assigns every field. *)
Definition SETGATE (istrap : bool) (sel off d : Z) : gatedesc :=
  mk (Z.land (u32 off) 65535) sel 0 0 (if istrap then STS_TG32 else STS_IG32) 0 d 1 (Z.shiftr (u32 off) 16).

Definition none : gatedesc := mk 0 0 0 0 0 0 0 0 0.
End Gate.

(** The fields of [struct taskstate] that are used. *)
Record taskstate := mkts { esp0 : Z; ss0 : Z; iomb : Z }.
#[export] Instance taskstate_eta : Eta taskstate := λ t, mkts (esp0 t) (ss0 t) (iomb t).
Definition SIZE_TS : Z := 104.

(** ** Setting them up *)

Definition seginit (gdt : list Seg.segdesc) : list Seg.segdesc :=
  let gdt := <[Z.to_nat SEG_KCODE := Seg.SEG (Z.lor STA_X STA_R) 0 4294967295 0]> gdt in
  let gdt := <[Z.to_nat SEG_KDATA := Seg.SEG STA_W 0 4294967295 0]> gdt in
  let gdt := <[Z.to_nat SEG_UCODE := Seg.SEG (Z.lor STA_X STA_R) 0 4294967295 DPL_USER]> gdt in
  <[Z.to_nat SEG_UDATA := Seg.SEG STA_W 0 4294967295 DPL_USER]> gdt.

(** [switchuvm] from [pushcli] to [ltr]; [ts] is the address of the task state. *)
Definition switch_tss (ts kstack : Z) (st : list Seg.segdesc * taskstate) : list Seg.segdesc * taskstate :=
  let gdt := <[Z.to_nat SEG_TSS := Seg.SEG16 STS_T32A ts (SIZE_TS - 1) 0]> st.1 in
  let gdt := alter (λ d, d <| Seg.s := 0 |>) (Z.to_nat SEG_TSS) gdt in
  (gdt, st.2 <| ss0 := Z.shiftl SEG_KDATA 3 |> <| esp0 := u32 (kstack + KSTACKSIZE) |> <| iomb := 65535 |>).

(** [tvinit]; [vectors] is the table of vectors.S. *)
Definition tvinit (vectors : list Z) : M (list Gate.gatedesc) unit :=
  _ ← for_ 256 0 (λ i,
        match vectors !! Z.to_nat i with
        | None => undef "vectors"
        | Some v => modify (λ idt, <[Z.to_nat i := Gate.SETGATE false (Z.shiftl SEG_KCODE 3) v 0]> idt)
        end);
  match vectors !! Z.to_nat T_SYSCALL with
  | None => undef "vectors"
  | Some v => modify (λ idt, <[Z.to_nat T_SYSCALL := Gate.SETGATE true (Z.shiftl SEG_KCODE 3) v DPL_USER]> idt)
  end.

(** The pseudo-descriptor that [lgdt] and [lidt] build: three 16-bit words. *)
Definition pd (p size : Z) : list Z := [u16 (size - 1); u16 (u32 p); u16 (Z.shiftr (u32 p) 16)].

(** ** What the processor reads *)

Definition seg_base (d : Z) : Z := slice 16 16 d + 2 ^ 16 * slice 32 8 d + 2 ^ 24 * slice 56 8 d.
Definition seg_limit (d : Z) : Z :=
  let lim := slice 0 16 d + 2 ^ 16 * slice 48 4 d in
  if slice 55 1 d =? 0 then lim else lim * 4096 + 4095.
Definition seg_dpl (d : Z) : Z := slice 45 2 d.

(** Code and data segments that are present. *)
Definition seg_app (d : Z) : bool := (slice 44 1 d =? 1) && (slice 47 1 d =? 1).
Definition seg_code (d : Z) : bool := seg_app d && (slice 43 1 d =? 1).

(** Where a trap goes: the new code segment, instruction and privilege level, whether
    interrupts stay enabled, and the stack taken from the task state. *)
Record entry_point := mkentry {
  e_cs : Z; e_eip : Z; e_cpl : Z; e_keep_if : bool; e_stack : option (Z * Z)
}.

(** The trap [n] at privilege level [cpl]; [soft] tells whether it is an [int]
    instruction.  [None] is a general protection fault. *)
Definition deliver (gdt idt : list Z) (ts : taskstate) (cpl n : Z) (soft : bool) : option entry_point :=
  g ← idt !! Z.to_nat n;
  if negb (slice 47 1 g =? 1) then None else
  if negb ((slice 44 1 g =? 0) && ((slice 40 4 g =? STS_IG32) || (slice 40 4 g =? STS_TG32))) then None else
  if soft && (slice 45 2 g <? cpl) then None else
  let sel := slice 16 16 g in
  d ← gdt !! Z.to_nat (sel / 8);
  if negb (seg_code d) || (cpl <? seg_dpl d) then None else
  Some (mkentry sel (slice 0 16 g + 2 ^ 16 * slice 48 16 g) (seg_dpl d) (slice 40 4 g =? STS_TG32)
          (if seg_dpl d <? cpl then Some (ss0 ts, esp0 ts) else None)).

(** Whether code outside the kernel may use the I/O port [port]: the byte of the
    permission map, if the task state segment reaches that far, decides. *)
Definition io_map_reached (limit : Z) (ts : taskstate) (port : Z) : bool := iomb ts + port / 8 <=? limit.

(** ** Reading what was written *)

Definition width (fs : list (Z * Z)) : Z := foldr (λ f n, f.1 + n) 0 fs.

Lemma slice_div k n x : 0 ≤ k → 0 ≤ n → slice k n x = (x / 2 ^ k) mod 2 ^ n.
Proof. intros. unfold slice. by rewrite Z.land_ones, Z.shiftr_div_pow2. Qed.

Lemma slice_pack_skip w v fs k n : 0 ≤ w → 0 ≤ k → 0 ≤ n → slice (w + k) n (pack ((w, v) :: fs)) = slice k n (pack fs).
Proof.
  intros Hw Hk Hn. rewrite !slice_div by lia. cbn [pack]. f_equal. rewrite Z.pow_add_r, <- Z.div_div by lia. f_equal.
  rewrite Z.mul_comm, Z.div_add by lia. rewrite Z.div_small by (apply Z.mod_pos_bound; lia). lia.
Qed.

Lemma slice_pack_head w v fs : 0 ≤ w → slice 0 w (pack ((w, v) :: fs)) = v mod 2 ^ w.
Proof.
  intros Hw. rewrite slice_div by lia. cbn [pack]. rewrite Z.div_1_r, Z.mul_comm, Z.mod_add by lia. apply Z.mod_mod. lia.
Qed.

(** The field after the fields [pre]. *)
Lemma slice_pack pre w v post k : Forall (λ f, 0 ≤ f.1) pre → 0 ≤ w → k = width pre →
  slice k w (pack (pre ++ (w, v) :: post)) = v mod 2 ^ w.
Proof.
  intros Hpre Hw ->. induction Hpre as [|[w' v'] pre Hw' Hpre IH]; [by apply slice_pack_head|]. cbn [app width foldr fst] in *.
  rewrite slice_pack_skip; [exact IH|done| |done]. clear IH. induction Hpre; cbn; lia.
Qed.

Lemma slice_field fs i k w v : Forall (λ f, 0 ≤ f.1) fs → fs !! i = Some (w, v) → k = width (take i fs) →
  slice k w (pack fs) = v mod 2 ^ w.
Proof.
  intros Hfs Hi Hk. rewrite <- (take_drop_middle fs i (w, v) Hi) at 1.
  apply slice_pack; [by apply Forall_take| |done]. by apply (Forall_lookup_1 _ _ _ _ Hfs Hi).
Qed.

(** The two halves of a 32-bit value. *)
Lemma halves v : 0 ≤ v < two32 →
  Z.land (u32 v) 65535 mod 2 ^ 16 + 2 ^ 16 * (Z.shiftr (u32 v) 16 mod 2 ^ 16) = v.
Proof.
  intros Hv. rewrite u32_small by done. change 65535 with (Z.ones 16). rewrite Z.land_ones, Z.shiftr_div_pow2 by lia.
  rewrite Z.mod_mod by lia. unfold two32 in Hv. rewrite (Z.mod_small (v / _)); [pose proof (Z.div_mod v (2 ^ 16)); lia|].
  change (2 ^ 16) with 65536. split; [apply Z.div_pos; lia|apply Z.div_lt_upper_bound; lia].
Qed.

(** ** Gates *)

Definition gate_word (d : Gate.gatedesc) : Z := pack (Gate.gate_fields d).
Definition seg_word (d : Seg.segdesc) : Z := pack (Seg.seg_fields d).

Lemma gate_widths d : Forall (λ f, 0 ≤ f.1) (Gate.gate_fields d).
Proof. repeat constructor; cbn; lia. Qed.
Lemma seg_widths d : Forall (λ f, 0 ≤ f.1) (Seg.seg_fields d).
Proof. repeat constructor; cbn; lia. Qed.

(** A gate read back. *)
Lemma gate_read istrap sel off d : 0 ≤ sel < 65536 → 0 ≤ off < two32 → 0 ≤ d < 4 →
  let g := gate_word (Gate.SETGATE istrap sel off d) in
  slice 47 1 g = 1 ∧ slice 44 1 g = 0 ∧ slice 40 4 g = (if istrap then STS_TG32 else STS_IG32) ∧ slice 45 2 g = d ∧
  slice 16 16 g = sel ∧ slice 0 16 g + 2 ^ 16 * slice 48 16 g = off.
Proof.
  intros Hs Ho Hd g. unfold g, gate_word. pose proof (gate_widths (Gate.SETGATE istrap sel off d)) as Hw.
  rewrite (slice_field _ 7 47 1 1 Hw eq_refl eq_refl), (slice_field _ 5 44 1 0 Hw eq_refl eq_refl),
    (slice_field _ 4 40 4 _ Hw eq_refl eq_refl), (slice_field _ 6 45 2 _ Hw eq_refl eq_refl),
    (slice_field _ 1 16 16 _ Hw eq_refl eq_refl), (slice_field _ 0 0 16 _ Hw eq_refl eq_refl),
    (slice_field _ 8 48 16 _ Hw eq_refl eq_refl).
  cbn [Gate.SETGATE Gate.type Gate.dpl Gate.cs Gate.off_15_0 Gate.off_31_16]. rewrite halves by done.
  rewrite (Z.mod_small d), (Z.mod_small sel) by (cbn; lia). by destruct istrap.
Qed.

(** [tvinit] makes an interrupt gate for every vector but that of system calls. *)
Lemma tvinit_ok vectors idt0 : length vectors = 256%nat → length idt0 = 256%nat →
  returns (tvinit vectors) idt0 (λ _ idt, ∀ n v, 0 ≤ n < 256 → vectors !! Z.to_nat n = Some v →
    idt !! Z.to_nat n = Some (Gate.SETGATE (n =? T_SYSCALL) (Z.shiftl SEG_KCODE 3) v (if n =? T_SYSCALL then DPL_USER else 0))).
Proof.
  intros Hv Hi. unfold tvinit. apply returns_bind. eapply returns_mono;
    [apply (returns_for 256 _ (λ k idt, length idt = 256%nat ∧ ∀ n v, 0 ≤ n < k → vectors !! Z.to_nat n = Some v →
       idt !! Z.to_nat n = Some (Gate.SETGATE false (Z.shiftl SEG_KCODE 3) v 0)))|].
  - split; [done|]. lia.
  - intros i idt Hr [Hl H]. destruct (lookup_lt_is_Some_2 vectors (Z.to_nat i)) as [v Ev]; [lia|]. rewrite Ev.
    apply returns_modify. rewrite length_insert. split; [done|]. intros n w Hn Hw. destruct (decide (n = i)) as [->|Hne].
    + rewrite list_lookup_insert_eq by lia. congruence.
    + rewrite list_lookup_insert_ne by lia. apply H; [lia|done].
  - intros [] idt [Hl H]. destruct (lookup_lt_is_Some_2 vectors (Z.to_nat T_SYSCALL)) as [v Ev]; [change (64 < length vectors)%nat; lia|].
    rewrite Ev. apply returns_modify. intros n w Hn Hw. destruct (Z.eqb_spec n T_SYSCALL) as [->|Hne].
    + rewrite list_lookup_insert_eq by (change (64 < length idt)%nat; lia). congruence.
    + rewrite list_lookup_insert_ne by (unfold T_SYSCALL in *; lia). apply H; [lia|done].
Qed.

(** ** Segments *)

(** The descriptors that [seginit] writes. *)
Lemma seginit_lookup gdt0 : length gdt0 = Z.to_nat NSEGS →
  length (seginit gdt0) = Z.to_nat NSEGS ∧
  seginit gdt0 !! Z.to_nat SEG_KCODE = Some (Seg.SEG 10 0 4294967295 0) ∧ seginit gdt0 !! Z.to_nat SEG_KDATA = Some (Seg.SEG 2 0 4294967295 0) ∧
  seginit gdt0 !! Z.to_nat SEG_UCODE = Some (Seg.SEG 10 0 4294967295 3) ∧ seginit gdt0 !! Z.to_nat SEG_UDATA = Some (Seg.SEG 2 0 4294967295 3).
Proof.
  intros Hl. destruct gdt0 as [|d0 [|d1 [|d2 [|d3 [|d4 [|d5 [|]]]]]]]; try discriminate Hl. split_and!; reflexivity.
Qed.

Lemma switch_tss_lookup ts kstack gdt t i : i ≠ Z.to_nat SEG_TSS → (switch_tss ts kstack (gdt, t)).1 !! i = gdt !! i.
Proof. intros Hi. cbn [switch_tss fst]. rewrite list_lookup_alter_ne by done. by rewrite list_lookup_insert_ne by done. Qed.

(** C19: User code gets into the kernel only where the kernel wants it: every trap goes to
    its own vector in the kernel's code segment at level 0, with the kernel stack of the
    current process when it comes from user mode and with interrupts disabled except for
    system calls; and the only trap a user program can cause with [int] is the system
    call, every other number faults. *)
Theorem kernel_entry gdt0 ts0 ts kstack vectors idt0 :
  length gdt0 = Z.to_nat NSEGS → length vectors = 256%nat → length idt0 = 256%nat → Forall (λ v, 0 ≤ v < two32) vectors →
  let st := switch_tss ts kstack (seginit gdt0, ts0) in
  returns (tvinit vectors) idt0 (λ _ idt, ∀ n v cpl soft, 0 ≤ n < 256 → vectors !! Z.to_nat n = Some v → cpl = 0 ∨ cpl = 3 →
    deliver (seg_word <$> st.1) (gate_word <$> idt) st.2 cpl n soft =
      if soft && (cpl =? 3) && negb (n =? T_SYSCALL) then None
      else Some (mkentry 8 v 0 (n =? T_SYSCALL) (if cpl =? 3 then Some (16, u32 (kstack + KSTACKSIZE)) else None))).
Proof.
  intros Hg Hv Hi Hrange st. eapply returns_mono; [by apply tvinit_ok|]. intros [] idt Hidt n v cpl soft Hn Ev Hc.
  pose proof (Forall_lookup_1 _ _ _ _ Hrange Ev) as Hvr. specialize (Hidt n v Hn Ev). unfold deliver.
  rewrite list_lookup_fmap, Hidt. cbn [fmap option_fmap option_map mbind option_bind].
  destruct (gate_read (n =? T_SYSCALL) (Z.shiftl SEG_KCODE 3) v (if n =? T_SYSCALL then DPL_USER else 0)) as (-> & -> & -> & -> & -> & ->);
    [change (0 ≤ 8 < 65536); lia|done|unfold DPL_USER; case_match; lia|].
  destruct (seginit_lookup gdt0 Hg) as (_ & Ek & _). rewrite list_lookup_fmap. change (Z.to_nat (Z.shiftl SEG_KCODE 3 / 8)) with (Z.to_nat SEG_KCODE).
  unfold st. rewrite switch_tss_lookup by done. rewrite Ek. cbn [fmap option_fmap option_map].
  change (seg_code (seg_word (Seg.SEG 10 0 4294967295 0))) with true. change (seg_dpl (seg_word (Seg.SEG 10 0 4294967295 0))) with 0.
  destruct soft, (n =? T_SYSCALL), Hc as [-> | ->]; reflexivity.
Qed.

(** After [seginit] the four segments cover the whole address space from 0, the user's
    at level 3 and the kernel's at level 0; the task state segment that [switchuvm]
    loads is the task state itself, and it leaves no I/O port to user programs. *)
Theorem segments_flat gdt0 ts0 ts kstack : length gdt0 = Z.to_nat NSEGS → 0 ≤ ts < two32 →
  let st := switch_tss ts kstack (seginit gdt0, ts0) in
  (∀ sel level, (sel, level) ∈ [(SEG_KCODE, 0); (SEG_KDATA, 0); (SEG_UCODE, 3); (SEG_UDATA, 3)] →
     ∃ d, (seg_word <$> st.1) !! Z.to_nat sel = Some d ∧ seg_app d = true ∧ seg_base d = 0 ∧ seg_limit d = 4294967295 ∧ seg_dpl d = level) ∧
  (∃ d, (seg_word <$> st.1) !! Z.to_nat SEG_TSS = Some d ∧ slice 40 4 d = STS_T32A ∧ slice 44 1 d = 0 ∧
     seg_base d = ts ∧ seg_limit d = SIZE_TS - 1 ∧ ∀ port, 0 ≤ port → io_map_reached (seg_limit d) st.2 port = false).
Proof.
  intros Hg Hts st. destruct (seginit_lookup gdt0 Hg) as (Hl & E1 & E2 & E3 & E4). split.
  - intros sel level Hin. rewrite list_lookup_fmap. unfold st.
    rewrite !elem_of_cons, elem_of_nil in Hin. destruct Hin as [[= -> ->]|[[= -> ->]|[[= -> ->]|[[= -> ->]|[]]]]];
      rewrite switch_tss_lookup by done; [rewrite E1|rewrite E2|rewrite E3|rewrite E4]; eexists; (split; [reflexivity|]); split_and!; reflexivity.
  - exists (seg_word ((Seg.SEG16 STS_T32A ts (SIZE_TS - 1) 0) <| Seg.s := 0 |>)). split.
    { rewrite list_lookup_fmap. unfold st. cbn [switch_tss fst]. rewrite list_lookup_alter_eq, list_lookup_insert_eq by (rewrite Hl; unfold SEG_TSS, NSEGS; lia).
      reflexivity. }
    set (d := (Seg.SEG16 STS_T32A ts (SIZE_TS - 1) 0) <| Seg.s := 0 |>). pose proof (seg_widths d) as Hw.
    assert (El : seg_limit (seg_word d) = SIZE_TS - 1).
    { unfold seg_limit, seg_word. rewrite (slice_field _ 0 0 16 _ Hw eq_refl eq_refl), (slice_field _ 7 48 4 _ Hw eq_refl eq_refl),
        (slice_field _ 11 55 1 0 Hw eq_refl eq_refl). reflexivity. }
    rewrite El. unfold seg_base, seg_word. rewrite (slice_field _ 3 40 4 _ Hw eq_refl eq_refl), (slice_field _ 4 44 1 _ Hw eq_refl eq_refl),
      (slice_field _ 1 16 16 _ Hw eq_refl eq_refl), (slice_field _ 2 32 8 _ Hw eq_refl eq_refl), (slice_field _ 12 56 8 _ Hw eq_refl eq_refl).
    split_and!; [reflexivity|reflexivity| |reflexivity|].
    + unfold d. cbn [set Seg.SEG16 Seg.base_15_0 Seg.base_23_16 Seg.base_31_24]. rewrite u32_small by done.
      change 65535 with (Z.ones 16). change 255 with (Z.ones 8). rewrite !Z.land_ones, !Z.shiftr_div_pow2 by lia. unfold two32 in Hts.
      change (2 ^ 16) with 65536. change (2 ^ 24) with 16777216. change (2 ^ 8) with 256. Z.div_mod_to_equations. lia.
    + intros port Hp. unfold io_map_reached. apply Z.leb_gt. cbn [st switch_tss snd set iomb]. unfold SIZE_TS. pose proof (Z.div_pos port 8). lia.
Qed.

(** ** A concrete table *)

Definition demo_vectors : list Z := (λ i, 2148532224 + 16 * i) <$> seqZ 0 256.

Lemma kernel_entry_witness :
  let st := switch_tss 2148536320 2148540416 (seginit (replicate 6 Seg.none), mkts 0 0 0) in
  returns (tvinit demo_vectors) (replicate 256 Gate.none) (λ _ idt,
    deliver (seg_word <$> st.1) (gate_word <$> idt) st.2 3 T_SYSCALL true = Some (mkentry 8 2148533248 0 true (Some (16, 2148544512))) ∧
    deliver (seg_word <$> st.1) (gate_word <$> idt) st.2 3 14 true = None).
Proof.
  eapply returns_mono; [apply (kernel_entry (replicate 6 Seg.none) (mkts 0 0 0) 2148536320 2148540416 demo_vectors);
    [reflexivity|reflexivity|reflexivity|apply (bool_decide_eq_true_1 _); reflexivity]|].
  intros [] idt H. split; [rewrite (H T_SYSCALL 2148533248)|rewrite (H 14 2148532448)]; try reflexivity; first [right; reflexivity|unfold T_SYSCALL; lia].
Defined.

Lemma segments_flat_witness :
  ∃ d, (seg_word <$> (switch_tss 2148536320 2148540416 (seginit (replicate 6 Seg.none), mkts 0 0 0)).1) !! 3%nat = Some d ∧ seg_dpl d = 3.
Proof.
  destruct (proj1 (segments_flat (replicate 6 Seg.none) (mkts 0 0 0) 2148536320 2148540416 eq_refl ltac:(unfold two32; lia)) SEG_UCODE 3) as (d & E & _ & _ & _ & Ed).
  - right. right. left.
  - exists d. split; [exact E|exact Ed].
Defined.
