(* ===== verification/Boot.v ===== *)
(** The boot loader (bootmain.c): it reads the kernel, an ELF file that starts at
    sector 1 of the disk, into physical memory, polling the drive. *)

From S2P Require Import Prelude CString Ide.

Definition SECTSIZE : Z := 512.
Definition ELF_MAGIC : Z := 1179403647.

(** ** The drive *)

(** A drive read by polling.  [pio_busy] is the number of times its status will still be
    busy, [pio_has] tells the sector it has been told to read. *)
Class PioDisk (D : Type) := {
  pio_outb : Z → Z → D → D;
  pio_inb : D → Z * D;
  pio_insl : D → list Z * D;
  pio_sector : D → Z → list Z;
  pio_busy : D → nat;
  pio_idle : D → Prop;
  pio_has : D → Z → Prop;

  pio_length d n : length (pio_sector d n) = 512%nat;
  pio_poll_busy d n : pio_busy d = S n →
    Z.land (pio_inb d).1 192 ≠ 64 ∧ pio_busy (pio_inb d).2 = n ∧ pio_sector (pio_inb d).2 = pio_sector d ∧
    (pio_idle d → pio_idle (pio_inb d).2) ∧ ∀ lba, pio_has d lba → pio_has (pio_inb d).2 lba;
  pio_poll_ready d : pio_busy d = O → Z.land (pio_inb d).1 192 = 64 ∧ (pio_inb d).2 = d;
  pio_read d r3 r4 r5 r6 : pio_idle d → pio_busy d = O → drive_of r6 = 0 →
    let d' := pio_outb 503 32 (pio_outb 502 r6 (pio_outb 501 r5 (pio_outb 500 r4 (pio_outb 499 r3 (pio_outb 498 1 d))))) in
    pio_has d' (lba28 r3 r4 r5 r6) ∧ pio_sector d' = pio_sector d;
  pio_data d lba : pio_has d lba → pio_busy d = O →
    (pio_insl d).1 = pio_sector d lba ∧ pio_idle (pio_insl d).2 ∧ pio_sector (pio_insl d).2 = pio_sector d
}.

Record bootst (D : Type) := mkboot { bmem : mem; bdisk : D }.
Arguments mkboot {D}.
Arguments bmem {D}.
Arguments bdisk {D}.
#[export] Instance bootst_eta {D} : Eta (bootst D) := λ s, mkboot (bmem s) (bdisk s).

Section Boot.
Context {D : Type} `{PioDisk D}.
#[local] Abbreviation B := (bootst D).

(** How often the status is read at most. *)
Variable polls : nat.

Definition bld (a : Z) : M B Z := gets (λ s, load32 (bmem s) a).
Definition bld16 (a : Z) : M B Z := gets (λ s, bmem s a + 256 * bmem s (a + 1)).
Definition bout (port v : Z) : M B unit := modify (λ s, s <| bdisk := pio_outb port (u8 v) (bdisk s) |>).
Definition status_in : M B Z := λ s, let (v, d) := pio_inb (bdisk s) in Ok v (s <| bdisk := d |>).

(** ** Operations *)

Fixpoint wait_loop (n : nat) : M B unit :=
  match n with
  | O => λ _, NoFuel
  | S n => v ← status_in; if negb (Z.land v 192 =? 64) then wait_loop n else skip
  end.
Definition waitdisk : M B unit := wait_loop polls.

(** [insl(0x1F0, dst, SECTSIZE/4)] *)
Definition read_words (dst : Z) : M B unit := λ s,
  let (l, d) := pio_insl (bdisk s) in
  Ok tt (mkboot (λ x, if (dst <=? x) && (x <? dst + SECTSIZE) then nth (Z.to_nat (x - dst)) l 0 else bmem s x) d).

Definition readsect (dst offset : Z) : M B unit :=
  _ ← waitdisk;
  _ ← bout 498 1;
  _ ← bout 499 offset;
  _ ← bout 500 (Z.shiftr offset 8);
  _ ← bout 501 (Z.shiftr offset 16);
  _ ← bout 502 (Z.lor (Z.shiftr offset 24) 224);
  _ ← bout 503 32;
  _ ← waitdisk;
  read_words dst.

Fixpoint readseg_loop (n : nat) (pa epa offset : Z) : M B unit :=
  if negb (pa <? epa) then skip else
  match n with
  | O => λ _, NoFuel
  | S n => _ ← readsect pa offset; readseg_loop n (u32 (pa + SECTSIZE)) epa (u32 (offset + 1))
  end.

Definition readseg (pa count offset : Z) : M B unit :=
  let epa := u32 (pa + count) in
  let pa := u32 (pa - offset mod SECTSIZE) in
  let offset := offset / SECTSIZE + 1 in
  readseg_loop (Z.to_nat (count / SECTSIZE + 2)) pa epa offset.

(** Offsets of the fields of [struct elfhdr] and [struct proghdr] as in elf.h. *)
Fixpoint load_kernel (n : nat) (ph eph : Z) : M B unit :=
  if negb (ph <? eph) then skip else
  match n with
  | O => λ _, NoFuel
  | S n =>
      pa ← bld (ph + 12);
      filesz ← bld (ph + 16);
      off ← bld (ph + 4);
      _ ← readseg pa filesz off;
      memsz ← bld (ph + 20);
      filesz ← bld (ph + 16);
      _ ← when (filesz <? memsz)
            (modify (λ s, s <| bmem := stosb (u32 (pa + filesz)) 0 (Z.to_nat (memsz - filesz)) (bmem s) |>));
      load_kernel n (u32 (ph + 32)) eph
  end.

(** It gives the address it jumps to, or returns. *)
Definition bootmain : M B (option Z) :=
  let elf := 65536 in
  _ ← readseg elf 4096 0;
  magic ← bld elf;
  if negb (magic =? ELF_MAGIC) then mret None else
  phoff ← bld (elf + 28);
  phnum ← bld16 (elf + 44);
  let ph := u32 (elf + phoff) in
  _ ← load_kernel (Z.to_nat phnum) ph (u32 (ph + 32 * phnum));
  entry ← bld (elf + 24);
  mret (Some entry).

(** ** Reading the disk *)

Context (Hpolls : ∀ d : D, (pio_busy d < polls)%nat).

Lemma wait_ok n m d : (pio_busy d < n)%nat →
  returns (wait_loop n) (mkboot m d) (λ _ s', bmem s' = m ∧ pio_busy (bdisk s') = O ∧ pio_sector (bdisk s') = pio_sector d ∧
    (pio_idle d → pio_idle (bdisk s')) ∧ ∀ lba, pio_has d lba → pio_has (bdisk s') lba).
Proof.
  revert d. induction n as [|n IH]; intros d Hb; [lia|]. cbn [wait_loop]. apply returns_bind. unfold returns at 1, status_in. cbn [bdisk].
  destruct (pio_busy d) as [|b] eqn:Eb.
  - destruct (pio_poll_ready d Eb) as [Hv Hd]. destruct (pio_inb d) as [v d']. cbn [fst snd] in *. subst d'. rewrite Hv.
    change (negb (64 =? 64)) with false. cbv iota. by apply returns_ret.
  - destruct (pio_poll_busy d b Eb) as (Hv & Hb' & Hs & Hi & Hh). destruct (pio_inb d) as [v d']. cbn [fst snd] in *.
    rewrite (proj2 (Z.eqb_neq _ _) Hv). cbn [negb set bdisk bmem]. eapply returns_mono; [apply IH; lia|].
    intros [] s' (E1 & E2 & E3 & E4 & E5). split; [done|]. split; [done|]. split; [congruence|]. auto.
Qed.

Lemma lba_ok offset : 0 ≤ offset < 2 ^ 28 →
  lba28 (u8 offset) (u8 (Z.shiftr offset 8)) (u8 (Z.shiftr offset 16)) (u8 (Z.lor (Z.shiftr offset 24) 224)) = offset ∧
  drive_of (u8 (Z.lor (Z.shiftr offset 24) 224)) = 0.
Proof.
  intros Ho. rewrite !Z.shiftr_div_pow2 by lia. set (t := offset / 2 ^ 24). change (2 ^ 28) with 268435456 in Ho.
  assert (Ht : 0 ≤ t < 16) by (unfold t; change (2 ^ 24) with 16777216; Z.div_mod_to_equations; lia).
  assert (Et : Z.land (u8 (Z.lor t 224)) 15 = t ∧ drive_of (u8 (Z.lor t 224)) = 0).
  { assert (Hc : t = 0 ∨ t = 1 ∨ t = 2 ∨ t = 3 ∨ t = 4 ∨ t = 5 ∨ t = 6 ∨ t = 7 ∨ t = 8 ∨ t = 9 ∨ t = 10 ∨ t = 11 ∨ t = 12 ∨ t = 13 ∨ t = 14 ∨ t = 15) by lia.
    destruct_or! Hc; rewrite Hc; split; reflexivity. }
  destruct Et as [E1 E2]. split; [|done]. unfold lba28. rewrite E1. unfold t, u8.
  change (2 ^ 24) with 16777216 in *. change (2 ^ 16) with 65536. change (2 ^ 8) with 256. Z.div_mod_to_equations. lia.
Qed.

Lemma readsect_ok dst offset m d : pio_idle d → 0 ≤ offset < 2 ^ 28 →
  returns (readsect dst offset) (mkboot m d) (λ _ s', pio_idle (bdisk s') ∧ pio_sector (bdisk s') = pio_sector d ∧
    ∀ x, bmem s' x = if (dst <=? x) && (x <? dst + 512) then nth (Z.to_nat (x - dst)) (pio_sector d offset) 0 else m x).
Proof.
  intros Hi Ho. unfold readsect. apply returns_bind. eapply returns_mono; [by apply wait_ok|].
  intros [] [m1 d1] (E1 & Eb & Es & Hi1 & _). cbn [bmem bdisk] in *. subst m1. specialize (Hi1 Hi).
  do 6 (apply returns_bind, returns_modify). cbn [set bdisk bmem].
  destruct (lba_ok offset Ho) as [El Ed]. pose proof (pio_read d1 (u8 offset) (u8 (Z.shiftr offset 8)) (u8 (Z.shiftr offset 16)) _ Hi1 Eb Ed) as Hr. cbv zeta in Hr. rewrite El in Hr.
  change (u8 1) with 1. change (u8 32) with 32. set (d2 := pio_outb 503 32 _) in *. destruct Hr as [Hh Hs2].
  apply returns_bind. eapply returns_mono; [by apply wait_ok|]. intros [] [m3 d3] (E3 & Eb3 & Es3 & _ & Hh3). cbn [bmem bdisk] in *. subst m3.
  destruct (pio_data d3 offset (Hh3 _ Hh) Eb3) as (Hd & Hi4 & Hs4). unfold returns, read_words. cbn [bdisk bmem].
  destruct (pio_insl d3) as [l d4]. cbn [fst snd bmem bdisk] in *. split; [done|]. split; [congruence|]. intros x. unfold SECTSIZE.
  by rewrite Hd, Es3, Hs2, Es.
Qed.

(** The bytes of the file that starts at sector 1. *)
Definition image (sector : Z → list Z) (img : Z → Z) : Prop :=
  ∀ n i, 0 ≤ n → 0 ≤ i < 512 → nth (Z.to_nat i) (sector (n + 1)) 0 = img (512 * n + i).

(** The drive is idle, with the sectors [sector]. *)
Definition disk_ok (sector : Z → list Z) (s : B) : Prop := pio_idle (bdisk s) ∧ pio_sector (bdisk s) = sector.

(** Memory [m] with the bytes of the file from [off] on at [lo] to [hi]. *)
Definition filled (img : Z → Z) (lo hi off : Z) (m : mem) : mem :=
  λ x, if (lo <=? x) && (x <? hi) then img (off + (x - lo)) else m x.

Section Image.
Context (sector : Z → list Z) (img : Z → Z) (Himg : image sector img).

Lemma readseg_loop_ok n k pa epa s : disk_ok sector s → 0 ≤ pa → 0 ≤ k → epa + 512 < two32 →
  (epa - pa) / 512 < Z.of_nat n → k + Z.of_nat n < 2 ^ 28 →
  returns (readseg_loop n pa epa (k + 1)) s (λ _ s', disk_ok sector s' ∧
    ∃ hi, epa ≤ hi < epa + 512 ∧ ∀ x, bmem s' x = filled img pa (Z.max pa hi) (512 * k) (bmem s) x).
Proof.
  revert k pa s. induction n as [|n IH]; intros k pa s Hd Hpa Hk He Hn Hkn.
  - cbn [readseg_loop]. assert (Hle : epa < pa) by (Z.div_mod_to_equations; lia).
    rewrite (proj2 (Z.ltb_ge pa epa)) by lia. apply returns_ret. split; [done|]. exists epa. split; [lia|]. intros x. unfold filled.
    destruct (Z.leb_spec pa x), (Z.ltb_spec x (Z.max pa epa)); cbn [andb]; try done; lia.
  - cbn [readseg_loop]. destruct (Z.ltb_spec pa epa) as [Hlt|Hge]; cbn [negb].
    + apply returns_bind. destruct s as [m d], Hd as [Hi Hs]. cbn [bdisk] in *. eapply returns_mono; [apply readsect_ok; [done|lia]|].
      intros [] s1 (Hi1 & Hs1 & Hm1). unfold SECTSIZE, two32 in *. rewrite !u32_small by (unfold two32; change (2 ^ 28) with 268435456 in *; lia).
      eapply returns_mono; [apply (IH (k + 1)); [split; [done|congruence]|lia|lia|done| |lia]|].
      { replace (epa - pa) with (epa - (pa + 512) + 1 * 512) in Hn by lia. rewrite Z.div_add in Hn by lia. lia. }
      intros [] s2 (Hd2 & hi & Hhi & Hm2). split; [done|]. exists (Z.max (pa + 512) hi). split; [lia|]. intros x. rewrite Hm2. unfold filled.
      rewrite Hm1, Hs.
      destruct (Z.leb_spec (pa + 512) x), (Z.ltb_spec x (Z.max (pa + 512) hi)), (Z.leb_spec pa x), (Z.ltb_spec x (Z.max pa (Z.max (pa + 512) hi))),
        (Z.ltb_spec x (pa + 512)); cbn [andb]; try lia; try done.
      * f_equal. lia.
      * rewrite (Himg k) by lia. f_equal.
    + apply returns_ret. split; [done|]. exists epa. split; [lia|]. intros x. unfold filled.
      destruct (Z.leb_spec pa x), (Z.ltb_spec x (Z.max pa epa)); cbn [andb]; try done; lia.
Qed.

(** [readseg] writes the bytes asked for, and no more than fill up the sectors at both
    ends, which also come from the file. *)
Lemma readseg_ok pa count off s : disk_ok sector s → 0 ≤ count → 0 ≤ off → off mod 512 ≤ pa → pa + count + 512 < two32 →
  (off + count) / 512 + 4 < 2 ^ 28 →
  returns (readseg pa count off) s (λ _ s', disk_ok sector s' ∧
    ∃ lo hi, pa - 512 < lo ≤ pa ∧ pa + count ≤ hi < pa + count + 512 ∧ lo = pa - off mod 512 ∧
      ∀ x, bmem s' x = filled img lo hi (off - off mod 512) (bmem s) x).
Proof.
  intros Hd Hc Ho Hpa Hend Hlba. unfold readseg, SECTSIZE. pose proof (Z.mod_pos_bound off 512). unfold two32 in *.
  rewrite !u32_small by (unfold two32; lia).
  assert (Hlb : off / 512 + (count / 512 + 2) < 2 ^ 28) by (Z.div_mod_to_equations; lia).
  pose proof (Z.div_pos count 512). pose proof (Z.div_pos off 512).
  eapply returns_mono; [apply (readseg_loop_ok _ (off / 512)); [done|lia|lia|unfold two32; lia| |]|].
  - rewrite Z2Nat.id by lia. replace (pa + count - (pa - off mod 512)) with (count + off mod 512) by lia. Z.div_mod_to_equations. lia.
  - rewrite Z2Nat.id by lia. lia.
  - intros [] s' (Hd' & hi & Hhi & Hm). split; [done|]. exists (pa - off mod 512), hi. split; [lia|]. split; [lia|]. split; [done|].
    intros x. rewrite Hm. rewrite Z.max_r by lia. f_equal. pose proof (Z.div_mod off 512). lia.
Qed.

(** ** Loading the kernel *)

Definition phoff : Z := load32 img 28.
Definition phnum : Z := img 44 + 256 * img 45.
Definition ph_field (c j : Z) : Z := load32 img (phoff + 32 * j + c).
Definition p_off : Z → Z := ph_field 4.
Definition p_paddr : Z → Z := ph_field 12.
Definition p_filesz : Z → Z := ph_field 16.
Definition p_memsz : Z → Z := ph_field 20.

(** The memory that loading segment [j] may write. *)
Definition p_lo (j : Z) : Z := p_paddr j - p_off j mod 512.
Definition p_hi (j : Z) : Z := p_paddr j + Z.max (p_filesz j + 511) (p_memsz j).

(** A kernel file that can be booted: its program headers are in the first page, its
    segments are in range, none is loaded over the page that holds the headers, and a
    later one is not loaded over an earlier one. *)
Record bootable : Prop := {
  bo_bytes : ∀ x, 0 ≤ img x < 256;
  bo_page : phoff + 32 * phnum ≤ 4096;
  bo_seg : ∀ j, 0 ≤ j < phnum → 0 ≤ p_lo j ∧ p_hi j + 1 < two32 ∧ (p_off j + p_filesz j) / 512 + 4 < 2 ^ 28;
  bo_header : ∀ j, 0 ≤ j < phnum → p_hi j ≤ 65536 ∨ 69632 ≤ p_lo j;
  bo_apart : ∀ j k, 0 ≤ j < k → k < phnum → p_hi k ≤ p_paddr j ∨ p_paddr j + p_memsz j ≤ p_lo k
}.

(** Segment [j] is in memory, padded with zeros. *)
Definition p_loaded (m : mem) (j : Z) : Prop :=
  ∀ i, 0 ≤ i < p_memsz j → m (p_paddr j + i) = if i <? p_filesz j then img (p_off j + i) else 0.

Context (Hb : bootable).

Lemma field_range a : 0 ≤ load32 img a < two32.
Proof.
  unfold load32, two32. pose proof (bo_bytes Hb a). pose proof (bo_bytes Hb (a + 1)). pose proof (bo_bytes Hb (a + 2)).
  pose proof (bo_bytes Hb (a + 3)). lia.
Qed.

(** The page with the headers. *)
Definition header_at (m : mem) : Prop := ∀ x, 0 ≤ x < 4096 → m (65536 + x) = img x.

Lemma header_load m a : header_at m → 0 ≤ a ≤ 4092 → load32 m (65536 + a) = load32 img a.
Proof. intros Hm Ha. unfold load32. rewrite <- !Z.add_assoc, !Hm by lia. done. Qed.

Lemma load_segment j s : disk_ok sector s → 0 ≤ j < phnum → header_at (bmem s) →
  returns (readseg (p_paddr j) (p_filesz j) (p_off j)) s (λ _ s1,
    (∀ x, x < p_lo j ∨ p_hi j ≤ x → bmem s1 x = bmem s x) ∧
    returns (when (p_filesz j <? p_memsz j)
      (modify (λ s, s <| bmem := stosb (u32 (p_paddr j + p_filesz j)) 0 (Z.to_nat (p_memsz j - p_filesz j)) (bmem s) |>))) s1
      (λ _ s', disk_ok sector s' ∧ p_loaded (bmem s') j ∧ ∀ x, x < p_lo j ∨ p_hi j ≤ x → bmem s' x = bmem s x)).
Proof.
  intros Hd Hj Hh. destruct (bo_seg Hb j Hj) as (Hlo & Hhi & Hlba). unfold p_lo, p_hi in *.
  pose proof (field_range (phoff + 32 * j + 4)) as Ro. pose proof (field_range (phoff + 32 * j + 12)) as Rp.
  pose proof (field_range (phoff + 32 * j + 16)) as Rf. pose proof (field_range (phoff + 32 * j + 20)) as Rm.
  fold (ph_field 4 j) in Ro. fold (ph_field 12 j) in Rp. fold (ph_field 16 j) in Rf. fold (ph_field 20 j) in Rm.
  fold (p_off j) in Ro. fold (p_paddr j) in Rp. fold (p_filesz j) in Rf. fold (p_memsz j) in Rm.
  eapply returns_mono; [apply readseg_ok; [done|lia|lia|lia|lia|done]|].
  intros [] s1 (Hd1 & lo & hi & Hl & Hh1 & El & Hm). pose proof (Z.mod_pos_bound (p_off j) 512).
  assert (Hfile : ∀ i, 0 ≤ i < p_filesz j → bmem s1 (p_paddr j + i) = img (p_off j + i)).
  { intros i Hi. rewrite Hm. unfold filled. rewrite (proj2 (Z.leb_le _ _)), (proj2 (Z.ltb_lt _ _)) by lia. cbn [andb]. f_equal. lia. }
  assert (Hout : ∀ x, x < lo ∨ hi ≤ x → bmem s1 x = bmem s x).
  { intros x Hx. rewrite Hm. unfold filled. destruct (Z.leb_spec lo x), (Z.ltb_spec x hi); cbn [andb]; try done; lia. }
  split; [intros x Hx; apply Hout; lia|]. unfold when. destruct (Z.ltb_spec (p_filesz j) (p_memsz j)) as [Hlt|Hge].
  - apply returns_modify. cbn [set bmem]. rewrite u32_small by lia. split; [done|]. split.
    + intros i Hi. rewrite stosb_spec. unfold in_range. rewrite Z2Nat.id by lia.
      destruct (Z.ltb_spec i (p_filesz j)); case_match eqn:E; try lia; [by apply Hfile; lia|done].
    + intros x Hx. rewrite stosb_spec. unfold in_range. rewrite Z2Nat.id by lia. case_match eqn:E; [lia|]. apply Hout. lia.
  - apply returns_ret. split; [done|]. split; [|intros x Hx; apply Hout; lia].
    intros i Hi. rewrite (proj2 (Z.ltb_lt _ _)) by lia. apply Hfile. lia.
Qed.

Lemma p_loaded_ext m m' j : (∀ x, p_paddr j ≤ x < p_paddr j + p_memsz j → m' x = m x) → p_loaded m j → p_loaded m' j.
Proof. intros Hx Hl i Hi. rewrite Hx by lia. by apply Hl. Qed.

Lemma load_kernel_ok n j s : disk_ok sector s → 0 ≤ j → j + Z.of_nat n = phnum → header_at (bmem s) →
  (∀ k, 0 ≤ k < j → p_loaded (bmem s) k) →
  returns (load_kernel n (65536 + phoff + 32 * j) (65536 + phoff + 32 * phnum)) s (λ _ s',
    header_at (bmem s') ∧ ∀ k, 0 ≤ k < phnum → p_loaded (bmem s') k).
Proof.
  revert j s. induction n as [|n IH]; intros j s Hd Hj Hn Hh Hl.
  - cbn [load_kernel]. rewrite (proj2 (Z.ltb_ge _ _)) by lia. cbn [negb]. apply returns_ret. split; [done|]. intros k Hk. apply Hl. lia.
  - pose proof (bo_page Hb) as Hpage. assert (Hpo : 0 ≤ phoff) by apply field_range. cbn [load_kernel].
    rewrite (proj2 (Z.ltb_lt _ _)) by lia. cbn [negb]. unfold bld.
    assert (Hf : ∀ c m, header_at m → 0 ≤ c ≤ 28 → load32 m (65536 + phoff + 32 * j + c) = ph_field c j).
    { intros c m Hm Hc. unfold ph_field. rewrite <- (header_load m) by (done || lia). f_equal. lia. }
    do 3 (apply returns_bind, returns_gets). rewrite !Hf by (done || lia). fold (p_off j) (p_paddr j) (p_filesz j).
    assert (Hkeep : ∀ m, (∀ x, x < p_lo j ∨ p_hi j ≤ x → m x = bmem s x) → header_at m).
    { intros m Hm x Hx. rewrite Hm; [by apply Hh|]. destruct (bo_header Hb j); lia. }
    apply returns_bind. eapply returns_mono; [apply (load_segment j); [done|lia|done]|]. intros [] s1 [Hs1 Hseg].
    do 2 (apply returns_bind, returns_gets). rewrite !Hf by (by apply Hkeep || lia). fold (p_filesz j) (p_memsz j).
    apply returns_bind. eapply returns_mono; [exact Hseg|]. intros [] s2 (Hd2 & Hl2 & Hs2).
    rewrite u32_small by (unfold two32; lia). replace (65536 + phoff + 32 * j + 32) with (65536 + phoff + 32 * (j + 1)) by lia.
    apply IH; [done|lia|lia|by apply Hkeep|]. intros k Hk. destruct (decide (k = j)) as [->|Hne]; [done|].
    apply (p_loaded_ext (bmem s)); [|apply Hl; lia]. intros x Hx. apply Hs2. destruct (bo_apart Hb k j); lia.
Qed.

Lemma bootmain_jumps s : load32 img 0 = ELF_MAGIC → disk_ok sector s →
  returns bootmain s (λ r s', r = Some (load32 img 24) ∧ ∀ j, 0 ≤ j < phnum → p_loaded (bmem s') j).
Proof.
  intros Hmagic Hd. unfold bootmain. apply returns_bind. eapply returns_mono; [apply readseg_ok; [done..]|].
  intros [] s1 (Hd1 & lo & hi & _ & Hhi & El & Hm). change (0 mod 512) with 0 in *. subst lo.
  assert (Hh : header_at (bmem s1)).
  { intros x Hx. rewrite Hm. unfold filled. rewrite (proj2 (Z.leb_le _ _)), (proj2 (Z.ltb_lt _ _)) by lia. cbn [andb]. f_equal. lia. }
  unfold bld, bld16. apply returns_bind, returns_gets. change 65536 with (65536 + 0) at 1. rewrite header_load by (done || lia).
  rewrite Hmagic, Z.eqb_refl. cbn [negb]. apply returns_bind, returns_gets, returns_bind, returns_gets.
  rewrite header_load by (done || lia). rewrite <- Z.add_assoc, !Hh by lia. fold phoff. change (44 + 1) with 45. fold phnum.
  assert (Hpo : 0 ≤ phoff) by apply field_range. assert (Hpn : 0 ≤ phnum).
  { unfold phnum. pose proof (bo_bytes Hb 44). pose proof (bo_bytes Hb 45). lia. }
  pose proof (bo_page Hb). rewrite !(u32_small (65536 + _)) by (unfold two32; lia). rewrite u32_small by (unfold two32; lia).
  apply returns_bind. replace (65536 + phoff) with (65536 + phoff + 32 * 0) at 1 by lia.
  eapply returns_mono; [apply (load_kernel_ok _ 0); [done|lia|lia|done|lia]|]. intros [] s2 [Hh2 Hl2].
  apply returns_bind, returns_gets, returns_ret. rewrite header_load by (done || lia). done.
Qed.
End Image.

Lemma bootmain_gives_up sector img s : image sector img → load32 img 0 ≠ ELF_MAGIC → disk_ok sector s →
  returns bootmain s (λ r s', r = None ∧ ∀ x, x < 65536 ∨ 70144 ≤ x → bmem s' x = bmem s x).
Proof.
  intros Himg Hmagic Hd. unfold bootmain. apply returns_bind. eapply returns_mono; [apply (readseg_ok sector img Himg); [done..]|].
  intros [] s1 (Hd1 & lo & hi & _ & Hhi & El & Hm). change (0 mod 512) with 0 in *. subst lo.
  assert (Hh : header_at img (bmem s1)).
  { intros x Hx. rewrite Hm. unfold filled. rewrite (proj2 (Z.leb_le _ _)), (proj2 (Z.ltb_lt _ _)) by lia. cbn [andb]. f_equal. lia. }
  unfold bld. apply returns_bind, returns_gets. change 65536 with (65536 + 0) at 1. rewrite (header_load img) by (done || lia).
  rewrite (proj2 (Z.eqb_neq _ _) Hmagic). cbn [negb]. apply returns_ret. split; [done|]. intros x Hx. rewrite Hm. unfold filled.
  destruct (Z.leb_spec (65536 - 0) x), (Z.ltb_spec x hi); cbn [andb]; try done; lia.
Qed.

(** C34: The boot loader reads the first page of the file on the disk.  If it starts with
    the magic number of an ELF file, and the program headers describe segments that can
    be loaded, the loader ends in the entry point the header names with every segment
    in memory: the bytes of the file at the physical addresses that the program headers
    give, followed by zeros.  If it does not start with the magic number, the loader
    returns, and has written nothing but the page it read the header to. *)
Theorem bootmain_loads sector img s : image sector img → disk_ok sector s →
  (load32 img 0 = ELF_MAGIC → bootable img →
   returns bootmain s (λ r s', r = Some (load32 img 24) ∧ ∀ j, 0 ≤ j < phnum img → p_loaded img (bmem s') j)) ∧
  (load32 img 0 ≠ ELF_MAGIC →
   returns bootmain s (λ r s', r = None ∧ ∀ x, x < 65536 ∨ 70144 ≤ x → bmem s' x = bmem s x)).
Proof.
  intros Himg Hd. split; [intros Hm Hb; by apply (bootmain_jumps sector img Himg Hb)|intros Hm; by apply (bootmain_gives_up sector img)].
Qed.
End Boot.

(** ** A simulated drive *)

Record simpio := mkpio { px_byte : Z → Z; px_r3 : Z; px_r4 : Z; px_r5 : Z; px_r6 : Z; px_lba : option Z; px_slow : bool }.
#[export] Instance simpio_eta : Eta simpio := λ d,
  mkpio (px_byte d) (px_r3 d) (px_r4 d) (px_r5 d) (px_r6 d) (px_lba d) (px_slow d).

Definition px_sector (d : simpio) (n : Z) : list Z := (λ i, px_byte d (512 * n + i)) <$> seqZ 0 512.

Definition px_outb (port v : Z) (d : simpio) : simpio :=
  if port =? 499 then d <| px_r3 := v |> else if port =? 500 then d <| px_r4 := v |>
  else if port =? 501 then d <| px_r5 := v |> else if port =? 502 then d <| px_r6 := v |>
  else if port =? 503 then d <| px_lba := Some (lba28 (px_r3 d) (px_r4 d) (px_r5 d) (px_r6 d)) |> <| px_slow := true |>
  else d.

#[refine, export] Instance sim_pio : PioDisk simpio := {
  pio_outb := px_outb;
  pio_inb d := if px_slow d then (128, d <| px_slow := false |>) else (64, d);
  pio_insl d := (match px_lba d with Some n => px_sector d n | None => [] end, d <| px_lba := None |>);
  pio_sector := px_sector;
  pio_busy d := if px_slow d then 1%nat else 0%nat;
  pio_idle d := px_lba d = None;
  pio_has d n := px_lba d = Some n
}.
Proof.
  - intros d n. unfold px_sector. by rewrite length_fmap, length_seqZ.
  - intros d n. destruct d as [f r3 r4 r5 r6 l []]; intros [= <-]; cbn; done.
  - intros d. destruct d as [f r3 r4 r5 r6 l []]; done.
  - intros d r3 r4 r5 r6 Hi Hb Hd. done.
  - intros d n Hn Hb. cbn. by rewrite Hn.
Defined.

(** A kernel of five bytes, with four more bytes of zeros, to be loaded at 1 MB. *)
Definition demo_kernel (x : Z) : Z :=
  u8 (if x <? 4096 then nth (Z.to_nat x)
        ([127; 69; 76; 70] ++ replicate 20 0 ++ [12; 0; 16; 0] ++ [52; 0; 0; 0] ++ replicate 12 0 ++ [1; 0] ++ replicate 6 0 ++
         [1; 0; 0; 0] ++ [0; 16; 0; 0] ++ replicate 4 0 ++ [0; 0; 16; 0] ++ [5; 0; 0; 0] ++ [9; 0; 0; 0]) 0
      else nth (Z.to_nat (x - 4096)) [104; 101; 108; 108; 111] 0).

Lemma demo_bootable : bootable demo_kernel.
Proof.
  assert (Hj : ∀ j, 0 ≤ j < phnum demo_kernel → j = 0) by (intros j; change (phnum demo_kernel) with 1; lia).
  split.
  - intros x. apply Z.mod_pos_bound. lia.
  - by vm_compute.
  - intros j ->%Hj. by vm_compute.
  - intros j ->%Hj. right. by vm_compute.
  - intros j k Hk Hp. assert (k = 0) by (apply Hj; lia). lia.
Qed.

(** A drive with the image [img] from sector 1 on. *)
Definition demo_drive (img : Z → Z) : simpio := mkpio (λ x, img (x - 512)) 0 0 0 0 None false.

Lemma demo_image img : image (px_sector (demo_drive img)) img.
Proof.
  intros n i Hn Hi. unfold px_sector. rewrite nth_lookup, list_lookup_fmap, lookup_seqZ_lt by lia. cbn [fmap option_fmap option_map default px_byte demo_drive].
  unfold id. f_equal. lia.
Qed.

Lemma bootmain_loads_witness :
  returns (bootmain 2) (mkboot (λ _, 0) (demo_drive demo_kernel)) (λ r s',
    r = Some 1048588 ∧ bmem s' 1048580 = 111 ∧ bmem s' 1048581 = 0) ∧
  returns (bootmain 2) (mkboot (λ _, 7) (demo_drive (λ _, 0))) (λ r s', r = None ∧ bmem s' 1048580 = 7).
Proof.
  assert (Hpolls : ∀ d : simpio, (pio_busy d < 2)%nat) by (intros [f r3 r4 r5 r6 l []]; cbn; lia). split.
  - destruct (bootmain_loads 2 Hpolls _ _ (mkboot (λ _, 0) (demo_drive demo_kernel)) (demo_image demo_kernel) (conj eq_refl eq_refl)) as [H _].
    eapply returns_mono; [exact (H eq_refl demo_bootable)|]. clear H.
    intros r s' [-> H]. specialize (H 0 ltac:(change (phnum demo_kernel) with 1; lia)). split; [reflexivity|].
    split; [exact (H 4 ltac:(change (p_memsz demo_kernel 0) with 9; lia))|exact (H 5 ltac:(change (p_memsz demo_kernel 0) with 9; lia))].
  - destruct (bootmain_loads 2 Hpolls _ _ (mkboot (λ _, 7) (demo_drive (λ _, 0))) (demo_image (λ _, 0)) (conj eq_refl eq_refl)) as [_ H].
    eapply returns_mono; [apply H; by vm_compute|]. clear H. intros r s' [-> H]. split; [done|]. rewrite H by lia. done.
Defined.
