(* ===== verification/Mp.v ===== *)
(** The multiprocessor tables (mp.c, mp.h): finding the processors that the firmware
    describes in memory. *)

From S2P Require Import Prelude Layout CString Ulib.

Definition NCPU : Z := 8.
Definition MPPROC : Z := 0.
Definition MPBUS : Z := 1.
Definition MPIOAPIC : Z := 2.
Definition MPIOINTR : Z := 3.
Definition MPLINTR : Z := 4.

(** Sizes of [struct mp], [struct mpconf], [struct mpproc] and [struct mpioapic]. *)
Definition SIZE_MP : Z := 16.
Definition SIZE_MPCONF : Z := 44.
Definition SIZE_MPPROC : Z := 20.
Definition SIZE_MPIOAPIC : Z := 8.

(** [cpus] are the APIC numbers; [ports] the bytes written to I/O ports. *)
Record mpst := mkmp {
  cpus : list Z; ncpu : Z; ioapicid : Z; lapic : Z; ports : list (Z * Z)
}.
#[export] Instance mpst_eta : Eta mpst := λ s, mkmp (cpus s) (ncpu s) (ioapicid s) (lapic s) (ports s).

Section Mp.
(** The memory, at virtual addresses, and the value of port 0x23. *)
Variable m : mem.
Variable in23 : Z.

Definition load16 (a : Z) : Z := m a + 256 * m (a + 1).

Fixpoint sum_loop (n : nat) (a acc : Z) : Z :=
  match n with O => acc | S n => sum_loop n (a + 1) (acc + m a) end.
Definition sum (addr len : Z) : Z := u8 (sum_loop (Z.to_nat len) addr 0).

(** [memcmp(p, sig, 4) == 0] *)
Definition sig_at (p : Z) (sig : string) : bool := bool_decide ([m p; m (p + 1); m (p + 2); m (p + 3)] = chars sig).

Definition is_mp (p : Z) : bool := sig_at p "_MP_" && (sum p SIZE_MP =? 0).

Fixpoint mpsearch1_loop (n : nat) (p e : Z) : M mpst (option Z) :=
  if negb (p <? e) then mret None else
  match n with
  | O => λ _, NoFuel
  | S n => if is_mp p then mret (Some p) else mpsearch1_loop n (p + SIZE_MP) e
  end.

Definition mpsearch1 (a len : Z) : M mpst (option Z) :=
  let addr := P2V a in
  mpsearch1_loop (Z.to_nat (len / SIZE_MP + 1)) addr (addr + len).

Definition mpsearch : M mpst (option Z) :=
  let bda := P2V 1024 in
  let p := Z.shiftl (Z.lor (Z.shiftl (m (bda + 15)) 8) (m (bda + 14))) 4 in
  mp ← if negb (p =? 0) then mpsearch1 p 1024
       else mpsearch1 (u32 (Z.lor (Z.shiftl (m (bda + 20)) 8) (m (bda + 19)) * 1024 - 1024)) 1024;
  match mp with Some mp => mret (Some mp) | None => mpsearch1 983040 65536 end.

(** The floating pointer and the configuration table. *)
Definition mpconfig : M mpst (option (Z * Z)) :=
  mp ← mpsearch;
  match mp with
  | None => mret None
  | Some mp =>
      if load32 m (mp + 4) =? 0 then mret None else
      let conf := P2V (load32 m (mp + 4)) in
      if negb (sig_at conf "PCMP") then mret None else
      if negb (m (conf + 6) =? 1) && negb (m (conf + 6) =? 4) then mret None else
      if negb (sum conf (load16 (conf + 4)) =? 0) then mret None else
      mret (Some (mp, conf))
  end.

(** The loop of [mpinit] from [p] on; the result is [ismp].  The [break] of the default
    case leaves the [switch], and the loop goes on with the same [p]. *)
Fixpoint mpinit_loop (n : nat) (p e : Z) (ismp : bool) : M mpst bool :=
  if negb (p <? e) then mret ismp else
  match n with
  | O => λ _, NoFuel
  | S n =>
      if m p =? MPPROC then
        k ← gets ncpu;
        _ ← when (k <? NCPU) (modify (λ s, s <| cpus := <[Z.to_nat k := m (p + 1)]> (cpus s) |> <| ncpu := ncpu s + 1 |>));
        mpinit_loop n (p + SIZE_MPPROC) e ismp
      else if m p =? MPIOAPIC then
        _ ← modify (λ s, s <| ioapicid := m (p + 1) |>);
        mpinit_loop n (p + SIZE_MPIOAPIC) e ismp
      else if (m p =? MPBUS) || (m p =? MPIOINTR) || (m p =? MPLINTR) then mpinit_loop n (p + 8) e ismp
      else mpinit_loop n p e false
  end.

Definition outb (port v : Z) : M mpst unit := modify (λ s, s <| ports := ports s ++ [(port, u8 v)] |>).

(** [fuel] bounds the iterations of the loop over the table. *)
Definition mpinit (fuel : nat) : M mpst unit :=
  r ← mpconfig;
  match r with
  | None => panic "Expect to run on an SMP"
  | Some (mp, conf) =>
      _ ← modify (λ s, s <| lapic := load32 m (conf + 36) |>);
      ismp ← mpinit_loop fuel (conf + SIZE_MPCONF) (conf + load16 (conf + 4)) true;
      if negb ismp then panic "Didn't find a suitable machine" else
      when (negb (m (mp + 12) =? 0)) (_ ← outb 34 112; outb 35 (Z.lor in23 1))
  end.

(** ** The search *)

(** The addresses that are looked at in an area, and those of the whole search. *)
Definition spots (a len : Z) : list Z := (λ i, P2V a + 16 * i) <$> seqZ 0 (len / 16).
Definition ebda : Z := 16 * (m (P2V 1024 + 14) + 256 * m (P2V 1024 + 15)).
Definition basemem : Z := 1024 * (m (P2V 1024 + 19) + 256 * m (P2V 1024 + 20)).
Definition all_spots : list Z :=
  (if ebda =? 0 then spots (u32 (basemem - 1024)) 1024 else spots ebda 1024) ++ spots 983040 65536.

Definition first_mp (l : list Z) : option Z := head (filter (λ p, is_mp p = true) l).

Lemma first_mp_app l l' : first_mp (l ++ l') = match first_mp l with Some p => Some p | None => first_mp l' end.
Proof. unfold first_mp. rewrite filter_app. by destruct (filter _ l). Qed.

Lemma mpsearch1_loop_first k n p s : (k ≤ n)%nat →
  mpsearch1_loop n p (p + 16 * Z.of_nat k) s = Ok (first_mp ((λ i, p + 16 * i) <$> seqZ 0 (Z.of_nat k))) s.
Proof.
  revert n p. induction k as [|k IH]; intros n p Hn.
  - destruct n; cbn [mpsearch1_loop]; by rewrite (proj2 (Z.ltb_ge _ _)) by lia.
  - destruct n as [|n]; [lia|]. cbn [mpsearch1_loop]. rewrite (proj2 (Z.ltb_lt _ _)) by lia. cbn [negb].
    rewrite Nat2Z.inj_succ, seqZ_cons by lia. cbn [fmap list_fmap]. unfold first_mp. rewrite Z.mul_0_r, Z.add_0_r.
    rewrite filter_cons. destruct (is_mp p) eqn:E; [by rewrite decide_True by done|]. rewrite decide_False by done.
    unfold SIZE_MP. replace (p + 16 * Z.succ (Z.of_nat k)) with (p + 16 + 16 * Z.of_nat k) by lia. rewrite IH by lia.
    unfold first_mp. rewrite Z.pred_succ. do 2 f_equal. change (Z.succ 0) with (1 + 0). rewrite <- (fmap_add_seqZ 1 0), <- list_fmap_compose.
    f_equal. apply list_fmap_ext. intros i x _. cbn. lia.
Qed.

Lemma mpsearch1_first a len s : 0 ≤ len → len mod 16 = 0 → mpsearch1 a len s = Ok (first_mp (spots a len)) s.
Proof.
  intros Hl Hm. unfold mpsearch1, spots, SIZE_MP. pose proof (Z.div_pos len 16). pose proof (Z.div_mod len 16).
  replace (P2V a + len) with (P2V a + 16 * Z.of_nat (Z.to_nat (len / 16))) by lia.
  rewrite mpsearch1_loop_first by lia. by rewrite Z2Nat.id by lia.
Qed.

(** Memory holds bytes. *)
Context (Hm : ∀ x, 0 ≤ m x < 256).

Lemma lor_bytes hi lo : 0 ≤ lo < 256 → Z.lor (Z.shiftl hi 8) lo = lo + 256 * hi.
Proof.
  intros Hlo. rewrite <- Z.lxor_lor, <- Z.add_nocarry_lxor; [rewrite Z.shiftl_mul_pow2 by lia; lia|..];
    apply Z.bits_inj'; intros k Hk; rewrite Z.land_spec, Z.bits_0; (destruct (decide (k < 8));
    [by rewrite Z.shiftl_spec_low by lia|rewrite (Z.bits_above_log2 lo), andb_false_r; [done|lia|]];
    destruct (decide (lo = 0)) as [->|]; [cbn; lia|apply (Z.lt_le_trans _ 8); [apply Z.log2_lt_pow2; lia|lia]]).
Qed.

(** [mpsearch] finds the first floating pointer structure of the areas it looks at. *)
Lemma mpsearch_first s : mpsearch s = Ok (first_mp all_spots) s.
Proof.
  unfold mpsearch, all_spots. rewrite !lor_bytes by apply Hm.
  assert (E : Z.shiftl (m (P2V 1024 + 14) + 256 * m (P2V 1024 + 15)) 4 = ebda) by (rewrite Z.shiftl_mul_pow2 by lia; unfold ebda; lia).
  rewrite E. rewrite Z.mul_comm. fold basemem. rewrite first_mp_app. unfold mbind, M_bind.
  destruct (ebda =? 0); cbn [negb]; rewrite mpsearch1_first by done; (destruct (first_mp _); [done|by rewrite mpsearch1_first by done]).
Qed.

(** ** The table *)

Inductive mpentry :=
| Eproc (apicid : Z)
| Eioapic (apicno : Z)
| Eother (type : Z).

Definition mpsize (en : mpentry) : Z := match en with Eproc _ => SIZE_MPPROC | Eioapic _ => SIZE_MPIOAPIC | Eother _ => 8 end.

(** The entry [en] is at [p]. *)
Definition entry_at (p : Z) (en : mpentry) : Prop :=
  match en with
  | Eproc id => m p = MPPROC ∧ m (p + 1) = id
  | Eioapic no => m p = MPIOAPIC ∧ m (p + 1) = no
  | Eother t => m p = t ∧ (t = MPBUS ∨ t = MPIOINTR ∨ t = MPLINTR)
  end.

(** The entries [es] fill the memory from [p] to [e]. *)
Fixpoint table (p : Z) (es : list mpentry) (e : Z) : Prop :=
  match es with [] => p = e | en :: es => entry_at p en ∧ table (p + mpsize en) es e end.

(** What an entry adds to the processors found. *)
Definition add_entry (s : mpst) (en : mpentry) : mpst :=
  match en with
  | Eproc id => if ncpu s <? NCPU then s <| cpus := <[Z.to_nat (ncpu s) := id]> (cpus s) |> <| ncpu := ncpu s + 1 |> else s
  | Eioapic no => s <| ioapicid := no |>
  | Eother _ => s
  end.

Lemma mpsize_pos en : 0 < mpsize en.
Proof. destruct en; done. Qed.

Lemma table_le p es e : table p es e → p ≤ e.
Proof.
  revert p. induction es as [|en es IH]; intros p; cbn [table]; [lia|]. intros [_ Ht]. apply IH in Ht. pose proof (mpsize_pos en). lia.
Qed.

Lemma mpinit_step n p e ismp en s : p < e → entry_at p en →
  mpinit_loop (S n) p e ismp s = mpinit_loop n (p + mpsize en) e ismp (add_entry s en).
Proof.
  intros Hp He. cbn [mpinit_loop]. rewrite (proj2 (Z.ltb_lt _ _)) by done. cbn [negb].
  destruct en as [id|no|t]; cbn [entry_at mpsize add_entry] in *.
  - destruct He as [-> <-]. change (MPPROC =? MPPROC) with true. cbv iota. unfold gets, when, modify, mbind, M_bind. by destruct (ncpu s <? NCPU).
  - destruct He as [-> <-]. done.
  - destruct He as [-> [-> |[-> | ->]]]; done.
Qed.

Lemma mpinit_loop_table es n p e ismp s : table p es e → (length es ≤ n)%nat →
  mpinit_loop n p e ismp s = Ok ismp (foldl add_entry s es).
Proof.
  revert n p s. induction es as [|en es IH]; intros n p s Ht Hn; cbn [table foldl length] in *.
  - subst p. destruct n; cbn [mpinit_loop]; by rewrite Z.ltb_irrefl.
  - destruct Ht as [He Ht]. destruct n as [|n]; [lia|]. pose proof (table_le _ _ _ Ht). pose proof (mpsize_pos en).
    rewrite (mpinit_step _ _ _ _ en) by (done || lia). apply IH; [done|lia].
Qed.

(** The configuration table at [conf] that the floating pointer at [mp] names. *)
Record configured (mp conf : Z) : Prop := {
  cf_mp : first_mp all_spots = Some mp;
  cf_conf : load32 m (mp + 4) ≠ 0 ∧ conf = P2V (load32 m (mp + 4));
  cf_sig : sig_at conf "PCMP" = true;
  cf_version : m (conf + 6) = 1 ∨ m (conf + 6) = 4;
  cf_sum : sum conf (load16 (conf + 4)) = 0
}.

Lemma mpconfig_ok mp conf s : configured mp conf → mpconfig s = Ok (Some (mp, conf)) s.
Proof.
  intros [Hmp [Hz ->] Hs Hv Hc]. unfold mpconfig, mbind at 1, M_bind. rewrite mpsearch_first, Hmp.
  rewrite (proj2 (Z.eqb_neq _ _) Hz). rewrite Hs. cbn [negb]. destruct Hv as [-> | ->]; by rewrite Hc.
Qed.

Definition apicids (es : list mpentry) : list Z := omap (λ en, match en with Eproc id => Some id | _ => None end) es.
Definition ioapics (es : list mpentry) : list Z := omap (λ en, match en with Eioapic no => Some no | _ => None end) es.

Definition found (s : mpst) : list Z := take (Z.to_nat (ncpu s)) (cpus s).
Definition room (s : mpst) : Prop := 0 ≤ ncpu s ≤ NCPU ∧ length (cpus s) = Z.to_nat NCPU.

Lemma add_entry_ok s en : room s → room (add_entry s en) ∧
  found (add_entry s en) = take (Z.to_nat NCPU) (found s ++ apicids [en]) ∧ lapic (add_entry s en) = lapic s ∧ ports (add_entry s en) = ports s ∧
  ioapicid (add_entry s en) = default (ioapicid s) (last (ioapics [en])).
Proof.
  intros [Hn Hl]. assert (Ht : length (found s) = Z.to_nat (ncpu s)) by (unfold found; rewrite length_take; lia).
  destruct en as [id|no|t]; cbn [add_entry apicids ioapics omap list_omap last default].
  2,3: split; [done|]; rewrite app_nil_r; split; [|done]; rewrite take_ge by lia; done.
  destruct (Z.ltb_spec (ncpu s) NCPU) as [Hlt|Hge].
  - unfold room, found. cbn [set cpus ncpu lapic ports ioapicid]. rewrite length_insert. split; [unfold NCPU in *; lia|]. split; [|done].
    rewrite Z2Nat.inj_add by lia. change (Z.to_nat 1) with 1%nat. rewrite Nat.add_1_r.
    rewrite (take_S_r _ _ id) by (apply list_lookup_insert_eq; lia). rewrite take_insert_ge by lia. symmetry. apply take_ge.
    rewrite length_app, length_take. cbn [length]. lia.
  - split; [done|]. split; [|done]. rewrite take_app_le by (rewrite Ht; lia). symmetry. apply take_ge. rewrite Ht. lia.
Qed.

Lemma take_take_app {A} n (l k : list A) : take n (take n l ++ k) = take n (l ++ k).
Proof.
  destruct (decide (length l ≤ n)%nat); [by rewrite (take_ge l)|]. rewrite !take_app_le; [by rewrite take_take, Nat.min_id|lia|].
  rewrite length_take. lia.
Qed.

Lemma add_entries_ok es s : room s → room (foldl add_entry s es) ∧
  found (foldl add_entry s es) = take (Z.to_nat NCPU) (found s ++ apicids es) ∧ lapic (foldl add_entry s es) = lapic s ∧
  ports (foldl add_entry s es) = ports s ∧ ioapicid (foldl add_entry s es) = default (ioapicid s) (last (ioapics es)).
Proof.
  revert s. induction es as [|en es IH]; intros s Hr; cbn [foldl].
  - split; [done|]. split; [|done]. unfold apicids. cbn [omap list_omap]. rewrite app_nil_r. symmetry. apply take_ge.
    unfold found. rewrite length_take. destruct Hr. lia.
  - destruct (add_entry_ok s en Hr) as (Hr1 & F1 & L1 & P1 & I1). destruct (IH _ Hr1) as (Hr2 & F2 & L2 & P2 & I2).
    split; [done|]. rewrite F2, L2, P2, I2, F1, L1, P1, I1. split_and!; [|done|done|].
    + rewrite take_take_app. by destruct en; rewrite <- ?app_assoc, ?app_nil_r.
    + destruct en as [id|no|t]; try done. unfold ioapics. cbn [omap list_omap].
      change (no :: omap _ es) with ([no] ++ ioapics es). unfold ioapics. rewrite last_app. by destruct (last (omap _ es)).
Qed.

(** What [mpinit] finds in a valid table. *)
Lemma mpinit_found mp conf es s fuel : configured mp conf → table (conf + SIZE_MPCONF) es (conf + load16 (conf + 4)) →
  (length es ≤ fuel)%nat → ncpu s = 0 → length (cpus s) = Z.to_nat NCPU →
  returns (mpinit fuel) s (λ _ s', room s' ∧
    found s' = take (Z.to_nat NCPU) (apicids es) ∧ lapic s' = load32 m (conf + 36) ∧
    ioapicid s' = default (ioapicid s) (last (ioapics es)) ∧
    ports s' = ports s ++ if m (mp + 12) =? 0 then [] else [(34, 112); (35, u8 (Z.lor in23 1))]).
Proof.
  intros Hc Ht Hf Hn Hl. unfold mpinit. apply returns_bind. unfold returns at 1. rewrite (mpconfig_ok mp conf) by done.
  apply returns_bind, returns_modify, returns_bind. unfold returns at 1. rewrite (mpinit_loop_table es) by done. cbn [negb].
  destruct (add_entries_ok es (s <| lapic := load32 m (conf + 36) |>)) as (R & F & L & P & I); [split; [cbn; rewrite Hn; unfold NCPU; lia|done]|].
  set (s' := foldl _ _ es) in *. assert (F' : found s' = take (Z.to_nat NCPU) (apicids es)) by (rewrite F; unfold found; cbn; by rewrite Hn).
  destruct (m (mp + 12) =? 0); cbn [negb when].
  - apply returns_ret. rewrite app_nil_r. split; [exact R|]. done.
  - unfold outb. apply returns_bind, returns_modify, returns_modify. unfold found. cbn [set cpus ncpu lapic ioapicid ports]. rewrite <- app_assoc.
    split; [exact R|]. split; [exact F'|]. split; [exact L|]. split; [exact I|]. by rewrite P.
Qed.

(** Without a table [mpconfig] returns null. *)
Lemma mpconfig_none s : (∀ mp conf, ¬ configured mp conf) → mpconfig s = Ok None s.
Proof.
  intros Hn. unfold mpconfig, mbind at 1, M_bind. rewrite mpsearch_first. destruct (first_mp all_spots) as [mp|] eqn:Emp; [|done].
  destruct (Z.eqb_spec (load32 m (mp + 4)) 0) as [|Hz]; [done|]. cbv zeta. set (conf := P2V (load32 m (mp + 4))).
  destruct (sig_at conf "PCMP") eqn:Es; [|done]. cbn [negb].
  destruct (Z.eqb_spec (sum conf (load16 (conf + 4))) 0) as [Hc|]; [|by destruct (_ && _)]. cbn [negb].
  destruct (Z.eqb_spec (m (conf + 6)) 1) as [H1|]; [by destruct (Hn mp conf); constructor; auto|].
  destruct (Z.eqb_spec (m (conf + 6)) 4) as [H4|]; [by destruct (Hn mp conf); constructor; auto|done].
Qed.

(** C36: the floating pointer is the first structure with the right signature and checksum
    in the areas that [mpsearch] looks at, and a configuration table is valid when its
    signature, version and checksum are right.  If the table that the floating pointer
    names is valid and consists of entries of the known types, [mpinit] lists its
    processors, in the order of the table and no more than fit, with the address of the
    local APIC and the number of the I/O APIC, and takes interrupts from the PIC mode when
    the table says so.  If there is no floating pointer or no valid table, it panics. *)
Theorem mpinit_lists_cpus s fuel : ncpu s = 0 → length (cpus s) = Z.to_nat NCPU →
  (∀ mp conf es, configured mp conf → table (conf + SIZE_MPCONF) es (conf + load16 (conf + 4)) → (length es ≤ fuel)%nat →
   returns (mpinit fuel) s (λ _ s',
     found s' = take (Z.to_nat NCPU) (apicids es) ∧ lapic s' = load32 m (conf + 36) ∧
     ioapicid s' = default (ioapicid s) (last (ioapics es)) ∧
     ports s' = ports s ++ if m (mp + 12) =? 0 then [] else [(34, 112); (35, u8 (Z.lor in23 1))])) ∧
  ((∀ mp conf, ¬ configured mp conf) → mpinit fuel s = Panic "Expect to run on an SMP").
Proof.
  intros Hn Hl. split.
  - intros mp conf es Hc Ht Hf. eapply returns_mono; [by apply (mpinit_found mp conf es)|]. by intros _ s' [_ H].
  - intros Hno. unfold mpinit, mbind, M_bind. by rewrite mpconfig_none.
Qed.

Lemma unknown_loops n p e ismp s : p < e → m p ∉ [MPPROC; MPBUS; MPIOAPIC; MPIOINTR; MPLINTR] → mpinit_loop n p e ismp s = NoFuel.
Proof.
  intros Hp Hu. rewrite !not_elem_of_cons in Hu. revert ismp. induction n as [|n IH]; intros ismp; cbn [mpinit_loop];
    rewrite (proj2 (Z.ltb_lt _ _)) by done; cbn [negb]; [done|]. rewrite !(proj2 (Z.eqb_neq (m p) _)) by tauto. apply IH.
Qed.

(** C40: An entry of an unknown type stops the machine: [mpinit] neither ends nor reports that
    the machine is not suitable, but looks at the same entry for ever. *)
Theorem mpinit_unknown_hangs mp conf es p s fuel : configured mp conf → table (conf + SIZE_MPCONF) es p → p < conf + load16 (conf + 4) →
  m p ∉ [MPPROC; MPBUS; MPIOAPIC; MPIOINTR; MPLINTR] → mpinit fuel s = NoFuel.
Proof.
  intros Hc Ht Hp Hu. unfold mpinit, mbind at 1, M_bind at 1. rewrite (mpconfig_ok mp conf) by done.
  unfold mbind at 1, M_bind at 1, modify at 1, mbind, M_bind. generalize (s <| lapic := load32 m (conf + 36) |>). clear s. intros s.
  assert (E : mpinit_loop fuel (conf + SIZE_MPCONF) (conf + load16 (conf + 4)) true s = NoFuel); [|by rewrite E].
  revert fuel s Ht. generalize (conf + SIZE_MPCONF). induction es as [|en es IH]; intros q fuel s Ht; cbn [table] in Ht.
  - subst q. by apply unknown_loops.
  - destruct Ht as [He Ht]. pose proof (table_le _ _ _ Ht). pose proof (mpsize_pos en). destruct fuel as [|fuel].
    + cbn [mpinit_loop]. by rewrite (proj2 (Z.ltb_lt _ _)) by lia.
    + rewrite (mpinit_step _ _ _ _ en) by (done || lia). by apply IH.
Qed.
End Mp.

(** ** Concrete tables *)

(** Two processors, an entry of type [t] and an I/O APIC; [c] is the checksum. *)
Definition demo_bios (t c : Z) : list Z :=
  chars "_MP_" ++ [16; 0; 15; 0; 1; 4; 1; 0; 128; 0; 0; 0] ++
  chars "PCMP" ++ [100; 0; 4; c] ++ replicate 26 0 ++ [4; 0] ++ [0; 0; 224; 254; 0; 0; 0; 0] ++
  [0; 0; 20; 3] ++ replicate 16 0 ++ [0; 1; 20; 1] ++ replicate 16 0 ++ [t; 0; 0; 0; 0; 0; 0; 0] ++ [2; 2; 17; 1; 0; 0; 192; 254].

Definition demo_firmware (t c : Z) : mem := λ x, u8 (if (x <? 2148466688) || (2148466888 <=? x) then 0 else nth (Z.to_nat (x - 2148466688)) (demo_bios t c) 0).

Lemma demo_firmware_bytes t c x : 0 ≤ demo_firmware t c x < 256.
Proof. apply Z.mod_pos_bound. lia. Qed.

Lemma demo_configured t c : (t, c) ∈ [(1, 132); (9, 124)] → configured (demo_firmware t c) 2148466688 2148466704.
Proof.
  rewrite !elem_of_cons, elem_of_nil. intros [[= -> ->]|[[= -> ->]|[]]].
  all: split; [by vm_compute|split; [discriminate|by vm_compute]|by vm_compute|right; by vm_compute|by vm_compute].
Qed.

Definition demo_mpst : mpst := mkmp (replicate 8 0) 0 0 0 [].

(** Memory without a floating pointer. *)
Lemma demo_no_table mp conf : ¬ configured (λ _, 0) mp conf.
Proof. intros [Hmp _ _ _ _]. vm_compute in Hmp. done. Qed.

Lemma mpinit_lists_cpus_witness :
  returns (mpinit (demo_firmware 1 132) 0 4) demo_mpst (λ _ s', found s' = [0; 1] ∧ lapic s' = 4276092928 ∧ ioapicid s' = 2) ∧
  mpinit (λ _, 0) 0 4 demo_mpst = Panic "Expect to run on an SMP".
Proof.
  split.
  - destruct (mpinit_lists_cpus (demo_firmware 1 132) 0 (demo_firmware_bytes 1 132) demo_mpst 4 eq_refl eq_refl) as [H _].
    eapply returns_mono; [apply (H 2148466688 2148466704 [Eproc 0; Eproc 1; Eother 1; Eioapic 2])|].
    + apply demo_configured. left.
    + split; [split; reflexivity|]. split; [split; reflexivity|]. split; [split; [reflexivity|by left]|]. split; [split; reflexivity|reflexivity].
    + cbn. lia.
    + intros [] s' (F & L & I & _). rewrite F, L, I. split_and!; reflexivity.
  - destruct (mpinit_lists_cpus (λ _, 0) 0 ltac:(done) demo_mpst 4 eq_refl eq_refl) as [_ H]. apply H, demo_no_table.
Defined.

Lemma mpinit_unknown_hangs_witness : mpinit (demo_firmware 9 124) 0 1000 demo_mpst = NoFuel.
Proof.
  apply (mpinit_unknown_hangs (demo_firmware 9 124) 0 (demo_firmware_bytes 9 124) 2148466688 2148466704 [Eproc 0; Eproc 1] 2148466788).
  - apply demo_configured. right. left.
  - split; [split; reflexivity|]. split; [split; reflexivity|reflexivity].
  - reflexivity.
  - by apply (bool_decide_eq_true_1 _).
Defined.
