(* ===== verification/Apic.v ===== *)
(** The interrupt controllers (lapic.c, ioapic.c, picirq.c), the drivers' set-up that
    routes interrupts through them (console.c [consoleinit], uart.c [uartinit], ide.c
    [ideinit]) and the clock chip (lapic.c [cmostime]). *)

From S2P Require Import Prelude CString Ulib Kernel Console Trap.

(** Indices of the local APIC's registers, and bits of their values. *)
Definition ID : Z := 32 / 4.
Definition VER : Z := 48 / 4.
Definition TPR : Z := 128 / 4.
Definition EOI : Z := 176 / 4.
Definition SVR : Z := 240 / 4.
Definition ENABLE : Z := 256.
Definition ESR : Z := 640 / 4.
Definition ICRLO : Z := 768 / 4.
Definition INIT : Z := 1280.
Definition STARTUP : Z := 1536.
Definition DELIVS : Z := 4096.
Definition ASSERT : Z := 16384.
Definition LEVEL : Z := 32768.
Definition BCAST : Z := 524288.
Definition ICRHI : Z := 784 / 4.
Definition TIMER : Z := 800 / 4.
Definition X1 : Z := 11.
Definition PERIODIC : Z := 131072.
Definition PCINT : Z := 832 / 4.
Definition LINT0 : Z := 848 / 4.
Definition LINT1 : Z := 864 / 4.
Definition ERROR : Z := 880 / 4.
Definition MASKED : Z := 65536.
Definition TICR : Z := 896 / 4.
Definition TDCR : Z := 992 / 4.
Definition IRQ_ERROR : Z := 19.

(** Registers of the I/O APIC. *)
Definition REG_ID : Z := 0.
Definition REG_VER : Z := 1.
Definition REG_TABLE : Z := 16.
Definition INT_DISABLED : Z := 65536.

(** The controllers: whether there is a local APIC, its registers, the interprocessor
    interrupts it has sent as pairs of [ICRHI] and [ICRLO], for how many more reads the
    last one is still being delivered; the registers of the I/O APIC; the bytes
    written to I/O ports; and the warm reset vector at 40:67. *)
Record apics := mkapics {
  has_lapic : bool; lreg : Z → Z; ipis : list (Z * Z); sending : nat; ioreg : Z → Z; outs : list (Z * Z);
  warm : Z * Z
}.
#[export] Instance apics_eta : Eta apics := λ s,
  mkapics (has_lapic s) (lreg s) (ipis s) (sending s) (ioreg s) (outs s) (warm s).

Definition port_out (port v : Z) : M apics unit := modify (λ s, s <| outs := outs s ++ [(port, u8 v)] |>).

(** ** The local APIC *)

Section Lapic.
(** How long the delivery of an interrupt takes. *)
Variable latency : nat.

Definition lapicw (index value : Z) : M apics unit :=
  _ ← modify (λ s, s <| lreg := upd (lreg s) index value |>);
  when (index =? ICRLO) (modify (λ s, s <| ipis := ipis s ++ [(lreg s ICRHI, value)] |> <| sending := latency |>)).

(** [while(lapic[ICRLO] & DELIVS)] *)
Fixpoint wait_delivered (n : nat) : M apics unit :=
  match n with
  | O => λ _, NoFuel
  | S n =>
      k ← gets sending;
      match k with
      | O => skip
      | S k => _ ← modify (λ s, s <| sending := k |>); wait_delivered n
      end
  end.

Definition lapicinit : M apics unit :=
  b ← gets has_lapic;
  if negb b then skip else
  _ ← lapicw SVR (Z.lor ENABLE (T_IRQ0 + IRQ_SPURIOUS));
  _ ← lapicw TDCR X1;
  _ ← lapicw TIMER (Z.lor PERIODIC (T_IRQ0 + IRQ_TIMER));
  _ ← lapicw TICR 10000000;
  _ ← lapicw LINT0 MASKED;
  _ ← lapicw LINT1 MASKED;
  v ← gets (λ s, lreg s VER);
  _ ← when (4 <=? Z.land (Z.shiftr v 16) 255) (lapicw PCINT MASKED);
  _ ← lapicw ERROR (T_IRQ0 + IRQ_ERROR);
  _ ← lapicw ESR 0;
  _ ← lapicw ESR 0;
  _ ← lapicw EOI 0;
  _ ← lapicw ICRHI 0;
  _ ← lapicw ICRLO (Z.lor (Z.lor BCAST INIT) LEVEL);
  _ ← wait_delivered (S latency);
  lapicw TPR 0.

Definition lapicid : M apics Z :=
  b ← gets has_lapic;
  if negb b then mret 0 else gets (λ s, Z.shiftr (lreg s ID) 24).

Definition lapic_eoi : M apics unit := b ← gets has_lapic; when b (lapicw EOI 0).

Definition lapicstartap (apicid addr : Z) : M apics unit :=
  _ ← port_out 112 15;
  _ ← port_out 113 10;
  _ ← modify (λ s, s <| warm := (0, Z.shiftr addr 4 mod 65536) |>);
  _ ← lapicw ICRHI (Z.shiftl apicid 24);
  _ ← lapicw ICRLO (Z.lor (Z.lor INIT LEVEL) ASSERT);
  _ ← lapicw ICRLO (Z.lor INIT LEVEL);
  for_ 2 0 (λ _, _ ← lapicw ICRHI (Z.shiftl apicid 24); lapicw ICRLO (Z.lor STARTUP (Z.shiftr addr 12))).
End Lapic.

(** ** The I/O APIC and the PIC *)

Definition ioapicread (reg : Z) : M apics Z := gets (λ s, ioreg s reg).
Definition ioapicwrite (reg data : Z) : M apics unit := modify (λ s, s <| ioreg := upd (ioreg s) reg data |>).

(** [mismatch] is what is printed when the number is not the one of the table. *)
Definition ioapicinit (ioapicid : Z) (mismatch : M apics unit) : M apics unit :=
  v ← ioapicread REG_VER;
  let maxintr := Z.land (Z.shiftr v 16) 255 in
  id ← ioapicread REG_ID;
  _ ← when (negb (Z.shiftr id 24 =? ioapicid)) mismatch;
  for_ (Z.to_nat (maxintr + 1)) 0 (λ i,
    _ ← ioapicwrite (REG_TABLE + 2 * i) (Z.lor INT_DISABLED (T_IRQ0 + i));
    ioapicwrite (REG_TABLE + 2 * i + 1) 0).

Definition ioapicenable (irq cpunum : Z) : M apics unit :=
  _ ← ioapicwrite (REG_TABLE + 2 * irq) (T_IRQ0 + irq);
  ioapicwrite (REG_TABLE + 2 * irq + 1) (u32 (Z.shiftl cpunum 24)).

Definition picinit : M apics unit := _ ← port_out 33 255; port_out 161 255.

(** ** The drivers *)

(** The controllers with the console and the device numbers that have functions. *)
Record devs := mkdevs { d_apics : apics; d_con : console; d_devsw : list Z }.
#[export] Instance devs_eta : Eta devs := λ s, mkdevs (d_apics s) (d_con s) (d_devsw s).

Definition on_apics {A} : M apics A → M devs A := zoom d_apics (λ a s, s <| d_apics := a |>).
Definition on_cons {A} : M console A → M devs A := zoom d_con (λ c s, s <| d_con := c |>).

Definition CONSOLE : Z := 1.
Definition COM1 : Z := 1016.

Definition consoleinit : M devs unit :=
  _ ← on_cons (modify (λ c, c <| cons_lock := false |>));
  _ ← modify (λ s, s <| d_devsw := CONSOLE :: d_devsw s |>);
  _ ← on_cons (modify (λ c, c <| locking := true |>));
  on_apics (ioapicenable IRQ_KBD 0).

Fixpoint announce (s : list Z) : M devs unit :=
  match s with [] => skip | c :: s => _ ← on_cons (uartputc c); announce s end.

(** [status] is the line status that the port gives. *)
Definition uartinit (status : Z) : M devs unit :=
  _ ← on_apics (port_out (COM1 + 2) 0);
  _ ← on_apics (port_out (COM1 + 3) 128);
  _ ← on_apics (port_out (COM1 + 0) (115200 / 9600));
  _ ← on_apics (port_out (COM1 + 1) 0);
  _ ← on_apics (port_out (COM1 + 3) 3);
  _ ← on_apics (port_out (COM1 + 4) 0);
  _ ← on_apics (port_out (COM1 + 1) 1);
  if status =? 255 then skip else
  _ ← on_cons (modify (λ c, c <| uart := true |>));
  _ ← on_apics (ioapicenable IRQ_COM1 0);
  announce (chars "xv6..." ++ [10]).

(** The calls of [main] that set up interrupts, from [picinit] to [ideinit]; the drive
    is probed in Ide.v. *)
Definition interrupts_init (ioapicid ncpu status : Z) (mismatch : M apics unit) : M devs unit :=
  _ ← on_apics picinit;
  _ ← on_apics (ioapicinit ioapicid mismatch);
  _ ← consoleinit;
  _ ← uartinit status;
  on_apics (ioapicenable IRQ_IDE (ncpu - 1)).

(** Where the I/O APIC sends the interrupt [irq]: the processor and the vector. *)
Definition route (s : apics) (irq : Z) : option (Z * Z) :=
  let low := ioreg s (REG_TABLE + 2 * irq) in
  if Z.testbit low 16 then None
  else Some (Z.shiftr (ioreg s (REG_TABLE + 2 * irq + 1)) 24, Z.land low 255).

(** ** Routing *)

Lemma route_enable irq cpu s : 0 ≤ irq < 224 → 0 ≤ cpu < 256 →
  returns (ioapicenable irq cpu) s (λ _ s', route s' irq = Some (cpu, T_IRQ0 + irq) ∧ ∀ j, j ≠ irq → route s' j = route s j).
Proof.
  intros Hi Hc. unfold ioapicenable, ioapicwrite. apply returns_bind, returns_modify, returns_modify. unfold route. cbn [set ioreg].
  assert (Hv : ∀ v, 0 ≤ v < 256 → Z.testbit v 16 = false ∧ Z.land v 255 = v).
  { intros v Hv. split; [|change 255 with (Z.ones 8); rewrite Z.land_ones by lia; apply Z.mod_small; lia].
    apply Z.bits_above_log2; [lia|]. destruct (decide (v = 0)) as [->|]; [cbn; lia|].
    apply (Z.lt_le_trans _ 8); [apply Z.log2_lt_pow2; lia|lia]. }
  split.
  - rewrite upd_ne, upd_eq by lia. rewrite upd_eq. destruct (Hv (T_IRQ0 + irq)) as [-> ->]; [unfold T_IRQ0; lia|].
    do 2 f_equal. rewrite Z.shiftl_mul_pow2 by lia. rewrite u32_small by (unfold two32; change (2 ^ 24) with 16777216; lia).
    rewrite Z.shiftr_div_pow2 by lia. apply Z.div_mul. lia.
  - intros j Hj. rewrite !upd_ne by lia. done.
Qed.

Lemma ioapicinit_disables ioapicid mismatch s : (∀ a, returns mismatch a (λ _ a', ioreg a' = ioreg a)) →
  returns (ioapicinit ioapicid mismatch) s (λ _ s',
    ∀ irq, 0 ≤ irq ≤ Z.land (Z.shiftr (ioreg s REG_VER) 16) 255 → route s' irq = None).
Proof.
  intros Hmis. unfold ioapicinit. apply returns_bind, returns_gets, returns_bind, returns_gets, returns_bind.
  set (mx := Z.land _ 255). assert (Hmx : 0 ≤ mx) by (apply Z.land_nonneg; lia).
  assert (Hw : returns (when (negb (Z.shiftr (ioreg s REG_ID) 24 =? ioapicid)) mismatch) s (λ _ s', ioreg s' = ioreg s)).
  { unfold when. case_match; [apply Hmis|by apply returns_ret]. }
  eapply returns_mono; [exact Hw|]. intros [] s1 _. eapply returns_mono;
    [apply (returns_for _ _ (λ k s', ∀ irq, 0 ≤ irq < k → route s' irq = None))|].
  - lia.
  - intros i s2 Hi IH. unfold ioapicwrite. apply returns_bind, returns_modify, returns_modify. intros irq Hirq. unfold route.
    cbn [set ioreg]. destruct (decide (irq = i)) as [->|Hne].
    + rewrite upd_ne, upd_eq by lia. by rewrite Z.lor_spec.
    + rewrite !upd_ne by lia. apply IH. lia.
  - intros [] s' H irq Hirq. apply H. rewrite Z2Nat.id by lia. lia.
Qed.

Lemma announce_keeps l s : returns (announce l) s (λ _ s', d_apics s' = d_apics s).
Proof.
  revert s. induction l as [|c l IH]; intros s; cbn [announce]; [by apply returns_ret|]. apply returns_bind. unfold on_cons, uartputc.
  apply returns_zoom, returns_bind, returns_gets. unfold when.
  destruct (uart (d_con s)); [apply returns_modify|apply returns_ret]; (eapply returns_mono; [apply IH|]; intros [] s' E; exact E).
Qed.

Lemma ports_out (k : unit → M devs unit) port v s Q :
  (∀ s', ioreg (d_apics s') = ioreg (d_apics s) → returns (k tt) s' Q) → returns (on_apics (port_out port v) ≫= k) s Q.
Proof. intros H. apply returns_bind. unfold on_apics. by apply returns_zoom, returns_modify, H. Qed.

(** The routes that the kernel asks for; [status] is the serial line's. *)
Definition wanted (ncpu status irq : Z) : option (Z * Z) :=
  if irq =? IRQ_KBD then Some (0, T_IRQ0 + IRQ_KBD)
  else if (irq =? IRQ_COM1) && negb (status =? 255) then Some (0, T_IRQ0 + IRQ_COM1)
  else if irq =? IRQ_IDE then Some (ncpu - 1, T_IRQ0 + IRQ_IDE)
  else None.

Lemma wanted_handled ncpu status irq cpu v : 1 ≤ ncpu → wanted ncpu status irq = Some (cpu, v) → 0 ≤ cpu < ncpu ∧ handled v = true.
Proof. unfold wanted. intros Hn. repeat case_match; intros [= <- <-]; (split; [lia|reflexivity]). Qed.

(** The routes [ri] hold of all interrupts up to [mx]. *)
Definition routes (mx : Z) (ri : Z → option (Z * Z)) (s : devs) : Prop := ∀ irq, 0 ≤ irq ≤ mx → route (d_apics s) irq = ri irq.

Lemma enable_ok mx ri irq cpu s : routes mx ri s → 0 ≤ irq < 224 → 0 ≤ cpu < 256 →
  returns (on_apics (ioapicenable irq cpu)) s (λ _ s', routes mx (λ j, if j =? irq then Some (cpu, T_IRQ0 + irq) else ri j) s').
Proof.
  intros Hr Hi Hc. unfold on_apics. apply returns_zoom. eapply returns_mono; [by apply route_enable|]. intros [] a [E1 E2] j Hj. cbn [d_apics set].
  destruct (Z.eqb_spec j irq) as [->|Hne]; [done|]. rewrite E2 by done. by apply Hr.
Qed.

Lemma routes_ext mx ri s s' : ioreg (d_apics s') = ioreg (d_apics s) → routes mx ri s → routes mx ri s'.
Proof. intros E Hr j Hj. rewrite <- (Hr j Hj). unfold route. by rewrite E. Qed.

Lemma uartinit_ok mx ri status s : routes mx ri s →
  returns (uartinit status) s (λ _ s',
    routes mx (λ j, if (j =? IRQ_COM1) && negb (status =? 255) then Some (0, T_IRQ0 + IRQ_COM1) else ri j) s').
Proof.
  intros Hr. unfold uartinit. do 7 (apply ports_out; intros ? ?).
  match goal with |- returns _ ?t _ => assert (Hr7 : routes mx ri t) by (eapply routes_ext; [|exact Hr]; congruence) end.
  destruct (status =? 255).
  - apply returns_ret. intros j Hj. rewrite andb_false_r. by apply Hr7.
  - apply returns_bind. unfold on_cons. apply returns_zoom, returns_modify, returns_bind.
    eapply returns_mono; [apply (enable_ok mx ri); [exact Hr7|done|done]|]. intros [] s2 Hr2.
    eapply returns_mono; [apply announce_keeps|]. intros [] s3 E. eapply routes_ext; [by rewrite E|].
    intros j Hj. rewrite andb_true_r. by apply Hr2.
Qed.

(** After [main] has set up the interrupt controllers and the drivers, exactly the
    interrupts of the keyboard, of the serial line if there is one, and of the disk
    reach a processor; each goes to a processor that exists and has a vector for which
    [trap] has a case. *)
Theorem interrupts_routed ioapicid ncpu status mismatch s :
  (∀ a, returns mismatch a (λ _ a', ioreg a' = ioreg a)) → 1 ≤ ncpu ≤ 8 →
  returns (interrupts_init ioapicid ncpu status mismatch) s (λ _ s',
    ∀ irq, 0 ≤ irq ≤ Z.land (Z.shiftr (ioreg (d_apics s) REG_VER) 16) 255 →
      route (d_apics s') irq = wanted ncpu status irq ∧
      ∀ cpu v, route (d_apics s') irq = Some (cpu, v) → 0 ≤ cpu < ncpu ∧ handled v = true).
Proof.
  intros Hmis Hn. set (mx := Z.land _ 255).
  assert (Hgoal : returns (interrupts_init ioapicid ncpu status mismatch) s (λ _ s', routes mx (wanted ncpu status) s')).
  2: { eapply returns_mono; [exact Hgoal|]. intros [] s' Hr irq Hirq. rewrite (Hr irq Hirq). split; [done|].
       intros cpu v. apply wanted_handled. lia. }
  unfold interrupts_init, picinit. apply returns_bind. unfold on_apics at 1. apply returns_zoom, returns_bind, returns_modify, returns_modify.
  apply returns_bind. unfold on_apics at 1. apply returns_zoom. eapply returns_mono; [by apply ioapicinit_disables|]. cbn [set ioreg d_apics].
  intros [] a Ha. match goal with |- returns _ ?t _ => assert (Hr1 : routes mx (λ _, None) t) by exact Ha; generalize dependent t end.
  clear a Ha. intros s1 Hr1. apply returns_bind. unfold consoleinit, on_cons. apply returns_bind, returns_zoom, returns_modify, returns_bind, returns_modify.
  apply returns_bind, returns_zoom, returns_modify. eapply returns_mono; [apply (enable_ok mx (λ _, None)); [exact Hr1|done|done]|].
  intros [] s2 Hr2. apply returns_bind. eapply returns_mono; [apply (uartinit_ok mx _ status s2 Hr2)|]. intros [] s3 Hr3.
  eapply returns_mono; [apply (enable_ok mx _ _ _ _ Hr3); [done|lia]|]. intros [] s4 Hr4 irq Hirq. rewrite (Hr4 irq Hirq).
  unfold wanted. unfold IRQ_KBD, IRQ_COM1, IRQ_IDE. destruct (Z.eqb_spec irq 14), (Z.eqb_spec irq 4), (Z.eqb_spec irq 1); try lia; try done;
    by destruct (status =? 255).
Qed.

(** ** The local APIC's timer *)

Lemma lapicw_bind latency i v (k : unit → M apics unit) s Q : i ≠ ICRLO →
  returns (k tt) (s <| lreg := upd (lreg s) i v |>) Q → returns (lapicw latency i v ≫= k) s Q.
Proof.
  intros Hi HQ. apply returns_bind. unfold lapicw. apply returns_bind, returns_modify. rewrite (proj2 (Z.eqb_neq _ _) Hi). by apply returns_ret.
Qed.

Lemma delivered n s : (sending s < n)%nat → returns (wait_delivered n) s (λ _ s', s' = s <| sending := O |>).
Proof.
  revert s. induction n as [|n IH]; intros s Hn; [lia|]. cbn [wait_delivered]. apply returns_bind, returns_gets. destruct s as [h lr ip k io o wm].
  cbn [sending] in *. destruct k as [|k]; [by apply returns_ret|]. apply returns_bind, returns_modify. cbn [set].
  eapply returns_mono; [apply IH; cbn; lia|]. by intros [] s' ->.
Qed.

(** Rewrites the registers read after a sequence of writes. *)
#[local] Ltac regs := cbn [set lreg sending ipis]; repeat first [rewrite upd_eq | rewrite upd_ne by done].

(** [lapicinit] starts the timer, for which [trap] has a case, and masks the lines. *)
Lemma lapicinit_starts_timer latency s : has_lapic s = true →
  returns (lapicinit latency) s (λ _ s',
    Z.testbit (lreg s' SVR) 8 = true ∧ handled (Z.land (lreg s' SVR) 255) = true ∧
    Z.testbit (lreg s' TIMER) 17 = true ∧ Z.testbit (lreg s' TIMER) 16 = false ∧ Z.land (lreg s' TIMER) 255 = T_IRQ0 + IRQ_TIMER ∧
    lreg s' LINT0 = MASKED ∧ lreg s' LINT1 = MASKED ∧ lreg s' TPR = 0 ∧ sending s' = O ∧ ipis s' = ipis s ++ [(0, 558336)]).
Proof.
  intros Hl. unfold lapicinit. apply returns_bind, returns_gets. rewrite Hl. cbn [negb].
  do 6 (apply lapicw_bind; [done|]). apply returns_bind, returns_gets. apply returns_bind.
  match goal with |- returns _ ?t _ => assert (Ht : lreg t SVR = 319 ∧ lreg t TIMER = 131104 ∧ lreg t LINT0 = MASKED ∧ lreg t LINT1 = MASKED ∧
    ipis t = ipis s) by (regs; split_and!; reflexivity); generalize dependent t end. intros t (E1 & E2 & E3 & E4 & E5).
  assert (Hp : ∀ b, returns (when b (lapicw latency PCINT MASKED)) t (λ _ u, lreg u SVR = 319 ∧ lreg u TIMER = 131104 ∧
    lreg u LINT0 = MASKED ∧ lreg u LINT1 = MASKED ∧ ipis u = ipis s)).
  { intros []; cbn [when]; [|by apply returns_ret]. unfold lapicw. apply returns_bind, returns_modify, returns_ret. by regs. }
  eapply returns_mono; [apply Hp|]. clear t E1 E2 E3 E4 E5 Hp. intros [] t (E1 & E2 & E3 & E4 & E5).
  do 5 (apply lapicw_bind; [done|]). unfold lapicw at 1. apply returns_bind, returns_bind, returns_modify.
  change (ICRLO =? ICRLO) with true. cbn [when]. apply returns_modify, returns_bind.
  eapply returns_mono; [apply delivered; cbn; lia|]. intros [] u ->. unfold lapicw. apply returns_bind, returns_modify, returns_ret.
  regs. rewrite E1, E2, E3, E4, E5. split_and!; reflexivity.
Qed.

(** ** The clock *)

Record rtcdate := mkdate { second : Z; minute : Z; hour : Z; day : Z; month : Z; year : Z }.
#[export] Instance rtcdate_eta : Eta rtcdate := λ d, mkdate (second d) (minute d) (hour d) (day d) (month d) (year d).
#[export] Instance rtcdate_eq_dec : EqDecision rtcdate.
Proof. solve_decision. Defined.

Definition CMOS_STATA : Z := 10.
Definition CMOS_STATB : Z := 11.
Definition CMOS_UIP : Z := 128.

(** The clock chip: what each register shows at each time, one read being one unit. *)
Record rtc := mkrtc { shows : nat → Z → Z; now : nat }.
#[export] Instance rtc_eta : Eta rtc := λ s, mkrtc (shows s) (now s).

Definition cmos_read (reg : Z) : M rtc Z :=
  v ← gets (λ s, shows s (now s) reg);
  _ ← modify (λ s, s <| now := S (now s) |>);
  mret v.

Definition fill_rtcdate : M rtc rtcdate :=
  s ← cmos_read 0;
  mi ← cmos_read 2;
  h ← cmos_read 4;
  d ← cmos_read 7;
  mo ← cmos_read 8;
  y ← cmos_read 9;
  mret (mkdate s mi h d mo y).

(** The loop [for(;;)], [n] rounds at most. *)
Fixpoint cmos_loop (n : nat) : M rtc rtcdate :=
  match n with
  | O => λ _, NoFuel
  | S n =>
      t1 ← fill_rtcdate;
      a ← cmos_read CMOS_STATA;
      if negb (Z.land a CMOS_UIP =? 0) then cmos_loop n else
      t2 ← fill_rtcdate;
      if bool_decide (t1 = t2) then mret t1 else cmos_loop n
  end.

Definition CONV (x : Z) : Z := Z.shiftr x 4 * 10 + Z.land x 15.

Definition cmostime (n : nat) : M rtc rtcdate :=
  sb ← cmos_read CMOS_STATB;
  let bcd := Z.land sb (Z.shiftl 1 2) =? 0 in
  t1 ← cmos_loop n;
  let t1 := if bcd then mkdate (CONV (second t1)) (CONV (minute t1)) (CONV (hour t1)) (CONV (day t1)) (CONV (month t1)) (CONV (year t1))
            else t1 in
  mret (t1 <| year := u32 (year t1 + 2000) |>).

(** The date read from time [t] on, if no other read comes in between. *)
Definition date_at (f : nat → Z → Z) (t : nat) : rtcdate :=
  mkdate (f t 0) (f (1 + t)%nat 2) (f (2 + t)%nat 4) (f (3 + t)%nat 7) (f (4 + t)%nat 8) (f (5 + t)%nat 9).

Lemma fill_date s : fill_rtcdate s = Ok (date_at (shows s) (now s)) (s <| now := (6 + now s)%nat |>).
Proof. by destruct s. Qed.

(** Two readings around one time agree, with no update in progress in between. *)
Definition steady (f : nat → Z → Z) (t : nat) : Prop :=
  date_at f t = date_at f (7 + t)%nat ∧ Z.land (f (6 + t)%nat CMOS_STATA) CMOS_UIP = 0.

Lemma cmos_loop_ok f T n t : (∀ u, (T ≤ u)%nat → steady f u) → (0 < n)%nat → (T < t + n)%nat →
  returns (cmos_loop n) (mkrtc f t) (λ d _, ∃ u, (t ≤ u)%nat ∧ steady f u ∧ d = date_at f u).
Proof.
  intros HT. revert t. induction n as [|n IH]; intros t Hn Ht; [lia|]. cbn [cmos_loop]. apply returns_bind. unfold returns at 1.
  rewrite fill_date. cbn [shows now set]. unfold cmos_read at 1.
  apply returns_bind, returns_bind, returns_gets, returns_bind, returns_modify, returns_ret. cbn [shows now set].
  assert (Hnext : ∀ t', (t < t')%nat → (t < T)%nat →
    returns (cmos_loop n) (mkrtc f t') (λ d _, ∃ u, (t ≤ u)%nat ∧ steady f u ∧ d = date_at f u)).
  { intros t' Hlt HtT. eapply returns_mono; [apply IH; lia|]. intros d s' (u & Hu & Hst & Hd). exists u. split; [lia|done]. }
  destruct (Z.eqb_spec (Z.land (f (6 + t)%nat CMOS_STATA) CMOS_UIP) 0) as [Eu|Eu]; cbn [negb].
  - apply returns_bind. unfold returns at 1. rewrite fill_date. cbn [shows now set]. case_bool_decide as Ed.
    + apply returns_ret. exists t. split; [lia|]. by split.
    + apply Hnext; [lia|]. destruct (decide (T ≤ t)%nat) as [Hle|]; [|lia]. by destruct (HT t Hle).
  - apply Hnext; [lia|]. destruct (decide (T ≤ t)%nat) as [Hle|]; [|lia]. by destruct (HT t Hle).
Qed.

(** The date [d] as a chip in BCD mode shows it. *)
Definition bcd_of (x : Z) : Z := 16 * (x / 10) + x mod 10.
Definition bcd_date (d : rtcdate) : rtcdate :=
  mkdate (bcd_of (second d)) (bcd_of (minute d)) (bcd_of (hour d)) (bcd_of (day d)) (bcd_of (month d)) (bcd_of (year d)).
Definition two_digits (d : rtcdate) : Prop :=
  Forall (λ x, 0 ≤ x < 100) [second d; minute d; hour d; day d; month d; year d].

Lemma CONV_bcd x : 0 ≤ x < 100 → CONV (bcd_of x) = x.
Proof.
  intros Hx. unfold CONV, bcd_of. rewrite Z.shiftr_div_pow2 by lia. change 15 with (Z.ones 4). rewrite Z.land_ones by lia.
  change (2 ^ 4) with 16. Z.div_mod_to_equations. lia.
Qed.

(** [cmostime] ends once the clock chip is steady, and the date it gives is one that the
    chip showed in two readings that agree, with no update in between; for a chip in BCD
    mode that shows the date [d] of this century, it gives [d] with the full year. *)
Theorem cmostime_consistent f T n t : (∀ u, (T ≤ u)%nat → steady f u) → (0 < n)%nat → (T ≤ t + n)%nat →
  Z.land (f t CMOS_STATB) 4 = 0 →
  returns (cmostime n) (mkrtc f t) (λ r _, ∃ u, (t < u)%nat ∧ steady f u ∧
    ∀ d, two_digits d → date_at f u = bcd_date d → r = d <| year := year d + 2000 |>).
Proof.
  intros HT Hn Ht Hb. unfold cmostime, cmos_read. apply returns_bind, returns_bind, returns_gets, returns_bind, returns_modify, returns_ret.
  cbn [shows now set]. change (Z.shiftl 1 2) with 4. rewrite Hb. change (0 =? 0) with true. cbv iota zeta. apply returns_bind.
  eapply returns_mono; [apply (cmos_loop_ok f T); [done|done|lia]|]. intros t1 s' (u & Hu & Hst & ->). apply returns_ret.
  exists u. split; [lia|]. split; [done|]. intros d Hd ->. unfold two_digits in Hd. rewrite !Forall_cons in Hd. unfold bcd_date. cbn [second minute hour day month year set].
  rewrite !CONV_bcd by lia. rewrite u32_small by (unfold two32; lia). by destruct d.
Qed.

Lemma cmostime_consistent_witness :
  returns (cmostime 1) (mkrtc (λ _ reg, nth (Z.to_nat reg) [69; 0; 18; 0; 9; 0; 0; 48; 2; 36] 0) 0) (λ r _, r = mkdate 45 12 9 30 2 2024).
Proof.
  eapply returns_mono; [apply (cmostime_consistent _ 0); [|lia|lia|reflexivity]|].
  - intros u _. split; reflexivity.
  - intros r s' (u & _ & _ & H). apply (H (mkdate 45 12 9 30 2 24)); [|reflexivity]. apply (bool_decide_eq_true_1 _). reflexivity.
Defined.

Lemma interrupts_routed_witness :
  returns (interrupts_init 2 2 96 skip) (mkdevs (mkapics true (λ _, 0) [] 0 (λ r, if r =? 1 then 1507328 else 0) [] (0, 0)) demo_console [])
    (λ _ s', route (d_apics s') IRQ_IDE = Some (1, 46) ∧ route (d_apics s') 3 = None).
Proof.
  eapply returns_mono; [apply interrupts_routed; [intros a; by apply returns_ret|lia]|]. intros [] s' H.
  split; [rewrite (proj1 (H IRQ_IDE ltac:(vm_compute; split; discriminate)))|rewrite (proj1 (H 3 ltac:(vm_compute; split; discriminate)))]; reflexivity.
Defined.
