(* ===== verification/Cpu.v ===== *)
(** Which processor runs ([mycpu] and [cpuid] of proc.c): its entry in the table that
    [mpinit] filled, found by the number of its local APIC. *)

From S2P Require Import Prelude CString Spinlock Mp Apic.

(** The flags of this processor, the table of processors and the interrupt controllers. *)
Record cpus_st := mkcs { cs_cli : Cli.cpu; cs_mp : mpst; cs_apic : apics }.
#[export] Instance cpus_st_eta : Eta cpus_st := λ s, mkcs (cs_cli s) (cs_mp s) (cs_apic s).

(** [mycpu()], as an index into [cpus]. *)
Definition mycpu : M cpus_st Z :=
  fl ← gets (Cli.FL_IF ∘ cs_cli);
  if fl : bool then panic "mycpu called with interrupts enabled" else
  apicid ← zoom cs_apic (λ a s, s <| cs_apic := a |>) lapicid;
  n ← gets (ncpu ∘ cs_mp);
  r ← for_ret (Z.to_nat n) 0 (λ i,
    a ← gets (λ s, cpus (cs_mp s) !! Z.to_nat i);
    match a with
    | Some a => mret (if a =? apicid then Some i else None)
    | None => undef "cpus"
    end);
  match r with Some i => mret i | None => panic "unknown apicid" end.

Definition cpuid : M cpus_st Z := mycpu.

(** The processor with the local APIC [id] runs. *)
Definition runs_on (id : Z) (a : apics) : Prop := has_lapic a = true ∧ Z.shiftr (lreg a ID) 24 = id.

Lemma mycpu_loop id s n lo i : (Z.to_nat lo + n ≤ length (cpus (cs_mp s)))%nat → 0 ≤ lo →
  (∀ j, lo ≤ j < i → cpus (cs_mp s) !! Z.to_nat j ≠ Some id) → lo ≤ i < lo + Z.of_nat n →
  cpus (cs_mp s) !! Z.to_nat i = Some id →
  for_ret n lo (λ i,
    a ← gets (λ s, cpus (cs_mp s) !! Z.to_nat i);
    match a with
    | Some a => mret (if a =? id then Some i else None)
    | None => undef "cpus"
    end) s = Ok (Some i) s.
Proof.
  revert lo. induction n as [|n IH]; intros lo Hl Hlo Hj Hi E; [lia|]. cbn [for_ret].
  unfold mbind at 1, M_bind at 1. unfold mbind at 1, M_bind at 1, gets at 1.
  destruct (decide (i = lo)) as [->|Hne].
  - rewrite E. unfold mret, M_ret. by rewrite Z.eqb_refl.
  - destruct (lookup_lt_is_Some_2 (cpus (cs_mp s)) (Z.to_nat lo)) as [x Hx]; [lia|]. rewrite Hx. unfold mret at 1, M_ret at 1.
    rewrite (proj2 (Z.eqb_neq x id)) by (intros ->; by apply (Hj lo); [lia|]).
    apply IH; [lia|lia| |lia|done]. intros j ?. apply Hj. lia.
Qed.

(** With interrupts disabled, [mycpu] returns the entry of the processor that runs. *)
Lemma mycpu_finds s i id : Cli.FL_IF (cs_cli s) = false → room (cs_mp s) → NoDup (found (cs_mp s)) →
  found (cs_mp s) !! i = Some id → runs_on id (cs_apic s) → mycpu s = Ok (Z.of_nat i) s.
Proof.
  intros Hf [Hn Hl] Hnd Hi [Hh Hid]. unfold found in *. pose proof (lookup_lt_Some _ _ _ Hi) as Hlt. rewrite length_take in Hlt.
  assert (E : ∀ j, (j < Z.to_nat (ncpu (cs_mp s)))%nat → take (Z.to_nat (ncpu (cs_mp s))) (cpus (cs_mp s)) !! j = cpus (cs_mp s) !! j)
    by (intros; by apply lookup_take_lt).
  assert (L : zoom cs_apic (λ a s, s <| cs_apic := a |>) lapicid s = Ok id s).
  { unfold zoom, lapicid, gets, mbind, M_bind. cbn. rewrite Hh. cbn. rewrite Hid. by destruct s. }
  unfold mycpu. unfold mbind at 1, M_bind at 1, gets at 1. cbn [compose]. rewrite Hf. unfold mbind at 1, M_bind at 1. rewrite L.
  unfold mbind at 1, M_bind at 1, gets at 1. unfold mbind at 1, M_bind at 1. rewrite (mycpu_loop id s _ 0 (Z.of_nat i)).
  - done.
  - rewrite Hl. cbn. lia.
  - lia.
  - intros j Hj Hx. assert (i = Z.to_nat j) as ->; [|lia]. eapply NoDup_lookup; [exact Hnd|exact Hi|]. by rewrite E by lia.
  - cbn. lia.
  - rewrite Nat2Z.id, <- E by lia. done.
Qed.

(** After [mpinit] every processor of the table finds its own entry: the one of index
    [i] gets [i] from [cpuid], when the table lists different numbers. *)
Theorem cpuid_own (m : mem) in23 mp conf es s fuel c a i id :
  (∀ x, 0 ≤ m x < 256) → configured m mp conf → table m (conf + SIZE_MPCONF) es (conf + load16 m (conf + 4)) →
  (length es ≤ fuel)%nat → ncpu s = 0 → length (cpus s) = Z.to_nat NCPU →
  NoDup (apicids es) → apicids es !! i = Some id → (i < Z.to_nat NCPU)%nat → runs_on id a → Cli.FL_IF c = false →
  returns (mpinit m in23 fuel) s (λ _ s', cpuid (mkcs c s' a) = Ok (Z.of_nat i) (mkcs c s' a)).
Proof.
  intros Hb Hc Ht Hf Hn Hl Hnd Hi Hlt Hr Hfl. eapply returns_mono; [by apply (mpinit_found m in23 Hb mp conf es)|].
  intros _ s' (Hroom & F & _). apply (mycpu_finds (mkcs c s' a) i id); cbn; [done|done| | |done]; rewrite F.
  - eapply sublist_NoDup; [exact Hnd|apply sublist_take].
  - by rewrite lookup_take_lt.
Qed.

Lemma cpuid_own_witness :
  returns (mpinit (demo_firmware 1 132) 0 4) demo_mpst (λ _ s',
    cpuid (mkcs (Cli.mkcpu 1 true false) s' (mkapics true (λ _, 16777216) [] 0 (λ _, 0) [] (0, 0))) =
    Ok 1 (mkcs (Cli.mkcpu 1 true false) s' (mkapics true (λ _, 16777216) [] 0 (λ _, 0) [] (0, 0)))).
Proof.
  apply (cpuid_own (demo_firmware 1 132) 0 2148466688 2148466704 [Eproc 0; Eproc 1; Eother 1; Eioapic 2] demo_mpst 4
    (Cli.mkcpu 1 true false) (mkapics true (λ _, 16777216) [] 0 (λ _, 0) [] (0, 0)) 1 1).
  - apply demo_firmware_bytes.
  - apply demo_configured. left.
  - split; [split; reflexivity|]. split; [split; reflexivity|]. split; [split; [reflexivity|by left]|]. split; [split; reflexivity|reflexivity].
  - cbn. lia.
  - reflexivity.
  - reflexivity.
  - by apply (bool_decide_eq_true_1 _).
  - reflexivity.
  - change (1 < 8)%nat. lia.
  - by split.
  - reflexivity.
Defined.
