(* ===== verification/Startup.v ===== *)
(** Starting the other processors (main.c [startothers] and [entrypgdir], entryother.S)
    and the first segments (asm.h, bootasm.S). *)

From S2P Require Import Prelude Layout CString Kalloc Sched Bytes PageAlloc Vm Kernel Apic Context Gates.

(** ** The first page table *)

Definition PTE_PS : Z := 128.

Definition entrypgdir (i : Z) : Z :=
  if i =? 0 then Z.lor (Z.lor (Z.lor 0 PTE_P) PTE_W) PTE_PS
  else if i =? Z.shiftr KERNBASE 22 then Z.lor (Z.lor (Z.lor 0 PTE_P) PTE_W) PTE_PS
  else 0.

(** The processor's translation for 4 MB pages. *)
Definition translate4m (pgdir : Z → Z) (va : Z) : option Z :=
  let e := pgdir (PDX va) in
  if Z.testbit e 0 && Z.testbit e 7 then Some (Z.ldiff e 4194303 + va mod 4194304) else None.

(** ** Starting a processor *)

(** Another processor that started: its number and what it takes as page table, stack and
    first function. *)
Record ap := mkap { ap_id : Z; ap_cr3 : Z; ap_esp : Z; ap_entry : Z }.

(** A processor that has not been started is halted.  An INIT interrupt makes it wait for
    a STARTUP interrupt, whose vector is the number of the page it starts at; it takes no
    notice of other STARTUP interrupts. *)
Inductive ap_state := Halted | Wait_sipi | Runs (addr : Z).

(** The effect of an interprocessor interrupt on the processor with APIC number [id]. *)
Definition ap_deliver (id : Z) (st : ap_state) (ipi : Z * Z) : ap_state :=
  let '(hi, lo) := ipi in
  if negb (Z.shiftr hi 24 =? id) then st else
  let mode := Z.land (Z.shiftr lo 8) 7 in
  if mode =? 5 then if Z.testbit lo 14 then Wait_sipi else st
  else if mode =? 6 then match st with Wait_sipi => Runs (Z.shiftl (Z.land lo 255) 12) | _ => st end
  else st.

Definition ap_after (id : Z) (sent : list (Z * Z)) : ap_state := foldl (ap_deliver id) Halted sent.

Record smp (S : Type) := mksmp { sm_mem : S; sm_apic : apics; sm_started : list bool; sm_aps : list ap }.
Arguments mksmp {S}.
Arguments sm_mem {S}.
Arguments sm_apic {S}.
Arguments sm_started {S}.
Arguments sm_aps {S}.
#[export] Instance smp_eta {S} : Eta (smp S) := λ s, mksmp (sm_mem s) (sm_apic s) (sm_started s) (sm_aps s).

Section Startup.
Context {S : Type} `{PA : PageAlloc S}.
#[local] Abbreviation P := (smp S).

(** The image of entryother.S, the addresses of [mpenter] and [entrypgdir], and how long
    an interprocessor interrupt takes. *)
Variable entryother_image : list Z.
Variable mpenter entrypgdir_addr : Z.
Variable latency : nat.

Definition on_smem {A} : M S A → M P A := zoom sm_mem (λ m s, s <| sm_mem := m |>).
Definition on_sapic {A} : M apics A → M P A := zoom sm_apic (λ a s, s <| sm_apic := a |>).

(** The code of entryother.S is at [start]. *)
Definition code_at (start : Z) (m : mem) : bool :=
  forallb (λ i, m (start + Z.of_nat i) =? nth i entryother_image 0) (seq 0 (length entryother_image)).

(** What entryother.S, started at its copy at [start], does on processor [c] before it calls
    [mpenter], which ends in setting [started]. *)
Definition entryother (c : nat) (apicid start : Z) : M P unit :=
  cr3 ← on_smem (ld (start - 12));
  esp ← on_smem (ld (start - 4));
  entry ← on_smem (ld (start - 8));
  modify (λ s, s <| sm_aps := sm_aps s ++ [mkap apicid cr3 esp entry] |> <| sm_started := <[c := true]> (sm_started s) |>).

(** What processor [c] does with the interrupts it has been sent: nothing, or it runs the
    code at the page it is started at. *)
Definition other_cpu (c : nat) (apicid : Z) : M P unit :=
  st ← gets (λ s, ap_after apicid (ipis (sm_apic s)));
  match st with
  | Runs addr =>
      b ← gets (λ s, code_at (P2V addr) (pa_ram (sm_mem s)));
      if b : bool then entryother c apicid (P2V addr) else undef "no code"
  | _ => skip
  end.

(** The body of the loop of [startothers] for processor [c], which works beside this one
    and waits for ever if the other does not start. *)
Definition start_cpu (c : nat) (id : Z) : M P unit :=
  let code := P2V 28672 in
  stack ← on_smem pa_kalloc;
  _ ← on_smem (st (code - 4) (u32 (stack + KSTACKSIZE)));
  _ ← on_smem (st (code - 8) mpenter);
  _ ← on_smem (st (code - 12) (V2P entrypgdir_addr));
  _ ← on_sapic (lapicstartap latency id (V2P code));
  _ ← other_cpu c id;
  b ← gets (λ s, sm_started s !! c);
  if bool_decide (b = Some true) then skip else block.

(** The loop over the processors from [c] on; [me] is the one that runs. *)
Fixpoint start_loop (me c : nat) (apicids : list Z) : M P unit :=
  match apicids with
  | [] => skip
  | id :: apicids => _ ← when (negb (bool_decide (c = me))) (start_cpu c id); start_loop me (Datatypes.S c) apicids
  end.

Definition startothers (me : nat) (apicids : list Z) : M P unit :=
  _ ← on_smem (modify (λ s, pa_write (λ x, if (P2V 28672 <=? x) && (x <? P2V 28672 + Z.of_nat (length entryother_image))
                                            then nth (Z.to_nat (x - P2V 28672)) entryother_image 0 else pa_ram s x) s));
  start_loop me 0 apicids.

(** ** What the other processors get *)

(** The processors other than [me]. *)
Fixpoint others (me c : nat) (apicids : list Z) : list Z :=
  match apicids with
  | [] => []
  | id :: apicids => if bool_decide (c = me) then others me (Datatypes.S c) apicids else id :: others me (Datatypes.S c) apicids
  end.

Lemma length_others me c apicids : (length (others me c apicids) ≤ length apicids)%nat.
Proof. revert c. induction apicids as [|id l IH]; intros c; cbn [others length]; [done|]. specialize (IH (Datatypes.S c)). case_bool_decide; cbn [length]; lia. Qed.

(** The interrupts that start one processor at the page of [addr]. *)
Definition start_ipis (addr id : Z) : list (Z * Z) :=
  let hi := Z.shiftl id 24 in
  [(hi, Z.lor (Z.lor INIT LEVEL) ASSERT); (hi, Z.lor INIT LEVEL); (hi, Z.lor STARTUP (Z.shiftr addr 12)); (hi, Z.lor STARTUP (Z.shiftr addr 12))].

Lemma lapicstartap_ok id addr s : returns (lapicstartap latency id addr) s (λ _ s', ipis s' = ipis s ++ start_ipis addr id).
Proof.
  unfold lapicstartap. do 3 (apply returns_bind, returns_modify). apply lapicw_bind; [done|].
  unfold lapicw. do 2 (apply returns_bind, returns_bind, returns_modify; change (ICRLO =? ICRLO) with true; cbn [when]; apply returns_modify).
  cbn [for_]. do 2 (apply returns_bind, returns_bind, returns_bind, returns_modify; change (ICRHI =? ICRLO) with false; cbn [when];
    apply returns_ret, returns_bind, returns_modify; change (ICRLO =? ICRLO) with true; cbn [when]; apply returns_modify).
  apply returns_ret. cbn [set ipis lreg]. rewrite !(upd_ne _ ICRLO ICRHI) by done. rewrite !upd_eq. by rewrite <- !app_assoc.
Qed.

(** They make it start there. *)
Lemma start_ipis_run sent id : ap_after id (sent ++ start_ipis 28672 id) = Runs 28672.
Proof.
  unfold ap_after. rewrite foldl_app. generalize (foldl (ap_deliver id) Halted sent) as st. intros st.
  unfold start_ipis, ap_deliver. cbn [foldl]. rewrite Z.shiftr_shiftl_l, Z.sub_diag, Z.shiftl_0_r by lia. rewrite !Z.eqb_refl. reflexivity.
Qed.

Definition low_pages (l : list Z) : Prop := ∀ p, p ∈ l → KERNLINK ≤ p ∧ p + PGSIZE ≤ P2V 4194304.

(** Stores below the kernel do not touch the free pages. *)
Lemma st_low a w s l (Q : unit → S → Prop) : pa_ok s l → low_pages l → KERNBASE ≤ a → a + 4 ≤ KERNLINK →
  (∀ s', pa_ok s' l → pa_ram s' = store32 (pa_ram s) a w → Q tt s') → returns (st a w) s Q.
Proof.
  intros Hok Hl Ha Ha4 HQ. unfold st. apply returns_modify, HQ; [|apply pa_ram_write]. apply pa_ok_write; [done|].
  intros p x Hp Hx. apply store32_other. destruct (Hl p Hp). unfold in_page in Hx. lia.
Qed.

Context (Hmpenter : 0 ≤ mpenter < two32).

Lemma code_at_ext start m m' : (∀ x, start ≤ x → x < start + Z.of_nat (length entryother_image) → m' x = m x) →
  code_at start m = true → code_at start m' = true.
Proof.
  intros Hx Hc. unfold code_at in *. rewrite forallb_forall in *. intros i Hi. rewrite Hx; [by apply Hc|lia|].
  apply in_seq in Hi. lia.
Qed.

Lemma start_cpu_ok c id p l s : pa_ok (sm_mem s) (p :: l) → low_pages (p :: l) → (c < length (sm_started s))%nat →
  code_at (P2V 28672) (pa_ram (sm_mem s)) = true →
  returns (start_cpu c id) s (λ _ s', sm_aps s' = sm_aps s ++ [mkap id (V2P entrypgdir_addr) (p + KSTACKSIZE) mpenter] ∧
    pa_ok (sm_mem s') l ∧ code_at (P2V 28672) (pa_ram (sm_mem s')) = true ∧
    sm_started s' = <[c := true]> (sm_started s) ∧ ipis (sm_apic s') = ipis (sm_apic s) ++ start_ipis 28672 id).
Proof.
  intros Hok Hl Hc Hcode. unfold start_cpu. cbv zeta. assert (Hl' : low_pages l) by (intros q Hq; apply Hl; by right).
  destruct (Hl p) as [Hp1 Hp2]; [by left|]. apply returns_bind. unfold on_smem. apply returns_zoom.
  eapply returns_mono; [by apply pa_kalloc_ok|]. intros stack m1 (-> & Hok1 & E1).
  change (P2V 28672) with (KERNBASE + 28672). change (V2P (KERNBASE + 28672)) with 28672. change (P2V 4194304) with 2151677952 in Hp2.
  assert (Hv : 0 ≤ V2P entrypgdir_addr < two32) by (apply Z.mod_pos_bound; done).
  rewrite u32_small by (unfold KERNLINK, KERNBASE, EXTMEM, KSTACKSIZE, two32, PGSIZE in *; lia).
  assert (Hu : 0 ≤ p + KSTACKSIZE < two32) by (unfold KERNLINK, KERNBASE, EXTMEM, KSTACKSIZE, two32, PGSIZE in *; lia).
  apply returns_bind, returns_zoom. apply (st_low _ _ _ l); [done|done|unfold KERNLINK, KERNBASE, EXTMEM; lia..|]. intros m2 Hok2 E2.
  apply returns_bind, returns_zoom. apply (st_low _ _ _ l); [done|done|unfold KERNLINK, KERNBASE, EXTMEM; lia..|]. intros m3 Hok3 E3.
  apply returns_bind, returns_zoom. apply (st_low _ _ _ l); [done|done|unfold KERNLINK, KERNBASE, EXTMEM; lia..|]. intros m4 Hok4 E4.
  apply returns_bind. unfold on_sapic. apply returns_zoom. eapply returns_mono; [apply lapicstartap_ok|]. intros [] a Ha. cbn [sm_mem sm_apic set] in *.
  assert (Hcode4 : code_at (KERNBASE + 28672) (pa_ram m4) = true).
  { eapply code_at_ext; [|exact Hcode]. intros x Hx _. change (P2V 28672) with (KERNBASE + 28672) in Hx.
    by rewrite E4, !store32_other, E3, store32_other, E2, store32_other, E1 by lia. }
  apply returns_bind. unfold other_cpu. apply returns_bind, returns_gets. cbn [sm_apic set]. rewrite Ha, start_ipis_run.
  apply returns_bind, returns_gets. change (P2V 28672) with (KERNBASE + 28672). cbn [sm_mem set]. rewrite Hcode4.
  unfold entryother, ld, on_smem. do 3 (apply returns_bind, returns_zoom, returns_gets). cbn [sm_mem set]. apply returns_modify.
  cbn [sm_mem set sm_started sm_aps sm_apic]. apply returns_bind, returns_gets. cbn [sm_started set].
  rewrite list_lookup_insert_eq by done. rewrite bool_decide_eq_true_2 by done. apply returns_ret. cbn [sm_aps sm_mem sm_started sm_apic set].
  split; [|split; [exact Hok4|split; [exact Hcode4|done]]]. rewrite E4, E3, E2, load32_store32, !load32_apart, load32_store32, !load32_apart, load32_store32 by (done || lia). done.
Qed.

Lemma start_loop_ok me apicids c s l :
  pa_ok (sm_mem s) l → low_pages l → (length (others me c apicids) ≤ length l)%nat → (c + length apicids ≤ length (sm_started s))%nat →
  code_at (P2V 28672) (pa_ram (sm_mem s)) = true →
  returns (start_loop me c apicids) s (λ _ s',
    sm_aps s' = sm_aps s ++ zip_with (λ id p, mkap id (V2P entrypgdir_addr) (p + KSTACKSIZE) mpenter) (others me c apicids) l ∧
    ipis (sm_apic s') = ipis (sm_apic s) ++ concat (start_ipis 28672 <$> others me c apicids) ∧
    pa_ok (sm_mem s') (drop (length (others me c apicids)) l) ∧
    (∀ i, (i < c)%nat → sm_started s' !! i = sm_started s !! i) ∧
    ∀ i, (c ≤ i < c + length apicids)%nat → i ≠ me → sm_started s' !! i = Some true).
Proof.
  revert c s l. induction apicids as [|id apicids IH]; intros c s l Hok Hl Hlen Hst Hcode; cbn [start_loop others length] in *.
  - apply returns_ret. cbn [fmap list_fmap concat zip_with length]. rewrite !app_nil_r, drop_0. split_and!; try done. intros i Hi. lia.
  - apply returns_bind. case_bool_decide as Hme; cbn [negb when].
    + apply returns_ret. eapply returns_mono; [apply (IH _ _ l); [done|done|done|lia|done]|]. intros [] s' (H1 & H2 & H3 & H4 & H5).
      split_and!; [done|done|done|intros i Hi; apply H4; lia|]. intros i Hi Hne. apply H5; [lia|done].
    + cbn [length] in Hlen. destruct l as [|p l]; [cbn in Hlen; lia|]. eapply returns_mono; [apply (start_cpu_ok c id p l); [done|done|lia|done]|].
      intros [] s1 (E1 & Hok1 & Hc1 & E2 & E3). eapply returns_mono; [apply (IH _ _ l); [done|intros q Hq; apply Hl; by right|cbn in Hlen; lia| |done]|].
      { rewrite E2, length_insert. lia. }
      intros [] s' (H1 & H2 & H3 & H4 & H5). cbn [fmap list_fmap concat zip_with length drop].
      split_and!; [by rewrite H1, E1, <- app_assoc|by rewrite H2, E3, <- app_assoc|done| |].
      * intros i Hi. rewrite H4, E2, list_lookup_insert_ne by lia. done.
      * intros i Hi Hne. destruct (decide (i = c)) as [->|]; [|apply H5; [lia|done]]. rewrite H4, E2, list_lookup_insert_eq by lia. done.
Qed.

Lemma startothers_ok me apicids s l :
  pa_ok (sm_mem s) l → low_pages l → (length (others me 0 apicids) ≤ length l)%nat → length (sm_started s) = length apicids →
  Z.of_nat (length entryother_image) ≤ 4096 →
  returns (startothers me apicids) s (λ _ s',
    sm_aps s' = sm_aps s ++ zip_with (λ id p, mkap id (V2P entrypgdir_addr) (p + KSTACKSIZE) mpenter) (others me 0 apicids) l ∧
    ipis (sm_apic s') = ipis (sm_apic s) ++ concat (start_ipis 28672 <$> others me 0 apicids) ∧
    ∀ i, (i < length apicids)%nat → i ≠ me → sm_started s' !! i = Some true).
Proof.
  intros Hok Hl Hlen Hst Himg. unfold startothers. apply returns_bind. unfold on_smem. apply returns_zoom, returns_modify.
  eapply returns_mono; [apply (start_loop_ok _ _ _ _ l); [|done|done|cbn [sm_started set]; lia|]|].
  - cbn [sm_mem set]. apply pa_ok_write; [done|]. intros p x Hp Hx. destruct (Hl p Hp) as [H1 _]. unfold in_page in Hx.
    change (P2V 28672) with (KERNBASE + 28672). unfold KERNLINK, EXTMEM in H1. rewrite (proj2 (Z.ltb_ge x _)) by lia. by rewrite andb_false_r.
  - cbn [sm_mem set]. rewrite pa_ram_write. unfold code_at. apply forallb_forall. intros i Hi%in_seq. apply Z.eqb_eq.
    rewrite (proj2 (Z.leb_le _ _)), (proj2 (Z.ltb_lt _ _)) by lia. cbn [andb]. f_equal. lia.
  - intros [] s' (H1 & H2 & _ & _ & H5). split; [exact H1|]. split; [exact H2|]. intros i Hi. apply H5. lia.
Qed.
End Startup.

(** ** The stacks are mapped *)

(** The first page table maps the first 4 MB twice, at 0 and at [KERNBASE]. *)
Lemma entrypgdir_maps va : 0 ≤ va < two32 →
  translate4m entrypgdir va =
    if va <? 4194304 then Some va else if (KERNBASE <=? va) && (va <? P2V 4194304) then Some (V2P va) else None.
Proof.
  intros Hva. unfold translate4m, entrypgdir. change (Z.shiftr KERNBASE 22) with 512. change (P2V 4194304) with 2151677952.
  unfold PDX. change 1023 with (Z.ones 10). rewrite Z.land_ones, Z.shiftr_div_pow2 by (unfold PDXSHIFT; lia).
  unfold two32, KERNBASE, PDXSHIFT in *. change (2 ^ 22) with 4194304. change (2 ^ 10) with 1024.
  assert (Hd : va / 4194304 mod 1024 = va / 4194304) by (apply Z.mod_small; Z.div_mod_to_equations; lia). rewrite Hd.
  pose proof (Z.div_mod va 4194304 ltac:(lia)) as Hdm. pose proof (Z.mod_pos_bound va 4194304 ltac:(lia)) as Hmp.
  destruct (Z.eqb_spec (va / 4194304) 0) as [E0|E0]; [|destruct (Z.eqb_spec (va / 4194304) 512) as [E1|E1]].
  - rewrite (proj2 (Z.ltb_lt _ _)) by lia. cbn [negb andb Z.testbit]. f_equal. change (Z.ldiff _ 4194303) with 0. lia.
  - rewrite (proj2 (Z.ltb_ge _ _)), (proj2 (Z.leb_le _ _)), (proj2 (Z.ltb_lt _ _)) by lia. cbn [andb]. f_equal.
    change (Z.ldiff _ 4194303) with 0. rewrite V2P_kern by (unfold KERNBASE, two32; lia). unfold KERNBASE. lia.
  - rewrite (proj2 (Z.ltb_ge _ _)) by lia. destruct (Z.leb_spec 2147483648 va), (Z.ltb_spec va 2151677952); cbn [andb]; try done. lia.
Qed.

Lemma enough_pages end_ n l : KERNBASE ≤ end_ → end_ + 4096 * (1 + Z.of_nat n) ≤ P2V 4194304 →
  (∀ q, q ∈ l ↔ q mod PGSIZE = 0 ∧ end_ ≤ q ∧ q + PGSIZE ≤ P2V 4194304) → (n ≤ length l)%nat.
Proof.
  intros He Hn Hl. set (b := 4096 * ((end_ + 4095) / 4096)). assert (Hb : end_ ≤ b < end_ + 4096) by (unfold b; Z.div_mod_to_equations; lia).
  transitivity (length ((λ i, b + 4096 * Z.of_nat i) <$> seq 0 n)); [by rewrite length_fmap, length_seq|]. apply submseteq_length, NoDup_submseteq.
  - apply NoDup_fmap_2; [intros i j Hij; lia|apply NoDup_seq].
  - intros q (i & -> & Hi%elem_of_seq)%list_elem_of_fmap. apply Hl. unfold PGSIZE. split; [|lia]. unfold b.
    rewrite <- Z.mul_add_distr_l, Z.mul_comm. apply Z.mod_mul. lia.
Qed.

(** C35: After the first phase of the page allocator, [startothers] sends every other
    processor, in order and once, an INIT interrupt and two STARTUP interrupts for the
    page with the copy of entryother.S, and returns when each of them has started: it has
    run that code with the first page table, with a stack of its own and with [mpenter] as
    entry.  The stack is in memory that the first page table maps, which is all the
    processor has when it starts. *)
Theorem other_cpus_start end_ (Hend : KERNBASE < end_) image mpenter entrypgdir_addr latency me apicids s :
  0 ≤ mpenter < two32 → KERNLINK ≤ end_ → end_ + 4096 * (1 + Z.of_nat (length apicids)) ≤ P2V 4194304 → freelist (sm_mem s) = 0 →
  length (sm_started s) = length apicids → Z.of_nat (length image) ≤ 4096 →
  let pa := kalloc_pages end_ Hend in
  returns (_ ← on_smem (kinit1 end_ end_ (P2V 4194304)); startothers image mpenter entrypgdir_addr latency me apicids) s (λ _ s', ∃ stacks,
    sm_aps s' = sm_aps s ++ zip_with (λ id p, mkap id (V2P entrypgdir_addr) (p + KSTACKSIZE) mpenter) (others me 0 apicids) stacks ∧
    ipis (sm_apic s') = ipis (sm_apic s) ++ concat (start_ipis 28672 <$> others me 0 apicids) ∧
    (length (others me 0 apicids) ≤ length stacks)%nat ∧ NoDup stacks ∧
    (∀ p x, p ∈ stacks → in_page p x → translate4m entrypgdir x = Some (V2P x)) ∧
    ∀ i, (i < length apicids)%nat → i ≠ me → sm_started s' !! i = Some true).
Proof.
  intros Hm Hk He Hf Hst Himg pa. apply returns_bind. unfold on_smem. apply returns_zoom.
  eapply returns_mono; [apply kinit1_ok; [unfold KERNLINK, EXTMEM in *; lia|done]|]. intros [] m (l & Hok & Hl).
  assert (Ho : (length (others me 0 apicids) ≤ length apicids)%nat) by apply length_others.
  assert (Hlow : low_pages l) by (intros p (_ & H1 & H2)%Hl; lia).
  eapply returns_mono; [apply (startothers_ok image mpenter entrypgdir_addr latency Hm me apicids _ l); [exact Hok|exact Hlow| |exact Hst|exact Himg]|].
  - etrans; [exact Ho|]. apply (enough_pages end_); [unfold KERNLINK, EXTMEM in *; lia|done|done].
  - intros [] s' (H1 & H2 & H3). exists l. split; [exact H1|]. split; [exact H2|]. split_and!; [|apply Hok| |exact H3].
    + etrans; [exact Ho|]. apply (enough_pages end_); [unfold KERNLINK, EXTMEM in *; lia|done|done].
    + intros p x (_ & H1' & H2')%Hl Hx. unfold in_page in Hx. change (P2V 4194304) with 2151677952 in *.
      unfold KERNLINK, KERNBASE, EXTMEM, PGSIZE in *. rewrite entrypgdir_maps by (unfold two32; lia).
      change (P2V 4194304) with 2151677952. rewrite (proj2 (Z.ltb_ge _ _)), (proj2 (Z.leb_le _ _)), (proj2 (Z.ltb_lt _ _)) by (unfold KERNBASE; lia).
      done.
Qed.

(** ** The assembler's segments *)

(** [.word] and [.byte] lay out their arguments; [SEG_ASM] and [SEG_NULLASM]. *)
Definition word16 (v : Z) : list Z := [v mod 256; Z.shiftr v 8 mod 256].
Definition SEG_NULLASM : list Z := word16 0 ++ word16 0 ++ [0; 0; 0; 0].
Definition SEG_ASM (type base lim : Z) : list Z :=
  word16 (Z.land (Z.shiftr lim 12) 65535) ++ word16 (Z.land base 65535) ++
  [Z.land (Z.shiftr base 16) 255; Z.lor 144 type; Z.lor 192 (Z.land (Z.shiftr lim 28) 15); Z.land (Z.shiftr base 24) 255].

(** The table that bootasm.S and entryother.S load. *)
Definition boot_gdt : list Z := SEG_NULLASM ++ SEG_ASM (Z.lor STA_X STA_R) 0 4294967295 ++ SEG_ASM STA_W 0 4294967295.

(** The bytes of a descriptor as C lays it out. *)
Definition desc_bytes (w : Z) : list Z := (λ k, slice (8 * k) 8 w) <$> seqZ 0 8.

(** The processors start with the same kernel segments that [seginit] gives them later:
    the assembler's table is that of the C code, byte by byte. *)
Lemma boot_gdt_same gdt0 : length gdt0 = Z.to_nat NSEGS →
  boot_gdt = desc_bytes 0 ++ concat (desc_bytes <$> (seg_word <$> take 2 (drop 1 (seginit gdt0)))).
Proof. intros Hl. destruct gdt0 as [|d0 [|d1 [|d2 [|d3 [|d4 [|d5 [|]]]]]]]; try discriminate Hl. vm_compute. reflexivity. Qed.

(** ** Two processors *)

Lemma other_cpus_start_witness :
  let pa := kalloc_pages (KERNLINK + 4096) eq_refl in
  returns (_ ← on_smem (kinit1 (KERNLINK + 4096) (KERNLINK + 4096) (P2V 4194304)); startothers [250] 2148532224 2148540416 3 0 [0; 5])
    (mksmp (mkkmem (λ _, 0) false false 0) (mkapics true (λ _, 0) [] 0 (λ _, 0) [] (0, 0)) [true; false] [])
    (λ _ s', ∃ p, sm_aps s' = [mkap 5 1056768 (p + 4096) 2148532224] ∧ length (ipis (sm_apic s')) = 4%nat ∧ sm_started s' !! 1%nat = Some true).
Proof.
  eapply returns_mono; [apply (other_cpus_start (KERNLINK + 4096) eq_refl); try done|].
  intros [] s' (stacks & E & Ei & Hlen & _ & _ & Hst). destruct stacks as [|p stacks]; [change (1 ≤ 0)%nat in Hlen; lia|]. exists p.
  split; [exact E|]. split; [by rewrite Ei|]. apply Hst; cbn; lia.
Defined.
